(* ===== verification/_CoqProject ===== *)
-Q . S2P
Prelude.v
Setmode.v
MachO.v
Rebase.v
BootText.v
KextManifest.v
Efi.v
BootLogic.v
Sim.v
Loading.v
DeviceTree.v
Stage.v
KernelImage.v
BootMain.v
BootArgs.v
Handoff.v
Resources.v
KernelView.v
Words.v
Aes.v
Sha2.v
Sha1Md5.v
Digest.v
Random.v
Runs.v
SlideInfo.v
Leb128.v
DyldImage.v
SymbolIndex.v
MachImage.v
ExportTrie.v
Linker.v
ChainedFixups.v
Opcodes.v
Dyld.v
DyldKernel.v
Loader.v
SampleKernel.v
LoadImage.v
CacheBuild.v
CacheFile.v
CacheFixups.v
CacheBinds.v
CacheChains.v
CachePatch.v
CacheHeaders.v
SharedCache.v
CacheMapped.v
Resolve.v
SymbolSearch.v
SymbolGraph.v
