(* ===== verification/Prelude.v ===== *)
(** * Panthera verification library

    Panthera is a distribution of the Darwin operating system: an EFI boot
    loader, kernel extensions and a user land around Apple's kernel. This library
    models the parts of it that transform data by rules of their own and proves
    what they promise to each other.

    ** The parts and how they interact

    - The boot loader (boot/efi/loader/src) is started by the firmware. It reads
      the command line and the kernel file, parses the Mach-O image, copies,
      relocates and patches it, stages the kernel extensions its manifest
      enables, writes the device tree and the boot arguments, leaves boot
      services and jumps to the kernel.
    - The cryptographic kernel extension (kexts/corecrypto/src) gives the kernel
      block cipher modes, message digests and random numbers.
    - The shared cache builder (tools/build_shared_cache_real.c) lays the system
      libraries out in one file and records where it has pointers; the dynamic
      linker (userland/dyld/panthera_dyld.cpp) maps the file into a process,
      restores the pointers and looks up symbols.
    - The mode compiler (userland/file_cmds/panthera_setmode.c) serves chmod and
      the other file commands.

    ** Conventions

    A [w]-bit unsigned integer is a [Z] and results are reduced by [wrap w]; a C
    string is the list of the characters before its NUL; a file is the list of
    its bytes; physical memory and buffers that alias are a finite map from
    addresses to bytes ([mem]). An access outside an object is a value of its
    own ([OutOfBounds], [Fault], [None]), and the theorems exclude it. Loops
    whose exit is not structural are [while fuel step]; every fuel is a bound
    computed from the input (a file size, a string length) and the theorems show
    that it suffices, except for the loops that the source itself does not bound,
    which return [None] as long as they run. Code outside the tree (firmware
    services, the record layouts shared with the kernel, corecrypto's context
    functions, the entropy source) is a class; what is relied on is a class of
    laws beside it, with an instance that satisfies them.

    ** Files

    Prelude.v: integers, bytes, memory, loops, tactics, hints.

    Setmode.v models userland/file_cmds/panthera_setmode.c ([setmode],
    [compress_mode], [getmode]). Symbolic expressions are compiled to code that
    means what the expression says, compression does not change the meaning,
    octal modes are taken over exactly, and the command array is never overrun
    (a store outside it is a [Fault] of the model).

    MachO.v and Rebase.v model boot/efi/loader/src/panthera_loader.c. The parser
    never reads outside the file and inverts an encoder of kernel images;
    relocation adds the slide to exactly the pointers that the bytes of the table
    name; the metadata pass
    terminates and rewrites exactly the header, the pointer tables and the
    symbols. The lemma [loaded_vmaddr_above_image] is the range test that accepts addresses
    above the image.

    The other files from BootText.v to KernelView.v model
    boot/efi/loader/src/bootx64.c:
    BootText.v its strings, number output and clock formula;
    KextManifest.v the table of kernel extensions;
    Efi.v the firmware class, the loader monad over memory, variables, firmware
    and trace, and file loading;
    BootLogic.v preservation and Hoare judgements and the contract of the
    firmware; Sim.v a concrete firmware that keeps it;
    Loading.v what loading a file guarantees;
    DeviceTree.v the flattened device tree, with a reader that inverts it;
    Stage.v the boot data allocator, the extensions and the kernel image;
    KernelImage.v the staged kernel and its startup patches;
    BootMain.v the memory map, the boot arguments, the hand-off and [EfiMain];
    BootArgs.v the memory map loops and the boot arguments;
    Handoff.v the exit protocol on every firmware;
    Resources.v that no pool buffer or file handle is lost on any path;
    KernelView.v the composition: what is in memory when the kernel is entered.

    Words.v, Aes.v, Sha2.v, Sha1Md5.v, Digest.v and Random.v model
    kexts/corecrypto/src. The AES modes are those of FIPS 197 and are inverted by
    their decryption, also in place; the unrolled compression functions equal
    those of FIPS 180-4 and RFC 1321; the one-shot digest is MD5, SHA-1 or
    SHA-256 of the message. For SHA-384 and SHA-512 the same finalisation pads to
    half a block ([sha512_final_half_block] says what it computes), and the digest
    is not the standard's ([sha512_digest_wrong]). The memory generator emits the
    splitmix64 stream without repetition, and the bounded draw is unbiased.

    The other files model userland/dyld/panthera_dyld.cpp and
    tools/build_shared_cache_real.c. They share Runs.v (iteration counts of
    [while], memory lemmas), Leb128.v, DyldImage.v (strings and symbol tables) and
    MachImage.v (load commands in memory).

    What dyld reads and writes. SlideInfo.v has the chains of pointers the builder
    writes and dyld decodes: decoding what was encoded restores the pointers, at
    any slide, except for a pointer to the base of the region. SymbolIndex.v has
    the hash index over symbol tables, which answers like a scan of the table.
    ExportTrie.v has the search in export tries, proved against an abstract prefix
    tree and the bytes that encode it. Linker.v has the class of what the code that
    applies fixups needs of the rest of dyld; ChainedFixups.v and Opcodes.v have the
    two formats of fixups. Each is given as abstract data and the bytes that encode
    it, and the interpreters are shown to write exactly the pointers the data
    denotes, and what it denotes.

    How dyld gets its images. Dyld.v has its state, the system calls over a class,
    and the search of the cache; DyldKernel.v the laws of the system calls and
    SampleKernel.v a kernel that keeps them; Loader.v and LoadImage.v the loading
    of an image and its dependencies; Resolve.v the search for a symbol over the
    loaded images. SymbolSearch.v shows that dyld is an instance of the class in
    Linker.v, and SymbolGraph.v to which definition a symbol resolves. SharedCache.v
    maps the shared cache.

    How the cache is built. CacheBuild.v parses the libraries, places and copies
    their segments and writes the header; CacheFile.v shows what the file holds;
    CacheFixups.v applies rebase opcodes, CacheBinds.v resolves symbols, applies
    bind opcodes and adjusts symbol tables, CacheChains.v applies chained fixups;
    CachePatch.v rewrites load commands and patches instructions, and has the
    composition of all steps ([build_cache]); CacheHeaders.v shows what the
    rewritten headers say, byte by byte. The segments are placed in order and apart
    from each other, the pointers get the cache addresses of what they pointed to, and the stubs reach
    the same pointers as before. CacheMapped.v joins both programs: the file that
    the builder writes is in memory as it was meant once dyld has mapped it.

    The recursions over dependencies and re-exports have as many rounds as there
    can be images; the theorems say when they end. What the programs print is
    left out.

    ** Not modelled

    Of dyld, the start-up of a process and the services for running programs are
    not modelled; of the cache builder, the arguments and the list of paths. For
    the scan of code for displacements ([patch_text_rip_refs]) single patches are
    shown to be right, not that the scan finds exactly the displacements: it guesses
    from the bytes before each position. No theorem covers the kernel's shared region,
    whose effect is the kernel's.
    The hand-off assembly (panthera_handoff.S) and the scripts only drive the
    processor and external tools. Apple's kernel, drivers, file systems and
    daemons kept under src/ and kexts/ depend on hardware registers, Mach messages
    or parts of the kernel that are not in the tree. Third-party packages are
    build glue. Registering the cryptographic function table with the kernel,
    and HMAC, which the table takes from corecrypto, are calls into code outside
    the tree. *)

From Stdlib Require Import ZArith Lia Ascii String Btauto.
From stdpp Require Import base list gmap.

Open Scope Z_scope.

(** ** Machine integers

    A [w]-bit unsigned integer is a [Z]; every operation of the source whose
    result is stored in a [w]-bit object goes through [wrap w]. *)
Definition wrap (w z : Z) : Z := z mod 2 ^ w.

Declare Scope c_scope.
Delimit Scope c_scope with C.
Notation "x +64 y" := (wrap 64 (x + y)) (at level 50, left associativity) : c_scope.
Notation "x -64 y" := (wrap 64 (x - y)) (at level 50, left associativity) : c_scope.
Notation "x *64 y" := (wrap 64 (x * y)) (at level 40, left associativity) : c_scope.
Notation "x +32 y" := (wrap 32 (x + y)) (at level 50, left associativity) : c_scope.
Notation "x -32 y" := (wrap 32 (x - y)) (at level 50, left associativity) : c_scope.
Open Scope c_scope.

(** [signed w z] reads the [w]-bit pattern [z] as a two's complement integer. *)
Definition signed (w z : Z) : Z := if z <? 2 ^ (w - 1) then z else z - 2 ^ w.

(** The [n] low bits of [z] that start at bit [i]: [(z >> i) & (2^n - 1)]. *)
Definition bits (z i n : Z) : Z := Z.land (Z.shiftr z i) (Z.ones n).

(** ** Byte memory

    Physical memory of the identity-mapped firmware environment: every address
    holds a byte, and an address nobody wrote reads as zero. *)
Abbreviation mem := (gmap Z Z).
Definition mget (m : mem) (a : Z) : Z := default 0 (m !! a).
Definition mput (m : mem) (a v : Z) : mem := <[a := v mod 256]> m.

(** Two memories are equivalent when every address reads the same. *)
Definition mem_eq (m m' : mem) : Prop := forall a, mget m a = mget m' a.
Infix "≡m" := mem_eq (at level 70, no associativity).

(** Little-endian loads and stores of [n] bytes. *)
Fixpoint mread (m : mem) (a : Z) (n : nat) : Z :=
  match n with
  | O => 0
  | S k => mget m a + 256 * mread m (a + 1) k
  end.

Fixpoint mwrite (m : mem) (a : Z) (n : nat) (v : Z) : mem :=
  match n with
  | O => m
  | S k => mwrite (mput m a v) (a + 1) k (v / 256)
  end.

(** Bytes of a region as a list, and a list stored at an address. *)
Fixpoint mbytes (m : mem) (a : Z) (n : nat) : list Z :=
  match n with
  | O => []
  | S k => mget m a :: mbytes m (a + 1) k
  end.

Fixpoint mstore (m : mem) (a : Z) (bs : list Z) : mem :=
  match bs with
  | [] => m
  | b :: bs' => mstore (mput m a b) (a + 1) bs'
  end.

(** The region at [a] holds the bytes [bs]. *)
Definition holds (m : mem) (a : Z) (bs : list Z) : Prop := mbytes m a (length bs) = bs.

(** [m'] differs from [m] at most inside [[a, a + n)]. *)
Definition only_in (a n : Z) (m m' : mem) : Prop :=
  forall b, b < a \/ a + n <= b -> mget m' b = mget m b.

(** Every stored byte is a byte. *)
Definition mem_wf (m : mem) : Prop := forall a, 0 <= mget m a < 256.

(** ** Little-endian byte lists *)
Fixpoint le_decode (bs : list Z) : Z :=
  match bs with
  | [] => 0
  | b :: bs' => b + 256 * le_decode bs'
  end.

Fixpoint le_encode (n : nat) (v : Z) : list Z :=
  match n with
  | O => []
  | S k => v mod 256 :: le_encode k (v / 256)
  end.

Definition byte (b : Z) : Prop := 0 <= b < 256.

(** ** C text

    A C string is the list of its characters before the terminating NUL;
    reading at the end of the list is reading that NUL. *)
Definition ch (a : ascii) : Z := Z.of_N (N_of_ascii a).
Fixpoint str (s : string) : list Z :=
  match s with
  | EmptyString => []
  | String a s' => ch a :: str s'
  end.

(** The C string at the start of a character array. *)
Fixpoint c_string (bs : list Z) : list Z :=
  match bs with
  | [] => []
  | c :: bs' => if c =? 0 then [] else c :: c_string bs'
  end.

(** The character under a [char *] cursor. *)
Definition deref (p : list Z) : Z := match p with [] => 0 | c :: _ => c end.

(** ** Loops

    A C loop is a step function: [inl] is the state at the next evaluation of
    the loop condition, [inr] is what the loop leaves with (its normal exit, a
    [return] inside it, or an access outside an object). The number of rounds
    is a [positive], so that a bound such as [2^64] costs nothing to write and
    evaluation stops at the first exit. *)
Section Loop.
Context {S R : Type}.

Fixpoint loop (p : positive) (f : S -> S + R) (s : S) : S + R :=
  match p with
  | xH => f s
  | xO q => match loop q f s with inl s' => loop q f s' | inr r => inr r end
  | xI q =>
      match f s with
      | inl s' => match loop q f s' with inl s'' => loop q f s'' | inr r => inr r end
      | inr r => inr r
      end
  end.

(** The same with a default for the case that the rounds run out. *)
Definition while (p : positive) (dflt : R) (f : S -> S + R) (s : S) : R :=
  match loop p f s with inl _ => dflt | inr r => r end.
End Loop.

Definition rounds32 : positive := 4294967296.
Definition rounds64 : positive := 18446744073709551616.

(** ** Automation

    [wrap_tac] turns wrap-around arithmetic into linear arithmetic once the
    bounds are in the context; [mem_tac] decides lookups of updated memory. *)
Create HintDb panthera.
Create Rewrite HintDb panthera.

Lemma wrap_small w z : 0 <= z < 2 ^ w -> wrap w z = z.
Proof. intros H. unfold wrap. by apply Z.mod_small. Qed.

Lemma wrap_range w z : 0 <= w -> 0 <= wrap w z < 2 ^ w.
Proof. intros H. unfold wrap. apply Z.mod_pos_bound. lia. Qed.

Lemma wrap_wrap w z : wrap w (wrap w z) = wrap w z.
Proof. unfold wrap. apply Zmod_mod. Qed.

Lemma wrap_add_l w x y : wrap w (wrap w x + y) = wrap w (x + y).
Proof. unfold wrap. apply Zplus_mod_idemp_l. Qed.

Lemma wrap_add_r w x y : wrap w (x + wrap w y) = wrap w (x + y).
Proof. unfold wrap. apply Zplus_mod_idemp_r. Qed.

Lemma wrap_sub_l w x y : wrap w (wrap w x - y) = wrap w (x - y).
Proof. unfold wrap. apply Zminus_mod_idemp_l. Qed.

Lemma wrap_64_range z : 0 <= wrap 64 z < 2 ^ 64.
Proof. by apply wrap_range. Qed.

Lemma wrap_32_range z : 0 <= wrap 32 z < 2 ^ 32.
Proof. by apply wrap_range. Qed.

#[export] Hint Resolve wrap_64_range wrap_32_range : panthera.

(** A difference that would be negative wraps past the top. *)
Lemma wrap_neg w z : - 2 ^ w <= z < 0 -> wrap w z = z + 2 ^ w.
Proof.
  intros H. unfold wrap. rewrite <- (Z_mod_plus_full z 1 (2 ^ w)).
  rewrite Z.mod_small; lia.
Qed.

Lemma wrap_over w z : 2 ^ w <= z < 2 * 2 ^ w -> wrap w z = z - 2 ^ w.
Proof.
  intros H. unfold wrap. rewrite <- (Z_mod_plus_full z (-1) (2 ^ w)).
  rewrite Z.mod_small; lia.
Qed.

Ltac wrap_tac :=
  repeat match goal with
    | |- context [wrap ?w ?z] =>
        rewrite (wrap_small w z) by (change (2 ^ 64) with 18446744073709551616 in *;
                                      change (2 ^ 32) with 4294967296 in *; lia)
    end.

(** ** Memory lemmas *)
Lemma mget_mput m a v b :
  mget (mput m a v) b = if decide (a = b) then v mod 256 else mget m b.
Proof.
  unfold mget, mput. rewrite lookup_insert. by case_decide.
Qed.

Lemma mget_mput_eq m a v : mget (mput m a v) a = v mod 256.
Proof. rewrite mget_mput. by rewrite decide_True. Qed.

Lemma mget_mput_ne m a v b : a <> b -> mget (mput m a v) b = mget m b.
Proof. intros. rewrite mget_mput. by rewrite decide_False. Qed.

#[export] Instance mem_eq_equiv : Equivalence mem_eq.
Proof.
  split; repeat intro; unfold mem_eq in *; congruence.
Qed.

#[export] Instance mget_proper : Proper (mem_eq ==> eq ==> eq) mget.
Proof. intros m m' H a ? <-. apply H. Qed.

#[export] Instance mput_proper : Proper (mem_eq ==> eq ==> eq ==> mem_eq) mput.
Proof.
  intros m m' H a ? <- v ? <- b. rewrite !mget_mput. case_decide; [done | apply H].
Qed.

#[export] Instance mread_proper : Proper (mem_eq ==> eq ==> eq ==> eq) mread.
Proof.
  intros m m' H a ? <- n ? <-. revert a. induction n as [|n IH]; intros a; simpl; [done|].
  by rewrite (H a), IH.
Qed.

#[export] Instance mwrite_proper : Proper (mem_eq ==> eq ==> eq ==> eq ==> mem_eq) mwrite.
Proof.
  intros m m' H a ? <- n ? <- v ? <-. revert m m' H a v.
  induction n as [|n IH]; intros m m' H a v; simpl; [done|].
  apply IH. by rewrite H.
Qed.

#[export] Instance mbytes_proper : Proper (mem_eq ==> eq ==> eq ==> eq) mbytes.
Proof.
  intros m m' H a ? <- n ? <-. revert a. induction n as [|n IH]; intros a; simpl; [done|].
  by rewrite (H a), IH.
Qed.

#[export] Instance mstore_proper : Proper (mem_eq ==> eq ==> eq ==> mem_eq) mstore.
Proof.
  intros m m' H a ? <- bs ? <-. revert m m' H a.
  induction bs as [|b bs IH]; intros m m' H a; simpl; [done|].
  apply IH. by rewrite H.
Qed.

(** Stores leave addresses outside their range alone. *)
Lemma mget_mwrite_out m a n v b :
  b < a \/ a + Z.of_nat n <= b -> mget (mwrite m a n v) b = mget m b.
Proof.
  revert m a v. induction n as [|n IH]; intros m a v H; simpl; [done|].
  rewrite IH by lia. apply mget_mput_ne. lia.
Qed.

Lemma mget_mstore_out m a bs b :
  b < a \/ a + Z.of_nat (length bs) <= b -> mget (mstore m a bs) b = mget m b.
Proof.
  revert m a. induction bs as [|x bs IH]; intros m a H; simpl in *; [done|].
  rewrite IH by lia. apply mget_mput_ne. lia.
Qed.

Lemma mread_ext m m' a n :
  (forall b, a <= b < a + Z.of_nat n -> mget m b = mget m' b) -> mread m a n = mread m' a n.
Proof.
  revert a. induction n as [|n IH]; intros a H; simpl; [done|].
  rewrite H by lia. rewrite IH; [done|]. intros b Hb. apply H. lia.
Qed.

Lemma mbytes_ext m m' a n :
  (forall b, a <= b < a + Z.of_nat n -> mget m b = mget m' b) -> mbytes m a n = mbytes m' a n.
Proof.
  revert a. induction n as [|n IH]; intros a H; simpl; [done|].
  rewrite H by lia. f_equal. apply IH. intros b Hb. apply H. lia.
Qed.

Lemma mread_mwrite_disjoint m a n v b k :
  b + Z.of_nat k <= a \/ a + Z.of_nat n <= b -> mread (mwrite m a n v) b k = mread m b k.
Proof. intros H. apply mread_ext. intros c Hc. apply mget_mwrite_out. lia. Qed.

Lemma mread_mwrite m a n v : mread (mwrite m a n v) a n = v mod 256 ^ Z.of_nat n.
Proof.
  revert m a v. induction n as [|n IH]; intros m a v.
  - simpl. by rewrite Z.mod_1_r.
  - cbn [mread mwrite]. rewrite mget_mwrite_out by lia. rewrite mget_mput_eq, IH.
    rewrite Nat2Z.inj_succ, Z.pow_succ_r by lia.
    rewrite (Z.rem_mul_r v 256 (256 ^ Z.of_nat n)); lia.
Qed.

Lemma mread_range m a n : mem_wf m -> 0 <= mread m a n < 256 ^ Z.of_nat n.
Proof.
  intros Hm. revert a. induction n as [|n IH]; intros a; cbn [mread].
  - simpl. lia.
  - specialize (IH (a + 1)). specialize (Hm a).
    rewrite Nat2Z.inj_succ, Z.pow_succ_r by lia. lia.
Qed.

Lemma mem_wf_mput m a v : mem_wf m -> mem_wf (mput m a v).
Proof.
  intros H b. rewrite mget_mput. case_decide; [|done].
  apply Z.mod_pos_bound. lia.
Qed.

Lemma mem_wf_mwrite m a n v : mem_wf m -> mem_wf (mwrite m a n v).
Proof.
  revert m a v. induction n as [|n IH]; intros m a v H; simpl; [done|].
  apply IH. by apply mem_wf_mput.
Qed.

Lemma mem_wf_mstore m a bs : mem_wf m -> mem_wf (mstore m a bs).
Proof.
  revert m a. induction bs as [|x bs IH]; intros m a H; simpl; [done|].
  apply IH. by apply mem_wf_mput.
Qed.

Lemma mem_wf_empty : mem_wf ∅.
Proof. intros a. unfold mget. rewrite lookup_empty. simpl. lia. Qed.

#[export] Hint Resolve mem_wf_mput mem_wf_mwrite mem_wf_mstore mem_wf_empty : panthera.

Lemma length_mbytes m a n : length (mbytes m a n) = n.
Proof. revert a. induction n as [|n IH]; intros a; simpl; [done|]. by rewrite IH. Qed.

Lemma mread_mbytes m a n : mread m a n = le_decode (mbytes m a n).
Proof. revert a. induction n as [|n IH]; intros a; simpl; [done|]. by rewrite IH. Qed.

Lemma mwrite_mstore m a n v : mwrite m a n v = mstore m a (le_encode n v).
Proof.
  revert m a v. induction n as [|n IH]; intros m a v; simpl; [done|].
  rewrite IH. unfold mput. by rewrite Zmod_mod.
Qed.

Lemma mbytes_mstore m a bs :
  Forall byte bs -> mbytes (mstore m a bs) a (length bs) = bs.
Proof.
  revert m a. induction bs as [|x bs IH]; intros m a H; cbn [mstore length mbytes]; [done|].
  inversion H as [|? ? Hx Hbs]; subst. rewrite IH by done.
  rewrite mget_mstore_out, mget_mput_eq by lia. f_equal.
  apply Z.mod_small. apply Hx.
Qed.

Lemma mbytes_app m a n k :
  mbytes m a (n + k) = mbytes m a n ++ mbytes m (a + Z.of_nat n) k.
Proof.
  revert a. induction n as [|n IH]; intros a; cbn [Nat.add mbytes app].
  - by rewrite Z.add_0_r.
  - rewrite IH. do 3 f_equal. lia.
Qed.

Lemma mstore_app m a bs cs :
  mstore m a (bs ++ cs) = mstore (mstore m a bs) (a + Z.of_nat (length bs)) cs.
Proof.
  revert m a. induction bs as [|x bs IH]; intros m a; cbn [app mstore length].
  - by rewrite Z.add_0_r.
  - rewrite IH. f_equal. lia.
Qed.

(** ** Little-endian lemmas *)
Lemma length_le_encode n v : length (le_encode n v) = n.
Proof. revert v. induction n as [|n IH]; intros v; simpl; [done|]. by rewrite IH. Qed.

Lemma bits_mod v i n : 0 <= i -> 0 <= n -> bits v i n = (v / 2 ^ i) mod 2 ^ n.
Proof. intros. unfold bits. by rewrite Z.land_ones, Z.shiftr_div_pow2. Qed.

Lemma signed_wrap w x y : 0 < w -> - 2 ^ (w - 1) <= x < 2 ^ (w - 1) -> (y - x) mod 2 ^ w = 0 -> signed w (wrap w y) = x.
Proof.
  intros Hw Hx Hy. assert (Hp : 2 ^ w = 2 * 2 ^ (w - 1)) by (rewrite <- Z.pow_succ_r by lia; f_equal; lia).
  assert (Em : wrap w y = wrap w x).
  { unfold wrap. apply Z.mod_divide in Hy as [q Hq]; [|lia]. replace y with (x + q * 2 ^ w) by lia. by rewrite Z_mod_plus_full. }
  rewrite Em. unfold signed. destruct (Z.lt_ge_cases x 0).
  - rewrite wrap_neg by lia. destruct (Z.ltb_spec (x + 2 ^ w) (2 ^ (w - 1))); lia.
  - rewrite wrap_small by lia. destruct (Z.ltb_spec x (2 ^ (w - 1))); lia.
Qed.

Lemma le_encode_bytes n v : Forall byte (le_encode n v).
Proof.
  revert v. induction n as [|n IH]; intros v; simpl; constructor; [|done].
  apply Z.mod_pos_bound. lia.
Qed.

Lemma le_decode_encode n v : le_decode (le_encode n v) = v mod 256 ^ Z.of_nat n.
Proof.
  revert v. induction n as [|n IH]; intros v; cbn [le_decode le_encode].
  - by rewrite Z.mod_1_r.
  - rewrite IH, Nat2Z.inj_succ, Z.pow_succ_r by lia.
    rewrite (Z.rem_mul_r v 256 (256 ^ Z.of_nat n)); lia.
Qed.

Lemma le_decode_range bs :
  Forall byte bs -> 0 <= le_decode bs < 256 ^ Z.of_nat (length bs).
Proof.
  induction 1 as [|b bs Hb Hbs IH]; cbn [le_decode length].
  - simpl. lia.
  - unfold byte in Hb. rewrite Nat2Z.inj_succ, Z.pow_succ_r by lia. lia.
Qed.

(** ** Regions *)
Lemma holds_app m a x y :
  holds m a (x ++ y) <-> holds m a x /\ holds m (a + Z.of_nat (length x)) y.
Proof.
  unfold holds. rewrite length_app, mbytes_app. split.
  - intros H. apply app_inj_1 in H; [done|]. apply length_mbytes.
  - by intros [-> ->].
Qed.

Lemma holds_ext m m' a bs :
  (forall b, a <= b < a + Z.of_nat (length bs) -> mget m' b = mget m b) ->
  holds m a bs -> holds m' a bs.
Proof. unfold holds. intros H Hm. rewrite <- Hm at 2. by apply mbytes_ext. Qed.

Lemma holds_only_in m m' a n c bs :
  only_in a n m m' -> c + Z.of_nat (length bs) <= a \/ a + n <= c ->
  holds m c bs -> holds m' c bs.
Proof. intros H Hd. apply holds_ext. intros b Hb. apply H. lia. Qed.

Lemma holds_mwrite m a n v : holds (mwrite m a n v) a (le_encode n v).
Proof.
  unfold holds. rewrite mwrite_mstore, mbytes_mstore; [done|]. apply le_encode_bytes.
Qed.

Lemma holds_mread m a n v : holds m a (le_encode n v) -> mread m a n = v mod 256 ^ Z.of_nat n.
Proof.
  unfold holds. rewrite length_le_encode, mread_mbytes. intros ->. apply le_decode_encode.
Qed.

Lemma only_in_mwrite m a n v : only_in a (Z.of_nat n) m (mwrite m a n v).
Proof. intros b Hb. by apply mget_mwrite_out. Qed.

Lemma only_in_mstore m a bs : only_in a (Z.of_nat (length bs)) m (mstore m a bs).
Proof. intros b Hb. by apply mget_mstore_out. Qed.

Lemma only_in_refl a n m : only_in a n m m.
Proof. by intros b _. Qed.

Lemma only_in_trans a n m1 m2 m3 : only_in a n m1 m2 -> only_in a n m2 m3 -> only_in a n m1 m3.
Proof. intros H1 H2 b Hb. by rewrite H2, H1. Qed.

Lemma only_in_weaken a n c k m m' :
  only_in a n m m' -> c <= a -> a + n <= c + k -> only_in c k m m'.
Proof. intros H ? ? b Hb. apply H. lia. Qed.

Lemma mread_only_in a n m m' c k :
  only_in a n m m' -> c + Z.of_nat k <= a \/ a + n <= c -> mread m' c k = mread m c k.
Proof. intros H Hd. apply mread_ext. intros b Hb. apply H. lia. Qed.

#[export] Hint Resolve only_in_mwrite only_in_mstore only_in_refl holds_mwrite : panthera.

(** Replacing a field of a region. *)
Lemma holds_update m a x n v w y :
  holds m a (x ++ le_encode n v ++ y) ->
  holds (mwrite m (a + Z.of_nat (length x)) n w) a (x ++ le_encode n w ++ y).
Proof.
  rewrite !holds_app, !length_le_encode. intros (Hx & _ & Hy).
  pose proof (only_in_mwrite m (a + Z.of_nat (length x)) n w) as Ho. split; [|split].
  - eapply holds_only_in; [exact Ho| |done]. lia.
  - apply holds_mwrite.
  - eapply holds_only_in; [exact Ho| |done]. lia.
Qed.

#[export] Hint Resolve le_encode_bytes : panthera.
#[export] Hint Rewrite length_mbytes length_le_encode : panthera.

(** ** Loop rules *)
Section LoopRules.
Context {S R : Type}.
Variables (f : S -> S + R) (I : S -> Prop) (mu : S -> Z) (Q : R -> Prop).
Hypothesis step : forall s, I s ->
  match f s with inl s' => I s' /\ mu s' < mu s | inr r => Q r end.

Lemma loop_progress p s : I s ->
  match loop p f s with inl s' => I s' /\ mu s' <= mu s - Zpos p | inr r => Q r end.
Proof.
  revert s. induction p as [q IH|q IH|]; intros s Hs; cbn [loop].
  - specialize (step s Hs). destruct (f s) as [s1|r]; [|done]. destruct step as [H1 L1].
    specialize (IH s1 H1) as IH1. destruct (loop q f s1) as [s2|r]; [|done].
    destruct IH1 as [H2 L2]. specialize (IH s2 H2). destruct (loop q f s2); [|done].
    split; [tauto|lia].
  - specialize (IH s Hs) as IH1. destruct (loop q f s) as [s2|r]; [|done].
    destruct IH1 as [H2 L2]. specialize (IH s2 H2). destruct (loop q f s2); [|done].
    split; [tauto|lia].
  - specialize (step s Hs). destruct (f s); [|done]. split; [tauto|lia].
Qed.

(** Total correctness: an invariant, a measure bounded by the rounds, and a
    postcondition established by every exit. *)
Lemma loop_rule p s :
  I s -> (forall s', I s' -> 0 <= mu s') -> mu s < Zpos p ->
  exists r, loop p f s = inr r /\ Q r.
Proof.
  intros Hs Hpos Hmu. pose proof (loop_progress p s Hs) as H.
  destruct (loop p f s) as [s'|r]; [|by eexists].
  destruct H as [Hs' Hle]. specialize (Hpos s' Hs'). lia.
Qed.

Lemma while_rule p dflt s :
  I s -> (forall s', I s' -> 0 <= mu s') -> mu s < Zpos p -> Q (while p dflt f s).
Proof.
  intros Hs Hpos Hmu. destruct (loop_rule p s Hs Hpos Hmu) as (r & E & HQ).
  unfold while. by rewrite E.
Qed.
End LoopRules.
