(* ===== verification/Setmode.v ===== *)
(** * chmod mode expressions: userland/file_cmds/panthera_setmode.c

    [setmode] compiles an octal or symbolic mode expression into an array of
    [BITCMD]s, [compress_mode] shortens the array in place, and [getmode]
    applies it to a file mode. [mode_t] is 16 bits wide; every mode below is a
    [Z] in [0, 2^16). The string is a list of characters, [malloc] and
    [realloc] are a predicate that says which request sizes succeed, and an
    access that would fall outside the array, in ADDCMD or in [compress_mode],
    is the value [Fault]. *)

From Stdlib Require Import ZArith Lia Ascii String Btauto.
From stdpp Require Import base list.
From S2P Require Import Prelude.

Open Scope Z_scope.

(** ** Data *)
Record BITCMD := mkCmd { cmd : Z; cmd2 : Z; cbits : Z }.

Definition SET_LEN : Z := 6.
Definition SET_LEN_INCR : Z := 4.

Definition CMD2_CLR : Z := 1.
Definition CMD2_SET : Z := 2.
Definition CMD2_GBITS : Z := 4.
Definition CMD2_OBITS : Z := 8.
Definition CMD2_UBITS : Z := 16.

(** <sys/stat.h> mode bits. *)
Definition S_ISUID : Z := 2048.
Definition S_ISGID : Z := 1024.
Definition S_ISTXT : Z := 512.
Definition S_IRWXU : Z := 448.
Definition S_IRWXG : Z := 56.
Definition S_IRWXO : Z := 7.
Definition S_IRUSR : Z := 256.
Definition S_IRGRP : Z := 32.
Definition S_IROTH : Z := 4.
Definition S_IR : Z := 292.
Definition S_IW : Z := 146.
Definition S_IX : Z := 73.
Definition S_IFDIR : Z := 16384.
Definition STANDARD_BITS : Z := 3583.

Definition c_plus : Z := ch "+".
Definition c_minus : Z := ch "-".
Definition c_eq : Z := ch "=".
Definition c_X : Z := ch "X".
Definition c_u : Z := ch "u".
Definition c_g : Z := ch "g".
Definition c_o : Z := ch "o".

Definition testz (a b : Z) : bool := negb (Z.land a b =? 0).

(** ** getmode *)
Definition getmode_common (s : BITCMD) (value newmode : Z) : Z :=
  let n0 := newmode in
  let n3 :=
    if testz (cmd2 s) CMD2_CLR then
      let clrval := if testz (cmd2 s) CMD2_SET then S_IRWXO else value in
      let n1 := if testz (cmd2 s) CMD2_UBITS
                then Z.ldiff n0 (Z.land (Z.shiftl clrval 6) (cbits s)) else n0 in
      let n2 := if testz (cmd2 s) CMD2_GBITS
                then Z.ldiff n1 (Z.land (Z.shiftl clrval 3) (cbits s)) else n1 in
      if testz (cmd2 s) CMD2_OBITS
      then Z.ldiff n2 (Z.land clrval (cbits s)) else n2
    else n0 in
  if testz (cmd2 s) CMD2_SET then
    let n4 := if testz (cmd2 s) CMD2_UBITS
              then Z.lor n3 (Z.land (Z.shiftl value 6) (cbits s)) else n3 in
    let n5 := if testz (cmd2 s) CMD2_GBITS
              then Z.lor n4 (Z.land (Z.shiftl value 3) (cbits s)) else n4 in
    if testz (cmd2 s) CMD2_OBITS
    then Z.lor n5 (Z.land value (cbits s)) else n5
  else n3.

(** The loop of [getmode]; a list that ends without a terminating command
    stands for an array read past its end and yields [None]. *)
Fixpoint getmode_loop (set : list BITCMD) (omode newmode : Z) : option Z :=
  match set with
  | [] => None
  | s :: set' =>
      if cmd s =? c_u then
        getmode_loop set' omode
          (getmode_common s (Z.shiftr (Z.land newmode S_IRWXU) 6) newmode)
      else if cmd s =? c_g then
        getmode_loop set' omode
          (getmode_common s (Z.shiftr (Z.land newmode S_IRWXG) 3) newmode)
      else if cmd s =? c_o then
        getmode_loop set' omode (getmode_common s (Z.land newmode S_IRWXO) newmode)
      else if cmd s =? c_plus then getmode_loop set' omode (Z.lor newmode (cbits s))
      else if cmd s =? c_minus then getmode_loop set' omode (Z.ldiff newmode (cbits s))
      else if cmd s =? c_X then
        getmode_loop set' omode
          (if testz omode (Z.lor S_IFDIR S_IX) then Z.lor newmode (cbits s) else newmode)
      else Some newmode
  end.

Definition getmode (bbox : list BITCMD) (omode : Z) : option Z :=
  getmode_loop bbox omode omode.

(** ** addcmd *)
Definition nonzero_or (a b : Z) : Z := if a =? 0 then b else a.

(** The commands one [addcmd] call writes, in order. *)
Definition addcmd (op who oparg mask : Z) : list BITCMD :=
  let one o := mkCmd o 0 (Z.land (nonzero_or who mask) oparg) in
  if op =? c_eq then
    [mkCmd c_minus 0 (nonzero_or who STANDARD_BITS); one c_plus]
  else if (op =? c_plus) || (op =? c_minus) || (op =? c_X) then [one op]
  else
    let base :=
      if who =? 0 then (Z.lor CMD2_UBITS (Z.lor CMD2_GBITS CMD2_OBITS), mask)
      else (Z.lor (if testz who S_IRUSR then CMD2_UBITS else 0)
             (Z.lor (if testz who S_IRGRP then CMD2_GBITS else 0)
                    (if testz who S_IROTH then CMD2_OBITS else 0)), 65535) in
    let c2 :=
      if oparg =? c_plus then Z.lor base.1 CMD2_SET
      else if oparg =? c_minus then Z.lor base.1 CMD2_CLR
      else if oparg =? c_eq then Z.lor base.1 (Z.lor CMD2_SET CMD2_CLR)
      else base.1 in
    [mkCmd op c2 base.2].

(** ** The growing array

    [filled] is what [saveset .. set] holds; [setlen] the allocated length in
    commands, so [endset - saveset] is [setlen - 2]. *)
Record cmdbuf := mkBuf { filled : list BITCMD; setlen : Z }.

Inductive outcome (A : Type) :=
| Done (a : A)        (** normal continuation *)
| Null (errno : Z)    (** [goto out]: NULL is returned *)
| Fault.              (** a write outside the allocation *)
Arguments Done {A} _.
Arguments Null {A} _.
Arguments Fault {A}.

Definition obind {A B} (x : outcome A) (k : A -> outcome B) : outcome B :=
  match x with Done a => k a | Null e => Null e | Fault => Fault end.
Notation "'do' x <- m ; k" := (obind m (fun x => k))
  (at level 10, x pattern, m at level 100, k at level 200).

Definition EINVAL : Z := 22.
Definition ERANGE : Z := 34.
Definition ENOMEM : Z := 12.

(** sizeof(BITCMD): two chars and a 16-bit mode. *)
Definition sizeof_BITCMD : Z := 4.

Section Parser.
(** Which [malloc]/[realloc] sizes succeed, and what fresh memory holds. *)
Variable alloc_ok : Z -> bool.
Variable uninit : BITCMD.

Definition realloc_items (count item_size : Z) : outcome unit :=
  if negb (item_size =? 0) && ((2 ^ 64 - 1) / item_size <? count) then Null ENOMEM
  else if alloc_ok (count *64 item_size) then Done tt else Null ENOMEM.

(** Sequential writes through [set]; each must stay below [setlen]. *)
Definition write_cmds (b : cmdbuf) (cs : list BITCMD) : outcome cmdbuf :=
  if Z.of_nat (length (filled b) + length cs) <=? setlen b
  then Done (mkBuf (filled b ++ cs) (setlen b)) else Fault.

Definition ADDCMD (b : cmdbuf) (op who oparg mask : Z) : outcome cmdbuf :=
  do b' <- (if setlen b - 2 <=? Z.of_nat (length (filled b)) then
              let setlen' := wrap 32 (setlen b + SET_LEN_INCR) in
              do _ <- realloc_items setlen' sizeof_BITCMD;
              Done (mkBuf (filled b) setlen')
            else Done b);
  write_cmds b' (addcmd op who oparg mask).

(** [set->cmd = 0]: the other fields keep what the memory held. *)
Definition terminate (b : cmdbuf) : outcome (list BITCMD) :=
  do b' <- write_cmds b [mkCmd 0 (cmd2 uninit) (cbits uninit)];
  Done (filled b').

(** ** The symbolic parser *)
Fixpoint parse_who (p : list Z) (who : Z) : list Z * Z :=
  match p with
  | [] => (p, who)
  | c :: p' =>
      if c =? ch "a" then parse_who p' (Z.lor who STANDARD_BITS)
      else if c =? ch "u" then parse_who p' (Z.lor who (Z.lor S_ISUID S_IRWXU))
      else if c =? ch "g" then parse_who p' (Z.lor who (Z.lor S_ISGID S_IRWXG))
      else if c =? ch "o" then parse_who p' (Z.lor who S_IRWXO)
      else (p, who)
  end.

(** Whether set-id and sticky bits apply to [who]. *)
Definition who_special (who : Z) : bool := (who =? 0) || negb (Z.ldiff who S_IRWXO =? 0).

(** End of a permission list: the [default:] case of the permission switch. *)
Definition perm_end (op who perm permXbits mask : Z) (eqdone : bool) (b : cmdbuf)
  : outcome (bool * cmdbuf) :=
  do (eqdone', b') <-
    (if negb (perm =? 0) || ((op =? c_eq) && negb eqdone) then
       do b1 <- ADDCMD b op who perm mask;
       Done ((if op =? c_eq then true else eqdone), b1)
     else Done (eqdone, b));
  do b'' <- (if permXbits =? 0 then Done b' else ADDCMD b' c_X who permXbits mask);
  Done (eqdone', b'').

(** A [u], [g] or [o] in a permission list: pending bits are flushed first. *)
Definition perm_copy (c op who perm permXbits mask : Z) (eqdone : bool) (b : cmdbuf)
  : outcome (Z * Z * bool * cmdbuf) :=
  do b1 <- (if perm =? 0 then Done b else ADDCMD b op who perm mask);
  let eqdone' := if op =? c_eq then true else eqdone in
  do (px, b2) <-
    (if (op =? c_plus) && negb (permXbits =? 0)
     then (do b2 <- ADDCMD b1 c_X who permXbits mask; Done (0, b2))
     else Done (permXbits, b1));
  do b3 <- ADDCMD b2 c who op mask;
  Done (0, px, eqdone', b3).

Fixpoint perm_loop (p : list Z) (op who perm permXbits mask : Z) (eqdone : bool)
    (b : cmdbuf) : outcome (list Z * Z * bool * cmdbuf) :=
  let finish := do (e, b') <- perm_end op who perm permXbits mask eqdone b;
                Done (p, who, e, b') in
  match p with
  | [] => finish
  | c :: p' =>
      if c =? ch "r" then perm_loop p' op who (Z.lor perm S_IR) permXbits mask eqdone b
      else if c =? ch "s" then
        perm_loop p' op who
          (if who_special who then Z.lor perm (Z.lor S_ISUID S_ISGID) else perm)
          permXbits mask eqdone b
      else if c =? ch "t" then
        if who_special who
        then perm_loop p' op (Z.lor who S_ISTXT) (Z.lor perm S_ISTXT) permXbits mask eqdone b
        else perm_loop p' op who perm permXbits mask eqdone b
      else if c =? ch "w" then perm_loop p' op who (Z.lor perm S_IW) permXbits mask eqdone b
      else if c =? ch "X" then perm_loop p' op who perm S_IX mask eqdone b
      else if c =? ch "x" then perm_loop p' op who (Z.lor perm S_IX) permXbits mask eqdone b
      else if (c =? c_u) || (c =? c_g) || (c =? c_o) then
        do (perm', px, e, b') <- perm_copy c op who perm permXbits mask eqdone b;
        perm_loop p' op who perm' px mask e b'
      else finish
  end.

(** From the label [getop]; every round consumes its operator character, so
    [length p + 1] rounds are enough. *)
Fixpoint getop (fuel : nat) (p : list Z) (who mask : Z) (eqdone : bool) (b : cmdbuf)
  : option (outcome cmdbuf) :=
  match fuel with
  | O => None
  | S fuel' =>
      let op := deref p in
      if negb ((op =? c_plus) || (op =? c_minus) || (op =? c_eq)) then Some (Null EINVAL)
      else
        let eqdone := if op =? c_eq then false else eqdone in
        let who := Z.ldiff who S_ISTXT in
        match perm_loop (tail p) op who 0 0 mask eqdone b with
        | Done (p', who', eqdone', b') =>
            match p' with
            | [] => Some (Done b')
            | c :: q =>
                if negb (c =? ch ",") then getop fuel' p' who' mask eqdone' b'
                else
                  let '(q', who0) := parse_who q 0 in
                  getop fuel' q' who0 mask eqdone' b'
            end
        | Null e => Some (Null e)
        | Fault => Some Fault
        end
  end.

(** ** compress_mode

    One array, a write index [w] ([set]) and a read index [r] ([nset]). A read
    or a write past the end of the array gives [None]. *)
Definition put (a : list BITCMD) (w : nat) (c : BITCMD) : option (list BITCMD) :=
  if (w <? length a)%nat then Some (<[w := c]> a) else None.

Definition is_pmx (o : Z) : bool := (o =? c_plus) || (o =? c_minus) || (o =? c_X).

(** The inner [while]: copy commands that are not [+], [-] or [X]. The result
    says whether the terminator was copied. *)
Fixpoint compress_copy (fuel : nat) (a : list BITCMD) (w r : nat)
  : option (bool * list BITCMD * nat * nat) :=
  match fuel with
  | O => None
  | S fuel' =>
      match a !! r with
      | None => None
      | Some c =>
          if is_pmx (cmd c) then Some (false, a, w, r)
          else
            match put a w c with
            | None => None
            | Some a' =>
                if cmd c =? 0 then Some (true, a', S w, S r)
                else compress_copy fuel' a' (S w) (S r)
            end
      end
  end.

(** The inner [for]: accumulate a run of [+], [-] and [X]. *)
Fixpoint compress_gather (fuel : nat) (a : list BITCMD) (r : nat) (setbits clrbits Xbits : Z)
  : option (nat * Z * Z * Z) :=
  match fuel with
  | O => None
  | S fuel' =>
      match a !! r with
      | None => None
      | Some c =>
          if cmd c =? c_minus then
            compress_gather fuel' a (S r) (Z.ldiff setbits (cbits c))
              (Z.lor clrbits (cbits c)) (Z.ldiff Xbits (cbits c))
          else if cmd c =? c_plus then
            compress_gather fuel' a (S r) (Z.lor setbits (cbits c))
              (Z.ldiff clrbits (cbits c)) (Z.ldiff Xbits (cbits c))
          else if cmd c =? c_X then
            compress_gather fuel' a (S r) setbits clrbits
              (Z.lor Xbits (Z.ldiff (cbits c) setbits))
          else Some (r, setbits, clrbits, Xbits)
      end
  end.

(** One of the three guarded stores that follow the run. *)
Definition emit (o bits : Z) (a : list BITCMD) (w : nat) : option (list BITCMD * nat) :=
  if bits =? 0 then Some (a, w)
  else match put a w (mkCmd o 0 (wrap 16 bits)) with
       | None => None
       | Some a' => Some (a', S w)
       end.

Definition emit_run (c s x : Z) (a : list BITCMD) (w : nat) : option (list BITCMD * nat) :=
  match emit c_minus c a w with
  | None => None
  | Some (a1, w1) =>
      match emit c_plus s a1 w1 with
      | None => None
      | Some (a2, w2) => emit c_X x a2 w2
      end
  end.

Fixpoint compress_loop (fuel : nat) (a : list BITCMD) (w r : nat) : option (list BITCMD) :=
  match fuel with
  | O => None
  | S fuel' =>
      match compress_copy (length a) a w r with
      | None => None
      | Some (true, a', _, _) => Some a'
      | Some (false, a', w', r') =>
          match compress_gather (length a) a' r' 0 0 0 with
          | None => None
          | Some (r'', s, c, x) =>
              match emit_run c s x a' w' with
              | None => None
              | Some (a'', w'') => compress_loop fuel' a'' w'' r''
              end
          end
      end
  end.

Definition compress_mode (a : list BITCMD) : option (list BITCMD) :=
  compress_loop (S (length a)) a 0 0.

(** ** setmode *)
Definition isdigit (c : Z) : bool := (ch "0" <=? c) && (c <=? ch "9").
Definition isodigit (c : Z) : bool := (ch "0" <=? c) && (c <=? ch "7").
Definition LONG_MAX : Z := 2 ^ 63 - 1.

(** [strtol(p, &ep, 8)] at a digit: the value, saturated at [LONG_MAX], whether
    it overflowed (ERANGE), and the unread rest. *)
Fixpoint strtol8 (p : list Z) (acc : Z) (erange : bool) : Z * bool * list Z :=
  match p with
  | [] => (acc, erange, [])
  | c :: p' =>
      if isodigit c then
        let v := 8 * acc + (c - ch "0") in
        if LONG_MAX <? v then strtol8 p' LONG_MAX true else strtol8 p' v erange
      else (acc, erange, p)
  end.

(** The process attributes [get_current_umask] touches. *)
Record proc := mkProc { p_umask : Z; p_sigmask : Z }.

(** [umask(2)] returns the previous mask and installs the new one, cut to the
    bits of ALLPERMS (07777); the signal
    mask is filled around the two calls and restored afterwards. *)
Definition ALLPERMS : Z := 4095.

Definition sys_umask (new : Z) (st : proc) : Z * proc :=
  (p_umask st, mkProc (Z.land new ALLPERMS) (p_sigmask st)).

Definition get_current_umask (st : proc) : Z * proc :=
  let sigoset := p_sigmask st in
  let st1 := mkProc (p_umask st) (2 ^ 32 - 1) in
  let '(mask, st2) := sys_umask 0 st1 in
  let '(_, st3) := sys_umask mask st2 in
  (mask, mkProc (p_umask st3) sigoset).

Definition setmode (p : list Z) (st : proc) : option (outcome (list BITCMD)) * proc :=
  match p with
  | [] => (Some (Null EINVAL), st)
  | c :: p' =>
      let '(um, st') := get_current_umask st in
      let mask := Z.ldiff 65535 um in
      let setlen := SET_LEN + 2 in
      let res :=
        if negb (alloc_ok (setlen *64 sizeof_BITCMD)) then Some (Null ENOMEM)
        else
          let b0 := mkBuf [] setlen in
          if isdigit c then
            let '(perml, erange, ep) := strtol8 p 0 false in
            if negb (deref ep =? 0) then Some (Null EINVAL)
            else if erange && (perml =? LONG_MAX) then Some (Null ERANGE)
            else if negb (Z.ldiff perml (Z.lor STANDARD_BITS S_ISTXT) =? 0)
            then Some (Null EINVAL)
            else Some (do b <- ADDCMD b0 c_eq (Z.lor STANDARD_BITS S_ISTXT) perml mask;
                       terminate b)
          else
            let '(q, who) := parse_who p 0 in
            match getop (S (length q)) q who mask false b0 with
            | None => None
            | Some o =>
                match (do b <- o; terminate b) with
                | Done a =>
                    Some (match compress_mode a with Some a' => Done a' | None => Fault end)
                | Null e => Some (Null e)
                | Fault => Some Fault
                end
            end in
      (res, st')
  end.
End Parser.

(** ** compress_mode preserves the meaning of a command array *)
Definition cmd_wf (c : BITCMD) : Prop := 0 <= cbits c < 2 ^ 16.

Definition xcond (omode : Z) : bool := testz omode (Z.lor S_IFDIR S_IX).

(** What a run with accumulated clear, set and X bits does to a mode. *)
Definition eff (omode c s x nm : Z) : Z :=
  let n := Z.lor (Z.ldiff nm c) s in if xcond omode then Z.lor n x else n.

Definition nz (z : Z) : nat := if z =? 0 then 0%nat else 1%nat.

Ltac bitwise :=
  apply Z.bits_inj'; intros i Hi;
  repeat rewrite ?Z.lor_spec, ?Z.ldiff_spec, ?Z.land_spec, ?Z.bits_0;
  try btauto.

Lemma eff_minus o c s x b nm :
  Z.ldiff (eff o c s x nm) b = eff o (Z.lor c b) (Z.ldiff s b) (Z.ldiff x b) nm.
Proof. unfold eff. destruct (xcond o); bitwise. Qed.

Lemma eff_plus o c s x b nm :
  Z.lor (eff o c s x nm) b = eff o (Z.ldiff c b) (Z.lor s b) (Z.ldiff x b) nm.
Proof. unfold eff. destruct (xcond o); bitwise. Qed.

Lemma eff_X o c s x b nm :
  (if xcond o then Z.lor (eff o c s x nm) b else eff o c s x nm)
  = eff o c s (Z.lor x (Z.ldiff b s)) nm.
Proof. unfold eff. destruct (xcond o); [|done]. bitwise. Qed.

Lemma eff_0 o nm : eff o 0 0 0 nm = nm.
Proof. unfold eff. destruct (xcond o); bitwise. Qed.

Lemma is_pmx_cases o : is_pmx o = true -> o = c_plus \/ o = c_minus \/ o = c_X.
Proof. unfold is_pmx. rewrite !orb_true_iff, !Z.eqb_eq. tauto. Qed.

Lemma getmode_loop_app_congr p x y om nm :
  (forall nm', getmode_loop x om nm' = getmode_loop y om nm') ->
  getmode_loop (p ++ x) om nm = getmode_loop (p ++ y) om nm.
Proof.
  intros H. revert nm. induction p as [|s p IH]; intros nm; cbn [app getmode_loop]; [apply H|].
  by rewrite !IH.
Qed.

(** Past a terminator nothing is read. *)
Lemma getmode_loop_stop p t x y om nm :
  cmd t = 0 -> getmode_loop (p ++ t :: x) om nm = getmode_loop (p ++ t :: y) om nm.
Proof.
  intros Ht. apply getmode_loop_app_congr. intros nm'. cbn [getmode_loop].
  by rewrite Ht.
Qed.

Lemma getmode_loop_pmx c l om nm b :
  cmd c = b -> is_pmx b = true ->
  getmode_loop (c :: l) om nm =
  getmode_loop l om
    (if b =? c_minus then Z.ldiff nm (cbits c)
     else if b =? c_plus then Z.lor nm (cbits c)
     else if xcond om then Z.lor nm (cbits c) else nm).
Proof.
  intros <- H. cbn [getmode_loop].
  destruct (is_pmx_cases _ H) as [-> | [-> | ->]]; reflexivity.
Qed.

Definition terminated (l : list BITCMD) : Prop := Exists (fun c => cmd c = 0) l.

Definition view (a : list BITCMD) (w r : nat) : list BITCMD := take w a ++ drop r a.

Lemma drop_lookup (a : list BITCMD) r c : a !! r = Some c -> drop r a = c :: drop (S r) a.
Proof. intros. by apply drop_S. Qed.

Lemma terminated_lookup a r : terminated (drop r a) -> exists c, a !! r = Some c.
Proof.
  intros H. destruct (a !! r) as [c|] eqn:E; [by eexists|].
  rewrite drop_ge in H by by apply lookup_ge_None. inversion H.
Qed.

Lemma terminated_lt a r : terminated (drop r a) -> (r < length a)%nat.
Proof. intros H. destruct (terminated_lookup _ _ H) as [c E]. by apply lookup_lt_Some in E. Qed.

Lemma view_copy a w r c :
  (w <= r)%nat -> a !! r = Some c -> view (<[w := c]> a) (S w) (S r) = view a w r.
Proof.
  intros Hle E. unfold view. pose proof (lookup_lt_Some _ _ _ E) as Hr.
  rewrite (drop_lookup _ _ _ E), drop_insert_lt by lia.
  rewrite (take_S_r _ w c) by (apply list_lookup_insert_eq; lia).
  rewrite take_insert_ge by lia. by rewrite <- app_assoc.
Qed.

Lemma put_spec a w c : (w < length a)%nat -> put a w c = Some (<[w := c]> a).
Proof. intros H. unfold put. by rewrite (proj2 (Nat.ltb_lt _ _) H). Qed.

(** The copy loop keeps the view, stays in range and stops on a run or on the
    terminator. *)
Lemma compress_copy_spec fuel a w r :
  (w <= r)%nat -> (length a <= r + fuel)%nat -> terminated (drop r a) ->
  exists stop a' w' r',
    compress_copy fuel a w r = Some (stop, a', w', r') /\
    view a' w' r' = view a w r /\ length a' = length a /\
    (w' <= r')%nat /\ (r <= r')%nat /\ drop r' a' = drop r' a /\
    (if stop : bool then terminated (take w' a')
     else terminated (drop r' a') /\ exists c, a' !! r' = Some c /\ is_pmx (cmd c) = true).
Proof.
  revert a w r. induction fuel as [|fuel IH]; intros a w r Hle Hfuel Ht;
    pose proof (terminated_lt _ _ Ht) as Hr; [lia|].
  destruct (terminated_lookup _ _ Ht) as [c E]. cbn [compress_copy]. rewrite E.
  destruct (is_pmx (cmd c)) eqn:Ep.
  { exists false, a, w, r. repeat split; eauto. }
  rewrite put_spec by lia. pose proof (view_copy a w r c Hle E) as Hv.
  destruct (Z.eqb_spec (cmd c) 0) as [E0|E0].
  - exists true, (<[w := c]> a), (S w), (S r).
    rewrite length_insert, drop_insert_lt by lia. do 6 (split; [done || lia|]).
    apply Exists_exists. exists c. split; [|done].
    apply list_elem_of_lookup_2 with w.
    rewrite lookup_take_lt by lia. apply list_lookup_insert_eq. lia.
  - assert (Ht' : terminated (drop (S r) (<[w := c]> a))).
    { rewrite drop_insert_lt by lia. rewrite (drop_lookup _ _ _ E) in Ht.
      inversion Ht; subst; [congruence|done]. }
    destruct (IH (<[w := c]> a) (S w) (S r)) as (st & a' & w' & r' & -> & V & L & ? & ? & D & T);
      [lia | rewrite length_insert; lia | done|].
    exists st, a', w', r'. rewrite V, Hv, L, length_insert. rewrite drop_insert_lt in D by lia.
    do 6 (split; [done || lia|]). done.
Qed.

Definition mode16 (z : Z) : Prop := 0 <= z < 2 ^ 16.

Lemma mode16_bits z : 0 <= z -> (mode16 z <-> forall i, 16 <= i -> Z.testbit z i = false).
Proof.
  intros Hz. unfold mode16. split.
  - intros [_ H] i Hi. apply Z.bits_above_log2; [done|].
    destruct (Z.eq_dec z 0) as [->|]; [simpl; lia|]. apply Z.log2_lt_pow2 in H; lia.
  - intros H. split; [done|]. destruct (Z_lt_le_dec z (2 ^ 16)) as [|Hge]; [done|].
    assert (16 <= Z.log2 z) by (apply Z.log2_le_pow2; lia).
    specialize (H (Z.log2 z) ltac:(done)). rewrite Z.bit_log2 in H by lia. done.
Qed.

Lemma mode16_lor x y : mode16 x -> mode16 y -> mode16 (Z.lor x y).
Proof.
  intros Hx Hy. assert (0 <= Z.lor x y) by (apply Z.lor_nonneg; unfold mode16 in *; lia).
  apply mode16_bits; [done|]. intros i Hi. rewrite Z.lor_spec.
  apply mode16_bits with (i := i) in Hx; [|unfold mode16 in *; lia|done].
  apply mode16_bits with (i := i) in Hy; [|unfold mode16 in *; lia|done].
  by rewrite Hx, Hy.
Qed.

Lemma mode16_ldiff x y : mode16 x -> mode16 (Z.ldiff x y).
Proof.
  intros Hx. assert (0 <= Z.ldiff x y) by (apply Z.ldiff_nonneg; unfold mode16 in *; lia).
  apply mode16_bits; [done|]. intros i Hi. rewrite Z.ldiff_spec.
  apply mode16_bits with (i := i) in Hx; [|unfold mode16 in *; lia|done].
  by rewrite Hx.
Qed.

Lemma mode16_land_l x y : mode16 x -> mode16 (Z.land x y).
Proof.
  intros Hx. assert (0 <= Z.land x y) by (apply Z.land_nonneg; unfold mode16 in *; lia).
  apply mode16_bits; [done|]. intros i Hi. rewrite Z.land_spec.
  apply mode16_bits with (i := i) in Hx; [|unfold mode16 in *; lia|done].
  by rewrite Hx.
Qed.

Lemma mode16_0 : mode16 0.
Proof. unfold mode16. lia. Qed.

#[local] Hint Resolve mode16_lor mode16_ldiff mode16_land_l mode16_0 : core.

Lemma nz_lor_le x y : (nz (Z.lor x y) <= nz x + 1)%nat.
Proof. unfold nz. repeat case_match; lia. Qed.

Lemma nz_ldiff_le x y : (nz (Z.ldiff x y) <= nz x)%nat.
Proof.
  unfold nz. destruct (Z.eqb_spec x 0) as [->|].
  - by rewrite Z.ldiff_0_l.
  - case_match; lia.
Qed.

(** The gathering loop folds a run into three masks with the same effect, and
    never needs more output commands than it consumed input commands. *)
Lemma compress_gather_spec fuel a r s c x :
  (length a <= r + fuel)%nat -> terminated (drop r a) -> Forall cmd_wf (drop r a) ->
  mode16 s -> mode16 c -> mode16 x ->
  exists r' s' c' x',
    compress_gather fuel a r s c x = Some (r', s', c', x') /\
    (forall om nm, getmode_loop (drop r a) om (eff om c s x nm)
                   = getmode_loop (drop r' a) om (eff om c' s' x' nm)) /\
    (nz s' + nz c' + nz x' + r <= nz s + nz c + nz x + r')%nat /\
    (r <= r')%nat /\ terminated (drop r' a) /\ mode16 s' /\ mode16 c' /\ mode16 x' /\
    ((exists d, a !! r = Some d /\ is_pmx (cmd d) = true) -> (r < r')%nat).
Proof.
  revert r s c x. induction fuel as [|fuel IH]; intros r s c x Hf Ht Hw Hs Hc Hx;
    pose proof (terminated_lt _ _ Ht); [lia|].
  destruct (terminated_lookup _ _ Ht) as [d E]. cbn [compress_gather]. rewrite E.
  destruct (is_pmx (cmd d)) eqn:Ep.
  - rewrite (drop_lookup _ _ _ E) in Hw, Ht. inversion Hw as [|? ? Hd Hw']; subst.
    assert (Ht' : terminated (drop (S r) a)).
    { inversion Ht as [? ? E0|]; subst; [by rewrite E0 in Ep|done]. }
    pose proof (nz_lor_le c (cbits d)). pose proof (nz_lor_le s (cbits d)).
    pose proof (nz_lor_le x (Z.ldiff (cbits d) s)).
    pose proof (nz_ldiff_le c (cbits d)). pose proof (nz_ldiff_le s (cbits d)).
    pose proof (nz_ldiff_le x (cbits d)).
    assert (mode16 (cbits d)) by apply Hd.
    pose proof (is_pmx_cases _ Ep) as Hcases. rewrite (drop_lookup _ _ _ E).
    assert (Hstep : forall s1 c1 x1,
      mode16 s1 -> mode16 c1 -> mode16 x1 ->
      (nz s1 + nz c1 + nz x1 <= nz s + nz c + nz x + 1)%nat ->
      (forall om nm, getmode_loop (d :: drop (S r) a) om (eff om c s x nm)
                     = getmode_loop (drop (S r) a) om (eff om c1 s1 x1 nm)) ->
      exists r' s' c' x',
        compress_gather fuel a (S r) s1 c1 x1 = Some (r', s', c', x') /\
        (forall om nm, getmode_loop (d :: drop (S r) a) om (eff om c s x nm)
                       = getmode_loop (drop r' a) om (eff om c' s' x' nm)) /\
        (nz s' + nz c' + nz x' + r <= nz s + nz c + nz x + r')%nat /\
        (r <= r')%nat /\ terminated (drop r' a) /\ mode16 s' /\ mode16 c' /\ mode16 x' /\
        ((exists d0, Some d = Some d0 /\ is_pmx (cmd d0) = true) -> (r < r')%nat)).
    { intros s1 c1 x1 M1 M2 M3 Hn Hg.
      destruct (IH (S r) s1 c1 x1) as (r' & s' & c' & x' & -> & G & N & ? & T & ? & ? & ? & ?);
        [lia|done..|].
      exists r', s', c', x'.
      do 8 (split; [first [done | lia | by intros; rewrite Hg, G]|]). intros _. lia. }
    destruct Hcases as [Eo | [Eo | Eo]]; rewrite Eo;
      change (c_plus =? c_minus) with false; change (c_X =? c_minus) with false;
      change (c_X =? c_plus) with false; rewrite Z.eqb_refl;
      apply Hstep; auto; try lia; intros om nm; rewrite (getmode_loop_pmx d _ _ _ _ Eo eq_refl);
      f_equal; [by rewrite <- eff_plus | by rewrite <- eff_minus | by rewrite <- eff_X].
  - unfold is_pmx in Ep. apply orb_false_elim in Ep as [Ep EX].
    apply orb_false_elim in Ep as [E1 E2]. rewrite E2, E1, EX.
    exists r, s, c, x. do 8 (split; [done || lia|]).
    intros (d' & Ed & Epx). injection Ed as <-.
    unfold is_pmx in Epx. by rewrite E1, E2, EX in Epx.
Qed.

Lemma emit_spec o b a w r :
  mode16 b -> (w + nz b <= r)%nat -> (r <= length a)%nat ->
  exists a', emit o b a w = Some (a', (w + nz b)%nat) /\
    take (w + nz b) a' = take w a ++ (if b =? 0 then [] else [mkCmd o 0 b]) /\
    drop r a' = drop r a /\ length a' = length a.
Proof.
  intros Hb Hw Hr. unfold emit, nz in *. destruct (Z.eqb_spec b 0).
  - exists a. rewrite app_nil_r, Nat.add_0_r. repeat split; lia.
  - rewrite (wrap_small 16), put_spec by (done || lia).
    exists (<[w := mkCmd o 0 b]> a). rewrite Nat.add_1_r. split; [done|].
    rewrite length_insert, drop_insert_lt by lia.
    rewrite (take_S_r _ w (mkCmd o 0 b)) by (apply list_lookup_insert_eq; lia).
    rewrite take_insert_ge by lia. repeat split; lia.
Qed.

(** The emitted commands have the gathered effect. *)
Lemma emitted_eff c s x l om nm :
  getmode_loop
    ((if c =? 0 then [] else [mkCmd c_minus 0 c]) ++
     (if s =? 0 then [] else [mkCmd c_plus 0 s]) ++
     (if x =? 0 then [] else [mkCmd c_X 0 x]) ++ l) om nm
  = getmode_loop l om (eff om c s x nm).
Proof.
  assert (Hx : forall n, getmode_loop ((if x =? 0 then [] else [mkCmd c_X 0 x]) ++ l) om n
                = getmode_loop l om (if xcond om then Z.lor n x else n)).
  { intros n. destruct (Z.eqb_spec x 0) as [->|]; cbn [app].
    - rewrite Z.lor_0_r. by destruct (xcond om).
    - by rewrite (getmode_loop_pmx _ _ _ _ c_X) by reflexivity. }
  assert (Hs : forall n, getmode_loop ((if s =? 0 then [] else [mkCmd c_plus 0 s]) ++
                  (if x =? 0 then [] else [mkCmd c_X 0 x]) ++ l) om n
                = getmode_loop l om (if xcond om then Z.lor (Z.lor n s) x else Z.lor n s)).
  { intros n. destruct (Z.eqb_spec s 0) as [->|]; cbn [app].
    - by rewrite Hx, Z.lor_0_r.
    - rewrite (getmode_loop_pmx _ _ _ _ c_plus) by reflexivity. by rewrite Hx. }
  destruct (Z.eqb_spec c 0) as [->|]; cbn [app].
  - by rewrite Hs; unfold eff; rewrite Z.ldiff_0_r.
  - rewrite (getmode_loop_pmx _ _ _ _ c_minus) by reflexivity. by rewrite Hs.
Qed.

Lemma terminated_getmode p q om nm :
  terminated p -> getmode_loop (p ++ q) om nm = getmode_loop p om nm.
Proof.
  intros H. apply Exists_exists in H as (t & Hin & Ht).
  apply list_elem_of_split in Hin as (u & v & ->).
  rewrite <- app_assoc. cbn [app]. by apply getmode_loop_stop.
Qed.

Lemma compress_loop_spec fuel a w r :
  (w <= r)%nat -> (length a < r + fuel)%nat -> terminated (drop r a) ->
  Forall cmd_wf (drop r a) ->
  exists a', compress_loop fuel a w r = Some a' /\ length a' = length a /\
    forall om nm, getmode_loop a' om nm = getmode_loop (view a w r) om nm.
Proof.
  revert a w r. induction fuel as [|fuel IH]; intros a w r Hle Hf Ht Hwf;
    pose proof (terminated_lt _ _ Ht); [lia|].
  cbn [compress_loop].
  destruct (compress_copy_spec (length a) a w r)
    as (st & a1 & w1 & r1 & -> & V & L & ? & Hr1 & D & T); [lia|lia|done|].
  destruct st.
  { exists a1. split; [done|]. split; [done|]. intros om nm. rewrite <- V. unfold view.
    rewrite (terminated_getmode _ (drop r1 a1)) by done.
    by rewrite <- (take_drop w1 a1) at 1; rewrite terminated_getmode by done. }
  destruct T as [T Hd]. assert (Hwf1 : Forall cmd_wf (drop r1 a1)).
  { rewrite D. replace r1 with (r + (r1 - r))%nat by lia. rewrite <- drop_drop.
    by apply Forall_drop. }
  destruct (compress_gather_spec (length a) a1 r1 0 0 0)
    as (r2 & s & c & x & -> & G & N & ? & T2 & Ms & Mc & Mx & Hlt); [lia|done..|].
  specialize (Hlt Hd). change (nz 0) with 0%nat in N.
  pose proof (terminated_lt _ _ T2) as Hr2. 
  unfold emit_run.
  destruct (emit_spec c_minus c a1 w1 r2 Mc ltac:(lia) ltac:(lia)) as (a2 & -> & K1 & D1 & L1).
  destruct (emit_spec c_plus s a2 (w1 + nz c) r2 Ms ltac:(lia) ltac:(lia))
    as (a3 & -> & K2 & D2 & L2).
  destruct (emit_spec c_X x a3 (w1 + nz c + nz s) r2 Mx ltac:(lia) ltac:(lia))
    as (a4 & -> & K3 & D3 & L3).
  destruct (IH a4 (w1 + nz c + nz s + nz x) r2)%nat as (a5 & -> & L5 & G5); [lia|lia| | |].
  { by rewrite D3, D2, D1. }
  { rewrite D3, D2, D1. replace r2 with (r1 + (r2 - r1))%nat by lia. rewrite <- drop_drop.
    by apply Forall_drop. }
  exists a5. split; [done|]. split; [lia|]. intros om nm. rewrite G5, <- V. unfold view.
  rewrite K3, K2, K1, D3, D2, D1, <- !app_assoc. apply getmode_loop_app_congr.
  intros nm'. rewrite emitted_eff, <- G. by rewrite eff_0.
Qed.

(** C5. Compressing a terminated command array terminates without leaving the
    array, and the shorter array maps every file mode to the same new mode. *)
Theorem compress_mode_getmode (a : list BITCMD) :
  terminated a -> Forall cmd_wf a ->
  exists a', compress_mode a = Some a' /\ length a' = length a /\
    forall omode, getmode a' omode = getmode a omode.
Proof.
  intros Ht Hw. destruct (compress_loop_spec (S (length a)) a 0 0) as (a' & E & L & G);
    [lia | lia | done | done |].
  exists a'. split; [done|]. split; [done|]. intros om. unfold getmode. by rewrite G.
Qed.

Definition sample_cmds : list BITCMD :=
  [mkCmd c_minus 0 7; mkCmd c_plus 0 4; mkCmd c_X 0 73; mkCmd c_u 10 65535;
   mkCmd c_plus 0 2; mkCmd 0 9 9].

Lemma compress_mode_getmode_witness :
  exists a', compress_mode sample_cmds = Some a' /\ length a' = length sample_cmds /\
    forall omode, getmode a' omode = getmode sample_cmds omode.
Proof.
  apply (compress_mode_getmode sample_cmds).
  - do 5 right. by left.
  - repeat constructor; cbn; lia.
Defined.

(** ** A direct interpreter of mode expressions

    The meaning of a mode expression without command arrays: the mode is
    updated while the expression is read. *)
Section Interpreter.
Variable mask : Z.   (* complement of the umask *)
Variable omode : Z.  (* the file's mode before the whole expression *)

(** The bits an operator without explicit class letters may touch. *)
Definition scope (who : Z) : Z := nonzero_or who mask.

Definition act (op who perm nm : Z) : Z :=
  if op =? c_eq then
    Z.lor (Z.ldiff nm (nonzero_or who STANDARD_BITS)) (Z.land (scope who) perm)
  else if op =? c_plus then Z.lor nm (Z.land (scope who) perm)
  else Z.ldiff nm (Z.land (scope who) perm).

Definition actX (who X nm : Z) : Z :=
  if xcond omode then Z.lor nm (Z.land (scope who) X) else nm.

(** The permission triple of one class. *)
Definition triple (c nm : Z) : Z :=
  if c =? c_u then Z.shiftr (Z.land nm S_IRWXU) 6
  else if c =? c_g then Z.shiftr (Z.land nm S_IRWXG) 3
  else Z.land nm S_IRWXO.

(** A triple placed in every class [who] selects. *)
Definition spread (who v : Z) : Z :=
  let pick b := (who =? 0) || testz who b in
  Z.land (Z.lor (if pick S_IRUSR then Z.shiftl v 6 else 0)
         (Z.lor (if pick S_IRGRP then Z.shiftl v 3 else 0)
                (if pick S_IROTH then v else 0)))
         (if who =? 0 then mask else 65535).

Definition copy (c op who nm : Z) : Z :=
  let v := triple c nm in
  if op =? c_plus then Z.lor nm (spread who v)
  else if op =? c_minus then Z.ldiff nm (spread who v)
  else Z.lor (Z.ldiff nm (spread who S_IRWXO)) (spread who v).

Fixpoint run_perms (p : list Z) (op who perm X : Z) (eqdone : bool) (nm : Z)
  : list Z * Z * bool * Z :=
  let finish :=
    let fire := negb (perm =? 0) || ((op =? c_eq) && negb eqdone) in
    let nm1 := if fire then act op who perm nm else nm in
    (p, who, (if fire && (op =? c_eq) then true else eqdone),
     if X =? 0 then nm1 else actX who X nm1) in
  match p with
  | [] => finish
  | c :: p' =>
      if c =? ch "r" then run_perms p' op who (Z.lor perm S_IR) X eqdone nm
      else if c =? ch "s" then
        run_perms p' op who
          (if who_special who then Z.lor perm (Z.lor S_ISUID S_ISGID) else perm) X eqdone nm
      else if c =? ch "t" then
        if who_special who
        then run_perms p' op (Z.lor who S_ISTXT) (Z.lor perm S_ISTXT) X eqdone nm
        else run_perms p' op who perm X eqdone nm
      else if c =? ch "w" then run_perms p' op who (Z.lor perm S_IW) X eqdone nm
      else if c =? ch "X" then run_perms p' op who perm S_IX eqdone nm
      else if c =? ch "x" then run_perms p' op who (Z.lor perm S_IX) X eqdone nm
      else if (c =? c_u) || (c =? c_g) || (c =? c_o) then
        let nm1 := if perm =? 0 then nm else act op who perm nm in
        let flushX := (op =? c_plus) && negb (X =? 0) in
        let nm2 := if flushX then actX who X nm1 else nm1 in
        run_perms p' op who 0 (if flushX then 0 else X)
          (if op =? c_eq then true else eqdone) (copy c op who nm2)
      else finish
  end.

Fixpoint run_ops (fuel : nat) (p : list Z) (who : Z) (eqdone : bool) (nm : Z) : option Z :=
  match fuel with
  | O => None
  | S fuel' =>
      let op := deref p in
      if negb ((op =? c_plus) || (op =? c_minus) || (op =? c_eq)) then None
      else
        let eqdone := if op =? c_eq then false else eqdone in
        let '(p', who', eqdone', nm') :=
          run_perms (tail p) op (Z.ldiff who S_ISTXT) 0 0 eqdone nm in
        match p' with
        | [] => Some nm'
        | c :: q =>
            if c =? ch "," then
              let '(q', who0) := parse_who q 0 in run_ops fuel' q' who0 eqdone' nm'
            else run_ops fuel' p' who' eqdone' nm'
        end
  end.

(** [None] when the expression is malformed. *)
Definition interp (p : list Z) : option Z :=
  let '(q, who) := parse_who p 0 in run_ops (S (length q)) q who false omode.
End Interpreter.

(** ** The array never overflows, and its contents mean what was read *)
Definition ospec {A} (nullok : Prop) (P : A -> Prop) (o : outcome A) : Prop :=
  match o with Done a => P a | Null _ => nullok | Fault => False end.

Lemma ospec_bind {A B} N (P : A -> Prop) (Q : B -> Prop) o k :
  ospec N P o -> (forall a, P a -> ospec N Q (k a)) -> ospec N Q (obind o k).
Proof. destruct o; simpl; auto. Qed.

(** After [n] calls of ADDCMD: room for a terminator, bounded growth. *)
Definition buf_ok (n : Z) (b : cmdbuf) : Prop :=
  Z.of_nat (length (filled b)) + 1 <= setlen b /\ 8 <= setlen b <= 8 + 4 * n /\
  Forall cmd_wf (filled b) /\ Forall (fun c => cmd c <> 0) (filled b).

(** The commands written so far take the file mode to [nm]. *)
Definition means (omode : Z) (b : cmdbuf) (nm : Z) : Prop :=
  forall rest, getmode_loop (filled b ++ rest) omode omode = getmode_loop rest omode nm.

Definition is_op (op : Z) : Prop := op = c_plus \/ op = c_minus \/ op = c_eq.
Definition is_ugo (c : Z) : Prop := c = c_u \/ c = c_g \/ c = c_o.

Lemma act_cmds op who perm mask om nm rest :
  is_op op ->
  getmode_loop (addcmd op who perm mask ++ rest) om nm
  = getmode_loop rest om (act mask op who perm nm).
Proof. by intros [-> | [-> | ->]]. Qed.

Lemma actX_cmds who X mask om nm rest :
  getmode_loop (addcmd c_X who X mask ++ rest) om nm
  = getmode_loop rest om (actX mask om who X nm).
Proof. reflexivity. Qed.

(** The three conditional updates of [getmode] are one spread triple. *)
Lemma spread_clear (U G O : bool) n v b :
  (let n1 := if U then Z.ldiff n (Z.land (Z.shiftl v 6) b) else n in
   let n2 := if G then Z.ldiff n1 (Z.land (Z.shiftl v 3) b) else n1 in
   if O then Z.ldiff n2 (Z.land v b) else n2)
  = Z.ldiff n (Z.land (Z.lor (if U then Z.shiftl v 6 else 0)
                       (Z.lor (if G then Z.shiftl v 3 else 0) (if O then v else 0))) b).
Proof. destruct U, G, O; cbv zeta iota; bitwise. Qed.

Lemma spread_set (U G O : bool) n v b :
  (let n1 := if U then Z.lor n (Z.land (Z.shiftl v 6) b) else n in
   let n2 := if G then Z.lor n1 (Z.land (Z.shiftl v 3) b) else n1 in
   if O then Z.lor n2 (Z.land v b) else n2)
  = Z.lor n (Z.land (Z.lor (if U then Z.shiftl v 6 else 0)
                     (Z.lor (if G then Z.shiftl v 3 else 0) (if O then v else 0))) b).
Proof. destruct U, G, O; cbv zeta iota; bitwise. Qed.

(** [addcmd]'s class flags, decoded again by [getmode]. *)
Lemma copy_common c (U G O : bool) op v b n :
  is_op op ->
  getmode_common
    (mkCmd c (let base := Z.lor (if U then CMD2_UBITS else 0)
                          (Z.lor (if G then CMD2_GBITS else 0) (if O then CMD2_OBITS else 0)) in
              if op =? c_plus then Z.lor base CMD2_SET
              else if op =? c_minus then Z.lor base CMD2_CLR
              else if op =? c_eq then Z.lor base (Z.lor CMD2_SET CMD2_CLR) else base) b) v n
  = let sp v := Z.land (Z.lor (if U then Z.shiftl v 6 else 0)
                        (Z.lor (if G then Z.shiftl v 3 else 0) (if O then v else 0))) b in
    if op =? c_plus then Z.lor n (sp v)
    else if op =? c_minus then Z.ldiff n (sp v)
    else Z.lor (Z.ldiff n (sp S_IRWXO)) (sp v).
Proof.
  intros [-> | [-> | ->]]; cbv beta zeta;
    [ change (c_plus =? c_plus) with true
    | change (c_minus =? c_plus) with false; change (c_minus =? c_minus) with true
    | change (c_eq =? c_plus) with false; change (c_eq =? c_minus) with false;
      change (c_eq =? c_eq) with true ]; cbv iota;
    rewrite <- ?spread_clear, <- ?spread_set; destruct U, G, O; reflexivity.
Qed.

Lemma copy_cmds c op who mask om nm rest :
  is_ugo c -> is_op op ->
  getmode_loop (addcmd c who op mask ++ rest) om nm
  = getmode_loop rest om (copy mask c op who nm).
Proof.
  intros Hc Hop.
  assert (E : addcmd c who op mask =
    [mkCmd c (let base := Z.lor (if (who =? 0) || testz who S_IRUSR then CMD2_UBITS else 0)
                (Z.lor (if (who =? 0) || testz who S_IRGRP then CMD2_GBITS else 0)
                       (if (who =? 0) || testz who S_IROTH then CMD2_OBITS else 0)) in
              if op =? c_plus then Z.lor base CMD2_SET
              else if op =? c_minus then Z.lor base CMD2_CLR
              else if op =? c_eq then Z.lor base (Z.lor CMD2_SET CMD2_CLR) else base)
            (if who =? 0 then mask else 65535)]).
  { unfold addcmd. destruct Hc as [-> | [-> | ->]]; cbn [Z.eqb]; destruct (who =? 0); reflexivity. }
  rewrite E. cbn [app getmode_loop cmd].
  destruct Hc as [-> | [-> | ->]]; rewrite !copy_common by done; reflexivity.
Qed.

Lemma addcmd_length op who oparg mask : (length (addcmd op who oparg mask) <= 2)%nat.
Proof. unfold addcmd. repeat case_match; simpl; lia. Qed.

Lemma mode16_const z : (0 <=? z) && (z <? 65536) = true -> mode16 z.
Proof. unfold mode16. rewrite andb_true_iff, Z.leb_le, Z.ltb_lt. lia. Qed.

Lemma mode16_nonzero_or a b : mode16 a -> mode16 b -> mode16 (nonzero_or a b).
Proof. unfold nonzero_or. by destruct (a =? 0). Qed.

#[local] Hint Resolve mode16_nonzero_or : core.
#[local] Hint Extern 1 (mode16 _) => (apply mode16_const; reflexivity) : core.

Lemma addcmd_wf op who oparg mask :
  mode16 who -> mode16 mask -> Forall cmd_wf (addcmd op who oparg mask).
Proof.
  intros Hw Hm. assert (H : forall o c2 z, mode16 z -> cmd_wf (mkCmd o c2 z)) by done.
  unfold addcmd. repeat case_match; repeat constructor; apply H; simpl; auto.
Qed.

Lemma addcmd_nonzero op who oparg mask :
  op <> 0 -> Forall (fun c => cmd c <> 0) (addcmd op who oparg mask).
Proof. intros Hop. unfold addcmd. repeat case_match; repeat constructor; done. Qed.

Section Compile.
Variable alloc_ok : Z -> bool.
Variable uninit : BITCMD.
Variable N : Prop.
Hypothesis alloc_N : forall n, alloc_ok n = false -> N.
Variable mask : Z.
Hypothesis mask_wf : mode16 mask.
Variable om : Z.

(** At most [n] calls of ADDCMD so far, and the array means [nm]. *)
Definition inv (n : Z) (nm : Z) (b : cmdbuf) : Prop := buf_ok n b /\ means om b nm.

Lemma inv_mono n n' nm b : n <= n' -> inv n nm b -> inv n' nm b.
Proof.
  intros Hn [(H1 & H2 & H3) Hm]. split; [|done]. split; [done|]. split; [lia|done].
Qed.

Lemma ADDCMD_spec b op who oparg n nm nm' :
  n < 2 ^ 29 -> op <> 0 -> mode16 who -> inv n nm b ->
  (forall rest, getmode_loop (addcmd op who oparg mask ++ rest) om nm
                = getmode_loop rest om nm') ->
  ospec N (inv (n + 1) nm') (ADDCMD alloc_ok b op who oparg mask).
Proof.
  intros Hn Hop Hwho [(Hlen & Hset & Hwf & Hnz) Hmeans] Hcmds. unfold ADDCMD.
  pose proof (addcmd_length op who oparg mask) as Hl.
  apply ospec_bind with (P := fun b' => filled b' = filled b /\
      Z.of_nat (length (filled b')) + 3 <= setlen b' /\ 8 <= setlen b' <= 8 + 4 * (n + 1)).
  - destruct (Z.leb_spec (setlen b - 2) (Z.of_nat (length (filled b)))).
    + unfold SET_LEN_INCR. wrap_tac.
      apply ospec_bind with (P := fun _ => True).
      * unfold realloc_items, sizeof_BITCMD. cbn [negb Z.eqb andb].
        destruct (Z.ltb_spec ((2 ^ 64 - 1) / 4) (setlen b + 4)) as [Hlt|_].
        { change ((2 ^ 64 - 1) / 4) with 4611686018427387903 in Hlt. lia. }
        destruct (alloc_ok _) eqn:E; simpl; [done|]. by apply alloc_N in E.
      * intros _ _. cbn. repeat split; lia.
    + cbn. repeat split; lia.
  - intros b' (Ef & Hroom & Hs). unfold write_cmds.
    destruct (Z.leb_spec (Z.of_nat (length (filled b') + length (addcmd op who oparg mask)))
                (setlen b')); [|lia].
    cbn. rewrite Ef. split; [split; [|split; [|split]]|]; cbn.
    + rewrite length_app. rewrite Ef in *. lia.
    + lia.
    + apply Forall_app_2; [done|]. by apply addcmd_wf.
    + apply Forall_app_2; [done|]. by apply addcmd_nonzero.
    + intros rest. cbn. rewrite <- app_assoc, Hmeans. apply Hcmds.
Qed.

Lemma op_nonzero op : is_op op -> op <> 0.
Proof. by intros [-> | [-> | ->]]. Qed.

Lemma ugo_nonzero c : is_ugo c -> c <> 0.
Proof. by intros [-> | [-> | ->]]. Qed.

#[local] Hint Resolve op_nonzero ugo_nonzero : core.

Lemma perm_end_spec op who perm X eqd b n nm :
  n < 2 ^ 29 - 2 -> is_op op -> mode16 who -> inv n nm b ->
  let fire := negb (perm =? 0) || ((op =? c_eq) && negb eqd) in
  let nm1 := if fire then act mask op who perm nm else nm in
  ospec N (fun '(e, b') =>
      e = (if fire && (op =? c_eq) then true else eqd) /\
      inv (n + 2) (if X =? 0 then nm1 else actX mask om who X nm1) b')
    (perm_end alloc_ok op who perm X mask eqd b).
Proof.
  intros Hn Hop Hwho Hb fire nm1. unfold perm_end. fold fire.
  apply ospec_bind with (P := fun '(e, b') =>
    e = (if fire && (op =? c_eq) then true else eqd) /\ inv (n + 1) nm1 b').
  - destruct fire eqn:Ef; cbn [andb].
    + apply ospec_bind with (P := inv (n + 1) nm1).
      * apply ADDCMD_spec with nm; auto; try lia; intros rest; by apply act_cmds.
      * intros b1 H1. by cbn.
    + cbn. split; [done|]. apply inv_mono with n; [lia|done].
  - intros [e b1] [-> H1].
    apply ospec_bind with (P := inv (n + 2) (if X =? 0 then nm1 else actX mask om who X nm1)).
    + destruct (X =? 0); [cbn; apply inv_mono with (n + 1); [lia|done]|].
      replace (n + 2) with (n + 1 + 1) by lia.
      apply ADDCMD_spec with nm1; auto; try lia; intros rest; apply actX_cmds.
    + intros b2 H2. by cbn.
Qed.

Lemma perm_copy_spec c op who perm X eqd b n nm :
  n < 2 ^ 29 - 3 -> is_ugo c -> is_op op -> mode16 who -> inv n nm b ->
  let nm1 := if perm =? 0 then nm else act mask op who perm nm in
  let flushX := (op =? c_plus) && negb (X =? 0) in
  let nm2 := if flushX then actX mask om who X nm1 else nm1 in
  ospec N (fun '(perm', px, e, b') =>
      perm' = 0 /\ px = (if flushX then 0 else X) /\ e = (if op =? c_eq then true else eqd) /\
      inv (n + 3) (copy mask c op who nm2) b')
    (perm_copy alloc_ok c op who perm X mask eqd b).
Proof.
  intros Hn Hc Hop Hwho Hb nm1 flushX nm2. unfold perm_copy. fold flushX.
  apply ospec_bind with (P := inv (n + 1) nm1).
  { subst nm1. destruct (perm =? 0); [cbn; apply inv_mono with n; [lia|done]|].
    apply ADDCMD_spec with nm; auto; try lia; intros rest; by apply act_cmds. }
  intros b1 H1. apply ospec_bind with (P := fun '(px, b2) =>
    px = (if flushX then 0 else X) /\ inv (n + 2) nm2 b2).
  { subst nm2. destruct flushX; [|cbn; split; [done|]; apply inv_mono with (n + 1); [lia|done]].
    apply ospec_bind with (P := inv (n + 2) (actX mask om who X nm1)).
    - replace (n + 2) with (n + 1 + 1) by lia.
      apply ADDCMD_spec with nm1; auto; try lia; intros rest; apply actX_cmds.
    - intros b2 H2. by cbn. }
  intros [px b2] [-> H2]. apply ospec_bind with (P := inv (n + 3) (copy mask c op who nm2)).
  - replace (n + 3) with (n + 2 + 1) by lia. apply ADDCMD_spec with nm2; auto; try lia; intros rest; by apply copy_cmds.
  - intros b3 H3. by cbn.
Qed.

Lemma ugo_test c : (c =? c_u) || (c =? c_g) || (c =? c_o) = true -> is_ugo c.
Proof. rewrite !orb_true_iff, !Z.eqb_eq. unfold is_ugo. tauto. Qed.

(** One permission list: the compiled commands do what the interpreter does. *)
Lemma perm_loop_spec p op who perm X eqd b n nm :
  n + 3 * Z.of_nat (length p) < 2 ^ 29 - 2 -> is_op op -> mode16 who -> inv n nm b ->
  ospec N (fun '(p', who', e, b') => exists nm',
      run_perms mask om p op who perm X eqd nm = (p', who', e, nm') /\ mode16 who' /\
      (length p' <= length p)%nat /\
      inv (n + 3 * Z.of_nat (length p - length p') + 2) nm' b')
    (perm_loop alloc_ok p op who perm X mask eqd b).
Proof.
  revert who perm X eqd b n nm. induction p as [|c p IH]; intros who perm X eqd b n nm Hn Hop Hwho Hb.
  - cbn [perm_loop run_perms]. cbn in Hn.
    eapply ospec_bind; [apply (perm_end_spec op who perm X eqd b n nm); auto; lia|].
    intros [e b'] [-> Hi]. cbn. eexists. split; [reflexivity|]. split; [done|]. split; [done|].
    by rewrite Z.add_0_r.
  - cbn [length] in Hn. assert (Hrec : forall who' perm' X' eqd' b1 n' nm1,
      n <= n' <= n + 3 -> mode16 who' -> inv n' nm1 b1 ->
      ospec N (fun '(p', who'', e, b') => exists nm',
        run_perms mask om p op who' perm' X' eqd' nm1 = (p', who'', e, nm') /\ mode16 who'' /\
        (length p' <= length (c :: p))%nat /\
        inv (n + 3 * Z.of_nat (length (c :: p) - length p') + 2) nm' b')
      (perm_loop alloc_ok p op who' perm' X' mask eqd' b1)).
    { intros who' perm' X' eqd' b1 n' nm1 Hn' Hw' Hb1.
      specialize (IH who' perm' X' eqd' b1 n' nm1 ltac:(lia) Hop Hw' Hb1).
      destruct (perm_loop alloc_ok p op who' perm' X' mask eqd' b1) as [[[[p' w''] e] b']| |];
        cbn in *; [|done|done].
      destruct IH as (nm' & R & ? & ? & Hi). exists nm'. split; [done|]. split; [done|].
      split; [lia|]. apply inv_mono with (2 := Hi). lia. }
    cbn [perm_loop run_perms].
    repeat match goal with
      | |- context [if c =? ch ?x then _ else _] =>
          destruct (c =? ch x); [solve [ try case_match; apply Hrec with n; auto; lia ]|]
      end.
    destruct ((c =? c_u) || (c =? c_g) || (c =? c_o)) eqn:Eu.
    + apply ugo_test in Eu. eapply ospec_bind; [apply (perm_copy_spec c op who perm X eqd b n nm); auto; lia|].
      intros [[[perm' px] e] b'] (-> & -> & -> & Hi).
      apply Hrec with (n + 3); auto; lia.
    + eapply ospec_bind; [apply (perm_end_spec op who perm X eqd b n nm); auto; lia|].
      intros [e b'] [-> Hi]. cbn. eexists. split; [reflexivity|]. split; [done|]. split; [lia|].
      apply inv_mono with (2 := Hi). lia.
Qed.

Lemma parse_who_spec p who :
  mode16 who -> (length (parse_who p who).1 <= length p)%nat /\ mode16 (parse_who p who).2.
Proof.
  revert who. induction p as [|c p IH]; intros who Hw; cbn [parse_who]; [by split|].
  repeat match goal with
    | |- context [if c =? ch ?x then _ else _] =>
        destruct (c =? ch x);
        [ match goal with |- context [parse_who p ?w] =>
            destruct (IH w); [auto|]; split; [simpl; lia|done] end |]
    end.
  by split.
Qed.

Lemma getop_spec fuel p who eqd b n nm :
  (length p < fuel)%nat -> n + 5 * Z.of_nat (length p) < 2 ^ 29 - 10 ->
  mode16 who -> inv n nm b ->
  exists o, getop alloc_ok fuel p who mask eqd b = Some o /\
    match run_ops mask om fuel p who eqd nm with
    | Some nm' => ospec N (inv (n + 5 * Z.of_nat (length p)) nm') o
    | None => match o with Null e => e = EINVAL \/ N | _ => False end
    end.
Proof.
  revert p who eqd b n nm. induction fuel as [|fuel IH]; intros p who eqd b n nm Hf Hn Hwho Hb; [lia|].
  cbn [getop run_ops].
  destruct ((deref p =? c_plus) || (deref p =? c_minus) || (deref p =? c_eq)) eqn:Eop;
    cbn [negb]; [|eexists; split; [done|]; by left].
  assert (Hop : is_op (deref p)).
  { rewrite !orb_true_iff, !Z.eqb_eq in Eop. unfold is_op. tauto. }
  destruct p as [|c0 p]; [by cbn in Eop|]. cbn [deref tail length] in *.
  set (eqd0 := if c0 =? c_eq then false else eqd).
  pose proof (perm_loop_spec p c0 (Z.ldiff who S_ISTXT) 0 0 eqd0 b n nm
                ltac:(lia) Hop ltac:(auto) Hb) as Hloop.
  destruct (perm_loop alloc_ok p c0 _ 0 0 mask eqd0 b) as [[[[p' who'] e'] b']|e|]; cbn in Hloop.
  - destruct Hloop as (nm' & -> & Hw' & Hl & Hi).
    destruct p' as [|c q].
    { eexists. split; [done|]. cbn in *. apply inv_mono with (2 := Hi). lia. }
    cbn [length] in *. destruct (c =? ch ","); cbn [negb].
    + destruct (parse_who_spec q 0) as [Hq Hw0]; [auto|].
      destruct (parse_who q 0) as [q' who0]. cbn [fst snd] in *.
      destruct (IH q' who0 e' b' (n + 3 * Z.of_nat (length p - S (length q)) + 2) nm')
        as (o & -> & R); [lia|lia|done|done|].
      exists o. split; [done|].
      destruct (run_ops mask om fuel q' who0 e' nm') as [nm2|]; [|done].
      destruct o; cbn in *; [|done|done]. apply inv_mono with (2 := R). lia.
    + destruct (IH (c :: q) who' e' b' (n + 3 * Z.of_nat (length p - S (length q)) + 2) nm')
        as (o & -> & R); [cbn; lia|cbn; lia|done|done|].
      exists o. split; [done|].
      destruct (run_ops mask om fuel (c :: q) who' e' nm') as [nm2|]; [|done].
      destruct o; cbn in *; [|done|done]. apply inv_mono with (2 := R). lia.
  - eexists. split; [done|]. repeat case_match; cbn; auto.
  - done.
Qed.

Lemma terminate_spec b n nm :
  cmd_wf uninit -> inv n nm b ->
  exists a, terminate uninit b = Done a /\ terminated a /\ Forall cmd_wf a /\
    getmode a om = Some nm.
Proof.
  intros Hu [(Hlen & Hset & Hwf & Hnz) Hm]. unfold terminate, write_cmds.
  cbn [length]. destruct (Z.leb_spec (Z.of_nat (length (filled b) + 1)) (setlen b)); [|lia].
  eexists. split; [reflexivity|]. cbn [filled]. split; [|split].
  - apply Exists_app. right. by left.
  - apply Forall_app_2; [done|]. by repeat constructor; cbn; apply Hu.
  - unfold getmode. rewrite Hm. reflexivity.
Qed.
End Compile.

Lemma initial_inv om : inv om 0 om (mkBuf [] (SET_LEN + 2)).
Proof.
  split; [|by intros rest]. unfold buf_ok, SET_LEN. cbn. repeat split; try lia; constructor.
Qed.

Lemma get_current_umask_spec st :
  0 <= p_umask st < 4096 -> get_current_umask st = (p_umask st, st).
Proof.
  intros H. unfold get_current_umask, sys_umask. cbn. do 2 f_equal.
  destruct st as [u sg]. cbn in *. f_equal.
  change ALLPERMS with (Z.ones 12). rewrite Z.land_ones by lia. by apply Z.mod_small.
Qed.

Lemma mask_mode16 u : mode16 (Z.ldiff 65535 u).
Proof. apply mode16_ldiff. apply mode16_const. reflexivity. Qed.

(** The symbolic branch of [setmode], whatever the allocator does. *)
Lemma setmode_symbolic_branch alloc_ok uninit p st N :
  (forall n, alloc_ok n = false -> N) -> cmd_wf uninit ->
  p <> [] -> isdigit (deref p) = false -> Z.of_nat (length p) < 2 ^ 26 ->
  0 <= p_umask st < 4096 ->
  exists r, setmode alloc_ok uninit p st = (Some r, st) /\
    forall om, match interp (Z.ldiff 65535 (p_umask st)) om p with
      | Some nm => ospec N (fun a => getmode a om = Some nm) r
      | None => match r with Null e => e = EINVAL \/ N | _ => False end
      end.
Proof.
  intros Halloc Hu Hp Hd Hlen Hum. destruct p as [|c p]; [done|]. cbn [deref] in Hd.
  unfold setmode. rewrite get_current_umask_spec, Hd by done.
  destruct (alloc_ok _) eqn:Ea; cbn [negb].
  2:{ apply Halloc in Ea. eexists. split; [done|]. intros om. case_match; cbn; auto. }
  unfold interp. destruct (parse_who_spec (c :: p) 0) as [Hq Hw]; [auto|].
  destruct (parse_who (c :: p) 0) as [q who]. cbn [fst snd] in *.
  set (mask := Z.ldiff 65535 (p_umask st)).
  assert (G := fun om => getop_spec alloc_ok N Halloc mask (mask_mode16 _) om
                 (S (length q)) q who false _ 0 om ltac:(lia) ltac:(lia) Hw (initial_inv om)).
  destruct (G 0) as (o & Eo & _). rewrite Eo.
  destruct o as [b|e|].
  - assert (exists a, terminate uninit b = Done a /\ terminated a /\ Forall cmd_wf a /\
      forall om, match run_ops mask om (S (length q)) q who false om with
        | Some nm => getmode a om = Some nm | None => False end) as (a & Et & Ht & Hwf & Hg).
    { destruct (G 0) as (o & Eo' & Hr). rewrite Eo in Eo'. injection Eo' as <-.
      destruct (run_ops mask 0 _ q who false 0) as [nm|]; [|done]. cbn in Hr.
      destruct (terminate_spec uninit 0 b _ _ Hu Hr) as (a & Et & Ht & Hwf & _).
      exists a. repeat split; [done..|]. intros om.
      destruct (G om) as (o & Eo' & Hr'). rewrite Eo in Eo'. injection Eo' as <-.
      destruct (run_ops mask om _ q who false om) as [nm'|]; [|done]. cbn in Hr'.
      destruct (terminate_spec uninit om b _ _ Hu Hr') as (a' & Et' & _ & _ & Hg).
      congruence. }
    cbn [obind]. rewrite Et.
    destruct (compress_loop_spec (S (length a)) a 0 0) as (a' & Ec & _ & Hc);
      [lia|lia|done|done|].
    unfold compress_mode. rewrite Ec. eexists. split; [reflexivity|]. intros om.
    specialize (Hg om). case_match; [|done]. cbn. unfold getmode. rewrite Hc.
    unfold view. cbn [take app drop]. exact Hg.
  - eexists. split; [reflexivity|]. intros om.
    destruct (G om) as (o & Eo' & Hr). rewrite Eo in Eo'. injection Eo' as <-. done.
  - destruct (G 0) as (o & Eo' & Hr). rewrite Eo in Eo'. injection Eo' as <-.
    by case_match.
Qed.

(** The value of a string of octal digits. *)
Definition oct_value (ds : list Z) (acc : Z) : Z :=
  fold_left (fun v c => 8 * v + (c - ch "0")) ds acc.

Lemma oct_value_ge ds acc : Forall (fun c => isodigit c = true) ds -> 0 <= acc ->
  acc <= oct_value ds acc.
Proof.
  intros H. revert acc. induction H as [|c ds Hc Hds IH]; intros acc Ha; cbn; [lia|].
  unfold isodigit in Hc. rewrite andb_true_iff, !Z.leb_le in Hc.
  specialize (IH (8 * acc + (c - ch "0")) ltac:(lia)). unfold oct_value in IH. lia.
Qed.

Lemma strtol8_spec ds acc :
  Forall (fun c => isodigit c = true) ds -> 0 <= acc -> oct_value ds acc <= LONG_MAX ->
  strtol8 ds acc false = (oct_value ds acc, false, []).
Proof.
  intros H. revert acc. induction H as [|c ds Hc Hds IH]; intros acc Ha Hv; [done|].
  cbn [strtol8]. rewrite Hc. unfold isodigit in Hc. rewrite andb_true_iff, !Z.leb_le in Hc.
  assert (Hacc : 0 <= 8 * acc + (c - ch "0")) by lia.
  pose proof (oct_value_ge ds _ Hds Hacc) as Hge.
  change (oct_value (c :: ds) acc) with (oct_value ds (8 * acc + (c - ch "0"))) in *.
  destruct (Z.ltb_spec LONG_MAX (8 * acc + (c - ch "0"))); [lia|]. by apply IH.
Qed.

Lemma land_ones12 v : 0 <= v <= 4095 -> Z.land 4095 v = v.
Proof.
  intros H. rewrite Z.land_comm. change 4095 with (Z.ones 12).
  rewrite Z.land_ones by lia. apply Z.mod_small. change (2 ^ 12) with 4096. lia.
Qed.

Lemma ldiff_ones12 v : 0 <= v <= 4095 -> Z.ldiff v 4095 = 0.
Proof.
  intros H. rewrite <- (land_ones12 v) by done.
  apply Z.bits_inj'. intros i Hi. rewrite Z.ldiff_spec, Z.land_spec, Z.bits_0. btauto.
Qed.

(** C4. Compiling any symbolic mode expression and applying the compiled array
    gives, for every file mode, what reading the expression directly on that
    mode gives; a malformed expression is rejected with EINVAL. *)
Theorem setmode_symbolic (alloc_ok : Z -> bool) (uninit : BITCMD) (p : list Z) (st : proc) :
  (forall n, alloc_ok n = true) -> cmd_wf uninit -> 0 <= p_umask st < 4096 ->
  p <> [] -> isdigit (deref p) = false -> Z.of_nat (length p) < 2 ^ 26 ->
  exists r, setmode alloc_ok uninit p st = (Some r, st) /\
    forall omode,
      match interp (Z.ldiff 65535 (p_umask st)) omode p with
      | Some newmode => exists a, r = Done a /\ getmode a omode = Some newmode
      | None => r = Null EINVAL
      end.
Proof.
  intros Ha Hu Hum Hp Hd Hl.
  destruct (setmode_symbolic_branch alloc_ok uninit p st False) as (r & E & H); try done.
  { intros n En. by rewrite Ha in En. }
  exists r. split; [done|]. intros om. specialize (H om).
  destruct (interp _ om p); destruct r; cbn in *; try done; [by eexists|].
  destruct H as [->|[]]. done.
Qed.

Lemma setmode_symbolic_witness :
  exists r, setmode (fun _ => true) (mkCmd 7 7 7) (str "u=rwx,go-w+X") (mkProc 18 0)
            = (Some r, mkProc 18 0) /\
    forall omode,
      match interp (Z.ldiff 65535 18) omode (str "u=rwx,go-w+X") with
      | Some newmode => exists a, r = Done a /\ getmode a omode = Some newmode
      | None => r = Null EINVAL
      end.
Proof.
  apply (setmode_symbolic (fun _ => true) (mkCmd 7 7 7) (str "u=rwx,go-w+X") (mkProc 18 0));
    [done | unfold cmd_wf; cbn; lia | cbn; lia | done | reflexivity | cbn; lia].
Defined.

(** An octal expression with value at most 07777 replaces the permission,
    set-id and sticky bits of every file mode by that value. *)
Theorem setmode_octal (alloc_ok : Z -> bool) (uninit : BITCMD) (ds : list Z) (st : proc) :
  (forall n, alloc_ok n = true) -> 0 <= p_umask st < 4096 ->
  ds <> [] -> Forall (fun c => isodigit c = true) ds -> oct_value ds 0 <= 4095 ->
  exists a, setmode alloc_ok uninit ds st = (Some (Done a), st) /\
    forall omode, getmode a omode = Some (Z.lor (Z.ldiff omode 4095) (oct_value ds 0)).
Proof.
  intros Ha Hum Hds Hd Hv. destruct ds as [|c ds]; [done|].
  pose proof (oct_value_ge _ 0 Hd ltac:(lia)) as Hge.
  assert (Hc : isdigit c = true).
  { inversion Hd as [|? ? H1 _]; subst. unfold isodigit, isdigit in *.
    change (ch "7") with 55 in H1. change (ch "9") with 57.
    rewrite andb_true_iff, !Z.leb_le in *. lia. }
  unfold setmode. rewrite get_current_umask_spec by done. rewrite Ha, Hc. cbn [negb].
  rewrite strtol8_spec by (done || unfold LONG_MAX; lia). cbn [deref negb Z.eqb andb].
  change (Z.lor STANDARD_BITS S_ISTXT) with 4095.
  rewrite ldiff_ones12 by lia. cbn [Z.eqb negb].
  eexists. split; [reflexivity|]. intros om. unfold getmode.
  cbn [filled app]. rewrite act_cmds by (unfold is_op; auto).
  transitivity (Some (Z.lor (Z.ldiff om 4095) (Z.land 4095 (oct_value (c :: ds) 0))));
    [reflexivity|]. by rewrite land_ones12 by lia.
Qed.

Lemma setmode_octal_witness :
  exists a, setmode (fun _ => true) (mkCmd 7 7 7) (str "0755") (mkProc 18 0)
            = (Some (Done a), mkProc 18 0) /\
    forall omode, getmode a omode = Some (Z.lor (Z.ldiff omode 4095) (oct_value (str "0755") 0)).
Proof.
  apply (setmode_octal (fun _ => true) (mkCmd 7 7 7) (str "0755") (mkProc 18 0));
    [done | cbn; lia | done | repeat constructor | vm_compute; discriminate].
Defined.

(** C10. For every mode string shorter than 2^26 characters ([setlen] is a
    32-bit count, so some bound is needed), every allocator and every umask
    within ALLPERMS, [setmode] returns (the scanning loops terminate), no
    command is stored or read outside its array, neither by ADDCMD nor by the
    compression in place, and the process umask and signal mask are left as
    they were. *)
Theorem setmode_safe (alloc_ok : Z -> bool) (uninit : BITCMD) (p : list Z) (st : proc) :
  cmd_wf uninit -> 0 <= p_umask st < 4096 -> Z.of_nat (length p) < 2 ^ 26 ->
  exists r, setmode alloc_ok uninit p st = (Some r, st) /\ r <> Fault.
Proof.
  intros Hu Hum Hl. destruct p as [|c p]; [by eexists|].
  destruct (isdigit c) eqn:Ed.
  - unfold setmode. rewrite get_current_umask_spec, Ed by done.
    destruct (alloc_ok _); cbn [negb]; [|by eexists].
    destruct (strtol8 (c :: p) 0 false) as [[v er] ep].
    repeat case_match; eexists; (split; [reflexivity|]); try done.
  - destruct (setmode_symbolic_branch alloc_ok uninit (c :: p) st True) as (r & E & H); try done.
    exists r. split; [done|]. intros ->. specialize (H 0). by case_match.
Qed.

Lemma setmode_safe_witness :
  exists r, setmode (fun n => n <? 40) (mkCmd 7 7 7) (str "u=rwx,g=rx,o=x,a+t") (mkProc 18 0)
            = (Some r, mkProc 18 0) /\ r <> Fault.
Proof.
  apply (setmode_safe (fun n => n <? 40) (mkCmd 7 7 7) (str "u=rwx,g=rx,o=x,a+t") (mkProc 18 0));
    [unfold cmd_wf; cbn; lia | cbn; lia | cbn; lia].
Defined.
