(* ===== verification/MachO.v ===== *)
(** * The kernel image parser: boot/efi/loader/src/panthera_loader.c

    [panthera_parse_kernel_macho] walks the load commands of a Mach-O kernel
    file and fills a [PantheraKernelImage]. The file is a list of bytes; a load
    outside it is the value [OutOfBounds], which the theorems exclude. All
    sizes and offsets are those of the packed C structures of the source. *)

From Stdlib Require Import ZArith Lia Ascii String.
From stdpp Require Import base list.
From S2P Require Import Prelude.

Open Scope Z_scope.

(** ** Constants *)
Definition MH_MAGIC_64 : Z := 0xfeedfacf.
Definition CPU_TYPE_X86_64 : Z := 0x01000007.
Definition MH_EXECUTE : Z := 2.
Definition LC_SEGMENT_64 : Z := 0x19.
Definition LC_UNIXTHREAD : Z := 5.
Definition LC_SYMTAB : Z := 2.
Definition LC_DYSYMTAB : Z := 0xb.
Definition UINT64_MAX : Z := 2 ^ 64 - 1.

Definition PANTHERA_MAX_KERNEL_SEGMENTS : Z := 16.
Definition PANTHERA_MAX_KERNEL_SECTIONS : Z := 64.

Definition sizeof_MachHeader64 : Z := 32.
Definition sizeof_LoadCommand : Z := 8.
Definition sizeof_SegmentCommand64 : Z := 72.
Definition sizeof_Section64 : Z := 80.
Definition sizeof_DysymtabCommand : Z := 80.
Definition sizeof_RelocationInfo : Z := 8.
Definition sizeof_NList64 : Z := 16.
Definition sizeof_ThreadStateHeader : Z := 8.
Definition sizeof_X86ThreadState64 : Z := 168.

(** ** Data *)
Inductive PantheraLoaderStatus :=
| PANTHERA_LOADER_OK
| PANTHERA_LOADER_E_NULL
| PANTHERA_LOADER_E_TRUNCATED
| PANTHERA_LOADER_E_BAD_MAGIC
| PANTHERA_LOADER_E_BAD_CPU
| PANTHERA_LOADER_E_BAD_FILETYPE
| PANTHERA_LOADER_E_TOO_MANY_SEGMENTS
| PANTHERA_LOADER_E_MISSING_ENTRY
| PANTHERA_LOADER_E_BAD_RELOC
| PANTHERA_LOADER_E_TOO_MANY_SECTIONS.

#[export] Instance loader_status_eq_dec : EqDecision PantheraLoaderStatus.
Proof. solve_decision. Defined.

(** The enumeration's values, as the loader prints them. *)
Definition loader_status_code (s : PantheraLoaderStatus) : Z :=
  match s with
  | PANTHERA_LOADER_OK => 0 | PANTHERA_LOADER_E_NULL => 1
  | PANTHERA_LOADER_E_TRUNCATED => 2 | PANTHERA_LOADER_E_BAD_MAGIC => 3
  | PANTHERA_LOADER_E_BAD_CPU => 4 | PANTHERA_LOADER_E_BAD_FILETYPE => 5
  | PANTHERA_LOADER_E_TOO_MANY_SEGMENTS => 6 | PANTHERA_LOADER_E_MISSING_ENTRY => 7
  | PANTHERA_LOADER_E_BAD_RELOC => 8 | PANTHERA_LOADER_E_TOO_MANY_SECTIONS => 9
  end.

Record PantheraKernelSegment := mkSegment {
  segname : list Z;
  vmaddr : Z;
  vmsize : Z;
  fileoff : Z;
  filesize : Z;
  maxprot : Z;
  initprot : Z
}.

Record PantheraKernelSection := mkSection { sect_addr : Z; sect_size : Z }.

(** The arrays are the lists of their first [segment_count] and
    [section_count] entries. *)
Record PantheraKernelImage := mkImage {
  entry_pc : Z;
  lowest_vmaddr : Z;
  highest_vmaddr : Z;
  file_size : Z;
  local_reloc_offset : Z;
  local_reloc_count : Z;
  segments : list PantheraKernelSegment;
  sections : list PantheraKernelSection
}.

Definition segment_count (i : PantheraKernelImage) : Z := Z.of_nat (length (segments i)).
Definition section_count (i : PantheraKernelImage) : Z := Z.of_nat (length (sections i)).

(** Field assignments. *)
Definition with_entry (i : PantheraKernelImage) (v : Z) : PantheraKernelImage :=
  mkImage v (lowest_vmaddr i) (highest_vmaddr i) (file_size i) (local_reloc_offset i)
    (local_reloc_count i) (segments i) (sections i).
Definition with_lowest (i : PantheraKernelImage) (v : Z) : PantheraKernelImage :=
  mkImage (entry_pc i) v (highest_vmaddr i) (file_size i) (local_reloc_offset i)
    (local_reloc_count i) (segments i) (sections i).
Definition with_highest (i : PantheraKernelImage) (v : Z) : PantheraKernelImage :=
  mkImage (entry_pc i) (lowest_vmaddr i) v (file_size i) (local_reloc_offset i)
    (local_reloc_count i) (segments i) (sections i).
Definition with_relocs (i : PantheraKernelImage) (o n : Z) : PantheraKernelImage :=
  mkImage (entry_pc i) (lowest_vmaddr i) (highest_vmaddr i) (file_size i) o n
    (segments i) (sections i).
Definition add_segment (i : PantheraKernelImage) (s : PantheraKernelSegment)
  : PantheraKernelImage :=
  mkImage (entry_pc i) (lowest_vmaddr i) (highest_vmaddr i) (file_size i)
    (local_reloc_offset i) (local_reloc_count i) (segments i ++ [s]) (sections i).
Definition add_section (i : PantheraKernelImage) (s : PantheraKernelSection)
  : PantheraKernelImage :=
  mkImage (entry_pc i) (lowest_vmaddr i) (highest_vmaddr i) (file_size i)
    (local_reloc_offset i) (local_reloc_count i) (segments i) (sections i ++ [s]).

(** The image after [panthera_zero] and the two stores that follow it. *)
Definition initial_image (image_size : Z) : PantheraKernelImage :=
  mkImage 0 UINT64_MAX 0 image_size 0 0 [] [].

(** ** Loads from the file *)
Definition file_bytes (img : list Z) (off : Z) (n : nat) : option (list Z) :=
  if (0 <=? off) && (off + Z.of_nat n <=? Z.of_nat (length img))
  then Some (take n (drop (Z.to_nat off) img)) else None.

Definition load (n : nat) (img : list Z) (off : Z) : option Z :=
  le_decode <$> file_bytes img off n.

Abbreviation load32 := (load 4).
Abbreviation load64 := (load 8).

Inductive parse_result :=
| Parsed (st : PantheraLoaderStatus) (out : PantheraKernelImage)
| OutOfBounds.

Notation "'read' x := e 'in' k" :=
  (match e with Some x => k | None => inr OutOfBounds end)
  (at level 10, x pattern, e at level 100, k at level 200).

(** ** panthera_parse_kernel_macho *)

(** The section loop of one segment; it leaves with the extended image or
    with the function's early return. *)
Definition parse_sections_step (img : list Z) (base nsects : Z)
    (s : Z * PantheraKernelImage)
  : (Z * PantheraKernelImage) + (PantheraKernelImage + parse_result) :=
  let '(section_index, out) := s in
  if negb (section_index <? nsects) then inr (inl out)
  else if PANTHERA_MAX_KERNEL_SECTIONS <=? section_count out
  then inr (inr (Parsed PANTHERA_LOADER_E_TOO_MANY_SECTIONS out))
  else
    let sec := base + section_index * sizeof_Section64 in
    match load64 img (sec + 32), load64 img (sec + 40) with
    | Some addr, Some size =>
        inl (section_index +32 1, add_section out (mkSection addr size))
    | _, _ => inr (inr OutOfBounds)
    end.

Definition parse_sections (img : list Z) (base nsects : Z) (out : PantheraKernelImage)
  : PantheraKernelImage + parse_result :=
  while rounds32 (inr OutOfBounds) (parse_sections_step img base nsects) (0, out).

(** The LC_SEGMENT_64 branch: the image to continue with, or a return. *)
Definition parse_segment (img : list Z) (image_size cursor cmdsize : Z)
    (out : PantheraKernelImage) : PantheraKernelImage + parse_result :=
  if cmdsize <? sizeof_SegmentCommand64 then inr (Parsed PANTHERA_LOADER_E_TRUNCATED out)
  else
  read nsects := load32 img (cursor + 64) in
  if cmdsize <? sizeof_SegmentCommand64 +64 (nsects *64 sizeof_Section64)
  then inr (Parsed PANTHERA_LOADER_E_TRUNCATED out)
  else
  read name := file_bytes img (cursor + 8) 16 in
  read va := load64 img (cursor + 24) in
  read vs := load64 img (cursor + 32) in
  read fo := load64 img (cursor + 40) in
  read fs := load64 img (cursor + 48) in
  read mp := load32 img (cursor + 56) in
  read ip := load32 img (cursor + 60) in
  if (vs =? 0) && (fs =? 0) then inl out
  else
    let out := if va <? lowest_vmaddr out then with_lowest out va else out in
    let segment_end := va +64 vs in
    let out := if highest_vmaddr out <? segment_end then with_highest out segment_end else out in
    if image_size <? fo +64 fs then inr (Parsed PANTHERA_LOADER_E_TRUNCATED out)
    else if PANTHERA_MAX_KERNEL_SEGMENTS <=? segment_count out
    then inr (Parsed PANTHERA_LOADER_E_TOO_MANY_SEGMENTS out)
    else
      let out := add_segment out (mkSegment name va vs fo fs mp ip) in
      parse_sections img (cursor + sizeof_SegmentCommand64) nsects out.

Definition parse_dysymtab (img : list Z) (image_size cursor cmdsize : Z)
    (out : PantheraKernelImage) : PantheraKernelImage + parse_result :=
  if cmdsize <? sizeof_DysymtabCommand then inr (Parsed PANTHERA_LOADER_E_TRUNCATED out)
  else
  read locreloff := load32 img (cursor + 72) in
  read nlocrel := load32 img (cursor + 76) in
  if image_size <? locreloff +64 (nlocrel *64 sizeof_RelocationInfo)
  then inr (Parsed PANTHERA_LOADER_E_TRUNCATED out)
  else inl (with_relocs out locreloff nlocrel).

Definition parse_unixthread (img : list Z) (cursor cmdsize : Z)
    (out : PantheraKernelImage) : PantheraKernelImage + parse_result :=
  if cmdsize <? sizeof_LoadCommand + sizeof_ThreadStateHeader + sizeof_X86ThreadState64
  then inr (Parsed PANTHERA_LOADER_E_TRUNCATED out)
  else
  let thread_payload := cursor + sizeof_LoadCommand + sizeof_ThreadStateHeader in
  read rip := load64 img (thread_payload + 128) in
  inl (with_entry out rip).

(** One round of the command loop; [cursor] is the offset from [image]. *)
Definition parse_command_step (img : list Z) (image_size ncmds : Z)
    (s : Z * Z * PantheraKernelImage) : (Z * Z * PantheraKernelImage) + parse_result :=
  let '(command_index, cursor, out) := s in
  if negb (command_index <? ncmds) then
    inr (Parsed (if entry_pc out =? 0 then PANTHERA_LOADER_E_MISSING_ENTRY
                 else PANTHERA_LOADER_OK) out)
  else if image_size <? cursor +64 sizeof_LoadCommand
  then inr (Parsed PANTHERA_LOADER_E_TRUNCATED out)
  else
  read cmd := load32 img cursor in
  read cmdsize := load32 img (cursor + 4) in
  if cmdsize <? sizeof_LoadCommand then inr (Parsed PANTHERA_LOADER_E_TRUNCATED out)
  else if image_size <? cursor +64 cmdsize then inr (Parsed PANTHERA_LOADER_E_TRUNCATED out)
  else
    let next :=
      if cmd =? LC_SEGMENT_64 then parse_segment img image_size cursor cmdsize out
      else if cmd =? LC_DYSYMTAB then parse_dysymtab img image_size cursor cmdsize out
      else if cmd =? LC_UNIXTHREAD then parse_unixthread img cursor cmdsize out
      else inl out in
    match next with
    | inl out' => inl (command_index +32 1, cursor + cmdsize, out')
    | inr r => inr r
    end.

(** The checks on the file header: the number of load commands, or a return. *)
Definition parse_header (img : list Z) (image_size : Z) (out0 : PantheraKernelImage)
  : Z + parse_result :=
  if image_size <? sizeof_MachHeader64 then inr (Parsed PANTHERA_LOADER_E_TRUNCATED out0)
  else
  read magic := load32 img 0 in
  if negb (magic =? MH_MAGIC_64) then inr (Parsed PANTHERA_LOADER_E_BAD_MAGIC out0)
  else
  read cputype := load32 img 4 in
  if negb (cputype =? CPU_TYPE_X86_64) then inr (Parsed PANTHERA_LOADER_E_BAD_CPU out0)
  else
  read filetype := load32 img 12 in
  if negb (filetype =? MH_EXECUTE) then inr (Parsed PANTHERA_LOADER_E_BAD_FILETYPE out0)
  else
  read sizeofcmds := load32 img 20 in
  if image_size <? sizeof_MachHeader64 +64 sizeofcmds
  then inr (Parsed PANTHERA_LOADER_E_TRUNCATED out0)
  else
  read ncmds := load32 img 16 in
  inl ncmds.

(** [image] and [out_image] are [None] for null pointers, [Some] of what they
    point to otherwise; nothing is written through a null [out_image]. *)
Definition panthera_parse_kernel_macho (image : option (list Z)) (image_size : Z)
    (out_image : option PantheraKernelImage) : parse_result :=
  match image, out_image with
  | Some img, Some out0 =>
      match parse_header img image_size out0 with
      | inl ncmds =>
          while rounds32 OutOfBounds (parse_command_step img image_size ncmds)
            (0, sizeof_MachHeader64, initial_image image_size)
      | inr r => r
      end
  | _, _ => Parsed PANTHERA_LOADER_E_NULL (default (initial_image 0) out_image)
  end.

(** ** Well-formed images *)
Definition segment_wf (image_size lo hi : Z) (s : PantheraKernelSegment) : Prop :=
  length (segname s) = 16%nat /\ Forall byte (segname s) /\
  0 <= vmaddr s < 2 ^ 64 /\ 0 <= vmsize s < 2 ^ 64 /\
  0 <= fileoff s < 2 ^ 64 /\ 0 <= filesize s < 2 ^ 64 /\
  (fileoff s +64 filesize s) <= image_size /\
  lo <= vmaddr s /\ (vmaddr s +64 vmsize s) <= hi /\
  ~ (vmsize s = 0 /\ filesize s = 0).

Definition section_wf (s : PantheraKernelSection) : Prop :=
  0 <= sect_addr s < 2 ^ 64 /\ 0 <= sect_size s < 2 ^ 64.

(** What every image under construction satisfies. *)
Record image_wf (image_size : Z) (i : PantheraKernelImage) : Prop := {
  wf_file_size : file_size i = image_size;
  wf_entry : 0 <= entry_pc i < 2 ^ 64;
  wf_lowest : 0 <= lowest_vmaddr i < 2 ^ 64;
  wf_highest : 0 <= highest_vmaddr i < 2 ^ 64;
  wf_reloc_offset : 0 <= local_reloc_offset i < 2 ^ 32;
  wf_reloc_count : 0 <= local_reloc_count i < 2 ^ 32;
  wf_relocs : local_reloc_offset i + 8 * local_reloc_count i <= image_size;
  wf_segments : Forall (segment_wf image_size (lowest_vmaddr i) (highest_vmaddr i)) (segments i);
  wf_segment_count : segment_count i <= PANTHERA_MAX_KERNEL_SEGMENTS;
  wf_sections : Forall section_wf (sections i);
  wf_section_count : section_count i <= PANTHERA_MAX_KERNEL_SECTIONS
}.

(** ** Mach-O files, as a linker writes them *)
Record macho_section := mkMSection {
  ms_sectname : list Z; ms_segname : list Z; ms_addr : Z; ms_size : Z; ms_rest : list Z }.

Inductive macho_cmd :=
| CmdSegment (seg : PantheraKernelSegment) (flags : Z) (secs : list macho_section)
| CmdDysymtab (head : list Z) (locreloff nlocrel : Z)
| CmdThread (flavor regs : list Z) (rip : Z) (tl : list Z)
| CmdOther (cmd : Z) (payload : list Z).

Definition encode_section (s : macho_section) : list Z :=
  ms_sectname s ++ ms_segname s ++ le_encode 8 (ms_addr s) ++ le_encode 8 (ms_size s) ++ ms_rest s.

Definition encode_sections (ss : list macho_section) : list Z := concat (encode_section <$> ss).

Definition cmd_size (c : macho_cmd) : Z :=
  match c with
  | CmdSegment _ _ secs => 72 + 80 * Z.of_nat (length secs)
  | CmdDysymtab _ _ _ => 80
  | CmdThread _ _ _ _ => 184
  | CmdOther _ payload => 8 + Z.of_nat (length payload)
  end.

Definition encode_cmd (c : macho_cmd) : list Z :=
  match c with
  | CmdSegment s flags secs =>
      le_encode 4 LC_SEGMENT_64 ++ le_encode 4 (cmd_size c) ++ segname s ++
      le_encode 8 (vmaddr s) ++ le_encode 8 (vmsize s) ++ le_encode 8 (fileoff s) ++
      le_encode 8 (filesize s) ++ le_encode 4 (maxprot s) ++ le_encode 4 (initprot s) ++
      le_encode 4 (Z.of_nat (length secs)) ++ le_encode 4 flags ++ encode_sections secs
  | CmdDysymtab head lo n =>
      le_encode 4 LC_DYSYMTAB ++ le_encode 4 (cmd_size c) ++ head ++ le_encode 4 lo ++ le_encode 4 n
  | CmdThread fl regs rip tl =>
      le_encode 4 LC_UNIXTHREAD ++ le_encode 4 (cmd_size c) ++ fl ++ regs ++ le_encode 8 rip ++ tl
  | CmdOther k payload => le_encode 4 k ++ le_encode 4 (cmd_size c) ++ payload
  end.

Definition encode_cmds (cs : list macho_cmd) : list Z := concat (encode_cmd <$> cs).

Definition encode_header (ncmds sizeofcmds cpusubtype flags : Z) : list Z :=
  le_encode 4 MH_MAGIC_64 ++ le_encode 4 CPU_TYPE_X86_64 ++ le_encode 4 cpusubtype ++
  le_encode 4 MH_EXECUTE ++ le_encode 4 ncmds ++ le_encode 4 sizeofcmds ++
  le_encode 4 flags ++ le_encode 4 0.

Definition encode_macho (cpusubtype flags : Z) (cs : list macho_cmd) (rest : list Z) : list Z :=
  encode_header (Z.of_nat (length cs)) (Z.of_nat (length (encode_cmds cs))) cpusubtype flags ++
  encode_cmds cs ++ rest.

(** What a loader should learn from each command. *)
Definition kernel_segment_of (c : macho_cmd) : option PantheraKernelSegment :=
  match c with
  | CmdSegment s _ _ => if (vmsize s =? 0) && (filesize s =? 0) then None else Some s
  | _ => None
  end.

Definition kernel_sections_of (c : macho_cmd) : list PantheraKernelSection :=
  match c, kernel_segment_of c with
  | CmdSegment _ _ secs, Some _ => (fun m => mkSection (ms_addr m) (ms_size m)) <$> secs
  | _, _ => []
  end.

Definition entry_of (c : macho_cmd) : option Z :=
  match c with CmdThread _ _ rip _ => Some rip | _ => None end.

Definition relocs_of (c : macho_cmd) : option (Z * Z) :=
  match c with CmdDysymtab _ lo n => Some (lo, n) | _ => None end.

Definition low_of (ss : list PantheraKernelSegment) : Z :=
  foldr (fun s a => Z.min (vmaddr s) a) UINT64_MAX ss.
Definition high_of (ss : list PantheraKernelSegment) : Z :=
  foldr (fun s a => Z.max (vmaddr s + vmsize s) a) 0 ss.

(** The image the commands describe: the non-empty segments and their sections
    in file order, the span of the segments, the last thread state and the
    last relocation table. *)
Definition image_of (size : Z) (cs : list macho_cmd) : PantheraKernelImage :=
  let ss := omap kernel_segment_of cs in
  let rl := default (0, 0) (last (omap relocs_of cs)) in
  mkImage (default 0 (last (omap entry_of cs))) (low_of ss) (high_of ss) size rl.1 rl.2
    ss (concat (kernel_sections_of <$> cs)).

(** Field widths, and the limits of the loader. *)
Definition section_fits (m : macho_section) : Prop :=
  length (ms_sectname m) = 16%nat /\ length (ms_segname m) = 16%nat /\
  length (ms_rest m) = 32%nat /\ 0 <= ms_addr m < 2 ^ 64 /\ 0 <= ms_size m < 2 ^ 64.

Definition segment_fits (s : PantheraKernelSegment) : Prop :=
  length (segname s) = 16%nat /\ 0 <= vmaddr s < 2 ^ 64 /\ 0 <= vmsize s < 2 ^ 64 /\
  0 <= fileoff s < 2 ^ 64 /\ 0 <= filesize s < 2 ^ 64 /\
  0 <= maxprot s < 2 ^ 32 /\ 0 <= initprot s < 2 ^ 32.

Definition cmd_encodable (c : macho_cmd) : Prop :=
  match c with
  | CmdSegment s flags secs =>
      segment_fits s /\ Z.of_nat (length secs) < 2 ^ 20 /\ Forall section_fits secs
  | CmdDysymtab head lo n => length head = 64%nat /\ 0 <= lo < 2 ^ 32 /\ 0 <= n < 2 ^ 32
  | CmdThread fl regs rip tl =>
      length fl = 8%nat /\ length regs = 128%nat /\ length tl = 32%nat /\ 0 <= rip < 2 ^ 64
  | CmdOther k payload =>
      0 <= k < 2 ^ 32 /\ k <> LC_SEGMENT_64 /\ k <> LC_DYSYMTAB /\ k <> LC_UNIXTHREAD /\
      Z.of_nat (length payload) < 2 ^ 31
  end.

Definition cmd_fits (size : Z) (c : macho_cmd) : Prop :=
  cmd_encodable c /\
  match c with
  | CmdSegment s _ _ => vmaddr s + vmsize s < 2 ^ 64 /\ fileoff s + filesize s <= size
  | CmdDysymtab _ lo n => lo + 8 * n <= size
  | _ => True
  end.

Definition add_sections (i : PantheraKernelImage) (ss : list PantheraKernelSection)
  : PantheraKernelImage :=
  mkImage (entry_pc i) (lowest_vmaddr i) (highest_vmaddr i) (file_size i)
    (local_reloc_offset i) (local_reloc_count i) (segments i) (sections i ++ ss).

Definition section_of (m : macho_section) : PantheraKernelSection :=
  mkSection (ms_addr m) (ms_size m).

Definition cmd_code (c : macho_cmd) : Z :=
  match c with
  | CmdSegment _ _ _ => LC_SEGMENT_64
  | CmdDysymtab _ _ _ => LC_DYSYMTAB
  | CmdThread _ _ _ _ => LC_UNIXTHREAD
  | CmdOther k _ => k
  end.


(** A small kernel file: one segment with two sections, an unused command, a
    relocation table and a thread state. *)
Definition sample_segment : PantheraKernelSegment :=
  mkSegment (str "__TEXT" ++ repeat 0 10) 0xffffff8000200000 4096 0 64 7 5.
Definition sample_section (a n : Z) : macho_section :=
  mkMSection (str "__text" ++ repeat 0 10) (str "__TEXT" ++ repeat 0 10) a n (repeat 0 32).
Definition sample_cmds : list macho_cmd :=
  [ CmdSegment sample_segment 0
      [sample_section 0xffffff8000200000 256; sample_section 0xffffff8000200100 64];
    CmdSegment (mkSegment (repeat 0 16) 0 0 0 0 0 0) 0 [];
    CmdOther 0x1b (repeat 7 16);
    CmdDysymtab (repeat 0 64) 32 4;
    CmdThread (repeat 0 8) (repeat 0 128) 0xffffff8000200010 (repeat 0 32) ].
Definition sample_file : list Z := encode_macho 3 0 sample_cmds (repeat 0 128).

(** ** Loads succeed inside the file *)
Lemma file_bytes_some img off n :
  0 <= off -> off + Z.of_nat n <= Z.of_nat (length img) ->
  file_bytes img off n = Some (take n (drop (Z.to_nat off) img)).
Proof.
  intros H1 H2. unfold file_bytes.
  rewrite (proj2 (Z.leb_le 0 off) H1), (proj2 (Z.leb_le _ _) H2). done.
Qed.

Section InFile.
Variable img : list Z.
Hypothesis img_bytes : Forall byte img.

Lemma file_bytes_ok off n :
  0 <= off -> off + Z.of_nat n <= Z.of_nat (length img) ->
  exists bs, file_bytes img off n = Some bs /\ length bs = n /\ Forall byte bs.
Proof.
  intros H1 H2. eexists. split; [by apply file_bytes_some|]. split.
  - rewrite length_take, length_drop. lia.
  - by apply Forall_take, Forall_drop.
Qed.

Lemma load_ok n off :
  0 <= off -> off + Z.of_nat n <= Z.of_nat (length img) ->
  exists v, load n img off = Some v /\ 0 <= v < 256 ^ Z.of_nat n.
Proof.
  intros H1 H2. destruct (file_bytes_ok off n H1 H2) as (bs & E & L & B).
  exists (le_decode bs). unfold load. rewrite E. split; [done|].
  rewrite <- L. by apply le_decode_range.
Qed.

Lemma load32_ok off :
  0 <= off -> off + 4 <= Z.of_nat (length img) ->
  exists v, load32 img off = Some v /\ 0 <= v < 2 ^ 32.
Proof. intros. by apply load_ok. Qed.

Lemma load64_ok off :
  0 <= off -> off + 8 <= Z.of_nat (length img) ->
  exists v, load64 img off = Some v /\ 0 <= v < 2 ^ 64.
Proof. intros. by apply load_ok. Qed.
End InFile.

(** Evaluates the next [read] of a goal whose offset is inside the file. *)
Ltac read_ok :=
  match goal with
  | HB : Forall byte ?img |- context [match ?e with Some _ => _ | None => _ end] =>
      let v := fresh "v" in let E := fresh "E" in let R := fresh "R" in let L := fresh "L" in
      lazymatch e with
      | load 4 img ?o => destruct (load32_ok img HB o) as (v & E & R); [lia|lia|rewrite E]
      | load 8 img ?o => destruct (load64_ok img HB o) as (v & E & R); [lia|lia|rewrite E]
      | file_bytes img ?o ?n =>
          destruct (file_bytes_ok img HB o n) as (v & E & L & R); [lia|lia|rewrite E]
      end
  end.

Ltac sizes :=
  unfold sizeof_MachHeader64, sizeof_LoadCommand, sizeof_SegmentCommand64, sizeof_Section64,
    sizeof_DysymtabCommand, sizeof_RelocationInfo, sizeof_ThreadStateHeader,
    sizeof_X86ThreadState64 in *.

(** Every wrap that cannot overflow here disappears. *)
Ltac nowrap :=
  repeat match goal with
    | |- context [wrap ?w ?z] =>
        rewrite (wrap_small w z) by
          (change (2 ^ 64) with 18446744073709551616 in *;
           change (2 ^ 63) with 9223372036854775808 in *;
           change (2 ^ 32) with 4294967296 in *; lia)
    end.

(** ** Safety of the parser *)
Lemma initial_image_wf image_size :
  0 <= image_size < 2 ^ 63 -> image_wf image_size (initial_image image_size).
Proof. intros H. split; cbn; try done; unfold UINT64_MAX; lia. Qed.

Section Safety.
Variable img : list Z.
Variable image_size : Z.
Hypothesis img_bytes : Forall byte img.
Hypothesis size_in_buffer : image_size <= Z.of_nat (length img).
Hypothesis size_range : 0 <= image_size < 2 ^ 63.

(** What the pieces of the parser guarantee about how they continue or return. *)
Definition piece_ok (r : PantheraKernelImage + parse_result) : Prop :=
  match r with
  | inl out => image_wf image_size out
  | inr (Parsed st _) => st <> PANTHERA_LOADER_OK
  | inr OutOfBounds => False
  end.

Lemma add_section_wf out s :
  image_wf image_size out -> section_wf s -> section_count out < PANTHERA_MAX_KERNEL_SECTIONS ->
  image_wf image_size (add_section out s).
Proof.
  intros [] Hs Hc. split; cbn; try done.
  - apply Forall_app_2; [done|]. by constructor.
  - unfold section_count in *. cbn. rewrite length_app. cbn. lia.
Qed.

Lemma parse_sections_ok base nsects out :
  0 <= base -> 0 <= nsects < 2 ^ 32 ->
  base + nsects * 80 <= image_size -> image_wf image_size out ->
  piece_ok (parse_sections img base nsects out).
Proof.
  intros Hbase Hn Hfit Hwf. unfold parse_sections.
  apply while_rule with
    (I := fun s => 0 <= s.1 <= nsects /\ image_wf image_size s.2)
    (mu := fun s => nsects - s.1); cbn [fst snd].
  - intros [i o] [Hi Ho]. cbn [fst snd] in *. unfold parse_sections_step.
    destruct (Z.ltb_spec i nsects); cbn [negb]; [|done].
    destruct (Z.leb_spec PANTHERA_MAX_KERNEL_SECTIONS (section_count o)); [done|].
    sizes. read_ok. read_ok. nowrap. cbn [fst snd].
    split; [|lia]. split; [lia|]. by apply add_section_wf.
  - split; [lia|done].
  - intros [i o] [Hi _]. cbn in *. lia.
  - unfold rounds32. lia.
Qed.

Lemma with_lowest_wf out va :
  image_wf image_size out -> 0 <= va < lowest_vmaddr out ->
  image_wf image_size (with_lowest out va).
Proof.
  intros [] H. split; cbn; try done; [lia|].
  eapply Forall_impl; [done|]. intros s Hs. unfold segment_wf in *. intuition lia.
Qed.

Lemma with_highest_wf out e :
  image_wf image_size out -> highest_vmaddr out < e < 2 ^ 64 ->
  image_wf image_size (with_highest out e).
Proof.
  intros [] H. split; cbn; try done; [lia|].
  eapply Forall_impl; [done|]. intros s Hs. unfold segment_wf in *. intuition lia.
Qed.

Lemma add_segment_wf out s :
  image_wf image_size out ->
  segment_wf image_size (lowest_vmaddr out) (highest_vmaddr out) s ->
  segment_count out < PANTHERA_MAX_KERNEL_SEGMENTS ->
  image_wf image_size (add_segment out s).
Proof.
  intros [] Hs Hc. split; cbn; try done.
  - apply Forall_app_2; [done|]. by constructor.
  - unfold segment_count in *. cbn. rewrite length_app. cbn. lia.
Qed.

Lemma parse_segment_ok cursor cmdsize out :
  0 <= cursor -> 0 <= cmdsize -> cursor + cmdsize <= image_size -> image_wf image_size out ->
  piece_ok (parse_segment img image_size cursor cmdsize out).
Proof.
  intros Hc Hs Hfit Hwf. unfold parse_segment. sizes.
  destruct (Z.ltb_spec cmdsize 72); [done|].
  read_ok. nowrap. destruct (Z.ltb_spec cmdsize (72 + v * 80)); [done|].
  do 7 read_ok. destruct ((v2 =? 0) && (v4 =? 0)) eqn:Ez; [done|].
  set (out1 := if v1 <? lowest_vmaddr out then _ else _).
  assert (H1 : image_wf image_size out1 /\ lowest_vmaddr out1 <= v1).
  { subst out1. destruct (Z.ltb_spec v1 (lowest_vmaddr out)); [|split; [done|lia]].
    split; [apply with_lowest_wf; [done|lia]|cbn; lia]. }
  pose proof (wrap_64_range (v1 + v2)) as Hend.
  set (out2 := if highest_vmaddr out1 <? _ then _ else _).
  assert (H2 : image_wf image_size out2 /\ lowest_vmaddr out2 <= v1 /\
               wrap 64 (v1 + v2) <= highest_vmaddr out2).
  { subst out2. destruct (Z.ltb_spec (highest_vmaddr out1) (wrap 64 (v1 + v2)));
      [|split; [tauto|lia]].
    split; [apply with_highest_wf; [tauto|lia]|cbn; lia]. }
  destruct (Z.ltb_spec image_size (wrap 64 (v3 + v4))); [done|].
  destruct (Z.leb_spec PANTHERA_MAX_KERNEL_SEGMENTS (segment_count out2)); [done|].
  apply parse_sections_ok; [lia|done|lia|].
  apply add_segment_wf; [tauto| |lia].
  unfold segment_wf; cbn. repeat split; try tauto; try lia.
Qed.

Lemma parse_dysymtab_ok cursor cmdsize out :
  0 <= cursor -> 0 <= cmdsize -> cursor + cmdsize <= image_size -> image_wf image_size out ->
  piece_ok (parse_dysymtab img image_size cursor cmdsize out).
Proof.
  intros Hc Hs Hfit Hwf. unfold parse_dysymtab. sizes.
  destruct (Z.ltb_spec cmdsize 80); [done|].
  do 2 read_ok. nowrap. destruct (Z.ltb_spec image_size (v + v0 * 8)); [done|].
  destruct Hwf. split; cbn; try done. lia.
Qed.

Lemma parse_unixthread_ok cursor cmdsize out :
  0 <= cursor -> 0 <= cmdsize -> cursor + cmdsize <= image_size -> image_wf image_size out ->
  piece_ok (parse_unixthread img cursor cmdsize out).
Proof.
  intros Hc Hs Hfit Hwf. unfold parse_unixthread. sizes.
  destruct (Z.ltb_spec cmdsize (8 + 8 + 168)); [done|].
  read_ok. destruct Hwf. split; cbn; done.
Qed.

(** What a whole run guarantees. *)
Definition run_ok (r : parse_result) : Prop :=
  match r with
  | Parsed PANTHERA_LOADER_OK out => image_wf image_size out /\ entry_pc out <> 0
  | Parsed _ _ => True
  | OutOfBounds => False
  end.

Lemma parse_commands_ok ncmds cursor out :
  0 <= ncmds < 2 ^ 32 -> 0 <= cursor <= image_size -> image_wf image_size out ->
  run_ok (while rounds32 OutOfBounds (parse_command_step img image_size ncmds)
            (0, cursor, out)).
Proof.
  intros Hn Hcur Hwf.
  apply while_rule with
    (I := fun '(i, c, o) => 0 <= i <= ncmds /\ 0 <= c <= image_size /\ image_wf image_size o)
    (mu := fun '(i, _, _) => ncmds - i).
  - intros [[i c] o] (Hi & Hc & Ho). unfold parse_command_step. sizes.
    destruct (Z.ltb_spec i ncmds); cbn [negb].
    2:{ destruct (Z.eqb_spec (entry_pc o) 0); cbn; done. }
    nowrap. destruct (Z.ltb_spec image_size (c + 8)); [done|].
    read_ok. read_ok. destruct (Z.ltb_spec v0 8); [done|].
    nowrap. destruct (Z.ltb_spec image_size (c + v0)); [done|].
    assert (Hp : piece_ok
      (if v =? LC_SEGMENT_64 then parse_segment img image_size c v0 o
       else if v =? LC_DYSYMTAB then parse_dysymtab img image_size c v0 o
       else if v =? LC_UNIXTHREAD then parse_unixthread img c v0 o else inl o)).
    { repeat case_match; [apply parse_segment_ok|apply parse_dysymtab_ok
        |apply parse_unixthread_ok|]; done || lia. }
    destruct (if v =? LC_SEGMENT_64 then _ else _) as [o'|[st o'|]]; cbn in Hp;
      [|destruct st; done|done].
    split; [|lia]. split; [lia|]. split; [lia|done].
  - split; [lia|done].
  - intros [[i c] o] (Hi & _). lia.
  - unfold rounds32. lia.
Qed.

Lemma parse_header_ok out0 :
  match parse_header img image_size out0 with
  | inl ncmds => 0 <= ncmds < 2 ^ 32 /\ 32 <= image_size
  | inr (Parsed st _) => st <> PANTHERA_LOADER_OK
  | inr OutOfBounds => False
  end.
Proof.
  unfold parse_header. sizes. destruct (Z.ltb_spec image_size 32); [done|].
  do 4 (read_ok; match goal with |- context [if ?b then _ else _] => destruct b; [done|] end).
  read_ok. split; [done|lia].
Qed.
End Safety.

(** ** Reading back encoded fields *)
Lemma file_bytes_skip f r k n m :
  length f = m -> Z.of_nat m <= k ->
  file_bytes (f ++ r) k n = file_bytes r (k - Z.of_nat m) n.
Proof.
  intros <- Hk. unfold file_bytes. rewrite length_app.
  destruct (Z.leb_spec 0 k), (Z.leb_spec 0 (k - Z.of_nat (length f))); try lia. cbn [andb].
  destruct (Z.leb_spec (k + Z.of_nat n) (Z.of_nat (length f + length r))),
    (Z.leb_spec (k - Z.of_nat (length f) + Z.of_nat n) (Z.of_nat (length r))); try lia; [|done].
  f_equal. f_equal. rewrite drop_app_ge by lia. f_equal. lia.
Qed.

Lemma file_bytes_here f r n : length f = n -> file_bytes (f ++ r) 0 n = Some f.
Proof.
  intros <-. unfold file_bytes. rewrite length_app. cbn [Z.leb Z.compare andb].
  rewrite (proj2 (Z.leb_le _ _)) by lia. change (Z.to_nat 0) with 0%nat.
  by rewrite drop_0, take_app_length.
Qed.

Lemma load_skip f r k n m :
  length f = m -> Z.of_nat m <= k -> load n (f ++ r) k = load n r (k - Z.of_nat m).
Proof. intros. unfold load. by erewrite file_bytes_skip. Qed.

Lemma load_here n v r : 0 <= v < 256 ^ Z.of_nat n -> load n (le_encode n v ++ r) 0 = Some v.
Proof.
  intros Hv. unfold load. rewrite file_bytes_here by apply length_le_encode. cbn.
  by rewrite le_decode_encode, Z.mod_small.
Qed.

(** A field at the end of the file. *)
Lemma load_last n v : 0 <= v < 256 ^ Z.of_nat n -> load n (le_encode n v) 0 = Some v.
Proof. intros. rewrite <- (app_nil_r (le_encode n v)). by apply load_here. Qed.

Lemma load_skip_to f r k n m k' :
  length f = m -> Z.of_nat m <= k -> k' = k - Z.of_nat m -> load n (f ++ r) k = load n r k'.
Proof. intros ? ? ->. by apply load_skip. Qed.

Lemma file_bytes_skip_to f r k n m k' :
  length f = m -> Z.of_nat m <= k -> k' = k - Z.of_nat m ->
  file_bytes (f ++ r) k n = file_bytes r k' n.
Proof. intros ? ? ->. by apply file_bytes_skip. Qed.

(** Calls [tac m H] with the length of a field and its proof. *)
Ltac with_field_length f tac :=
  lazymatch f with
  | le_encode ?m ?v => tac m (length_le_encode m v)
  | _ => match goal with H : length f = ?m |- _ => tac m H end
  end.

(** Evaluates a load at a literal offset of a concatenation of fields. *)
Ltac eval_field :=
  lazymatch goal with
  | |- context [load ?n (le_encode ?n ?v ++ ?r) 0] => rewrite (load_here n v r) by (cbn; lia)
  | |- context [load ?n (le_encode ?n ?v) 0] => rewrite (load_last n v) by (cbn; lia)
  | |- context [load ?n (?f ++ ?r) ?k] =>
      with_field_length f ltac:(fun m H =>
        let k' := eval vm_compute in (k - Z.of_nat m) in
        rewrite (load_skip_to f r k n m k' H) by (cbn; lia))
  | |- context [file_bytes (?f ++ ?r) 0 ?n] => rewrite (file_bytes_here f r n) by eassumption
  | |- context [file_bytes (?f ++ ?r) ?k ?n] =>
      with_field_length f ltac:(fun m H =>
        let k' := eval vm_compute in (k - Z.of_nat m) in
        rewrite (file_bytes_skip_to f r k n m k' H) by (cbn; lia))
  end.
Ltac eval_fields := repeat eval_field.

(** Moving a load at a cursor into the bytes under the cursor. *)
Lemma load_at n A B k : 0 <= k -> load n (A ++ B) (Z.of_nat (length A) + k) = load n B k.
Proof. intros. rewrite (load_skip A B _ n (length A)) by (done || lia). f_equal. lia. Qed.

Lemma load_at0 n A B : load n (A ++ B) (Z.of_nat (length A)) = load n B 0.
Proof. rewrite (load_skip A B _ n (length A)) by (done || lia). f_equal. lia. Qed.

Lemma file_bytes_at n A B k :
  0 <= k -> file_bytes (A ++ B) (Z.of_nat (length A) + k) n = file_bytes B k n.
Proof. intros. rewrite (file_bytes_skip A B _ n (length A)) by (done || lia). f_equal. lia. Qed.

(** ** Lengths of encodings *)
Lemma length_encode_section m : section_fits m -> length (encode_section m) = 80%nat.
Proof.
  intros (H1 & H2 & H3 & _). unfold encode_section.
  rewrite !length_app, !length_le_encode. lia.
Qed.

Lemma length_encode_sections ss :
  Forall section_fits ss -> length (encode_sections ss) = (80 * length ss)%nat.
Proof.
  induction 1 as [|m ss Hm _ IH]; [done|].
  change (encode_sections (m :: ss)) with (encode_section m ++ encode_sections ss).
  rewrite length_app, length_encode_section by done. cbn [length]. lia.
Qed.

Lemma length_encode_cmd c : cmd_encodable c -> Z.of_nat (length (encode_cmd c)) = cmd_size c.
Proof.
  destruct c as [s fl secs|h lo n|fl regs rip tl|k pl]; cbn [cmd_encodable encode_cmd cmd_size];
    intros H; rewrite !length_app, ?length_le_encode.
  - destruct H as ((H1 & _) & _ & H). rewrite length_encode_sections by done. lia.
  - lia.
  - lia.
  - lia.
Qed.

Lemma encode_sections_app a b : encode_sections (a ++ b) = encode_sections a ++ encode_sections b.
Proof. unfold encode_sections. by rewrite fmap_app, concat_app. Qed.

Lemma encode_cmds_app a b : encode_cmds (a ++ b) = encode_cmds a ++ encode_cmds b.
Proof. unfold encode_cmds. by rewrite fmap_app, concat_app. Qed.

(** ** The parser on an encoded file *)
Lemma load_section_fields m B :
  section_fits m ->
  load64 (encode_section m ++ B) 32 = Some (ms_addr m) /\
  load64 (encode_section m ++ B) 40 = Some (ms_size m).
Proof.
  intros (H1 & H2 & H3 & H4 & H5). unfold encode_section. rewrite <- !(assoc_L (++)).
  split; eval_fields; done.
Qed.

Lemma parse_sections_encode A B secs out :
  Forall section_fits secs -> section_count out + Z.of_nat (length secs) <= 64 ->
  parse_sections (A ++ encode_sections secs ++ B) (Z.of_nat (length A))
    (Z.of_nat (length secs)) out = inl (add_sections out (section_of <$> secs)).
Proof.
  intros Hf Hc. unfold parse_sections.
  apply (while_rule _
    (fun s => exists a b, secs = a ++ b /\ s.1 = Z.of_nat (length a) /\
       s.2 = add_sections out (section_of <$> a))
    (fun s => Z.of_nat (length secs) - s.1)).
  - intros [j o] (a & b & -> & Hj & Ho). cbn [fst snd] in Hj, Ho. subst j o.
    unfold parse_sections_step. rewrite length_app in *.
    destruct b as [|m b].
    { rewrite (proj2 (Z.ltb_ge _ _)) by (cbn; lia). by rewrite app_nil_r. }
    cbn [length] in *. rewrite (proj2 (Z.ltb_lt _ _)) by lia. cbn [negb].
    unfold section_count, add_sections, PANTHERA_MAX_KERNEL_SECTIONS in *. cbn [sections].
    rewrite length_app, length_fmap, (proj2 (Z.leb_gt _ _)) by lia.
    apply Forall_app in Hf as [Ha Hb]. apply Forall_cons in Hb as [Hm Hb].
    rewrite encode_sections_app.
    change (encode_sections (m :: b)) with (encode_section m ++ encode_sections b).
    rewrite <- !(assoc_L (++)), !(assoc_L (++) A).
    replace (_ + Z.of_nat (length a) * sizeof_Section64)
      with (Z.of_nat (length (A ++ encode_sections a))).
    2:{ rewrite length_app, length_encode_sections by done. unfold sizeof_Section64. lia. }
    rewrite !load_at by lia.
    destruct (load_section_fields m (encode_sections b ++ B) Hm) as [E1 E2].
    rewrite E1, E2. wrap_tac. cbn [fst snd]. split; [|lia].
    exists (a ++ [m]), b. rewrite <- (assoc_L (++)), length_app, fmap_app. cbn [length fmap list_fmap].
    do 2 (split; [done || lia|]). unfold add_section; cbn. by rewrite <- (assoc_L (++)).
  - exists [], secs. unfold add_sections. cbn. rewrite app_nil_r. by destruct out.
  - intros [j o] (a & b & -> & -> & _). rewrite length_app. lia.
  - cbn [fst]. unfold section_count in Hc. unfold rounds32. lia.
Qed.

Lemma low_of_snoc ss s : low_of (ss ++ [s]) = Z.min (vmaddr s) (low_of ss).
Proof. unfold low_of. induction ss as [|x ss IH]; cbn; [done|]. rewrite IH. lia. Qed.

Lemma high_of_snoc ss s : high_of (ss ++ [s]) = Z.max (vmaddr s + vmsize s) (high_of ss).
Proof. unfold high_of. induction ss as [|x ss IH]; cbn; [done|]. rewrite IH. lia. Qed.

Lemma cmd_size_range c : cmd_encodable c -> 8 <= cmd_size c < 2 ^ 32.
Proof. destruct c; cbn [cmd_encodable cmd_size]; lia. Qed.

Lemma load_cmd_prefix A c B :
  cmd_encodable c ->
  load32 (A ++ encode_cmd c ++ B) (Z.of_nat (length A)) = Some (cmd_code c) /\
  load32 (A ++ encode_cmd c ++ B) (Z.of_nat (length A) + 4) = Some (cmd_size c).
Proof.
  intros Hf. pose proof (cmd_size_range _ Hf) as Hs. rewrite load_at0, load_at by lia.
  destruct c; cbn [encode_cmd cmd_code cmd_size cmd_encodable] in *; rewrite <- !(assoc_L (++));
    unfold LC_SEGMENT_64, LC_DYSYMTAB, LC_UNIXTHREAD; split; eval_fields; done.
Qed.

Section Commands.
Variables (size : Z) (done : list macho_cmd) (A B : list Z).

Lemma parse_dysymtab_encode head lo n :
  let c := CmdDysymtab head lo n in
  cmd_fits size c ->
  parse_dysymtab (A ++ encode_cmd c ++ B) size (Z.of_nat (length A)) (cmd_size c)
    (image_of size done) = inl (image_of size (done ++ [c])).
Proof.
  intros c Hf. unfold c, parse_dysymtab. cbn [cmd_size encode_cmd] in *.
  destruct Hf as ((Hh & Hlo & Hn) & Hsz). cbn in Hsz. rewrite !load_at by lia. rewrite <- !(assoc_L (++)).
  change (80 <? sizeof_DysymtabCommand) with false. cbn match. eval_fields.
  unfold sizeof_RelocationInfo. wrap_tac. rewrite (proj2 (Z.ltb_ge _ _)) by lia.
  unfold with_relocs, image_of. rewrite !omap_app, fmap_app, concat_app.
  cbn [omap list_omap relocs_of entry_of kernel_segment_of fmap list_fmap concat kernel_sections_of].
  by rewrite last_snoc, !app_nil_r.
Qed.

Lemma parse_unixthread_encode fl regs rip tl :
  let c := CmdThread fl regs rip tl in
  cmd_fits size c ->
  parse_unixthread (A ++ encode_cmd c ++ B) (Z.of_nat (length A)) (cmd_size c)
    (image_of size done) = inl (image_of size (done ++ [c])).
Proof.
  intros c Hf. unfold c, parse_unixthread. cbn [cmd_size encode_cmd] in *.
  destruct Hf as ((Hfl & Hr & Htl & Hrip) & _).
  change (184 <? _) with false. cbn match.
  unfold sizeof_LoadCommand, sizeof_ThreadStateHeader. rewrite <- !Z.add_assoc.
  rewrite load_at by lia. rewrite <- !(assoc_L (++)). eval_fields.
  unfold with_entry, image_of. rewrite !omap_app, fmap_app, concat_app.
  cbn [omap list_omap relocs_of entry_of kernel_segment_of fmap list_fmap concat kernel_sections_of].
  by rewrite last_snoc, !app_nil_r.
Qed.

Lemma image_of_other k pl : image_of size (done ++ [CmdOther k pl]) = image_of size done.
Proof.
  unfold image_of. rewrite !omap_app, fmap_app, concat_app.
  cbn [omap list_omap relocs_of entry_of kernel_segment_of fmap list_fmap concat kernel_sections_of].
  by rewrite !app_nil_r.
Qed.

(** The bounds update of the segment branch is a minimum and a maximum. *)
Lemma span_update (o : PantheraKernelImage) va e :
  (if highest_vmaddr (if va <? lowest_vmaddr o then with_lowest o va else o) <? e
   then with_highest (if va <? lowest_vmaddr o then with_lowest o va else o) e
   else (if va <? lowest_vmaddr o then with_lowest o va else o)) =
  with_highest (with_lowest o (Z.min va (lowest_vmaddr o))) (Z.max e (highest_vmaddr o)).
Proof.
  destruct o; unfold with_highest, with_lowest; cbn.
  destruct (Z.ltb_spec va lowest_vmaddr0); cbn;
    destruct (Z.ltb_spec highest_vmaddr0 e); f_equal; lia.
Qed.

Lemma image_of_segment s flags secs :
  kernel_segment_of (CmdSegment s flags secs) = Some s ->
  image_of size (done ++ [CmdSegment s flags secs]) =
  add_sections (add_segment
    (with_highest (with_lowest (image_of size done)
       (Z.min (vmaddr s) (lowest_vmaddr (image_of size done))))
       (Z.max (vmaddr s + vmsize s) (highest_vmaddr (image_of size done)))) s)
    (section_of <$> secs).
Proof.
  intros E. set (c := CmdSegment s flags secs) in *.
  assert (E1 : omap kernel_segment_of [c] = [s]) by (cbn [omap list_omap]; by rewrite E).
  assert (E2 : kernel_sections_of c = section_of <$> secs).
  { unfold kernel_sections_of, c. fold c. by rewrite E. }
  unfold image_of. rewrite !omap_app, fmap_app, concat_app, E1, low_of_snoc, high_of_snoc.
  cbn [omap list_omap relocs_of entry_of c fmap list_fmap concat].
  rewrite !app_nil_r. unfold fmap in E2. rewrite E2. done.
Qed.

Lemma image_of_empty_segment s flags secs :
  kernel_segment_of (CmdSegment s flags secs) = None ->
  image_of size (done ++ [CmdSegment s flags secs]) = image_of size done.
Proof.
  intros E. set (c := CmdSegment s flags secs) in *.
  assert (E1 : omap kernel_segment_of [c] = []) by (cbn [omap list_omap]; by rewrite E).
  assert (E2 : kernel_sections_of c = []).
  { unfold kernel_sections_of, c. fold c. by rewrite E. }
  unfold image_of. rewrite !omap_app, fmap_app, concat_app, E1.
  cbn [omap list_omap relocs_of entry_of c fmap list_fmap concat].
  unfold fmap in E2. rewrite E2, !app_nil_r. done.
Qed.

Lemma load_segment_fields s flags secs :
  let f := A ++ encode_cmd (CmdSegment s flags secs) ++ B in
  let p := Z.of_nat (length A) in
  cmd_encodable (CmdSegment s flags secs) ->
  load32 f (p + 64) = Some (Z.of_nat (length secs)) /\
  file_bytes f (p + 8) 16 = Some (segname s) /\
  load64 f (p + 24) = Some (vmaddr s) /\ load64 f (p + 32) = Some (vmsize s) /\
  load64 f (p + 40) = Some (fileoff s) /\ load64 f (p + 48) = Some (filesize s) /\
  load32 f (p + 56) = Some (maxprot s) /\ load32 f (p + 60) = Some (initprot s).
Proof.
  intros f p Hf. unfold f, p. rewrite !load_at, file_bytes_at by lia.
  destruct Hf as ((Hl & Hva & Hvs & Hfo & Hfs & Hmp & Hip) & Hk & Hsecs).
  cbn [encode_cmd]. rewrite <- !(assoc_L (++)).
  repeat split; eval_fields; done.
Qed.

Lemma split_segment s flags secs :
  length (segname s) = 16%nat ->
  exists H, encode_cmd (CmdSegment s flags secs) = H ++ encode_sections secs /\
            length H = 72%nat.
Proof.
  intros Hl. cbn [encode_cmd]. rewrite !(assoc_L (++)). eexists.
  split; [done|]. rewrite !length_app, !length_le_encode. lia.
Qed.

Lemma parse_segment_encode s flags secs :
  let c := CmdSegment s flags secs in
  cmd_fits size c -> size < 2 ^ 63 ->
  segment_count (image_of size (done ++ [c])) <= 16 ->
  section_count (image_of size (done ++ [c])) <= 64 ->
  parse_segment (A ++ encode_cmd c ++ B) size (Z.of_nat (length A)) (cmd_size c)
    (image_of size done) = inl (image_of size (done ++ [c])).
Proof.
  intros c Hf Hsz Hn Hm. unfold parse_segment, c.
  destruct (load_segment_fields s flags secs (proj1 Hf))
    as (-> & -> & -> & -> & -> & -> & -> & ->). fold c.
  destruct Hf as (((Hl & Hva & Hvs & Hfo & Hfs & Hmp & Hip) & Hk & Hsecs) & Hve & Hfe).
  unfold sizeof_Section64, sizeof_SegmentCommand64. wrap_tac.
  rewrite !(proj2 (Z.ltb_ge _ _)) by (cbn [cmd_size c]; lia).
  destruct ((vmsize s =? 0) && (filesize s =? 0)) eqn:Ez.
  { unfold c. rewrite image_of_empty_segment; [done|]. cbn. by rewrite Ez. }
  assert (Es : kernel_segment_of c = Some s) by (cbn; by rewrite Ez).
  rewrite span_update. unfold c in Hn, Hm, Es |- *. rewrite image_of_segment in Hn, Hm |- * by done.
  unfold segment_count, section_count in Hn, Hm.
  cbn [segments sections add_sections add_segment with_highest with_lowest] in Hn, Hm.
  rewrite length_app in Hn, Hm. rewrite length_fmap in Hm. cbn [length] in Hn.
  rewrite (proj2 (Z.leb_gt PANTHERA_MAX_KERNEL_SEGMENTS _)).
  2:{ unfold segment_count, PANTHERA_MAX_KERNEL_SEGMENTS.
      cbn [segments with_highest with_lowest]. lia. }
  destruct (split_segment s flags secs Hl) as (H & EH & LH). rewrite EH.
  replace (Z.of_nat (length A) + 72) with (Z.of_nat (length (A ++ H)))
    by (rewrite length_app; lia).
  rewrite <- !(assoc_L (++)), (assoc_L (++) A H), parse_sections_encode; [|done|].
  - by destruct s.
  - unfold section_count. cbn [sections add_segment with_highest with_lowest]. lia.
Qed.

Lemma segment_count_app cs cs' :
  segment_count (image_of size (cs ++ cs')) =
  segment_count (image_of size cs) + segment_count (image_of size cs').
Proof. unfold segment_count, image_of. cbn [segments]. rewrite omap_app, length_app. lia. Qed.

Lemma section_count_app cs cs' :
  section_count (image_of size (cs ++ cs')) =
  section_count (image_of size cs) + section_count (image_of size cs').
Proof.
  unfold section_count, image_of. cbn [sections]. rewrite fmap_app, concat_app, length_app. lia.
Qed.

(** One round of the command loop consumes one command. *)
Lemma parse_command_step_encode ncmds i c :
  cmd_fits size c -> size < 2 ^ 63 -> Z.of_nat (length A) + cmd_size c <= size ->
  0 <= i < ncmds -> ncmds < 2 ^ 32 ->
  segment_count (image_of size (done ++ [c])) <= 16 ->
  section_count (image_of size (done ++ [c])) <= 64 ->
  parse_command_step (A ++ encode_cmd c ++ B) size ncmds
    (i, Z.of_nat (length A), image_of size done) =
  inl (i + 1, Z.of_nat (length A) + cmd_size c, image_of size (done ++ [c])).
Proof.
  intros Hf Hsz Hin Hi Hn Hs Hm. unfold parse_command_step.
  pose proof (cmd_size_range _ (proj1 Hf)) as Hc.
  destruct (load_cmd_prefix A c B (proj1 Hf)) as [-> ->].
  rewrite (proj2 (Z.ltb_lt _ _)) by lia. cbn [negb].
  unfold sizeof_LoadCommand. wrap_tac. rewrite !(proj2 (Z.ltb_ge _ _)) by lia.
  destruct c as [s fl secs|h lo n|fl regs rip tl|k pl].
  - cbn [cmd_code]. change (LC_SEGMENT_64 =? LC_SEGMENT_64) with true. cbn match.
    by rewrite parse_segment_encode.
  - cbn [cmd_code]. change (LC_DYSYMTAB =? LC_SEGMENT_64) with false.
    change (LC_DYSYMTAB =? LC_DYSYMTAB) with true. cbn match. by rewrite parse_dysymtab_encode.
  - cbn [cmd_code]. change (LC_UNIXTHREAD =? LC_SEGMENT_64) with false.
    change (LC_UNIXTHREAD =? LC_DYSYMTAB) with false.
    change (LC_UNIXTHREAD =? LC_UNIXTHREAD) with true. cbn match.
    by rewrite parse_unixthread_encode.
  - destruct Hf as ((_ & H1 & H2 & H3 & _) & _). cbn [cmd_code].
    rewrite !(proj2 (Z.eqb_neq _ _)) by done. by rewrite image_of_other.
Qed.
End Commands.

(** C7. Parsing any file of any contents reads only bytes of the file, always
    returns, and on success the image satisfies the loader's invariants: at
    most 16 segments and 64 sections, a non-zero entry point, every segment's
    start and (64-bit) end within the recorded address span, its (64-bit) file
    range and the relocation table within the file. *)
Theorem parse_kernel_macho_safe (img : list Z) (image_size : Z) (out0 : PantheraKernelImage) :
  Forall byte img -> 0 <= image_size < 2 ^ 63 -> image_size <= Z.of_nat (length img) ->
  exists st out, panthera_parse_kernel_macho (Some img) image_size (Some out0) = Parsed st out /\
    (st = PANTHERA_LOADER_OK -> image_wf image_size out /\ entry_pc out <> 0).
Proof.
  intros HB Hr Hs. unfold panthera_parse_kernel_macho.
  pose proof (parse_header_ok img image_size HB Hs out0) as Hh.
  destruct (parse_header img image_size out0) as [ncmds|[st out|]];
    [|exists st, out; split; [done|]; by intros ->|done].
  destruct Hh as [Hn H32].
  pose proof (parse_commands_ok img image_size HB Hs Hr ncmds 32 (initial_image image_size)
                Hn ltac:(lia) (initial_image_wf image_size Hr)) as H.
  unfold sizeof_MachHeader64. destruct (while _ _ _ _) as [st out|]; [|done].
  exists st, out. split; [done|]. intros ->. exact H.
Qed.

Lemma parse_kernel_macho_safe_witness :
  exists st out,
    panthera_parse_kernel_macho (Some sample_file) 500 (Some (initial_image 0)) = Parsed st out /\
    (st = PANTHERA_LOADER_OK -> image_wf 500 out /\ entry_pc out <> 0).
Proof.
  apply (parse_kernel_macho_safe sample_file 500 (initial_image 0)).
  - apply (bool_decide_unpack _). vm_compute. exact I.
  - lia.
  - vm_compute. discriminate.
Defined.

Lemma length_encode_cmds cs :
  Forall cmd_encodable cs -> 8 * Z.of_nat (length cs) <= Z.of_nat (length (encode_cmds cs)).
Proof.
  induction 1 as [|c cs Hc _ IH]; [done|].
  change (encode_cmds (c :: cs)) with (encode_cmd c ++ encode_cmds cs).
  rewrite length_app. cbn [length]. pose proof (length_encode_cmd _ Hc).
  pose proof (cmd_size_range _ Hc). lia.
Qed.

Lemma fits_encodable size cs : Forall (cmd_fits size) cs -> Forall cmd_encodable cs.
Proof. intros H. eapply Forall_impl; [exact H|]. by intros c [Hc _]. Qed.

Lemma parse_header_encode size sub flags cs rest out0 :
  size = 32 + Z.of_nat (length (encode_cmds cs)) + Z.of_nat (length rest) ->
  size < 2 ^ 32 -> Z.of_nat (length cs) < 2 ^ 32 ->
  parse_header (encode_macho sub flags cs rest) size out0 = inl (Z.of_nat (length cs)).
Proof.
  intros Hsz Hlt Hn. unfold parse_header, encode_macho, encode_header, sizeof_MachHeader64.
  rewrite (proj2 (Z.ltb_ge size 32)) by lia. rewrite <- !(assoc_L (++)).
  unfold MH_MAGIC_64, CPU_TYPE_X86_64, MH_EXECUTE. eval_fields. cbn [Z.eqb Pos.eqb negb].
  wrap_tac. by rewrite (proj2 (Z.ltb_ge _ _)) by lia.
Qed.

Lemma length_encode_header n k sub flags : length (encode_header n k sub flags) = 32%nat.
Proof. done. Qed.

(** The file around the command the cursor is at. *)
Lemma encode_macho_split sub flags a c b rest :
  exists A B, encode_macho sub flags ((a ++ [c]) ++ b) rest = A ++ encode_cmd c ++ B /\
    Z.of_nat (length A) = 32 + Z.of_nat (length (encode_cmds a)).
Proof.
  unfold encode_macho. set (h := encode_header _ _ _ _).
  exists (h ++ encode_cmds a), (encode_cmds b ++ rest). split.
  - rewrite !encode_cmds_app, <- !(assoc_L (++)). do 2 f_equal.
    unfold encode_cmds. cbn. by rewrite app_nil_r.
  - unfold h. rewrite length_app, length_encode_header. lia.
Qed.

Lemma parse_step_encode size sub flags a c b rest :
  let cs := (a ++ [c]) ++ b in
  size = 32 + Z.of_nat (length (encode_cmds cs)) + Z.of_nat (length rest) -> size < 2 ^ 32 ->
  Forall (cmd_fits size) cs ->
  segment_count (image_of size cs) <= 16 -> section_count (image_of size cs) <= 64 ->
  parse_command_step (encode_macho sub flags cs rest) size (Z.of_nat (length cs))
    (Z.of_nat (length a), 32 + Z.of_nat (length (encode_cmds a)), image_of size a) =
  inl (Z.of_nat (length (a ++ [c])), 32 + Z.of_nat (length (encode_cmds (a ++ [c]))),
       image_of size (a ++ [c])).
Proof.
  intros cs Hsz Hlt Hf Hs Hm. pose proof (length_encode_cmds _ (fits_encodable _ _ Hf)) as H8. unfold cs in *.
  apply Forall_app in Hf as [Hf Hfb]. apply Forall_app in Hf as [Hfa Hfc].
  apply Forall_cons in Hfc as [Hfc _]. pose proof (length_encode_cmd _ (proj1 Hfc)) as Hlc.
  rewrite (segment_count_app size (a ++ [c])) in Hs.
  rewrite (section_count_app size (a ++ [c])) in Hm.
  assert (0 <= segment_count (image_of size b)) by (unfold segment_count; lia).
  assert (0 <= section_count (image_of size b)) by (unfold section_count; lia).
  destruct (encode_macho_split sub flags a c b rest) as (A & B & -> & HA).
  assert (E : encode_cmds [c] = encode_cmd c) by apply app_nil_r.
  rewrite !encode_cmds_app, E in *. rewrite !length_app in *. cbn [length] in *.
  rewrite <- HA, (parse_command_step_encode size a A B) by (done || lia).
  rewrite Nat2Z.inj_add, (Nat2Z.inj_add (length (encode_cmds a))), Hlc. do 3 f_equal; lia.
Qed.

(** C6. Parsing what a linker encodes gives back what it encoded: for every
    list of load commands within the loader's limits the parser succeeds, and
    the image it returns has exactly the non-empty segments and their sections
    in file order, the least start and greatest end of those segments, the last
    thread state's instruction pointer and the last relocation table. *)
Theorem parse_encode_macho (sub flags : Z) (cs : list macho_cmd) (rest : list Z)
    (out0 : PantheraKernelImage) :
  let file := encode_macho sub flags cs rest in
  let size := Z.of_nat (length file) in
  Forall (cmd_fits size) cs -> size < 2 ^ 32 ->
  segment_count (image_of size cs) <= 16 -> section_count (image_of size cs) <= 64 ->
  entry_pc (image_of size cs) <> 0 ->
  panthera_parse_kernel_macho (Some file) size (Some out0) =
  Parsed PANTHERA_LOADER_OK (image_of size cs).
Proof.
  intros file size Hf Hsz Hseg Hsec He.
  assert (HL : size = 32 + Z.of_nat (length (encode_cmds cs)) + Z.of_nat (length rest)).
  { unfold size, file, encode_macho. rewrite !length_app, length_encode_header. lia. }
  pose proof (length_encode_cmds _ (fits_encodable _ _ Hf)) as H8.
  unfold panthera_parse_kernel_macho, file. rewrite parse_header_encode by (done || lia).
  apply (while_rule _
    (fun s => exists a b, cs = a ++ b /\ s = (Z.of_nat (length a),
       32 + Z.of_nat (length (encode_cmds a)), image_of size a))
    (fun s => Z.of_nat (length cs) - s.1.1)).
  - intros s (a & b & E & ->). destruct b as [|c b].
    + rewrite app_nil_r in E. subst a. unfold parse_command_step. 
      rewrite Z.ltb_irrefl. cbn [negb]. by rewrite (proj2 (Z.eqb_neq _ _)).
    + rewrite cons_middle, (assoc_L (++)) in E. subst cs.
      rewrite parse_step_encode by done. cbn [fst]. rewrite !length_app. cbn [length].
      split; [|lia]. exists (a ++ [c]), b. by rewrite length_app.
  - by exists [], cs.
  - intros s (a & b & -> & ->). cbn [fst]. rewrite length_app. lia.
  - cbn [fst]. unfold rounds32. lia.
Qed.

Lemma parse_encode_macho_witness :
  panthera_parse_kernel_macho (Some sample_file) 752 (Some (initial_image 0)) =
  Parsed PANTHERA_LOADER_OK (image_of 752 sample_cmds).
Proof.
  apply (parse_encode_macho 3 0 sample_cmds (repeat 0 128) (initial_image 0)).
  - change (Z.of_nat _) with 752. unfold sample_cmds, sample_segment, sample_section.
    repeat constructor; cbn; done || lia.
  - vm_compute. reflexivity.
  - vm_compute. discriminate.
  - vm_compute. discriminate.
  - vm_compute. discriminate.
Defined.
