(* ===== verification/Rebase.v ===== *)
(** * Relocating a loaded kernel: boot/efi/loader/src/panthera_loader.c

    The kernel's segments have been copied to [loaded_base] in physical memory.
    [panthera_rebase_kernel_locals] adds the slide to every pointer named by the
    local relocation table, and [panthera_slide_kernel_macho_metadata] rewrites
    the loaded Mach-O header, the constant pointer tables and the symbol table.
    Memory is the byte memory of [Prelude]; [const void *file_image] is the list
    of the file's bytes, as in [MachO]. A null pointer argument is [None], a
    returned null pointer is the address 0. *)

From Stdlib Require Import ZArith Lia Ascii String.
From stdpp Require Import base list gmap.
From S2P Require Import Prelude MachO.

Open Scope Z_scope.

(** ** Constants *)
Definition X86_64_RELOC_UNSIGNED : Z := 0.
Definition N_STAB : Z := 0xe0.
Definition N_TYPE : Z := 0x0e.
Definition N_SECT : Z := 0x0e.
Definition N_STSYM : Z := 0x26.
Definition N_LCSYM : Z := 0x28.
Definition N_BNSYM : Z := 0x2e.
Definition N_SLINE : Z := 0x44.
Definition N_ENSYM : Z := 0x4e.
Definition N_SO : Z := 0x64.
Definition N_SOL : Z := 0x84.
Definition N_ENTRY : Z := 0xa4.
Definition N_LBRAC : Z := 0xc0.
Definition N_RBRAC : Z := 0xe0.
Definition N_ECOMM : Z := 0xe4.
Definition N_ECOML : Z := 0xe8.

(** ** Address translation *)
Definition panthera_loaded_vmaddr (ki : PantheraKernelImage) (loaded_base va size : Z) : Z :=
  if va <? lowest_vmaddr ki then 0
  else if (highest_vmaddr ki -64 va) <? size then 0
  else loaded_base +64 (va -64 lowest_vmaddr ki).

Fixpoint loaded_file_offset_loop (ki : PantheraKernelImage) (loaded_base file_offset size : Z)
    (segs : list PantheraKernelSegment) : Z :=
  match segs with
  | [] => 0
  | s :: segs' =>
      let continue := loaded_file_offset_loop ki loaded_base file_offset size segs' in
      if filesize s =? 0 then continue
      else if file_offset <? fileoff s then continue
      else
        let segment_file_offset := file_offset -64 fileoff s in
        if filesize s <? segment_file_offset then continue
        else if (filesize s -64 segment_file_offset) <? size then continue
        else panthera_loaded_vmaddr ki loaded_base (vmaddr s +64 segment_file_offset) size
  end.

Definition panthera_loaded_file_offset (ki : PantheraKernelImage)
    (loaded_base file_offset size : Z) : Z :=
  loaded_file_offset_loop ki loaded_base file_offset size (segments ki).

(** ** Names *)

(** Compares [lhs[i..16)] with the C string [rhs]; [n] is [16 - i]. *)
Fixpoint name_equals_loop (n : nat) (lhs rhs : list Z) : bool :=
  match n with
  | O => deref rhs =? 0
  | S n' =>
      let rhs_char := deref rhs in
      if negb (deref lhs =? rhs_char) then false
      else if rhs_char =? 0 then true
      else name_equals_loop n' (tail lhs) (tail rhs)
  end.

Definition panthera_name_equals (lhs rhs : list Z) : bool := name_equals_loop 16 lhs rhs.

(** The chain of character comparisons on [segment->segname]. *)
Definition segname_is (s : PantheraKernelSegment) (name : string) : bool :=
  bool_decide (take 7 (segname s) = str name ++ [0]).

(** ** Symbols *)
Definition section_stabs : list Z :=
  [N_STSYM; N_LCSYM; N_BNSYM; N_SLINE; N_ENSYM; N_SO; N_SOL; N_ENTRY; N_ECOMM; N_ECOML;
   N_RBRAC; N_LBRAC].

Definition panthera_symbol_is_section_based (n_type : Z) : bool :=
  if negb (Z.land n_type N_STAB =? 0) then bool_decide (n_type ∈ section_stabs)
  else Z.land n_type N_TYPE =? N_SECT.

(** ** panthera_rebase_kernel_locals *)
Definition slide_of (ki : PantheraKernelImage) (loaded_base : Z) : Z :=
  loaded_base -64 wrap 32 (lowest_vmaddr ki).

(** One relocation entry, with the bit fields of [info]. *)
Record reloc := mkReloc {
  signed_address : Z; r_symbolnum : Z; r_pcrel : Z; r_length : Z; r_extern : Z; r_type : Z }.

Definition decode_reloc (address info : Z) : reloc :=
  mkReloc (signed 32 address) (bits info 0 24) (bits info 24 1) (bits info 25 2)
    (bits info 27 1) (bits info 28 4).

Definition load_reloc (img : list Z) (off : Z) : option reloc :=
  match load32 img off, load32 img (off + 4) with
  | Some a, Some i => Some (decode_reloc a i)
  | _, _ => None
  end.

Definition patch_vmaddr (reloc_base : Z) (r : reloc) : Z :=
  if signed_address r <? 0 then reloc_base -64 wrap 64 (- signed_address r)
  else reloc_base +64 signed_address r.

(** What one entry asks for: nothing, an error, or a slot to slide whose value
    must lie in a section. *)
Inductive reloc_action :=
| Skip
| Reject
| Patch (patch_slot : Z) (target_section : PantheraKernelSection).

Definition reloc_action_of (ki : PantheraKernelImage) (loaded_base reloc_base : Z)
    (r : reloc) : reloc_action :=
  if (r_symbolnum r =? 0) || (section_count ki <? r_symbolnum r) then Skip
  else if negb (r_pcrel r =? 0) || negb (r_extern r =? 0) then Skip
  else if negb (r_type r =? X86_64_RELOC_UNSIGNED) || negb (r_length r =? 3) then Skip
  else
    match sections ki !! Z.to_nat (r_symbolnum r - 1) with
    | None => Reject
    | Some target_section =>
        let va := patch_vmaddr reloc_base r in
        if (va =? lowest_vmaddr ki +64 0x1042) || (va =? lowest_vmaddr ki +64 0x99002) then Skip
        else
          let patch_slot := panthera_loaded_vmaddr ki loaded_base va 8 in
          if patch_slot =? 0 then Reject else Patch patch_slot target_section
    end.

Definition outside_section (v : Z) (s : PantheraKernelSection) : bool :=
  (v <? sect_addr s) || (sect_addr s +64 sect_size s <=? v).

(** [Relocated st m n]: the status, the memory and what [applied_count_out]
    points to ([None] when it is null); [RelocOutOfBounds] is a read outside
    the file image. *)
Inductive rebase_result :=
| Relocated (st : PantheraLoaderStatus) (m : mem) (applied : option Z)
| RelocOutOfBounds.

Definition rebase_step (img : list Z) (ki : PantheraKernelImage)
    (loaded_base reloc_base slide : Z) (s : Z * mem * Z) : (Z * mem * Z) + rebase_result :=
  let '(index, m, applied_count) := s in
  if negb (index <? local_reloc_count ki)
  then inr (Relocated PANTHERA_LOADER_OK m (Some applied_count))
  else
    match load_reloc img (local_reloc_offset ki + index * sizeof_RelocationInfo) with
    | None => inr RelocOutOfBounds
    | Some r =>
        match reloc_action_of ki loaded_base reloc_base r with
        | Skip => inl (index +32 1, m, applied_count)
        | Reject => inr (Relocated PANTHERA_LOADER_E_BAD_RELOC m (Some 0))
        | Patch patch_slot target_section =>
            let candidate_value := mread m patch_slot 8 in
            if outside_section candidate_value target_section
            then inr (Relocated PANTHERA_LOADER_E_BAD_RELOC m (Some 0))
            else inl (index +32 1, mwrite m patch_slot 8 (mread m patch_slot 8 +64 slide),
                      applied_count +32 1)
        end
    end.

(** The address of the first segment called [__DATA], 0 if there is none. *)
Definition reloc_base_vmaddr (ki : PantheraKernelImage) : Z :=
  match List.find (fun s => segname_is s "__DATA") (segments ki) with
  | Some segment => vmaddr segment
  | None => 0
  end.

(** A null [applied_count_out] receives nothing. *)
Definition report (out : option Z) (r : rebase_result) : rebase_result :=
  match r, out with
  | Relocated st m _, None => Relocated st m None
  | _, _ => r
  end.

Definition panthera_rebase_kernel_locals (file_image : option (list Z)) (size : Z)
    (kernel_image : option PantheraKernelImage) (loaded_base : Z)
    (applied_count_out : option Z) (m : mem) : rebase_result :=
  match file_image, kernel_image with
  | Some img, Some ki =>
      if loaded_base =? 0 then Relocated PANTHERA_LOADER_E_NULL m applied_count_out
      else
        report applied_count_out
          (let slide := slide_of ki loaded_base in
           if (slide =? 0) || (local_reloc_count ki =? 0)
           then Relocated PANTHERA_LOADER_OK m (Some 0)
           else
             let reloc_bytes := local_reloc_count ki *64 sizeof_RelocationInfo in
             if size <? local_reloc_offset ki +64 reloc_bytes
             then Relocated PANTHERA_LOADER_E_TRUNCATED m (Some 0)
             else
               let reloc_base := reloc_base_vmaddr ki in
               if reloc_base =? 0 then Relocated PANTHERA_LOADER_E_BAD_RELOC m (Some 0)
               else
                 while rounds32 RelocOutOfBounds
                   (rebase_step img ki loaded_base reloc_base slide) (0, m, 0))
  | _, _ => Relocated PANTHERA_LOADER_E_NULL m applied_count_out
  end.

(** ** panthera_slide_kernel_macho_metadata *)
Section Slide.
Variables (ki : PantheraKernelImage) (loaded_base slide : Z).

Definition in_kernel (v : Z) : bool := (lowest_vmaddr ki <=? v) && (v <? highest_vmaddr ki).

(** The pointer loop over [pointer_slot[0 .. pointer_count)]. *)
Definition slide_pointers_step (pointer_slot pointer_count : Z) (s : Z * mem)
  : (Z * mem) + mem :=
  let '(slot_index, m) := s in
  if negb (slot_index <? pointer_count) then inr m
  else
    let slot := pointer_slot + 8 * slot_index in
    let candidate_value := mread m slot 8 in
    inl (slot_index +64 1,
         if in_kernel candidate_value then mwrite m slot 8 (candidate_value +64 slide) else m).

Definition slide_pointers (pointer_slot pointer_count : Z) (m : mem) : mem :=
  while rounds64 m (slide_pointers_step pointer_slot pointer_count) (0, m).

Definition section_has_pointers (m : mem) (segment sec : Z) : bool :=
  panthera_name_equals (mbytes m (segment + 8) 16) (str "__DATA_CONST") &&
  (panthera_name_equals (mbytes m sec 16) (str "__got") ||
   panthera_name_equals (mbytes m sec 16) (str "__mod_init_func")).

(** One section header at [sec] of the segment command at [segment]. *)
Definition slide_section (segment sec : Z) (m : mem) : mem + (PantheraLoaderStatus * mem) :=
  let original_section_addr := mread m (sec + 32) 8 in
  let m := if original_section_addr =? 0 then m
           else mwrite m (sec + 32) 8 (original_section_addr +64 slide) in
  if section_has_pointers m segment sec then
    let pointer_slot :=
      panthera_loaded_vmaddr ki loaded_base original_section_addr (mread m (sec + 40) 8) in
    if pointer_slot =? 0 then inr (PANTHERA_LOADER_E_BAD_RELOC, m)
    else inl (slide_pointers pointer_slot (mread m (sec + 40) 8 / 8) m)
  else inl m.

(** [segment->nsects] is read again before every round. *)
Definition slide_sections_step (segment : Z) (s : Z * mem)
  : (Z * mem) + (mem + (PantheraLoaderStatus * mem)) :=
  let '(section_index, m) := s in
  if negb (section_index <? mread m (segment + 64) 4) then inr (inl m)
  else
    match slide_section segment
            (segment + sizeof_SegmentCommand64 + sizeof_Section64 * section_index) m with
    | inl m' => inl (section_index +32 1, m')
    | inr r => inr (inr r)
    end.

Definition slide_segment (segment cmdsize : Z) (m : mem)
  : mem + (PantheraLoaderStatus * mem) :=
  if cmdsize <? sizeof_SegmentCommand64 +64 (mread m (segment + 64) 4 *64 sizeof_Section64)
  then inr (PANTHERA_LOADER_E_TRUNCATED, m)
  else
    let m := mwrite m (segment + 24) 8 (mread m (segment + 24) 8 +64 slide) in
    while rounds32 (inl m) (slide_sections_step segment) (0, m).

Definition slide_thread (load_command cmdsize : Z) (m : mem)
  : mem + (PantheraLoaderStatus * mem) :=
  if cmdsize <? sizeof_LoadCommand + sizeof_ThreadStateHeader + sizeof_X86ThreadState64
  then inr (PANTHERA_LOADER_E_TRUNCATED, m)
  else
    let rip := load_command + sizeof_LoadCommand + sizeof_ThreadStateHeader + 128 in
    inl (mwrite m rip 8 (mread m rip 8 +64 slide)).

(** One round of the command loop: the index, the cursor, [symtab_command]
    (0 when none was seen) and the memory. [header->ncmds] is read again before
    every round and the command's size again after its contents were slid. *)
Definition slide_command_step (header : Z) (s : Z * Z * Z * mem)
  : (Z * Z * Z * mem) + ((Z * mem) + (PantheraLoaderStatus * mem)) :=
  let '(command_index, load_command, symtab_command, m) := s in
  if negb (command_index <? mread m (header + 16) 4) then inr (inl (symtab_command, m))
  else
    let cmdsize := mread m (load_command + 4) 4 in
    if cmdsize <? sizeof_LoadCommand then inr (inr (PANTHERA_LOADER_E_TRUNCATED, m))
    else
      let cmd := mread m load_command 4 in
      let next :=
        if cmd =? LC_SEGMENT_64 then slide_segment load_command cmdsize m
        else if cmd =? LC_UNIXTHREAD then slide_thread load_command cmdsize m
        else inl m in
      match next with
      | inl m' =>
          inl (command_index +32 1, load_command + mread m' (load_command + 4) 4,
               (if cmd =? LC_SYMTAB then load_command else symtab_command), m')
      | inr r => inr (inr r)
      end.

(** The symbol loop; [symtab_command->nsyms] is read again before every round. *)
Definition slide_symbol (symbol : Z) (m : mem) : mem :=
  let n_value := mread m (symbol + 8) 8 in
  if negb (panthera_symbol_is_section_based (mget m (symbol + 4))) then m
  else if (mget m (symbol + 5) =? 0) || (n_value =? 0) then m
  else if (n_value <? lowest_vmaddr ki) || (highest_vmaddr ki <=? n_value) then m
  else mwrite m (symbol + 8) 8 (n_value +64 slide).

Definition slide_symbols_step (symtab_command symbols : Z) (s : Z * mem) : (Z * mem) + mem :=
  let '(symbol_index, m) := s in
  if negb (symbol_index <? mread m (symtab_command + 12) 4) then inr m
  else inl (symbol_index +32 1, slide_symbol (symbols + sizeof_NList64 * symbol_index) m).

Definition slide_symbols (symtab_command symbols : Z) (m : mem) : mem :=
  while rounds32 m (slide_symbols_step symtab_command symbols) (0, m).

Definition slide_symtab (symtab_command : Z) (m : mem) : PantheraLoaderStatus * mem :=
  if (symtab_command =? 0) || (mread m (symtab_command + 12) 4 =? 0)
  then (PANTHERA_LOADER_OK, m)
  else
    let symbol_bytes := mread m (symtab_command + 12) 4 *64 sizeof_NList64 in
    let symbols := panthera_loaded_file_offset ki loaded_base
                     (mread m (symtab_command + 8) 4) symbol_bytes in
    if symbols =? 0 then (PANTHERA_LOADER_E_BAD_RELOC, m)
    else (PANTHERA_LOADER_OK, slide_symbols symtab_command symbols m).

Definition slide_header (header : Z) (m : mem) : PantheraLoaderStatus * mem :=
  match while rounds32 (inr (PANTHERA_LOADER_OK, m)) (slide_command_step header)
          (0, header + sizeof_MachHeader64, 0, m) with
  | inl (symtab_command, m') => slide_symtab symtab_command m'
  | inr r => r
  end.
End Slide.

Definition panthera_slide_kernel_macho_metadata (kernel_image : option PantheraKernelImage)
    (loaded_base : Z) (m : mem) : PantheraLoaderStatus * mem :=
  match kernel_image with
  | None => (PANTHERA_LOADER_E_NULL, m)
  | Some ki =>
      if loaded_base =? 0 then (PANTHERA_LOADER_E_NULL, m)
      else
        let slide := slide_of ki loaded_base in
        if slide =? 0 then (PANTHERA_LOADER_OK, m)
        else
          match List.find (fun s => segname_is s "__TEXT") (segments ki) with
          | None => (PANTHERA_LOADER_E_BAD_RELOC, m)
          | Some text_segment =>
              let header := panthera_loaded_vmaddr ki loaded_base (vmaddr text_segment)
                              sizeof_MachHeader64 in
              if header =? 0 then (PANTHERA_LOADER_E_BAD_RELOC, m)
              else if negb (mread m header 4 =? MH_MAGIC_64)
              then (PANTHERA_LOADER_E_BAD_MAGIC, m)
              else if panthera_loaded_vmaddr ki loaded_base (vmaddr text_segment)
                        (sizeof_MachHeader64 +64 mread m (header + 20) 4) =? 0
              then (PANTHERA_LOADER_E_TRUNCATED, m)
              else slide_header ki loaded_base slide header m
          end
  end.

(** ** Specification of the relocation pass

    The table as the Mach-O format defines it (struct relocation_info), the
    pointers its entries name and the address of each, on the integers. *)
Definition encode_reloc (r : reloc) : list Z :=
  le_encode 4 (signed_address r) ++
  le_encode 4 (r_symbolnum r + 2 ^ 24 * r_pcrel r + 2 ^ 25 * r_length r + 2 ^ 27 * r_extern r +
               2 ^ 28 * r_type r).

Definition reloc_ok (r : reloc) : Prop :=
  - 2 ^ 31 <= signed_address r < 2 ^ 31 /\ 0 <= r_symbolnum r < 2 ^ 24 /\
  0 <= r_pcrel r < 2 /\ 0 <= r_length r < 4 /\ 0 <= r_extern r < 2 /\ 0 <= r_type r < 16.

(** [d] is the first segment called [__DATA]. *)
Definition data_segment (ki : PantheraKernelImage) (d : PantheraKernelSegment) : Prop :=
  let named s := take 7 (segname s) = str "__DATA" ++ [0] in
  exists before after, segments ki = before ++ d :: after /\ named d /\
    Forall (fun s => ~ named s) before.

Section Pointers.
Variables (ki : PantheraKernelImage) (loaded_base data_base : Z).

Definition slot_vmaddr (r : reloc) : Z := data_base +64 signed_address r.

(** A local, absolute 8-byte pointer into a section of the kernel, and not one
    of the two slots that stay as they are. *)
Definition moves (r : reloc) : bool :=
  bool_decide (1 <= r_symbolnum r <= section_count ki /\ r_pcrel r = 0 /\ r_extern r = 0 /\
               r_type r = 0 /\ r_length r = 3 /\
               slot_vmaddr r <> (lowest_vmaddr ki +64 0x1042) /\
               slot_vmaddr r <> (lowest_vmaddr ki +64 0x99002)).

Definition slot (r : reloc) : Z := loaded_base + (slot_vmaddr r - lowest_vmaddr ki).

Definition slots (rs : list reloc) : list Z := slot <$> List.filter moves rs.

(** The slot starts below the image or crosses its end. A slot that starts
    above the end is not among them. *)
Definition off_image (r : reloc) : Prop :=
  slot_vmaddr r < lowest_vmaddr ki \/
  highest_vmaddr ki - 8 < slot_vmaddr r <= highest_vmaddr ki.

Definition points_into (v : Z) (s : PantheraKernelSection) : Prop :=
  sect_addr s <= v < (sect_addr s +64 sect_size s).

(** Whether the pass stops at the entry. *)
Definition bad_entry (m : mem) (r : reloc) : Prop :=
  moves r = true /\
  (off_image r \/
   exists s, sections ki !! Z.to_nat (r_symbolnum r - 1) = Some s /\
             ~ points_into (mread m (slot r) 8) s).
End Pointers.

Definition apart (a b : Z) : Prop := a + 8 <= b \/ b + 8 <= a.
Fixpoint pairwise_apart (l : list Z) : Prop :=
  match l with
  | [] => True
  | a :: l' => Forall (apart a) l' /\ pairwise_apart l'
  end.

(** [m'] is [m] with the 8-byte values at [slots] moved by [slide]. *)
Definition slid (slide : Z) (slots : list Z) (m m' : mem) : Prop :=
  (forall a, a ∈ slots -> mread m' a 8 = (mread m a 8 +64 slide)) /\
  (forall b, (forall a, a ∈ slots -> b < a \/ a + 8 <= b) -> mget m' b = mget m b).

(** ** Specification of the metadata pass *)

(** The load commands with the slide applied. *)
Definition slid_section (slide : Z) (x : macho_section) : macho_section :=
  mkMSection (ms_sectname x) (ms_segname x)
    (if ms_addr x =? 0 then 0 else ms_addr x +64 slide) (ms_size x) (ms_rest x).

Definition with_vmaddr (s : PantheraKernelSegment) (v : Z) : PantheraKernelSegment :=
  mkSegment (segname s) v (vmsize s) (fileoff s) (filesize s) (maxprot s) (initprot s).

Definition slid_cmd (slide : Z) (c : macho_cmd) : macho_cmd :=
  match c with
  | CmdSegment s flags secs =>
      CmdSegment (with_vmaddr s (vmaddr s +64 slide)) flags (slid_section slide <$> secs)
  | CmdThread fl regs rip tl => CmdThread fl regs (rip +64 slide) tl
  | _ => c
  end.

(** Sections whose contents are pointers the pass slides. *)
Definition pointer_section (s : PantheraKernelSegment) (x : macho_section) : bool :=
  panthera_name_equals (segname s) (str "__DATA_CONST") &&
  (panthera_name_equals (ms_sectname x) (str "__got") ||
   panthera_name_equals (ms_sectname x) (str "__mod_init_func")).

(** A pointer section lies in the image, apart from the header [[h, h + len)]. *)
Definition section_apart (ki : PantheraKernelImage) (loaded_base h len : Z)
    (s : PantheraKernelSegment) (x : macho_section) : Prop :=
  pointer_section s x = true ->
  let p := panthera_loaded_vmaddr ki loaded_base (ms_addr x) (ms_size x) in
  p <> 0 /\ (p + ms_size x <= h \/ h + len <= p).

Definition cmd_apart (ki : PantheraKernelImage) (loaded_base h len : Z) (c : macho_cmd) : Prop :=
  match c with
  | CmdSegment s _ secs => Forall (section_apart ki loaded_base h len s) secs
  | _ => True
  end.

(** The address of the last LC_SYMTAB command, 0 without one. *)
Fixpoint symtab_at (a : Z) (cs : list macho_cmd) (acc : Z) : Z :=
  match cs with
  | [] => acc
  | c :: cs' => symtab_at (a + cmd_size c) cs' (if cmd_code c =? LC_SYMTAB then a else acc)
  end.

(** The payload of that command, and the table it announces: in the image,
    apart from the header. *)
Definition symtab_payload (cs : list macho_cmd) : option (list Z) :=
  last (omap (fun c => match c with
                       | CmdOther k pl => if k =? LC_SYMTAB then Some pl else None
                       | _ => None
                       end) cs).

Definition symtab_apart (ki : PantheraKernelImage) (loaded_base h len : Z)
    (cs : list macho_cmd) : Prop :=
  match symtab_payload cs with
  | None => True
  | Some pl =>
      let symoff := le_decode (take 4 pl) in
      let nsyms := le_decode (take 4 (drop 4 pl)) in
      let p := panthera_loaded_file_offset ki loaded_base symoff (nsyms *64 16) in
      (16 <= length pl)%nat /\
      (nsyms <> 0 -> p <> 0 /\ (p + 16 * nsyms <= h \/ h + len <= p))
  end.

(** ** Address translation is exact up to the end of the image *)

(** The loaded address of a range of the image is the range moved from the
    lowest address to the load base, inside the loaded image; a range that
    starts below the image, or starts in it and ends above it, is refused. *)
Theorem loaded_vmaddr_spec (ki : PantheraKernelImage) (loaded_base va size : Z) :
  0 <= lowest_vmaddr ki -> highest_vmaddr ki < 2 ^ 64 -> 0 < loaded_base ->
  loaded_base + (highest_vmaddr ki - lowest_vmaddr ki) < 2 ^ 64 ->
  0 <= va <= highest_vmaddr ki -> 0 <= size ->
  let p := panthera_loaded_vmaddr ki loaded_base va size in
  (lowest_vmaddr ki <= va /\ va + size <= highest_vmaddr ki ->
   p = loaded_base + (va - lowest_vmaddr ki) /\ loaded_base <= p /\
   p + size <= loaded_base + (highest_vmaddr ki - lowest_vmaddr ki)) /\
  (~ (lowest_vmaddr ki <= va /\ va + size <= highest_vmaddr ki) -> p = 0).
Proof.
  intros Hl Hh Hb Hbs Hva Hs. unfold panthera_loaded_vmaddr.
  destruct (Z.ltb_spec va (lowest_vmaddr ki)); [lia|]. wrap_tac.
  destruct (Z.ltb_spec (highest_vmaddr ki - va) size); [lia|]. wrap_tac. lia.
Qed.

(** A range that starts above the end of the image is not refused: the
    64-bit difference [highest_vmaddr - vmaddr] wraps, and the result lies
    beyond the loaded image. *)
Theorem loaded_vmaddr_above_image (ki : PantheraKernelImage) (loaded_base va size : Z) :
  0 <= lowest_vmaddr ki <= highest_vmaddr ki -> 0 < loaded_base ->
  highest_vmaddr ki < va < 2 ^ 64 -> loaded_base + (va - lowest_vmaddr ki) < 2 ^ 64 ->
  0 <= size <= 2 ^ 64 - (va - highest_vmaddr ki) ->
  let p := panthera_loaded_vmaddr ki loaded_base va size in
  p = loaded_base + (va - lowest_vmaddr ki) /\
  loaded_base + (highest_vmaddr ki - lowest_vmaddr ki) < p.
Proof.
  intros Hl Hb Hva Hbs Hs. unfold panthera_loaded_vmaddr.
  destruct (Z.ltb_spec va (lowest_vmaddr ki)); [lia|].
  rewrite (wrap_neg 64 (_ - va)) by lia.
  destruct (Z.ltb_spec (highest_vmaddr ki - va + 2 ^ 64) size); [lia|]. wrap_tac. lia.
Qed.

(** ** The relocation pass *)
Lemma load_raw n f r : length f = n -> load n (f ++ r) 0 = Some (le_decode f).
Proof. intros H. unfold load. by rewrite file_bytes_here. Qed.

Lemma load_reloc_here A r B :
  reloc_ok r -> load_reloc (A ++ encode_reloc r ++ B) (Z.of_nat (length A)) = Some r.
Proof.
  intros (Ha & Hs & Hp & Hl & He & Ht). unfold load_reloc. rewrite load_at0, load_at by lia.
  set (info := r_symbolnum r + 2 ^ 24 * r_pcrel r + 2 ^ 25 * r_length r + 2 ^ 27 * r_extern r +
               2 ^ 28 * r_type r).
  assert (E1 : load32 (encode_reloc r ++ B) 0 = Some (wrap 32 (signed_address r))).
  { unfold encode_reloc. rewrite <- (assoc_L (++)), load_raw by reflexivity.
    by rewrite le_decode_encode. }
  assert (E2 : load32 (encode_reloc r ++ B) 4 = Some info).
  { unfold encode_reloc. rewrite <- (assoc_L (++)). fold info.
    change 4 with (Z.of_nat (length (le_encode 4 (signed_address r))) + 0) at 1.
    rewrite load_at, load_here; [done| |lia]. unfold info. lia. }
  rewrite E1, E2. unfold decode_reloc. rewrite (signed_wrap 32 (signed_address r)) by (lia || by rewrite Z.sub_diag).
  rewrite !bits_mod by lia. destruct r as [a sn pc ln ex ty]. cbn [signed_address r_symbolnum r_pcrel r_length r_extern r_type] in *.
  unfold info. f_equal. f_equal; Z.div_mod_to_equations; lia.
Qed.

Lemma length_encode_relocs rs : length (concat (encode_reloc <$> rs)) = (8 * length rs)%nat.
Proof. induction rs as [|r rs IH]; [done|]. cbn [fmap list_fmap concat length]. rewrite length_app, IH. cbn. lia. Qed.

Lemma load_reloc_at A rs1 r rs2 B :
  reloc_ok r ->
  load_reloc (A ++ concat (encode_reloc <$> rs1 ++ r :: rs2) ++ B)
    (Z.of_nat (length A) + Z.of_nat (length rs1) * 8) = Some r.
Proof.
  intros H. rewrite fmap_app, concat_app. cbn [fmap list_fmap concat].
  rewrite <- !(assoc_L (++)), (assoc_L (++) A).
  replace (_ + _) with (Z.of_nat (length (A ++ concat (encode_reloc <$> rs1))))
    by (rewrite length_app, length_encode_relocs; lia).
  by apply load_reloc_here.
Qed.

Lemma pairwise_apart_mid l1 a l2 :
  pairwise_apart (l1 ++ a :: l2) -> forall b, b ∈ l1 -> apart b a.
Proof.
  induction l1 as [|x l1 IH]; intros H b Hb; [set_solver|].
  destruct H as [Hx H]. apply elem_of_cons in Hb as [->|Hb]; [|by apply IH].
  apply Forall_app in Hx as [_ Hx]. by apply Forall_cons in Hx as [Hx _].
Qed.

Lemma slid_nil slide m : slid slide [] m m.
Proof. split; [set_solver|done]. Qed.

Lemma slid_read slide slots m m' a :
  slid slide slots m m' -> (forall b, b ∈ slots -> apart b a) -> mread m' a 8 = mread m a 8.
Proof.
  intros [_ H] Ha. apply mread_ext. intros b Hb. apply H. intros c Hc.
  specialize (Ha c Hc). unfold apart in Ha. lia.
Qed.

Lemma slid_snoc slide slots m m' a :
  slid slide slots m m' -> (forall b, b ∈ slots -> apart b a) ->
  slid slide (slots ++ [a]) m (mwrite m' a 8 (mread m' a 8 +64 slide)).
Proof.
  intros Hs Ha. pose proof (slid_read _ _ _ _ _ Hs Ha) as Er. destruct Hs as [H1 H2]. split.
  - intros c [Hc| ->%list_elem_of_singleton]%elem_of_app.
    + rewrite mread_mwrite_disjoint; [by apply H1|]. specialize (Ha c Hc). unfold apart in Ha. lia.
    + rewrite mread_mwrite, Er. apply Z.mod_small. apply wrap_64_range.
  - intros b Hb. rewrite mget_mwrite_out.
    + apply H2. intros c Hc. apply Hb. set_solver.
    + apply (Hb a). set_solver.
Qed.

Section RebaseRun.
Variables (ki : PantheraKernelImage) (loaded_base data_base slide : Z).
Hypothesis loaded_low : 0 < loaded_base.
Hypothesis image_range : 0 <= lowest_vmaddr ki /\ 8 <= highest_vmaddr ki < 2 ^ 64.

Let va r := slot_vmaddr data_base r.

(** The slot's loaded address does not pass the end of the address space. *)
Definition slot_in_space (r : reloc) : Prop :=
  slot ki loaded_base data_base r + 8 <= 2 ^ 64.

Lemma patch_vmaddr_spec r :
  - 2 ^ 31 <= signed_address r < 2 ^ 31 -> patch_vmaddr data_base r = slot_vmaddr data_base r.
Proof.
  intros H. unfold patch_vmaddr, slot_vmaddr. destruct (Z.ltb_spec (signed_address r) 0); [|done].
  rewrite (wrap_small 64 (- signed_address r)) by lia. f_equal. lia.
Qed.

Lemma loaded_slot r :
  slot_in_space r ->
  if decide (off_image ki data_base r) then panthera_loaded_vmaddr ki loaded_base (va r) 8 = 0
  else panthera_loaded_vmaddr ki loaded_base (va r) 8 = slot ki loaded_base data_base r /\
       slot ki loaded_base data_base r <> 0.
Proof.
  unfold slot_in_space, slot, off_image, panthera_loaded_vmaddr. fold (va r). intros Hs.
  assert (Hv : 0 <= va r < 2 ^ 64) by apply wrap_64_range.
  destruct (decide _) as [Ho|Ho].
  - destruct (Z.ltb_spec (va r) (lowest_vmaddr ki)); [done|]. rewrite (wrap_small 64) by lia.
    rewrite (proj2 (Z.ltb_lt _ _)) by lia. done.
  - rewrite (proj2 (Z.ltb_ge _ _)) by lia.
    assert (8 <= (highest_vmaddr ki -64 va r)).
    { destruct (Z.le_gt_cases (va r) (highest_vmaddr ki)); [rewrite (wrap_small 64); lia|].
      rewrite wrap_neg; lia. }
    rewrite (proj2 (Z.ltb_ge _ _)) by lia. rewrite (wrap_small 64 (va r - _)), wrap_small by lia. lia.
Qed.

(** What the code does with an entry is what the format says about it. *)
Lemma reloc_action_spec r :
  reloc_ok r -> (moves ki data_base r = true -> slot_in_space r) ->
  match reloc_action_of ki loaded_base data_base r with
  | Skip => moves ki data_base r = false
  | Reject => moves ki data_base r = true /\ off_image ki data_base r
  | Patch p s =>
      moves ki data_base r = true /\ ~ off_image ki data_base r /\
      p = slot ki loaded_base data_base r /\ sections ki !! Z.to_nat (r_symbolnum r - 1) = Some s
  end.
Proof.
  intros (Ha & Hn & _) Hs. unfold reloc_action_of, X86_64_RELOC_UNSIGNED.
  rewrite patch_vmaddr_spec by done. fold (va r).
  destruct (Z.eqb_spec (r_symbolnum r) 0); cbn [orb]; [apply bool_decide_eq_false; lia|].
  destruct (Z.ltb_spec (section_count ki) (r_symbolnum r)); [apply bool_decide_eq_false; lia|].
  destruct (Z.eqb_spec (r_pcrel r) 0); cbn [negb orb]; [|apply bool_decide_eq_false; tauto].
  destruct (Z.eqb_spec (r_extern r) 0); cbn [negb]; [|apply bool_decide_eq_false; tauto].
  destruct (Z.eqb_spec (r_type r) 0); cbn [negb orb]; [|apply bool_decide_eq_false; tauto].
  destruct (Z.eqb_spec (r_length r) 3); cbn [negb]; [|apply bool_decide_eq_false; tauto].
  destruct (lookup_lt_is_Some_2 (sections ki) (Z.to_nat (r_symbolnum r - 1))) as [s Es];
    [unfold section_count in *; lia|]. rewrite Es.
  destruct (Z.eqb_spec (va r) (lowest_vmaddr ki +64 0x1042)); cbn [orb]; [apply bool_decide_eq_false; tauto|].
  destruct (Z.eqb_spec (va r) (lowest_vmaddr ki +64 0x99002)); [apply bool_decide_eq_false; tauto|].
  assert (Em : moves ki data_base r = true)
    by (apply bool_decide_eq_true; repeat split; done || lia).
  pose proof (loaded_slot r (Hs Em)) as Hl. destruct (decide _) as [Ho|Ho].
  - by rewrite Hl.
  - destruct Hl as [-> Hnz]. by rewrite (proj2 (Z.eqb_neq _ _)).
Qed.

Variables (A B : list Z) (rs : list reloc) (m : mem).
Hypothesis table_at : Z.of_nat (length A) = local_reloc_offset ki.
Hypothesis table_ok : Forall reloc_ok rs.
Hypothesis table_length : Z.of_nat (length rs) = local_reloc_count ki.
Hypothesis count_range : local_reloc_count ki < 2 ^ 32.
Hypothesis slots_in_space : forall r, r ∈ rs -> moves ki data_base r = true -> slot_in_space r.
Hypothesis slots_apart : pairwise_apart (slots ki loaded_base data_base rs).

Let img := A ++ concat (encode_reloc <$> rs) ++ B.
Let bad := bad_entry ki loaded_base data_base m.

(** Where the pass stops, and with what. *)
Definition pass_result (r : rebase_result) : Prop :=
  exists a b m', rs = a ++ b /\ Forall (fun x => ~ bad x) a /\
    slid slide (slots ki loaded_base data_base a) m m' /\
    match b with
    | [] => r = Relocated PANTHERA_LOADER_OK m'
                  (Some (Z.of_nat (length (slots ki loaded_base data_base a))))
    | x :: _ => bad x /\ r = Relocated PANTHERA_LOADER_E_BAD_RELOC m' (Some 0)
    end.

Lemma slots_length a : (length (slots ki loaded_base data_base a) <= length a)%nat.
Proof. unfold slots. rewrite length_fmap. apply List.filter_length_le. Qed.

Lemma slots_snoc a x :
  slots ki loaded_base data_base (a ++ [x]) =
  slots ki loaded_base data_base a ++
    (if moves ki data_base x then [slot ki loaded_base data_base x] else []).
Proof. unfold slots. rewrite List.filter_app, fmap_app. cbn. by destruct (moves _ _ _). Qed.

Lemma slot_apart a x b :
  rs = a ++ x :: b -> moves ki data_base x = true ->
  forall c, c ∈ slots ki loaded_base data_base a -> apart c (slot ki loaded_base data_base x).
Proof.
  intros E Ex. apply (pairwise_apart_mid _ _ (slots ki loaded_base data_base b)).
  revert slots_apart. rewrite E. unfold slots. rewrite List.filter_app, fmap_app. cbn. by rewrite Ex.
Qed.

Lemma outside_section_spec v s : outside_section v s = true <-> ~ points_into v s.
Proof. unfold outside_section, points_into. rewrite orb_true_iff, Z.ltb_lt, Z.leb_le. lia. Qed.

(** One entry: it is skipped, stops the pass, or moves its pointer. *)
Lemma rebase_entry a x b m' :
  rs = a ++ x :: b -> slid slide (slots ki loaded_base data_base a) m m' ->
  let n := Z.of_nat (length (slots ki loaded_base data_base a)) in
  match rebase_step img ki loaded_base data_base slide (Z.of_nat (length a), m', n) with
  | inl s => ~ bad x /\ s.1.1 = Z.of_nat (length (a ++ [x])) /\
             s.2 = Z.of_nat (length (slots ki loaded_base data_base (a ++ [x]))) /\
             slid slide (slots ki loaded_base data_base (a ++ [x])) m s.1.2
  | inr r => bad x /\ r = Relocated PANTHERA_LOADER_E_BAD_RELOC m' (Some 0)
  end.
Proof.
  intros E Hs n. pose proof (slots_length a) as Hsl.
  assert (Hlt : (length a < length rs)%nat) by (rewrite E, length_app; cbn; lia).
  assert (Hx : x ∈ rs) by (rewrite E; set_solver).
  unfold rebase_step. rewrite (proj2 (Z.ltb_lt _ _)) by lia. cbn [negb]. unfold sizeof_RelocationInfo.
  assert (Hok : reloc_ok x) by (rewrite Forall_forall in table_ok; auto).
  unfold img. rewrite E, <- table_at, load_reloc_at by done.
  pose proof (reloc_action_spec x Hok (slots_in_space x Hx)) as Hact.
  unfold n. rewrite slots_snoc, length_app. cbn [length].
  destruct (reloc_action_of ki loaded_base data_base x) as [| |p s].
  - rewrite Hact, app_nil_r. wrap_tac. cbn [fst snd]. split_and!; try done; [|lia].
    intros [Hm _]. congruence.
  - destruct Hact as [Hm Ho]. split; [|done]. split; [done|]. by left.
  - destruct Hact as (Hm & Ho & -> & Es). rewrite Hm.
    pose proof (slot_apart _ _ _ E Hm) as Hap. pose proof (slid_read _ _ _ _ _ Hs Hap) as Er.
    destruct (outside_section _ s) eqn:Eo; rewrite Er in Eo.
    + split; [|done]. split; [done|]. right. exists s. by rewrite outside_section_spec in Eo.
    + rewrite length_app. wrap_tac. cbn [fst snd length]. split_and!; try lia; [|by apply slid_snoc].
      intros [_ [?|(s' & Es' & Hn)]]; [done|]. rewrite Es in Es'. injection Es' as <-.
      by rewrite <- outside_section_spec, Eo in Hn.
Qed.

Lemma rebase_loop :
  pass_result (while rounds32 RelocOutOfBounds
                 (rebase_step img ki loaded_base data_base slide) (0, m, 0)).
Proof.
  apply (while_rule _
    (fun s => exists a b, rs = a ++ b /\ Forall (fun x => ~ bad x) a /\
       s.1.1 = Z.of_nat (length a) /\ s.2 = Z.of_nat (length (slots ki loaded_base data_base a)) /\
       slid slide (slots ki loaded_base data_base a) m s.1.2)
    (fun s => local_reloc_count ki - s.1.1)).
  - intros [[i m'] n] (a & b & E & Ha & Hi & Hn & Hs). cbn [fst snd] in *. subst i n.
    destruct b as [|x b].
    { unfold rebase_step. rewrite app_nil_r in E. subst a. rewrite table_length, Z.ltb_irrefl.
      cbn [negb]. exists rs, [], m'. by rewrite app_nil_r. }
    pose proof (rebase_entry a x b m' E Hs) as Hstep. cbn zeta in Hstep.
    destruct (rebase_step _ _ _ _ _ _) as [[[i m2] n2]|r]; cbn [fst snd] in Hstep.
    + destruct Hstep as (Hx & -> & -> & Hs2). split.
      * exists (a ++ [x]), b. rewrite <- (assoc_L (++)), Forall_app, Forall_singleton. done.
      * cbn [fst]. rewrite length_app. cbn. lia.
    + destruct Hstep as [Hx ->]. by exists a, (x :: b), m'.
  - exists [], rs. cbn. split_and!; try done. apply slid_nil.
  - intros [[i m'] n] (a & b & E & _ & -> & _). cbn [fst]. rewrite <- table_length, E, length_app. lia.
  - cbn [fst]. unfold rounds32. lia.
Qed.
End RebaseRun.

Lemma reloc_base_data ki d : data_segment ki d -> reloc_base_vmaddr ki = vmaddr d.
Proof.
  intros (l1 & l2 & E & Hd & Hl). unfold reloc_base_vmaddr. rewrite E. clear E.
  induction Hl as [|s l1 Hs Hl IH]; cbn [app List.find].
  - unfold segname_is. by rewrite bool_decide_true.
  - unfold segname_is at 1. rewrite bool_decide_false by done. exact IH.
Qed.

(** A loaded kernel for the examples: [__TEXT] at 0x200000 and [__DATA] at
    0x201000, loaded 1 MiB higher, with two pointers to relocate and a
    pc-relative entry to skip. *)
Definition sample_ki : PantheraKernelImage :=
  mkImage 0x200010 0x200000 0x202000 4096 4 3
    [ mkSegment (str "__TEXT" ++ repeat 0 10) 0x200000 0x1000 0 2048 7 5;
      mkSegment (str "__DATA" ++ repeat 0 10) 0x201000 0x1000 2048 2048 7 3 ]
    [ mkSection 0x200100 0x100; mkSection 0x201000 0x100 ].
Definition sample_relocs : list reloc :=
  [ mkReloc 16 1 0 3 0 0; mkReloc (-8) 2 0 3 0 0; mkReloc 0 1 1 2 0 1 ].
Definition sample_reloc_file : list Z :=
  [1; 2; 3; 4] ++ concat (encode_reloc <$> sample_relocs) ++ repeat 0 4068.
Definition sample_mem : mem :=
  mwrite (mwrite ∅ 0x301010 8 0x200180) 0x300ff8 8 0x201020.

(** C9. The relocation pass goes through the entries of the table in order. A
    local, absolute, 8-byte entry that names a section, other than the two
    exempt slots, is a pointer to move; the others change nothing. The pass
    stops with [E_BAD_RELOC] at the first such entry whose slot starts below
    the image or crosses its end, or whose value is not in the section it
    names; a slot that starts above the end of the image is not refused. When
    no entry is bad it succeeds and reports the number of pointers it moved.
    Every pointer of the entries it went through is moved by exactly the slide,
    once, and no other byte of memory changes. The hypotheses: the slots do not
    overlap and their loaded addresses do not pass 2^64. *)
Theorem rebase_correct (before after : list Z) (size : Z) (ki : PantheraKernelImage)
    (d : PantheraKernelSegment) (loaded_base n0 : Z) (m : mem) (rs : list reloc) :
  let slide := (loaded_base -64 lowest_vmaddr ki mod 2 ^ 32) in
  let slots := slots ki loaded_base (vmaddr d) in
  let bad := bad_entry ki loaded_base (vmaddr d) m in
  0 < loaded_base -> slide <> 0 -> 0 <= lowest_vmaddr ki -> 8 <= highest_vmaddr ki < 2 ^ 64 ->
  data_segment ki d -> vmaddr d <> 0 ->
  Forall reloc_ok rs -> 0 < Z.of_nat (length rs) < 2 ^ 32 ->
  local_reloc_count ki = Z.of_nat (length rs) ->
  local_reloc_offset ki = Z.of_nat (length before) -> local_reloc_offset ki < 2 ^ 32 ->
  local_reloc_offset ki + 8 * local_reloc_count ki <= size ->
  Forall (fun a => a + 8 <= 2 ^ 64) (slots rs) -> pairwise_apart (slots rs) ->
  exists a b m', rs = a ++ b /\ Forall (fun x => ~ bad x) a /\ slid slide (slots a) m m' /\
    panthera_rebase_kernel_locals
      (Some (before ++ concat (encode_reloc <$> rs) ++ after)) size (Some ki) loaded_base
      (Some n0) m =
      match b with
      | [] => Relocated PANTHERA_LOADER_OK m' (Some (Z.of_nat (length (slots a))))
      | _ => Relocated PANTHERA_LOADER_E_BAD_RELOC m' (Some 0)
      end /\
    match b with [] => True | x :: _ => bad x end.
Proof.
  intros slide sl bad Hb Hsl Hlo Hhi Hd Hd0 Hok Hn Hc Ho Ho' Hsz Hsp Hap.
  unfold panthera_rebase_kernel_locals. change (slide_of ki loaded_base) with slide.
  rewrite (reloc_base_data _ _ Hd).
  rewrite !(proj2 (Z.eqb_neq _ _)) by (done || lia). cbn [orb].
  unfold sizeof_RelocationInfo. wrap_tac. rewrite (proj2 (Z.ltb_ge _ _)) by lia.
  assert (Hspace : forall r, r ∈ rs -> moves ki (vmaddr d) r = true ->
            slot_in_space ki loaded_base (vmaddr d) r).
  { intros r Hr Hm. rewrite Forall_forall in Hsp. apply Hsp. unfold sl, slots.
    apply list_elem_of_fmap_2, list_elem_of_In, List.filter_In. by rewrite <- list_elem_of_In. }
  destruct (rebase_loop ki loaded_base (vmaddr d) slide Hb (conj Hlo Hhi) before after rs m
    (eq_sym Ho) Hok (eq_sym Hc) ltac:(lia) Hspace Hap) as (a & b & m' & E & Ha & Hm & Hr).
  exists a, b, m'. destruct b as [|x b].
  - rewrite Hr. done.
  - destruct Hr as [Hx ->]. done.
Qed.

Lemma rebase_correct_witness :
  let slots := slots sample_ki 0x300000 0x201000 in
  let bad := bad_entry sample_ki 0x300000 0x201000 sample_mem in
  exists a b m', sample_relocs = a ++ b /\ Forall (fun x => ~ bad x) a /\
    slid 0x100000 (slots a) sample_mem m' /\
    panthera_rebase_kernel_locals (Some sample_reloc_file) 4096 (Some sample_ki) 0x300000
      (Some 7) sample_mem =
      match b with
      | [] => Relocated PANTHERA_LOADER_OK m' (Some (Z.of_nat (length (slots a))))
      | _ => Relocated PANTHERA_LOADER_E_BAD_RELOC m' (Some 0)
      end /\
    match b with [] => True | x :: _ => bad x end.
Proof.
  refine (rebase_correct [1; 2; 3; 4] (repeat 0 4068) 4096 sample_ki
            (mkSegment (str "__DATA" ++ repeat 0 10) 0x201000 0x1000 2048 2048 7 3) 0x300000 7
            sample_mem sample_relocs _ _ _ _ _ _ _ _ _ _ _ _ _ _).
  - reflexivity.
  - vm_compute. discriminate.
  - discriminate.
  - split; [discriminate|reflexivity].
  - exists [mkSegment (str "__TEXT" ++ repeat 0 10) 0x200000 0x1000 0 2048 7 5], [].
    split; [reflexivity|]. split; [reflexivity|]. apply Forall_singleton. discriminate.
  - discriminate.
  - repeat apply Forall_cons_2; [unfold reloc_ok; cbn; lia..|]. by apply Forall_nil.
  - split; reflexivity.
  - reflexivity.
  - reflexivity.
  - reflexivity.
  - discriminate.
  - change (slots sample_ki 0x300000 _ _) with [0x301010; 0x300ff8].
    repeat apply Forall_cons_2; [lia..|]. by apply Forall_nil.
  - change (slots sample_ki 0x300000 _ _) with [0x301010; 0x300ff8].
    cbn [pairwise_apart]. rewrite Forall_singleton. unfold apart.
    split; [lia|]. split; [by apply Forall_nil|done].
Defined.

(** ** Sliding pointer tables and symbols *)
Section SlideLoops.
Variables (ki : PantheraKernelImage) (slide : Z).

Definition slid_pointer (v : Z) : Z := if in_kernel ki v then v +64 slide else v.

Lemma slide_pointers_loop p n m :
  mem_wf m -> 0 <= n < 2 ^ 64 ->
  exists m', loop rounds64 (slide_pointers_step ki slide p n) (0, m) = inr m' /\
    mem_wf m' /\ only_in p (8 * n) m m' /\
    (forall i, 0 <= i < n -> mread m' (p + 8 * i) 8 = slid_pointer (mread m (p + 8 * i) 8)).
Proof.
  intros Hm Hn.
  apply (loop_rule _
    (fun s => 0 <= s.1 <= n /\ mem_wf s.2 /\ only_in p (8 * s.1) m s.2 /\
       forall i, 0 <= i < s.1 -> mread s.2 (p + 8 * i) 8 = slid_pointer (mread m (p + 8 * i) 8))
    (fun s => n - s.1)).
  - intros [i m'] (Hi & Hwf & Ho & Hs). cbn [fst snd] in *. unfold slide_pointers_step.
    destruct (Z.ltb_spec i n); cbn [negb]; [|assert (i = n) as -> by lia; done].
    wrap_tac. cbn [fst snd]. rewrite (mread_only_in _ _ _ _ (p + 8 * i) 8 Ho) by lia.
    set (v := mread m (p + 8 * i) 8).
    set (m2 := if in_kernel ki v then _ else _).
    assert (H2 : only_in (p + 8 * i) 8 m' m2 /\ mem_wf m2 /\
                 mread m2 (p + 8 * i) 8 = slid_pointer v).
    { unfold m2, slid_pointer. destruct (in_kernel ki v).
      - split; [exact (only_in_mwrite _ _ 8 _)|]. split; [by apply mem_wf_mwrite|].
        rewrite mread_mwrite. apply Z.mod_small, wrap_64_range.
      - split; [apply only_in_refl|]. split; [done|].
        apply (mread_only_in _ _ _ _ (p + 8 * i) 8 Ho). lia. }
    destruct H2 as (H2o & H2w & H2r). split; [|lia]. split; [lia|]. split; [done|]. split.
    + eapply only_in_trans; eapply only_in_weaken; [exact Ho| | |exact H2o| |]; lia.
    + intros j Hj. destruct (decide (j = i)) as [->|]; [done|].
      rewrite (mread_only_in _ _ _ _ (p + 8 * j) 8 H2o) by lia. apply Hs. lia.
  - cbn [fst snd]. split; [lia|]. split; [done|]. split; [apply only_in_refl|]. lia.
  - intros [i m'] (Hi & _). lia.
  - cbn [fst]. unfold rounds64. lia.
Qed.

Lemma slide_pointers_ok p n m :
  mem_wf m -> 0 <= n < 2 ^ 64 ->
  mem_wf (slide_pointers ki slide p n m) /\ only_in p (8 * n) m (slide_pointers ki slide p n m) /\
  (forall i, 0 <= i < n ->
     mread (slide_pointers ki slide p n m) (p + 8 * i) 8 = slid_pointer (mread m (p + 8 * i) 8)).
Proof.
  intros Hm Hn. destruct (slide_pointers_loop p n m Hm Hn) as (m' & E & H).
  unfold slide_pointers, while. by rewrite E.
Qed.

(** The new value of a symbol. *)
Definition slid_symbol (n_type n_sect v : Z) : Z :=
  if panthera_symbol_is_section_based n_type && negb (n_sect =? 0) && negb (v =? 0) &&
     in_kernel ki v
  then v +64 slide else v.

Lemma slide_symbol_ok p m :
  mem_wf m ->
  let m' := slide_symbol ki slide p m in
  mem_wf m' /\ only_in (p + 8) 8 m m' /\
  mread m' (p + 8) 8 = slid_symbol (mget m (p + 4)) (mget m (p + 5)) (mread m (p + 8) 8).
Proof.
  intros Hm. unfold slide_symbol, slid_symbol, in_kernel. set (v := mread m (p + 8) 8).
  assert (Hv : mread (mwrite m (p + 8) 8 (v +64 slide)) (p + 8) 8 = (v +64 slide))
    by (rewrite mread_mwrite; apply Z.mod_small, wrap_64_range).
  rewrite !(Z.leb_antisym v).
  destruct (panthera_symbol_is_section_based _), (mget m (p + 5) =? 0), (v =? 0),
    (v <? lowest_vmaddr ki), (v <? highest_vmaddr ki); cbn [negb andb orb];
    split; auto with panthera; split; auto using only_in_refl.
  exact (only_in_mwrite _ _ 8 _).
Qed.

Lemma slide_symbols_loop st p n m :
  mem_wf m -> n = mread m (st + 12) 4 -> st + 16 <= p \/ p + 16 * n <= st + 12 ->
  exists m', loop rounds32 (slide_symbols_step ki slide st p) (0, m) = inr m' /\
    mem_wf m' /\ only_in p (16 * n) m m' /\
    (forall i, 0 <= i < n ->
       mread m' (p + 16 * i + 8) 8 =
       slid_symbol (mget m (p + 16 * i + 4)) (mget m (p + 16 * i + 5))
         (mread m (p + 16 * i + 8) 8)).
Proof.
  intros Hm Hn Hd. assert (Hnr : 0 <= n < 2 ^ 32) by (subst n; by apply mread_range).
  apply (loop_rule _
    (fun s => 0 <= s.1 <= n /\ mem_wf s.2 /\ only_in p (16 * s.1) m s.2 /\
       forall i, 0 <= i < s.1 ->
         mread s.2 (p + 16 * i + 8) 8 =
         slid_symbol (mget m (p + 16 * i + 4)) (mget m (p + 16 * i + 5))
           (mread m (p + 16 * i + 8) 8))
    (fun s => n - s.1)).
  - intros [i m'] (Hi & Hwf & Ho & Hs). cbn [fst snd] in *. unfold slide_symbols_step.
    rewrite (mread_only_in _ _ _ _ (st + 12) 4 Ho) by lia. rewrite <- Hn.
    destruct (Z.ltb_spec i n); cbn [negb]; [|assert (i = n) as -> by lia; done].
    wrap_tac. cbn [fst snd]. unfold sizeof_NList64.
    destruct (slide_symbol_ok (p + 16 * i) m' Hwf) as (H2w & H2o & H2r).
    set (m2 := slide_symbol ki slide (p + 16 * i) m') in *.
    rewrite (mread_only_in _ _ _ _ (p + 16 * i + 8) 8 Ho) in H2r by lia.
    rewrite (Ho (p + 16 * i + 4)), (Ho (p + 16 * i + 5)) in H2r by lia.
    split; [|lia]. split; [lia|]. split; [done|]. split.
    + eapply only_in_trans; eapply only_in_weaken; [exact Ho| | |exact H2o| |]; lia.
    + intros j Hj. destruct (decide (j = i)) as [->|]; [done|].
      rewrite (mread_only_in _ _ _ _ (p + 16 * j + 8) 8 H2o) by lia. apply Hs. lia.
  - cbn [fst snd]. split; [lia|]. split; [done|]. split; [apply only_in_refl|]. lia.
  - intros [i m'] (Hi & _). lia.
  - cbn [fst]. unfold rounds32. lia.
Qed.
End SlideLoops.

(** ** Sliding an encoded header *)
Lemma holds_file_bytes m a bs n k x :
  holds m a bs -> file_bytes bs k n = Some x -> mbytes m (a + k) n = x.
Proof.
  unfold file_bytes. intros H E.
  destruct (Z.leb_spec 0 k), (Z.leb_spec (k + Z.of_nat n) (Z.of_nat (length bs)));
    cbn [andb] in E; try discriminate. injection E as <-.
  rewrite <- (take_drop (Z.to_nat k) bs), holds_app in H.
  destruct H as [_ H]. rewrite length_take in H.
  rewrite <- (take_drop n (drop (Z.to_nat k) bs)), holds_app in H. destruct H as [H _].
  unfold holds in H. rewrite length_take, length_drop in H.
  rewrite <- H. f_equal; lia.
Qed.

Lemma holds_load m a bs n k v :
  holds m a bs -> load n bs k = Some v -> mread m (a + k) n = v.
Proof.
  intros H E. unfold load in E. destruct (file_bytes bs k n) as [x|] eqn:Ef; [|done].
  injection E as <-. rewrite mread_mbytes. by rewrite (holds_file_bytes _ _ _ _ _ _ H Ef).
Qed.

Lemma split_section_addr x :
  section_fits x ->
  exists P Q, length P = 32%nat /\ length Q = 40%nat /\
    forall v, encode_section (mkMSection (ms_sectname x) (ms_segname x) v (ms_size x) (ms_rest x)) =
              P ++ le_encode 8 v ++ Q.
Proof.
  intros (H1 & H2 & H3 & _). exists (ms_sectname x ++ ms_segname x), (le_encode 8 (ms_size x) ++ ms_rest x).
  rewrite !length_app, length_le_encode. split; [lia|]. split; [lia|].
  intros v. unfold encode_section. cbn. by rewrite <- !(assoc_L (++)).
Qed.

Lemma split_sections s flags a b :
  length (segname s) = 16%nat -> Forall section_fits a ->
  exists P Q, length P = (72 + 80 * length a)%nat /\
    forall x, encode_cmd (CmdSegment s flags (a ++ x :: b)) = P ++ encode_section x ++ Q.
Proof.
  intros Hl Ha.
  set (n := S (length a + length b)).
  set (H := le_encode 4 LC_SEGMENT_64 ++ le_encode 4 (72 + 80 * Z.of_nat n) ++ segname s ++
      le_encode 8 (vmaddr s) ++ le_encode 8 (vmsize s) ++ le_encode 8 (fileoff s) ++
      le_encode 8 (filesize s) ++ le_encode 4 (maxprot s) ++ le_encode 4 (initprot s) ++
      le_encode 4 (Z.of_nat n) ++ le_encode 4 flags).
  exists (H ++ encode_sections a), (encode_sections b). split.
  - unfold H. rewrite !length_app, !length_le_encode, length_encode_sections by done. lia.
  - intros x. cbn [encode_cmd cmd_size].
    assert (En : length (a ++ x :: b) = n) by (rewrite length_app; cbn; unfold n; lia).
    rewrite En, encode_sections_app.
    change (encode_sections (x :: b)) with (encode_section x ++ encode_sections b).
    unfold H. by rewrite <- !(assoc_L (++)).
Qed.

Lemma split_vmaddr s flags secs :
  length (segname s) = 16%nat ->
  exists P Q, length P = 24%nat /\
    forall v, encode_cmd (CmdSegment (with_vmaddr s v) flags secs) = P ++ le_encode 8 v ++ Q.
Proof.
  intros Hl.
  exists (le_encode 4 LC_SEGMENT_64 ++ le_encode 4 (72 + 80 * Z.of_nat (length secs)) ++ segname s).
  eexists. split; [rewrite !length_app, !length_le_encode; lia|].
  intros v. cbn [encode_cmd cmd_size with_vmaddr segname vmaddr vmsize fileoff filesize maxprot initprot].
  rewrite <- !(assoc_L (++)). reflexivity.
Qed.

Lemma split_rip fl regs tl :
  length fl = 8%nat -> length regs = 128%nat ->
  exists P Q, length P = 144%nat /\
    forall v, encode_cmd (CmdThread fl regs v tl) = P ++ le_encode 8 v ++ Q.
Proof.
  intros H1 H2. exists (le_encode 4 LC_UNIXTHREAD ++ le_encode 4 184 ++ fl ++ regs), tl.
  split; [rewrite !length_app, !length_le_encode; lia|].
  intros v. cbn [encode_cmd cmd_size]. by rewrite <- !(assoc_L (++)).
Qed.

Lemma slid_section_fits slide x : section_fits x -> section_fits (slid_section slide x).
Proof.
  intros (H1 & H2 & H3 & H4 & H5). unfold slid_section, section_fits.
  cbn [ms_sectname ms_segname ms_rest ms_addr ms_size]. do 3 (split; [done|]). split; [|done].
  destruct (ms_addr x =? 0); [lia|apply wrap_64_range].
Qed.

Lemma slid_cmd_size slide c : cmd_size (slid_cmd slide c) = cmd_size c.
Proof. destruct c; cbn; by rewrite ?length_fmap. Qed.

Lemma slid_cmd_encodable slide c : cmd_encodable c -> cmd_encodable (slid_cmd slide c).
Proof.
  destruct c as [s fl secs|hd lo n|fl regs rip tl|k pl]; cbn [slid_cmd]; try done.
  - intros ((H1 & H2 & H3) & H4 & H5). pose proof (wrap_64_range (vmaddr s + slide)).
    split; [done|]. rewrite length_fmap. split; [done|]. apply Forall_fmap.
    eapply Forall_impl; [exact H5|]. intros x Hx. by apply slid_section_fits.
  - intros (H1 & H2 & H3 & H4). pose proof (wrap_64_range (rip + slide)). done.
Qed.

Section SlideHeader.
Variables (ki : PantheraKernelImage) (loaded_base slide h len : Z).

(** Everything the command loop reads is in the block; the block after a
    section was slid. *)
Lemma slide_section_ok m P x Q segment s :
  mem_wf m -> section_fits x -> length (segname s) = 16%nat ->
  holds m h (P ++ encode_section x ++ Q) ->
  Z.of_nat (length P) + 80 + Z.of_nat (length Q) = len ->
  h <= segment -> segment + 24 <= h + Z.of_nat (length P) ->
  mbytes m (segment + 8) 16 = segname s ->
  section_apart ki loaded_base h len s x ->
  exists m', slide_section ki loaded_base slide segment (h + Z.of_nat (length P)) m = inl m' /\
    mem_wf m' /\ holds m' h (P ++ encode_section (slid_section slide x) ++ Q).
Proof.
  intros Hm Hx Hs Hh Hlen Hseg1 Hseg2 Hname Hap. unfold slide_section.
  destruct (load_section_fields x Q Hx) as [La Lz].
  assert (Hsec : holds m (h + Z.of_nat (length P)) (encode_section x ++ Q))
    by (apply holds_app in Hh; apply Hh).
  rewrite (holds_load _ _ _ _ _ _ Hsec La).
  set (m1 := if ms_addr x =? 0 then m else _).
  assert (H1 : mem_wf m1 /\ only_in (h + Z.of_nat (length P) + 32) 8 m m1 /\
     holds m1 h (P ++ encode_section (slid_section slide x) ++ Q)).
  { unfold m1, slid_section. destruct (split_section_addr x Hx) as (p & q & Lp & Lq & E).
    destruct (Z.eqb_spec (ms_addr x) 0) as [E0|].
    - split; [done|]. split; [apply only_in_refl|]. rewrite <- E0. by destruct x.
    - split; [by apply mem_wf_mwrite|]. split; [exact (only_in_mwrite _ _ 8 _)|].
      assert (Ex : encode_section x = p ++ le_encode 8 (ms_addr x) ++ q)
        by (rewrite <- E; by destruct x).
      rewrite Ex in Hh. rewrite E. rewrite <- !(assoc_L (++)) in *. rewrite !(assoc_L (++) P p) in *.
      replace (h + Z.of_nat (length P) + 32) with (h + Z.of_nat (length (P ++ p)))
        by (rewrite length_app; lia).
      by eapply holds_update. }
  destruct H1 as (Hm1 & Ho1 & Hh1).
  assert (Hsec1 : holds m1 (h + Z.of_nat (length P)) (encode_section (slid_section slide x) ++ Q))
    by (apply holds_app in Hh1; apply Hh1).
  assert (Hz : mread m1 (h + Z.of_nat (length P) + 40) 8 = ms_size x).
  { eapply holds_load; [exact Hsec1|].
    apply (load_section_fields (slid_section slide x) Q). by apply slid_section_fits. }
  assert (Hp : section_has_pointers m1 segment (h + Z.of_nat (length P)) = pointer_section s x).
  { unfold section_has_pointers, pointer_section.
    rewrite (mbytes_ext m1 m (segment + 8)) by (intros b Hb; apply Ho1; lia). rewrite Hname.
    rewrite <- (Z.add_0_r (h + Z.of_nat (length P))).
    erewrite (holds_file_bytes m1 _ _ 16 0); [done|exact Hsec1|].
    unfold encode_section. rewrite <- (assoc_L (++)). apply file_bytes_here, Hx. }
  rewrite Hp, Hz. destruct (pointer_section s x) eqn:Ep; [|by exists m1].
  destruct (Hap Ep) as [Hp0 Hpd]. rewrite (proj2 (Z.eqb_neq _ _) Hp0).
  set (p := panthera_loaded_vmaddr ki loaded_base (ms_addr x) (ms_size x)) in *.
  assert (Hr : 0 <= ms_size x < 2 ^ 64) by apply Hx.
  pose proof (Z.mul_div_le (ms_size x) 8 ltac:(lia)) as Hd8.
  pose proof (Z.div_pos (ms_size x) 8 ltac:(lia) ltac:(lia)) as Hd0.
  destruct (slide_pointers_ok ki slide p (ms_size x / 8) m1 Hm1) as (Hm2 & Ho2 & _); [lia|].
  eexists. split; [done|]. split; [done|].
  eapply holds_only_in; [exact Ho2| |exact Hh1].
  rewrite !length_app, length_encode_section by (by apply slid_section_fits). lia.
Qed.

Lemma slid_fits a b : Forall section_fits (a ++ b) -> Forall section_fits ((slid_section slide <$> a) ++ b).
Proof.
  rewrite !Forall_app. intros [Ha Hb]. split; [|done]. apply Forall_fmap.
  eapply Forall_impl; [exact Ha|]. intros x Hx. by apply slid_section_fits.
Qed.

Lemma slide_sections_step_ok m A B s flags a x b :
  mem_wf m -> cmd_encodable (CmdSegment s flags (a ++ x :: b)) ->
  holds m h (A ++ encode_cmd (CmdSegment s flags (a ++ x :: b)) ++ B) ->
  Z.of_nat (length A) + cmd_size (CmdSegment s flags (a ++ x :: b)) + Z.of_nat (length B) = len ->
  section_apart ki loaded_base h len s x ->
  exists m', slide_sections_step ki loaded_base slide (h + Z.of_nat (length A))
               (Z.of_nat (length a), m) = inl (Z.of_nat (length a) + 1, m') /\ mem_wf m' /\
    holds m' h (A ++ encode_cmd (CmdSegment s flags (a ++ slid_section slide x :: b)) ++ B).
Proof.
  intros Hm Hf Hh Hlen Hap. unfold slide_sections_step.
  destruct (load_segment_fields A B s flags (a ++ x :: b) Hf) as (Ln & Lname & _).
  rewrite <- Z.add_assoc, (holds_load _ _ _ _ _ _ Hh Ln).
  apply (holds_file_bytes _ _ _ _ _ _ Hh) in Lname. rewrite Z.add_assoc in Lname.
  rewrite <- (length_encode_cmd _ Hf) in Hlen.
  destruct Hf as ((Hl & _) & Hn & Hsecs). apply Forall_app in Hsecs as [Ha [Hx Hb]%Forall_cons].
  rewrite length_app in *. cbn [length] in *. rewrite (proj2 (Z.ltb_lt _ _)) by lia. cbn [negb].
  destruct (split_sections s flags a b Hl Ha) as (P & Q & LP & E).
  rewrite E in Hh, Hlen. rewrite E. rewrite !length_app, length_encode_section in Hlen by done.
  rewrite <- !(assoc_L (++)) in Hh. rewrite (assoc_L (++) A P) in Hh.
  destruct (slide_section_ok m (A ++ P) x (Q ++ B) (h + Z.of_nat (length A)) s)
    as (m' & E' & Hm' & Hh'); try done; try (rewrite ?length_app; lia).
  unfold sizeof_SegmentCommand64, sizeof_Section64.
  replace (h + Z.of_nat (length A) + 72 + 80 * Z.of_nat (length a))
    with (h + Z.of_nat (length (A ++ P))) by (rewrite length_app; lia).
  rewrite E'. wrap_tac. exists m'. split; [done|]. split; [done|].
  rewrite <- !(assoc_L (++)). by rewrite <- (assoc_L (++)) in Hh'.
Qed.

Lemma with_vmaddr_encodable s flags secs v :
  cmd_encodable (CmdSegment s flags secs) -> 0 <= v < 2 ^ 64 ->
  cmd_encodable (CmdSegment (with_vmaddr s v) flags secs).
Proof. intros ((H1 & H2 & H3) & H) Hv. done. Qed.

Lemma slid_prefix_encodable s flags a b :
  cmd_encodable (CmdSegment s flags (a ++ b)) ->
  cmd_encodable (CmdSegment s flags ((slid_section slide <$> a) ++ b)).
Proof.
  intros (H1 & H2 & H3). split; [done|].
  rewrite length_app, length_fmap, <- length_app. split; [done|]. by apply slid_fits.
Qed.

Lemma slide_sections_ok dflt m A B s flags secs :
  let c := CmdSegment s flags secs in
  mem_wf m -> cmd_encodable c -> holds m h (A ++ encode_cmd c ++ B) ->
  Z.of_nat (length A) + cmd_size c + Z.of_nat (length B) = len ->
  Forall (section_apart ki loaded_base h len s) secs ->
  exists m', while rounds32 dflt (slide_sections_step ki loaded_base slide
                                    (h + Z.of_nat (length A))) (0, m) = inl m' /\ mem_wf m' /\
    holds m' h (A ++ encode_cmd (CmdSegment s flags (slid_section slide <$> secs)) ++ B).
Proof.
  intros c Hm Hf Hh Hlen Hap.
  apply (while_rule _
    (fun st => exists a b, secs = a ++ b /\ st.1 = Z.of_nat (length a) /\ mem_wf st.2 /\
       holds st.2 h (A ++ encode_cmd (CmdSegment s flags ((slid_section slide <$> a) ++ b)) ++ B))
    (fun st => Z.of_nat (length secs) - st.1)
    (fun r => exists m', r = inl m' /\ mem_wf m' /\
       holds m' h (A ++ encode_cmd (CmdSegment s flags (slid_section slide <$> secs)) ++ B))).
  - intros [i m'] (a & b & E & Hi & Hw & Hh'). cbn [fst snd] in *. subst i. unfold c in *.
    rewrite E in *. pose proof (slid_prefix_encodable _ _ _ _ Hf) as He. destruct b as [|x b].
    { unfold slide_sections_step. destruct (load_segment_fields A B _ _ _ He) as (Ln' & _).
      rewrite <- Z.add_assoc, (holds_load _ _ _ _ _ _ Hh' Ln').
      rewrite app_nil_r, length_fmap, Z.ltb_irrefl. cbn [negb].
      exists m'. by rewrite !app_nil_r in *. }
    destruct (slide_sections_step_ok m' A B s flags (slid_section slide <$> a) x b)
      as (m2 & E2 & Hm2 & Hh2); try done.
    { rewrite <- Hlen. cbn [cmd_size]. by rewrite !length_app, length_fmap. }
    { apply Forall_app in Hap as [_ Hap]. by apply Forall_cons in Hap as [Hap _]. }
    rewrite length_fmap in E2. rewrite E2. cbn [fst snd]. split; [|rewrite !length_app; lia].
    exists (a ++ [x]), b. rewrite <- (assoc_L (++)), length_app, fmap_app, <- (assoc_L (++)).
    cbn [length]. split_and!; try done. lia.
  - exists [], secs. done.
  - intros [i m'] (a & b & -> & -> & _). rewrite length_app. lia.
  - cbn [fst]. destruct Hf as (_ & Hf & _). unfold rounds32. lia.
Qed.

Lemma slide_segment_ok m A B s flags secs :
  let c := CmdSegment s flags secs in
  mem_wf m -> cmd_encodable c -> holds m h (A ++ encode_cmd c ++ B) ->
  Z.of_nat (length A) + cmd_size c + Z.of_nat (length B) = len ->
  cmd_apart ki loaded_base h len c ->
  exists m', slide_segment ki loaded_base slide (h + Z.of_nat (length A)) (cmd_size c) m = inl m' /\
    mem_wf m' /\ holds m' h (A ++ encode_cmd (slid_cmd slide c) ++ B).
Proof.
  intros c Hm Hf Hh Hlen Hap. unfold slide_segment, c.
  destruct (load_segment_fields A B s flags secs Hf) as (Ln & _ & Lv & _).
  rewrite <- !Z.add_assoc, (holds_load _ _ _ _ _ _ Hh Ln), (holds_load _ _ _ _ _ _ Hh Lv).
  assert (Hk : Z.of_nat (length secs) < 2 ^ 20) by apply Hf.
  unfold sizeof_SegmentCommand64, sizeof_Section64. wrap_tac.
  rewrite (proj2 (Z.ltb_ge _ _)) by (cbn [cmd_size]; lia).
  set (v := vmaddr s +64 slide). cbn [slid_cmd]. fold v.
  apply slide_sections_ok; [by apply mem_wf_mwrite| | |done|done].
  - apply with_vmaddr_encodable; [done|apply wrap_64_range].
  - destruct (split_vmaddr s flags secs) as (P & Q & LP & E); [apply Hf|].
    assert (Es : with_vmaddr s (vmaddr s) = s) by (by destruct s).
    unfold c in Hh. rewrite <- Es, E in Hh. rewrite E.
    rewrite <- !(assoc_L (++)) in Hh |- *. rewrite (assoc_L (++) A P) in Hh |- *.
    replace (h + (Z.of_nat (length A) + 24)) with (h + Z.of_nat (length (A ++ P)))
      by (rewrite length_app; lia).
    by eapply holds_update.
Qed.

Lemma slide_thread_ok m A B fl regs rip tl :
  let c := CmdThread fl regs rip tl in
  mem_wf m -> cmd_encodable c -> holds m h (A ++ encode_cmd c ++ B) ->
  exists m', slide_thread slide (h + Z.of_nat (length A)) (cmd_size c) m = inl m' /\
    mem_wf m' /\ holds m' h (A ++ encode_cmd (slid_cmd slide c) ++ B).
Proof.
  intros c Hm (H1 & H2 & H3 & H4) Hh. unfold slide_thread, c. cbn [cmd_size].
  change (184 <? _) with false. cbn match.
  destruct (split_rip fl regs tl H1 H2) as (P & Q & LP & E).
  unfold c in Hh. rewrite E in Hh. cbn [slid_cmd]. rewrite E.
  rewrite <- !(assoc_L (++)) in Hh |- *. rewrite (assoc_L (++) A P) in Hh |- *.
  unfold sizeof_LoadCommand, sizeof_ThreadStateHeader.
  replace (h + Z.of_nat (length A) + 8 + 8 + 128) with (h + Z.of_nat (length (A ++ P)))
    by (rewrite length_app; lia).
  assert (Er : mread m (h + Z.of_nat (length (A ++ P))) 8 = rip).
  { pose proof Hh as Hr. rewrite !holds_app in Hr. destruct Hr as (_ & Hr & _).
    rewrite (holds_mread _ _ _ _ Hr). by apply Z.mod_small. }
  rewrite Er. eexists. split; [done|]. split; [by apply mem_wf_mwrite|]. by eapply holds_update.
Qed.

Lemma slide_command_step_ok m A c B i ncmds st :
  mem_wf m -> cmd_encodable c -> holds m h (A ++ encode_cmd c ++ B) ->
  Z.of_nat (length A) + cmd_size c + Z.of_nat (length B) = len ->
  cmd_apart ki loaded_base h len c ->
  load32 (A ++ encode_cmd c ++ B) 16 = Some ncmds -> 0 <= i < ncmds -> ncmds < 2 ^ 32 ->
  exists m', slide_command_step ki loaded_base slide h (i, h + Z.of_nat (length A), st, m) =
      inl (i + 1, h + Z.of_nat (length A) + cmd_size c,
           (if cmd_code c =? LC_SYMTAB then h + Z.of_nat (length A) else st), m') /\
    mem_wf m' /\ holds m' h (A ++ encode_cmd (slid_cmd slide c) ++ B).
Proof.
  intros Hm Hf Hh Hlen Hap Hnc Hi Hn. unfold slide_command_step.
  destruct (load_cmd_prefix A c B Hf) as [Lc Ls]. pose proof (cmd_size_range _ Hf) as Hsz.
  rewrite (holds_load _ _ _ _ _ _ Hh Hnc), (proj2 (Z.ltb_lt _ _)) by lia. cbn [negb].
  rewrite <- Z.add_assoc, (holds_load _ _ _ _ _ _ Hh Ls), (holds_load _ _ _ _ _ _ Hh Lc).
  unfold sizeof_LoadCommand. rewrite (proj2 (Z.ltb_ge _ _)) by lia. wrap_tac.
  set (next := if cmd_code c =? LC_SEGMENT_64 then _ else _).
  assert (Hnext : exists m', next = inl m' /\ mem_wf m' /\
    holds m' h (A ++ encode_cmd (slid_cmd slide c) ++ B)).
  { unfold next. destruct c as [s fl secs|hd lo n|fl regs rip tl|k pl]; cbn [cmd_code].
    - by apply slide_segment_ok.
    - by exists m.
    - by apply slide_thread_ok.
    - destruct Hf as (_ & F1 & F2 & F3 & _). rewrite !(proj2 (Z.eqb_neq _ _)) by done.
      by exists m. }
  destruct Hnext as (m' & -> & Hm' & Hh'). exists m'. split; [|done].
  destruct (load_cmd_prefix A (slid_cmd slide c) B) as [_ Ls'].
  { by apply slid_cmd_encodable. }
  rewrite (holds_load _ _ _ _ _ _ Hh' Ls'), slid_cmd_size. done.
Qed.

Lemma load_ncmds sub flags cs rest :
  Z.of_nat (length cs) < 2 ^ 32 ->
  load32 (encode_macho sub flags cs rest) 16 = Some (Z.of_nat (length cs)).
Proof.
  intros Hn. unfold encode_macho, encode_header. rewrite <- !(assoc_L (++)).
  by eval_fields.
Qed.

Lemma load_header_fields sub flags cs :
  Z.of_nat (length (encode_cmds cs)) < 2 ^ 32 ->
  load32 (encode_macho sub flags cs []) 0 = Some MH_MAGIC_64 /\
  load32 (encode_macho sub flags cs []) 20 = Some (Z.of_nat (length (encode_cmds cs))).
Proof.
  intros Hn. unfold encode_macho, encode_header, MH_MAGIC_64. rewrite <- !(assoc_L (++)).
  split; by eval_fields.
Qed.

Lemma symtab_at_snoc a cs c acc :
  symtab_at a (cs ++ [c]) acc =
  if cmd_code c =? LC_SYMTAB then a + fold_right (fun c n => cmd_size c + n) 0 cs
  else symtab_at a cs acc.
Proof.
  revert a acc. induction cs as [|x cs IH]; intros a acc; cbn [app symtab_at fold_right].
  - by rewrite Z.add_0_r.
  - rewrite IH. case_match; [lia|done].
Qed.

Lemma cmds_size cs :
  Forall cmd_encodable cs ->
  Z.of_nat (length (encode_cmds cs)) = fold_right (fun c n => cmd_size c + n) 0 cs.
Proof.
  induction 1 as [|c cs Hc _ IH]; [done|].
  change (encode_cmds (c :: cs)) with (encode_cmd c ++ encode_cmds cs).
  cbn [fold_right]. rewrite length_app, Nat2Z.inj_add, length_encode_cmd by done. lia.
Qed.

(** Replacing a command by one of the same size. *)
Lemma macho_split sub flags a c c' b :
  length (encode_cmd c) = length (encode_cmd c') ->
  exists A B, Z.of_nat (length A) = 32 + Z.of_nat (length (encode_cmds a)) /\
    length B = length (encode_cmds b) /\
    encode_macho sub flags (a ++ c :: b) [] = A ++ encode_cmd c ++ B /\
    encode_macho sub flags (a ++ c' :: b) [] = A ++ encode_cmd c' ++ B.
Proof.
  intros E.
  exists (encode_header (Z.of_nat (length (a ++ c :: b)))
            (Z.of_nat (length (encode_cmds (a ++ c :: b)))) sub flags ++ encode_cmds a),
    (encode_cmds b).
  split; [rewrite length_app, length_encode_header; lia|]. split; [done|].
  assert (Hc : forall x, encode_cmds (a ++ x :: b) = encode_cmds a ++ encode_cmd x ++ encode_cmds b)
    by (intros x; by rewrite encode_cmds_app).
  unfold encode_macho. rewrite !Hc, !app_nil_r, !length_app, E. cbn [length].
  by rewrite <- !(assoc_L (++)).
Qed.

Lemma slid_cmds_size a :
  Forall cmd_encodable a ->
  length (encode_cmds (slid_cmd slide <$> a)) = length (encode_cmds a).
Proof.
  intros Ha. apply Nat2Z.inj. rewrite !cmds_size; [|done|].
  - clear Ha. induction a as [|c a IH]; [done|].
    rewrite fmap_cons. cbn [fold_right]. by rewrite slid_cmd_size, IH.
  - apply Forall_fmap. eapply Forall_impl; [exact Ha|]. intros c Hc. by apply slid_cmd_encodable.
Qed.

Lemma slide_commands_ok dflt m sub flags cs :
  mem_wf m -> Forall cmd_encodable cs -> Forall (cmd_apart ki loaded_base h len) cs ->
  holds m h (encode_macho sub flags cs []) ->
  len = 32 + Z.of_nat (length (encode_cmds cs)) -> len < 2 ^ 32 ->
  exists m', while rounds32 dflt (slide_command_step ki loaded_base slide h) (0, h + 32, 0, m) =
      inl (symtab_at (h + 32) cs 0, m') /\
    mem_wf m' /\ holds m' h (encode_macho sub flags (slid_cmd slide <$> cs) []).
Proof.
  intros Hm Hf Hap Hh Hlen Hlt. pose proof (length_encode_cmds _ Hf) as H8.
  assert (Hn32 : Z.of_nat (length cs) < 2 ^ 32) by lia. clear H8.
  apply (while_rule _
    (fun s => exists a b m', cs = a ++ b /\ mem_wf m' /\
       s = (Z.of_nat (length a), h + 32 + Z.of_nat (length (encode_cmds a)),
            symtab_at (h + 32) a 0, m') /\
       holds m' h (encode_macho sub flags ((slid_cmd slide <$> a) ++ b) []))
    (fun s => Z.of_nat (length cs) - s.1.1.1)
    (fun r => exists m', r = inl (symtab_at (h + 32) cs 0, m') /\ mem_wf m' /\
       holds m' h (encode_macho sub flags (slid_cmd slide <$> cs) []))).
  - intros s (a & b & m' & -> & Hw & -> & Hh'). rewrite Forall_app in Hf, Hap.
    destruct Hf as [Hfa Hfb], Hap as [Hapa Hapb]. rewrite length_app in *. destruct b as [|c b].
    { unfold slide_command_step. rewrite !app_nil_r in *. cbn [length] in Hn32.
      assert (Hn : load32 (encode_macho sub flags (slid_cmd slide <$> a) []) 16 =
        Some (Z.of_nat (length a))) by (rewrite load_ncmds; rewrite length_fmap; lia || done).
      rewrite (holds_load _ _ _ _ _ _ Hh' Hn), Z.ltb_irrefl. cbn [negb]. by exists m'. }
    apply Forall_cons in Hfb as [Hc Hb]. apply Forall_cons in Hapb as [Hac _]. cbn [length] in *.
    destruct (macho_split sub flags (slid_cmd slide <$> a) c (slid_cmd slide c) b)
      as (A & B & LA & LB & E1 & E2).
    { apply Nat2Z.inj. rewrite !length_encode_cmd, slid_cmd_size; auto using slid_cmd_encodable. }
    rewrite slid_cmds_size in LA by done. rewrite encode_cmds_app in Hlen.
    change (encode_cmds (c :: b)) with (encode_cmd c ++ encode_cmds b) in Hlen.
    rewrite !length_app, <- LB in Hlen. pose proof (length_encode_cmd c Hc) as Lc.
    assert (Hn : load32 (A ++ encode_cmd c ++ B) 16 = Some (Z.of_nat (length a + S (length b)))).
    { rewrite <- E1, load_ncmds; rewrite length_app, length_fmap; cbn [length]; lia || done. }
    rewrite E1 in Hh'. replace (h + 32 + Z.of_nat (length (encode_cmds a)))
      with (h + Z.of_nat (length A)) by lia.
    destruct (slide_command_step_ok m' A c B (Z.of_nat (length a)) _ (symtab_at (h + 32) a 0)
      Hw Hc Hh' ltac:(lia) Hac Hn ltac:(lia) ltac:(lia)) as (m2 & -> & Hm2 & Hh2).
    cbn [fst]. split; [|lia]. exists (a ++ [c]), b, m2.
    rewrite <- (assoc_L (++)), fmap_app, <- (assoc_L (++)), symtab_at_snoc, <- cmds_size by done.
    split_and!; [done|done| |by rewrite <- E2 in Hh2].
    rewrite encode_cmds_app, !length_app. cbn [length].
    replace (encode_cmds [c]) with (encode_cmd c) by (symmetry; apply app_nil_r).
    f_equal. f_equal; [f_equal; lia|]. destruct (cmd_code c =? LC_SYMTAB); lia.
  - exists [], cs, m. split_and!; try done. cbn. by rewrite Z.add_0_r.
  - intros s (a & b & m' & -> & _ & -> & _). cbn [fst]. rewrite length_app. lia.
  - cbn [fst]. unfold rounds32. lia.
Qed.

Lemma symtab_cases a cs :
  (symtab_payload cs = None /\ symtab_at a cs 0 = 0) \/
  exists x pl y, cs = x ++ CmdOther LC_SYMTAB pl :: y /\ symtab_payload cs = Some pl /\
    symtab_at a cs 0 = a + fold_right (fun c n => cmd_size c + n) 0 x.
Proof.
  induction cs as [|c cs IH] using rev_ind; [by left|].
  rewrite symtab_at_snoc. unfold symtab_payload in *. rewrite omap_app.
  destruct (Z.eqb_spec (cmd_code c) LC_SYMTAB) as [Ec|Ec].
  - right. destruct c as [s fl secs|hd lo n|fl regs rip tl|k pl]; try discriminate Ec.
    cbn [cmd_code] in Ec. subst k. exists cs, pl, []. cbn. by rewrite last_snoc.
  - replace (omap _ [c]) with (@nil (list Z)).
    2:{ destruct c; try done. cbn in *. by rewrite (proj2 (Z.eqb_neq _ _) Ec). }
    rewrite app_nil_r. destruct IH as [IH|(x & pl & y & -> & E1 & E2)]; [by left|right].
    exists x, pl, (y ++ [c]). by rewrite <- (assoc_L (++)).
Qed.

Lemma load_symtab_fields A pl B :
  (16 <= length pl)%nat ->
  let f := A ++ encode_cmd (CmdOther LC_SYMTAB pl) ++ B in
  load32 f (Z.of_nat (length A) + 8) = Some (le_decode (take 4 pl)) /\
  load32 f (Z.of_nat (length A) + 12) = Some (le_decode (take 4 (drop 4 pl))).
Proof.
  intros Hl f. unfold f. rewrite !load_at by lia. cbn [encode_cmd].
  generalize (le_encode 4 (cmd_size (CmdOther LC_SYMTAB pl))) (length_le_encode 4 (cmd_size (CmdOther LC_SYMTAB pl))).
  intros sz Hsz. 
  assert (E : exists p1 p2 p3, pl = p1 ++ p2 ++ p3 /\ length p1 = 4%nat /\ length p2 = 4%nat).
  { exists (take 4 pl), (take 4 (drop 4 pl)), (drop 4 (drop 4 pl)). rewrite !take_drop.
    rewrite !length_take, length_drop. split; [done|]. lia. }
  destruct E as (p1 & p2 & p3 & -> & H1 & H2).
  rewrite take_app_length', drop_app_length', take_app_length' by done.
  rewrite <- !(assoc_L (++)). split; eval_fields; by apply load_raw.
Qed.

Lemma slide_symtab_ok m sub flags cs :
  mem_wf m -> Forall cmd_encodable cs -> 0 < h ->
  holds m h (encode_macho sub flags (slid_cmd slide <$> cs) []) ->
  len = 32 + Z.of_nat (length (encode_cmds cs)) -> symtab_apart ki loaded_base h len cs ->
  exists m', slide_symtab ki loaded_base slide (symtab_at (h + 32) cs 0) m =
      (PANTHERA_LOADER_OK, m') /\
    holds m' h (encode_macho sub flags (slid_cmd slide <$> cs) []).
Proof.
  intros Hm Hf Hh0 Hh Hlen Hap. unfold slide_symtab.
  destruct (symtab_cases (h + 32) cs) as [[_ ->]|(x & pl & y & E & Ep & ->)]; [by exists m|].
  unfold symtab_apart in Hap. rewrite Ep in Hap. destruct Hap as [Hl Hap].
  set (c := CmdOther LC_SYMTAB pl) in *.
  rewrite E in Hf. apply Forall_app in Hf as [Hfx [Hfc Hfy]%Forall_cons].
  rewrite <- cmds_size by done. rewrite E, encode_cmds_app in Hlen.
  change (encode_cmds (c :: y)) with (encode_cmd c ++ encode_cmds y) in Hlen.
  rewrite !length_app in Hlen. pose proof (length_encode_cmd c Hfc) as Lc. cbn [cmd_size c] in Lc.
  set (st := h + 32 + Z.of_nat (length (encode_cmds x))).
  rewrite (proj2 (Z.eqb_neq st 0)) by (unfold st; lia).
  destruct (macho_split sub flags (slid_cmd slide <$> x) c c (slid_cmd slide <$> y) eq_refl)
    as (A & B & LA & LB & E1 & _).
  rewrite slid_cmds_size in LA, LB by done.
  assert (Ecs : slid_cmd slide <$> cs = (slid_cmd slide <$> x) ++ c :: (slid_cmd slide <$> y))
    by (by rewrite E, fmap_app).
  destruct (load_symtab_fields A pl B Hl) as [L1 L2]. fold c in L1, L2.
  pose proof Hh as Hb. rewrite Ecs, E1 in Hb.
  apply (holds_load _ _ _ _ _ _ Hb) in L1, L2.
  replace (h + (Z.of_nat (length A) + 8)) with (st + 8) in L1 by (unfold st; lia).
  replace (h + (Z.of_nat (length A) + 12)) with (st + 12) in L2 by (unfold st; lia).
  rewrite L1, L2. destruct (Z.eqb_spec (le_decode (take 4 (drop 4 pl))) 0) as [|Hn]; [by exists m|].
  destruct (Hap Hn) as [Hp0 Hpd]. cbn [orb]. unfold sizeof_NList64.
  rewrite (proj2 (Z.eqb_neq _ _) Hp0).
  set (p := panthera_loaded_file_offset _ _ _ _) in *.
  destruct (slide_symbols_loop ki slide st p _ m Hm (eq_sym L2)) as (m' & El & _ & Ho & _).
  { unfold st. lia. }
  exists m'. unfold slide_symbols, while. rewrite El. split; [done|].
  eapply holds_only_in; [exact Ho| |exact Hh].
  rewrite Ecs, E1, !length_app. unfold st in *. lia.
Qed.
End SlideHeader.

(** C8. Sliding the metadata of a loaded kernel rewrites its Mach-O header to
    the header of the slid kernel: if memory at the address of [__TEXT] holds
    the encoding of the load commands [cs], the call succeeds and afterwards
    holds the encoding of [cs] with every segment address, every non-zero
    section address and the thread's instruction pointer moved by the slide,
    and nothing else changed. The pointer sections and the symbol table, which
    are slid too, must not overlap the header. *)
Theorem slide_metadata_encodes (ki : PantheraKernelImage) (loaded_base : Z) (m : mem)
    (text : PantheraKernelSegment) (sub flags : Z) (cs : list macho_cmd) :
  let slide := slide_of ki loaded_base in
  let len := Z.of_nat (length (encode_macho sub flags cs [])) in
  let h := panthera_loaded_vmaddr ki loaded_base (vmaddr text) 32 in
  mem_wf m -> loaded_base <> 0 -> slide <> 0 ->
  List.find (fun s => segname_is s "__TEXT") (segments ki) = Some text ->
  0 < h -> panthera_loaded_vmaddr ki loaded_base (vmaddr text) len <> 0 ->
  len < 2 ^ 32 -> Forall cmd_encodable cs -> holds m h (encode_macho sub flags cs []) ->
  Forall (cmd_apart ki loaded_base h len) cs -> symtab_apart ki loaded_base h len cs ->
  exists m', panthera_slide_kernel_macho_metadata (Some ki) loaded_base m =
      (PANTHERA_LOADER_OK, m') /\
    holds m' h (encode_macho sub flags (slid_cmd slide <$> cs) []).
Proof.
  intros slide len h Hm Hb Hs Ht Hh0 Hl0 Hlt Hf Hh Hap Hst.
  unfold panthera_slide_kernel_macho_metadata, sizeof_MachHeader64. fold slide.
  rewrite !(proj2 (Z.eqb_neq _ _)) by done. rewrite Ht. fold h.
  rewrite (proj2 (Z.eqb_neq h 0)) by lia.
  assert (Hlen : len = 32 + Z.of_nat (length (encode_cmds cs))).
  { unfold len, encode_macho. rewrite !length_app, length_encode_header. cbn [length]. lia. }
  destruct (load_header_fields sub flags cs) as [L0 L20]; [lia|].
  apply (holds_load _ _ _ _ _ _ Hh) in L0, L20. rewrite Z.add_0_r in L0.
  rewrite L0, L20. cbn [Z.eqb Pos.eqb negb MH_MAGIC_64].
  rewrite wrap_small by lia. rewrite <- Hlen, (proj2 (Z.eqb_neq _ _) Hl0).
  unfold slide_header, sizeof_MachHeader64.
  destruct (slide_commands_ok ki loaded_base slide h len (inr (PANTHERA_LOADER_OK, m)) m sub flags cs)
    as (m1 & -> & Hm1 & Hh1); try done.
  by apply (slide_symtab_ok ki loaded_base slide h len).
Qed.

(** ** Termination on arbitrary memory *)
Section SlideTerminates.
Variables (ki : PantheraKernelImage) (loaded_base slide : Z).

Definition keeps_wf (r : mem + (PantheraLoaderStatus * mem)) : Prop :=
  match r with inl m => mem_wf m | inr (_, m) => mem_wf m end.

Lemma slide_section_wf seg sec m : mem_wf m -> keeps_wf (slide_section ki loaded_base slide seg sec m).
Proof.
  intros Hm. unfold slide_section. set (m1 := if _ =? 0 then m else _).
  assert (Hm1 : mem_wf m1) by (unfold m1; case_match; auto with panthera).
  destruct (section_has_pointers m1 seg sec); [|done].
  destruct (panthera_loaded_vmaddr _ _ _ _ =? 0); [done|].
  pose proof (mread_range m1 (sec + 40) 8 Hm1) as Hr. change (256 ^ Z.of_nat 8) with (2 ^ 64) in Hr.
  pose proof (Z.mul_div_le (mread m1 (sec + 40) 8) 8 ltac:(lia)).
  pose proof (Z.div_pos (mread m1 (sec + 40) 8) 8 ltac:(lia) ltac:(lia)).
  apply slide_pointers_ok; [done|lia].
Qed.

(** A counter that is compared with a 32-bit field read anew in each round. *)
Lemma counter_loop {S R} (f : S -> S + R) (idx : S -> Z) (ok : S -> Prop) (Q : R -> Prop) s :
  ok s -> idx s = 0 ->
  (forall s, ok s -> 0 <= idx s < 2 ^ 32 ->
     match f s with
     | inl s' => ok s' /\ idx s < 2 ^ 32 - 1 /\ idx s' = idx s + 1
     | inr r => Q r
     end) ->
  exists r, loop rounds32 f s = inr r /\ Q r.
Proof.
  intros Hs H0 Hstep.
  apply (loop_rule f (fun s => ok s /\ 0 <= idx s < 2 ^ 32) (fun s => 2 ^ 32 - 1 - idx s) Q).
  - intros t [Ht Hi]. specialize (Hstep t Ht Hi). destruct (f t); [|done]. split; [split; [tauto|]|]; lia.
  - split; [done|lia].
  - intros t [_ Hi]. lia.
  - unfold rounds32. lia.
Qed.

Lemma mread4_range m a : mem_wf m -> 0 <= mread m a 4 < 2 ^ 32.
Proof. apply (mread_range m a 4). Qed.

Lemma slide_sections_exit seg m :
  mem_wf m ->
  exists r, loop rounds32 (slide_sections_step ki loaded_base slide seg) (0, m) = inr r /\ keeps_wf r.
Proof.
  intros Hm. apply (counter_loop _ fst (fun s => mem_wf s.2)); [done|done|].
  intros [i m'] Hw Hi. cbn [fst snd] in *. unfold slide_sections_step.
  pose proof (mread4_range m' (seg + 64) Hw).
  destruct (Z.ltb_spec i (mread m' (seg + 64) 4)); cbn [negb]; [|done].
  match goal with |- context [slide_section ki loaded_base slide seg ?x m'] =>
    pose proof (slide_section_wf seg x m' Hw); destruct (slide_section _ _ _ _ _ _) as [m2|[st m2]] end;
    cbn [keeps_wf] in *; [|done].
  wrap_tac. cbn [fst snd]. split; [done|]. lia.
Qed.

Lemma slide_segment_wf seg sz m : mem_wf m -> keeps_wf (slide_segment ki loaded_base slide seg sz m).
Proof.
  intros Hm. unfold slide_segment. case_match; [done|].
  match goal with |- keeps_wf (while _ _ _ (0, ?x)) =>
    assert (Hx : mem_wf x) by (by apply mem_wf_mwrite);
    destruct (slide_sections_exit seg x Hx) as (r & E & Hr) end.
  unfold while. by rewrite E.
Qed.

Lemma slide_commands_exit h s m :
  mem_wf m ->
  exists r, loop rounds32 (slide_command_step ki loaded_base slide h) (0, s, 0, m) = inr r /\
    match r with inl (_, m') => mem_wf m' | inr (_, m') => mem_wf m' end.
Proof.
  intros Hm. apply (counter_loop _ (fun s => s.1.1.1) (fun s => mem_wf s.2)); [done|done|].
  intros [[[i c] st] m'] Hw Hi. cbn [fst snd] in *. unfold slide_command_step.
  pose proof (mread4_range m' (h + 16) Hw).
  destruct (Z.ltb_spec i (mread m' (h + 16) 4)); cbn [negb]; [|done].
  destruct (_ <? sizeof_LoadCommand); [done|].
  set (next := if _ =? LC_SEGMENT_64 then _ else _).
  assert (Hn : keeps_wf next).
  { unfold next, slide_thread. destruct (_ =? LC_SEGMENT_64); [by apply slide_segment_wf|].
    destruct (_ =? LC_UNIXTHREAD); [|done]. destruct (_ <? _ + _); [done|]. by apply mem_wf_mwrite. }
  destruct next as [m2|[e m2]]; cbn [keeps_wf] in Hn; [|done].
  wrap_tac. cbn [fst snd]. split; [done|]. lia.
Qed.

Lemma slide_symbols_exit st p m :
  mem_wf m ->
  exists r, loop rounds32 (slide_symbols_step ki slide st p) (0, m) = inr r /\ mem_wf r.
Proof.
  intros Hm. apply (counter_loop _ fst (fun s => mem_wf s.2)); [done|done|].
  intros [i m'] Hw Hi. cbn [fst snd] in *. unfold slide_symbols_step.
  pose proof (mread4_range m' (st + 12) Hw).
  destruct (Z.ltb_spec i (mread m' (st + 12) 4)); cbn [negb]; [|done].
  wrap_tac. cbn [fst snd]. split; [|lia]. by apply slide_symbol_ok.
Qed.
End SlideTerminates.

(** C12. Whatever the memory holds, every loop of the metadata pass leaves
    before its rounds run out, although the command, section and symbol counts
    are read from the memory that the pass is changing. *)
Theorem slide_metadata_terminates (ki : PantheraKernelImage) (loaded_base slide : Z) (m : mem) :
  mem_wf m ->
  (forall h, exists r,
     loop rounds32 (slide_command_step ki loaded_base slide h) (0, h + 32, 0, m) = inr r) /\
  (forall seg, exists r,
     loop rounds32 (slide_sections_step ki loaded_base slide seg) (0, m) = inr r) /\
  (forall p n, 0 <= n < 2 ^ 64 -> exists m',
     loop rounds64 (slide_pointers_step ki slide p n) (0, m) = inr m') /\
  (forall st p, exists m', loop rounds32 (slide_symbols_step ki slide st p) (0, m) = inr m').
Proof.
  intros Hm. split_and!.
  - intros h. destruct (slide_commands_exit ki loaded_base slide h (h + 32) m Hm) as (r & E & _).
    by exists r.
  - intros seg. destruct (slide_sections_exit ki loaded_base slide seg m Hm) as (r & E & _).
    by exists r.
  - intros p n Hn. destruct (slide_pointers_loop ki slide p n m Hm Hn) as (r & E & _). by exists r.
  - intros st p. destruct (slide_symbols_exit ki slide st p m Hm) as (r & E & _). by exists r.
Qed.

(** C11. The pointer tables and the symbol table are slid exactly: a pointer
    moves if and only if it points into the kernel, a symbol's value if and
    only if the symbol is defined in a section and its value is a non-zero
    address of the kernel, and no byte outside the tables changes. *)
Theorem slide_tables_exact (ki : PantheraKernelImage) (slide : Z) (m : mem) :
  mem_wf m ->
  (forall p n, 0 <= n < 2 ^ 64 ->
     let m' := slide_pointers ki slide p n m in
     only_in p (8 * n) m m' /\
     forall i, 0 <= i < n ->
       mread m' (p + 8 * i) 8 = slid_pointer ki slide (mread m (p + 8 * i) 8)) /\
  (forall st p, let n := mread m (st + 12) 4 in
     st + 16 <= p \/ p + 16 * n <= st + 12 ->
     let m' := slide_symbols ki slide st p m in
     only_in p (16 * n) m m' /\
     forall i, 0 <= i < n ->
       mread m' (p + 16 * i + 8) 8 =
       slid_symbol ki slide (mget m (p + 16 * i + 4)) (mget m (p + 16 * i + 5))
         (mread m (p + 16 * i + 8) 8)).
Proof.
  intros Hm. split.
  - intros p n Hn. by destruct (slide_pointers_ok ki slide p n m Hm Hn) as (_ & H).
  - intros st p n Hd. destruct (slide_symbols_loop ki slide st p n m Hm eq_refl Hd)
      as (m' & E & _ & H). unfold slide_symbols, while. by rewrite E.
Qed.

Lemma loaded_vmaddr_spec_witness :
  let p := panthera_loaded_vmaddr sample_ki 0x300000 0x201ff8 8 in
  (0x200000 <= 0x201ff8 /\ 0x201ff8 + 8 <= 0x202000 ->
   p = 0x300000 + (0x201ff8 - 0x200000) /\ 0x300000 <= p /\
   p + 8 <= 0x300000 + (0x202000 - 0x200000)) /\
  (~ (0x200000 <= 0x201ff8 /\ 0x201ff8 + 8 <= 0x202000) -> p = 0).
Proof. apply (loaded_vmaddr_spec sample_ki 0x300000 0x201ff8 8); cbn; lia. Defined.

Lemma loaded_vmaddr_above_image_witness :
  let p := panthera_loaded_vmaddr sample_ki 0x300000 0x500000 8 in
  p = 0x300000 + (0x500000 - 0x200000) /\ 0x300000 + (0x202000 - 0x200000) < p.
Proof. apply (loaded_vmaddr_above_image sample_ki 0x300000 0x500000 8); cbn; lia. Defined.

(** The load commands of the example kernel: a constant pointer table, a thread
    state and a symbol table. *)
Definition sample_header : list macho_cmd :=
  [ CmdSegment (mkSegment (str "__DATA_CONST" ++ repeat 0 4) 0x201000 0x1000 2048 2048 7 3) 0
      [ mkMSection (str "__got" ++ repeat 0 11) (str "__DATA_CONST" ++ repeat 0 4) 0x201800 16
          (repeat 0 32) ];
    CmdThread (repeat 0 8) (repeat 0 128) 0x200010 (repeat 0 32);
    CmdOther LC_SYMTAB (le_encode 4 3072 ++ le_encode 4 1 ++ repeat 0 8) ].
Definition sample_loaded : mem := mstore ∅ 0x300000 (encode_macho 3 0 sample_header []).

Lemma slide_metadata_encodes_witness :
  exists m', panthera_slide_kernel_macho_metadata (Some sample_ki) 0x300000 sample_loaded =
      (PANTHERA_LOADER_OK, m') /\
    holds m' (panthera_loaded_vmaddr sample_ki 0x300000 0x200000 32)
      (encode_macho 3 0 (slid_cmd (slide_of sample_ki 0x300000) <$> sample_header) []).
Proof.
  refine (slide_metadata_encodes sample_ki 0x300000 sample_loaded
    (mkSegment (str "__TEXT" ++ repeat 0 10) 0x200000 0x1000 0 2048 7 5) 3 0 sample_header
    _ _ _ _ _ _ _ _ _ _ _).
  - apply mem_wf_mstore, mem_wf_empty.
  - discriminate.
  - vm_compute. discriminate.
  - vm_compute. reflexivity.
  - vm_compute. reflexivity.
  - vm_compute. discriminate.
  - vm_compute. reflexivity.
  - unfold sample_header. repeat constructor; cbn; done || lia.
  - vm_compute. reflexivity.
  - apply Forall_cons; split; [|by repeat constructor]. apply Forall_singleton.
    intros _. split; [vm_compute; discriminate|right; vm_compute; discriminate].
  - split; [cbn; lia|]. intros _. split; [vm_compute; discriminate|right; vm_compute; discriminate].
Defined.

Lemma slide_metadata_terminates_witness :
  (forall h, exists r, loop rounds32 (slide_command_step sample_ki 0x300000 0x100000 h)
     (0, h + 32, 0, sample_loaded) = inr r) /\
  (forall seg, exists r, loop rounds32 (slide_sections_step sample_ki 0x300000 0x100000 seg)
     (0, sample_loaded) = inr r) /\
  (forall p n, 0 <= n < 2 ^ 64 -> exists m',
     loop rounds64 (slide_pointers_step sample_ki 0x100000 p n) (0, sample_loaded) = inr m') /\
  (forall st p, exists m',
     loop rounds32 (slide_symbols_step sample_ki 0x100000 st p) (0, sample_loaded) = inr m').
Proof.
  refine (slide_metadata_terminates sample_ki 0x300000 0x100000 sample_loaded _).
  apply mem_wf_mstore, mem_wf_empty.
Defined.

Lemma slide_tables_exact_witness :
  (forall p n, 0 <= n < 2 ^ 64 ->
     let m' := slide_pointers sample_ki 0x100000 p n sample_mem in
     only_in p (8 * n) sample_mem m' /\
     forall i, 0 <= i < n ->
       mread m' (p + 8 * i) 8 = slid_pointer sample_ki 0x100000 (mread sample_mem (p + 8 * i) 8)) /\
  (forall st p, let n := mread sample_mem (st + 12) 4 in
     st + 16 <= p \/ p + 16 * n <= st + 12 ->
     let m' := slide_symbols sample_ki 0x100000 st p sample_mem in
     only_in p (16 * n) sample_mem m' /\
     forall i, 0 <= i < n ->
       mread m' (p + 16 * i + 8) 8 =
       slid_symbol sample_ki 0x100000 (mget sample_mem (p + 16 * i + 4))
         (mget sample_mem (p + 16 * i + 5)) (mread sample_mem (p + 16 * i + 8) 8)).
Proof.
  refine (slide_tables_exact sample_ki 0x100000 sample_mem _).
  apply mem_wf_mwrite, mem_wf_mwrite, mem_wf_empty.
Defined.
