(* ===== verification/BootText.v ===== *)
(** * Text and numbers in the boot loader: boot/efi/loader/src/bootx64.c

    The parts of the loader that need no firmware: the boot command line (its
    normalisation when it is read from a file, and the token test that selects
    kernel extensions), the console's number formatting, alignment and the
    clock calibration formula. A C string is the list of its characters before
    the NUL; writing outside a stack buffer is the value [None]. *)

From Stdlib Require Import ZArith Lia Ascii String.
From stdpp Require Import base list sets.
From S2P Require Import Prelude.

Open Scope Z_scope.

(** ** Constants *)
Definition PANTHERA_FSB_FREQUENCY_HZ : Z := 100000000.
Definition PANTHERA_TSC_CALIBRATION_USEC : Z := 100000.
Definition PANTHERA_MIN_CALIBRATED_FREQUENCY_HZ : Z := 10000000.
Definition PANTHERA_MAX_CALIBRATED_FREQUENCY_HZ : Z := 10000000000.
Definition PANTHERA_DEFAULT_BOOT_ARGS : list Z := str "serial=3 dataconstro=0 kernelmanagerd=0".

(** sizeof(gBootCommandLine). *)
Definition command_line_size : Z := 1024.

(** ** Strings *)
Fixpoint panthera_ascii_length (text : list Z) : Z :=
  match text with
  | [] => 0
  | c :: text' => if c =? 0 then 0 else 1 + panthera_ascii_length text'
  end.

Definition panthera_ascii_is_space (c : Z) : bool :=
  (c =? 32) || (c =? 9) || (c =? 13) || (c =? 10).

(** [panthera_copy_ascii(dst, dst_size, src)]: what [dst] holds before its NUL. *)
Fixpoint copy_ascii_loop (dst_size index : Z) (src : list Z) : list Z :=
  match src with
  | [] => []
  | c :: src' =>
      if negb (c =? 0) && (index + 1 <? dst_size)
      then c :: copy_ascii_loop dst_size (index + 1) src' else []
  end.

Definition panthera_copy_ascii (dst_size : Z) (src : list Z) : list Z :=
  copy_ascii_loop dst_size 0 src.

(** ** panthera_command_line_has_token *)
Fixpoint skip_spaces (cursor : list Z) : list Z :=
  match cursor with
  | [] => []
  | c :: cursor' => if panthera_ascii_is_space c then skip_spaces cursor' else cursor
  end.

Fixpoint skip_token (cursor : list Z) : list Z :=
  match cursor with
  | [] => []
  | c :: cursor' =>
      if negb (c =? 0) && negb (panthera_ascii_is_space c) then skip_token cursor' else cursor
  end.

(** The loop [while (index < token_length && token_start[index] == token[index])]. *)
Fixpoint match_length (token_start token : list Z) : Z :=
  match token with
  | [] => 0
  | t :: token' =>
      if deref token_start =? t then 1 + match_length (tail token_start) token' else 0
  end.

(** Every round moves the cursor past a token, so one round per character and
    one more are enough. *)
Fixpoint has_token_loop (fuel : nat) (cursor token : list Z) : bool :=
  match fuel with
  | O => false
  | S fuel' =>
      if deref cursor =? 0 then false
      else
        let token_start := skip_spaces cursor in
        if deref token_start =? 0 then false
        else
          let cursor := skip_token token_start in
          let index := match_length token_start token in
          if (index =? panthera_ascii_length token)
             && (index =? Z.of_nat (length token_start) - Z.of_nat (length cursor))
          then true
          else has_token_loop fuel' cursor token
  end.

Definition panthera_command_line_has_token (command_line token : list Z) : bool :=
  if panthera_ascii_length token =? 0 then false
  else has_token_loop (S (length command_line)) command_line token.

(** ** panthera_load_boot_command_line: the text of a boot-args file *)

(** The copy loop: [src] is [src + src_index], [dst] what was stored so far. *)
Fixpoint normalise_loop (src dst : list Z) (previous_was_space : bool) : list Z :=
  match src with
  | [] => dst
  | c :: src' =>
      if negb (Z.of_nat (length dst) + 1 <? command_line_size) then dst
      else
        let next := if c <? 0x20 then 32 else c in
        if next =? 32 then
          if previous_was_space then normalise_loop src' dst previous_was_space
          else normalise_loop src' (dst ++ [next]) true
        else normalise_loop src' (dst ++ [next]) false
  end.

(** [while (dst_index > 0 && gBootCommandLine[dst_index - 1] == ' ') dst_index--],
    on the reversed text. *)
Fixpoint drop_spaces (rev_dst : list Z) : list Z :=
  match rev_dst with
  | [] => []
  | c :: r => if c =? 32 then drop_spaces r else rev_dst
  end.

Definition trim_end (dst : list Z) : list Z := rev (drop_spaces (rev dst)).

Definition normalise (src : list Z) : list Z := trim_end (normalise_loop src [] true).

(** The command line after the file was read, and whether the file was used. *)
Definition boot_command_line (file : list Z) : list Z * bool :=
  let dst := normalise file in
  match dst with
  | [] => (panthera_copy_ascii command_line_size PANTHERA_DEFAULT_BOOT_ARGS, false)
  | _ => (dst, true)
  end.

(** ** Console text *)

(** [console_write_ascii]: CHAR16 buffer[192]. *)
Definition ascii_text (text : list Z) : list Z := copy_ascii_loop 192 0 text.

Definition hex_digit (d : Z) : Z := if d <? 10 then ch "0" + d else ch "a" + (d - 10).

(** The nibble loop, [n] nibbles left: shifts [4 (n-1)], ..., [4], [0]. *)
Fixpoint hex_digits (n : nat) (value : Z) : list Z :=
  match n with
  | O => []
  | S k => hex_digit (bits value (4 * Z.of_nat k) 4) :: hex_digits k value
  end.

(** [console_write_hex64]: [None] is EFI_OUT_OF_RESOURCES. *)
Definition hex64_text (label : list Z) (value : Z) : option (list Z) :=
  let prefix := copy_ascii_loop 96 0 label in
  let index := Z.of_nat (length prefix) in
  if 96 <=? index + 19 then None
  else Some (prefix ++ [ch "0"; ch "x"] ++ hex_digits 16 value ++ [13; 10]).

(** The digit loop: least significant digit first. *)
Fixpoint digit_loop (fuel : nat) (value : Z) : list Z :=
  match fuel with
  | O => []
  | S k => if value =? 0 then [] else (ch "0" + value mod 10) :: digit_loop k (value / 10)
  end.

Definition digits (value : Z) : list Z :=
  if value =? 0 then [ch "0"] else digit_loop 24 value.

(** [console_write_uint64]: CHAR16 buffer[96]; [None] is a store outside it. *)
Definition uint64_text (label : list Z) (value : Z) : option (list Z) :=
  let prefix := copy_ascii_loop 96 0 label in
  let room := 95 - Z.of_nat (length prefix) in
  let text := prefix ++ take (Z.to_nat room) (rev (digits value)) in
  if Z.of_nat (length text) + 2 <? 96 then Some (text ++ [13; 10]) else None.

(** ** Alignment *)
Definition panthera_align_4 (value : Z) : Z := Z.ldiff (value +64 3) 3.
Definition panthera_align_page (value : Z) : Z := Z.ldiff (value +64 4095) 4095.

(** ** panthera_calibrate_tsc_frequency

    [stalled] says whether the firmware's stall succeeded ([None] without one),
    [start] and [stop] are the time stamps around it. *)
Definition calibrated_frequency (stalled : option bool) (start stop : Z) : Z :=
  match stalled with
  | Some true =>
      if stop <=? start then PANTHERA_FSB_FREQUENCY_HZ
      else
        let delta := stop -64 start in
        let frequency := (delta *64 1000000) / PANTHERA_TSC_CALIBRATION_USEC in
        if (frequency <? PANTHERA_MIN_CALIBRATED_FREQUENCY_HZ)
           || (PANTHERA_MAX_CALIBRATED_FREQUENCY_HZ <? frequency)
        then PANTHERA_FSB_FREQUENCY_HZ else frequency
  | _ => PANTHERA_FSB_FREQUENCY_HZ
  end.

(** ** Specifications *)

(** The words of a line: maximal runs of characters other than separators. *)
Fixpoint words_from (sep : Z -> bool) (acc line : list Z) : list (list Z) :=
  match line with
  | [] => match acc with [] => [] | _ => [acc] end
  | c :: line' =>
      if sep c then match acc with
                    | [] => words_from sep [] line'
                    | _ => acc :: words_from sep [] line'
                    end
      else words_from sep (acc ++ [c]) line'
  end.

Definition words (sep : Z -> bool) (line : list Z) : list (list Z) := words_from sep [] line.

(** A boot-args file separates its words by bytes up to the space. *)
Definition file_separator (c : Z) : bool := c <=? 32.

(** Words joined by single spaces. *)
Fixpoint unwords (ws : list (list Z)) : list Z :=
  match ws with
  | [] => []
  | [w] => w
  | w :: ws' => w ++ 32 :: unwords ws'
  end.

(** The copy loop without the limit of the buffer. *)
Fixpoint squeeze (previous_was_space : bool) (src : list Z) : list Z :=
  match src with
  | [] => []
  | c :: src' =>
      if file_separator c then
        if previous_was_space then squeeze true src' else 32 :: squeeze true src'
      else c :: squeeze false src'
  end.

(** The value of a digit string in a base. *)
Definition digit_value (c : Z) : Z := if c <=? ch "9" then c - ch "0" else c - ch "a" + 10.
Definition numeral (base : Z) (ds : list Z) : Z :=
  fold_left (fun v d => base * v + digit_value d) ds 0.

(** ** Words *)
Section Words.
Variable sep : Z -> bool.

Lemma words_from_word acc w rest :
  Forall (fun c => sep c = false) w -> acc ++ w <> [] ->
  match rest with [] => True | c :: _ => sep c = true end ->
  words_from sep acc (w ++ rest) = (acc ++ w) :: words sep rest.
Proof.
  revert acc. induction w as [|c w IH]; intros acc Hw Hne Hr.
  - rewrite app_nil_r in *. cbn [app]. destruct acc as [|a acc]; [done|].
    destruct rest as [|c rest]; [done|]. cbn [words_from]. unfold words. by rewrite Hr; cbn; rewrite Hr.
  - apply Forall_cons in Hw as [Hc Hw]. cbn [app words_from]. rewrite Hc.
    rewrite IH; [|done| |done].
    + by rewrite <- (assoc_L (++)).
    + rewrite <- (assoc_L (++)). by destruct acc.
Qed.

Lemma words_word w rest :
  Forall (fun c => sep c = false) w -> w <> [] ->
  match rest with [] => True | c :: _ => sep c = true end ->
  words sep (w ++ rest) = w :: words sep rest.
Proof. intros. by apply (words_from_word [] w rest). Qed.

Lemma words_sep c line : sep c = true -> words sep (c :: line) = words sep line.
Proof. intros H. unfold words. cbn. by rewrite H. Qed.

(** The words are non-empty and free of separators. *)
Lemma words_from_clean acc line :
  Forall (fun c => sep c = false) acc ->
  Forall (fun w => w <> [] /\ Forall (fun c => sep c = false) w) (words_from sep acc line).
Proof.
  revert acc. induction line as [|c line IH]; intros acc Ha; cbn [words_from].
  - destruct acc; [done|]. by apply Forall_singleton.
  - destruct (sep c) eqn:E.
    + destruct acc; [by apply IH|]. apply Forall_cons. split; [done|]. by apply IH.
    + apply IH. apply Forall_app. split; [done|]. by apply Forall_singleton.
Qed.

(** Joining words with a separator and splitting again gives the words. *)
Lemma words_unwords ws :
  sep 32 = true -> Forall (fun w => w <> [] /\ Forall (fun c => sep c = false) w) ws ->
  words sep (unwords ws) = ws.
Proof.
  intros Hs. induction ws as [|w ws IH]; intros Hw; [done|].
  apply Forall_cons in Hw as [[Hne Hc] Hw]. cbn [unwords]. destruct ws as [|w' ws].
  - rewrite <- (app_nil_r w) at 1. by rewrite words_word.
  - rewrite words_word by done. rewrite words_sep by done. by rewrite IH.
Qed.
End Words.

(** ** The token test *)
Lemma words_skip_spaces p :
  words panthera_ascii_is_space (skip_spaces p) = words panthera_ascii_is_space p.
Proof.
  induction p as [|c p IH]; [done|]. cbn [skip_spaces].
  destruct (panthera_ascii_is_space c) eqn:E; [|done]. by rewrite words_sep, IH.
Qed.

Lemma skip_spaces_head p c q : skip_spaces p = c :: q -> panthera_ascii_is_space c = false.
Proof.
  induction p as [|d p IH]; [done|]. cbn [skip_spaces].
  destruct (panthera_ascii_is_space d) eqn:E; [done|]. by intros [= <- _].
Qed.

Lemma skip_spaces_length p : (length (skip_spaces p) <= length p)%nat.
Proof. induction p as [|c p IH]; cbn; [lia|]. case_match; cbn; lia. Qed.

Lemma skip_spaces_nonzero p : Forall (fun c => c <> 0) p -> Forall (fun c => c <> 0) (skip_spaces p).
Proof.
  induction 1 as [|c p Hc Hp IH]; cbn; [done|]. case_match; [done|]. by apply Forall_cons.
Qed.

(** What [skip_token] passes over is the next word. *)
Lemma skip_token_split p :
  Forall (fun c => c <> 0) p ->
  exists w, p = w ++ skip_token p /\ Forall (fun c => panthera_ascii_is_space c = false) w /\
    match skip_token p with [] => True | c :: _ => panthera_ascii_is_space c = true end.
Proof.
  induction 1 as [|c p Hc Hp IH]; cbn [skip_token]; [by exists []|].
  rewrite (proj2 (Z.eqb_neq c 0) Hc). cbn [negb andb].
  destruct (panthera_ascii_is_space c) eqn:E; cbn [negb].
  - exists []. by rewrite E.
  - destruct IH as (w & E1 & E2 & E3). exists (c :: w). cbn [app]. rewrite <- E1.
    split; [done|]. split; [by apply Forall_cons|done].
Qed.

Lemma match_length_range ts token : 0 <= match_length ts token <= Z.of_nat (length token).
Proof.
  revert ts. induction token as [|t token IH]; intros ts; cbn [match_length length]; [lia|].
  specialize (IH (tail ts)). case_match; lia.
Qed.

Lemma match_length_full ts token :
  Forall (fun c => c <> 0) token ->
  match_length ts token = Z.of_nat (length token) <-> exists r, ts = token ++ r.
Proof.
  revert ts. induction token as [|t token IH]; intros ts Ht; cbn [match_length length].
  - split; [by exists ts|done].
  - apply Forall_cons in Ht as [Ht0 Ht]. pose proof (match_length_range (tail ts) token) as Hr.
    destruct (Z.eqb_spec (deref ts) t) as [E|E].
    + destruct ts as [|c ts]; [by cbn in E|]. cbn in E. subst c. cbn [tail] in *.
      rewrite Nat2Z.inj_succ. split.
      * intros H. destruct (proj1 (IH ts Ht)) as [r ->]; [lia|]. by exists r.
      * intros [r [= ->]]. rewrite (proj2 (IH _ Ht)); [lia|]. by exists r.
    + rewrite Nat2Z.inj_succ. split; [lia|]. intros [r ->]. by cbn in E.
Qed.

Lemma ascii_length_nonzero t :
  Forall (fun c => c <> 0) t -> panthera_ascii_length t = Z.of_nat (length t).
Proof.
  induction 1 as [|c t Hc Ht IH]; [done|]. cbn [panthera_ascii_length length].
  rewrite (proj2 (Z.eqb_neq c 0) Hc), IH. lia.
Qed.

(** The comparison of one word of the line with the token. *)
Lemma match_word w rest token :
  Forall (fun c => c <> 0) token ->
  Forall (fun c => panthera_ascii_is_space c = false) w ->
  (match_length (w ++ rest) token =? Z.of_nat (length token)) &&
  (match_length (w ++ rest) token =? Z.of_nat (length (w ++ rest)) - Z.of_nat (length rest))
  = bool_decide (token = w).
Proof.
  intros Ht Hw. rewrite length_app.
  destruct (Z.eqb_spec (match_length (w ++ rest) token) (Z.of_nat (length token))) as [E|E]; cbn [andb].
  - apply (match_length_full _ _ Ht) in E as E'. destruct E' as [r Er]. rewrite E.
    destruct (bool_decide_reflect (token = w)) as [->|Hne]; [apply Z.eqb_eq; lia|].
    apply Z.eqb_neq. intros HL. apply Hne.
    by destruct (app_inj_1 w token rest r ltac:(lia) Er).
  - symmetry. apply bool_decide_eq_false. intros ->. apply E.
    apply match_length_full; [done|]. by exists rest.
Qed.

Lemma has_token_loop_spec fuel p token :
  (length p < fuel)%nat -> Forall (fun c => c <> 0) p -> Forall (fun c => c <> 0) token ->
  has_token_loop fuel p token = bool_decide (token ∈ words panthera_ascii_is_space p).
Proof.
  revert p. induction fuel as [|fuel IH]; intros p Hf Hp Ht; [lia|]. cbn [has_token_loop].
  assert (Hnil : bool_decide (token ∈ words panthera_ascii_is_space []) = false)
    by (apply bool_decide_eq_false; cbn; set_solver).
  destruct p as [|c0 p0]; [by rewrite Hnil|].
  cbn [deref]. rewrite (proj2 (Z.eqb_neq c0 0)) by (by apply Forall_cons in Hp as [? _]).
  rewrite <- words_skip_spaces. pose proof (skip_spaces_nonzero _ Hp) as Hq.
  pose proof (skip_spaces_length (c0 :: p0)) as Hl. pose proof (skip_spaces_head (c0 :: p0)) as Hh.
  destruct (skip_spaces (c0 :: p0)) as [|c q]; [by rewrite Hnil|]. specialize (Hh c q eq_refl).
  cbn [deref]. rewrite (proj2 (Z.eqb_neq c 0)) by (by apply Forall_cons in Hq as [? _]).
  destruct (skip_token_split _ Hq) as (w & E & Hw & Hr).
  set (rest := skip_token (c :: q)) in *. clearbody rest.
  assert (Hne : w <> []).
  { intros ->. rewrite app_nil_l in E. rewrite <- E in Hr. by rewrite Hh in Hr. }
  rewrite E. rewrite ascii_length_nonzero, match_word, words_word by done.
  assert (Hrest : (length rest < fuel)%nat).
  { apply (f_equal length) in E. rewrite length_app in E. destruct w; [done|]. cbn in *. lia. }
  rewrite IH; [|done| |done].
  2:{ rewrite E in Hq. by apply Forall_app in Hq as [_ ?]. }
  destruct (bool_decide_reflect (token = w)) as [->|Hne'].
  - symmetry. apply bool_decide_eq_true. set_solver.
  - apply bool_decide_ext. rewrite elem_of_cons. tauto.
Qed.

Lemma has_token_words command_line token :
  Forall (fun c => c <> 0) command_line -> Forall (fun c => c <> 0) token ->
  panthera_command_line_has_token command_line token =
  bool_decide (token ∈ words panthera_ascii_is_space command_line).
Proof.
  intros Hc Ht. unfold panthera_command_line_has_token. rewrite ascii_length_nonzero by done.
  destruct (Z.eqb_spec (Z.of_nat (length token)) 0) as [E|E].
  - symmetry. apply bool_decide_eq_false. intros Hin. destruct token; [|done].
    pose proof (words_from_clean panthera_ascii_is_space [] command_line ltac:(done)) as Hw.
    rewrite Forall_forall in Hw. by apply Hw in Hin as [? _].
  - apply has_token_loop_spec; [lia|done|done].
Qed.

(** On strings without embedded NULs the token test is exactly membership
    of the token among the blank-separated words of the command line. *)
Theorem command_line_has_token_spec (command_line token : list Z) :
  Forall (fun c => c <> 0) command_line -> Forall (fun c => c <> 0) token ->
  panthera_command_line_has_token command_line token =
  bool_decide (token ∈ words panthera_ascii_is_space command_line).
Proof. apply has_token_words. Qed.

Lemma command_line_has_token_spec_witness :
  panthera_command_line_has_token (str "serial=3 panthera_zfs=1") (str "panthera_zfs=1") =
  bool_decide (str "panthera_zfs=1" ∈ words panthera_ascii_is_space (str "serial=3 panthera_zfs=1")).
Proof.
  apply command_line_has_token_spec; apply (bool_decide_unpack _); vm_compute; exact I.
Defined.

(** ** Normalising a boot-args file *)
Lemma normalise_loop_squeeze src dst prev :
  (length dst <= 1023)%nat ->
  normalise_loop src dst prev = take 1023 (dst ++ squeeze prev src).
Proof.
  revert dst prev. induction src as [|c src IH]; intros dst prev Hd; cbn [normalise_loop squeeze].
  - rewrite app_nil_r, take_ge by lia. done.
  - unfold command_line_size, file_separator. destruct (Z.ltb_spec (Z.of_nat (length dst) + 1) 1024); cbn [negb].
    + assert (Hnext : forall x, (length (dst ++ [x]) <= 1023)%nat) by (intros; rewrite length_app; cbn; lia).
      assert (Happ : forall x l, dst ++ x :: l = (dst ++ [x]) ++ l) by (intros; by rewrite <- (assoc_L (++))).
      destruct (Z.ltb_spec c 32); cbn [Z.eqb Pos.eqb].
      * rewrite (proj2 (Z.leb_le c 32)) by lia. destruct prev; [by apply IH|]. by rewrite (Happ _ (squeeze _ _)), IH.
      * destruct (Z.eqb_spec c 32) as [->|]; cbn [Z.leb Z.compare Pos.compare Pos.compare_cont].
        -- destruct prev; [by apply IH|]. by rewrite (Happ _ (squeeze _ _)), IH.
        -- rewrite (proj2 (Z.leb_gt c 32)) by lia. by rewrite (Happ _ (squeeze _ _)), IH.
    + assert (E : length dst = 1023%nat) by lia. rewrite take_app_le by lia. by rewrite take_ge by lia.
Qed.

(** A single space may follow the joined words. *)
Definition maybe_space (l : list Z) : Prop := l = [] \/ l = [32].

Lemma unwords_cons w ws : ws <> [] -> unwords (w :: ws) = w ++ 32 :: unwords ws.
Proof. by destruct ws. Qed.

Lemma words_from_nonempty sep acc line : acc <> [] -> words_from sep acc line <> [].
Proof.
  revert acc. induction line as [|c line IH]; intros acc Ha; cbn; [by destruct acc|].
  case_match; [by destruct acc|]. apply IH. by destruct acc.
Qed.

Lemma squeeze_unwords src :
  (exists tl, maybe_space tl /\ squeeze true src = unwords (words file_separator src) ++ tl /\
     (words file_separator src = [] -> tl = [])) /\
  (forall acc, acc <> [] -> exists tl, maybe_space tl /\
     acc ++ squeeze false src = unwords (words_from file_separator acc src) ++ tl).
Proof.
  induction src as [|c src [(tl & Htl & IH1 & IH0) IH2]]; cbn [squeeze].
  - split; [by exists []; split; [left|]|]. intros acc Ha. exists []. split; [by left|].
    cbn. by destruct acc.
  - destruct (file_separator c) eqn:Ec.
    + rewrite words_sep by done. split; [by exists tl|]. intros acc Ha. cbn [words_from]. rewrite Ec.
      destruct acc as [|a acc]; [done|]. fold (words file_separator src). rewrite IH1.
      destruct (words file_separator src) as [|w ws] eqn:Ew.
      * rewrite IH0 by done. exists [32]. split; [by right|]. done.
      * exists tl. split; [done|]. rewrite (unwords_cons (a :: acc)) by done. by rewrite <- (assoc_L (++)).
    + split.
      * destruct (IH2 [c]) as (tl2 & Ht2 & E2); [done|]. exists tl2. split; [done|].
        unfold words. cbn [words_from]. rewrite Ec. cbn [app] in E2 |- *. split; [done|].
        intros Hn. by apply words_from_nonempty in Hn.
      * intros acc Ha. cbn [words_from]. rewrite Ec.
        destruct (IH2 (acc ++ [c])) as (tl2 & Ht2 & E2); [by destruct acc|].
        exists tl2. split; [done|]. by rewrite <- E2, <- (assoc_L (++)).
Qed.

Lemma trim_end_space l : trim_end (l ++ [32]) = trim_end l.
Proof. unfold trim_end. by rewrite rev_unit. Qed.

Lemma trim_end_last l c : c <> 32 -> trim_end (l ++ [c]) = l ++ [c].
Proof.
  intros Hc. unfold trim_end. rewrite rev_unit. cbn [drop_spaces].
  rewrite (proj2 (Z.eqb_neq c 32) Hc). cbn. by rewrite rev_involutive.
Qed.

Lemma trim_take_space n u tl :
  maybe_space tl -> trim_end (take n (u ++ tl)) = trim_end (take n u).
Proof.
  intros [->| ->]; [by rewrite app_nil_r|].
  destruct (decide (n <= length u)%nat); [by rewrite take_app_le|].
  rewrite !take_ge by (rewrite ?length_app; cbn; lia). apply trim_end_space.
Qed.

Lemma drop_spaces_Forall (P : Z -> Prop) l : Forall P l -> Forall P (drop_spaces l).
Proof. induction 1; cbn; [done|]. case_match; [done|]. by apply Forall_cons. Qed.

Lemma drop_spaces_length l : (length (drop_spaces l) <= length l)%nat.
Proof. induction l; cbn; [lia|]. case_match; cbn; lia. Qed.

Lemma trim_end_Forall (P : Z -> Prop) l : Forall P l -> Forall P (trim_end l).
Proof. intros H. unfold trim_end. apply Forall_rev, drop_spaces_Forall. by apply Forall_rev. Qed.

Lemma trim_end_length l : (length (trim_end l) <= length l)%nat.
Proof.
  unfold trim_end. rewrite length_rev. etransitivity; [apply drop_spaces_length|].
  by rewrite length_rev.
Qed.

(** The words of a file consist of characters above the space. *)
Definition clean_words (ws : list (list Z)) : Prop :=
  Forall (fun w => w <> [] /\ Forall (fun c => file_separator c = false) w) ws.

Lemma file_words_clean file : clean_words (words file_separator file).
Proof. by apply words_from_clean. Qed.

Lemma file_separator_false c : file_separator c = false -> 32 < c.
Proof. unfold file_separator. by intros ?%Z.leb_gt. Qed.

Lemma unwords_chars ws : clean_words ws -> Forall (fun c => 32 <= c) (unwords ws).
Proof.
  induction ws as [|w ws IH]; intros Hw; [done|]. apply Forall_cons in Hw as [[_ Hc] Hw].
  assert (Hc' : Forall (fun c => 32 <= c) w).
  { eapply Forall_impl; [exact Hc|]. intros c ?%file_separator_false. lia. }
  cbn [unwords]. destruct ws as [|w' ws]; [done|]. apply Forall_app. split; [done|].
  apply Forall_cons. split; [lia|]. by apply IH.
Qed.

(** Joined words end in a character of a word. *)
Lemma trim_unwords ws : clean_words ws -> trim_end (unwords ws) = unwords ws.
Proof.
  induction ws as [|w ws IH]; intros Hw; [done|]. apply Forall_cons in Hw as [[Hne Hc] Hw].
  cbn [unwords]. destruct ws as [|w' ws].
  - destruct (exists_last Hne) as (l & c & ->). apply trim_end_last.
    apply Forall_app in Hc as [_ [?%file_separator_false _]%Forall_cons]. lia.
  - specialize (IH Hw).
    assert (Hu : unwords (w' :: ws) <> []).
    { apply Forall_cons in Hw as [[Hw' _] _]. destruct w'; [done|]. by destruct ws. }
    destruct (exists_last Hu) as (l & c & E). rewrite E in *.
    assert (c <> 32).
    { intros ->. rewrite trim_end_space in IH. apply (f_equal length) in IH.
      pose proof (trim_end_length l). rewrite length_app in IH. cbn in IH. lia. }
    rewrite app_comm_cons, (assoc_L (++)). by apply trim_end_last.
Qed.

(** A boot-args file becomes its words joined by single spaces, cut at the
    1023 characters the buffer holds and with trailing spaces removed; so the
    stored line never overflows and has no control characters. *)
Theorem normalise_spec (file : list Z) :
  normalise file = trim_end (take 1023 (unwords (words file_separator file))) /\
  (length (normalise file) <= 1023)%nat /\ Forall (fun c => 32 <= c) (normalise file).
Proof.
  assert (E : normalise file = trim_end (take 1023 (unwords (words file_separator file)))).
  { unfold normalise. rewrite normalise_loop_squeeze by (cbn; lia). cbn [app].
    destruct (squeeze_unwords file) as [(tl & Htl & -> & _) _]. by apply trim_take_space. }
  split; [done|]. rewrite E. split.
  - etransitivity; [apply trim_end_length|]. rewrite length_take. lia.
  - apply trim_end_Forall, Forall_take, unwords_chars, file_words_clean.
Qed.

Lemma boot_command_line_bytes file : Forall byte file -> Forall byte (boot_command_line file).1.
Proof.
  intros Hf.
  assert (Hl : forall src dst prev, Forall byte src -> Forall byte dst ->
    Forall byte (normalise_loop src dst prev)).
  { induction src as [|c src IH]; intros dst prev Hs Hd; [done|]. cbn [normalise_loop].
    apply Forall_cons in Hs as [Hc Hs].
    assert (Hn : Forall byte (dst ++ [if c <? 32 then 32 else c])).
    { apply Forall_app. split; [done|]. repeat constructor. all: case_match; unfold byte in *; lia. }
    repeat case_match; auto. }
  unfold boot_command_line. pose proof (trim_end_Forall byte _ (Hl file [] true Hf (Forall_nil_2 _))) as Hn.
  change (trim_end (normalise_loop file [] true)) with (normalise file) in Hn.
  destruct (normalise file); [|done]. apply (bool_decide_unpack _). vm_compute. exact I.
Qed.

Lemma normalise_fits file :
  (length (unwords (words file_separator file)) <= 1023)%nat ->
  normalise file = unwords (words file_separator file).
Proof.
  intros Hl. unfold normalise. rewrite normalise_loop_squeeze by (cbn; lia). cbn [app].
  destruct (squeeze_unwords file) as [(tl & Htl & -> & _) _]. rewrite trim_take_space by done.
  rewrite take_ge by lia. apply trim_unwords, file_words_clean.
Qed.

(** C19. A word of a boot-args file that fits the buffer is a token of the
    resulting command line and nothing else is: the selection of optional
    kernel extensions sees exactly the words of the file. *)
Theorem boot_args_tokens (file token : list Z) :
  words file_separator file <> [] ->
  (length (unwords (words file_separator file)) <= 1023)%nat ->
  Forall (fun c => c <> 0) token ->
  (boot_command_line file).2 = true /\
  panthera_command_line_has_token (boot_command_line file).1 token =
  bool_decide (token ∈ words file_separator file).
Proof.
  intros Hw Hl Ht. unfold boot_command_line. rewrite normalise_fits by done.
  pose proof (file_words_clean file) as Hc. pose proof (unwords_chars _ Hc) as Hu.
  set (ws := words file_separator file) in *. clearbody ws.
  assert (Hs : words panthera_ascii_is_space (unwords ws) = ws).
  { apply words_unwords; [done|]. eapply Forall_impl; [exact Hc|]. intros w [Hne Hf].
    split; [done|]. eapply Forall_impl; [exact Hf|]. intros c Hx%file_separator_false.
    unfold panthera_ascii_is_space. rewrite !(proj2 (Z.eqb_neq _ _)) by lia. done. }
  destruct (unwords ws) as [|c u] eqn:Eu.
  - exfalso. apply Hw. by rewrite <- Hs.
  - cbn [fst snd]. split; [done|]. rewrite has_token_words, Hs; [done| |done].
    eapply Forall_impl; [exact Hu|]. intros x Hx. cbn in *. lia.
Qed.

Lemma boot_args_tokens_witness :
  (boot_command_line (10 :: str "debug=0x14  panthera_zfs=1" ++ [13; 10])).2 = true /\
  panthera_command_line_has_token
    (boot_command_line (10 :: str "debug=0x14  panthera_zfs=1" ++ [13; 10])).1 (str "panthera_zfs=1") =
  bool_decide (str "panthera_zfs=1" ∈
    words file_separator (10 :: str "debug=0x14  panthera_zfs=1" ++ [13; 10])).
Proof.
  apply boot_args_tokens.
  - vm_compute. discriminate.
  - vm_compute. lia.
  - apply (bool_decide_unpack _). vm_compute. exact I.
Defined.

(** ** Console numbers *)
Lemma numeral_from b ds v :
  fold_left (fun v d => b * v + digit_value d) ds v =
  v * b ^ Z.of_nat (length ds) + numeral b ds.
Proof.
  unfold numeral. revert v. induction ds as [|d ds IH]; intros v; cbn [fold_left length].
  - rewrite Z.pow_0_r. lia.
  - rewrite IH, (IH (b * 0 + _)). rewrite Nat2Z.inj_succ, Z.pow_succ_r by lia. ring.
Qed.

Lemma numeral_cons b d ds :
  numeral b (d :: ds) = digit_value d * b ^ Z.of_nat (length ds) + numeral b ds.
Proof. unfold numeral at 1. cbn [fold_left]. rewrite numeral_from. ring. Qed.

Lemma numeral_snoc b ds d : numeral b (ds ++ [d]) = b * numeral b ds + digit_value d.
Proof. unfold numeral. by rewrite fold_left_app. Qed.

Lemma digit_value_hex d : 0 <= d < 16 -> digit_value (hex_digit d) = d.
Proof.
  intros H. unfold hex_digit, digit_value. change (ch "0") with 48. change (ch "9") with 57.
  change (ch "a") with 97. destruct (Z.ltb_spec d 10).
  - rewrite (proj2 (Z.leb_le _ _)) by lia. lia.
  - rewrite (proj2 (Z.leb_gt _ _)) by lia. lia.
Qed.

Lemma length_hex_digits n v : length (hex_digits n v) = n.
Proof. induction n as [|n IH]; cbn; [done|]. by rewrite IH. Qed.

Lemma hex_digits_value n v : 0 <= v -> numeral 16 (hex_digits n v) = v mod 16 ^ Z.of_nat n.
Proof.
  intros Hv. induction n as [|n IH]; cbn [hex_digits].
  - by rewrite Z.mod_1_r.
  - rewrite numeral_cons, length_hex_digits, IH, bits_mod by lia.
    change (2 ^ 4) with 16. replace (2 ^ (4 * Z.of_nat n)) with (16 ^ Z.of_nat n)
      by (rewrite Z.pow_mul_r by lia; done).
    rewrite digit_value_hex by (apply Z.mod_pos_bound; lia).
    rewrite Nat2Z.inj_succ, Z.pow_succ_r, (Z.mul_comm 16) by lia.
    rewrite Z.rem_mul_r; lia.
Qed.

Lemma digit_value_dec d : 0 <= d < 10 -> digit_value (ch "0" + d) = d.
Proof.
  intros H. unfold digit_value. change (ch "0") with 48. change (ch "9") with 57.
  rewrite (proj2 (Z.leb_le _ _)) by lia. lia.
Qed.

Lemma digit_loop_value fuel v :
  0 <= v < 10 ^ Z.of_nat fuel -> numeral 10 (rev (digit_loop fuel v)) = v.
Proof.
  revert v. induction fuel as [|fuel IH]; intros v Hv; cbn [digit_loop].
  - cbn in *. lia.
  - rewrite Nat2Z.inj_succ, Z.pow_succ_r in Hv by lia.
    destruct (Z.eqb_spec v 0) as [->|]; [done|]. cbn [rev].
    pose proof (Z.div_mod v 10 ltac:(lia)). pose proof (Z.mod_pos_bound v 10 ltac:(lia)).
    rewrite numeral_snoc, digit_value_dec, IH by lia. lia.
Qed.

Lemma digit_loop_length fuel k v :
  0 <= v < 10 ^ Z.of_nat k -> (length (digit_loop fuel v) <= k)%nat.
Proof.
  revert k v. induction fuel as [|fuel IH]; intros k v Hv; cbn [digit_loop]; [cbn; lia|].
  destruct (Z.eqb_spec v 0); [cbn; lia|]. destruct k as [|k]; [cbn in Hv; lia|].
  rewrite Nat2Z.inj_succ, Z.pow_succ_r in Hv by lia.
  pose proof (Z.div_mod v 10 ltac:(lia)). pose proof (Z.mod_pos_bound v 10 ltac:(lia)).
  cbn [length]. specialize (IH k (v / 10) ltac:(lia)). lia.
Qed.

Lemma digits_value v :
  0 <= v < 2 ^ 64 -> numeral 10 (rev (digits v)) = v /\ (length (digits v) <= 20)%nat.
Proof.
  intros Hv. unfold digits. destruct (Z.eqb_spec v 0) as [->|].
  - split; [done|]. cbn. lia.
  - split; [apply digit_loop_value|apply digit_loop_length]; cbn; lia.
Qed.

Lemma copy_ascii_fits n i l :
  Forall (fun c => c <> 0) l -> i + Z.of_nat (length l) < n -> copy_ascii_loop n i l = l.
Proof.
  intros H. revert i. induction H as [|c l Hc Hl IH]; intros i Hi; [done|].
  cbn [copy_ascii_loop length] in *. rewrite (proj2 (Z.eqb_neq c 0) Hc), (proj2 (Z.ltb_lt _ _)) by lia.
  cbn [negb andb]. by rewrite IH by lia.
Qed.

Lemma copy_ascii_length n i l :
  Forall (fun c => c <> 0) l -> 0 <= i < n ->
  Z.of_nat (length (copy_ascii_loop n i l)) = Z.min (Z.of_nat (length l)) (n - 1 - i).
Proof.
  intros H. revert i. induction H as [|c l Hc Hl IH]; intros i Hi; cbn [copy_ascii_loop length]; [lia|].
  rewrite (proj2 (Z.eqb_neq c 0) Hc). cbn [negb andb].
  destruct (Z.ltb_spec (i + 1) n); cbn [length]; [rewrite Nat2Z.inj_succ, IH; lia|lia].
Qed.

Lemma copy_ascii_bound n i l :
  0 <= i < n -> Z.of_nat (length (copy_ascii_loop n i l)) <= n - 1 - i /\
  forall P : Z -> Prop, Forall P l -> Forall P (copy_ascii_loop n i l).
Proof.
  revert i. induction l as [|c l IH]; intros i Hi; cbn [copy_ascii_loop length]; [split; [lia|done]|].
  destruct (negb (c =? 0)), (Z.ltb_spec (i + 1) n); cbn [andb length]; try (split; [lia|done]).
  destruct (IH (i + 1) ltac:(lia)) as [IH1 IH2]. split; [lia|].
  intros P HP. apply Forall_cons in HP as [? ?]. constructor; auto.
Qed.

(** The console prints numbers that read back as the value: sixteen
    hexadecimal digits or at most twenty decimal digits after the label. A label
    of up to 73 characters leaves room for any decimal number in the stack
    buffer, and a hexadecimal print refuses labels of more than 76 characters. *)
Theorem console_numbers (label : list Z) (value : Z) :
  Forall (fun c => c <> 0) label -> 0 <= value < 2 ^ 64 ->
  ((length label <= 76)%nat -> exists ds, numeral 16 ds = value /\ length ds = 16%nat /\
     hex64_text label value = Some (label ++ [ch "0"; ch "x"] ++ ds ++ [13; 10])) /\
  ((76 < length label)%nat -> hex64_text label value = None) /\
  ((length label <= 73)%nat -> exists ds, numeral 10 ds = value /\ (length ds <= 20)%nat /\
     uint64_text label value = Some (label ++ ds ++ [13; 10])).
Proof.
  intros Hl Hv. unfold hex64_text, uint64_text. split; [|split].
  - intros Hn. exists (hex_digits 16 value). rewrite hex_digits_value, copy_ascii_fits by (done || lia).
    rewrite (proj2 (Z.leb_gt _ _)) by lia. split; [by apply Z.mod_small|].
    split; [apply length_hex_digits|done].
  - intros Hn. rewrite copy_ascii_length by (done || lia). by rewrite (proj2 (Z.leb_le _ _)) by lia.
  - intros Hn. destruct (digits_value value Hv) as [Hd Hld]. exists (rev (digits value)).
    rewrite copy_ascii_fits by (done || lia).
    rewrite take_ge by (rewrite length_rev; lia). rewrite length_app, length_rev.
    rewrite (proj2 (Z.ltb_lt _ _)) by lia. by rewrite <- (assoc_L (++)).
Qed.

Lemma console_numbers_witness :
  ((length (str "Kernel entry PC: ") <= 76)%nat -> exists ds, numeral 16 ds = 0xffffff8000200010 /\
     length ds = 16%nat /\ hex64_text (str "Kernel entry PC: ") 0xffffff8000200010 =
       Some (str "Kernel entry PC: " ++ [ch "0"; ch "x"] ++ ds ++ [13; 10])) /\
  ((76 < length (str "Kernel entry PC: "))%nat ->
     hex64_text (str "Kernel entry PC: ") 0xffffff8000200010 = None) /\
  ((length (str "Kernel entry PC: ") <= 73)%nat -> exists ds, numeral 10 ds = 0xffffff8000200010 /\
     (length ds <= 20)%nat /\ uint64_text (str "Kernel entry PC: ") 0xffffff8000200010 =
       Some (str "Kernel entry PC: " ++ ds ++ [13; 10])).
Proof.
  apply (console_numbers (str "Kernel entry PC: ") 0xffffff8000200010).
  - apply (bool_decide_unpack _). vm_compute. exact I.
  - lia.
Defined.

(** ** Alignment *)
Lemma ldiff_ones v n : 0 <= n -> Z.ldiff v (Z.ones n) = v - v mod 2 ^ n.
Proof.
  intros Hn. rewrite Z.ldiff_ones_r, Z.shiftl_mul_pow2, Z.shiftr_div_pow2 by lia.
  pose proof (Z.div_mod v (2 ^ n) ltac:(lia)). lia.
Qed.

Lemma align_page_spec v :
  0 <= v <= 2 ^ 64 - 4096 ->
  v <= panthera_align_page v < v + 4096 /\ panthera_align_page v mod 4096 = 0.
Proof.
  intros Hv. unfold panthera_align_page. wrap_tac. change 4095 with (Z.ones 12) at 2 4 6.
  rewrite ldiff_ones by lia. change (2 ^ 12) with 4096.
  pose proof (Z.mod_pos_bound (v + 4095) 4096 ltac:(lia)).
  pose proof (Z.div_mod (v + 4095) 4096 ltac:(lia)). split; [lia|].
  replace (v + 4095 - (v + 4095) mod 4096) with (((v + 4095) / 4096) * 4096) by lia.
  apply Z.mod_mul. lia.
Qed.

Lemma align_4_spec v :
  0 <= v <= 2 ^ 64 - 4 -> v <= panthera_align_4 v < v + 4 /\ panthera_align_4 v mod 4 = 0.
Proof.
  intros Hv. unfold panthera_align_4. wrap_tac. change 3 with (Z.ones 2) at 2 4 6.
  rewrite ldiff_ones by lia. change (2 ^ 2) with 4.
  pose proof (Z.mod_pos_bound (v + 3) 4 ltac:(lia)).
  pose proof (Z.div_mod (v + 3) 4 ltac:(lia)). split; [lia|].
  replace (v + 3 - (v + 3) mod 4) with (((v + 3) / 4) * 4) by lia. apply Z.mod_mul. lia.
Qed.

(** The calibrated clock frequency is always between 10 MHz and 10 GHz: it
    is ten times the counted cycles of the tenth of a second when that lies in
    the range, and the 100 MHz default otherwise. *)
Theorem calibrated_frequency_range (stalled : option bool) (start stop : Z) :
  0 <= start < 2 ^ 64 -> 0 <= stop < 2 ^ 64 ->
  let f := calibrated_frequency stalled start stop in
  PANTHERA_MIN_CALIBRATED_FREQUENCY_HZ <= f <= PANTHERA_MAX_CALIBRATED_FREQUENCY_HZ /\
  (stalled = Some true -> start < stop -> stop - start < 10 ^ 12 ->
   f = if bool_decide (10000000 <= 10 * (stop - start) <= 10000000000)
       then 10 * (stop - start) else PANTHERA_FSB_FREQUENCY_HZ).
Proof.
  intros Hs He. unfold calibrated_frequency, PANTHERA_FSB_FREQUENCY_HZ,
    PANTHERA_MIN_CALIBRATED_FREQUENCY_HZ, PANTHERA_MAX_CALIBRATED_FREQUENCY_HZ,
    PANTHERA_TSC_CALIBRATION_USEC. split.
  - repeat case_match; lia.
  - intros -> Hlt Hd. rewrite (proj2 (Z.leb_gt _ _)) by lia. wrap_tac.
    replace ((stop - start) * 1000000) with ((10 * (stop - start)) * 100000) by lia.
    rewrite Z.div_mul by lia. case_bool_decide as Hb.
    + by rewrite !(proj2 (Z.ltb_ge _ _)) by lia.
    + destruct (Z.ltb_spec (10 * (stop - start)) 10000000); cbn [orb]; [done|].
      by rewrite (proj2 (Z.ltb_lt _ _)) by lia.
Qed.

Lemma calibrated_frequency_range_witness :
  let f := calibrated_frequency (Some true) 5 300000005 in
  PANTHERA_MIN_CALIBRATED_FREQUENCY_HZ <= f <= PANTHERA_MAX_CALIBRATED_FREQUENCY_HZ /\
  (Some true = Some true -> 5 < 300000005 -> 300000005 - 5 < 10 ^ 12 ->
   f = if bool_decide (10000000 <= 10 * (300000005 - 5) <= 10000000000)
       then 10 * (300000005 - 5) else PANTHERA_FSB_FREQUENCY_HZ).
Proof. apply (calibrated_frequency_range (Some true) 5 300000005); lia. Defined.
