(* ===== verification/KextManifest.v ===== *)
(** * The boot kernel extensions: boot/efi/loader/src/bootx64.c

    The table of kernel extensions the loader stages for the kernel, with the
    boot argument an entry may require, and the entries a command line enables. *)

From Stdlib Require Import ZArith Lia Ascii String.
From stdpp Require Import base list.
From S2P Require Import Prelude BootText.

Open Scope Z_scope.

Definition PANTHERA_MAX_BOOT_KEXTS : nat := 34.

(** A null pointer is [None]; the 32-byte driver name is its text. *)
Record PantheraBootKextManifestEntry := mkEntry {
  bundle_name : option (list Z);
  bundle_path : list Z;
  info_path : option (list Z);
  executable_path : option (list Z);
  manifest_driver_name : list Z;
  required_boot_arg : option (list Z) }.

(** The zero-initialised entry that ends the table. *)
Definition null_entry : PantheraBootKextManifestEntry := mkEntry None [] None None [] None.

Definition manifest_first : list PantheraBootKextManifestEntry := [
  mkEntry (Some (str "SystemKernel")) (str "/System/Library/Extensions/System.kext")
    (Some (str "\System\Library\Extensions\System.kext\Info.plist"))
    None
    (str "Driver-SystemKernel") None;
  mkEntry (Some (str "BSDKernel")) (str "/System/Library/Extensions/System.kext/PlugIns/BSDKernel.kext")
    (Some (str "\System\Library\Extensions\System.kext\PlugIns\BSDKernel.kext\Info.plist"))
    None
    (str "Driver-BSDKernel") None;
  mkEntry (Some (str "IOKitKPI")) (str "/System/Library/Extensions/System.kext/PlugIns/IOKit.kext")
    (Some (str "\System\Library\Extensions\System.kext\PlugIns\IOKit.kext\Info.plist"))
    None
    (str "Driver-IOKitKPI") None;
  mkEntry (Some (str "LibkernKPI")) (str "/System/Library/Extensions/System.kext/PlugIns/Libkern.kext")
    (Some (str "\System\Library\Extensions\System.kext\PlugIns\Libkern.kext\Info.plist"))
    None
    (str "Driver-LibkernKPI") None;
  mkEntry (Some (str "MachKPI")) (str "/System/Library/Extensions/System.kext/PlugIns/Mach.kext")
    (Some (str "\System\Library\Extensions\System.kext\PlugIns\Mach.kext\Info.plist"))
    None
    (str "Driver-MachKPI") None;
  mkEntry (Some (str "PrivateKPI")) (str "/System/Library/Extensions/System.kext/PlugIns/Private.kext")
    (Some (str "\System\Library\Extensions\System.kext\PlugIns\Private.kext\Info.plist"))
    None
    (str "Driver-PrivateKPI") None;
  mkEntry (Some (str "UnsupportedKPI")) (str "/System/Library/Extensions/System.kext/PlugIns/Unsupported.kext")
    (Some (str "\System\Library\Extensions\System.kext\PlugIns\Unsupported.kext\Info.plist"))
    None
    (str "Driver-UnsupportedKPI") None;
  mkEntry (Some (str "corecrypto")) (str "/System/Library/Extensions/corecrypto.kext")
    (Some (str "\System\Library\Extensions\corecrypto.kext\Contents\Info.plist"))
    (Some (str "\System\Library\Extensions\corecrypto.kext\Contents\MacOS\corecrypto"))
    (str "Driver-corecrypto") (Some (str "panthera_zfs_spl=1"));
  mkEntry (Some (str "spl")) (str "/System/Library/Extensions/spl.kext")
    (Some (str "\System\Library\Extensions\spl.kext\Contents\Info.plist"))
    (Some (str "\System\Library\Extensions\spl.kext\Contents\MacOS\spl"))
    (str "Driver-spl") (Some (str "panthera_zfs_spl=1"));
  mkEntry (Some (str "zfs")) (str "/System/Library/Extensions/zfs.kext")
    (Some (str "\System\Library\Extensions\zfs.kext\Contents\Info.plist"))
    (Some (str "\System\Library\Extensions\zfs.kext\Contents\MacOS\zfs"))
    (str "Driver-zfs") (Some (str "panthera_zfs=1"));
  mkEntry (Some (str "AppleAPIC")) (str "/System/Library/Extensions/AppleAPIC.kext")
    (Some (str "\System\Library\Extensions\AppleAPIC.kext\Contents\Info.plist"))
    (Some (str "\System\Library\Extensions\AppleAPIC.kext\Contents\MacOS\AppleAPIC"))
    (str "Driver-AppleAPIC") None;
  mkEntry (Some (str "AppleSMBIOS")) (str "/System/Library/Extensions/AppleSMBIOS.kext")
    (Some (str "\System\Library\Extensions\AppleSMBIOS.kext\Contents\Info.plist"))
    (Some (str "\System\Library\Extensions\AppleSMBIOS.kext\Contents\MacOS\AppleSMBIOS"))
    (str "Driver-AppleSMBIOS") None;
  mkEntry (Some (str "AppleI386PCI")) (str "/System/Library/Extensions/AppleI386PCI.kext")
    (Some (str "\System\Library\Extensions\AppleI386PCI.kext\Contents\Info.plist"))
    (Some (str "\System\Library\Extensions\AppleI386PCI.kext\Contents\MacOS\AppleI386PCI"))
    (str "Driver-AppleI386PCI") None;
  mkEntry (Some (str "AppleI386GenericPlatform")) (str "/System/Library/Extensions/AppleI386GenericPlatform.kext")
    (Some (str "\System\Library\Extensions\AppleI386GenericPlatform.kext\Contents\Info.plist"))
    (Some (str "\System\Library\Extensions\AppleI386GenericPlatform.kext\Contents\MacOS\AppleI386GenericPlatform"))
    (str "Driver-AppleI386GenericPlatform") None;
  mkEntry (Some (str "IOACPIFamily")) (str "/System/Library/Extensions/IOACPIFamily.kext")
    (Some (str "\System\Library\Extensions\IOACPIFamily.kext\Contents\Info.plist"))
    (Some (str "\System\Library\Extensions\IOACPIFamily.kext\Contents\MacOS\IOACPIFamily"))
    (str "Driver-IOACPIFamily") None;
  mkEntry (Some (str "IOPCIFamily")) (str "/System/Library/Extensions/IOPCIFamily.kext")
    (Some (str "\System\Library\Extensions\IOPCIFamily.kext\Contents\Info.plist"))
    (Some (str "\System\Library\Extensions\IOPCIFamily.kext\Contents\MacOS\IOPCIFamily"))
    (str "Driver-IOPCIFamily") None;
  mkEntry (Some (str "IOHIDFamily")) (str "/System/Library/Extensions/IOHIDFamily.kext")
    (Some (str "\System\Library\Extensions\IOHIDFamily.kext\Contents\Info.plist"))
    (Some (str "\System\Library\Extensions\IOHIDFamily.kext\Contents\MacOS\IOHIDFamily"))
    (str "Driver-IOHIDFamily") None].

Definition manifest_second : list PantheraBootKextManifestEntry := [
  mkEntry (Some (str "IOUSBFamily")) (str "/System/Library/Extensions/IOUSBFamily.kext")
    (Some (str "\System\Library\Extensions\IOUSBFamily.kext\Contents\Info.plist"))
    (Some (str "\System\Library\Extensions\IOUSBFamily.kext\Contents\MacOS\IOUSBFamily"))
    (str "Driver-IOUSBFamily") (Some (str "panthera_usbhid=1"));
  mkEntry (Some (str "AppleUSBEHCI")) (str "/System/Library/Extensions/AppleUSBEHCI.kext")
    (Some (str "\System\Library\Extensions\AppleUSBEHCI.kext\Contents\Info.plist"))
    (Some (str "\System\Library\Extensions\AppleUSBEHCI.kext\Contents\MacOS\AppleUSBEHCI"))
    (str "Driver-AppleUSBEHCI") (Some (str "panthera_usbhid=1"));
  mkEntry (Some (str "AppleUSBUHCI")) (str "/System/Library/Extensions/AppleUSBUHCI.kext")
    (Some (str "\System\Library\Extensions\AppleUSBUHCI.kext\Contents\Info.plist"))
    (Some (str "\System\Library\Extensions\AppleUSBUHCI.kext\Contents\MacOS\AppleUSBUHCI"))
    (str "Driver-AppleUSBUHCI") (Some (str "panthera_usbhid=1"));
  mkEntry (Some (str "AppleUSBHub")) (str "/System/Library/Extensions/AppleUSBHub.kext")
    (Some (str "\System\Library\Extensions\AppleUSBHub.kext\Contents\Info.plist"))
    (Some (str "\System\Library\Extensions\AppleUSBHub.kext\Contents\MacOS\AppleUSBHub"))
    (str "Driver-AppleUSBHub") (Some (str "panthera_usbhid=1"));
  mkEntry (Some (str "IOUSBCompositeDriver")) (str "/System/Library/Extensions/IOUSBCompositeDriver.kext")
    (Some (str "\System\Library\Extensions\IOUSBCompositeDriver.kext\Contents\Info.plist"))
    (Some (str "\System\Library\Extensions\IOUSBCompositeDriver.kext\Contents\MacOS\IOUSBCompositeDriver"))
    (str "Driver-IOUSBCompositeDriver") (Some (str "panthera_usbhid=1"));
  mkEntry (Some (str "IOUSBHIDDriver")) (str "/System/Library/Extensions/IOUSBHIDDriver.kext")
    (Some (str "\System\Library\Extensions\IOUSBHIDDriver.kext\Contents\Info.plist"))
    (Some (str "\System\Library\Extensions\IOUSBHIDDriver.kext\Contents\MacOS\IOUSBHIDDriver"))
    (str "Driver-IOUSBHIDDriver") (Some (str "panthera_usbhid=1"));
  mkEntry (Some (str "IONetworkingFamily")) (str "/System/Library/Extensions/IONetworkingFamily.kext")
    (Some (str "\System\Library\Extensions\IONetworkingFamily.kext\Contents\Info.plist"))
    (Some (str "\System\Library\Extensions\IONetworkingFamily.kext\Contents\MacOS\IONetworkingFamily"))
    (str "Driver-IONetworkingFamily") None;
  mkEntry (Some (str "AppleRTL8139Ethernet")) (str "/System/Library/Extensions/AppleRTL8139Ethernet.kext")
    (Some (str "\System\Library\Extensions\AppleRTL8139Ethernet.kext\Contents\Info.plist"))
    (Some (str "\System\Library\Extensions\AppleRTL8139Ethernet.kext\Contents\MacOS\AppleRTL8139Ethernet"))
    (str "Driver-AppleRTL8139Ethernet") None;
  mkEntry (Some (str "IOHIDSystem")) (str "/System/Library/Extensions/IOHIDSystem.kext")
    (Some (str "\System\Library\Extensions\IOHIDSystem.kext\Contents\Info.plist"))
    (Some (str "\System\Library\Extensions\IOHIDSystem.kext\Contents\MacOS\IOHIDSystem"))
    (str "Driver-IOHIDSystem") None;
  mkEntry (Some (str "IOStorageFamily")) (str "/System/Library/Extensions/IOStorageFamily.kext")
    (Some (str "\System\Library\Extensions\IOStorageFamily.kext\Contents\Info.plist"))
    (Some (str "\System\Library\Extensions\IOStorageFamily.kext\Contents\MacOS\IOStorageFamily"))
    (str "Driver-IOStorageFamily") None;
  mkEntry (Some (str "HFSEncodings")) (str "/System/Library/Extensions/HFSEncodings.kext")
    (Some (str "\System\Library\Extensions\HFSEncodings.kext\Contents\Info.plist"))
    (Some (str "\System\Library\Extensions\HFSEncodings.kext\Contents\MacOS\HFSEncodings"))
    (str "Driver-HFSEncodings") None;
  mkEntry (Some (str "HFS")) (str "/System/Library/Extensions/HFS.kext")
    (Some (str "\System\Library\Extensions\HFS.kext\Contents\Info.plist"))
    (Some (str "\System\Library\Extensions\HFS.kext\Contents\MacOS\HFS"))
    (str "Driver-HFS") None;
  mkEntry (Some (str "IOATAFamily")) (str "/System/Library/Extensions/IOATAFamily.kext")
    (Some (str "\System\Library\Extensions\IOATAFamily.kext\Contents\Info.plist"))
    (Some (str "\System\Library\Extensions\IOATAFamily.kext\Contents\MacOS\IOATAFamily"))
    (str "Driver-IOATAFamily") None;
  mkEntry (Some (str "AppleIntelPIIXATA")) (str "/System/Library/Extensions/AppleIntelPIIXATA.kext")
    (Some (str "\System\Library\Extensions\AppleIntelPIIXATA.kext\Contents\Info.plist"))
    (Some (str "\System\Library\Extensions\AppleIntelPIIXATA.kext\Contents\MacOS\AppleIntelPIIXATA"))
    (str "Driver-AppleIntelPIIXATA") None;
  mkEntry (Some (str "PantheraATAStorage")) (str "/System/Library/Extensions/PantheraATAStorage.kext")
    (Some (str "\System\Library\Extensions\PantheraATAStorage.kext\Contents\Info.plist"))
    (Some (str "\System\Library\Extensions\PantheraATAStorage.kext\Contents\MacOS\PantheraATAStorage"))
    (str "Driver-PantheraATAStorage") None;
  mkEntry (Some (str "IOGraphicsFamily")) (str "/System/Library/Extensions/IOGraphicsFamily.kext")
    (Some (str "\System\Library\Extensions\IOGraphicsFamily.kext\Contents\Info.plist"))
    (Some (str "\System\Library\Extensions\IOGraphicsFamily.kext\Contents\MacOS\IOGraphicsFamily"))
    (str "Driver-IOGraphicsFamily") (Some (str "panthera_iog=1"));
  null_entry].

Definition gBootKextManifest : list PantheraBootKextManifestEntry :=
  manifest_first ++ manifest_second.

(** An entry the staging loop skips. *)
Definition entry_skipped (command_line : list Z) (e : PantheraBootKextManifestEntry) : bool :=
  match required_boot_arg e with
  | Some arg => negb (panthera_command_line_has_token command_line arg)
  | None => false
  end.

(** The entries the loop reaches: those before the first without a name or path. *)
Fixpoint manifest_entries (l : list PantheraBootKextManifestEntry)
  : list PantheraBootKextManifestEntry :=
  match l with
  | [] => []
  | e :: l' =>
      match bundle_name e, info_path e with
      | Some _, Some _ => e :: manifest_entries l'
      | _, _ => []
      end
  end.

Definition enabled_entries (command_line : list Z) (l : list PantheraBootKextManifestEntry)
  : list PantheraBootKextManifestEntry :=
  List.filter (fun e => negb (entry_skipped command_line e)) (manifest_entries l).

(** ** Well-formed entries *)
Definition driver_name_ok (name : list Z) : bool :=
  (length name <=? 31)%nat && forallb (fun c => (0 <? c) && (c <? 128)) name.

Definition text_ok (text : list Z) : bool :=
  negb (bool_decide (text = [])) && (Z.of_nat (length text) <? 192) &&
  forallb (fun c => (0 <? c) && (c <? 128)) text.

Definition entry_ok (e : PantheraBootKextManifestEntry) : bool :=
  driver_name_ok (manifest_driver_name e) && text_ok (bundle_path e) &&
  match executable_path e with Some p => text_ok p | None => true end &&
  match info_path e with Some p => text_ok p | None => false end &&
  match bundle_name e with Some n => text_ok n | None => false end &&
  match required_boot_arg e with Some a => text_ok a | None => true end.

(** ** The table *)
Definition manifest_names : list (list Z) := manifest_driver_name <$> manifest_entries gBootKextManifest.

Lemma manifest_checks :
  forallb entry_ok (manifest_entries gBootKextManifest) = true /\
  bool_decide (NoDup manifest_names) = true /\
  length (manifest_entries gBootKextManifest) = 33%nat /\
  length (List.filter (fun e => bool_decide (required_boot_arg e = None))
            (manifest_entries gBootKextManifest)) = 23%nat.
Proof. vm_compute. done. Qed.

Lemma filter_sublist {A} (f : A -> bool) (l : list A) : List.filter f l `sublist_of` l.
Proof. induction l as [|x l IH]; cbn; [done|]. destruct (f x); by constructor. Qed.

Lemma filter_length_mono {A} (f g : A -> bool) (l : list A) :
  (forall x, f x = true -> g x = true) -> (length (List.filter f l) <= length (List.filter g l))%nat.
Proof.
  intros Hfg. induction l as [|x l IH]; cbn; [done|]. specialize (Hfg x).
  destruct (f x), (g x); cbn; lia || (specialize (Hfg eq_refl); done).
Qed.

Lemma enabled_entry_ok line : Forall (fun e => entry_ok e = true) (enabled_entries line gBootKextManifest).
Proof.
  destruct manifest_checks as [Hok _]. rewrite Forall_forall. intros e He.
  apply list_elem_of_In, filter_In in He as [He _].
  rewrite forallb_forall in Hok. by apply Hok.
Qed.

Lemma enabled_length line : (23 <= length (enabled_entries line gBootKextManifest) <= 33)%nat.
Proof.
  destruct manifest_checks as (_ & _ & Hlen & Hreq). split.
  - rewrite <- Hreq. apply filter_length_mono. intros e He. apply bool_decide_eq_true in He.
    unfold entry_skipped. by rewrite He.
  - rewrite <- Hlen. apply sublist_length, filter_sublist.
Qed.

Lemma text_ok_nonzero text : text_ok text = true -> Forall (fun c => c <> 0) text.
Proof.
  unfold text_ok. rewrite andb_true_iff, forallb_forall. intros [_ Ht].
  apply Forall_forall. intros c Hc. apply list_elem_of_In, Ht in Hc. lia.
Qed.

Lemma text_ok_bytes text : text_ok text = true -> Forall byte text /\ Z.of_nat (length text) < 192.
Proof.
  unfold text_ok. rewrite !andb_true_iff, forallb_forall. intros [[_ Hl] Ht]. split; [|lia].
  apply Forall_forall. intros c Hc. apply list_elem_of_In, Ht in Hc. unfold byte. lia.
Qed.

(** An entry is skipped when its boot argument is not a word of the line. *)
Lemma entry_skipped_words line e :
  Forall (fun c => c <> 0) line -> entry_ok e = true ->
  entry_skipped line e = false <->
  match required_boot_arg e with
  | Some arg => arg ∈ words panthera_ascii_is_space line
  | None => True
  end.
Proof.
  intros Hl He. unfold entry_skipped, entry_ok in *. apply andb_prop in He as [_ He].
  destruct (required_boot_arg e) as [arg|]; [|done]. rewrite negb_false_iff, has_token_words.
  - apply bool_decide_eq_true.
  - done.
  - by apply text_ok_nonzero.
Qed.

(** Whatever the command line, the extensions it enables are well formed
    (names that fit the 32-byte field with their NUL, paths without embedded
    NULs), have pairwise different driver names, and number at least the 23
    unconditional ones and at most 33, so they fit the table of 34 records. An
    entry is enabled exactly when the boot argument it requires, if any, is a
    word of the command line. *)
Theorem enabled_extensions (line : list Z) :
  Forall (fun c => c <> 0) line ->
  let es := enabled_entries line gBootKextManifest in
  Forall (fun e => entry_ok e = true) es /\ NoDup (manifest_driver_name <$> es) /\
  (23 <= length es <= 33)%nat /\ (33 < PANTHERA_MAX_BOOT_KEXTS)%nat /\
  forall e, e ∈ es <->
    e ∈ manifest_entries gBootKextManifest /\
    match required_boot_arg e with
    | Some arg => arg ∈ words panthera_ascii_is_space line
    | None => True
    end.
Proof.
  intros Hl es. destruct manifest_checks as (Hok & Hnd & _ & _). split_and!.
  - apply enabled_entry_ok.
  - eapply sublist_NoDup; [|apply fmap_sublist, filter_sublist]. by apply bool_decide_eq_true in Hnd.
  - apply enabled_length.
  - apply enabled_length.
  - unfold PANTHERA_MAX_BOOT_KEXTS. lia.
  - intros e. unfold es, enabled_entries.
    rewrite list_elem_of_In, filter_In, <- list_elem_of_In, negb_true_iff.
    rewrite forallb_forall in Hok. split; intros [He Hs]; (split; [done|]);
      (apply entry_skipped_words; [done| |done]); apply Hok; by apply list_elem_of_In.
Qed.

Lemma enabled_extensions_witness :
  let es := enabled_entries (str "serial=3 panthera_iog=1") gBootKextManifest in
  Forall (fun e => entry_ok e = true) es /\ length es = 24%nat.
Proof.
  pose proof (enabled_extensions (str "serial=3 panthera_iog=1")) as Hw. split.
  - apply Hw. apply (bool_decide_unpack _). vm_compute. exact I.
  - vm_compute. reflexivity.
Defined.
