(* ===== verification/Efi.v ===== *)
(** * The firmware interface of the boot loader: boot/efi/loader/src/bootx64.c

    The UEFI services the loader calls are a class: each service is a function
    on an abstract firmware state and may be missing, as the source's null
    checks allow. The loader itself is written in a small monad over the
    identity-mapped memory, the firmware, the loader's global variables and the
    sequence of firmware calls made so far. *)

From Stdlib Require Import ZArith Lia Ascii String.
From stdpp Require Import base list gmap.
From S2P Require Import Prelude MachO BootText.

Open Scope Z_scope.

(** ** Constants of panthera_uefi.h *)
Definition EFI_SUCCESS : Z := 0.
Definition EFI_BUFFER_TOO_SMALL : Z := 0x8000000000000005.
Definition EFI_NOT_FOUND : Z := 0x800000000000000e.
Definition EFI_OUT_OF_RESOURCES : Z := 0x8000000000000009.
Definition EFI_ERROR (status : Z) : bool := negb (Z.land status 0x8000000000000000 =? 0).

Definition EFI_ALLOCATE_ANY_PAGES : Z := 0.
Definition EFI_ALLOCATE_MAX_ADDRESS : Z := 1.
Definition EFI_ALLOCATE_ADDRESS : Z := 2.
Definition EFI_MEMORY_RUNTIME : Z := 0x8000000000000000.

Definition PANTHERA_BOOTSTRAP_MAP_LIMIT : Z := 0x3e800000.
Definition PANTHERA_BOOTSTRAP_ALLOC_MAX_ADDRESS : Z := PANTHERA_BOOTSTRAP_MAP_LIMIT - 1.

Inductive guid := gEfiLoadedImageProtocolGuid | gEfiSimpleFileSystemProtocolGuid.

(** What [GetMemoryMap] stores through its arguments. *)
Record map_reply := mkMapReply {
  mr_status : Z; mr_size : Z; mr_key : Z; mr_desc_size : Z; mr_desc_version : Z;
  mr_bytes : list Z }.

(** The mode information of the graphics output protocol. *)
Record gop_mode := mkGop {
  FrameBufferBase : Z; HorizontalResolution : Z; VerticalResolution : Z; PixelsPerScanLine : Z }.

(** ** The services

    [None] is a missing console, boot services table or function pointer. A
    pointer result is an address or handle, 0 for null; bytes written to a
    caller's buffer are returned as a list. *)
Class Firmware (F : Type) := {
  OutputString : option (list Z -> F -> Z * F);
  AllocatePages : option (Z -> Z -> Z -> F -> Z * Z * F);
  AllocatePool : option (Z -> F -> Z * Z * F);
  FreePool : option (Z -> F -> F);
  HandleProtocol : option (Z -> guid -> F -> Z * Z * F);
  Stall : option (Z -> F -> Z * F);
  GetMemoryMap : Z -> Z -> F -> map_reply * F;
  ExitBootServices : Z -> F -> Z * F;
  LocateProtocol : F -> Z * option gop_mode * F;
  rdtsc : F -> Z * F;
  DeviceHandle : Z -> F -> Z;
  OpenVolume : Z -> F -> Z * Z * F;
  Open : Z -> list Z -> F -> Z * Z * F;
  Close : Z -> F -> F;
  GetInfo : Z -> Z -> Z -> F -> Z * Z * list Z * F;
  Read : Z -> Z -> F -> Z * Z * list Z * F
}.

(** The calls that change the firmware's state, as they happened. *)
Inductive event :=
| Printed (text : list Z)
| PagesAllocated (base pages : Z)
| PoolAllocated (buffer : Z)
| PoolFreed (buffer : Z)
| Opened (handle : Z)
| Closed (handle : Z)
| MapRead (key : Z)
| ExitTried (key status : Z)
| DebugByte (c : Z)
| PortWord (port value : Z).

(** ** Loader state *)
Inductive gvar :=
| gKernelImageBase | gKernelImageSize | gKernelReservedSize | gKernelTextBase
| gKernelEntryBase | gKernelBootDataCursor | gBootArgsBase | gDeviceTreeBase
| gDeviceTreeSize | gMemoryMapBase | gMemoryMapCapacity | gSystemTableBase
| gHandoffCodeBase | gHandoffCodeSize | gHandoffStackBase | gBootKextCount
| gFSBFrequencyHz | gGopFrameBufferBase | gGopWidth | gGopHeight | gGopPixelsPerScanLine.

#[export] Instance gvar_eq_dec : EqDecision gvar.
Proof. solve_decision. Defined.

Record PantheraBootKextRecord := mkKextRecord {
  dt_paddr : Z; dt_length : Z;
  driver_entry_name : list Z;
  file_info_base : Z; info_dict_base : Z; executable_base : Z; bundle_path_base : Z;
  info_dict_size : Z; executable_size : Z; bundle_path_size : Z }.

Definition zero_record : PantheraBootKextRecord := mkKextRecord 0 0 [] 0 0 0 0 0 0 0.

Section Loader.
Context {F : Type}.

Record boot_state := mkBoot {
  b_mem : mem;
  b_fw : F;
  b_trace : list event;
  b_vars : gvar -> Z;
  gKernelImage : PantheraKernelImage;
  gBootCommandLine : list Z;
  gBootKextRecords : list PantheraBootKextRecord
}.

Definition set_mem (s : boot_state) (m : mem) : boot_state :=
  mkBoot m (b_fw s) (b_trace s) (b_vars s) (gKernelImage s) (gBootCommandLine s)
    (gBootKextRecords s).
Definition set_fw (s : boot_state) (f : F) (es : list event) : boot_state :=
  mkBoot (b_mem s) f (es ++ b_trace s) (b_vars s) (gKernelImage s) (gBootCommandLine s)
    (gBootKextRecords s).
Definition set_var (s : boot_state) (x : gvar) (v : Z) : boot_state :=
  mkBoot (b_mem s) (b_fw s) (b_trace s) (fun y => if decide (y = x) then v else b_vars s y)
    (gKernelImage s) (gBootCommandLine s) (gBootKextRecords s).
Definition set_image (s : boot_state) (i : PantheraKernelImage) : boot_state :=
  mkBoot (b_mem s) (b_fw s) (b_trace s) (b_vars s) i (gBootCommandLine s) (gBootKextRecords s).
Definition set_command_line (s : boot_state) (l : list Z) : boot_state :=
  mkBoot (b_mem s) (b_fw s) (b_trace s) (b_vars s) (gKernelImage s) l (gBootKextRecords s).
Definition set_records (s : boot_state) (r : list PantheraBootKextRecord) : boot_state :=
  mkBoot (b_mem s) (b_fw s) (b_trace s) (b_vars s) (gKernelImage s) (gBootCommandLine s) r.

(** How a loader function ends: normally, with an EFI error status, by jumping
    to the kernel, or in undefined behaviour. *)
Record handoff := mkHandoff {
  handoff_code : Z; boot_args_phys : Z; kernel_entry_phys : Z; stack_top_phys : Z }.

Inductive result (A : Type) :=
| Ok (a : A)
| Err (status : Z)
| Entered (h : handoff)
| Stuck.
Arguments Ok {A} _.
Arguments Err {A} _.
Arguments Entered {A} _.
Arguments Stuck {A}.

Definition M (A : Type) : Type := boot_state -> result A * boot_state.
Definition ret {A} (a : A) : M A := fun s => (Ok a, s).
Definition bind {A B} (m : M A) (k : A -> M B) : M B := fun s =>
  match m s with
  | (Ok a, s') => k a s'
  | (Err e, s') => (Err e, s')
  | (Entered h, s') => (Entered h, s')
  | (Stuck, s') => (Stuck, s')
  end.
Definition throw {A} (status : Z) : M A := fun s => (Err status, s).
Definition stuck {A} : M A := fun s => (Stuck, s).

(** [if (EFI_ERROR(status)) { cleanup; return status; }] around a call. *)
Definition on_error {A} (m : M A) (cleanup : Z -> M unit) : M A := fun s =>
  match m s with
  | (Err e, s') =>
      match cleanup e s' with
      | (Ok _, s'') => (Err e, s'')
      | (Err e', s'') => (Err e', s'')
      | (Entered h, s'') => (Entered h, s'')
      | (Stuck, s'') => (Stuck, s'')
      end
  | r => r
  end.

(** A call whose error the caller handles itself. *)
Definition attempt {A} (m : M A) : M (A + Z) := fun s =>
  match m s with
  | (Ok a, s') => (Ok (inl a), s')
  | (Err e, s') => (Ok (inr e), s')
  | (Entered h, s') => (Entered h, s')
  | (Stuck, s') => (Stuck, s')
  end.

Definition check (status : Z) : M unit := if EFI_ERROR status then throw status else ret tt.

Definition get_var (x : gvar) : M Z := fun s => (Ok (b_vars s x), s).
Definition put_var (x : gvar) (v : Z) : M unit := fun s => (Ok tt, set_var s x v).
Definition get_mem : M mem := fun s => (Ok (b_mem s), s).
Definition put_mem (m : mem) : M unit := fun s => (Ok tt, set_mem s m).
Definition get_image : M PantheraKernelImage := fun s => (Ok (gKernelImage s), s).
Definition put_image (i : PantheraKernelImage) : M unit := fun s => (Ok tt, set_image s i).
Definition get_command_line : M (list Z) := fun s => (Ok (gBootCommandLine s), s).
Definition put_command_line (l : list Z) : M unit := fun s => (Ok tt, set_command_line s l).
Definition get_records : M (list PantheraBootKextRecord) := fun s => (Ok (gBootKextRecords s), s).
Definition put_records (r : list PantheraBootKextRecord) : M unit := fun s => (Ok tt, set_records s r).

Lemma vars_set_mem (s : boot_state) m : b_vars (set_mem s m) = b_vars s.
Proof. done. Qed.

Lemma vars_set_fw (s : boot_state) f es : b_vars (set_fw s f es) = b_vars s.
Proof. done. Qed.

Lemma var_same (s : boot_state) x v : b_vars (set_var s x v) x = v.
Proof. cbn. by rewrite decide_True. Qed.

Lemma var_other (s : boot_state) x y v : y <> x -> b_vars (set_var s x v) y = b_vars s y.
Proof. intros. cbn. by rewrite decide_False. Qed.

(** A firmware call: its effect on the firmware, and what it adds to the trace. *)
Definition call {A} (f : F -> A * F) (log : A -> list event) : M A := fun s =>
  let '(a, fw) := f (b_fw s) in (Ok a, set_fw s fw (log a)).
End Loader.

Arguments boot_state F : clear implicits.
Arguments M F A : clear implicits.
Arguments Ok {A} _.
Arguments Err {A} _.
Arguments Entered {A} _.
Arguments Stuck {A}.

#[export] Hint Rewrite @vars_set_mem @vars_set_fw @var_same : panthera.
#[export] Hint Rewrite @var_other using discriminate : panthera.

Notation "'let!' x := m 'in' k" := (bind m (fun x => k))
  (at level 10, x pattern, m at level 100, k at level 200).
Notation "m '>>' k" := (bind m (fun _ => k)) (at level 60, right associativity).

(** ** Memory operations *)

(** Zeroing forgets the bytes of the range: an address without an entry reads
    as zero. The byte loop, and the same in one pass for a range of pages. *)
Fixpoint clear_bytes (m : mem) (dst : Z) (n : nat) : mem :=
  match n with
  | O => m
  | S k => clear_bytes (delete dst m) (dst + 1) k
  end.

Definition panthera_zero_memory (m : mem) (dst size : Z) : mem :=
  if size <? 4096 then clear_bytes m dst (Z.to_nat size)
  else filter (fun kv => Is_true (negb ((dst <=? kv.1) && (kv.1 <? dst + size)))) m.

(** The forward copy loop, [n] bytes left. *)
Fixpoint panthera_copy_memory (m : mem) (dst src : Z) (n : nat) : mem :=
  match n with
  | O => m
  | S k => panthera_copy_memory (mput m dst (mget m src)) (dst + 1) (src + 1) k
  end.

Lemma mget_clear_bytes m dst n a :
  mget (clear_bytes m dst n) a = if decide (dst <= a < dst + Z.of_nat n) then 0 else mget m a.
Proof.
  revert m dst. induction n as [|n IH]; intros m dst; cbn [clear_bytes].
  - by rewrite decide_False by lia.
  - rewrite IH. unfold mget. rewrite lookup_delete. repeat case_decide; try done; lia.
Qed.

Lemma mget_zero_memory m dst size a :
  mget (panthera_zero_memory m dst size) a =
  if decide (dst <= a < dst + size) then 0 else mget m a.
Proof.
  unfold panthera_zero_memory. destruct (size <? 4096).
  { rewrite mget_clear_bytes. repeat case_decide; try done; lia. }
  unfold mget. rewrite map_lookup_filter. destruct (m !! a) as [v|]; cbn; [|by case_decide].
  unfold guard. repeat case_decide; cbn; try done;
    match goal with H : context [Is_true] |- _ => rewrite Is_true_true in H end; lia.
Qed.

Lemma holds_zeros m a n :
  (forall b, a <= b < a + Z.of_nat n -> mget m b = 0) -> holds m a (repeat 0 n).
Proof.
  unfold holds. rewrite repeat_length. revert a.
  induction n as [|n IH]; intros a Hz; cbn [mbytes repeat]; [done|].
  rewrite Hz by lia. f_equal. apply IH. intros b Hb. apply Hz. lia.
Qed.

Lemma holds_mstore m a bs : Forall byte bs -> holds (mstore m a bs) a bs.
Proof. intros H. unfold holds. by apply mbytes_mstore. Qed.

Lemma only_in_zero m dst size : only_in dst size m (panthera_zero_memory m dst size).
Proof. intros b Hb. rewrite mget_zero_memory. by rewrite decide_False by lia. Qed.

Lemma only_in_copy m dst src n :
  only_in dst (Z.of_nat n) m (panthera_copy_memory m dst src n).
Proof.
  revert m dst src. induction n as [|n IH]; intros m dst src; cbn [panthera_copy_memory].
  - apply only_in_refl.
  - intros b Hb. rewrite IH by lia. apply mget_mput_ne. lia.
Qed.

Lemma mem_wf_zero m dst size : mem_wf m -> mem_wf (panthera_zero_memory m dst size).
Proof. intros Hm a. rewrite mget_zero_memory. case_decide; [lia|apply Hm]. Qed.

Lemma mem_wf_copy m dst src n : mem_wf m -> mem_wf (panthera_copy_memory m dst src n).
Proof.
  revert m dst src. induction n as [|n IH]; intros m dst src Hm; cbn [panthera_copy_memory]; [done|].
  apply IH. auto with panthera.
Qed.

(** A copy between disjoint ranges. *)
Lemma mbytes_copy m dst src n :
  mem_wf m -> dst + Z.of_nat n <= src \/ src + Z.of_nat n <= dst ->
  mbytes (panthera_copy_memory m dst src n) dst n = mbytes m src n.
Proof.
  revert m dst src. induction n as [|n IH]; intros m dst src Hm Hd; cbn [panthera_copy_memory mbytes].
  - done.
  - f_equal.
    + rewrite only_in_copy by lia. rewrite mget_mput_eq. apply Z.mod_small, Hm.
    + rewrite IH by (auto with panthera; lia). apply mbytes_ext.
      intros b Hb. apply mget_mput_ne. lia.
Qed.

Section Services.
Context {F : Type} `{Firmware F}.
Variable image_handle : Z.

Definition zero_memory (dst size : Z) : M F unit :=
  let! m := get_mem in put_mem (panthera_zero_memory m dst size).
Definition copy_memory (dst src size : Z) : M F unit :=
  let! m := get_mem in put_mem (panthera_copy_memory m dst src (Z.to_nat size)).
Definition store_bytes (dst : Z) (bs : list Z) : M F unit :=
  let! m := get_mem in put_mem (mstore m dst bs).

(** ** Console *)
Definition console_write (text : list Z) : M F Z :=
  match OutputString with
  | None => ret EFI_SUCCESS
  | Some f => call (f text) (fun _ => [Printed text])
  end.

Definition console_write_ascii (text : list Z) : M F Z := console_write (ascii_text text).

Definition console_write_hex64 (label : list Z) (value : Z) : M F Z :=
  match hex64_text label value with
  | None => ret EFI_OUT_OF_RESOURCES
  | Some t => console_write t
  end.

Definition console_write_uint64 (label : list Z) (value : Z) : M F Z :=
  match uint64_text label value with
  | None => stuck
  | Some t => console_write t
  end.

(** ** Clock *)
Definition panthera_calibrate_tsc_frequency : M F Z :=
  match Stall with
  | None => ret PANTHERA_FSB_FREQUENCY_HZ
  | Some stall =>
      let! start := call rdtsc (fun _ => []) in
      let! st := call (stall PANTHERA_TSC_CALIBRATION_USEC) (fun _ => []) in
      if EFI_ERROR st then ret (calibrated_frequency (Some false) start 0)
      else
        let! stop := call rdtsc (fun _ => []) in
        ret (calibrated_frequency (Some true) start stop)
  end.

(** ** Allocation *)
Definition panthera_handle_protocol (handle : Z) (protocol : guid) : M F Z :=
  match HandleProtocol with
  | None => throw EFI_NOT_FOUND
  | Some f =>
      let! (st, interface) := call (f handle protocol) (fun _ => []) in
      check st >> ret interface
  end.

(** A pool allocation is in the trace when it succeeded. *)
Definition panthera_allocate_pool (size : Z) : M F Z :=
  match AllocatePool with
  | None => throw EFI_OUT_OF_RESOURCES
  | Some f =>
      let! (st, buffer) :=
        call (f size) (fun r => if EFI_ERROR r.1 then [] else [PoolAllocated r.2]) in
      check st >> ret buffer
  end.

Definition pages_of (size : Z) : Z := (size +64 4095) / 4096.

Definition call_allocate_pages (f : Z -> Z -> Z -> F -> Z * Z * F) (kind pages address : Z)
  : M F (Z * Z) :=
  call (f kind pages address) (fun r => if EFI_ERROR r.1 then [] else [PagesAllocated r.2 pages]).

Definition panthera_allocate_pages (size : Z) : M F Z :=
  let pages := pages_of size in
  match AllocatePages with
  | None => throw EFI_OUT_OF_RESOURCES
  | Some f =>
      let! (st, address) :=
        call_allocate_pages f EFI_ALLOCATE_MAX_ADDRESS pages PANTHERA_BOOTSTRAP_ALLOC_MAX_ADDRESS in
      if negb (EFI_ERROR st) then ret address
      else
        let! (st', address') := call_allocate_pages f EFI_ALLOCATE_ANY_PAGES pages 0 in
        check st' >> ret address'
  end.

Definition panthera_allocate_pages_at (size address_in : Z) : M F Z :=
  match AllocatePages with
  | None => throw EFI_OUT_OF_RESOURCES
  | Some f =>
      let! (st, address) := call_allocate_pages f EFI_ALLOCATE_ADDRESS (pages_of size) address_in in
      check st >> ret address
  end.

Definition panthera_free_pool (buffer : Z) : M F unit :=
  if buffer =? 0 then ret tt
  else
    match FreePool with
    | None => ret tt
    | Some f => call (fun fw => (tt, f buffer fw)) (fun _ => [PoolFreed buffer])
    end.

(** The buffer and its physical base are the same address. *)
Definition panthera_allocate_buffer_pages (size : Z) : M F Z := panthera_allocate_pages size.

(** ** panthera_load_kernel_file *)
Definition open_volume (file_system : Z) : M F Z :=
  let! (st, root) :=
    call (OpenVolume file_system) (fun r => if EFI_ERROR r.1 then [] else [Opened r.2]) in
  check st >> ret root.

Definition open_file (root : Z) (path : list Z) : M F Z :=
  let! (st, file) :=
    call (Open root path) (fun r => if EFI_ERROR r.1 then [] else [Opened r.2]) in
  check st >> ret file.

Definition close_handle (handle : Z) : M F unit :=
  call (fun fw => (tt, Close handle fw)) (fun _ => [Closed handle]).

Definition close_both (file root : Z) : M F unit := close_handle file >> close_handle root.

(** The two calls that write into a caller's buffer. *)
Definition get_info (file size buffer : Z) : M F (Z * Z) :=
  let! (st, size', bytes) := call (GetInfo file size buffer) (fun _ => []) in
  (if buffer =? 0 then ret tt else store_bytes buffer bytes) >> ret (st, size').

Definition read_file (file size buffer : Z) : M F (Z * Z) :=
  let! (st, size', bytes) := call (Read file size) (fun _ => []) in
  store_bytes buffer bytes >> ret (st, size').

(** The FileSize field of the EFI_FILE_INFO at an address. *)
Definition file_info_size_field (info : Z) : M F Z :=
  let! m := get_mem in ret (mread m (info + 8) 8).

(** After the file was opened: the buffer and its size. *)
Definition load_open_file (root file : Z) : M F (Z * Z) :=
  let! (st, file_info_size) := get_info file 0 0 in
  if negb (st =? EFI_BUFFER_TOO_SMALL) || (file_info_size =? 0) then
    close_both file root >> check st >> ret (0, 0)
  else
    let! file_info :=
      on_error (panthera_allocate_pool file_info_size) (fun _ => close_both file root) in
    let! (st, _) := get_info file file_info_size file_info in
    if EFI_ERROR st then
      panthera_free_pool file_info >> close_both file root >> throw st
    else
      let! file_size := file_info_size_field file_info in
      let! file_buffer :=
        on_error (panthera_allocate_pool file_size)
          (fun _ => panthera_free_pool file_info >> close_both file root) in
      let! (st, size_read) := read_file file file_size file_buffer in
      let! file_size := file_info_size_field file_info in
      if EFI_ERROR st || negb (size_read =? file_size) then
        panthera_free_pool file_buffer >> panthera_free_pool file_info >>
        close_both file root >> throw EFI_NOT_FOUND
      else
        panthera_free_pool file_info >> close_both file root >> ret (file_buffer, size_read).

Definition panthera_load_kernel_file (path : list Z) : M F (Z * Z) :=
  let! loaded_image := panthera_handle_protocol image_handle gEfiLoadedImageProtocolGuid in
  let! device := (fun s => (Ok (DeviceHandle loaded_image (b_fw s)), s)) in
  let! file_system := panthera_handle_protocol device gEfiSimpleFileSystemProtocolGuid in
  let! root := open_volume file_system in
  let! file := on_error (open_file root path) (fun _ => close_handle root) in
  load_open_file root file.

Definition path_mach_kernel : list Z := str "\mach_kernel".
Definition path_efi_kernel : list Z := str "\EFI\PANTHERA\kernel".
Definition path_boot_args : list Z := str "\EFI\PANTHERA\boot-args.txt".
Definition crlf : list Z := [13; 10].

Definition panthera_try_load_kernel : M F (Z * Z) :=
  let! r := attempt (panthera_load_kernel_file path_mach_kernel) in
  match r with
  | inl (buffer, size) =>
      console_write_ascii (str "Loaded kernel path: \mach_kernel" ++ crlf) >> ret (buffer, size)
  | inr _ =>
      let! (buffer, size) := panthera_load_kernel_file path_efi_kernel in
      console_write_ascii (str "Loaded kernel path: \EFI\PANTHERA\kernel" ++ crlf) >>
      ret (buffer, size)
  end.

(** ** panthera_load_boot_command_line *)
Definition panthera_load_boot_command_line : M F unit :=
  put_command_line (panthera_copy_ascii command_line_size PANTHERA_DEFAULT_BOOT_ARGS) >>
  let! r := attempt (panthera_load_kernel_file path_boot_args) in
  let '(file_buffer, file_size) := match r with inl p => p | inr _ => (0, 0) end in
  let! from_file :=
    (if (file_buffer =? 0) || (file_size =? 0) then ret false
     else
       let! m := get_mem in
       let '(line, used) := boot_command_line (mbytes m file_buffer (Z.to_nat file_size)) in
       put_command_line line >> ret used) in
  panthera_free_pool file_buffer >>
  console_write_ascii (str "Boot args source: ") >>
  console_write_ascii (if from_file then path_boot_args else str "built-in") >>
  console_write crlf >>
  console_write_ascii (str "Boot args: ") >>
  (let! line := get_command_line in console_write_ascii line) >>
  console_write crlf >>
  ret tt.
End Services.

(** ** Resources

    Pool buffers and file handles. [live tr r] counts how often the trace
    acquired [r] minus how often it released it. *)
Inductive resource := Pool (buffer : Z) | Handle (handle : Z).

#[export] Instance resource_eq_dec : EqDecision resource.
Proof. solve_decision. Defined.

Definition ind (x y : resource) : Z := if decide (x = y) then 1 else 0.

Definition event_live (e : event) (r : resource) : Z :=
  match e with
  | PoolAllocated b => ind (Pool b) r
  | PoolFreed b => - ind (Pool b) r
  | Opened h => ind (Handle h) r
  | Closed h => - ind (Handle h) r
  | _ => 0
  end.

Definition live (tr : list event) (r : resource) : Z :=
  foldr (fun e n => event_live e r + n) 0 tr.

Lemma live_app es tr r : live (es ++ tr) r = live es r + live tr r.
Proof. unfold live. induction es as [|e es IH]; cbn; [done|]. rewrite IH. lia. Qed.

Section Balance.
Context {F : Type}.

(** A computation changes the live count of [r] by [d a r] when it returns [a]
    and by [e r] when it fails, and does not enter the kernel; the null buffer is
    not a resource. *)
Definition bal {A} (m : M F A) (d : A -> resource -> Z) (e : resource -> Z) : Prop :=
  forall s r, r <> Pool 0 ->
    match m s with
    | (Ok a, s') => live (b_trace s') r = live (b_trace s) r + d a r
    | (Err _, s') => live (b_trace s') r = live (b_trace s) r + e r
    | (Entered _, _) => False
    | (Stuck, _) => True
    end.

Lemma bal_ret {A} (a : A) d e : (forall r, r <> Pool 0 -> d a r = 0) -> bal (ret a) d e.
Proof. intros Hd s r Hr. cbn. rewrite Hd by done. lia. Qed.

Lemma bal_throw {A} st (d : A -> resource -> Z) e :
  (forall r, r <> Pool 0 -> e r = 0) -> bal (throw st) d e.
Proof. intros He s r Hr. cbn. rewrite He by done. lia. Qed.

Lemma bal_stuck {A} (d : A -> resource -> Z) e : bal stuck d e.
Proof. intros s r Hr. done. Qed.

Lemma bal_bind {A B} (m : M F A) (k : A -> M F B) d1 d e :
  bal m d1 e -> (forall a, bal (k a) (fun b r => d b r - d1 a r) (fun r => e r - d1 a r)) ->
  bal (bind m k) d e.
Proof.
  intros Hm Hk s r Hr. unfold bind. specialize (Hm s r Hr).
  destruct (m s) as [[a|st|h|] s']; [|done..].
  specialize (Hk a s' r Hr). destruct (k a s') as [[b|st|h|] s'']; lia || done.
Qed.

Lemma bal_call {A} (f : F -> A * F) log d e :
  (forall a r, r <> Pool 0 -> live (log a) r = d a r) -> bal (call f log) d e.
Proof.
  intros Hl s r Hr. unfold call. destruct (f (b_fw s)) as [a fw]. cbn [set_fw b_trace].
  rewrite live_app, Hl by done. lia.
Qed.

Lemma bal_on_error {A} (m : M F A) h d e1 e :
  bal m d e1 -> (forall st, bal (h st) (fun _ r => e r - e1 r) (fun r => e r - e1 r)) ->
  bal (on_error m h) d e.
Proof.
  intros Hm Hh s r Hr. unfold on_error. specialize (Hm s r Hr).
  destruct (m s) as [[a|st|hh|] s']; [done| |done..].
  specialize (Hh st s' r Hr). destruct (h st s') as [[b|st'|hh|] s'']; lia || done.
Qed.

Lemma bal_attempt {A} (m : M F A) d e e' :
  bal m d e ->
  bal (attempt m) (fun x r => match x with inl a => d a r | inr _ => e r end) e'.
Proof.
  intros Hm s r Hr. unfold attempt. specialize (Hm s r Hr). by destruct (m s) as [[a|st|hh|] s'].
Qed.

Lemma bal_mono {A} (m : M F A) d d' e e' :
  bal m d e -> (forall a r, r <> Pool 0 -> d a r = d' a r) ->
  (forall r, r <> Pool 0 -> e r = e' r) -> bal m d' e'.
Proof.
  intros Hm Hd He s r Hr. specialize (Hm s r Hr).
  destruct (m s) as [[a|st|hh|] s']; rewrite <- ?Hd, <- ?He by done; done.
Qed.

(** Computations that return normally and leave the trace alone. *)
Definition quiet {A} (m : M F A) : Prop :=
  forall s, exists a s', m s = (Ok a, s') /\ b_trace s' = b_trace s.

Lemma bal_quiet {A B} (m : M F A) (k : A -> M F B) d e :
  quiet m -> (forall a, bal (k a) d e) -> bal (bind m k) d e.
Proof.
  intros Hm Hk s r Hr. unfold bind. destruct (Hm s) as (a & s' & -> & <-). by apply Hk.
Qed.

Lemma bal_seq {A B} (m : M F A) (k : A -> M F B) d1 d e :
  (forall e', bal m d1 e') ->
  (forall a, bal (k a) (fun b r => d b r - d1 a r) (fun r => e r - d1 a r)) ->
  bal (bind m k) d e.
Proof. intros Hm. by apply bal_bind. Qed.

Lemma bal_silent {A B} (f : F -> A * F) (k : A -> M F B) d e :
  (forall a, bal (k a) d e) -> bal (bind (call f (fun _ => [])) k) d e.
Proof.
  intros Hk. eapply bal_seq.
  - intros e'. apply (bal_call _ _ (fun _ _ => 0)). done.
  - intros a. eapply bal_mono; [apply Hk| |]; intros; cbn; lia.
Qed.

(** A neutral computation may come first. *)
Lemma bal_skip {A B} (m : M F A) (k : A -> M F B) d e :
  (forall e', bal m (fun _ _ => 0) e') -> (forall a, bal (k a) d e) -> bal (bind m k) d e.
Proof.
  intros Hm Hk. eapply bal_seq; [exact Hm|].
  intros a. eapply bal_mono; [apply Hk| |]; intros; cbn; lia.
Qed.
End Balance.

(** [bal_step] goes through a loader function; what it leaves are equations
    between counts, closed by [ind_tac]. *)
Ltac ind_tac :=
  intros; cbn [live foldr event_live fst snd] in *; unfold ind in *;
  repeat case_decide; simplify_eq; try done; try lia.

Section ServiceBalance.
Context {F : Type} `{Firmware F}.
Hypothesis free_present : FreePool <> None.

Definition none : resource -> Z := fun _ => 0.

Lemma bal_check st d e :
  (forall a r, r <> Pool 0 -> d a r = 0) -> (forall r, r <> Pool 0 -> e r = 0) ->
  bal (F := F) (check st) d e.
Proof. intros Hd He. unfold check. case_match; [apply bal_throw|apply bal_ret]; auto. Qed.

Lemma bal_console text d e :
  (forall a r, r <> Pool 0 -> d a r = 0) -> bal (F := F) (console_write text) d e.
Proof.
  intros Hd. unfold console_write. case_match; [apply bal_call|apply bal_ret; auto].
  intros a r Hr. by rewrite Hd.
Qed.

Lemma bal_free b e :
  bal (F := F) (panthera_free_pool b) (fun _ r => - ind (Pool b) r) e.
Proof.
  unfold panthera_free_pool. destruct (Z.eqb_spec b 0) as [->|].
  - apply bal_ret. ind_tac.
  - destruct FreePool; [|done]. apply bal_call. ind_tac.
Qed.

(** A call that acquires something when it succeeds. *)
Lemma bal_acquire (f : F -> Z * Z * F) (ev : Z -> event) :
  bal (let! (st, x) := call f (fun r => if EFI_ERROR r.1 then [] else [ev r.2]) in
       check st >> ret x) (fun x r => event_live (ev x) r) none.
Proof.
  intros s r Hr. unfold bind, call, check. destruct (f (b_fw s)) as [[st x] fw]. cbn [fst snd].
  destruct (EFI_ERROR st); unfold throw, ret, none; cbn [set_fw b_trace];
    rewrite live_app; cbn; lia.
Qed.

Lemma bal_alloc_pool size :
  bal (F := F) (panthera_allocate_pool size) (fun b r => ind (Pool b) r) none.
Proof.
  unfold panthera_allocate_pool. destruct AllocatePool as [f|]; [|by apply bal_throw].
  apply (bal_acquire (f size) PoolAllocated).
Qed.

Lemma bal_open_volume fs : bal (F := F) (open_volume fs) (fun h r => ind (Handle h) r) none.
Proof. apply (bal_acquire _ Opened). Qed.

Lemma bal_open_file root path :
  bal (F := F) (open_file root path) (fun h r => ind (Handle h) r) none.
Proof. apply (bal_acquire _ Opened). Qed.

Lemma bal_close h e : bal (F := F) (close_handle h) (fun _ r => - ind (Handle h) r) e.
Proof. apply bal_call. ind_tac. Qed.

Lemma bal_close_both f h e :
  bal (F := F) (close_both f h) (fun _ r => - ind (Handle f) r - ind (Handle h) r) e.
Proof.
  unfold close_both. eapply bal_bind; [apply bal_close|]. intros [].
  eapply bal_mono; [apply bal_close| |]; intros; cbn; [lia|reflexivity].
Qed.

Lemma bal_get_info file size buffer e : bal (F := F) (get_info file size buffer) (fun _ _ => 0) e.
Proof.
  unfold get_info. apply bal_silent. intros [[st sz] bytes].
  apply bal_quiet; [|intros; by apply bal_ret]. unfold store_bytes. intros s.
  destruct (buffer =? 0); by do 2 eexists.
Qed.

Lemma bal_read_file file size buffer e : bal (F := F) (read_file file size buffer) (fun _ _ => 0) e.
Proof.
  unfold read_file. apply bal_silent. intros [[st sz] bytes].
  apply bal_quiet; [by do 2 eexists|intros; by apply bal_ret].
Qed.

Lemma bal_info_size info e : bal (F := F) (file_info_size_field info) (fun _ _ => 0) e.
Proof. apply bal_quiet; [by do 2 eexists|intros; by apply bal_ret]. Qed.

(** Release both handles and then finish. *)
Lemma bal_finish {A} f h (k : M F A) d e :
  bal k (fun a r => d a r + ind (Handle f) r + ind (Handle h) r)
    (fun r => e r + ind (Handle f) r + ind (Handle h) r) ->
  bal (close_both f h >> k) d e.
Proof.
  intros Hk. eapply bal_seq; [intros; apply bal_close_both|]. intros [].
  eapply bal_mono; [exact Hk| |]; intros; cbn; lia.
Qed.

Lemma bal_release {A} b (k : M F A) d e :
  bal k (fun a r => d a r + ind (Pool b) r) (fun r => e r + ind (Pool b) r) ->
  bal (panthera_free_pool b >> k) d e.
Proof.
  intros Hk. eapply bal_seq; [intros; apply bal_free|]. intros [].
  eapply bal_mono; [exact Hk| |]; intros; cbn; lia.
Qed.

Lemma bal_load_open_file root file :
  bal (F := F) (load_open_file root file)
    (fun x r => ind (Pool x.1) r - ind (Handle file) r - ind (Handle root) r)
    (fun r => - ind (Handle file) r - ind (Handle root) r).
Proof.
  unfold load_open_file. apply bal_skip; [apply bal_get_info|]. intros [st sz].
  destruct (_ || _).
  { apply bal_finish. eapply bal_bind; [apply (bal_check st (fun _ _ => 0))|]; ind_tac.
    apply bal_ret. ind_tac. }
  eapply bal_bind.
  { eapply bal_on_error; [apply bal_alloc_pool|]. intros st'.
    eapply bal_mono; [apply bal_close_both| |]; unfold none; intros; cbn; [lia|reflexivity]. }
  intros info. apply bal_skip; [apply bal_get_info|]. intros [st2 sz2].
  destruct (EFI_ERROR st2).
  { apply bal_release, bal_finish, bal_throw. intros; cbn. lia. }
  apply bal_skip; [apply bal_info_size|]. intros fsz. eapply bal_bind.
  { eapply bal_on_error; [apply bal_alloc_pool|]. intros st'.
    apply bal_release. eapply bal_mono; [apply bal_close_both| |]; unfold none; intros; cbn; [lia|reflexivity]. }
  intros buf. apply bal_skip; [apply bal_read_file|]. intros [st3 rd].
  apply bal_skip; [apply bal_info_size|]. intros fsz'.
  destruct (_ || _).
  - apply bal_release, bal_release, bal_finish, bal_throw. intros; cbn. lia.
  - apply bal_release, bal_finish, bal_ret. intros; cbn. lia.
Qed.

Lemma bal_handle_protocol h g : bal (F := F) (panthera_handle_protocol h g) (fun _ _ => 0) none.
Proof.
  unfold panthera_handle_protocol. destruct HandleProtocol as [f|]; [|by apply bal_throw].
  apply bal_silent. intros [st x]. eapply bal_bind; [by apply (bal_check st (fun _ _ => 0))|].
  intros. by apply bal_ret.
Qed.

Lemma bal_load_kernel_file ih path :
  bal (F := F) (panthera_load_kernel_file ih path) (fun x r => ind (Pool x.1) r) none.
Proof.
  unfold panthera_load_kernel_file. eapply bal_bind; [apply bal_handle_protocol|]. intros li.
  apply bal_quiet; [by do 2 eexists|]. intros dev.
  eapply bal_bind; [eapply bal_mono; [apply bal_handle_protocol|done|]|].
  { intros; cbn. unfold none. lia. }
  intros fs. eapply bal_bind; [eapply bal_mono; [apply bal_open_volume|done|]|].
  { intros; cbn. unfold none. lia. }
  intros root. eapply bal_bind.
  { eapply bal_on_error; [apply bal_open_file|]. intros st.
    eapply bal_mono; [apply (bal_close root)| |]; intros; cbn; unfold none; [lia|reflexivity]. }
  intros file. eapply bal_mono; [apply bal_load_open_file| |]; intros; cbn; unfold none; lia.
Qed.

Lemma bal_write {A} text (k : M F A) d e :
  bal k d e -> bal (console_write text >> k) d e.
Proof. intros Hk. apply bal_skip; [intros; by apply bal_console|done]. Qed.

Lemma bal_try_load_kernel ih :
  bal (F := F) (panthera_try_load_kernel ih) (fun x r => ind (Pool x.1) r) none.
Proof.
  unfold panthera_try_load_kernel. eapply bal_bind; [apply bal_attempt, bal_load_kernel_file|].
  intros [[buf sz]|st].
  - apply bal_write, bal_ret. intros; cbn. lia.
  - eapply bal_bind; [eapply bal_mono; [apply bal_load_kernel_file|done|]|].
    { intros; cbn. unfold none. lia. }
    intros [buf sz]. apply bal_write, bal_ret. intros; cbn. unfold none. lia.
Qed.

Lemma bal_load_boot_command_line ih :
  bal (F := F) (panthera_load_boot_command_line ih) (fun _ _ => 0) none.
Proof.
  unfold panthera_load_boot_command_line. apply bal_quiet; [by do 2 eexists|]. intros _.
  eapply bal_bind; [apply bal_attempt, bal_load_kernel_file|]. intros r.
  set (p := match r with inl p => p | inr _ => (0, 0) end).
  assert (Hp : forall x, x <> Pool 0 ->
    match r with inl a => ind (Pool a.1) x | inr _ => none x end = ind (Pool p.1) x).
  { intros x Hx. unfold p, none. destruct r; [done|]. ind_tac. }
  destruct p as [buf sz]. cbn [fst] in Hp. apply bal_quiet.
  { intros s. destruct (_ || _); [by do 2 eexists|].
    unfold bind, get_mem. destruct (boot_command_line _). by do 2 eexists. }
  intros used. apply bal_release. do 4 apply bal_write.
  apply bal_skip.
  { intros e. apply bal_quiet; [by do 2 eexists|]. intros line. by apply bal_console. }
  intros _. apply bal_write, bal_ret. intros x Hx. rewrite Hp by done. lia.
Qed.
End ServiceBalance.

(** ** Outcomes of the allocation functions

    They change the firmware and the trace only, and fail with an error status. *)
Section Outcomes.
Context {F : Type} `{Firmware F}.

Definition firmware_only {A} (m : M F A) : Prop :=
  forall s, exists r fw es, m s = (r, set_fw s fw es) /\
    match r with Ok _ => True | Err st => EFI_ERROR st = true | _ => False end.

Lemma set_fw_set_fw (s : boot_state F) f1 e1 f2 e2 :
  set_fw (set_fw s f1 e1) f2 e2 = set_fw s f2 (e2 ++ e1).
Proof. unfold set_fw. cbn. by rewrite (assoc_L (++)). Qed.

Lemma set_fw_id (s : boot_state F) : set_fw s (b_fw s) [] = s.
Proof. by destruct s. Qed.

Lemma firmware_only_bind {A B} (m : M F A) (k : A -> M F B) :
  firmware_only m -> (forall a, firmware_only (k a)) -> firmware_only (bind m k).
Proof.
  intros Hm Hk s. unfold bind. destruct (Hm s) as ([a|st|h|] & fw & es & -> & Hr); try done.
  - destruct (Hk a (set_fw s fw es)) as (r & fw' & es' & -> & Hr').
    exists r, fw', (es' ++ es). by rewrite set_fw_set_fw.
  - by exists (Err st), fw, es.
Qed.

Lemma firmware_only_ret {A} (a : A) : firmware_only (ret a).
Proof. intros s. exists (Ok a), (b_fw s), []. by rewrite set_fw_id. Qed.

Lemma firmware_only_throw {A} st : EFI_ERROR st = true -> firmware_only (throw (A := A) st).
Proof. intros H' s. exists (Err st), (b_fw s), []. by rewrite set_fw_id. Qed.

Lemma firmware_only_call {A} (f : F -> A * F) log : firmware_only (call f log).
Proof.
  intros s. unfold call. destruct (f (b_fw s)) as [a fw]. by exists (Ok a), fw, (log a).
Qed.

Lemma firmware_only_check st : firmware_only (check st).
Proof.
  unfold check. destruct (EFI_ERROR st) eqn:E; [by apply firmware_only_throw|apply firmware_only_ret].
Qed.

Lemma allocate_pages_outcome size : firmware_only (panthera_allocate_pages size).
Proof.
  unfold panthera_allocate_pages. destruct AllocatePages as [f|]; [|by apply firmware_only_throw].
  apply firmware_only_bind; [apply firmware_only_call|]. intros [st a].
  destruct (negb (EFI_ERROR st)); [apply firmware_only_ret|].
  apply firmware_only_bind; [apply firmware_only_call|]. intros [st' a'].
  apply firmware_only_bind; [apply firmware_only_check|]. intros. apply firmware_only_ret.
Qed.

Lemma allocate_pages_at_outcome size at_ : firmware_only (panthera_allocate_pages_at size at_).
Proof.
  unfold panthera_allocate_pages_at. destruct AllocatePages as [f|]; [|by apply firmware_only_throw].
  apply firmware_only_bind; [apply firmware_only_call|]. intros [st a].
  apply firmware_only_bind; [apply firmware_only_check|]. intros. apply firmware_only_ret.
Qed.
End Outcomes.
