(* ===== verification/BootLogic.v ===== *)
(** * Reasoning about the boot loader

    Three judgements on loader computations: [pres R m], every run of [m] stays
    in the preorder [R]; [triple P m Q E], a Hoare triple with a postcondition
    for normal return and one for entering the kernel; and the documented
    contract of the firmware, [LawfulFirmware], with the memory frame it gives. *)

From Stdlib Require Import ZArith Lia.
From stdpp Require Import base list gmap relations.
From S2P Require Import Prelude MachO BootText Efi.

Open Scope Z_scope.

(** ** Preserved preorders *)
Section Pres.
Context {F : Type}.
Variable R : relation (boot_state F).
Context `{!PreOrder R}.

Definition pres {A} (m : M F A) : Prop := forall s, R s (m s).2.

Lemma pres_run {A} (m : M F A) s r s' : pres m -> m s = (r, s') -> R s s'.
Proof. intros Hm E. specialize (Hm s). by rewrite E in Hm. Qed.

Lemma pres_ret {A} (a : A) : pres (ret a).
Proof. intros s. reflexivity. Qed.

Lemma pres_throw {A} st : pres (throw (A := A) st).
Proof. intros s. reflexivity. Qed.

Lemma pres_stuck {A} : pres (stuck (A := A)).
Proof. intros s. reflexivity. Qed.

Lemma pres_bind {A B} (m : M F A) (k : A -> M F B) :
  pres m -> (forall a, pres (k a)) -> pres (bind m k).
Proof.
  intros Hm Hk s. unfold bind. specialize (Hm s). destruct (m s) as [[a|st|h|] s']; cbn in *;
    try done. etrans; [exact Hm|]. apply Hk.
Qed.

Lemma pres_on_error {A} (m : M F A) h :
  pres m -> (forall st, pres (h st)) -> pres (on_error m h).
Proof.
  intros Hm Hh s. unfold on_error. specialize (Hm s). destruct (m s) as [[a|st|e|] s']; cbn in *;
    try done. specialize (Hh st s'). etrans; [exact Hm|].
  by destruct (h st s') as [[?|?|?|] ?].
Qed.

Lemma pres_attempt {A} (m : M F A) : pres m -> pres (attempt m).
Proof.
  intros Hm s. unfold attempt. specialize (Hm s). by destruct (m s) as [[a|st|e|] s'].
Qed.

Lemma pres_check st : pres (check st).
Proof. unfold check. destruct (EFI_ERROR st); [apply pres_throw|apply pres_ret]. Qed.

Lemma pres_get_var x : pres (get_var x).
Proof. intros s. reflexivity. Qed.
Lemma pres_get_mem : pres get_mem.
Proof. intros s. reflexivity. Qed.
Lemma pres_get_image : pres get_image.
Proof. intros s. reflexivity. Qed.
Lemma pres_get_command_line : pres get_command_line.
Proof. intros s. reflexivity. Qed.
Lemma pres_get_records : pres get_records.
Proof. intros s. reflexivity. Qed.
End Pres.

(** ** Triples *)
Section Triple.
Context {F : Type}.

Definition triple {A} (P : boot_state F -> Prop) (m : M F A) (Q : A -> boot_state F -> Prop)
    (E : handoff -> boot_state F -> Prop) : Prop :=
  forall s, P s ->
    match m s with
    | (Ok a, s') => Q a s'
    | (Entered h, s') => E h s'
    | _ => True
    end.

(** A computation that does not enter the kernel. *)
Definition stays {A} (P : boot_state F -> Prop) (m : M F A) (Q : A -> boot_state F -> Prop) : Prop :=
  triple P m Q (fun _ _ => False).

Lemma triple_bind {A B} P Q R E (m : M F A) (k : A -> M F B) :
  triple P m Q E -> (forall a, triple (Q a) (k a) R E) -> triple P (bind m k) R E.
Proof.
  intros Hm Hk s Hs. unfold bind. specialize (Hm s Hs). destruct (m s) as [[a|st|h|] s']; try done.
  by apply Hk.
Qed.

Lemma triple_mono {A} (P P' : boot_state F -> Prop) (Q Q' : A -> boot_state F -> Prop) E E' m :
  triple P m Q E -> (forall s, P' s -> P s) -> (forall a s, Q a s -> Q' a s) ->
  (forall h s, E h s -> E' h s) -> triple P' m Q' E'.
Proof.
  intros Hm HP HQ HE s Hs. specialize (Hm s (HP s Hs)). destruct (m s) as [[a|st|h|] s']; auto.
Qed.

Lemma stays_mono {A} (P P' : boot_state F -> Prop) (Q Q' : A -> boot_state F -> Prop) m :
  stays P m Q -> (forall s, P' s -> P s) -> (forall a s, Q a s -> Q' a s) -> stays P' m Q'.
Proof. intros. by eapply triple_mono. Qed.

Lemma stays_triple {A} P (m : M F A) Q E : stays P m Q -> triple P m Q E.
Proof. intros Hm. by eapply triple_mono. Qed.

Lemma stays_bind {A B} P Q R (m : M F A) (k : A -> M F B) :
  stays P m Q -> (forall a, stays (Q a) (k a) R) -> stays P (bind m k) R.
Proof. apply triple_bind. Qed.

(** [never m]: no run of [m] enters the kernel. *)
Definition never {A} (m : M F A) : Prop := stays (fun _ => True) m (fun _ _ => True).

Lemma never_bind {A B} (m : M F A) (k : A -> M F B) :
  never m -> (forall a, never (k a)) -> never (bind m k).
Proof. apply triple_bind. Qed.

Lemma never_ret {A} (a : A) : never (ret a).
Proof. done. Qed.

Lemma never_throw {A} st : never (throw (A := A) st).
Proof. done. Qed.

Lemma never_stuck {A} : never (stuck (A := A)).
Proof. done. Qed.

Lemma never_on_error {A} (m : M F A) h :
  never m -> (forall st, never (h st)) -> never (on_error m h).
Proof.
  intros Hm Hh s _. unfold on_error. specialize (Hm s I). destruct (m s) as [[a|st|e|] s']; try done.
  specialize (Hh st s' I). by destruct (h st s') as [[?|?|?|] ?].
Qed.

Lemma never_attempt {A} (m : M F A) : never m -> never (attempt m).
Proof. intros Hm s _. unfold attempt. specialize (Hm s I). by destruct (m s) as [[a|st|e|] s']. Qed.

Lemma never_check st : never (check st).
Proof. unfold check. by destruct (EFI_ERROR st). Qed.

Lemma never_call {A} (f : F -> A * F) log : never (call f log).
Proof. intros s _. unfold call. by destruct (f (b_fw s)). Qed.

(** [total m]: every run of [m] returns or fails with an error status. *)
Definition total {A} (m : M F A) : Prop := forall s,
  match m s with
  | (Ok _, _) => True
  | (Err st, _) => EFI_ERROR st = true
  | _ => False
  end.

Lemma total_ret {A} (a : A) : total (ret a).
Proof. done. Qed.

Lemma total_throw {A} st : EFI_ERROR st = true -> total (throw (A := A) st).
Proof. by intros Hs s. Qed.

Lemma total_bind {A B} (m : M F A) (k : A -> M F B) :
  total m -> (forall a, total (k a)) -> total (bind m k).
Proof.
  intros Hm Hk s. unfold bind. specialize (Hm s). destruct (m s) as [[a|st|h|] s']; try done.
  apply Hk.
Qed.

Lemma total_on_error {A} (m : M F A) h :
  total m -> (forall st, total (h st)) -> total (on_error m h).
Proof.
  intros Hm Hh s. unfold on_error. specialize (Hm s). destruct (m s) as [[a|st|e|] s']; try done.
  specialize (Hh st s'). by destruct (h st s') as [[?|?|?|] ?].
Qed.

Lemma total_attempt {A} (m : M F A) : total m -> total (attempt m).
Proof. intros Hm s. unfold attempt. specialize (Hm s). by destruct (m s) as [[a|st|e|] s']. Qed.

Lemma total_check st : total (check st).
Proof. intros s. unfold check. by destruct (EFI_ERROR st) eqn:E. Qed.

Lemma total_call {A} (f : F -> A * F) log : total (call f log).
Proof. intros s. unfold call. by destruct (f (b_fw s)). Qed.

Lemma total_never {A} (m : M F A) : total m -> never m.
Proof. intros Hm s _. specialize (Hm s). by destruct (m s) as [[a|st|h|] s']. Qed.

(** Facts that survive a computation which stays in a preorder. *)
Lemma stays_pres {A} R (I : boot_state F -> Prop) (m : M F A) :
  pres R m -> never m -> (forall s s', R s s' -> I s -> I s') -> stays I m (fun _ => I).
Proof.
  intros Hm Hn HI s Hs. specialize (Hm s). specialize (Hn s Logic.I).
  destruct (m s) as [[a|st|h|] s']; try done. by eapply HI.
Qed.

Lemma stays_and {A} P (m : M F A) Q I :
  stays P m Q -> stays I m (fun _ => I) -> stays (fun s => P s /\ I s) m (fun a s => Q a s /\ I s).
Proof.
  intros H1 H2 s [Hp Hi]. specialize (H1 s Hp). specialize (H2 s Hi).
  destruct (m s) as [[a|st|h|] s']; try done.
Qed.

Lemma triple_on_error {A} P (m : M F A) h Q E :
  triple P m Q E -> (forall st, never (h st)) -> triple P (on_error m h) Q E.
Proof.
  intros Hm Hh s Hs. unfold on_error. specialize (Hm s Hs). destruct (m s) as [[a|st|e|] s']; try done.
  specialize (Hh st s' I). by destruct (h st s') as [[?|?|?|] ?].
Qed.
End Triple.

(** ** Relations on loader states *)
Section Relations.
Context {F : Type}.

(** Only the variables of [X] may change. *)
Definition vars_kept (X : list gvar) : relation (boot_state F) :=
  fun s s' => forall x, x ∉ X -> b_vars s' x = b_vars s x.

#[export] Instance vars_kept_preorder X : PreOrder (vars_kept X).
Proof.
  split; [by intros s x _|]. intros s1 s2 s3 H1 H2 x Hx. by rewrite H2, H1.
Qed.

Lemma vars_kept_weaken X Y s s' : X ⊆ Y -> vars_kept X s s' -> vars_kept Y s s'.
Proof. intros HX H' x Hx. apply H'. set_solver. Qed.

(** The parsed image stays as it is. *)
Definition image_kept : relation (boot_state F) := fun s s' => gKernelImage s' = gKernelImage s.

#[export] Instance image_kept_preorder : PreOrder image_kept.
Proof. split; [done|]. intros s1 s2 s3 H1 H2. unfold image_kept in *. congruence. Qed.

Definition records_kept : relation (boot_state F) :=
  fun s s' => gBootKextRecords s' = gBootKextRecords s.

#[export] Instance records_kept_preorder : PreOrder records_kept.
Proof. split; [done|]. intros s1 s2 s3 H1 H2. unfold records_kept in *. congruence. Qed.

(** Everything but memory, the firmware and the trace stays as it is. *)
Definition globals_kept : relation (boot_state F) := fun s s' =>
  b_vars s' = b_vars s /\ gKernelImage s' = gKernelImage s /\
  gBootCommandLine s' = gBootCommandLine s /\ gBootKextRecords s' = gBootKextRecords s.

#[export] Instance globals_kept_preorder : PreOrder globals_kept.
Proof.
  split; [done|]. intros s1 s2 s3 (A1 & B1 & C1 & D1) (A2 & B2 & C2 & D2).
  unfold globals_kept. split_and!; congruence.
Qed.

Definition trace_kept : relation (boot_state F) := fun s s' => b_trace s' = b_trace s.

#[export] Instance trace_kept_preorder : PreOrder trace_kept.
Proof. split; [done|]. intros s1 s2 s3 H1 H2. unfold trace_kept in *. congruence. Qed.

Definition mem_kept : relation (boot_state F) := fun s s' => b_mem s' = b_mem s.

#[export] Instance mem_kept_preorder : PreOrder mem_kept.
Proof. split; [done|]. intros s1 s2 s3 H1 H2. unfold mem_kept in *. congruence. Qed.

(** Bytes stay bytes. *)
Definition wf_kept : relation (boot_state F) := fun s s' => mem_wf (b_mem s) -> mem_wf (b_mem s').

#[export] Instance wf_kept_preorder : PreOrder wf_kept.
Proof. split; [by intros s ?|]. intros s1 s2 s3 H1 H2 H. auto. Qed.
End Relations.

(** ** Automation

    [never_tac] and [pres_tac leaf] walk through a loader function: they use
    the hints of the database [boot] for functions already treated and unfold
    the others; [leaf] closes the primitive steps that change the state. *)
Create HintDb boot.

Ltac head t := lazymatch t with ?f _ => head f | _ => t end.

Ltac walk_unfold m := let h := head m in unfold h.

Ltac never_tac :=
  repeat lazymatch goal with
  | |- forall _, never _ => intros ?
  | |- never (bind _ _) => apply never_bind; [|intros]
  | |- never (on_error _ _) => apply never_on_error; [|intros]
  | |- never (attempt _) => apply never_attempt
  | |- never (ret _) => apply never_ret
  | |- never (throw _) => apply never_throw
  | |- never stuck => apply never_stuck
  | |- never (check _) => apply never_check
  | |- never (call _ _) => apply never_call
  | |- never (get_var _) => done
  | |- never get_mem => done
  | |- never get_image => done
  | |- never get_command_line => done
  | |- never get_records => done
  | |- never (put_var _ _) => done
  | |- never (put_mem _) => done
  | |- never (put_image _) => done
  | |- never (put_command_line _) => done
  | |- never (put_records _) => done
  | |- never (fun _ => _) => done
  | |- never (match ?x with _ => _ end) => destruct x
  | |- never ?m => first [solve [eauto 1 with boot nocore] | walk_unfold m]
  end.

Ltac total_tac :=
  repeat lazymatch goal with
  | |- forall _, total _ => intros ?
  | |- total (bind _ _) => apply total_bind; [|intros]
  | |- total (on_error _ _) => apply total_on_error; [|intros]
  | |- total (attempt _) => apply total_attempt
  | |- total (ret _) => apply total_ret
  | |- total (throw _) => apply total_throw; done
  | |- total (check _) => apply total_check
  | |- total (call _ _) => apply total_call
  | |- total (get_var _) => done
  | |- total get_mem => done
  | |- total get_image => done
  | |- total get_command_line => done
  | |- total get_records => done
  | |- total (put_var _ _) => done
  | |- total (put_mem _) => done
  | |- total (put_image _) => done
  | |- total (put_command_line _) => done
  | |- total (put_records _) => done
  | |- total (fun _ => _) => done
  | |- total (match ?x with _ => _ end) => let E := fresh "E" in destruct x eqn:E
  | |- total ?m => first [solve [eauto 1 with boot nocore] | walk_unfold m]
  end.

(** ** Error statuses *)
Section Errs.
Context {F : Type}.

(** [errs m]: a failing run of [m] fails with an error status, and no run enters
    the kernel. *)
Definition errs {A} (m : M F A) : Prop := forall s,
  match m s with
  | (Err st, _) => EFI_ERROR st = true
  | (Entered _, _) => False
  | _ => True
  end.

Lemma errs_total {A} (m : M F A) : total m -> errs m.
Proof. intros Hm s. specialize (Hm s). by destruct (m s) as [[a|st|h|] s']. Qed.

Lemma errs_never {A} (m : M F A) : errs m -> never m.
Proof. intros Hm s _. specialize (Hm s). by destruct (m s) as [[a|st|h|] s']. Qed.

Lemma errs_stuck {A} : errs (stuck (A := A)).
Proof. done. Qed.

Lemma errs_bind {A B} (m : M F A) (k : A -> M F B) :
  errs m -> (forall a, errs (k a)) -> errs (bind m k).
Proof.
  intros Hm Hk s. unfold bind. specialize (Hm s). destruct (m s) as [[a|st|h|] s']; try done.
  apply Hk.
Qed.

Lemma errs_on_error {A} (m : M F A) h :
  errs m -> (forall st, errs (h st)) -> errs (on_error m h).
Proof.
  intros Hm Hh s. unfold on_error. specialize (Hm s). destruct (m s) as [[a|st|e|] s']; try done.
  specialize (Hh st s'). by destruct (h st s') as [[?|?|?|] ?].
Qed.

(** What follows an attempt knows that the status it got is an error. *)
Lemma errs_attempt {A B} (m : M F A) (k : A + Z -> M F B) :
  errs m -> (forall a, errs (k (inl a))) ->
  (forall st, EFI_ERROR st = true -> errs (k (inr st))) -> errs (bind (attempt m) k).
Proof.
  intros Hm Hl Hr s. unfold bind, attempt. specialize (Hm s).
  destruct (m s) as [[a|st|e|] s']; try done; [apply Hl|by apply Hr].
Qed.
End Errs.

Ltac errs_tac :=
  repeat lazymatch goal with
  | |- forall _, errs _ => intros ?
  | |- errs (bind (attempt _) _) => apply errs_attempt; [|intros|intros]
  | |- errs (bind _ _) => apply errs_bind; [|intros]
  | |- errs (on_error _ _) => apply errs_on_error; [|intros]
  | |- errs stuck => apply errs_stuck
  | |- errs (match ?x with _ => _ end) => let E := fresh "E" in destruct x eqn:E
  | |- errs (throw _) => apply errs_total, total_throw; done
  | |- errs (ret _) => done
  | |- errs (check _) => apply errs_total, total_check
  | |- errs (call _ _) => apply errs_total, total_call
  | |- errs (get_var _) => done
  | |- errs get_mem => done
  | |- errs get_image => done
  | |- errs get_command_line => done
  | |- errs get_records => done
  | |- errs (put_var _ _) => done
  | |- errs (put_mem _) => done
  | |- errs (put_image _) => done
  | |- errs (put_command_line _) => done
  | |- errs (put_records _) => done
  | |- errs (fun _ => _) => done
  | |- errs ?m => first [solve [eauto 1 with boot nocore] | walk_unfold m]
  end.

Ltac pres_tac leaf :=
  repeat lazymatch goal with
  | |- forall _, pres _ _ => intros ?
  | |- pres _ (bind _ _) => apply pres_bind; [apply _| |intros]
  | |- pres _ (on_error _ _) => apply pres_on_error; [apply _| |intros]
  | |- pres _ (attempt _) => apply pres_attempt
  | |- pres _ (ret _) => apply pres_ret; apply _
  | |- pres _ (throw _) => apply pres_throw; apply _
  | |- pres _ stuck => apply pres_stuck; apply _
  | |- pres _ (check _) => apply pres_check; apply _
  | |- pres _ (get_var _) => apply pres_get_var; apply _
  | |- pres _ get_mem => apply pres_get_mem; apply _
  | |- pres _ get_image => apply pres_get_image; apply _
  | |- pres _ get_command_line => apply pres_get_command_line; apply _
  | |- pres _ get_records => apply pres_get_records; apply _
  | |- pres _ (match ?x with _ => _ end) => destruct x
  | |- pres _ ?m => first [solve [eauto 1 with boot nocore] | solve [leaf ()] | walk_unfold m]
  end.

Ltac kept_done :=
  intros ?; first [reflexivity | split_and!; reflexivity | intros ? ?; first [reflexivity | assumption]].

Ltac kept_leaf _ :=
  lazymatch goal with
  | |- pres _ (call _ _) => intros ?; unfold call; case_match; first [done | intros ? _; done]
  | |- pres (vars_kept _) (put_var _ _) =>
      intros ? ? ?; cbn [put_var snd]; apply var_other; set_solver
  | |- pres _ (put_var _ _) => kept_done
  | |- pres _ (put_mem _) => kept_done
  | |- pres _ (put_image _) => kept_done
  | |- pres _ (put_command_line _) => kept_done
  | |- pres _ (put_records _) => kept_done
  | |- pres _ (fun _ => _) => kept_done
  end.

Ltac kept_tac := pres_tac kept_leaf.

(** ** The contract of the firmware

    What the UEFI specification promises of the services: page and pool
    allocations are disjoint from the live ones, [EFI_ALLOCATE_ADDRESS] returns
    the address asked for, buffers are filled within the size passed, file
    information is not delivered into an empty buffer, the first read of an
    opened file delivers the file's bytes, and a memory map is a non-empty array
    of descriptors that fits the buffer. Nothing is promised about when a call
    succeeds. *)
Class LawfulFirmware (F : Type) `{Firmware F} := {
  (** The addresses of page allocations. *)
  paged : F -> Z -> Prop;
  (** The live pool buffers, base and size. *)
  block : F -> Z -> Z -> Prop;
  (** The open files not yet read from, handle and path. *)
  opened : F -> Z -> list Z -> Prop;
  (** The contents of the boot volume. *)
  volume : list Z -> list Z;

  keeps (fw fw' : F) : Prop :=
    (forall x, paged fw x -> paged fw' x) /\
    (forall b n, block fw b n -> block fw' b n) /\
    (forall h p, opened fw h p -> opened fw' h p);

  volume_bytes p : Forall byte (volume p);
  volume_size p : Z.of_nat (length (volume p)) < 2 ^ 63;
  OutputString_law f t fw : OutputString = Some f -> keeps fw (f t fw).2;
  HandleProtocol_law f h g fw : HandleProtocol = Some f -> keeps fw (f h g fw).2;
  Stall_law f n fw : Stall = Some f -> keeps fw (f n fw).2;
  rdtsc_law fw : keeps fw (rdtsc fw).2;
  LocateProtocol_law fw : keeps fw (LocateProtocol fw).2;
  OpenVolume_law v fw : keeps fw (OpenVolume v fw).2;
  ExitBootServices_law key fw : keeps fw (ExitBootServices key fw).2;
  AllocatePages_law f kind n a fw : AllocatePages = Some f ->
    let '(st, b, fw') := f kind n a fw in
    keeps fw fw' /\
    (EFI_ERROR st = false ->
       0 <= b /\ b mod 4096 = 0 /\ b + 4096 * n < 2 ^ 64 /\
       (kind = EFI_ALLOCATE_ADDRESS -> b = a) /\
       (forall x, b <= x < b + 4096 * n -> ~ paged fw x /\ paged fw' x) /\
       (forall b' n', block fw b' n' -> b' + n' <= b \/ b + 4096 * n <= b'));
  AllocatePool_law f n fw : AllocatePool = Some f ->
    let '(st, b, fw') := f n fw in
    keeps fw fw' /\
    (EFI_ERROR st = false ->
       block fw' b n /\ 0 < b /\ b + n <= 2 ^ 64 /\
       (forall x, b <= x < b + n -> ~ paged fw x) /\
       (forall b' n', block fw b' n' -> b' <> b /\ (b' + n' <= b \/ b + n <= b')));
  FreePool_law f b fw : FreePool = Some f ->
    (forall x, paged fw x -> paged (f b fw) x) /\
    (forall b' n, block fw b' n -> b' <> b -> block (f b fw) b' n) /\
    (forall h p, opened fw h p -> opened (f b fw) h p);
  Open_law root p fw :
    let '(st, h, fw') := Open root p fw in
    keeps fw fw' /\ (EFI_ERROR st = false -> opened fw' h p);
  Close_law h fw :
    (forall x, paged fw x -> paged (Close h fw) x) /\
    (forall b n, block fw b n -> block (Close h fw) b n);
  GetInfo_law h n buffer fw :
    let '(st, n', bytes, fw') := GetInfo h n buffer fw in
    keeps fw fw' /\ Z.of_nat (length bytes) <= Z.max 0 n /\ Forall byte bytes /\
    (n = 0 -> EFI_ERROR st = true) /\
    (forall p, opened fw h p -> EFI_ERROR st = false -> buffer <> 0 ->
       16 <= Z.of_nat (length bytes) /\
       take 8 (drop 8 bytes) = le_encode 8 (Z.of_nat (length (volume p))));
  Read_law h n fw : 0 <= n ->
    let '(st, n', bytes, fw') := Read h n fw in
    (forall x, paged fw x -> paged fw' x) /\
    (forall b k, block fw b k -> block fw' b k) /\
    Z.of_nat (length bytes) <= n /\ Forall byte bytes /\
    (forall p, opened fw h p -> EFI_ERROR st = false ->
       bytes = take (Z.to_nat n) (volume p) /\ n' = Z.of_nat (length bytes));
  GetMemoryMap_law size buffer fw :
    let '(r, fw') := GetMemoryMap size buffer fw in
    keeps fw fw' /\ Z.of_nat (length (mr_bytes r)) <= Z.max 0 size /\ Forall byte (mr_bytes r) /\
    (mr_status r = EFI_BUFFER_TOO_SMALL -> 0 <= mr_size r < 2 ^ 63) /\
    (EFI_ERROR (mr_status r) = false ->
       40 <= mr_desc_size r /\ 0 < mr_size r <= size /\
       exists n, mr_size r = Z.of_nat n * mr_desc_size r)
}.

Arguments paged {F _ _} _ _.
Arguments block {F _ _} _ _ _.
Arguments opened {F _ _} _ _ _.
Arguments volume {F _ _} _.
Arguments keeps {F _ _} _ _.

(** ** Inversion of runs that return *)
Section Inversion.
Context {F : Type}.

Lemma bind_ok {A B} (m : M F A) (k : A -> M F B) s b s' :
  bind m k s = (Ok b, s') -> exists a s1, m s = (Ok a, s1) /\ k a s1 = (Ok b, s').
Proof. unfold bind. destruct (m s) as [[a|st|h|] s1]; intros; try done. by eexists _, _. Qed.

(** Only the last part of a sequence can enter the kernel. *)
Lemma bind_entered {A B} (m : M F A) (k : A -> M F B) s h s' :
  never m -> bind m k s = (Entered h, s') ->
  exists a s1, m s = (Ok a, s1) /\ k a s1 = (Entered h, s').
Proof.
  intros Hn. unfold bind. specialize (Hn s I).
  destruct (m s) as [[a|st|e|] s1]; intros; try done. by eexists _, _.
Qed.

Lemma on_error_ok {A} (m : M F A) h s a s' : on_error m h s = (Ok a, s') -> m s = (Ok a, s').
Proof.
  unfold on_error. destruct (m s) as [[x|st|e|] s1]; intros; try done.
  by destruct (h st s1) as [[?|?|?|] ?].
Qed.

Lemma attempt_ok {A} (m : M F A) s a s' :
  attempt m s = (Ok (inl a), s') -> m s = (Ok a, s').
Proof. unfold attempt. destruct (m s) as [[x|st|e|] s1]; intros; by simplify_eq. Qed.

Lemma ret_ok {A} (a b : A) (s s' : boot_state F) : ret a s = (Ok b, s') -> a = b /\ s = s'.
Proof. by inversion 1. Qed.

Lemma check_ok st a (s s' : boot_state F) :
  check st s = (Ok a, s') -> EFI_ERROR st = false /\ s = s'.
Proof. unfold check. destruct (EFI_ERROR st); inversion 1. done. Qed.

Lemma call_ok {A} (f : F -> A * F) log s a s' :
  call f log s = (Ok a, s') ->
  exists fw', f (b_fw s) = (a, fw') /\ s' = set_fw s fw' (log a).
Proof. unfold call. destruct (f (b_fw s)) as [x fw]. inversion 1; subst. by eexists. Qed.

(** A firmware call leaves memory and variables alone. *)
Lemma call_mem {A} (f : F -> A * F) log s : b_mem (call f log s).2 = b_mem s.
Proof. unfold call. by destruct (f (b_fw s)). Qed.
End Inversion.

(** Splits a run of a sequence into the runs of its parts. *)
Ltac run_inv :=
  repeat match goal with
  | H : bind _ _ _ = (Ok _, _) |- _ => apply bind_ok in H as (? & ? & ? & ?)
  | H : ret _ _ = (Ok _, _) |- _ => apply ret_ok in H as [? ?]
  | H : check _ _ = (Ok _, _) |- _ => apply check_ok in H as [? ?]
  | H : on_error _ _ _ = (Ok _, _) |- _ => apply on_error_ok in H
  | H : call _ _ _ = (Ok _, _) |- _ => apply call_ok in H as (? & ? & ?)
  | H : throw _ _ = (Ok _, _) |- _ => discriminate H
  | H : stuck _ = (Ok _, _) |- _ => discriminate H
  | H : get_mem _ = (Ok _, _) |- _ => injection H as ? ?
  | H : get_var _ _ = (Ok _, _) |- _ => injection H as ? ?
  | H : get_image _ = (Ok _, _) |- _ => injection H as ? ?
  | H : get_records _ = (Ok _, _) |- _ => injection H as ? ?
  | H : get_command_line _ = (Ok _, _) |- _ => injection H as ? ?
  | H : put_mem _ _ = (Ok _, _) |- _ => injection H as ?
  | H : put_var _ _ _ = (Ok _, _) |- _ => injection H as ?
  | H : put_image _ _ = (Ok _, _) |- _ => injection H as ?
  | H : put_records _ _ = (Ok _, _) |- _ => injection H as ?
  | H : put_command_line _ _ = (Ok _, _) |- _ => injection H as ?
  | H : (let '(_, _) := ?p in _) _ = (Ok _, _) |- _ => destruct p
  | x : (_ * _)%type |- _ => destruct x
  | x : unit |- _ => destruct x
  end; subst.

(** Page allocations are never given back. *)
Section Pages.
Context {F : Type} `{LawfulFirmware F}.

Definition pages_kept : relation (boot_state F) :=
  fun s s' => forall x, paged (b_fw s) x -> paged (b_fw s') x.

#[export] Instance pages_kept_preorder : PreOrder pages_kept.
Proof. split; [by intros s x|]. intros s1 s2 s3 H1 H2 x Hx. auto. Qed.

Lemma pages_kept_console t : pres pages_kept (console_write (F := F) t).
Proof.
  unfold console_write. destruct OutputString as [f|] eqn:E; [|apply pres_ret, _].
  intros s x Hx. unfold call. pose proof (OutputString_law f t (b_fw s) E) as [Hl _].
  destruct (f t (b_fw s)). cbn in *. auto.
Qed.
End Pages.

#[export] Hint Resolve pages_kept_console : boot.

(** ** The memory frame *)
Section Frame.
Context {F : Type} `{LawfulFirmware F}.
Variable P : Z -> Prop.

(** The addresses of [P], once they belong to page allocations, keep their
    bytes. *)
Definition owned (s : boot_state F) : Prop :=
  mem_wf (b_mem s) /\ forall a, P a -> paged (b_fw s) a.

Definition framed : relation (boot_state F) := fun s s' =>
  owned s -> owned s' /\ forall a, P a -> mget (b_mem s') a = mget (b_mem s) a.

#[export] Instance framed_preorder : PreOrder framed.
Proof.
  split; [by intros s ?|]. intros s1 s2 s3 H1 H2 HP.
  destruct (H1 HP) as [O1 M1]. destruct (H2 O1) as [O2 M2].
  split; [done|]. intros a Ha. by rewrite M2, M1.
Qed.

Lemma framed_call {A} (f : F -> A * F) log :
  (forall fw x, paged fw x -> paged (f fw).2 x) -> pres framed (call f log).
Proof.
  intros Hf s [Hw HP]. unfold call. specialize (Hf (b_fw s)). destruct (f (b_fw s)) as [a fw].
  cbn in *. split; [split; cbn; auto|done].
Qed.

(** A continuation may use what a successful call says about its result. *)
Lemma framed_bind_val {A B} (post : A -> Prop) (m : M F A) (k : A -> M F B) :
  pres framed m -> (forall s a s', owned s -> m s = (Ok a, s') -> post a) ->
  (forall a, post a -> pres framed (k a)) -> pres framed (bind m k).
Proof.
  intros Hm Hpost Hk s HP. unfold bind. specialize (Hm s). pose proof (Hpost s) as Hp.
  destruct (m s) as [[a|st|h|] s1]; cbn in *; try by apply Hm.
  destruct (Hm HP) as [O1 M1]. specialize (Hp a s1 HP eq_refl).
  destruct (Hk a Hp s1 O1) as [O2 M2]. split; [done|]. intros x Hx. by rewrite M2, M1.
Qed.

Definition outside (b n : Z) : Prop := forall x, b <= x < b + n -> ~ P x.

Lemma framed_put_mem m' b n s :
  outside b n -> only_in b n (b_mem s) m' -> (mem_wf (b_mem s) -> mem_wf m') ->
  framed s (set_mem s m').
Proof.
  intros Ho Hi Hw [? HP]. cbn. split; [split; cbn; auto|]. intros a Ha. apply Hi.
  destruct (decide (b <= a < b + n)); [|lia]. by destruct (Ho a).
Qed.

Lemma framed_store b bs : outside b (Z.of_nat (length bs)) -> pres framed (store_bytes b bs).
Proof.
  intros Ho s. apply (framed_put_mem _ b (Z.of_nat (length bs))); auto with panthera.
Qed.

Lemma framed_zero b n : outside b n -> pres framed (zero_memory b n).
Proof.
  intros Ho s. apply (framed_put_mem _ b n); [done|apply only_in_zero|apply mem_wf_zero].
Qed.

Lemma framed_copy b src n : 0 <= n -> outside b n -> pres framed (copy_memory b src n).
Proof.
  intros Hn Ho s. apply (framed_put_mem _ b n); [done| |apply mem_wf_copy].
  rewrite <- (Z2Nat.id n) at 1 by done. apply only_in_copy.
Qed.

Lemma framed_write b n v s : outside b (Z.of_nat n) -> framed s (set_mem s (mwrite (b_mem s) b n v)).
Proof. intros Ho. apply (framed_put_mem _ b (Z.of_nat n)); auto with panthera. Qed.

(** Changes of variables, records and the like. *)
Lemma framed_same s s' : b_mem s' = b_mem s -> b_fw s' = b_fw s -> framed s s'.
Proof. unfold framed, owned. intros -> ->. tauto. Qed.
End Frame.

Ltac framed_leaf _ :=
  lazymatch goal with
  | |- pres _ (put_var _ _) => intros ?; by apply framed_same
  | |- pres _ (put_image _) => intros ?; by apply framed_same
  | |- pres _ (put_records _) => intros ?; by apply framed_same
  | |- pres _ (put_command_line _) => intros ?; by apply framed_same
  end.

Ltac framed_tac := pres_tac framed_leaf.
