(* ===== verification/Sim.v ===== *)
(** * A concrete firmware

    A small deterministic firmware that keeps the contract: pages are handed out
    upwards at requested addresses and downwards otherwise, pool buffers upwards; it has a boot volume with a kernel and a counter of failing ExitBootServices
    calls. The theorems that assume a lawful
    firmware are evaluated on it. *)

From Stdlib Require Import ZArith Lia Ascii String.
From stdpp Require Import base list gmap.
From S2P Require Import Prelude MachO BootText Efi BootLogic.

Open Scope Z_scope.

Definition pool_floor : Z := 0x10000000000.

Record sim := mkSim {
  sim_next : Z;
  sim_ptr : Z;
  sim_blocks : list (Z * Z);
  sim_files : gmap Z (list Z);
  sim_handle : Z;
  sim_failures : nat;
  sim_top : Z }.

Definition sim_start (failures : nat) : sim := mkSim 0x100000 pool_floor [] ∅ 2 failures 0x8000000.

(** ** The boot volume *)
Definition pad16 (name : string) : list Z := str name ++ repeat 0 (16 - length (str name)).

(** A kernel with a single segment, linked where the firmware has free pages. *)
Definition sim_kernel : list Z :=
  encode_macho 3 0
    [CmdSegment (mkSegment (pad16 "__TEXT") 0xffffff8000200000 0x1000 0 404 7 5) 0 [];
     CmdThread (le_encode 4 4 ++ le_encode 4 42) (repeat 0 128) 0xffffff8000200100 (repeat 0 32)]
    (repeat 0xcc 116).

Definition sim_volume (path : list Z) : list Z :=
  if bool_decide (path = path_mach_kernel) then sim_kernel
  else if bool_decide (path = path_boot_args) then str "serial=3   panthera_iog=1"
  else take 4 (map (fun c => c mod 256) path).

(** Two 48-byte memory descriptors: type, start, virtual start, pages, attribute. *)
Definition sim_descriptors : list Z :=
  le_encode 8 7 ++ le_encode 8 0x100000 ++ le_encode 8 0 ++ le_encode 8 0x7f00 ++
  le_encode 8 15 ++ le_encode 8 0 ++
  le_encode 8 6 ++ le_encode 8 0x8000000 ++ le_encode 8 0 ++ le_encode 8 16 ++
  le_encode 8 (EFI_MEMORY_RUNTIME + 15) ++ le_encode 8 0.

(** ** The services *)
Definition sim_allocate_pages (kind n a : Z) (fw : sim) : Z * Z * sim :=
  let fixed := kind =? EFI_ALLOCATE_ADDRESS in
  let b := if fixed then a else sim_top fw - 4096 * n in
  if (sim_next fw <=? b) && (0 <=? b) && (b mod 4096 =? 0) && (0 <=? n) &&
     (b + 4096 * n <=? sim_top fw) && (sim_top fw <=? pool_floor) &&
     implb (kind =? EFI_ALLOCATE_MAX_ADDRESS) (b + 4096 * n - 1 <=? a)
  then (0, b, mkSim (if fixed then b + 4096 * n else sim_next fw) (sim_ptr fw) (sim_blocks fw)
                (sim_files fw) (sim_handle fw) (sim_failures fw) (if fixed then sim_top fw else b))
  else (EFI_OUT_OF_RESOURCES, 0, fw).

Definition sim_allocate_pool (n : Z) (fw : sim) : Z * Z * sim :=
  let b := sim_ptr fw in
  if (pool_floor <=? b) && (0 <=? n) && (b + n <=? 2 ^ 63)
  then (0, b, mkSim (sim_next fw) (b + n + 16) ((b, n) :: sim_blocks fw) (sim_files fw)
                (sim_handle fw) (sim_failures fw) (sim_top fw))
  else (EFI_OUT_OF_RESOURCES, 0, fw).

Definition sim_free_pool (b : Z) (fw : sim) : sim :=
  mkSim (sim_next fw) (sim_ptr fw) (filter (fun x => x.1 <> b) (sim_blocks fw)) (sim_files fw)
    (sim_handle fw) (sim_failures fw) (sim_top fw).

Definition with_files (fw : sim) (fs : gmap Z (list Z)) : sim :=
  mkSim (sim_next fw) (sim_ptr fw) (sim_blocks fw) fs (sim_handle fw) (sim_failures fw) (sim_top fw).

Definition sim_open (path : list Z) (fw : sim) : Z * Z * sim :=
  match sim_files fw !! sim_handle fw with
  | Some _ => (EFI_OUT_OF_RESOURCES, 0, fw)
  | None =>
      (0, sim_handle fw,
       mkSim (sim_next fw) (sim_ptr fw) (sim_blocks fw) (<[sim_handle fw := path]> (sim_files fw))
         (sim_handle fw + 1) (sim_failures fw) (sim_top fw))
  end.

Definition sim_get_info (h n buffer : Z) (fw : sim) : Z * Z * list Z * sim :=
  match sim_files fw !! h with
  | None => (EFI_NOT_FOUND, 0, [], fw)
  | Some p =>
      if n <? 16 then (EFI_BUFFER_TOO_SMALL, 16, [], fw)
      else (0, 16, le_encode 8 16 ++ le_encode 8 (Z.of_nat (length (sim_volume p))), fw)
  end.

Definition sim_read (h n : Z) (fw : sim) : Z * Z * list Z * sim :=
  match sim_files fw !! h with
  | None => (EFI_NOT_FOUND, 0, [], fw)
  | Some p =>
      let bytes := take (Z.to_nat n) (sim_volume p) in
      (0, Z.of_nat (length bytes), bytes, with_files fw (delete h (sim_files fw)))
  end.

Definition sim_memory_map (size buffer : Z) (fw : sim) : map_reply * sim :=
  let needed := Z.of_nat (length sim_descriptors) in
  if size <? needed then (mkMapReply EFI_BUFFER_TOO_SMALL needed 0 48 1 [], fw)
  else (mkMapReply 0 needed (77 + Z.of_nat (sim_failures fw)) 48 1 sim_descriptors, fw).

Definition sim_exit (key : Z) (fw : sim) : Z * sim :=
  match sim_failures fw with
  | O => (0, fw)
  | S k => (EFI_NOT_FOUND, mkSim (sim_next fw) (sim_ptr fw) (sim_blocks fw) (sim_files fw)
                             (sim_handle fw) k (sim_top fw))
  end.

#[export] Instance sim_firmware : Firmware sim := {|
  OutputString := Some (fun _ fw => (0, fw));
  AllocatePages := Some sim_allocate_pages;
  AllocatePool := Some sim_allocate_pool;
  FreePool := Some sim_free_pool;
  HandleProtocol := Some (fun _ _ fw => (0, 1, fw));
  Stall := Some (fun _ fw => (0, fw));
  GetMemoryMap := sim_memory_map;
  ExitBootServices := sim_exit;
  LocateProtocol fw := (0, Some (mkGop 0xc0000000 1024 768 1024), fw);
  rdtsc fw := (0, fw);
  DeviceHandle _ _ := 1;
  OpenVolume _ fw := (0, 1, fw);
  Open _ := sim_open;
  Close h fw := with_files fw (delete h (sim_files fw));
  GetInfo := sim_get_info;
  Read := sim_read
|}.

(** ** The contract holds *)
Definition sim_paged (fw : sim) (x : Z) : Prop :=
  (x < sim_next fw \/ sim_top fw <= x) /\ x < pool_floor.
Definition sim_block (fw : sim) (b n : Z) : Prop :=
  (b, n) ∈ sim_blocks fw /\ pool_floor <= b /\ 0 <= n /\ b + n < sim_ptr fw.
Definition sim_opened (fw : sim) (h : Z) (p : list Z) : Prop := sim_files fw !! h = Some p.

Lemma sim_volume_bytes p : Forall byte (sim_volume p).
Proof.
  unfold sim_volume. repeat case_bool_decide.
  1,2: apply (bool_decide_unpack _); vm_compute; exact I.
  apply Forall_take, Forall_fmap, Forall_true. intros c. apply Z.mod_pos_bound. lia.
Qed.

Lemma sim_volume_length p : Z.of_nat (length (sim_volume p)) < 2 ^ 63.
Proof.
  unfold sim_volume. repeat case_bool_decide; [by vm_compute|by vm_compute|].
  rewrite length_take. lia.
Qed.

Lemma sim_pages_law kind n a fw :
  let '(st, b, fw') := sim_allocate_pages kind n a fw in
  ((forall x, sim_paged fw x -> sim_paged fw' x) /\
   (forall b n, sim_block fw b n -> sim_block fw' b n) /\
   (forall h p, sim_opened fw h p -> sim_opened fw' h p)) /\
  (EFI_ERROR st = false ->
     0 <= b /\ b mod 4096 = 0 /\ b + 4096 * n < 2 ^ 64 /\
     (kind = EFI_ALLOCATE_ADDRESS -> b = a) /\
     (forall x, b <= x < b + 4096 * n -> ~ sim_paged fw x /\ sim_paged fw' x) /\
     (forall b' n', sim_block fw b' n' -> b' + n' <= b \/ b + 4096 * n <= b')).
Proof.
  unfold sim_allocate_pages. set (b := if kind =? _ then a else sim_top fw - 4096 * n).
  destruct (_ && _) eqn:E; [|done]. repeat apply andb_prop in E as [E ?].
  unfold pool_floor in *. split; [split_and!; [|done|done]|intros _].
  - intros x [Hn Hf]. split; cbn; [|done]. case_match; lia.
  - split_and!; try lia.
    + intros ->. done.
    + intros x Hx. unfold sim_paged, pool_floor. cbn. case_match; lia.
    + intros b' n' (_ & Hb & _). unfold pool_floor in *. lia.
Qed.

Lemma sim_pool_law n fw :
  let '(st, b, fw') := sim_allocate_pool n fw in
  ((forall x, sim_paged fw x -> sim_paged fw' x) /\
   (forall b n, sim_block fw b n -> sim_block fw' b n) /\
   (forall h p, sim_opened fw h p -> sim_opened fw' h p)) /\
  (EFI_ERROR st = false ->
     sim_block fw' b n /\ 0 < b /\ b + n <= 2 ^ 64 /\
     (forall x, b <= x < b + n -> ~ sim_paged fw x) /\
     (forall b' n', sim_block fw b' n' -> b' <> b /\ (b' + n' <= b \/ b + n <= b'))).
Proof.
  unfold sim_allocate_pool. destruct (_ && _) eqn:E; [|done].
  repeat apply andb_prop in E as [E ?]. unfold pool_floor in *. split; [split_and!; [done| |done]|intros _].
  - intros b k (Hin & ? & ? & ?). unfold sim_block. cbn. split; [by right|lia].
  - split_and!; try lia.
    + unfold sim_block, pool_floor. cbn. split; [by left|lia].
    + intros x Hx [_ Hf]. unfold pool_floor in *. lia.
    + intros b' n' (_ & ? & ? & ?). lia.
Qed.

#[export] Instance sim_lawful : LawfulFirmware sim.
Proof.
  refine {| paged := sim_paged; block := sim_block; opened := sim_opened; volume := sim_volume |};
    cbn; intros; simplify_eq; try done.
  - apply sim_volume_bytes.
  - apply sim_volume_length.
  - unfold sim_exit. by destruct (sim_failures fw).
  - apply sim_pages_law.
  - apply sim_pool_law.
  - split_and!; [done| |done]. intros b' n (Hin & Hr) Hne. split; [|done].
    by apply list_elem_of_filter.
  - unfold sim_open. destruct (sim_files fw !! sim_handle fw) as [q|] eqn:E; [done|].
    split; [split_and!; [done|done|]|intros _; apply lookup_insert_eq].
    intros h q Hq. unfold sim_opened in *. cbn. rewrite lookup_insert_ne; [done|congruence].
  - unfold sim_get_info. destruct (sim_files fw !! h) as [q|] eqn:E;
      [|split_and!; [done|done|done|cbn; lia|done|done|]; intros p Hp; unfold sim_opened in Hp; congruence].
    destruct (Z.ltb_spec n 16); [split_and!; done || (cbn; lia)|]. rewrite !length_app, !length_le_encode.
    split_and!; [done|done|done|cbn; lia| |lia|].
    + apply Forall_app. split; apply le_encode_bytes.
    + intros p Hp _ _. unfold sim_opened in Hp. simplify_eq. split; [cbn; lia|].
      rewrite (drop_app_length' (le_encode 8 16) _ 8) by (by rewrite length_le_encode).
      rewrite take_ge; [done|]. by rewrite length_le_encode.
  - unfold sim_read. destruct (sim_files fw !! h) as [q|] eqn:E.
    + rewrite length_take. split_and!; [done|done|lia| |].
      * apply Forall_take, sim_volume_bytes.
      * intros p Hp _. unfold sim_opened in Hp. by simplify_eq.
    + split_and!; [done|done|done|done|]. intros p Hp. unfold sim_opened in Hp. congruence.
  - unfold sim_memory_map. destruct (Z.ltb_spec size (Z.of_nat (length sim_descriptors))).
    + cbn. split_and!; done || lia.
    + cbn [mr_bytes mr_status mr_desc_size mr_size]. split_and!; [done|done|done|lia| |done|].
      * apply (bool_decide_unpack _). vm_compute. exact I.
      * intros _. split_and!; [lia|by vm_compute|lia|by exists 2%nat].
Defined.

(** ** The state the loader starts in *)
Definition sim_boot (failures : nat) : boot_state sim :=
  mkBoot ∅ (sim_start failures) [] (fun _ => 0) (initial_image 0) []
    (repeat zero_record 34).
