(* ===== verification/Loading.v ===== *)
(** * Files from the boot volume: boot/efi/loader/src/bootx64.c

    What the file and allocation services of the loader guarantee on a firmware
    that keeps its contract: a loaded file's bytes, fresh page ranges, the memory
    frame, and that no pool buffer or file handle is lost. *)

From Stdlib Require Import ZArith Lia Ascii String.
From stdpp Require Import base list gmap relations.
From S2P Require Import Prelude MachO BootText Efi BootLogic Sim.

Open Scope Z_scope.

(** ** Allocation *)
Section Allocation.
Context {F : Type} `{LawfulFirmware F}.

(** The facts about a successful pool allocation. *)
Lemma allocate_pool_ok n s b s' :
  panthera_allocate_pool n s = (Ok b, s') ->
  b_mem s' = b_mem s /\ keeps (b_fw s) (b_fw s') /\ block (b_fw s') b n /\ 0 < b /\ b + n <= 2 ^ 64 /\
  (forall x, b <= x < b + n -> ~ paged (b_fw s) x) /\
  (forall b' n', block (b_fw s) b' n' -> b' <> b /\ (b' + n' <= b \/ b + n <= b')).
Proof.
  unfold panthera_allocate_pool. destruct AllocatePool as [f|] eqn:E; [|done].
  intros Hr. run_inv. pose proof (AllocatePool_law f n (b_fw s) E) as Hl.
  match goal with Hc : f _ _ = _ |- _ => rewrite Hc in Hl end. destruct Hl as [Hk Hl]. specialize (Hl ltac:(done)). tauto.
Qed.
(** A range of fresh pages. *)
Definition fresh_pages (fw fw' : F) (b size : Z) : Prop :=
  keeps fw fw' /\ 0 <= b /\ b mod 4096 = 0 /\ b + 4096 * pages_of size < 2 ^ 64 /\
  (forall x, b <= x < b + 4096 * pages_of size -> ~ paged fw x /\ paged fw' x) /\
  (forall b' n', block fw b' n' -> b' + n' <= b \/ b + 4096 * pages_of size <= b').

Lemma call_pages_law f kind n a s st b s' :
  AllocatePages = Some f -> call_allocate_pages f kind n a s = (Ok (st, b), s') ->
  (exists es, s' = set_fw s (b_fw s') es) /\ keeps (b_fw s) (b_fw s') /\
  (EFI_ERROR st = false ->
     0 <= b /\ b mod 4096 = 0 /\ b + 4096 * n < 2 ^ 64 /\
     (kind = EFI_ALLOCATE_ADDRESS -> b = a) /\
     (forall x, b <= x < b + 4096 * n -> ~ paged (b_fw s) x /\ paged (b_fw s') x) /\
     (forall b' n', block (b_fw s) b' n' -> b' + n' <= b \/ b + 4096 * n <= b')).
Proof.
  intros E Hr. apply call_ok in Hr as (fw' & Hf & ->).
  pose proof (AllocatePages_law f kind n a (b_fw s) E) as Hl. rewrite Hf in Hl.
  split; [by eexists|]. cbn. destruct Hl as [Hk Hl]. split; [done|]. done.
Qed.

Lemma keeps_trans (f1 f2 f3 : F) : keeps f1 f2 -> keeps f2 f3 -> keeps f1 f3.
Proof. intros (A1 & B1 & C1) (A2 & B2 & C2). unfold keeps. split_and!; auto. Qed.

Lemma allocate_pages_ok size s b s' :
  panthera_allocate_pages size s = (Ok b, s') ->
  (exists es, s' = set_fw s (b_fw s') es) /\ fresh_pages (b_fw s) (b_fw s') b size.
Proof.
  unfold panthera_allocate_pages. destruct AllocatePages as [f|] eqn:E; [|done]. intros Hr.
  apply bind_ok in Hr as ([st a1] & s1 & H1 & Hr). eapply call_pages_law in H1; [|done].
  destruct H1 as ([es1 E1] & K1 & L1). destruct (EFI_ERROR st) eqn:Est; cbn [negb] in Hr.
  - apply bind_ok in Hr as ([st2 a2] & s2 & H2 & Hr). eapply call_pages_law in H2; [|done].
    destruct H2 as ([es2 E2] & K2 & L2). run_inv. destruct (L2 ltac:(done)) as (? & ? & ? & _ & Hp & Hb).
    split.
    + exists (es2 ++ es1). rewrite E2, E1 at 1. apply set_fw_set_fw.
    + split_and!; [by eapply keeps_trans|done|done|done| |].
      * intros x Hx. destruct (Hp x Hx) as [Hn Hy]. split; [|done]. intros Hq. by apply Hn, K1.
      * intros b' n' Hbl. apply Hb. by apply K1.
  - run_inv. destruct (L1 eq_refl) as (? & ? & ? & _ & Hp & Hb). split; [by exists es1|].
    split_and!; done.
Qed.

Lemma allocate_pages_at_ok size a s b s' :
  panthera_allocate_pages_at size a s = (Ok b, s') ->
  b = a /\ (exists es, s' = set_fw s (b_fw s') es) /\ fresh_pages (b_fw s) (b_fw s') b size.
Proof.
  unfold panthera_allocate_pages_at. destruct AllocatePages as [f|] eqn:E; [|done]. intros Hr.
  apply bind_ok in Hr as ([st a1] & s1 & H1 & Hr). eapply call_pages_law in H1; [|done].
  destruct H1 as (E1 & K1 & L1). run_inv. destruct (L1 ltac:(done)) as (? & ? & ? & Ha & Hp & Hb).
  rewrite (Ha eq_refl). split_and!; try done; by rewrite <- (Ha eq_refl).
Qed.

Lemma allocate_pages_at_err size a s st s' :
  panthera_allocate_pages_at size a s = (Err st, s') ->
  (exists es, s' = set_fw s (b_fw s') es) /\ keeps (b_fw s) (b_fw s').
Proof.
  unfold panthera_allocate_pages_at. destruct AllocatePages as [f|] eqn:E.
  - unfold bind, check. destruct (call_allocate_pages _ _ _ _ s) as [[[st1 b]|?|?|] s1] eqn:Ec.
    + intros Hr. eapply call_pages_law in Ec as (Es & K & _); [|done].
      destruct (EFI_ERROR st1); cbn in Hr; by simplify_eq.
    + unfold call_allocate_pages, call in Ec. by destruct (f _ _ _ _).
    + unfold call_allocate_pages, call in Ec. by destruct (f _ _ _ _).
    + unfold call_allocate_pages, call in Ec. by destruct (f _ _ _ _).
  - injection 1 as <- <-. split; [exists []; by destruct s|]. unfold keeps. auto.
Qed.

Lemma pages_of_bound size :
  0 <= size <= 2 ^ 64 - 4096 -> size <= 4096 * pages_of size < size + 4096.
Proof.
  intros Hs. unfold pages_of. wrap_tac. pose proof (Z.div_mod (size + 4095) 4096 ltac:(lia)).
  pose proof (Z.mod_pos_bound (size + 4095) 4096 ltac:(lia)). lia.
Qed.

Lemma pages_of_aligned size :
  0 <= size <= 2 ^ 64 - 4096 -> size mod 4096 = 0 -> 4096 * pages_of size = size.
Proof.
  intros Hs Hm. pose proof (pages_of_bound size Hs). pose proof (Z.div_mod size 4096 ltac:(lia)). lia.
Qed.
End Allocation.

(** ** Services keep the frame *)
Section ServiceFrame.
Context {F : Type} `{LawfulFirmware F}.
Variable P : Z -> Prop.

Lemma framed_console t : pres (framed P) (console_write (F := F) t).
Proof.
  unfold console_write. destruct OutputString as [f|] eqn:E; [|apply pres_ret, _].
  apply framed_call. intros fw x Hx. by apply (OutputString_law f t fw E).
Qed.

Lemma framed_handle_protocol h g : pres (framed P) (panthera_handle_protocol (F := F) h g).
Proof.
  unfold panthera_handle_protocol. destruct HandleProtocol as [f|] eqn:E; [|apply pres_throw, _].
  apply pres_bind; [apply _| |intros [st i]; apply pres_bind; [apply _|apply pres_check, _|];
    intros; apply pres_ret, _].
  apply framed_call. intros fw x Hx. by apply (HandleProtocol_law f h g fw E).
Qed.

Lemma framed_allocate_pool n : pres (framed P) (panthera_allocate_pool (F := F) n).
Proof.
  unfold panthera_allocate_pool. destruct AllocatePool as [f|] eqn:E; [|apply pres_throw, _].
  apply pres_bind; [apply _| |intros [st i]; apply pres_bind; [apply _|apply pres_check, _|];
    intros; apply pres_ret, _].
  apply framed_call. intros fw x Hx. pose proof (AllocatePool_law f n fw E) as Hl.
  destruct (f n fw) as [[st b] fw']. by apply Hl.
Qed.

Lemma framed_free_pool b : pres (framed P) (panthera_free_pool (F := F) b).
Proof.
  unfold panthera_free_pool. case_match; [apply pres_ret, _|].
  destruct FreePool as [f|] eqn:E; [|apply pres_ret, _].
  apply framed_call. intros fw x Hx. by apply (FreePool_law f b fw E).
Qed.

Lemma framed_close h : pres (framed P) (close_handle (F := F) h).
Proof. apply framed_call. intros fw x Hx. by apply (Close_law h fw). Qed.

Lemma framed_open_volume v : pres (framed P) (open_volume (F := F) v).
Proof.
  unfold open_volume. apply pres_bind; [apply _| |].
  - apply framed_call. intros fw x Hx. by apply (OpenVolume_law v fw).
  - intros [st r]. apply pres_bind; [apply _|apply pres_check, _|]. intros. apply pres_ret, _.
Qed.

Lemma framed_open_file r p : pres (framed P) (open_file (F := F) r p).
Proof.
  unfold open_file. apply pres_bind; [apply _| |].
  - apply framed_call. intros fw x Hx. pose proof (Open_law r p fw) as Hl.
    destruct (Open r p fw) as [[st h] fw']. by apply Hl.
  - intros [st h]. apply pres_bind; [apply _|apply pres_check, _|]. intros. apply pres_ret, _.
Qed.

Lemma framed_get_info h n b : b = 0 \/ outside P b n -> pres (framed P) (get_info (F := F) h n b).
Proof.
  intros Ho. unfold get_info.
  apply (framed_bind_val _ (fun r => Z.of_nat (length r.2) <= Z.max 0 n)).
  - apply framed_call. intros fw x Hx. pose proof (GetInfo_law h n b fw) as Hl.
    destruct (GetInfo h n b fw) as [[[st n'] bytes] fw']. by apply Hl.
  - intros s [[st n'] bytes] s' _ Hc. apply call_ok in Hc as (fw' & Hc & _).
    pose proof (GetInfo_law h n b (b_fw s)) as Hl. rewrite Hc in Hl. by apply Hl.
  - intros [[st n'] bytes] Hlen. cbn in Hlen. apply pres_bind; [apply _| |intros; apply pres_ret, _].
    destruct (Z.eqb_spec b 0); [apply pres_ret, _|]. destruct Ho as [|Ho]; [done|].
    apply framed_store. intros x Hx. apply Ho. lia.
Qed.

Lemma framed_read h n b : 0 <= n -> outside P b n -> pres (framed P) (read_file (F := F) h n b).
Proof.
  intros Hn Ho. unfold read_file.
  apply (framed_bind_val _ (fun r => Z.of_nat (length r.2) <= n)).
  - apply framed_call. intros fw x Hx. pose proof (Read_law h n fw Hn) as Hl.
    destruct (Read h n fw) as [[[st n'] bytes] fw']. by apply Hl.
  - intros s [[st n'] bytes] s' _ Hc. apply call_ok in Hc as (fw' & Hc & _).
    pose proof (Read_law h n (b_fw s) Hn) as Hl. rewrite Hc in Hl. by apply Hl.
  - intros [[st n'] bytes] Hlen. cbn in Hlen. apply pres_bind; [apply _| |intros; apply pres_ret, _].
    apply framed_store. intros x Hx. apply Ho. lia.
Qed.

Lemma framed_close_both f r : pres (framed P) (close_both (F := F) f r).
Proof. apply pres_bind; [apply _|apply framed_close|]. intros. apply framed_close. Qed.
End ServiceFrame.

#[export] Hint Resolve framed_console framed_handle_protocol framed_allocate_pool
  framed_free_pool framed_close framed_open_volume framed_open_file framed_close_both : boot.

Section FileFrame.
Context {F : Type} `{LawfulFirmware F}.
Variable P : Z -> Prop.

(** A successful pool allocation is outside every owned set. *)
Lemma framed_bind_pool {B} n h (k : Z -> M F B) :
  (forall st, pres (framed P) (h st)) ->
  (forall b, outside P b n -> pres (framed P) (k b)) ->
  pres (framed P) (bind (on_error (panthera_allocate_pool n) h) k).
Proof.
  intros Hh Hk. apply (framed_bind_val _ (fun b => outside P b n)); [| |done].
  - apply pres_on_error; [apply _|apply framed_allocate_pool|done].
  - intros s b s' [_ HP] Hr x Hx Hp. apply on_error_ok, allocate_pool_ok in Hr.
    destruct Hr as (_ & _ & _ & _ & _ & Hr & _). by apply (Hr x Hx), HP.
Qed.

Lemma framed_bind_info {B} info (k : Z -> M F B) :
  (forall n, 0 <= n -> pres (framed P) (k n)) ->
  pres (framed P) (bind (file_info_size_field info) k).
Proof.
  intros Hk. apply (framed_bind_val _ (fun n => 0 <= n)); [framed_tac| |done].
  intros s n s' [Hw _] Hr. unfold file_info_size_field in Hr. run_inv. by apply mread_range.
Qed.

Lemma framed_load_open_file r f : pres (framed P) (load_open_file (F := F) r f).
Proof.
  unfold load_open_file.
  apply pres_bind; [apply _|apply framed_get_info; by left|]. intros [st sz].
  destruct (_ || _); [framed_tac|].
  apply framed_bind_pool; [framed_tac|]. intros info Hi.
  apply pres_bind; [apply _|apply framed_get_info; by right|]. intros [st' sz'].
  destruct (EFI_ERROR st'); [framed_tac|].
  apply framed_bind_info. intros n Hn. apply framed_bind_pool; [framed_tac|]. intros b Hb.
  apply pres_bind; [apply _|by apply framed_read|]. intros [st2 rd]. framed_tac.
Qed.

#[local] Hint Resolve framed_load_open_file : boot.

Lemma framed_load_kernel_file ih p : pres (framed P) (panthera_load_kernel_file (F := F) ih p).
Proof.
  unfold panthera_load_kernel_file. framed_tac.
  intros s. by apply framed_same.
Qed.
End FileFrame.

#[export] Hint Resolve framed_load_kernel_file : boot.

(** ** The bytes of a loaded file *)
Section Contents.
Context {F : Type} `{LawfulFirmware F}.

Lemma get_info_ok h n b s st n' s' :
  get_info h n b s = (Ok (st, n'), s') ->
  exists bytes, GetInfo h n b (b_fw s) = (st, n', bytes, b_fw s') /\
    b_mem s' = if b =? 0 then b_mem s else mstore (b_mem s) b bytes.
Proof.
  unfold get_info. intros Hr. run_inv.
  match goal with Hc : GetInfo _ _ _ _ = (_, _, ?bs, _) |- _ => exists bs; rewrite Hc end.
  match goal with Hs : (if _ then _ else _) _ = _ |- _ => unfold store_bytes in Hs; revert Hs end.
  destruct (b =? 0); intros; run_inv; cbn; by simplify_eq.
Qed.

Lemma read_file_ok h n b s st n' s' :
  read_file h n b s = (Ok (st, n'), s') ->
  exists bytes, Read h n (b_fw s) = (st, n', bytes, b_fw s') /\
    b_mem s' = mstore (b_mem s) b bytes.
Proof.
  unfold read_file, store_bytes. intros Hr. run_inv.
  match goal with Hc : Read _ _ _ = (_, _, ?bs, _) |- _ => exists bs; rewrite Hc end.
  cbn. by simplify_eq.
Qed.

Lemma free_pool_ok b s s' :
  panthera_free_pool b s = (Ok tt, s') ->
  b_mem s' = b_mem s /\ forall b' n, b' <> b -> block (b_fw s) b' n -> block (b_fw s') b' n.
Proof.
  unfold panthera_free_pool. intros Hr. destruct (b =? 0); [run_inv; done|].
  destruct FreePool as [f|] eqn:E; [|run_inv; done]. run_inv.
  match goal with Hc : (tt, _) = (_, _) |- _ => injection Hc as <- end.
  cbn. split; [done|]. intros b' n Hb Hbl. by apply (FreePool_law f b (b_fw s) E).
Qed.

Lemma close_ok h s s' :
  close_handle h s = (Ok tt, s') ->
  b_mem s' = b_mem s /\ forall b n, block (b_fw s) b n -> block (b_fw s') b n.
Proof.
  unfold close_handle. intros Hr. run_inv.
  match goal with Hc : (tt, _) = (_, _) |- _ => injection Hc as <- end.
  cbn. split; [done|]. intros b n Hb. by apply (Close_law h (b_fw s)).
Qed.

(** The size field the firmware wrote. *)
Lemma info_size_stored m info bytes k :
  16 <= Z.of_nat (length bytes) -> Forall byte bytes -> 0 <= k < 2 ^ 64 ->
  take 8 (drop 8 bytes) = le_encode 8 k -> mread (mstore m info bytes) (info + 8) 8 = k.
Proof.
  intros Hl Hb Hk Ht.
  assert (Hh : holds (mstore m info bytes) info (take 8 bytes ++ take 8 (drop 8 bytes) ++ drop 16 bytes)).
  { replace (drop 16 bytes) with (drop 8 (drop 8 bytes)) by (by rewrite drop_drop).
    rewrite !take_drop. by apply holds_mstore. }
  rewrite !holds_app, Ht, length_take in Hh. destruct Hh as (_ & Hh & _).
  replace (info + Z.of_nat (8 `min` length bytes)) with (info + 8) in Hh by lia.
  rewrite (holds_mread _ _ _ _ Hh). apply Z.mod_small. lia.
Qed.

(** After the two allocations: what [Read] leaves. *)
Lemma open_file_ok root path s h s' :
  open_file root path s = (Ok h, s') -> b_mem s' = b_mem s /\ opened (b_fw s') h path.
Proof.
  unfold open_file. intros Hr. run_inv. pose proof (Open_law root path (b_fw s)) as Hl.
  match goal with Hc : Open _ _ _ = _ |- _ => rewrite Hc in Hl end. cbn. split; [done|]. by apply Hl.
Qed.

Lemma info_size_ok info (s : boot_state F) n s' :
  file_info_size_field info s = (Ok n, s') -> n = mread (b_mem s) (info + 8) 8 /\ s' = s.
Proof. unfold file_info_size_field. intros Hr. by run_inv. Qed.

(** Reading and releasing, with [info] describing the file. *)
Lemma read_contents root h path info isz file_size s buf size s' :
  opened (b_fw s) h path -> block (b_fw s) info isz -> 16 <= isz ->
  file_size = Z.of_nat (length (volume path)) -> mread (b_mem s) (info + 8) 8 = file_size ->
  (let! file_buffer :=
     on_error (panthera_allocate_pool file_size)
       (fun _ => panthera_free_pool info >> close_both h root) in
   let! (st, size_read) := read_file h file_size file_buffer in
   let! file_size := file_info_size_field info in
   if EFI_ERROR st || negb (size_read =? file_size) then
     panthera_free_pool file_buffer >> panthera_free_pool info >>
     close_both h root >> throw EFI_NOT_FOUND
   else
     panthera_free_pool info >> close_both h root >> ret (file_buffer, size_read)) s
  = (Ok (buf, size), s') ->
  0 < buf /\ size = Z.of_nat (length (volume path)) /\ buf + size <= 2 ^ 64 /\
  holds (b_mem s') buf (volume path) /\ block (b_fw s') buf size.
Proof.
  intros Ho Hi Hisz -> Hm Hr. apply bind_ok in Hr as (b & s1 & H1 & Hr).
  apply on_error_ok, allocate_pool_ok in H1 as (M1 & (_ & KB1 & KO1) & B1 & P1 & T1 & _ & D1).
  apply bind_ok in Hr as ([st rd] & s2 & H2 & Hr). apply read_file_ok in H2 as (bs & R2 & M2).
  pose proof (Read_law h (Z.of_nat (length (volume path))) (b_fw s1) ltac:(lia)) as L. rewrite R2 in L.
  destruct L as (_ & KB2 & Hlen & Hbs & L). apply bind_ok in Hr as (fs & s3 & H3 & Hr).
  apply info_size_ok in H3 as [-> ->].
  destruct (EFI_ERROR st) eqn:Est; [cbn in Hr; run_inv|]. cbn [orb] in Hr.
  destruct (L path ltac:(auto) eq_refl) as [-> ->]. rewrite Nat2Z.id, firstn_all in *.
  destruct (negb _); run_inv. simplify_eq.
  destruct (D1 info isz Hi) as [Hne _].
  repeat match goal with
  | Hc : panthera_free_pool _ _ = _ |- _ => apply free_pool_ok in Hc as [? ?]
  | Hc : close_both _ _ _ = _ |- _ => unfold close_both in Hc; run_inv
  | Hc : close_handle _ _ = _ |- _ => apply close_ok in Hc as [? ?]
  end.
  split_and!; [done|done|done| |].
  - unfold holds in *. repeat match goal with E : b_mem _ = _ |- _ => rewrite E; clear E end.
    by apply holds_mstore, volume_bytes.
  - auto.
Qed.

Lemma load_open_file_contents root h path s buf size s' :
  mem_wf (b_mem s) -> opened (b_fw s) h path ->
  load_open_file root h s = (Ok (buf, size), s') ->
  0 < buf /\ size = Z.of_nat (length (volume path)) /\ buf + size <= 2 ^ 64 /\
  holds (b_mem s') buf (volume path) /\ block (b_fw s') buf size.
Proof.
  intros Hw Ho. unfold load_open_file. intros Hr. apply bind_ok in Hr as ([st0 isz] & s1 & H1 & Hr).
  apply get_info_ok in H1 as (b1 & G1 & M1). cbn in M1.
  pose proof (GetInfo_law h 0 0 (b_fw s)) as L1. rewrite G1 in L1. destruct L1 as [(_ & _ & K1) (_ & _ & L1 & _)].
  specialize (L1 eq_refl). destruct (_ || _); [run_inv; congruence|].
  apply bind_ok in Hr as (info & s2 & H2 & Hr). apply on_error_ok, allocate_pool_ok in H2.
  destruct H2 as (M2 & (_ & _ & K2) & B2 & I2 & _).
  apply bind_ok in Hr as ([st3 isz'] & s3 & H3 & Hr). apply get_info_ok in H3 as (b3 & G3 & M3).
  rewrite (proj2 (Z.eqb_neq info 0)) in M3 by lia.
  pose proof (GetInfo_law h isz info (b_fw s2)) as L3. rewrite G3 in L3.
  destruct L3 as ((_ & KB3 & K3) & Hl3 & Hb3 & _ & L3).
  destruct (EFI_ERROR st3) eqn:E3; [run_inv|].
  destruct (L3 path ltac:(auto) eq_refl ltac:(lia)) as [H16 Ht].
  apply bind_ok in Hr as (fs & s4 & H4 & Hr). apply info_size_ok in H4 as [-> ->].
  pose proof (volume_size path).
  eapply (read_contents root h path info isz); [| | | | |exact Hr]; [auto|auto|lia| |done].
  rewrite M3. apply info_size_stored; [done|done|lia|done].
Qed.

Lemma total_load_kernel_file ih path : total (panthera_load_kernel_file (F := F) ih path).
Proof. total_tac. Qed.

Lemma globals_load_kernel_file ih path :
  pres globals_kept (panthera_load_kernel_file (F := F) ih path).
Proof. kept_tac. Qed.

Lemma load_kernel_file_ok ih path s buf size s' :
  mem_wf (b_mem s) -> panthera_load_kernel_file ih path s = (Ok (buf, size), s') ->
  0 < buf /\ size = Z.of_nat (length (volume path)) /\ buf + size <= 2 ^ 64 /\
  holds (b_mem s') buf (volume path) /\ block (b_fw s') buf size.
Proof.
  intros Hw Hr. unfold panthera_load_kernel_file in Hr.
  apply bind_ok in Hr as (li & s1 & H1 & Hr). apply bind_ok in Hr as (dv & s2 & H2 & Hr).
  apply bind_ok in Hr as (fs & s3 & H3 & Hr). apply bind_ok in Hr as (root & s4 & H4 & Hr).
  apply bind_ok in Hr as (h & s5 & H5 & Hr). apply on_error_ok, open_file_ok in H5 as [M5 O5].
  eapply load_open_file_contents; [|exact O5|exact Hr].
  pose proof (framed_handle_protocol (fun _ => False) ih gEfiLoadedImageProtocolGuid s) as W1.
  rewrite H1 in W1. injection H2 as _ <-.
  pose proof (framed_handle_protocol (fun _ => False) dv gEfiSimpleFileSystemProtocolGuid s1) as W2.
  rewrite H3 in W2.
  pose proof (framed_open_volume (fun _ => False) fs s3) as W3. rewrite H4 in W3.
  rewrite M5. apply W3, W2, W1. split; [done|]. intros a Ha. done.
Qed.
End Contents.

(** C17. Loading a file either fails with an EFI error status, or returns a
    live pool buffer that holds exactly the bytes the volume has under that
    path, and their number. *)
Theorem load_kernel_file_contents {F} `{LawfulFirmware F} (ih : Z) (path : list Z) (s : boot_state F) :
  mem_wf (b_mem s) ->
  match panthera_load_kernel_file ih path s with
  | (Ok (buf, size), s') =>
      0 < buf /\ size = Z.of_nat (length (volume path)) /\
      mbytes (b_mem s') buf (Z.to_nat size) = volume path /\ block (b_fw s') buf size
  | (Err st, _) => EFI_ERROR st = true
  | _ => False
  end.
Proof.
  intros Hw. pose proof (total_load_kernel_file ih path s) as Ht.
  destruct (panthera_load_kernel_file ih path s) as [[[buf size]|st|h|] s'] eqn:E; try done.
  destruct (load_kernel_file_ok ih path s buf size s' Hw E) as (? & -> & ? & Hh & ?).
  rewrite Nat2Z.id. done.
Qed.

Lemma load_kernel_file_contents_witness :
  match panthera_load_kernel_file 5 path_mach_kernel (sim_boot 0) with
  | (Ok (buf, size), s') => size = 404 /\ mbytes (b_mem s') buf (Z.to_nat size) = sim_kernel
  | _ => False
  end.
Proof.
  pose proof (load_kernel_file_contents 5 path_mach_kernel (sim_boot 0) mem_wf_empty) as Hl.
  assert (E : (panthera_load_kernel_file 5 path_mach_kernel (sim_boot 0)).1 =
              Ok (pool_floor + 32, 404)) by (vm_compute; reflexivity).
  destruct (panthera_load_kernel_file _ _ _) as [r s']. cbn in E. subst r.
  destruct Hl as (_ & _ & Hb & _). split; [done|exact Hb].
Defined.
