(* ===== verification/DeviceTree.v ===== *)
(** * The synthetic device tree: boot/efi/loader/src/bootx64.c

    [panthera_build_synthetic_device_tree] flattens a small device tree into a
    64 KiB buffer: the chosen node with the random seed and the memory map that
    lists the staged kernel extensions, the EFI platform node with the clock
    frequency, and the PCI node. The specification is an abstract tree with its
    encoding and a reader. *)

From Stdlib Require Import ZArith Lia Ascii String.
From stdpp Require Import base list gmap.
From S2P Require Import Prelude MachO BootText Efi Sim.

Open Scope Z_scope.

Definition PANTHERA_DEVICE_TREE_MAX_SIZE : Z := 65536.
Definition sizeof_PantheraDTNode : Z := 8.
Definition sizeof_PantheraDTProperty : Z := 36.

(** 56 initialisers; the remaining bytes of the array of 64 are zero. *)
Definition random_seed : list Z :=
  [0x50; 0x41; 0x4e; 0x54; 0x48; 0x45; 0x52; 0x41;
   0x10; 0x23; 0x45; 0x67; 0x89; 0xab; 0xcd; 0xef;
   0x31; 0x42; 0x53; 0x64; 0x75; 0x86; 0x97; 0xa8;
   0xb9; 0xca; 0xdb; 0xec; 0xfd; 0x0e; 0x1f; 0x2a;
   0x5a; 0x4b; 0x3c; 0x2d; 0x1e; 0x0f; 0xf0; 0xe1;
   0xd2; 0xc3; 0xb4; 0xa5; 0x96; 0x87; 0x78; 0x69;
   0x55; 0x66; 0x77; 0x88; 0x99; 0xaa; 0xbb; 0xcc] ++ repeat 0 8.

(** maxBusNum, majorVersion, minorVersion, BIOSPresent, busFlags, reserved. *)
Definition pci_bus_info : list Z := [0xff; 2; 0; 0; 1; 0; 0; 0].

Section Build.
Context {F : Type} `{Firmware F}.

(** ** Appending to the buffer *)

(** The C string [name] copied into the 32-byte name field, the length word
    and the value; the padding was zeroed. *)
Definition write_property (m : mem) (property : Z) (name value : list Z) : mem :=
  let m := panthera_zero_memory m property
             (sizeof_PantheraDTProperty + panthera_align_4 (Z.of_nat (length value))) in
  let m := mstore m property (panthera_copy_ascii 32 name ++ [0]) in
  let m := mwrite m (property + 32) 4 (Z.of_nat (length value)) in
  mstore m (property + sizeof_PantheraDTProperty) value.

Definition panthera_dt_append_property (buffer : Z) (name value : list Z) (offset : Z) : M F Z :=
  let property_size :=
    sizeof_PantheraDTProperty +64 panthera_align_4 (Z.of_nat (length value)) in
  if PANTHERA_DEVICE_TREE_MAX_SIZE <? offset +64 property_size then throw EFI_OUT_OF_RESOURCES
  else
    let! m := get_mem in
    put_mem (write_property m (buffer + offset) name value) >>
    ret (offset +64 property_size).

(** The value is the name with its NUL. *)
Definition panthera_dt_append_name (buffer : Z) (name : list Z) (offset : Z) : M F Z :=
  panthera_dt_append_property buffer (str "name") (name ++ [0]) offset.

(** [node->nProperties = p; node->nChildren = c; offset += sizeof( *node)]. *)
Definition dt_node_header (buffer nProperties nChildren offset : Z) : M F Z :=
  let! m := get_mem in
  put_mem (mwrite (mwrite m (buffer + offset) 4 nProperties) (buffer + offset + 4) 4 nChildren) >>
  ret (offset +64 sizeof_PantheraDTNode).

(** The property of one staged kernel extension: its [PantheraDeviceTreeBuffer]. *)
Definition kext_value (r : PantheraBootKextRecord) : list Z :=
  le_encode 4 (dt_paddr r) ++ le_encode 4 (dt_length r).

Fixpoint append_kexts (buffer : Z) (records : list PantheraBootKextRecord) (offset : Z) : M F Z :=
  match records with
  | [] => ret offset
  | r :: records' =>
      let! offset := panthera_dt_append_property buffer (driver_entry_name r) (kext_value r) offset in
      append_kexts buffer records' offset
  end.

(** ** panthera_build_synthetic_device_tree *)
Definition fill_device_tree (buffer kext_count : Z) (records : list PantheraBootKextRecord)
    (frequency : Z) (offset : Z) : M F Z :=
  let! offset := dt_node_header buffer 1 3 offset in
  let! offset := panthera_dt_append_name buffer (str "/") offset in
  let! offset := dt_node_header buffer 2 1 offset in
  let! offset := panthera_dt_append_name buffer (str "chosen") offset in
  let! offset := panthera_dt_append_property buffer (str "random-seed") random_seed offset in
  let! offset := dt_node_header buffer (1 +32 kext_count) 0 offset in
  let! offset := panthera_dt_append_name buffer (str "memory-map") offset in
  let! offset :=
    (if Z.of_nat (length records) <? kext_count then stuck
     else append_kexts buffer (take (Z.to_nat kext_count) records) offset) in
  let! offset := dt_node_header buffer 1 1 offset in
  let! offset := panthera_dt_append_name buffer (str "efi") offset in
  let! offset := dt_node_header buffer 2 0 offset in
  let! offset := panthera_dt_append_name buffer (str "platform") offset in
  let! offset := panthera_dt_append_property buffer (str "FSBFrequency") (le_encode 8 frequency) offset in
  let! offset := dt_node_header buffer 2 0 offset in
  let! offset := panthera_dt_append_name buffer (str "pci") offset in
  panthera_dt_append_property buffer (str "pci-bus-info") pci_bus_info offset.

Definition build_in_buffer (buffer : Z) : M F unit :=
  zero_memory buffer PANTHERA_DEVICE_TREE_MAX_SIZE >>
  let! kext_count := get_var gBootKextCount in
  let! records := get_records in
  let! frequency := get_var gFSBFrequencyHz in
  let! offset := fill_device_tree buffer kext_count records frequency 0 in
  put_var gDeviceTreeSize (wrap 32 offset).

Definition panthera_build_synthetic_device_tree : M F unit :=
  let! buffer := panthera_allocate_buffer_pages PANTHERA_DEVICE_TREE_MAX_SIZE in
  put_var gDeviceTreeBase buffer >> build_in_buffer buffer.
End Build.

(** ** The abstract tree *)
Inductive dt_tree := Node (props : list (list Z * list Z)) (children : list dt_tree).

(** Zeros up to a multiple of four. *)
Definition pad4 (n : nat) : list Z := repeat 0 (Z.to_nat (panthera_align_4 (Z.of_nat n)) - n).

Definition encode_prop (p : list Z * list Z) : list Z :=
  p.1 ++ repeat 0 (32 - length p.1) ++ le_encode 4 (Z.of_nat (length p.2)) ++ p.2 ++
  pad4 (length p.2).

Fixpoint encode_tree (t : dt_tree) : list Z :=
  match t with
  | Node props children =>
      le_encode 4 (Z.of_nat (length props)) ++ le_encode 4 (Z.of_nat (length children)) ++
      concat (encode_prop <$> props) ++ concat (map encode_tree children)
  end.

(** A reader: properties and children by their counts, in order. *)
Definition decode_prop (bs : list Z) : option ((list Z * list Z) * list Z) :=
  if (length bs <? 36)%nat then None
  else
    let n := Z.to_nat (le_decode (take 4 (drop 32 bs))) in
    let padded := Z.to_nat (panthera_align_4 (Z.of_nat n)) in
    if (length (drop 36 bs) <? padded)%nat then None
    else Some ((c_string (take 32 bs), take n (drop 36 bs)),
               drop padded (drop 36 bs)).

Fixpoint decode_props (n : nat) (bs : list Z) : option (list (list Z * list Z) * list Z) :=
  match n with
  | O => Some ([], bs)
  | S k =>
      match decode_prop bs with
      | None => None
      | Some (p, bs') =>
          match decode_props k bs' with None => None | Some (ps, r) => Some (p :: ps, r) end
      end
  end.

Fixpoint decode_tree (fuel : nat) (bs : list Z) : option (dt_tree * list Z) :=
  match fuel with
  | O => None
  | S fuel' =>
      if (length bs <? 8)%nat then None
      else
        let np := Z.to_nat (le_decode (take 4 bs)) in
        let nc := Z.to_nat (le_decode (take 4 (drop 4 bs))) in
        match decode_props np (drop 8 bs) with
        | None => None
        | Some (ps, r) =>
            let fix children (n : nat) (bs : list Z) : option (list dt_tree * list Z) :=
              match n with
              | O => Some ([], bs)
              | S k =>
                  match decode_tree fuel' bs with
                  | None => None
                  | Some (c, bs') =>
                      match children k bs' with None => None | Some (cs, r) => Some (c :: cs, r) end
                  end
              end in
            match children nc r with None => None | Some (cs, r') => Some (Node ps cs, r') end
        end
  end.

(** The tree the loader means to build. *)
Definition name_prop (name : string) : list Z * list Z := (str "name", str name ++ [0]).

Definition kext_prop (r : PantheraBootKextRecord) : list Z * list Z :=
  (driver_entry_name r, kext_value r).

Definition device_tree (records : list PantheraBootKextRecord) (frequency : Z) : dt_tree :=
  Node [name_prop "/"]
    [ Node [name_prop "chosen"; (str "random-seed", random_seed)]
        [ Node (name_prop "memory-map" :: (kext_prop <$> records)) [] ];
      Node [name_prop "efi"]
        [ Node [name_prop "platform"; (str "FSBFrequency", le_encode 8 frequency)] [] ];
      Node [name_prop "pci"; (str "pci-bus-info", pci_bus_info)] [] ].

(** Trees within the limits of the format, of depth at most [fuel]. *)
Definition prop_ok (p : list Z * list Z) : Prop :=
  (length p.1 <= 31)%nat /\ Forall (fun c => c <> 0) p.1 /\ Z.of_nat (length p.2) < 2 ^ 31.

Fixpoint tree_ok (fuel : nat) (t : dt_tree) : Prop :=
  match fuel with
  | O => False
  | S fuel' =>
      match t with
      | Node props children =>
          Forall prop_ok props /\ Z.of_nat (length props) < 2 ^ 31 /\
          Z.of_nat (length children) < 2 ^ 31 /\ Forall (tree_ok fuel') children
      end
  end.

(** ** Reading back *)
Lemma c_string_zeros name n : Forall (fun c => c <> 0) name -> c_string (name ++ repeat 0 n) = name.
Proof.
  induction 1 as [|c name Hc Hn IH]; cbn [app c_string]; [by destruct n|].
  by rewrite (proj2 (Z.eqb_neq c 0) Hc), IH.
Qed.

Lemma align_4_nat n :
  Z.of_nat n < 2 ^ 31 -> (n <= Z.to_nat (panthera_align_4 (Z.of_nat n)) < n + 4)%nat.
Proof. intros Hn. destruct (align_4_spec (Z.of_nat n)) as [Ha _]; lia. Qed.

Lemma length_encode_prop p :
  prop_ok p -> length (encode_prop p) = (36 + Z.to_nat (panthera_align_4 (Z.of_nat (length p.2))))%nat.
Proof.
  intros (Hn & _ & Hv). unfold encode_prop, pad4. pose proof (align_4_nat _ Hv).
  rewrite !length_app, !repeat_length, length_le_encode. lia.
Qed.

Lemma le_decode_encode4 v : 0 <= v < 2 ^ 32 -> le_decode (le_encode 4 v) = v.
Proof. intros Hv. rewrite le_decode_encode. by apply Z.mod_small. Qed.

Lemma decode_encode_prop p rest : prop_ok p -> decode_prop (encode_prop p ++ rest) = Some (p, rest).
Proof.
  intros Hp. pose proof (length_encode_prop p Hp) as HL. pose proof Hp as (Hn & Hz & Hv).
  pose proof (align_4_nat _ Hv) as Ha. unfold decode_prop. rewrite length_app, HL.
  rewrite (proj2 (Nat.ltb_ge _ _)) by lia. revert HL. unfold encode_prop.
  rewrite <- !(assoc_L (++)). set (name := p.1 ++ repeat 0 (32 - length p.1)).
  assert (Hname : length name = 32%nat) by (unfold name; rewrite length_app, repeat_length; lia).
  rewrite !(assoc_L (++) p.1). fold name. intros HL.
  rewrite (drop_app_length' name _ 32), (take_app_length' name _ 32) by done.
  rewrite take_app_length' by (by rewrite length_le_encode). rewrite le_decode_encode4 by lia.
  rewrite Nat2Z.id.
  replace (drop 36 (name ++ le_encode 4 (Z.of_nat (length p.2)) ++ p.2 ++ pad4 (length p.2) ++ rest))
    with (p.2 ++ pad4 (length p.2) ++ rest).
  2:{ rewrite (assoc_L (++) name), drop_app_length'; [done|].
      rewrite length_app, length_le_encode. lia. }
  unfold pad4. rewrite !length_app, repeat_length, (proj2 (Nat.ltb_ge _ _)) by lia.
  rewrite take_app_length. rewrite (assoc_L (++) p.2), drop_app_length'.
  2:{ rewrite length_app, repeat_length. lia. }
  unfold name. rewrite c_string_zeros by done. by destruct p.
Qed.

Lemma decode_encode_props ps rest :
  Forall prop_ok ps ->
  decode_props (length ps) (concat (encode_prop <$> ps) ++ rest) = Some (ps, rest).
Proof.
  induction 1 as [|p ps Hp _ IH]; [done|]. rewrite fmap_cons.
  cbn [length decode_props concat]. rewrite <- (assoc_L (++)), decode_encode_prop by done.
  by rewrite IH.
Qed.

(** Reading an encoded tree gives the tree and the bytes after it. *)
Lemma decode_encode_tree fuel t rest :
  tree_ok fuel t -> decode_tree fuel (encode_tree t ++ rest) = Some (t, rest).
Proof.
  revert t rest. induction fuel as [|fuel IH]; intros t rest Ht; [done|].
  destruct t as [ps cs]. destruct Ht as (Hps & Hnp & Hnc & Hcs).
  cbn [decode_tree encode_tree]. rewrite !length_app, !length_le_encode.
  rewrite (proj2 (Nat.ltb_ge _ _)) by lia. rewrite <- !(assoc_L (++)).
  rewrite (take_app_length' (le_encode 4 (Z.of_nat (length ps)))) by (by rewrite length_le_encode).
  rewrite (drop_app_length' (le_encode 4 (Z.of_nat (length ps))) _ 4) by (by rewrite length_le_encode).
  rewrite take_app_length' by (by rewrite length_le_encode).
  rewrite !le_decode_encode4, !Nat2Z.id by lia.
  rewrite (assoc_L (++) (le_encode 4 _)), (drop_app_length' (_ ++ _) _ 8)
    by (by rewrite length_app, !length_le_encode).
  rewrite decode_encode_props by done.
  match goal with |- match ?f _ _ with _ => _ end = _ => set (children := f) end.
  assert (Hch : forall l, Forall (tree_ok fuel) l ->
    children (length l) (concat (map encode_tree l) ++ rest) = Some (l, rest)).
  { induction 1 as [|c l Hc _ IHl]; [done|]. cbn [length map concat].
    change (children (S (length l))) with (fun bs => match decode_tree fuel bs with
      | None => None
      | Some (c, bs') => match children (length l) bs' with None => None
                         | Some (cs, r) => Some (c :: cs, r) end end).
    cbn beta. rewrite <- (assoc_L (++)), IH by done. by rewrite IHl. }
  by rewrite Hch.
Qed.

(** ** What the builder appends *)
Definition prop_bytes (p : list Z * list Z) : Prop := Forall byte p.1 /\ Forall byte p.2.

Lemma write_property_holds m p name value :
  prop_ok (name, value) -> prop_bytes (name, value) ->
  let m' := write_property m p name value in
  holds m' p (encode_prop (name, value)) /\
  only_in p (Z.of_nat (length (encode_prop (name, value)))) m m'.
Proof.
  intros Hok [Hbn Hbv]. pose proof (length_encode_prop _ Hok) as HL. cbn [fst snd] in HL, Hbn, Hbv.
  destruct Hok as (Hn & Hz & Hv). cbn [fst snd] in Hn, Hz, Hv.
  pose proof (align_4_nat _ Hv) as Ha. unfold write_property, sizeof_PantheraDTProperty.
  unfold panthera_copy_ascii. rewrite copy_ascii_fits by (done || lia).
  destruct (align_4_spec (Z.of_nat (length value))) as [Hsz _]; [lia|].
  set (sz := panthera_align_4 (Z.of_nat (length value))) in *.
  set (m0 := panthera_zero_memory m p (36 + sz)).
  set (m1 := mstore m0 p (name ++ [0])).
  set (m2 := mwrite m1 (p + 32) 4 (Z.of_nat (length value))).
  set (m3 := mstore m2 (p + 36) value).
  assert (H1 : only_in p (Z.of_nat (length name) + 1) m0 m1).
  { pose proof (only_in_mstore m0 p (name ++ [0])) as Ho. rewrite length_app in Ho.
    eapply only_in_weaken; [exact Ho|lia|cbn; lia]. }
  pose proof (only_in_mwrite m1 (p + 32) 4 (Z.of_nat (length value))) as H2. fold m2 in H2.
  pose proof (only_in_mstore m2 (p + 36) value) as H3. fold m3 in H3.
  assert (Hzero : forall b, p <= b < p + 36 + sz ->
    (p + Z.of_nat (length name) < b < p + 32 \/ p + 36 + Z.of_nat (length value) <= b) ->
    mget m3 b = 0).
  { intros b Hb Hr. rewrite H3, H2, H1 by lia. unfold m0. rewrite mget_zero_memory.
    by rewrite decide_True by lia. }
  assert (Hname : holds m3 p (name ++ [0])).
  { eapply holds_only_in; [exact H3|rewrite length_app; cbn; lia|].
    eapply holds_only_in; [exact H2|rewrite length_app; cbn; lia|].
    apply holds_mstore. apply Forall_app. split; [done|]. apply Forall_singleton. split; lia. }
  split.
  - unfold encode_prop. cbn [fst snd].
    replace (repeat 0 (32 - length name)) with ([0] ++ repeat 0 (31 - length name))
      by (replace (32 - length name)%nat with (S (31 - length name)) by lia; done).
    rewrite <- (assoc_L (++)), (assoc_L (++) name [0]). rewrite holds_app. split; [done|].
    rewrite !holds_app, repeat_length, length_le_encode, length_app. cbn [length].
    replace (p + Z.of_nat (length name + 1) + Z.of_nat (31 - length name)) with (p + 32) by lia.
    replace (p + 32 + Z.of_nat 4) with (p + 36) by lia. split_and!.
    + apply holds_zeros. intros b Hb. apply Hzero; lia.
    + eapply holds_only_in; [exact H3| |apply holds_mwrite]. rewrite length_le_encode. lia.
    + by apply holds_mstore.
    + apply holds_zeros. intros b Hb. apply Hzero; lia.
  - rewrite HL. intros b Hb. rewrite H3, H2, H1 by lia. unfold m0. rewrite mget_zero_memory.
    by rewrite decide_False by lia.
Qed.

Section BuildSpec.
Context {F : Type} `{Firmware F}.
Variable base : Z.

(** The step extends the bytes in the buffer and touches nothing else. *)
Definition appends (k : Z -> M F Z) (bytes : list Z) : Prop :=
  forall s pre, holds (b_mem s) base pre ->
    Z.of_nat (length pre + length bytes) <= PANTHERA_DEVICE_TREE_MAX_SIZE ->
    exists m', k (Z.of_nat (length pre)) s = (Ok (Z.of_nat (length (pre ++ bytes))), set_mem s m') /\
      holds m' base (pre ++ bytes) /\ only_in base PANTHERA_DEVICE_TREE_MAX_SIZE (b_mem s) m' /\
      (mem_wf (b_mem s) -> mem_wf m').

Lemma appends_bind k1 k2 b1 b2 :
  appends k1 b1 -> appends k2 b2 -> appends (fun o => bind (k1 o) k2) (b1 ++ b2).
Proof.
  intros H1 H2 s pre Hh Hl. rewrite length_app in Hl.
  destruct (H1 s pre Hh) as (m1 & E1 & Hh1 & Ho1 & Hw1); [lia|]. unfold bind. rewrite E1.
  destruct (H2 (set_mem s m1) (pre ++ b1) Hh1) as (m2 & E2 & Hh2 & Ho2 & Hw2); [rewrite length_app; lia|].
  exists m2. rewrite E2. rewrite <- (assoc_L (++)) in *. split; [done|]. split; [done|].
  split; [eapply only_in_trans; [exact Ho1|exact Ho2]|auto].
Qed.

Lemma appends_ret : appends ret [].
Proof.
  intros s pre Hh Hl. exists (b_mem s). rewrite app_nil_r. split; [by destruct s|].
  split; [done|]. split; [apply only_in_refl|done].
Qed.

Lemma appends_node p c :
  appends (dt_node_header base p c) (le_encode 4 p ++ le_encode 4 c).
Proof.
  intros s pre Hh Hl. unfold PANTHERA_DEVICE_TREE_MAX_SIZE in *.
  rewrite !length_app, !length_le_encode in Hl. unfold dt_node_header, bind, get_mem, put_mem, ret.
  unfold sizeof_PantheraDTNode. wrap_tac. eexists.
  split; [rewrite !length_app, !length_le_encode; do 2 f_equal; lia|].
  set (a := base + Z.of_nat (length pre)).
  pose proof (only_in_mwrite (b_mem s) a 4 p) as H1.
  pose proof (only_in_mwrite (mwrite (b_mem s) a 4 p) (a + 4) 4 c) as H2.
  split; [|split].
  - rewrite !holds_app, length_le_encode. fold a. split_and!.
    + eapply holds_only_in; [exact H2|lia|]. eapply holds_only_in; [exact H1|lia|done].
    + eapply holds_only_in; [exact H2|rewrite length_le_encode; lia|apply holds_mwrite].
    + apply holds_mwrite.
  - eapply only_in_trans; eapply only_in_weaken; [exact H1| | |exact H2| |]; lia.
  - intros Hw. by do 2 apply mem_wf_mwrite.
Qed.

Lemma appends_property name value :
  prop_ok (name, value) -> prop_bytes (name, value) ->
  appends (panthera_dt_append_property base name value) (encode_prop (name, value)).
Proof.
  intros Hok Hb s pre Hh Hl. pose proof (length_encode_prop _ Hok) as HL. cbn [snd] in HL.
  destruct (align_4_spec (Z.of_nat (length value))) as [Hsz _].
  { destruct Hok as (_ & _ & Hv). cbn in Hv. lia. }
  unfold panthera_dt_append_property, PANTHERA_DEVICE_TREE_MAX_SIZE, sizeof_PantheraDTProperty in *.
  rewrite HL in Hl. wrap_tac. rewrite (proj2 (Z.ltb_ge _ _)) by lia.
  unfold bind, get_mem, put_mem, ret. wrap_tac.
  destruct (write_property_holds (b_mem s) (base + Z.of_nat (length pre)) name value Hok Hb) as [H1 H2].
  eexists. split; [rewrite length_app, HL; do 2 f_equal; lia|]. split; [|split].
  - apply holds_app. split; [|done]. eapply holds_only_in; [exact H2|lia|done].
  - eapply only_in_weaken; [exact H2|lia|rewrite HL; lia].
  - intros Hw. by apply mem_wf_mstore, mem_wf_mwrite, mem_wf_mstore, mem_wf_zero.
Qed.

(** A staged kernel extension has a driver name that fits the property name. *)
Definition record_ok (r : PantheraBootKextRecord) : Prop :=
  (length (driver_entry_name r) <= 31)%nat /\ Forall (fun c => 0 < c < 256) (driver_entry_name r).

Lemma kext_value_length r : length (kext_value r) = 8%nat.
Proof. unfold kext_value. by rewrite length_app, !length_le_encode. Qed.

Lemma record_prop_ok r : record_ok r -> prop_ok (kext_prop r) /\ prop_bytes (kext_prop r).
Proof.
  intros [Hl Hc]. unfold prop_ok, prop_bytes. cbn [fst snd kext_prop]. rewrite kext_value_length.
  split_and!; try done.
  - eapply Forall_impl; [exact Hc|]. cbn. lia.
  - eapply Forall_impl; [exact Hc|]. unfold byte. lia.
  - unfold kext_value. apply Forall_app. split; apply le_encode_bytes.
Qed.

Lemma appends_kexts records :
  Forall record_ok records ->
  appends (append_kexts base records) (concat (encode_prop <$> (kext_prop <$> records))).
Proof.
  induction 1 as [|r records Hr _ IH]; [apply appends_ret|].
  rewrite !fmap_cons. cbn [concat append_kexts]. destruct (record_prop_ok r Hr).
  by apply appends_bind; [apply appends_property|].
Qed.

Lemma appends_name name :
  (length (str name) < 32)%nat -> Forall byte (str name) ->
  appends (panthera_dt_append_name base (str name)) (encode_prop (name_prop name)).
Proof.
  intros Hl Hb. apply appends_property.
  - split_and!.
    + cbn. lia.
    + cbn. repeat constructor; done.
    + cbn [snd]. rewrite length_app. cbn. lia.
  - split; cbn [fst snd].
    + repeat constructor; done.
    + apply Forall_app. split; [done|]. apply Forall_singleton. split; lia.
Qed.

Lemma appends_frequency frequency :
  appends (panthera_dt_append_property base (str "FSBFrequency") (le_encode 8 frequency))
    (encode_prop (str "FSBFrequency", le_encode 8 frequency)).
Proof.
  apply appends_property.
  - split_and!; cbn [fst snd]; [cbn; lia|by repeat constructor|by rewrite length_le_encode].
  - split; cbn [fst snd]; [by repeat constructor|apply le_encode_bytes].
Qed.

(** The encoding, piece by piece in the order of the builder. *)
Lemma encode_device_tree rs frequency :
  encode_tree (device_tree rs frequency) =
    (le_encode 4 1 ++ le_encode 4 3) ++ encode_prop (name_prop "/") ++
    (le_encode 4 2 ++ le_encode 4 1) ++ encode_prop (name_prop "chosen") ++
    encode_prop (str "random-seed", random_seed) ++
    (le_encode 4 (1 + Z.of_nat (length rs)) ++ le_encode 4 0) ++ encode_prop (name_prop "memory-map") ++
    concat (encode_prop <$> (kext_prop <$> rs)) ++
    (le_encode 4 1 ++ le_encode 4 1) ++ encode_prop (name_prop "efi") ++
    (le_encode 4 2 ++ le_encode 4 0) ++ encode_prop (name_prop "platform") ++
    encode_prop (str "FSBFrequency", le_encode 8 frequency) ++
    (le_encode 4 2 ++ le_encode 4 0) ++ encode_prop (name_prop "pci") ++
    encode_prop (str "pci-bus-info", pci_bus_info).
Proof.
  unfold device_tree. cbn [encode_tree map concat fmap list_fmap length].
  rewrite length_fmap. rewrite !app_nil_r, <- !(assoc_L (++)).
  replace (Z.of_nat (S (length rs))) with (1 + Z.of_nat (length rs)) by lia. done.
Qed.

Lemma length_kext_props rs :
  Forall record_ok rs ->
  length (concat (encode_prop <$> (kext_prop <$> rs))) = (44 * length rs)%nat.
Proof.
  induction 1 as [|r rs Hr _ IH]; [done|]. rewrite !fmap_cons. cbn [concat length].
  destruct (record_prop_ok r Hr) as [Hok _].
  rewrite length_app, IH, length_encode_prop by done. cbn [snd kext_prop].
  rewrite kext_value_length. change (Z.to_nat (panthera_align_4 (Z.of_nat 8))) with 8%nat. lia.
Qed.

Lemma length_encode_device_tree rs frequency :
  Forall record_ok rs ->
  (length (encode_tree (device_tree rs frequency)) <= 1000 + 44 * length rs)%nat.
Proof.
  intros Hr. rewrite encode_device_tree, !length_app, !length_le_encode, length_kext_props by done.
  rewrite (length_encode_prop (str "FSBFrequency", le_encode 8 frequency))
    by (split_and!; cbn [fst snd]; [cbn; lia|by repeat constructor|by rewrite length_le_encode]).
  cbn [snd]. rewrite length_le_encode.
  repeat match goal with
  | |- context [length (encode_prop ?p)] =>
      let n := eval vm_compute in (length (encode_prop p)) in
      change (length (encode_prop p)) with n
  end.
  change (Z.to_nat (panthera_align_4 (Z.of_nat 8))) with 8%nat. lia.
Qed.

(** Constant names and values. *)
Ltac closed := apply (bool_decide_unpack _); vm_compute; exact I.
Ltac append_closed :=
  lazymatch goal with
  | |- appends _ (le_encode _ _ ++ _) => apply appends_node
  | |- appends _ (encode_prop (name_prop _)) => apply appends_name; [cbn; lia|closed]
  | |- appends _ (encode_prop (_, le_encode _ _)) => apply appends_frequency
  | |- appends _ (encode_prop _) =>
      apply appends_property; [split_and!; [cbn; lia|closed|cbn; lia]|split; closed]
  end.

Lemma appends_device_tree n records frequency :
  (n <= length records)%nat -> Z.of_nat n < 2 ^ 31 -> Forall record_ok (take n records) ->
  appends (fill_device_tree base (Z.of_nat n) records frequency)
    (encode_tree (device_tree (take n records) frequency)).
Proof.
  intros Hn Hlt Hr. unfold fill_device_tree.
  rewrite (proj2 (Z.ltb_ge (Z.of_nat (length records)) _)) by lia. rewrite Nat2Z.id.
  assert (Hk : length (take n records) = n) by (rewrite length_take; lia).
  set (rs := take n records) in *. clearbody rs. rewrite <- Hk in Hlt |- *. wrap_tac.
  rewrite encode_device_tree.
  do 7 (apply appends_bind; [append_closed|]). apply appends_bind; [by apply appends_kexts|].
  do 7 (apply appends_bind; [append_closed|]). append_closed.
Qed.
End BuildSpec.

Lemma device_tree_ok rs frequency :
  Forall record_ok rs -> Z.of_nat (length rs) < 2 ^ 30 -> tree_ok 3 (device_tree rs frequency).
Proof.
  intros Hr Hl.
  assert (Hn : forall n, (length (str n) < 100)%nat -> prop_ok (name_prop n)).
  { intros n Hn. split_and!; cbn [fst snd name_prop]; [cbn; lia|by repeat constructor|].
    rewrite length_app. cbn. lia. }
  assert (Hk : Forall prop_ok (kext_prop <$> rs)).
  { apply Forall_fmap. eapply Forall_impl; [exact Hr|]. intros r H'. by apply record_prop_ok. }
  cbn [tree_ok device_tree].
  repeat match goal with
  | |- _ /\ _ => split
  | |- Forall _ [] => apply Forall_nil; exact I
  | |- Forall _ (kext_prop <$> rs) => exact Hk
  | |- Forall _ (_ :: _) => apply Forall_cons
  | |- prop_ok (name_prop _) => apply Hn; cbn; lia
  end; cbn [length]; rewrite ?length_fmap; try (cbn; lia).
  - split_and!; [cbn; lia|by repeat constructor|cbn; lia].
  - split_and!; cbn [fst snd]; [cbn; lia|by repeat constructor|by rewrite length_le_encode].
  - split_and!; [cbn; lia|by repeat constructor|cbn; lia].
Qed.

Lemma build_in_buffer_run {F} `{Firmware F} (s : boot_state F) base n :
  let records := take n (gBootKextRecords s) in
  let bytes := encode_tree (device_tree records (b_vars s gFSBFrequencyHz)) in
  b_vars s gBootKextCount = Z.of_nat n -> (n <= 34)%nat -> length (gBootKextRecords s) = 34%nat ->
  Forall record_ok records ->
  exists m', build_in_buffer base s =
      (Ok tt, set_var (set_mem s m') gDeviceTreeSize (Z.of_nat (length bytes))) /\
    holds m' base bytes /\ only_in base PANTHERA_DEVICE_TREE_MAX_SIZE (b_mem s) m' /\
    (mem_wf (b_mem s) -> mem_wf m').
Proof.
  intros records bytes Hn Hn34 Hl Hr.
  pose proof (length_encode_device_tree records (b_vars s gFSBFrequencyHz) Hr) as Hlen. fold bytes in Hlen.
  assert (Hrl : length records = n) by (unfold records; rewrite length_take; lia).
  set (m0 := panthera_zero_memory (b_mem s) base PANTHERA_DEVICE_TREE_MAX_SIZE).
  destruct (appends_device_tree base n (gBootKextRecords s) (b_vars s gFSBFrequencyHz)
    ltac:(lia) ltac:(lia) Hr (set_mem s m0) []) as (m' & E & Hh & Ho & Hw); [done| |].
  { cbn [length]. unfold PANTHERA_DEVICE_TREE_MAX_SIZE. fold records bytes. lia. }
  exists m'. split; [|split; [done|split]].
  - unfold build_in_buffer, bind at 1 2 3 4. cbn [zero_memory bind get_mem put_mem get_var get_records].
    cbn [set_mem b_vars gBootKextRecords] in E |- *. rewrite Hn. unfold bind at 1.
    fold m0. cbn [length app] in E. change (Z.of_nat 0) with 0 in E. rewrite E. unfold put_var.
    fold records bytes. rewrite wrap_small by lia. done.
  - eapply only_in_trans; [|exact Ho]. intros b Hb. cbn [set_mem b_mem]. unfold m0.
    rewrite mget_zero_memory. by rewrite decide_False by lia.
  - intros Hm. by apply Hw, mem_wf_zero.
Qed.

(** C15. Building the device tree fails only when no pages can be allocated,
    and then leaves memory as it was. Otherwise the buffer holds, within its
    64 KiB, exactly the tree the loader means: reading it back gives the root
    with the chosen node (random seed and a memory map with one property per
    staged kernel extension), the EFI platform node with the clock frequency and
    the PCI node; nothing outside the buffer is written. *)
Theorem device_tree_built {F} `{Firmware F} (s : boot_state F) (n : nat) :
  let records := take n (gBootKextRecords s) in
  b_vars s gBootKextCount = Z.of_nat n -> (n <= 34)%nat -> length (gBootKextRecords s) = 34%nat ->
  Forall record_ok records ->
  match panthera_build_synthetic_device_tree s with
  | (Ok _, s') =>
      let base := b_vars s' gDeviceTreeBase in
      let size := b_vars s' gDeviceTreeSize in
      0 < size <= PANTHERA_DEVICE_TREE_MAX_SIZE /\
      decode_tree 3 (mbytes (b_mem s') base (Z.to_nat size)) =
        Some (device_tree records (b_vars s gFSBFrequencyHz), []) /\
      only_in base PANTHERA_DEVICE_TREE_MAX_SIZE (b_mem s) (b_mem s')
  | (Err st, s') => EFI_ERROR st = true /\ b_mem s' = b_mem s
  | _ => False
  end.
Proof.
  intros records Hn Hn34 Hl Hr. unfold panthera_build_synthetic_device_tree.
  unfold panthera_allocate_buffer_pages, bind at 1.
  destruct (allocate_pages_outcome PANTHERA_DEVICE_TREE_MAX_SIZE s)
    as ([base|st|h|] & fw & es & -> & Ha); try done.
  unfold bind, put_var.
  destruct (build_in_buffer_run (set_var (set_fw s fw es) gDeviceTreeBase base) base n)
    as (m' & -> & Hh & Ho & _); try done.
  change (gBootKextRecords (set_var (set_fw s fw es) gDeviceTreeBase base)) with (gBootKextRecords s) in *.
  fold records in Hh |- *. autorewrite with panthera in Hh |- *.
  set (bytes := encode_tree (device_tree records (b_vars s gFSBFrequencyHz))) in *.
  pose proof (length_encode_device_tree records (b_vars s gFSBFrequencyHz) Hr) as Hlen.
  fold bytes in Hlen.
  assert (Hrl : length records = n) by (unfold records; rewrite length_take; lia).
  split; [|split; [|exact Ho]].
  - unfold PANTHERA_DEVICE_TREE_MAX_SIZE. split; [|lia].
    assert (0 < length bytes)%nat; [|lia]. unfold bytes. rewrite encode_device_tree.
    rewrite !length_app, !length_le_encode. lia.
  - rewrite Nat2Z.id. unfold holds in Hh. cbn [b_mem set_mem set_var]. rewrite Hh, <- (app_nil_r bytes). unfold bytes.
    apply decode_encode_tree, device_tree_ok; [done|lia].
Qed.

(** One staged extension on the concrete firmware. *)
Definition sample_record : PantheraBootKextRecord :=
  mkKextRecord 0x300000 24 (str "Driver-IOGraphicsFamily") 0x300000 0x301000 0x302000 0x303000 9 8 7.
Definition sample_boot : boot_state sim :=
  set_var (set_records (set_var (sim_boot 0) gFSBFrequencyHz 100000000)
             (sample_record :: repeat zero_record 33)) gBootKextCount 1.

Lemma device_tree_built_witness :
  match panthera_build_synthetic_device_tree sample_boot with
  | (Ok _, s') =>
      decode_tree 3 (mbytes (b_mem s') (b_vars s' gDeviceTreeBase) (Z.to_nat (b_vars s' gDeviceTreeSize))) =
        Some (device_tree [sample_record] 100000000, [])
  | _ => False
  end.
Proof.
  assert (Hr : Forall record_ok [sample_record]).
  { apply (bool_decide_unpack _). vm_compute. exact I. }
  pose proof (device_tree_built sample_boot 1 eq_refl ltac:(lia) eq_refl Hr) as Hb.
  assert (E : (panthera_build_synthetic_device_tree sample_boot).1 = Ok tt) by (vm_compute; reflexivity).
  destruct (panthera_build_synthetic_device_tree sample_boot) as [r s']. cbn in E. subst r.
  apply Hb.
Defined.
