(* ===== verification/Stage.v ===== *)
(** * Staging: boot/efi/loader/src/bootx64.c

    Memory behind the kernel image for boot data, the kernel extensions placed
    there, and the kernel image itself: copying its segments, relocating it and
    patching the startup code that cannot be relocated. *)

From Stdlib Require Import ZArith Lia Ascii String.
From stdpp Require Import base list gmap.
From S2P Require Import Prelude MachO Rebase BootText KextManifest Efi BootLogic Sim Loading.

Open Scope Z_scope.

(** ** Record updates *)
Definition with_driver (r : PantheraBootKextRecord) (n : list Z) : PantheraBootKextRecord :=
  mkKextRecord (dt_paddr r) (dt_length r) n (file_info_base r) (info_dict_base r)
    (executable_base r) (bundle_path_base r) (info_dict_size r) (executable_size r)
    (bundle_path_size r).
Definition with_info_base (r : PantheraBootKextRecord) (v : Z) : PantheraBootKextRecord :=
  mkKextRecord (dt_paddr r) (dt_length r) (driver_entry_name r) (file_info_base r) v
    (executable_base r) (bundle_path_base r) (info_dict_size r) (executable_size r)
    (bundle_path_size r).
Definition with_info_size (r : PantheraBootKextRecord) (v : Z) : PantheraBootKextRecord :=
  mkKextRecord (dt_paddr r) (dt_length r) (driver_entry_name r) (file_info_base r)
    (info_dict_base r) (executable_base r) (bundle_path_base r) v (executable_size r)
    (bundle_path_size r).
Definition with_executable_base (r : PantheraBootKextRecord) (v : Z) : PantheraBootKextRecord :=
  mkKextRecord (dt_paddr r) (dt_length r) (driver_entry_name r) (file_info_base r)
    (info_dict_base r) v (bundle_path_base r) (info_dict_size r) (executable_size r)
    (bundle_path_size r).
Definition with_executable_size (r : PantheraBootKextRecord) (v : Z) : PantheraBootKextRecord :=
  mkKextRecord (dt_paddr r) (dt_length r) (driver_entry_name r) (file_info_base r)
    (info_dict_base r) (executable_base r) (bundle_path_base r) (info_dict_size r) v
    (bundle_path_size r).
Definition with_bundle_base (r : PantheraBootKextRecord) (v : Z) : PantheraBootKextRecord :=
  mkKextRecord (dt_paddr r) (dt_length r) (driver_entry_name r) (file_info_base r)
    (info_dict_base r) (executable_base r) v (info_dict_size r) (executable_size r)
    (bundle_path_size r).
Definition with_bundle_size (r : PantheraBootKextRecord) (v : Z) : PantheraBootKextRecord :=
  mkKextRecord (dt_paddr r) (dt_length r) (driver_entry_name r) (file_info_base r)
    (info_dict_base r) (executable_base r) (bundle_path_base r) (info_dict_size r)
    (executable_size r) v.
Definition with_file_info_base (r : PantheraBootKextRecord) (v : Z) : PantheraBootKextRecord :=
  mkKextRecord (dt_paddr r) (dt_length r) (driver_entry_name r) v (info_dict_base r)
    (executable_base r) (bundle_path_base r) (info_dict_size r) (executable_size r)
    (bundle_path_size r).
Definition with_dt_buffer (r : PantheraBootKextRecord) (p n : Z) : PantheraBootKextRecord :=
  mkKextRecord p n (driver_entry_name r) (file_info_base r) (info_dict_base r)
    (executable_base r) (bundle_path_base r) (info_dict_size r) (executable_size r)
    (bundle_path_size r).

(** The six 32-bit fields of a PantheraBooterKextFileInfo. *)
Definition kext_file_info (r : PantheraBootKextRecord) : list Z :=
  le_encode 4 (info_dict_base r) ++ le_encode 4 (info_dict_size r) ++
  le_encode 4 (executable_base r) ++ le_encode 4 (executable_size r) ++
  le_encode 4 (bundle_path_base r) ++ le_encode 4 (bundle_path_size r).

Definition sizeof_file_info : Z := 24.

Section Staging.
Context {F : Type} `{Firmware F}.
Variable image_handle : Z.

Definition panthera_ensure_low32 (address : Z) : M F unit :=
  if 0xffffffff <? address then throw EFI_OUT_OF_RESOURCES else ret tt.

(** ** Boot data
    The out parameter [physical_base_out] is the store it stands for. *)
Definition panthera_allocate_kernel_boot_data_pages (size : Z) (physical_base_out : Z -> M F unit)
  : M F Z :=
  let aligned_size := panthera_align_page (if size =? 0 then 1 else size) in
  let! cursor := get_var gKernelBootDataCursor in
  if cursor =? 0 then throw EFI_NOT_FOUND
  else
    let! physical_base := panthera_allocate_pages_at aligned_size cursor in
    physical_base_out physical_base >>
    put_var gKernelBootDataCursor (physical_base +64 aligned_size) >>
    (let! text_base := get_var gKernelTextBase in
     put_var gKernelReservedSize ((physical_base +64 aligned_size) -64 text_base)) >>
    ret physical_base.

(** [src] is the object copied, [size] bytes of it. *)
Definition panthera_copy_buffer_to_kernel_boot_data (src : list Z)
    (physical_base_out : Z -> M F unit) : M F Z :=
  let size := Z.of_nat (length src) in
  let size1 := if size =? 0 then 1 else size in
  let! buffer := panthera_allocate_kernel_boot_data_pages size1 physical_base_out in
  zero_memory buffer size1 >>
  (if size =? 0 then ret tt else store_bytes buffer src) >>
  ret buffer.

(** Returns the base and the size, terminating NUL included. *)
Definition panthera_copy_ascii_to_kernel_boot_data (text : list Z)
    (physical_base_out : Z -> M F unit) : M F (Z * Z) :=
  let size := panthera_ascii_length text +64 1 in
  let! base := panthera_copy_buffer_to_kernel_boot_data
                 (take (Z.to_nat size) (text ++ [0])) physical_base_out in
  ret (base, size).

Definition panthera_load_file_to_pages (path : list Z) (trailing_zero_bytes : Z)
    (physical_base_out : Z -> M F unit) : M F Z :=
  let! (pool_buffer, pool_size) := panthera_load_kernel_file image_handle path in
  let final_size := pool_size +64 trailing_zero_bytes in
  let final_size1 := if final_size =? 0 then 1 else final_size in
  let! r := attempt (panthera_allocate_kernel_boot_data_pages final_size1 physical_base_out) in
  (match r with
   | inl page_buffer =>
       zero_memory page_buffer final_size1 >>
       (if pool_size =? 0 then ret tt else copy_memory page_buffer pool_buffer pool_size)
   | inr _ => ret tt
   end) >>
  panthera_free_pool pool_buffer >>
  match r with
  | inl base => panthera_ensure_low32 base >> ret final_size
  | inr status => throw status
  end.

(** ** panthera_stage_boot_kexts *)

(** A store through [record]; outside the table it is undefined. *)
Definition update_record (i : nat) (f : PantheraBootKextRecord -> PantheraBootKextRecord)
  : M F unit :=
  let! records := get_records in
  match records !! i with
  | Some r => put_records (<[i := f r]> records)
  | None => stuck
  end.

Definition get_record (i : nat) : M F PantheraBootKextRecord :=
  let! records := get_records in
  match records !! i with Some r => ret r | None => stuck end.

Definition report_kext (message : string) (name : list Z) : M F unit :=
  console_write_ascii (str message) >> console_write_ascii name >> console_write crlf >> ret tt.

Definition stage_executable (i : nat) (name : list Z) (path : option (list Z)) : M F unit :=
  match path with
  | None =>
      update_record i (fun r => with_executable_base r 0) >>
      update_record i (fun r => with_executable_size r 0)
  | Some p =>
      let! size := on_error
        (panthera_load_file_to_pages p 0
           (fun b => update_record i (fun r => with_executable_base r b)))
        (fun _ => report_kext "Boot kext executable load failed: " name) in
      update_record i (fun r => with_executable_size r size)
  end.

Definition stage_kext (e : PantheraBootKextManifestEntry) (name info : list Z) : M F unit :=
  let! count := get_var gBootKextCount in
  let i := Z.to_nat count in
  update_record i (fun r => with_driver r (manifest_driver_name e)) >>
  let! info_size := on_error
    (panthera_load_file_to_pages info 1 (fun b => update_record i (fun r => with_info_base r b)))
    (fun _ => report_kext "Boot kext Info.plist load failed: " name) in
  update_record i (fun r => with_info_size r info_size) >>
  stage_executable i name (executable_path e) >>
  let! (path_base, path_size) := panthera_copy_ascii_to_kernel_boot_data (bundle_path e)
    (fun b => update_record i (fun r => with_bundle_base r b)) in
  update_record i (fun r => with_bundle_size r path_size) >>
  panthera_ensure_low32 path_base >>
  let! record := get_record i in
  let! info_base := panthera_copy_buffer_to_kernel_boot_data (kext_file_info record)
    (fun b => update_record i (fun r => with_file_info_base r b)) in
  panthera_ensure_low32 info_base >>
  update_record i (fun r => with_dt_buffer r (wrap 32 info_base) sizeof_file_info) >>
  (let! count := get_var gBootKextCount in put_var gBootKextCount (count +32 1)) >>
  report_kext "Boot kext staged: " name.

Fixpoint stage_entries (l : list PantheraBootKextManifestEntry) : M F unit :=
  match l with
  | [] => ret tt
  | e :: l' =>
      match bundle_name e, info_path e with
      | Some name, Some info =>
          let! line := get_command_line in
          if entry_skipped line e then stage_entries l'
          else stage_kext e name info >> stage_entries l'
      | _, _ => ret tt
      end
  end.

Definition panthera_stage_boot_kexts : M F unit :=
  put_var gBootKextCount 0 >>
  put_records (repeat zero_record PANTHERA_MAX_BOOT_KEXTS) >>
  stage_entries gBootKextManifest.

(** ** panthera_find_segment *)

(** The character loop, [n] characters of the 16 left. *)
Fixpoint segment_name_matches (n : nat) (segname name : list Z) : bool :=
  match n with
  | O => true
  | S n' =>
      if negb (deref segname =? deref name) then false
      else if deref segname =? 0 then true
      else segment_name_matches n' (tail segname) (tail name)
  end.

Definition panthera_find_segment (image : PantheraKernelImage) (name : list Z)
  : option PantheraKernelSegment :=
  List.find (fun s => segment_name_matches 16 (segname s) name) (segments image).

Definition panthera_segment_physical_base (image : PantheraKernelImage) (image_base : Z)
    (segment : PantheraKernelSegment) : Z :=
  image_base +64 (vmaddr segment -64 lowest_vmaddr image).

(** ** panthera_patch_hib_startup_immediates *)
Definition panthera_patch_u32_imm (image_base opcode_offset expected_opcode expected_value
    patched_value : Z) : M F unit :=
  let opcode := image_base + opcode_offset in
  let! m := get_mem in
  if negb (mget m opcode =? expected_opcode) || negb (mread m (opcode + 1) 4 =? expected_value)
  then throw EFI_NOT_FOUND
  else put_mem (mwrite m (opcode + 1) 4 patched_value).

Definition panthera_patch_u32_value (image_base value_offset expected_value patched_value : Z)
  : M F unit :=
  let value := image_base + value_offset in
  let! m := get_mem in
  if negb (mread m value 4 =? expected_value) then throw EFI_NOT_FOUND
  else put_mem (mwrite m value 4 patched_value).

Definition linked_low_eintstack : Z := 0x00199000.
Definition linked_protected_mode_gdtr : Z := 0x00101040.
Definition linked_boot_pml4 : Z := 0x00105000.
Definition linked_boot_pdpt : Z := 0x00106000.
Definition linked_master_gdt : Z := 0x00139000.

Definition panthera_patch_hib_startup_immediates : M F unit :=
  let! image_base := get_var gKernelImageBase in
  let! image := get_image in
  let linked_base := wrap 32 (lowest_vmaddr image) in
  let delta := wrap 32 image_base -32 linked_base in
  if delta =? 0 then ret tt
  else
    panthera_patch_u32_imm image_base 2 0xbc linked_low_eintstack
      (linked_low_eintstack +32 delta) >>
    panthera_patch_u32_imm image_base 7 0xb8 linked_protected_mode_gdtr
      (linked_protected_mode_gdtr +32 delta) >>
    panthera_patch_u32_imm image_base 15 0xb8 linked_boot_pml4 (linked_boot_pml4 +32 delta) >>
    panthera_patch_u32_imm image_base 28 0xba linked_boot_pdpt (linked_boot_pdpt +32 delta) >>
    panthera_patch_u32_imm image_base 66 0xb8 linked_boot_pml4 (linked_boot_pml4 +32 delta) >>
    panthera_patch_u32_imm image_base 85 0xea (linked_base +32 0x5c)
      ((linked_base +32 0x5c) +32 delta) >>
    panthera_patch_u32_value image_base 0x1042 linked_master_gdt (linked_master_gdt +32 delta) >>
    panthera_patch_u32_value image_base 0x99002 linked_master_gdt (linked_master_gdt +32 delta).

(** ** panthera_stage_kernel_image *)
Fixpoint copy_segments (image : PantheraKernelImage) (image_base kernel_file kernel_file_size : Z)
    (l : list PantheraKernelSegment) : M F unit :=
  match l with
  | [] => ret tt
  | s :: l' =>
      if filesize s =? 0 then copy_segments image image_base kernel_file kernel_file_size l'
      else if kernel_file_size <? fileoff s +64 filesize s then throw EFI_NOT_FOUND
      else
        copy_memory (panthera_segment_physical_base image image_base s)
          (kernel_file +64 fileoff s) (filesize s) >>
        copy_segments image image_base kernel_file kernel_file_size l'
  end.

(** The file as the relocation pass reads it. *)
Definition file_at (m : mem) (file size : Z) : option (list Z) :=
  if file =? 0 then None else Some (mbytes m file (Z.to_nat size)).

Definition rebase_staged_kernel (image : PantheraKernelImage) (image_base kernel_file
    kernel_file_size : Z) : M F Z :=
  let! m := get_mem in
  match panthera_rebase_kernel_locals (file_at m kernel_file kernel_file_size) kernel_file_size
          (Some image) image_base (Some 0) m with
  | RelocOutOfBounds => stuck
  | Relocated PANTHERA_LOADER_OK m' n => put_mem m' >> ret (default 0 n)
  | Relocated st m' _ =>
      put_mem m' >>
      console_write_uint64 (str "Kernel local rebase loader status: ") (loader_status_code st) >>
      throw EFI_NOT_FOUND
  end.

Definition slide_staged_kernel (image : PantheraKernelImage) (image_base : Z) : M F unit :=
  let! m := get_mem in
  match panthera_slide_kernel_macho_metadata (Some image) image_base m with
  | (PANTHERA_LOADER_OK, m') => put_mem m'
  | (st, m') =>
      put_mem m' >>
      console_write_uint64 (str "Kernel Mach-O slide loader status: ") (loader_status_code st) >>
      throw EFI_NOT_FOUND
  end.

Definition allocate_kernel_image (image : PantheraKernelImage) (image_span : Z) : M F Z :=
  let! r := attempt (panthera_allocate_pages_at image_span (wrap 32 (lowest_vmaddr image))) in
  match r with
  | inl image_base => ret image_base
  | inr _ => panthera_allocate_pages image_span
  end.

Definition panthera_stage_kernel_image (kernel_file kernel_file_size : Z) : M F unit :=
  let! image := get_image in
  let image_span := highest_vmaddr image -64 lowest_vmaddr image in
  let! image_base := allocate_kernel_image image image_span in
  put_var gKernelImageBase image_base >>
  put_var gKernelImageSize image_span >>
  put_var gKernelReservedSize image_span >>
  zero_memory image_base image_span >>
  copy_segments image image_base kernel_file kernel_file_size (segments image) >>
  let! applied_reloc_count :=
    rebase_staged_kernel image image_base kernel_file kernel_file_size in
  slide_staged_kernel image image_base >>
  console_write_uint64 (str "Kernel local relocations applied: ") applied_reloc_count >>
  put_var gKernelBootDataCursor (panthera_align_page (image_base +64 image_span)) >>
  panthera_patch_hib_startup_immediates.
End Staging.

(** ** Growing boot data

    [grows]: pages are only added and the bytes of pages handed out before stay. *)
Section Grows.
Context {F : Type} `{LawfulFirmware F}.

Definition grows (s s' : boot_state F) : Prop :=
  mem_wf (b_mem s) ->
  mem_wf (b_mem s') /\
  forall x, paged (b_fw s) x -> paged (b_fw s') x /\ mget (b_mem s') x = mget (b_mem s) x.

#[export] Instance grows_preorder : PreOrder grows.
Proof.
  split; [by intros s Hs|]. intros s1 s2 s3 H1 H2 Hw. destruct (H1 Hw) as [W2 G1].
  destruct (H2 W2) as [W3 G2]. split; [done|]. intros x Hx. destruct (G1 x Hx) as [Hx2 E1].
  destruct (G2 x Hx2) as [Hx3 E2]. split; [done|]. by rewrite E2.
Qed.

Lemma framed_grows {A} (m : M F A) : (forall P, pres (framed P) m) -> pres grows m.
Proof.
  intros Hm s Hw. destruct (Hm (paged (b_fw s)) s) as [[Hw' Hp] Hg]; [by split|]. auto.
Qed.

Lemma grows_same s s' : b_mem s' = b_mem s -> b_fw s' = b_fw s -> grows s s'.
Proof. unfold grows. intros -> ->. auto. Qed.

(** Addresses of earlier page allocations. *)
Variable old : Z -> Prop.

(** The bytes [bs] at [b], inside pages that are not [old]. *)
Definition region (s : boot_state F) (b : Z) (bs : list Z) : Prop :=
  holds (b_mem s) b bs /\
  forall x, b <= x < b + Z.of_nat (length bs) -> paged (b_fw s) x /\ ~ old x.

Lemma owned_grows s s' : grows s s' -> owned old s -> owned old s'.
Proof. intros Hg [Hw Ho]. destruct (Hg Hw) as [Hw' G]. split; [done|]. intros x Hx. by apply G, Ho. Qed.

Lemma region_grows s s' b bs : mem_wf (b_mem s) -> grows s s' -> region s b bs -> region s' b bs.
Proof.
  intros Hw Hg [Hh Hp]. destruct (Hg Hw) as [_ G]. split.
  - eapply holds_ext; [|exact Hh]. intros x Hx. by apply G, Hp.
  - intros x Hx. destruct (Hp x Hx). split; [by apply G|done].
Qed.

(** What placing [n] bytes at the cursor does, apart from their contents. *)
Record placed (s s' : boot_state F) (b n : Z) : Prop := {
  placed_cursor : b = b_vars s gKernelBootDataCursor;
  placed_range : 0 < b /\ b mod 4096 = 0 /\ b + n <= 2 ^ 64;
  placed_next : b_vars s' gKernelBootDataCursor = b +64 n;
  placed_size : b_vars s' gKernelReservedSize = (b +64 n) -64 b_vars s gKernelTextBase;
  placed_pages : forall x, b <= x < b + n -> paged (b_fw s') x;
  placed_vars : vars_kept [gKernelBootDataCursor; gKernelReservedSize] s s';
  placed_line : gBootCommandLine s' = gBootCommandLine s;
  placed_grows : grows s s'
}.

(** One record is updated with the base. *)
Definition recorded (i : nat) (g : PantheraBootKextRecord -> Z -> PantheraBootKextRecord) (b : Z)
    (s s' : boot_state F) : Prop :=
  exists r, gBootKextRecords s !! i = Some r /\
    gBootKextRecords s' = <[i := g r b]> (gBootKextRecords s).

Lemma update_record_ok i f (s : boot_state F) s' :
  update_record i f s = (Ok tt, s') ->
  exists r, gBootKextRecords s !! i = Some r /\ s' = set_records s (<[i := f r]> (gBootKextRecords s)).
Proof.
  unfold update_record, bind, get_records. destruct (gBootKextRecords s !! i) as [r|]; [|done].
  inversion 1. by exists r.
Qed.

(** The pages of the boot data and the ones that are fresh. *)
Lemma boot_data_pages_ok i g size s b s' :
  0 < size <= 2 ^ 63 ->
  panthera_allocate_kernel_boot_data_pages size (fun b => update_record i (fun r => g r b)) s =
    (Ok b, s') ->
  let n := panthera_align_page size in
  size <= n < size + 4096 /\ b_mem s' = b_mem s /\ recorded i g b s s' /\ placed s s' b n /\
  (forall x, b <= x < b + n -> ~ paged (b_fw s) x) /\
  (forall b' n', block (b_fw s) b' n' -> b' + n' <= b \/ b + n <= b') /\
  (forall b' n', block (b_fw s) b' n' -> block (b_fw s') b' n').
Proof.
  intros Hs Hr n. unfold panthera_allocate_kernel_boot_data_pages in Hr.
  rewrite (proj2 (Z.eqb_neq size 0)) in Hr by lia. fold n in Hr.
  apply bind_ok in Hr as (c & s0 & Hc & Hr). injection Hc as Ec <-.
  destruct (Z.eqb_spec c 0) as [|Hnz]; [done|].
  apply bind_ok in Hr as (a & s1 & H1 & Hr). apply allocate_pages_at_ok in H1 as (-> & [es E1] & Hf).
  destruct (align_page_spec size ltac:(lia)) as [Hn Hm]. fold n in Hn, Hm.
  unfold fresh_pages in Hf. rewrite (pages_of_aligned n ltac:(lia) Hm) in Hf.
  destruct Hf as (Hk & H0b & Hmod & Htop & Hfr & Hbl).
  apply bind_ok in Hr as ([] & s2 & H2 & Hr). apply update_record_ok in H2 as (r & Hr2 & E2).
  rewrite E1 in Hr2, E2. cbn in Hr2. run_inv. cbn.
  split; [lia|]. split; [done|]. split; [by exists r|]. split; [|split_and!].
  - split; cbn.
    + done.
    + lia.
    + done.
    + done.
    + intros x Hx. by apply Hfr.
    + intros x Hx. cbn. rewrite !decide_False by set_solver. done.
    + done.
    + intros Hw. cbn. split; [done|]. intros x Hx. split; [by apply Hk|done].
  - intros x Hx. by apply Hfr.
  - done.
  - intros b' n' Hb. by apply Hk.
Qed.

(** A store into the placed bytes. *)
Lemma placed_mem s s1 s' b n :
  placed s s1 b n -> (forall x, b <= x < b + n -> ~ paged (b_fw s) x) ->
  (mem_wf (b_mem s1) -> mem_wf (b_mem s')) ->
  b_mem s1 = b_mem s -> only_in b n (b_mem s1) (b_mem s') ->
  b_vars s' = b_vars s1 -> gBootCommandLine s' = gBootCommandLine s1 ->
  (forall x, paged (b_fw s1) x -> paged (b_fw s') x) -> placed s s' b n.
Proof.
  intros [? ? ? ? Hpg Hv Hl Hg] Hfr Hw Hm Ho Ev El Hp. split; rewrite ?Ev, ?El; try done.
  - auto.
  - intros x Hx. rewrite Ev. by apply Hv.
  - intros Hw0. destruct (Hg Hw0) as [W1 G1]. split; [auto|]. intros x Hx.
    split; [by apply Hp, G1|]. rewrite Ho, Hm; [done|].
    destruct (decide (b <= x < b + n)); [|lia]. by destruct (Hfr x).
Qed.

Lemma mem_wf_grows s s' : grows s s' -> mem_wf (b_mem s) -> mem_wf (b_mem s').
Proof. intros Hg Hw. by apply Hg. Qed.

Lemma placed_after s s1 s' b n :
  globals_kept s s1 -> grows s s1 -> placed s1 s' b n -> placed s s' b n.
Proof.
  intros (Ev & _ & El & _) G [H1 H2 H3 H4 H5 H6 H7 H8]. rewrite Ev in H1, H4.
  split; try done; [|congruence|by etrans]. intros x Hx. rewrite H6 by done. by rewrite Ev.
Qed.

Lemma placed_then s s1 s' b n :
  mem_wf (b_mem s1) -> placed s s1 b n -> globals_kept s1 s' -> grows s1 s' -> placed s s' b n.
Proof.
  intros Hw [H1 H2 H3 H4 H5 H6 H7 H8] (Ev & _ & El & _) G.
  split; rewrite ?Ev; try done; [|..|congruence|by etrans].
  - intros x Hx. by apply G, H5.
  - intros x Hx. rewrite Ev. by apply H6.
Qed.

(** ** Copies into boot data *)
Lemma copy_buffer_ok i g src s b s' :
  owned old s -> Forall byte src -> 0 < Z.of_nat (length src) <= 2 ^ 63 ->
  panthera_copy_buffer_to_kernel_boot_data src (fun b => update_record i (fun r => g r b)) s =
    (Ok b, s') ->
  exists n, Z.of_nat (length src) <= n <= 2 ^ 63 + 4096 /\ recorded i g b s s' /\ placed s s' b n /\ region s' b src.
Proof.
  intros Hw Hb Hl Hr. unfold panthera_copy_buffer_to_kernel_boot_data in Hr.
  rewrite (proj2 (Z.eqb_neq (Z.of_nat (length src)) 0)) in Hr by lia.
  apply bind_ok in Hr as (c & s1 & H1 & Hr). apply boot_data_pages_ok in H1; [|lia].
  set (n := panthera_align_page _) in *. destruct H1 as (Hn & Hm & Hrec & Hpl & Hfr & _).
  unfold zero_memory, store_bytes, bind, get_mem, put_mem, ret in Hr. injection Hr as -> <-.
  exists n. split; [lia|]. set (m' := mstore _ b src).
  assert (Ho : only_in b (Z.of_nat (length src)) (b_mem s1) m').
  { eapply only_in_trans; [apply only_in_zero|apply only_in_mstore]. }
  assert (Hpl' : placed s (set_mem (set_mem s1 (panthera_zero_memory (b_mem s1) b (Z.of_nat (length src)))) m') b n).
  { eapply (placed_mem s s1); try done.
    - intros. apply mem_wf_mstore. by apply mem_wf_zero.
    - eapply only_in_weaken; [exact Ho|lia|lia]. }
  split; [done|]. split; [done|]. split.
  - by apply holds_mstore.
  - intros x Hx. split; [apply (placed_pages _ _ _ _ Hpl'); lia|].
    intros Hox. apply (Hfr x); [lia|by apply Hw].
Qed.

Lemma take_nul text : Forall (fun c => c <> 0) text ->
  panthera_ascii_length text = Z.of_nat (length text) /\
  (Z.of_nat (length text) < 2 ^ 63 ->
   take (Z.to_nat (panthera_ascii_length text +64 1)) (text ++ [0]) = text ++ [0]).
Proof.
  intros Ht. pose proof (ascii_length_nonzero text Ht) as E. split; [done|]. intros Hl.
  rewrite E. wrap_tac. apply take_ge. rewrite length_app. cbn. lia.
Qed.

(** Zeroing and copying from a buffer elsewhere. *)
Lemma fill_file_ok b pool size1 bytes t (s : boot_state F) s' :
  mem_wf (b_mem s) -> Z.of_nat (length bytes) + t <= size1 -> 0 <= t ->
  pool + Z.of_nat (length bytes) <= b \/ b + size1 <= pool ->
  holds (b_mem s) pool bytes ->
  (zero_memory b size1 >>
   (if Z.of_nat (length bytes) =? 0 then ret tt
    else copy_memory b pool (Z.of_nat (length bytes)))) s = (Ok tt, s') ->
  exists m', s' = set_mem s m' /\ only_in b size1 (b_mem s) m' /\ mem_wf m' /\
    holds m' b (bytes ++ repeat 0 (Z.to_nat t)).
Proof.
  intros Hw Hs Ht Hd Hh Hr. set (m0 := panthera_zero_memory (b_mem s) b size1).
  assert (Hw0 : mem_wf m0) by (by apply mem_wf_zero).
  pose proof (only_in_zero (b_mem s) b size1 : only_in b size1 (b_mem s) m0) as Ho0.
  set (m' := panthera_copy_memory m0 b pool (length bytes)).
  assert (E : s' = set_mem s m').
  { unfold zero_memory, copy_memory, bind, get_mem, put_mem, ret in Hr. fold m0 in Hr.
    destruct (Z.eqb_spec (Z.of_nat (length bytes)) 0) as [E0|E0].
    - injection Hr as <-. unfold m'. by replace (length bytes) with 0%nat by lia.
    - injection Hr as <-. by rewrite Nat2Z.id. }
  pose proof (only_in_copy m0 b pool (length bytes) : only_in b _ m0 m') as Ho1.
  exists m'. split; [done|]. split; [|split; [by apply mem_wf_copy|]].
  - eapply only_in_trans; [exact Ho0|]. eapply only_in_weaken; [exact Ho1|lia|lia].
  - apply holds_app. split.
    + unfold holds, m'. rewrite mbytes_copy by (done || lia).
      rewrite <- Hh at 2. apply mbytes_ext. intros x Hx. apply Ho0. lia.
    + apply holds_zeros. intros x Hx. rewrite Ho1 by lia. unfold m0.
      rewrite mget_zero_memory, decide_True; [done|lia].
Qed.

Lemma load_kernel_file_step ih path s buf size s' :
  mem_wf (b_mem s) -> panthera_load_kernel_file ih path s = (Ok (buf, size), s') ->
  grows s s' /\ globals_kept s s' /\ mem_wf (b_mem s') /\
  0 < buf /\ size = Z.of_nat (length (volume path)) /\ buf + size <= 2 ^ 64 /\
  holds (b_mem s') buf (volume path) /\ block (b_fw s') buf size.
Proof.
  intros Hw Hr.
  pose proof (framed_grows (panthera_load_kernel_file ih path)
    (fun P => framed_load_kernel_file P ih path) s) as G. rewrite Hr in G. cbn in G.
  pose proof (globals_load_kernel_file ih path s) as GL. rewrite Hr in GL.
  split; [done|]. split; [done|]. split; [by apply G|]. by eapply load_kernel_file_ok.
Qed.

Lemma free_pool_step b s r s' :
  panthera_free_pool b s = (r, s') -> grows s s' /\ globals_kept s s'.
Proof.
  intros Hr. split.
  - pose proof (framed_grows (panthera_free_pool b) (fun P => framed_free_pool P b) s) as G.
    by rewrite Hr in G.
  - assert (Hg : pres globals_kept (panthera_free_pool (F := F) b)) by kept_tac.
    specialize (Hg s). by rewrite Hr in Hg.
Qed.

(** A file and its trailing zeros. *)
Lemma load_file_to_pages_ok ih i g path t s size s' :
  owned old s -> 0 <= t <= 1 ->
  panthera_load_file_to_pages ih path t (fun b => update_record i (fun r => g r b)) s =
    (Ok size, s') ->
  exists b n, size = Z.of_nat (length (volume path)) + t /\ recorded i g b s s' /\ b < 2 ^ 32 /\
    size <= n <= 2 ^ 63 + 4096 /\ placed s s' b n /\ region s' b (volume path ++ repeat 0 (Z.to_nat t)).
Proof.
  intros Ho1 Ht Hr. unfold panthera_load_file_to_pages in Hr. pose proof (proj1 Ho1) as Hw.
  apply bind_ok in Hr as ([pool psz] & s1 & H1 & Hr).
  apply load_kernel_file_step in H1 as (G1 & GL1 & Hw1 & Hp0 & -> & Htop & Hh & Hbl); [|done].
  apply (owned_grows _ _ G1) in Ho1.
  pose proof (volume_size path). set (len := Z.of_nat (length (volume path))) in *.
  assert (Ef : len +64 t = len + t) by (wrap_tac; lia). rewrite Ef in Hr.
  set (size1 := if len + t =? 0 then 1 else len + t) in *.
  assert (Hs1 : 0 < size1 <= 2 ^ 63 /\ len + t <= size1).
  { unfold size1. destruct (Z.eqb_spec (len + t) 0); lia. }
  apply bind_ok in Hr as (r & s2 & H2 & Hr).
  assert (exists b, r = inl b) as [b ->].
  { destruct r; [by eexists|]. run_inv. }
  apply attempt_ok, boot_data_pages_ok in H2; [|lia].
  set (n := panthera_align_page _) in *. destruct H2 as (Hn & Hm & Hrec & Hpl & Hfr & Hdis & Hkb).
  apply bind_ok in Hr as ([] & s3 & H3 & Hr). apply bind_ok in Hr as ([] & s4 & H4 & Hr).
  apply free_pool_step in H4 as [G4 GL4].
  rewrite <- Hm in Hh, Hw1.
  assert (H3' : exists m3, s3 = set_mem s2 m3 /\ only_in b size1 (b_mem s2) m3 /\ mem_wf m3 /\
    holds m3 b (volume path ++ repeat 0 (Z.to_nat t))).
  { eapply (fill_file_ok b pool); [done| | | | |exact H3]; [lia|lia| |done].
    destruct (Hdis _ _ Hbl); lia. }
  destruct H3' as (m3 & -> & Ho & Hw3 & Hh3). apply bind_ok in Hr as ([] & s5 & H5 & Hr). run_inv.
  unfold panthera_ensure_low32 in H5. destruct (Z.ltb_spec 0xffffffff b); [done|]. injection H5 as <-.
  assert (Hpl4 : placed s s4 b n).
  { eapply placed_after; [exact GL1|exact G1|].
    eapply (placed_then _ (set_mem s2 m3)); [done| |exact GL4|exact G4].
    eapply (placed_mem _ s2); try done. eapply only_in_weaken; [exact Ho|lia|lia]. }
  exists b, n. split; [done|]. split; [|split; [lia|split; [lia|split; [done|]]]].
  - destruct Hrec as (r & Hr1 & Hr2), GL1 as (_ & _ & _ & E1), GL4 as (_ & _ & _ & E4).
    exists r. rewrite <- E1. split; [done|]. by rewrite E4.
  - assert (Hreg : region (set_mem s2 m3) b (volume path ++ repeat 0 (Z.to_nat t))).
    { split; [done|]. intros x Hx. rewrite length_app, repeat_length in Hx.
      split; [apply (placed_pages _ _ _ _ Hpl); lia|].
      intros Hox. apply (Hfr x); [lia|by apply Ho1]. }
    eapply region_grows; [|exact G4|exact Hreg]. done.
Qed.
End Grows.

(** ** Staged extensions *)
Section Kexts.
Context {F : Type} `{LawfulFirmware F}.

Variable old : Z -> Prop.
Variable low : Z.  (* where the boot data starts *)
Local Abbreviation region := (region old).

Definition cursor (s : boot_state F) : Z := b_vars s gKernelBootDataCursor.

Definition ready (s : boot_state F) : Prop := owned old s /\ low <= cursor s.

(** Boot data was added; of the variables, the cursor, the reserved size and
    those in [X] may have changed. *)
Definition advances (X : list gvar) (s s' : boot_state F) : Prop :=
  grows s s' /\ cursor s <= cursor s' /\
  vars_kept (gKernelBootDataCursor :: gKernelReservedSize :: X) s s' /\
  gBootCommandLine s' = gBootCommandLine s.

#[export] Instance advances_preorder X : PreOrder (advances X).
Proof.
  split.
  - intros s. split_and!; [reflexivity|done|reflexivity|done].
  - intros s1 s2 s3 (G1 & C1 & V1 & L1) (G2 & C2 & V2 & L2).
    split_and!; [by etrans|lia|by etrans|congruence].
Qed.

Lemma advances_weaken X Y s s' : X ⊆ Y -> advances X s s' -> advances Y s s'.
Proof.
  intros HX (G & C & V & L). split_and!; try done. eapply vars_kept_weaken; [|exact V]. set_solver.
Qed.

(** The kernel's reserved range ends at the cursor. *)
Definition reserved_ok (s : boot_state F) : Prop :=
  b_vars s gKernelReservedSize = cursor s -64 b_vars s gKernelTextBase.

(** Bytes in pages that start below 4 GiB, between the start of the boot data and
    the cursor. *)
Definition staged_bytes (s : boot_state F) (b : Z) (bs : list Z) : Prop :=
  region s b bs /\ 0 < b < 2 ^ 32 /\ low <= b /\ b + Z.of_nat (length bs) <= cursor s.

Lemma staged_bytes_advances X s s' b bs :
  ready s -> advances X s s' -> staged_bytes s b bs -> staged_bytes s' b bs.
Proof.
  intros [[Hw _] _] (G & C & _) (Hr & Hb & Hl & Hc). split_and!; [by eapply region_grows|lia..].
Qed.

Lemma placed_advances X s s' b n bs :
  ready s -> b < 2 ^ 32 -> Z.of_nat (length bs) <= n <= 2 ^ 63 + 4096 -> placed s s' b n -> region s' b bs ->
  advances X s s' /\ reserved_ok s' /\ staged_bytes s' b bs.
Proof.
  intros [_ Hlow] Hb Hn [H1 H2 H3 H4 H5 H6 H7 H8] Hr.
  assert (E : b +64 n = b + n) by (wrap_tac; lia). rewrite E in *.
  assert (Hc : cursor s' = b + n) by done.
  assert (H1' : cursor s = b) by done.
  split; [|split].
  - split_and!; [done|lia| |done]. eapply vars_kept_weaken; [|exact H6]. set_solver.
  - unfold reserved_ok. rewrite Hc, H4, (H6 gKernelTextBase) by set_solver. done.
  - unfold staged_bytes. split_and!; [done|lia|done|lia|lia].
Qed.

(** ** The record being filled *)
Definition at_record (R : list PantheraBootKextRecord) (i : nat) (s : boot_state F)
    (r : PantheraBootKextRecord) : Prop :=
  (i < length R)%nat /\ gBootKextRecords s = <[i := r]> R.

Lemma at_record_lookup R i s r : at_record R i s r -> gBootKextRecords s !! i = Some r.
Proof. intros [Hi ->]. by apply list_lookup_insert_eq. Qed.

Lemma at_recorded R i s s' r g b :
  at_record R i s r -> recorded i g b s s' -> at_record R i s' (g r b).
Proof.
  intros Ha (r' & Hl & E). rewrite (at_record_lookup _ _ _ _ Ha) in Hl. simplify_eq.
  destruct Ha as [Hi Ea]. split; [done|]. rewrite E, Ea. apply list_insert_insert_eq.
Qed.

Lemma update_step X R i f s s' r :
  at_record R i s r -> update_record i f s = (Ok tt, s') ->
  at_record R i s' (f r) /\ advances X s s' /\ (reserved_ok s -> reserved_ok s') /\
  b_mem s' = b_mem s.
Proof.
  intros Ha Hu. apply update_record_ok in Hu as (r' & Hl & ->).
  rewrite (at_record_lookup _ _ _ _ Ha) in Hl. simplify_eq. destruct Ha as [Hi Ea].
  split_and!; [| |done|done].
  - split; [done|]. cbn. rewrite Ea. apply list_insert_insert_eq.
  - split_and!; [by apply grows_same|unfold cursor; cbn; lia|by intros x _|done].
Qed.

Lemma load_step ih X R i g path t h s size s' r :
  ready s -> 0 <= t <= 1 -> at_record R i s r ->
  on_error (panthera_load_file_to_pages ih path t (fun b => update_record i (fun r => g r b))) h s =
    (Ok size, s') ->
  exists b, at_record R i s' (g r b) /\ advances X s s' /\ reserved_ok s' /\
    size = Z.of_nat (length (volume path)) + t /\
    staged_bytes s' b (volume path ++ repeat 0 (Z.to_nat t)).
Proof.
  intros Hw Ht Ha Hr. apply on_error_ok, (load_file_to_pages_ok old) in Hr; [|apply Hw|done].
  destruct Hr as (b & n & Es & Hrec & Hb & Hn & Hpl & Hreg). exists b.
  eapply (placed_advances X) in Hpl as (A1 & A2 & A3); [|exact Hw|done| |exact Hreg].
  - split_and!; try done. by eapply at_recorded.
  - rewrite length_app, repeat_length. lia.
Qed.

Lemma copy_step X R i g src s b s' r :
  ready s -> Forall byte src -> 0 < Z.of_nat (length src) <= 2 ^ 63 -> b < 2 ^ 32 ->
  at_record R i s r ->
  panthera_copy_buffer_to_kernel_boot_data src (fun b => update_record i (fun r => g r b)) s =
    (Ok b, s') ->
  at_record R i s' (g r b) /\ advances X s s' /\ reserved_ok s' /\ staged_bytes s' b src.
Proof.
  intros Hw Hs Hl Hb Ha Hr. apply (copy_buffer_ok old) in Hr as (n & Hn & Hrec & Hpl & Hreg); [|apply Hw|done..].
  eapply (placed_advances X) in Hpl as (A1 & A2 & A3); [|exact Hw|done|exact Hn|exact Hreg].
  split_and!; try done. by eapply at_recorded.
Qed.

Lemma advances_wf X s s' : advances X s s' -> ready s -> ready s'.
Proof. intros (G & C & _) [Hw Hl]. split; [by eapply owned_grows|lia]. Qed.

Definition staged_executable (s : boot_state F) (path : option (list Z)) (b size : Z) : Prop :=
  match path with
  | Some p => size = Z.of_nat (length (volume p)) /\ staged_bytes s b (volume p)
  | None => b = 0 /\ size = 0
  end.

Lemma executable_step ih X R i name path s s' r :
  ready s -> at_record R i s r -> reserved_ok s ->
  stage_executable ih i name path s = (Ok tt, s') ->
  exists b size, at_record R i s' (with_executable_size (with_executable_base r b) size) /\
    advances X s s' /\ reserved_ok s' /\ staged_executable s' path b size.
Proof.
  intros Hw Ha Hok Hr. destruct path as [p|]; cbn in Hr.
  - apply bind_ok in Hr as (size & s1 & H1 & H2).
    eapply (load_step ih X R i with_executable_base) in H1 as (b & A1 & V1 & O1 & E1 & B1); [|done|lia|done].
    eapply (update_step X) in H2 as (A2 & V2 & O2 & _); [|exact A1].
    exists b, size. split_and!; [done|by etrans|auto|]. split; [lia|].
    rewrite app_nil_r in B1. eapply staged_bytes_advances; [|exact V2|exact B1].
    by eapply advances_wf.
  - apply bind_ok in Hr as ([] & s1 & H1 & H2).
    eapply (update_step X) in H1 as (A1 & V1 & O1 & _); [|exact Ha].
    eapply (update_step X) in H2 as (A2 & V2 & O2 & _); [|exact A1].
    exists 0, 0. split_and!; [done|by etrans|auto|done].
Qed.

Lemma report_step X message name s s' :
  report_kext message name s = (Ok tt, s') ->
  advances X s s' /\ (reserved_ok s -> reserved_ok s') /\ globals_kept s s'.
Proof.
  intros Hr.
  assert (Hg : pres globals_kept (report_kext (F := F) message name)) by kept_tac.
  specialize (Hg s). rewrite Hr in Hg. cbn in Hg.
  assert (Hf : pres grows (report_kext (F := F) message name)).
  { apply framed_grows. intros P. framed_tac. }
  specialize (Hf s). rewrite Hr in Hf. cbn in Hf. pose proof Hg as (Ev & _ & El & _).
  unfold reserved_ok, cursor. rewrite Ev. split_and!; [|done|done].
  split_and!; [done|unfold cursor; rewrite Ev; lia|intros x _; by rewrite Ev|done].
Qed.

(** What the loader promises about the files of one enabled extension. *)
Record staged_files (s : boot_state F) (e : PantheraBootKextManifestEntry)
    (r : PantheraBootKextRecord) : Prop := {
  staged_name : driver_entry_name r = manifest_driver_name e;
  staged_info : exists p, info_path e = Some p /\
    info_dict_size r = Z.of_nat (length (volume p)) + 1 /\
    staged_bytes s (info_dict_base r) (volume p ++ [0]);
  staged_exec : staged_executable s (executable_path e) (executable_base r) (executable_size r);
  staged_path : bundle_path_size r = Z.of_nat (length (bundle_path e)) + 1 /\
    staged_bytes s (bundle_path_base r) (bundle_path e ++ [0])
}.

(** The file information points to them and the device tree to it. *)
Definition staged (s : boot_state F) (e : PantheraBootKextManifestEntry)
    (r : PantheraBootKextRecord) : Prop :=
  staged_files s e r /\ dt_paddr r = file_info_base r /\ dt_length r = sizeof_file_info /\
  staged_bytes s (file_info_base r) (kext_file_info r).

Lemma staged_executable_advances X s s' path b size :
  ready s -> advances X s s' ->
  staged_executable s path b size -> staged_executable s' path b size.
Proof.
  intros Hw Ha. destruct path as [p|]; [|done]. intros [? ?]. split; [done|].
  by eapply staged_bytes_advances.
Qed.

Lemma staged_files_advances X s s' e r :
  ready s -> advances X s s' -> staged_files s e r -> staged_files s' e r.
Proof.
  intros Hw Ha [H1 (p & H2 & H3 & H4) H5 [H6 H7]].
  pose proof (fun b bs => staged_bytes_advances X s s' b bs Hw Ha) as Hs.
  split; [done| | |]; eauto. by eapply staged_executable_advances.
Qed.

Lemma staged_advances X s s' e r :
  ready s -> advances X s s' -> staged s e r -> staged s' e r.
Proof.
  intros Hw Ha (H1 & H2 & H3 & H4). split_and!; [by eapply staged_files_advances|done|done|].
  by eapply staged_bytes_advances.
Qed.

(** ** One extension *)
Lemma kext_file_info_ok r :
  Forall byte (kext_file_info r) /\ Z.of_nat (length (kext_file_info r)) = sizeof_file_info.
Proof.
  unfold kext_file_info. rewrite !length_app, !length_le_encode, !Forall_app.
  split; [|done]. split_and!; apply le_encode_bytes.
Qed.

Lemma ensure_low32_ok b (s : boot_state F) s' :
  panthera_ensure_low32 b s = (Ok tt, s') -> b < 2 ^ 32 /\ s' = s.
Proof.
  unfold panthera_ensure_low32. destruct (Z.ltb_spec 0xffffffff b); [done|]. injection 1 as <-. split; [lia|done].
Qed.

Lemma path_step X R i text s b size s' r :
  ready s -> text_ok text = true -> b < 2 ^ 32 ->
  at_record R i s r ->
  panthera_copy_ascii_to_kernel_boot_data text
    (fun b => update_record i (fun r => with_bundle_base r b)) s = (Ok (b, size), s') ->
  at_record R i s' (with_bundle_base r b) /\ advances X s s' /\ reserved_ok s' /\
  size = Z.of_nat (length text) + 1 /\ staged_bytes s' b (text ++ [0]).
Proof.
  intros Hw Ht Hb Ha Hr. destruct (text_ok_bytes _ Ht) as [Htb Hl]. unfold panthera_copy_ascii_to_kernel_boot_data in Hr.
  destruct (take_nul text (text_ok_nonzero _ Ht)) as [E1 E2].
  rewrite E2 in Hr by lia. apply bind_ok in Hr as (b' & s1 & H1 & Hr). run_inv. simplify_eq.
  eapply (copy_step X R i with_bundle_base) in H1 as (A1 & A2 & A3 & A4); [|done| | |done|done].
  - split_and!; try done. rewrite E1. wrap_tac. done.
  - apply Forall_app. split; [done|repeat constructor; done].
  - rewrite length_app. cbn. lia.
Qed.

Lemma staged_files_dt s e r fb p n :
  staged_files s e r -> staged_files s e (with_dt_buffer (with_file_info_base r fb) p n).
Proof. by intros [? ? ? ?]. Qed.

Lemma count_step (s : boot_state F) v : advances [gBootKextCount] s (set_var s gBootKextCount v).
Proof.
  split_and!; [by apply grows_same|unfold cursor; by rewrite var_other| |done].
  intros x Hx. apply var_other. set_solver.
Qed.

(** The runs up to the bundle path. *)
Lemma kext_files_ok ih R i e name info s s1 s2 s3 s4 s5 s6 isz pb psz r0 :
  ready s -> entry_ok e = true -> info_path e = Some info -> at_record R i s r0 ->
  update_record i (fun r => with_driver r (manifest_driver_name e)) s = (Ok tt, s1) ->
  on_error (panthera_load_file_to_pages ih info 1
              (fun b => update_record i (fun r => with_info_base r b)))
    (fun _ => report_kext "Boot kext Info.plist load failed: " name) s1 = (Ok isz, s2) ->
  update_record i (fun r => with_info_size r isz) s2 = (Ok tt, s3) ->
  stage_executable ih i name (executable_path e) s3 = (Ok tt, s4) ->
  panthera_copy_ascii_to_kernel_boot_data (bundle_path e)
    (fun b => update_record i (fun r => with_bundle_base r b)) s4 = (Ok (pb, psz), s5) ->
  update_record i (fun r => with_bundle_size r psz) s5 = (Ok tt, s6) -> pb < 2 ^ 32 ->
  exists r, at_record R i s6 r /\ advances [] s s6 /\ staged_files s6 e r.
Proof.
  intros Hw He Hi Ha H1 H2 H3 H4 H5 H6 Hpb.
  assert (Hpath : text_ok (bundle_path e) = true).
  { unfold entry_ok in He. repeat apply andb_prop in He as [He ?]. done. }
  eapply (update_step []) in H1 as (A1 & V1 & _); [|exact Ha]. pose proof (advances_wf _ _ _ V1 Hw) as W1.
  eapply (load_step ih [] R i with_info_base) in H2 as (ib & A2 & V2 & O2 & E2 & B2); [|done|lia|done].
  pose proof (advances_wf _ _ _ V2 W1) as W2.
  eapply (update_step []) in H3 as (A3 & V3 & O3 & _); [|exact A2]. pose proof (advances_wf _ _ _ V3 W2) as W3.
  eapply (executable_step ih [] R i) in H4 as (eb & esz & A4 & V4 & O4 & B4); [|done|exact A3|auto].
  pose proof (advances_wf _ _ _ V4 W3) as W4.
  eapply (path_step [] R i) in H5 as (A5 & V5 & O5 & E5 & B5); [|done|done|done|exact A4].
  pose proof (advances_wf _ _ _ V5 W4) as W5.
  eapply (update_step []) in H6 as (A6 & V6 & O6 & _); [|exact A5]. eexists. split; [exact A6|].
  assert (V26 : advances [] s2 s6) by (do 3 (etrans; [eassumption|]); done).
  split; [by do 2 (etrans; [eassumption|])|]. split; cbn.
  - done.
  - exists info. split_and!; [done|lia|].
    eapply staged_bytes_advances; [exact W2|exact V26|exact B2].
  - eapply staged_executable_advances; [exact W4|by etrans|exact B4].
  - split; [done|]. eapply staged_bytes_advances; [exact W5|exact V6|exact B5].
Qed.

Lemma stage_kext_ok ih R i e name info s s' r0 :
  ready s -> entry_ok e = true -> info_path e = Some info -> at_record R i s r0 ->
  b_vars s gBootKextCount = Z.of_nat i -> Z.of_nat i < 2 ^ 31 ->
  stage_kext ih e name info s = (Ok tt, s') ->
  exists r, at_record R i s' r /\ staged s' e r /\ advances [gBootKextCount] s s' /\
    reserved_ok s' /\ b_vars s' gBootKextCount = Z.of_nat (S i).
Proof.
  intros Hw He Hi Ha Hc Hlt Hr. unfold stage_kext in Hr.
  apply bind_ok in Hr as (c & s0 & H0' & Hr). injection H0' as <- <-. rewrite Hc, Nat2Z.id in Hr.
  apply bind_ok in Hr as ([] & s1 & H1 & Hr). apply bind_ok in Hr as (isz & s2 & H2 & Hr).
  apply bind_ok in Hr as ([] & s3 & H3 & Hr). apply bind_ok in Hr as ([] & s4 & H4 & Hr).
  apply bind_ok in Hr as ([pb psz] & s5 & H5 & Hr). apply bind_ok in Hr as ([] & s6 & H6 & Hr).
  apply bind_ok in Hr as ([] & s7 & H7 & Hr). apply ensure_low32_ok in H7 as [Hpb ->].
  apply bind_ok in Hr as (rec & s8 & H8 & Hr). apply bind_ok in Hr as (fb & s9 & H9 & Hr).
  apply bind_ok in Hr as ([] & s10 & H10 & Hr). apply ensure_low32_ok in H10 as [Hfb ->].
  apply bind_ok in Hr as ([] & s11 & H11 & Hr). apply bind_ok in Hr as ([] & s12 & H12 & Hr).
  destruct (kext_files_ok _ _ _ _ _ _ _ _ _ _ _ _ _ _ _ _ _ Hw He Hi Ha H1 H2 H3 H4 H5 H6 Hpb)
    as (r & A6 & V6 & F6). clear H1 H2 H3 H4 H5 H6. pose proof (advances_wf _ _ _ V6 Hw) as W6.
  unfold get_record, bind, get_records in H8. rewrite (at_record_lookup _ _ _ _ A6) in H8.
  apply ret_ok in H8 as [<- <-]. destruct (kext_file_info_ok r) as [Hb Hl].
  eapply (copy_step [] R i with_file_info_base) in H9 as (A9 & V9 & O9 & B9);
    [|done|done|rewrite Hl; unfold sizeof_file_info; lia|done|exact A6].
  pose proof (advances_wf _ _ _ V9 W6) as W9.
  eapply (update_step []) in H11 as (A11 & V11 & O11 & M11); [|exact A9].
  assert (V : advances [] s s11) by (etrans; [exact V6|by etrans]).
  pose proof (advances_wf _ _ _ V11 W9) as W11.
  rewrite (wrap_small 32 fb) in A11 by (destruct B9 as (_ & ? & _); lia).
  injection H12 as <-. apply (report_step [gBootKextCount]) in Hr as (VR & OR & (ER & _ & _ & RR)).
  assert (V' : advances [gBootKextCount] s11 s') by (etrans; [apply count_step|exact VR]).
  assert (V0 : forall x y, advances [] x y -> advances [gBootKextCount] x y).
  { intros x y. apply advances_weaken. set_solver. }
  exists (with_dt_buffer (with_file_info_base r fb) fb sizeof_file_info). split_and!.
  - destruct A11 as [? A11]. split; [done|]. by rewrite RR.
  - split_and!; [|done|done|].
    + apply staged_files_dt. eapply staged_files_advances; [exact W6| |exact F6].
      etrans; [apply V0, V9|]. etrans; [apply V0, V11|done].
    + eapply staged_bytes_advances; [exact W9| |exact B9]. etrans; [apply V0, V11|done].
  - etrans; [apply V0, V|done].
  - apply OR. unfold reserved_ok, cursor in *. rewrite !var_other by done. auto.
  - rewrite ER, var_same. destruct V as (_ & _ & V & _). rewrite V, Hc by set_solver. wrap_tac. lia.
Qed.

(** ** The loop *)
Lemma enabled_cons line e l name info :
  bundle_name e = Some name -> info_path e = Some info ->
  enabled_entries line (e :: l) =
  if entry_skipped line e then enabled_entries line l else e :: enabled_entries line l.
Proof.
  intros E1 E2. unfold enabled_entries. cbn. rewrite E1, E2. cbn. by destruct (entry_skipped line e).
Qed.

Lemma records_at R i s r : at_record R i s r -> (gBootKextRecords s) !! i = Some r /\
  take i (gBootKextRecords s) = take i R /\ length (gBootKextRecords s) = length R.
Proof.
  intros Ha. split; [exact (at_record_lookup _ _ _ _ Ha)|]. destruct Ha as [Hi ->].
  rewrite take_insert_ge by lia. by rewrite length_insert.
Qed.

Lemma stage_entries_ok ih l i s s' :
  ready s -> Forall (fun e => entry_ok e = true) (manifest_entries l) ->
  b_vars s gBootKextCount = Z.of_nat i ->
  (i + length (enabled_entries (gBootCommandLine s) l) <= length (gBootKextRecords s) <= 34)%nat ->
  stage_entries ih l s = (Ok tt, s') ->
  let es := enabled_entries (gBootCommandLine s) l in
  b_vars s' gBootKextCount = Z.of_nat (i + length es) /\
  length (gBootKextRecords s') = length (gBootKextRecords s) /\
  take i (gBootKextRecords s') = take i (gBootKextRecords s) /\
  Forall2 (staged s') es (take (length es) (drop i (gBootKextRecords s'))) /\
  advances [gBootKextCount] s s' /\ (reserved_ok s \/ es <> [] -> reserved_ok s').
Proof.
  revert i s. induction l as [|e l IH]; intros i s Hw Hok Hc Hlen Hr es.
  - cbn in Hr. run_inv. rewrite Nat.add_0_r. cbn. split_and!; try done. tauto.
  - cbn [stage_entries manifest_entries] in Hr, Hok. unfold es in *. clear es.
    destruct (bundle_name e) as [name|] eqn:E1, (info_path e) as [info|] eqn:E2;
      try (unfold enabled_entries; cbn; rewrite E1, ?E2; cbn; run_inv; rewrite Nat.add_0_r;
           split_and!; try done; tauto).
    apply Forall_cons in Hok as [He Hok].
    apply bind_ok in Hr as (line & s0 & Hl & Hr). injection Hl as <- <-.
    rewrite (enabled_cons _ _ _ _ _ E1 E2) in Hlen |- *.
    destruct (entry_skipped (gBootCommandLine s) e); [by apply IH|].
    apply bind_ok in Hr as ([] & s1 & H1 & Hr). cbn [length] in Hlen.
    destruct (lookup_lt_is_Some_2 (gBootKextRecords s) i) as [r0 Hr0]; [lia|].
    assert (Ha : at_record (gBootKextRecords s) i s r0).
    { split; [lia|]. by rewrite list_insert_id. }
    eapply stage_kext_ok in H1 as (r & A1 & S1 & V1 & O1 & C1); [|done|done|done|exact Ha|done|lia].
    destruct (records_at _ _ _ _ A1) as (L1 & T1 & N1). pose proof (advances_wf _ _ _ V1 Hw) as W1.
    pose proof V1 as (_ & _ & _ & EL). rewrite <- EL in Hlen |- *.
    apply (IH (S i)) in Hr; [|done|done|done|rewrite N1; lia].
    destruct Hr as (C2 & N2 & T2 & F2 & V2 & O2).
    assert (Hi : gBootKextRecords s' !! i = Some r).
    { rewrite <- (lookup_take_lt _ (S i)), T2, lookup_take_lt by lia. done. }
    split_and!.
    + rewrite C2. cbn [length]. f_equal. lia.
    + by rewrite N2.
    + rewrite <- T1. replace i with (i `min` S i)%nat by lia. by rewrite <- !take_take, T2.
    + rewrite (drop_S _ r i Hi). cbn [length firstn]. constructor; [|done].
      by eapply staged_advances.
    + by etrans.
    + auto.
Qed.
End Kexts.

(** ** The record table is never overrun *)
Section Safe.
Context {F : Type} `{Firmware F}.

(** With record [i] inside the table, [m] returns or fails with an error status
    and keeps the table's length. *)
Definition safe {A} (i : nat) (m : M F A) : Prop := forall s,
  (i < length (gBootKextRecords s))%nat ->
  length (gBootKextRecords (m s).2) = length (gBootKextRecords s) /\
  match (m s).1 with Ok _ => True | Err st => EFI_ERROR st = true | _ => False end.

Lemma safe_leaf {A} i (m : M F A) : total m -> pres records_kept m -> safe i m.
Proof.
  intros Ht Hp s Hi. specialize (Ht s). specialize (Hp s). unfold records_kept in Hp.
  destruct (m s) as [[a|st|h|] s']; cbn in *; try done; by rewrite Hp.
Qed.

Lemma safe_bind {A B} i (m : M F A) (k : A -> M F B) :
  safe i m -> (forall a, safe i (k a)) -> safe i (bind m k).
Proof.
  intros Hm Hk s Hi. unfold bind. specialize (Hm s Hi).
  destruct (m s) as [[a|st|h|] s']; cbn in *; try done. destruct Hm as [El _].
  rewrite <- El in Hi |- *. by apply Hk.
Qed.

Lemma safe_on_error {A} i (m : M F A) h :
  safe i m -> (forall st, safe i (h st)) -> safe i (on_error m h).
Proof.
  intros Hm Hh s Hi. unfold on_error. specialize (Hm s Hi).
  destruct (m s) as [[a|st|e|] s']; cbn in *; try done. destruct Hm as [El Est].
  rewrite <- El in Hi. specialize (Hh st s' Hi).
  destruct (h st s') as [[?|?|?|] s'']; cbn in *; try done; destruct Hh; split; done || lia.
Qed.

Lemma safe_attempt {A B} i (m : M F A) (k : A + Z -> M F B) :
  safe i m -> (forall a, safe i (k (inl a))) ->
  (forall st, EFI_ERROR st = true -> safe i (k (inr st))) -> safe i (bind (attempt m) k).
Proof.
  intros Hm Hl Hr s Hi. unfold bind, attempt. specialize (Hm s Hi).
  destruct (m s) as [[a|st|h|] s']; cbn in *; try done; destruct Hm as [El Est];
    rewrite <- El in Hi |- *; [by apply Hl|by apply Hr].
Qed.

Lemma safe_update i f : safe i (update_record (F := F) i f).
Proof.
  intros s Hi. unfold update_record, bind, get_records.
  destruct (lookup_lt_is_Some_2 _ _ Hi) as [r ->]. cbn. by rewrite length_insert.
Qed.

Lemma safe_get i : safe i (get_record (F := F) i).
Proof.
  intros s Hi. unfold get_record, bind, get_records.
  by destruct (lookup_lt_is_Some_2 _ _ Hi) as [r ->].
Qed.
End Safe.

Ltac safe_tac :=
  repeat lazymatch goal with
  | |- forall _, safe _ _ => intros ?
  | |- safe _ (bind (attempt _) _) => apply safe_attempt; [|intros|intros]
  | |- safe _ (bind _ _) => apply safe_bind; [|intros]
  | |- safe _ (on_error _ _) => apply safe_on_error; [|intros]
  | |- safe _ (update_record _ _) => apply safe_update
  | |- safe _ (get_record _) => apply safe_get
  | |- safe _ (throw _) => apply safe_leaf; [total_tac|kept_tac]
  | |- safe _ (match ?x with _ => _ end) => destruct x
  | |- safe _ ?m =>
      first [solve [eauto 1 with boot nocore] | solve [apply safe_leaf; [total_tac|kept_tac]] |
             walk_unfold m]
  end.

Section KextsTotal.
Context {F : Type} `{LawfulFirmware F}.

Lemma safe_load_file ih i path t g :
  safe i (panthera_load_file_to_pages (F := F) ih path t (fun b => update_record i (fun r => g r b))).
Proof. safe_tac. Qed.

Lemma safe_copy_buffer i src g :
  safe i (panthera_copy_buffer_to_kernel_boot_data (F := F) src (fun b => update_record i (fun r => g r b))).
Proof. safe_tac. Qed.

Lemma safe_report i message name : safe i (report_kext (F := F) message name).
Proof. safe_tac. Qed.

#[local] Hint Resolve safe_load_file safe_copy_buffer safe_report : boot.

Lemma stage_kext_outcome ih e name info s i :
  b_vars s gBootKextCount = Z.of_nat i -> (i < length (gBootKextRecords s))%nat ->
  match (stage_kext (F := F) ih e name info s).1 with
  | Ok _ => True | Err st => EFI_ERROR st = true | _ => False
  end.
Proof.
  intros Hc Hi. unfold stage_kext.
  match goal with |- context [bind (get_var gBootKextCount) ?k] =>
    assert (Hk : safe i (k (Z.of_nat i))) end.
  { rewrite Nat2Z.id. safe_tac. }
  unfold bind at 1, get_var at 1. rewrite Hc. by apply Hk.
Qed.

Lemma stage_entries_outcome ih l i s :
  mem_wf (b_mem s) -> Forall (fun e => entry_ok e = true) (manifest_entries l) ->
  b_vars s gBootKextCount = Z.of_nat i ->
  (i + length (enabled_entries (gBootCommandLine s) l) <= length (gBootKextRecords s) <= 34)%nat ->
  match (stage_entries ih l s).1 with
  | Ok _ => True | Err st => EFI_ERROR st = true | _ => False
  end.
Proof.
  revert i s. induction l as [|e l IH]; intros i s Hw Hok Hc Hlen; [done|].
  cbn [stage_entries manifest_entries] in *.
  destruct (bundle_name e) as [name|] eqn:E1, (info_path e) as [info|] eqn:E2; try done.
  apply Forall_cons in Hok as [He Hok]. unfold bind at 1, get_command_line at 1.
  rewrite (enabled_cons _ _ _ _ _ E1 E2) in Hlen.
  destruct (entry_skipped (gBootCommandLine s) e); [by eapply IH|]. cbn [length] in Hlen.
  pose proof (stage_kext_outcome ih e name info s i Hc ltac:(lia)) as Ho. unfold bind.
  destruct (stage_kext ih e name info s) as [[[]|st|h|] s1] eqn:H1; try done.
  destruct (lookup_lt_is_Some_2 (gBootKextRecords s) i) as [r0 Hr0]; [lia|].
  assert (Ha : at_record (gBootKextRecords s) i s r0).
  { split; [lia|]. by rewrite list_insert_id. }
  eapply stage_kext_ok in H1 as (r & A1 & S1 & V1 & O1 & C1); [|done|done|done|exact Ha|done|lia].
  destruct (records_at _ _ _ _ A1) as (_ & _ & N1). destruct V1 as (G1 & _ & _ & EL).
  apply (IH (S i)); [by apply G1|done|done|]. rewrite EL, N1. lia.
Qed.
End KextsTotal.

Section KextsRun.
Context {F : Type} `{LawfulFirmware F}.

Lemma manifest_ok : Forall (fun e => entry_ok e = true) (manifest_entries gBootKextManifest).
Proof.
  destruct manifest_checks as [Hok _]. apply Forall_forall. intros e He.
  rewrite forallb_forall in Hok. by apply Hok, list_elem_of_In.
Qed.

(** The state the loop starts in. *)
Definition kexts_start (s : boot_state F) : boot_state F :=
  set_records (set_var s gBootKextCount 0) (repeat zero_record PANTHERA_MAX_BOOT_KEXTS).

Lemma kexts_start_run ih s :
  panthera_stage_boot_kexts ih s = stage_entries ih gBootKextManifest (kexts_start s).
Proof. reflexivity. Qed.

Lemma kexts_start_fits (s : boot_state F) :
  (0 + length (enabled_entries (gBootCommandLine (kexts_start s)) gBootKextManifest) <=
   length (gBootKextRecords (kexts_start s)) <= 34)%nat.
Proof.
  pose proof (enabled_length (gBootCommandLine s)). cbn [gBootKextRecords kexts_start set_records].
  rewrite repeat_length. unfold PANTHERA_MAX_BOOT_KEXTS.
  change (gBootCommandLine (kexts_start s)) with (gBootCommandLine s). lia.
Qed.

Lemma stage_boot_kexts_outcome ih s :
  mem_wf (b_mem s) ->
  match (panthera_stage_boot_kexts ih s).1 with
  | Ok _ => True | Err st => EFI_ERROR st = true | _ => False
  end.
Proof.
  intros Hw. rewrite kexts_start_run.
  apply (stage_entries_outcome ih _ 0); [exact Hw|apply manifest_ok|reflexivity|apply kexts_start_fits].
Qed.

Lemma stage_boot_kexts_ok old low ih s s' :
  ready old low s -> panthera_stage_boot_kexts ih s = (Ok tt, s') ->
  let es := enabled_entries (gBootCommandLine s) gBootKextManifest in
  b_vars s' gBootKextCount = Z.of_nat (length es) /\
  length (gBootKextRecords s') = PANTHERA_MAX_BOOT_KEXTS /\
  Forall2 (staged old low s') es (take (length es) (gBootKextRecords s')) /\
  reserved_ok s' /\ advances [gBootKextCount] s s'.
Proof.
  intros Hw E es. rewrite kexts_start_run in E.
  destruct (stage_entries_ok old low ih gBootKextManifest 0 (kexts_start s) s')
    as (Hc & Hn & _ & Hf & V & Hr); [exact Hw|apply manifest_ok|reflexivity|apply kexts_start_fits|exact E|].
  change (gBootCommandLine (kexts_start s)) with (gBootCommandLine s) in *. fold es in Hc, Hf, Hr.
  pose proof (enabled_length (gBootCommandLine s)) as Hlen. fold es in Hlen. rewrite drop_0 in Hf.
  split_and!; [done| |done| |].
  - rewrite Hn. apply repeat_length.
  - apply Hr. right. intros En. rewrite En in Hlen. cbn in Hlen. lia.
  - destruct V as (G & C & V & L). split_and!; [done|done| |done].
    intros x Hx. rewrite V by exact Hx. apply (var_other s). clear - Hx. set_solver.
Qed.
End KextsRun.

(** C13. Staging the kernel extensions returns or fails with an EFI error
    status, and never writes outside the record table. When it returns, the
    count is the number of entries the command line enables, and the records, in
    the manifest's order, describe them: the information dictionary with its
    trailing NUL, the executable, the bundle path and the file information block
    that points to them are in memory, byte for byte, in new pages. Each of
    these four objects starts below 4 GiB (its end is not limited) and lies
    between the boot data cursor of before the call and the one after it, and the
    reserved size reaches from [gKernelTextBase] to that new cursor. Every page
    handed out before is unchanged. *)
Theorem kexts_staged {F} `{LawfulFirmware F} (ih : Z) (s : boot_state F) :
  mem_wf (b_mem s) ->
  match panthera_stage_boot_kexts ih s with
  | (Ok _, s') =>
      let es := enabled_entries (gBootCommandLine s) gBootKextManifest in
      b_vars s' gBootKextCount = Z.of_nat (length es) /\
      length (gBootKextRecords s') = PANTHERA_MAX_BOOT_KEXTS /\
      Forall2 (staged (paged (b_fw s)) (cursor s) s') es (take (length es) (gBootKextRecords s')) /\
      reserved_ok s' /\
      forall x, paged (b_fw s) x -> mget (b_mem s') x = mget (b_mem s) x
  | (Err st, _) => EFI_ERROR st = true
  | _ => False
  end.
Proof.
  intros Hw. pose proof (stage_boot_kexts_outcome ih s Hw) as Ho.
  destruct (panthera_stage_boot_kexts ih s) as [[[]|st|h|] s'] eqn:E; try done.
  destruct (stage_boot_kexts_ok (paged (b_fw s)) (cursor s) ih s s') as (Hc & Hn & Hf & Hr & (G & _)); [by split; [split|]|exact E|].
  split_and!; [exact Hc|exact Hn|exact Hf|exact Hr|]. intros x Hx. by apply (G Hw).
Qed.

Definition staging_boot : boot_state sim :=
  set_command_line (set_var (set_var (sim_boot 0) gKernelBootDataCursor 0x300000)
    gKernelTextBase 0x200000) (str "serial=3 panthera_iog=1").

Lemma kexts_staged_witness :
  match panthera_stage_boot_kexts 5 staging_boot with
  | (Ok _, s') =>
      b_vars s' gBootKextCount = 24 /\
      Forall2 (staged (paged (b_fw staging_boot)) 0x300000 s') (enabled_entries (str "serial=3 panthera_iog=1") gBootKextManifest)
        (take 24 (gBootKextRecords s'))
  | _ => False
  end.
Proof.
  pose proof (kexts_staged 5 staging_boot mem_wf_empty) as Hs.
  assert (E : (panthera_stage_boot_kexts 5 staging_boot).1 = Ok tt) by (vm_compute; reflexivity).
  destruct (panthera_stage_boot_kexts 5 staging_boot) as [r s']. cbn in E. subst r.
  destruct Hs as (Hc & _ & Hf & _).
  change (gBootCommandLine staging_boot) with (str "serial=3 panthera_iog=1") in Hc, Hf.
  assert (El : length (enabled_entries (str "serial=3 panthera_iog=1") gBootKextManifest) = 24%nat)
    by (vm_compute; reflexivity).
  rewrite El in Hc, Hf. split; [exact Hc|exact Hf].
Defined.
