(* ===== verification/KernelImage.v ===== *)
(** * The staged kernel image: boot/efi/loader/src/bootx64.c

    What staging leaves in memory: the patched startup code, and the segments of
    a kernel that is loaded where it was linked. *)

From Stdlib Require Import ZArith Lia Ascii String.
From stdpp Require Import base list gmap relations.
From S2P Require Import Prelude MachO Rebase BootText KextManifest Efi BootLogic Sim Loading Stage.

Open Scope Z_scope.

(** ** The startup patches

    Offset of the 32-bit value, the opcode byte before it if it is an immediate,
    and the value the linker put there. *)
Record patch := mkPatch { p_offset : Z; p_opcode : option Z; p_expected : Z }.

Definition hib_patches (linked_base : Z) : list patch :=
  [ mkPatch 3 (Some 0xbc) linked_low_eintstack;
    mkPatch 8 (Some 0xb8) linked_protected_mode_gdtr;
    mkPatch 16 (Some 0xb8) linked_boot_pml4;
    mkPatch 29 (Some 0xba) linked_boot_pdpt;
    mkPatch 67 (Some 0xb8) linked_boot_pml4;
    mkPatch 86 (Some 0xea) (linked_base +32 0x5c);
    mkPatch 0x1042 None linked_master_gdt;
    mkPatch 0x99002 None linked_master_gdt ].

Definition patch_present (m : mem) (base : Z) (p : patch) : Prop :=
  mread m (base + p_offset p) 4 = p_expected p /\
  match p_opcode p with Some c => mget m (base + p_offset p - 1) = c | None => True end.

(** The bytes of a patch and its opcode. *)
Definition patch_lo (p : patch) : Z := match p_opcode p with Some _ => p_offset p - 1 | None => p_offset p end.

Fixpoint patches_apart (l : list patch) : Prop :=
  match l with
  | [] => True
  | p :: l' =>
      Forall (fun q => p_offset p + 4 <= patch_lo q \/ p_offset q + 4 <= patch_lo p) l' /\
      patches_apart l'
  end.

Section Patches.
Context {F : Type} `{Firmware F}.

Definition run_patch (base delta : Z) (p : patch) : M F unit :=
  match p_opcode p with
  | Some c => panthera_patch_u32_imm base (p_offset p - 1) c (p_expected p) (p_expected p +32 delta)
  | None => panthera_patch_u32_value base (p_offset p) (p_expected p) (p_expected p +32 delta)
  end.

Fixpoint run_patches (base delta : Z) (l : list patch) : M F unit :=
  match l with
  | [] => ret tt
  | p :: l' => run_patch base delta p >> run_patches base delta l'
  end.

Lemma run_patch_spec base delta p s :
  (patch_present (b_mem s) base p /\
   run_patch base delta p s =
     (Ok tt, set_mem s (mwrite (b_mem s) (base + p_offset p) 4 (p_expected p +32 delta)))) \/
  (~ patch_present (b_mem s) base p /\ run_patch base delta p s = (Err EFI_NOT_FOUND, s)).
Proof.
  unfold run_patch, patch_present. destruct (p_opcode p) as [c|].
  - unfold panthera_patch_u32_imm, bind, get_mem, put_mem, throw.
    replace (base + (p_offset p - 1) + 1) with (base + p_offset p) by lia.
    replace (base + (p_offset p - 1)) with (base + p_offset p - 1) by lia.
    destruct (Z.eqb_spec (mget (b_mem s) (base + p_offset p - 1)) c),
      (Z.eqb_spec (mread (b_mem s) (base + p_offset p) 4) (p_expected p)); cbn; tauto.
  - unfold panthera_patch_u32_value, bind, get_mem, put_mem, throw.
    destruct (Z.eqb_spec (mread (b_mem s) (base + p_offset p) 4) (p_expected p)); cbn; tauto.
Qed.

Definition patched (base delta : Z) (l : list patch) (m m' : mem) : Prop :=
  Forall (fun p => mread m' (base + p_offset p) 4 = p_expected p +32 delta) l /\
  forall a, Forall (fun p => a < base + p_offset p \/ base + p_offset p + 4 <= a) l ->
    mget m' a = mget m a.

Lemma patch_present_write m base p q v :
  p_offset p + 4 <= patch_lo q \/ p_offset q + 4 <= patch_lo p ->
  patch_present (mwrite m (base + p_offset p) 4 v) base q <-> patch_present m base q.
Proof.
  intros Hd. unfold patch_present, patch_lo in *.
  destruct (p_opcode p), (p_opcode q); rewrite mread_mwrite_disjoint by lia;
    rewrite ?mget_mwrite_out by lia; done.
Qed.

Lemma run_patches_spec base delta l s :
  patches_apart l ->
  (Forall (patch_present (b_mem s) base) l /\
   exists m', run_patches base delta l s = (Ok tt, set_mem s m') /\ patched base delta l (b_mem s) m') \/
  (~ Forall (patch_present (b_mem s) base) l /\
   exists s', run_patches base delta l s = (Err EFI_NOT_FOUND, s')).
Proof.
  revert s. induction l as [|p l IH]; intros s Hap.
  - left. split; [done|]. exists (b_mem s). cbn. split; [by destruct s|]. by split.
  - destruct Hap as [Hp Hap]. cbn [run_patches]. unfold bind.
    destruct (run_patch_spec base delta p s) as [[Hpr ->]|[Hpr ->]].
    2: { right. split; [intros Hf; by apply Forall_cons in Hf as [? _]|by eexists]. }
    set (m1 := mwrite (b_mem s) (base + p_offset p) 4 (p_expected p +32 delta)).
    assert (Hw : forall q, q ∈ l -> patch_present m1 base q <-> patch_present (b_mem s) base q).
    { intros q Hq. apply patch_present_write. rewrite Forall_forall in Hp. by apply Hp. }
    assert (Hiff : Forall (patch_present m1 base) l <-> Forall (patch_present (b_mem s) base) l).
    { rewrite !Forall_forall. split; intros Hf q Hq; apply Hw; auto. }
    rewrite Forall_cons, <- Hiff.
    destruct (IH (set_mem s m1) Hap) as [(Hf & m' & -> & Hm1 & Hm2)|(Hf & s' & ->)].
    + left. split; [done|]. exists m'. split; [done|]. split.
      * constructor; [|done]. erewrite mread_ext.
        -- unfold m1. rewrite mread_mwrite. apply (wrap_wrap 32).
        -- intros b Hb. apply Hm2. eapply Forall_impl; [exact Hp|]. intros q Hq.
           unfold patch_lo in Hq. destruct (p_opcode p), (p_opcode q); lia.
      * intros a Ha. apply Forall_cons in Ha as [Ha1 Ha2]. rewrite Hm2 by done.
        apply mget_mwrite_out. lia.
    + right. split; [tauto|by eexists].
Qed.
End Patches.

Lemma hib_patches_apart linked_base : patches_apart (hib_patches linked_base).
Proof. cbn. repeat constructor; cbn; lia. Qed.

(** C18. Patching the startup code: nothing happens when the image is loaded at
    its linked address; otherwise it succeeds exactly when all eight sites hold
    the opcode and the linked value, and then each of the eight 32-bit values is
    moved by the displacement and no other byte of memory changes. *)
Theorem hib_startup_patched {F} `{Firmware F} (s : boot_state F) :
  let base := b_vars s gKernelImageBase in
  let linked_base := wrap 32 (lowest_vmaddr (gKernelImage s)) in
  let delta := wrap 32 base -32 linked_base in
  let present := Forall (patch_present (b_mem s) base) (hib_patches linked_base) in
  match panthera_patch_hib_startup_immediates s with
  | (Ok _, s') =>
      (delta = 0 /\ s' = s) \/
      (delta <> 0 /\ present /\
       exists m', s' = set_mem s m' /\ patched base delta (hib_patches linked_base) (b_mem s) m')
  | (Err st, _) => st = EFI_NOT_FOUND /\ delta <> 0 /\ ~ present
  | _ => False
  end.
Proof.
  intros base linked_base delta present. unfold panthera_patch_hib_startup_immediates.
  unfold bind at 1, get_var. unfold bind at 1, get_image. fold base linked_base delta.
  destruct (Z.eqb_spec delta 0) as [E|E]; [by left|].
  match goal with |- match ?m s with _ => _ end =>
    replace (m s) with (run_patches base delta (hib_patches linked_base) s) end.
  - destruct (run_patches_spec base delta (hib_patches linked_base) s (hib_patches_apart _))
      as [(Hp & m' & -> & Hm)|(Hp & s' & ->)]; [|done].
    right. split_and!; [done|done|]. by exists m'.
  - cbn [run_patches hib_patches]. unfold run_patch. cbn [p_opcode p_offset p_expected].
    unfold bind. repeat (match goal with |- match ?m with _ => _ end = match ?m' with _ => _ end =>
      change m' with m; destruct m as [[[]|?|?|] ?]; [|done..] end).
    match goal with |- context [panthera_patch_u32_value ?a ?b ?c ?d ?e] =>
      by destruct (panthera_patch_u32_value a b c d e) as [[[]|?|?|] ?] end.
Qed.

(** ** Segments *)

(** The file parts of the segments lie inside the image's address range, do not
    overlap, and their file offsets do not wrap around. *)
Definition segment_inside (image : PantheraKernelImage) (g : PantheraKernelSegment) : Prop :=
  lowest_vmaddr image <= vmaddr g /\ 0 <= filesize g /\
  vmaddr g + filesize g <= highest_vmaddr image /\
  0 <= fileoff g /\ fileoff g + filesize g < 2 ^ 64.

Fixpoint segments_apart (l : list PantheraKernelSegment) : Prop :=
  match l with
  | [] => True
  | g :: l' =>
      Forall (fun h => vmaddr g + filesize g <= vmaddr h \/ vmaddr h + filesize h <= vmaddr g) l' /\
      segments_apart l'
  end.

Definition image_layout (image : PantheraKernelImage) : Prop :=
  0 <= lowest_vmaddr image <= highest_vmaddr image /\ highest_vmaddr image < 2 ^ 64 /\
  highest_vmaddr image - lowest_vmaddr image <= 2 ^ 63 /\
  Forall (segment_inside image) (segments image) /\ segments_apart (segments image).

(** Where a segment goes, without wrap-around. *)
Definition placed_at (image : PantheraKernelImage) (base : Z) (g : PantheraKernelSegment) : Z :=
  base + (vmaddr g - lowest_vmaddr image).

(** [m'] holds the segments of [l] taken from the file at [kf], and agrees with
    [m] elsewhere. *)
Definition loaded (image : PantheraKernelImage) (base kf : Z) (l : list PantheraKernelSegment)
    (m m' : mem) : Prop :=
  Forall (fun g => mbytes m' (placed_at image base g) (Z.to_nat (filesize g)) =
                   mbytes m (kf + fileoff g) (Z.to_nat (filesize g))) l /\
  forall a, Forall (fun g => a < placed_at image base g \/ placed_at image base g + filesize g <= a) l ->
    mget m' a = mget m a.

Section Segments.
Context {F : Type} `{Firmware F}.
Variables (image : PantheraKernelImage) (base kf size : Z).
Hypothesis bounds : 0 <= lowest_vmaddr image <= highest_vmaddr image /\ highest_vmaddr image < 2 ^ 64.
Hypothesis base_fits : 0 <= base /\ base + (highest_vmaddr image - lowest_vmaddr image) <= 2 ^ 64.
Hypothesis file_fits : 0 <= kf /\ 0 <= size /\ kf + size <= 2 ^ 64.
Hypothesis file_apart : kf + size <= base \/ base + (highest_vmaddr image - lowest_vmaddr image) <= kf.

Lemma physical_base_exact g :
  segment_inside image g -> filesize g <> 0 ->
  panthera_segment_physical_base image base g = placed_at image base g.
Proof.
  intros (? & ? & ? & ? & ?) Hf. unfold panthera_segment_physical_base, placed_at.
  by wrap_tac.
Qed.

Definition in_file (g : PantheraKernelSegment) : Prop :=
  filesize g = 0 \/ fileoff g + filesize g <= size.

(** One more segment in front. *)
Lemma loaded_cons g l m m' :
  mem_wf m -> Forall (segment_inside image) (g :: l) -> segments_apart (g :: l) ->
  Forall in_file (g :: l) ->
  let m1 := panthera_copy_memory m (placed_at image base g) (kf + fileoff g) (Z.to_nat (filesize g)) in
  loaded image base kf l m1 m' -> loaded image base kf (g :: l) m m'.
Proof.
  intros Hw Hin [Hp _] Hfl m1 [L1 L2]. apply Forall_cons in Hin as [Hg Hin].
  apply Forall_cons in Hfl as [Hgf Hfl]. destruct Hg as (G1 & G2 & G3 & G4 & G5).
  set (d := placed_at image base g) in *.
  assert (Hd : base <= d /\ d + filesize g <= base + (highest_vmaddr image - lowest_vmaddr image))
    by (unfold d, placed_at; lia).
  pose proof (only_in_copy m d (kf + fileoff g) (Z.to_nat (filesize g)) : only_in d _ m m1) as Ho.
  rewrite Z2Nat.id in Ho by lia. unfold in_file in *. split; [constructor|].
  - destruct (Z.eq_dec (filesize g) 0) as [->|]; [done|].
    rewrite <- (mbytes_copy m d (kf + fileoff g) (Z.to_nat (filesize g)) Hw) by lia.
    apply mbytes_ext. intros a Ha. apply L2. eapply Forall_impl; [exact Hp|]. intros h Hh.
    unfold placed_at in *. cbn in Hh. lia.
  - rewrite Forall_forall in *. intros h Hh. rewrite L1 by done. apply mbytes_ext.
    intros a Ha. destruct (Hin h Hh) as (_ & ? & _). destruct (Hfl h Hh) as [E|E].
    + rewrite E in Ha. cbn in Ha. lia.
    + apply Ho. destruct (Hin h Hh) as (_ & _ & _ & ? & _). lia.
  - intros a Ha. apply Forall_cons in Ha as [Ha1 Ha2]. rewrite L2 by done. apply Ho. fold d in Ha1. lia.
Qed.

Lemma copy_segments_ok l (s : boot_state F) s' :
  mem_wf (b_mem s) -> Forall (segment_inside image) l -> segments_apart l ->
  copy_segments image base kf size l s = (Ok tt, s') ->
  exists m', s' = set_mem s m' /\ mem_wf m' /\ Forall in_file l /\ loaded image base kf l (b_mem s) m'.
Proof.
  revert s. induction l as [|g l IH]; intros s Hw Hin Hap Hr.
  - cbn in Hr. run_inv. exists (b_mem s'). split; [by destruct s'|]. by split_and!.
  - apply Forall_cons in Hin as [Hg Hin]. destruct Hap as [Hp Hap]. cbn [copy_segments] in Hr.
    destruct (Z.eqb_spec (filesize g) 0) as [E|E].
    { apply IH in Hr as (m' & -> & Hw' & Hf & L); [|done..]. exists m'.
      assert (Forall in_file (g :: l)) by (constructor; [by left|done]).
      split_and!; try done. apply loaded_cons; try done; [by constructor|]. by rewrite E. }
    destruct (Z.ltb_spec size (fileoff g +64 filesize g)) as [|Hsz]; [done|].
    rewrite (physical_base_exact g Hg E) in Hr. pose proof Hg as (G1 & G2 & G3 & G4 & G5).
    rewrite (wrap_small 64 (fileoff g + filesize g)) in Hsz by lia.
    rewrite (wrap_small 64 (kf + fileoff g)) in Hr by lia.
    apply bind_ok in Hr as ([] & s1 & H1 & Hr).
    unfold copy_memory, bind, get_mem, put_mem in H1. injection H1 as <-.
    apply IH in Hr as (m' & -> & Hw' & Hf & L); [|by apply mem_wf_copy|done|done]. exists m'.
    assert (Forall in_file (g :: l)) by (constructor; [by right|done]).
    split_and!; try done. apply loaded_cons; try done. by constructor.
Qed.
End Segments.

(** Segments loaded over a zeroed image. *)
Lemma loaded_over_zero image base kf size m m' :
  let span := highest_vmaddr image - lowest_vmaddr image in
  let m0 := panthera_zero_memory m base span in
  kf + size <= base \/ base + span <= kf -> Forall (segment_inside image) (segments image) ->
  Forall (in_file size) (segments image) -> loaded image base kf (segments image) m0 m' ->
  Forall (fun g => mbytes m' (placed_at image base g) (Z.to_nat (filesize g)) =
                   mbytes m (kf + fileoff g) (Z.to_nat (filesize g))) (segments image) /\
  (forall a, base <= a < base + span ->
     Forall (fun g => a < placed_at image base g \/ placed_at image base g + filesize g <= a)
       (segments image) -> mget m' a = 0) /\
  (forall a, a < base \/ base + span <= a -> mget m' a = mget m a).
Proof.
  intros span m0 Hd Hin Hfl [L1 L2].
  assert (D : forall a, mget m0 a = if decide (base <= a < base + span) then 0 else mget m a)
    by (intros a; apply mget_zero_memory). split_and!.
  - rewrite Forall_forall in *. intros g Hg. rewrite L1 by done. apply mbytes_ext. intros a Ha.
    rewrite D, decide_False; [done|]. destruct (Hfl g Hg) as [E0|E0].
    + rewrite E0 in Ha. cbn in Ha. lia.
    + destruct (Hin g Hg) as (_ & ? & _ & ? & _). lia.
  - intros a Ha Hg. rewrite L2 by done. by rewrite D, decide_True.
  - intros a Ha. rewrite L2; [by rewrite D, decide_False by lia|].
    eapply Forall_impl; [exact Hin|]. intros g (? & ? & ? & _). unfold placed_at. lia.
Qed.

(** ** The stages on the way *)
Section Stages.
Context {F : Type} `{LawfulFirmware F}.

Lemma allocate_kernel_image_ok image span s b s' :
  allocate_kernel_image image span s = (Ok b, s') ->
  (exists es, s' = set_fw s (b_fw s') es) /\ fresh_pages (b_fw s) (b_fw s') b span.
Proof.
  unfold allocate_kernel_image, bind, attempt. intros Hr.
  destruct (panthera_allocate_pages_at _ _ s) as [[b1|st|h|] s1] eqn:E1; try done.
  - injection Hr as <- <-. by apply allocate_pages_at_ok in E1 as (_ & ? & ?).
  - apply allocate_pages_at_err in E1 as [[es1 E1] K1].
    apply allocate_pages_ok in Hr as ([es2 E2] & K2 & H1 & H2 & H3 & H4 & H5). split.
    + exists (es2 ++ es1). rewrite E2, E1 at 1. apply set_fw_set_fw.
    + split_and!; [by eapply keeps_trans|done|done|done| |].
      * intros x Hx. destruct (H4 x Hx) as [Hn Hp]. split; [|done]. intros Hq. by apply Hn, K1.
      * intros b' n' Hb. apply H5. by apply K1.
Qed.

(** An image at its linked address is neither relocated nor slid. *)
Lemma slide_in_place image base : base = wrap 32 (lowest_vmaddr image) -> slide_of image base = 0.
Proof. intros E. unfold slide_of. by rewrite <- E, Z.sub_diag. Qed.

Lemma set_mem_id (s : boot_state F) : set_mem s (b_mem s) = s.
Proof. by destruct s. Qed.

Lemma rebase_in_place image base kf size (s : boot_state F) n s' :
  slide_of image base = 0 -> rebase_staged_kernel image base kf size s = (Ok n, s') -> s' = s.
Proof.
  intros Es Hr. unfold rebase_staged_kernel, bind, get_mem in Hr.
  assert (E : exists st k, panthera_rebase_kernel_locals (file_at (b_mem s) kf size) size
    (Some image) base (Some 0) (b_mem s) = Relocated st (b_mem s) k).
  { unfold panthera_rebase_kernel_locals. destruct (file_at _ _ _); [|by do 2 eexists].
    destruct (base =? 0); [by do 2 eexists|]. rewrite Es. cbn. by do 2 eexists. }
  destruct E as (st & k & E). rewrite E in Hr.
  destruct st; [|unfold put_mem in Hr; destruct (console_write_uint64 _ _ _) as [[?|?|?|] ?]; done..].
  unfold put_mem, ret in Hr. rewrite set_mem_id in Hr. congruence.
Qed.

Lemma slide_metadata_in_place image base (s : boot_state F) s' :
  slide_of image base = 0 -> slide_staged_kernel image base s = (Ok tt, s') -> s' = s.
Proof.
  intros Es Hr. unfold slide_staged_kernel, bind, get_mem in Hr.
  assert (E : exists st, panthera_slide_kernel_macho_metadata (Some image) base (b_mem s) =
    (st, b_mem s)).
  { unfold panthera_slide_kernel_macho_metadata. destruct (base =? 0); [by eexists|].
    rewrite Es. cbn. by eexists. }
  destruct E as (st & E). rewrite E in Hr.
  destruct st; [|unfold put_mem in Hr; destruct (console_write_uint64 _ _ _) as [[?|?|?|] ?]; done..].
  unfold put_mem in Hr. rewrite set_mem_id in Hr. congruence.
Qed.

(** Of the loader's globals, these stages change memory only. *)
Lemma globals_copy_segments image base kf size l :
  pres globals_kept (copy_segments (F := F) image base kf size l).
Proof. induction l as [|g l IH]; cbn [copy_segments]; kept_tac. Qed.

Lemma pages_copy_segments image base kf size l :
  pres pages_kept (copy_segments (F := F) image base kf size l).
Proof. induction l as [|g l IH]; cbn [copy_segments]; kept_tac. Qed.

Lemma patch_in_place (s : boot_state F) s' :
  b_vars s gKernelImageBase = wrap 32 (lowest_vmaddr (gKernelImage s)) ->
  panthera_patch_hib_startup_immediates s = (Ok tt, s') -> s' = s.
Proof.
  intros E Hr. unfold panthera_patch_hib_startup_immediates, bind, get_var, get_image in Hr.
  rewrite E, wrap_wrap, Z.sub_diag in Hr.
  change (wrap 32 0 =? 0) with true in Hr. unfold ret in Hr. congruence.
Qed.

(** The stages after the segments were copied: what holds for any displacement. *)
Lemma after_copy_ok image base kf size span (s : boot_state F) n s1 s2 u s3 s4 s' :
  rebase_staged_kernel image base kf size s = (Ok n, s1) ->
  slide_staged_kernel image base s1 = (Ok tt, s2) ->
  console_write_uint64 (str "Kernel local relocations applied: ") n s2 = (Ok u, s3) ->
  put_var gKernelBootDataCursor (panthera_align_page (base +64 span)) s3 = (Ok tt, s4) ->
  panthera_patch_hib_startup_immediates s4 = (Ok tt, s') ->
  b_vars s' = b_vars (set_var s gKernelBootDataCursor (panthera_align_page (base +64 span))) /\
  gKernelImage s' = gKernelImage s /\ pages_kept s s' /\
  (slide_of image base = 0 -> image = gKernelImage s -> base = b_vars s gKernelImageBase ->
   base = wrap 32 (lowest_vmaddr image) -> b_mem s' = b_mem s).
Proof.
  intros H1 H2 H3 H4 H5. injection H4 as <-.
  assert (G1 : globals_kept s s1) by (eapply pres_run; [|exact H1]; kept_tac).
  assert (G2 : globals_kept s1 s2) by (eapply pres_run; [|exact H2]; kept_tac).
  assert (G3 : globals_kept s2 s3) by (eapply pres_run; [|exact H3]; kept_tac).
  assert (P1 : pages_kept s s1) by (eapply pres_run; [|exact H1]; kept_tac).
  assert (P2 : pages_kept s1 s2) by (eapply pres_run; [|exact H2]; kept_tac).
  assert (P3 : pages_kept s2 s3) by (eapply pres_run; [|exact H3]; kept_tac).
  assert (G5 : globals_kept (set_var s3 gKernelBootDataCursor (panthera_align_page (base +64 span))) s')
    by (eapply pres_run; [|exact H5]; kept_tac).
  assert (P5 : pages_kept (set_var s3 gKernelBootDataCursor (panthera_align_page (base +64 span))) s')
    by (eapply pres_run; [|exact H5]; kept_tac).
  assert (M3 : mem_kept s2 s3) by (eapply pres_run; [|exact H3]; kept_tac).
  assert (G : globals_kept s s3) by (etrans; [exact G1|by etrans]). destruct G as (Ev & Ei & _).
  destruct G5 as (Ev5 & Ei5 & _). cbn in Ei5. split_and!.
  - rewrite Ev5. cbn. by rewrite Ev.
  - congruence.
  - intros x Hx. apply P5. cbn. by apply P3, P2, P1.
  - intros Es Eim Eb El. apply rebase_in_place in H1; [|done]. subst s1.
    apply slide_metadata_in_place in H2; [|done]. subst s2.
    apply patch_in_place in H5; [by subst s'; cbn|]. cbn. rewrite Ev. cbn. rewrite <- Eb, El, Eim, Ei. done.
Qed.
End Stages.

(** C14. Staging a kernel from a live file buffer: the image gets fresh pages,
    its size is the span of its addresses, and boot data starts at the next page.
    When it lies at its linked address, every segment's bytes in memory are the
    bytes of the file, the rest of the image is zero, and no byte outside the
    image changes. *)
Theorem kernel_staged_in_place {F} `{LawfulFirmware F} (kf size : Z) (s s' : boot_state F) :
  let image := gKernelImage s in
  let span := highest_vmaddr image - lowest_vmaddr image in
  mem_wf (b_mem s) -> image_layout image ->
  block (b_fw s) kf size -> 0 <= kf /\ 0 <= size /\ kf + size <= 2 ^ 64 ->
  panthera_stage_kernel_image kf size s = (Ok tt, s') ->
  let base := b_vars s' gKernelImageBase in
  b_vars s' gKernelImageSize = span /\ b_vars s' gKernelReservedSize = span /\
  b_vars s' gKernelBootDataCursor = panthera_align_page (base +64 span) /\
  (forall x, base <= x < base + span -> ~ paged (b_fw s) x /\ paged (b_fw s') x) /\
  (base = wrap 32 (lowest_vmaddr image) ->
     Forall (fun g => mbytes (b_mem s') (placed_at image base g) (Z.to_nat (filesize g)) =
                      mbytes (b_mem s) (kf + fileoff g) (Z.to_nat (filesize g))) (segments image) /\
     (forall a, base <= a < base + span ->
        Forall (fun g => a < placed_at image base g \/ placed_at image base g + filesize g <= a)
          (segments image) -> mget (b_mem s') a = 0) /\
     (forall a, a < base \/ base + span <= a -> mget (b_mem s') a = mget (b_mem s) a)).
Proof.
  intros image span Hw Hlay Hb Hf Hr. destruct Hlay as (Hlo & Hhi & Hsp & Hin & Hap).
  unfold panthera_stage_kernel_image in Hr.
  apply bind_ok in Hr as (im & s0 & Hi & Hr). injection Hi as <- <-. fold image in Hr.
  rewrite (wrap_small 64 (highest_vmaddr image - lowest_vmaddr image)) in Hr by lia. fold span in Hr.
  apply bind_ok in Hr as (base & s1 & H1 & Hr).
  apply allocate_kernel_image_ok in H1 as ([es E1] & K & B1 & B2 & B3 & B4 & B5).
  pose proof (pages_of_bound span ltac:(lia)) as Hpg.
  apply bind_ok in Hr as ([] & s2 & H2 & Hr). apply bind_ok in Hr as ([] & s3 & H3 & Hr).
  apply bind_ok in Hr as ([] & s4 & H4 & Hr). apply bind_ok in Hr as ([] & s5 & H5 & Hr).
  apply bind_ok in Hr as ([] & s6 & H6 & Hr). apply bind_ok in Hr as (n & s7 & H7 & Hr).
  apply bind_ok in Hr as ([] & s8 & H8 & Hr). apply bind_ok in Hr as (u & s9 & H9 & Hr).
  apply bind_ok in Hr as ([] & s10 & H10 & Hr).
  injection H2 as E2. injection H3 as E3. injection H4 as E4.
  unfold zero_memory, bind, get_mem, put_mem in H5. injection H5 as E5.
  destruct (after_copy_ok _ _ _ _ _ _ _ _ _ _ _ _ _ H7 H8 H9 H10 Hr) as (Ev & Ei & Hpk & Hmem).
  clear H7 H8 H9 H10 Hr.
  assert (P6 : pages_kept s5 s6) by (eapply pres_run; [|exact H6]; apply pages_copy_segments).
  set (m0 := panthera_zero_memory (b_mem s4) base span) in *.
  assert (M4 : b_mem s4 = b_mem s) by by rewrite <- E4, <- E3, <- E2, E1.
  assert (W5 : mem_wf (b_mem s5)) by (rewrite <- E5; apply mem_wf_zero; by rewrite M4).
  destruct (copy_segments_ok (F := F) image base kf size) with (l := segments image) (s := s5) (s' := s6)
    as (m' & E6 & W6 & F6 & L1 & L2); try done; try lia.
  { destruct (B5 kf size Hb); lia. }
  assert (Eb : b_vars s' gKernelImageBase = base).
  { rewrite Ev, var_other by done. subst. cbn. done. }
  rewrite Eb, Ev. subst s6 s5 s4 s3 s2. cbn [b_vars set_mem set_var] in *. split_and!; [done|done|done| |].
  - intros x Hx. destruct (B4 x ltac:(lia)) as [Hn Hy]. split; [done|]. apply Hpk, P6. exact Hy.
  - intros El. rewrite Hmem; [|by apply slide_in_place|by rewrite E1|done|done]. cbn [b_mem set_mem] in *.
    apply (loaded_over_zero _ _ _ size); try done; [destruct (B5 kf size Hb); lia|].
    rewrite <- M4. by split.
Qed.

(** A file buffer with the kernel of the concrete firmware, and its parse. *)
Definition kernel_boot : boot_state sim :=
  mkBoot (mstore ∅ pool_floor sim_kernel)
    (mkSim 0x100000 (pool_floor + 1000) [(pool_floor, 404)] ∅ 2 0 0x8000000) [] (fun _ => 0)
    (mkImage 0xffffff8000200100 0xffffff8000200000 0xffffff8000201000 404 0 0
       [mkSegment (pad16 "__TEXT") 0xffffff8000200000 0x1000 0 404 7 5] []) [] [].

Lemma kernel_staged_in_place_witness :
  let s' := (panthera_stage_kernel_image pool_floor 404 kernel_boot).2 in
  b_vars s' gKernelImageBase = 0x200000 /\ b_vars s' gKernelBootDataCursor = 0x201000 /\
  mbytes (b_mem s') 0x200000 404 = mbytes (b_mem kernel_boot) pool_floor 404.
Proof.
  assert (Ho : (panthera_stage_kernel_image pool_floor 404 kernel_boot).1 = Ok tt) by (vm_compute; reflexivity).
  assert (Hb : b_vars (panthera_stage_kernel_image pool_floor 404 kernel_boot).2 gKernelImageBase = 0x200000)
    by (vm_compute; reflexivity).
  assert (Hw : mem_wf (b_mem kernel_boot)) by apply mem_wf_mstore, mem_wf_empty.
  assert (Hl : image_layout (gKernelImage kernel_boot)).
  { unfold image_layout. cbn [gKernelImage kernel_boot segments lowest_vmaddr highest_vmaddr].
    split_and!; try lia; repeat constructor; cbn; lia. }
  assert (Hk : block (b_fw kernel_boot) pool_floor 404).
  { change (sim_block (b_fw kernel_boot) pool_floor 404). split; [left|].
    unfold kernel_boot, pool_floor. cbn [b_fw sim_ptr]. lia. }
  destruct (panthera_stage_kernel_image pool_floor 404 kernel_boot) as [r s'] eqn:E.
  cbn [fst snd] in *. subst r.
  destruct (kernel_staged_in_place pool_floor 404 kernel_boot s' Hw Hl Hk ltac:(unfold pool_floor; lia) E)
    as (_ & _ & Hc & _ & Hin).
  rewrite Hb in Hc, Hin. split; [exact Hb|]. split; [exact Hc|].
  destruct (Hin eq_refl) as [Hf _]. apply Forall_cons in Hf as [Hf _]. exact Hf.
Defined.
