(* ===== verification/BootMain.v ===== *)
(** * The boot sequence: boot/efi/loader/src/bootx64.c

    The memory map, the boot arguments, the handoff code and stack, leaving boot
    services, and [EfiMain], which composes every part of the loader. *)

From Stdlib Require Import ZArith Lia Ascii String.
From stdpp Require Import base list gmap.
From S2P Require Import Prelude MachO Rebase BootText KextManifest Efi DeviceTree Stage.

Open Scope Z_scope.

Definition PANTHERA_HANDOFF_STACK_SIZE : Z := 16384.
Definition PANTHERA_MEMORY_MAP_BUFFER_SIZE : Z := 1048576.
Definition sizeof_EFI_SYSTEM_TABLE : Z := 120.
Definition sizeof_EFI_CONFIGURATION_TABLE : Z := 24.

(** ** The kernel's boot ABI

    The kernel's header declares [boot_args] and [EfiMemoryRange]; the assembler
    lays out the handoff template. Their sizes, offsets and constants are the
    members of a class. *)
Inductive ba_field :=
| Revision | Version | efiMode | debugMode | flags
| MemoryMap | MemoryMapSize | MemoryMapDescriptorSize | MemoryMapDescriptorVersion
| deviceTreeP | deviceTreeLength | kaddr | ksize | efiSystemTable
| PhysicalMemorySize | FSBFrequency
| pciConfigSpaceBaseAddress | pciConfigSpaceStartBusNumber | pciConfigSpaceEndBusNumber
| V1_baseAddr | V1_rowBytes | V1_width | V1_height | V1_depth | V1_display
| V_baseAddr | V_rowBytes | V_width | V_height | V_depth | V_display
| efiRuntimeServicesPageStart | efiRuntimeServicesPageCount
| efiRuntimeServicesVirtualPageStart.

#[export] Instance ba_field_eq_dec : EqDecision ba_field.
Proof. solve_decision. Defined.

Class BootABI := {
  sizeof_boot_args : Z;
  ba_offset : ba_field -> Z;
  ba_size : ba_field -> nat;
  CommandLine_offset : Z;
  CommandLine_size : Z;
  PhysicalStart_offset : Z;
  NumberOfPages_offset : Z;
  Attribute_offset : Z;
  kBootArgsRevision : Z;
  kBootArgsVersion : Z;
  kBootArgsEfiMode64 : Z;
  handoff_template : list Z;
  gdtr_offset : Z;
  gdt_offset : Z
}.

(** ** Memory descriptors *)
Section Ranges.
Context `{BootABI}.

Definition range_start (m : mem) (range : Z) : Z := mread m (range + PhysicalStart_offset) 8.
Definition range_pages (m : mem) (range : Z) : Z := mread m (range + NumberOfPages_offset) 8.
Definition range_attribute (m : mem) (range : Z) : Z := mread m (range + Attribute_offset) 8.

Definition memory_size_step (m : mem) (end_ descriptor_size : Z) (s : Z * Z)
  : (Z * Z) + option Z :=
  let '(cursor, highest_address) := s in
  if cursor <? end_ then
    let range_end := range_start m cursor +64 wrap 64 (Z.shiftl (range_pages m cursor) 12) in
    inl (cursor +64 descriptor_size,
         if highest_address <? range_end then range_end else highest_address)
  else inr (Some highest_address).

(** [None]: the loop does not end. *)
Definition panthera_compute_physical_memory_size (m : mem)
    (memory_map memory_map_size descriptor_size : Z) : option Z :=
  while rounds64 None (memory_size_step m (memory_map +64 memory_map_size) descriptor_size)
    (memory_map, 0).

(** The last loop of [panthera_fill_boot_args]: cursor, start and count. *)
Definition runtime_step (m : mem) (end_ descriptor_size : Z) (s : Z * Z * Z)
  : (Z * Z * Z) + option (Z * Z) :=
  let '(cursor, runtime_start, runtime_count) := s in
  if cursor <? end_ then
    if negb (Z.land (range_attribute m cursor) EFI_MEMORY_RUNTIME =? 0) then
      inl (cursor +64 descriptor_size,
           if runtime_count =? 0 then Z.shiftr (range_start m cursor) 12 else runtime_start,
           runtime_count +32 wrap 32 (range_pages m cursor))
    else inl (cursor +64 descriptor_size, runtime_start, runtime_count)
  else inr (Some (runtime_start, runtime_count)).

Definition runtime_ranges (m : mem) (memory_map memory_map_size descriptor_size : Z)
  : option (Z * Z) :=
  while rounds64 None (runtime_step m (memory_map +64 memory_map_size) descriptor_size)
    (memory_map, 0, 0).
End Ranges.

Section Boot.
Context {F : Type} `{Firmware F} `{BootABI}.
Variable image_handle : Z.
Variable system_table : Z.

(** ** Boot arguments *)
Definition panthera_allocate_boot_args : M F Z :=
  let! physical_base := panthera_allocate_pages sizeof_boot_args in
  zero_memory physical_base sizeof_boot_args >> ret physical_base.

Definition put_field (args : Z) (f : ba_field) (v : Z) : M F unit :=
  let! m := get_mem in put_mem (mwrite m (args + ba_offset f) (ba_size f) v).

Definition get_field (args : Z) (f : ba_field) : M F Z :=
  let! m := get_mem in ret (mread m (args + ba_offset f) (ba_size f)).

(** [panthera_copy_ascii(args->CommandLine, sizeof(args->CommandLine), ...)]. *)
Definition put_command_line_field (args : Z) : M F unit :=
  let! line := get_command_line in
  if CommandLine_size =? 0 then ret tt
  else store_bytes (args + CommandLine_offset) (panthera_copy_ascii CommandLine_size line ++ [0]).

Definition fill_video (args : Z) : M F unit :=
  let! base := get_var gGopFrameBufferBase in
  if base =? 0 then ret tt
  else
    let! width := get_var gGopWidth in
    let! height := get_var gGopHeight in
    let! line := get_var gGopPixelsPerScanLine in
    put_field args V1_baseAddr (wrap 32 (Z.land base 0xffffffff)) >>
    put_field args V1_rowBytes (wrap 32 (line * 4)) >>
    put_field args V1_width width >>
    put_field args V1_height height >>
    put_field args V1_depth 32 >>
    put_field args V1_display 0 >>
    put_field args V_baseAddr base >>
    put_field args V_rowBytes (wrap 32 (line * 4)) >>
    put_field args V_width width >>
    put_field args V_height height >>
    put_field args V_depth 32 >>
    put_field args V_display 0.

Definition fill_header (args system_table_copy memory_map memory_map_size descriptor_size
    descriptor_version : Z) : M F unit :=
  zero_memory args sizeof_boot_args >>
  put_field args Revision kBootArgsRevision >>
  put_field args Version kBootArgsVersion >>
  put_field args efiMode kBootArgsEfiMode64 >>
  put_field args debugMode 0 >>
  put_field args flags 0 >>
  put_command_line_field args >>
  put_field args MemoryMap (wrap 32 memory_map) >>
  put_field args MemoryMapSize (wrap 32 memory_map_size) >>
  put_field args MemoryMapDescriptorSize (wrap 32 descriptor_size) >>
  put_field args MemoryMapDescriptorVersion descriptor_version >>
  (let! v := get_var gDeviceTreeBase in put_field args deviceTreeP (wrap 32 v)) >>
  (let! v := get_var gDeviceTreeSize in put_field args deviceTreeLength v) >>
  (let! v := get_var gKernelTextBase in put_field args kaddr (wrap 32 v)) >>
  (let! v := get_var gKernelReservedSize in put_field args ksize (wrap 32 v)) >>
  put_field args efiSystemTable (wrap 32 system_table_copy).

Definition fill_clock (args memory_map memory_map_size descriptor_size : Z) : M F unit :=
  let! m := get_mem in
  match panthera_compute_physical_memory_size m memory_map memory_map_size descriptor_size with
  | None => stuck
  | Some size =>
      put_field args PhysicalMemorySize size >>
      (let! v := get_var gFSBFrequencyHz in put_field args FSBFrequency v) >>
      put_field args pciConfigSpaceBaseAddress 0 >>
      put_field args pciConfigSpaceStartBusNumber 0 >>
      put_field args pciConfigSpaceEndBusNumber 0xff
  end.

Definition fill_runtime (args memory_map memory_map_size descriptor_size : Z) : M F unit :=
  let! m := get_mem in
  match runtime_ranges m memory_map memory_map_size descriptor_size with
  | None => stuck
  | Some (runtime_start, runtime_count) =>
      put_field args efiRuntimeServicesPageStart (wrap 32 runtime_start) >>
      put_field args efiRuntimeServicesPageCount runtime_count >>
      put_field args efiRuntimeServicesVirtualPageStart 0
  end.

Definition panthera_fill_boot_args (args system_table_copy memory_map memory_map_size
    descriptor_size descriptor_version : Z) : M F unit :=
  fill_header args system_table_copy memory_map memory_map_size descriptor_size
    descriptor_version >>
  fill_clock args memory_map memory_map_size descriptor_size >>
  fill_video args >>
  fill_runtime args memory_map memory_map_size descriptor_size.

(** ** The memory map *)
Definition get_memory_map (size buffer : Z) : M F map_reply :=
  let! r := call (GetMemoryMap size buffer)
              (fun r => if EFI_ERROR (mr_status r) then [] else [MapRead (mr_key r)]) in
  (if buffer =? 0 then ret tt else store_bytes buffer (mr_bytes r)) >> ret r.

Record map_info := mkMapInfo {
  mi_map : Z; mi_size : Z; mi_key : Z; mi_desc_size : Z; mi_desc_version : Z }.

Definition panthera_capture_memory_map : M F map_info :=
  let! r := get_memory_map 0 0 in
  if negb (mr_status r =? EFI_BUFFER_TOO_SMALL) then
    check (mr_status r) >> ret (mkMapInfo 0 0 (mr_key r) (mr_desc_size r) (mr_desc_version r))
  else
    let memory_map_capacity :=
      if PANTHERA_MEMORY_MAP_BUFFER_SIZE <? mr_size r then mr_size r
      else PANTHERA_MEMORY_MAP_BUFFER_SIZE in
    let! page_backed_map := panthera_allocate_buffer_pages memory_map_capacity in
    zero_memory page_backed_map memory_map_capacity >>
    let! r := get_memory_map memory_map_capacity page_backed_map in
    check (mr_status r) >>
    put_var gMemoryMapBase page_backed_map >>
    put_var gMemoryMapCapacity memory_map_capacity >>
    ret (mkMapInfo page_backed_map (mr_size r) (mr_key r) (mr_desc_size r) (mr_desc_version r)).

Definition panthera_refresh_memory_map (memory_map memory_map_capacity : Z) : M F map_info :=
  let! r := get_memory_map memory_map_capacity memory_map in
  check (mr_status r) >>
  ret (mkMapInfo memory_map (mr_size r) (mr_key r) (mr_desc_size r) (mr_desc_version r)).

(** ** The system table *)
Definition NumberOfTableEntries_offset : Z := 104.
Definition ConfigurationTable_offset : Z := 112.

Definition panthera_capture_system_table : M F Z :=
  let! m := get_mem in
  let config_table_bytes :=
    mread m (system_table + NumberOfTableEntries_offset) 8 *64 sizeof_EFI_CONFIGURATION_TABLE in
  let total_size := sizeof_EFI_SYSTEM_TABLE +64 config_table_bytes in
  let! buffer := panthera_allocate_buffer_pages total_size in
  copy_memory buffer system_table sizeof_EFI_SYSTEM_TABLE >>
  let copied_config_table := buffer +64 sizeof_EFI_SYSTEM_TABLE in
  (if config_table_bytes =? 0 then ret tt
   else
     let! m := get_mem in
     copy_memory copied_config_table (mread m (system_table + ConfigurationTable_offset) 8)
       config_table_bytes) >>
  (let! m := get_mem in
   put_mem (mwrite m (buffer + ConfigurationTable_offset) 8 copied_config_table)) >>
  ret buffer.

(** ** The handoff *)
Definition panthera_prepare_handoff_code : M F unit :=
  let template_size := Z.of_nat (length handoff_template) in
  let! code := panthera_allocate_buffer_pages template_size in
  put_var gHandoffCodeBase code >>
  zero_memory code template_size >>
  store_bytes code handoff_template >>
  (let! m := get_mem in put_mem (mwrite m (code + gdtr_offset + 2) 8 (code +64 gdt_offset))) >>
  put_var gHandoffCodeSize template_size.

Definition panthera_prepare_handoff_stack : M F unit :=
  let! stack := panthera_allocate_buffer_pages PANTHERA_HANDOFF_STACK_SIZE in
  put_var gHandoffStackBase stack >> zero_memory stack PANTHERA_HANDOFF_STACK_SIZE.

Definition panthera_compute_entry_physical_base (image : PantheraKernelImage) (image_base : Z) : Z :=
  if (entry_pc image <? lowest_vmaddr image) || (highest_vmaddr image <=? entry_pc image) then 0
  else image_base +64 (entry_pc image -64 lowest_vmaddr image).

(** Port output is part of the trace. *)
Definition port_event (e : event) : M F unit := call (fun fw => (tt, fw)) (fun _ => [e]).

Fixpoint panthera_debugcon_write_ascii (text : list Z) : M F unit :=
  match text with
  | [] => ret tt
  | c :: text' => port_event (DebugByte c) >> panthera_debugcon_write_ascii text'
  end.

(** After a successful ExitBootServices; the kernel does not return. *)
Definition enter_kernel (handoff_entry : Z) : M F unit :=
  panthera_debugcon_write_ascii (str "PANTHERA:EBS" ++ [10]) >>
  (let! base := get_var gGopFrameBufferBase in
   if base =? 0 then ret tt
   else port_event (PortWord 0x01ce 4) >> port_event (PortWord 0x01cf 0x41)) >>
  let! args := get_var gBootArgsBase in
  let! entry := get_var gKernelEntryBase in
  let! stack := get_var gHandoffStackBase in
  fun s => (Entered (mkHandoff handoff_entry (wrap 32 args) (wrap 32 entry)
                       (wrap 32 (stack +64 PANTHERA_HANDOFF_STACK_SIZE))), s).

(** The attempt loop with [n] attempts left; [status] is the last status. *)
Fixpoint exit_attempts (n : nat) (handoff_entry system_table_copy args memory_map status : Z)
  : M F unit :=
  match n with
  | O =>
      console_write_hex64 (str "ExitBootServices failed: ") status >> throw status
  | S n' =>
      let! capacity := get_var gMemoryMapCapacity in
      let! info := on_error (panthera_refresh_memory_map memory_map capacity)
        (fun st => console_write_hex64 (str "Final GetMemoryMap failed: ") st >> ret tt) in
      panthera_fill_boot_args args system_table_copy memory_map (mi_size info)
        (mi_desc_size info) (mi_desc_version info) >>
      let! status := call (ExitBootServices (mi_key info))
                       (fun st => [ExitTried (mi_key info) st]) in
      if negb (EFI_ERROR status) then enter_kernel handoff_entry
      else exit_attempts n' handoff_entry system_table_copy args memory_map status
  end.

Definition panthera_exit_boot_services_and_enter_kernel (system_table_copy args memory_map : Z)
  : M F unit :=
  let! handoff_entry := get_var gHandoffCodeBase in
  exit_attempts 4 handoff_entry system_table_copy args memory_map EFI_NOT_FOUND.

(** ** EfiMain *)
Definition line (text : string) : list Z := str text ++ crlf.

(** [console_write_hex64(...)] or a plain message on an error that is returned. *)
Definition or_hex {A} (label : string) (m : M F A) : M F A :=
  on_error m (fun st => console_write_hex64 (str label) st >> ret tt).
Definition or_line {A} (text : string) (m : M F A) : M F A :=
  on_error m (fun _ => console_write (line text) >> ret tt).
Definition show_hex (label : string) (v : Z) : M F unit :=
  console_write_hex64 (str label) v >> ret tt.
Definition show_uint (label : string) (v : Z) : M F unit :=
  console_write_uint64 (str label) v >> ret tt.

Definition greet : M F unit :=
  console_write (line "Panthera BOOTX64 scaffold loaded.") >>
  console_write (line "Kernel ABI source: xnu-10002.41.9/pexpert/pexpert/i386/boot.h") >>
  console_write (line "Kernel entry comes from LC_UNIXTHREAD in the Mach-O image, not a hard-coded symbol.") >>
  console_write (line "Loading mach_kernel from the staged EFI volume.") >>
  let! frequency := panthera_calibrate_tsc_frequency in
  put_var gFSBFrequencyHz frequency >>
  show_uint "Calibrated FSBFrequency: " frequency.

Definition query_framebuffer : M F unit :=
  let! (gs, gop) := call LocateProtocol (fun _ => []) in
  match EFI_ERROR gs, gop with
  | false, Some mode =>
      put_var gGopFrameBufferBase (FrameBufferBase mode) >>
      put_var gGopWidth (HorizontalResolution mode) >>
      put_var gGopHeight (VerticalResolution mode) >>
      put_var gGopPixelsPerScanLine (PixelsPerScanLine mode) >>
      console_write (line "Framebuffer configured.") >> ret tt
  | _, _ => console_write (line "WARNING: No GOP framebuffer.") >> ret tt
  end.

Definition parse_kernel (kernel_file kernel_file_size : Z) : M F unit :=
  let! m := get_mem in
  let! image := get_image in
  match panthera_parse_kernel_macho (file_at m kernel_file kernel_file_size) kernel_file_size
          (Some image) with
  | OutOfBounds => stuck
  | Parsed PANTHERA_LOADER_OK out => put_image out
  | Parsed st out =>
      put_image out >>
      console_write_hex64 (str "Kernel parse failed: ") (loader_status_code st) >>
      throw EFI_NOT_FOUND
  end.

Definition locate_text : M F unit :=
  let! image := get_image in
  let! image_base := get_var gKernelImageBase in
  match panthera_find_segment image (str "__TEXT") with
  | Some text_segment =>
      let base := panthera_segment_physical_base image image_base text_segment in
      put_var gKernelTextBase base >> show_hex "Kernel text physical base: " base
  | None =>
      console_write (line "Missing __TEXT segment in parsed kernel image.") >> throw EFI_NOT_FOUND
  end.

Definition locate_entry : M F unit :=
  let! image := get_image in
  let! image_base := get_var gKernelImageBase in
  let base := panthera_compute_entry_physical_base image image_base in
  put_var gKernelEntryBase base >>
  if base =? 0 then
    console_write (line "Kernel entry PC is outside the staged image span.") >>
    throw EFI_NOT_FOUND
  else show_hex "Kernel entry physical base: " base.

Definition check_low32 (x : gvar) (text : string) : M F unit :=
  let! v := get_var x in or_line text (panthera_ensure_low32 v).

(** From parsing the file to the checks on the staged image: on every error
    path the file buffer is freed. *)
Definition use_kernel_file (kernel_file kernel_file_size : Z) : M F unit :=
  parse_kernel kernel_file kernel_file_size >>
  (let! image := get_image in
   show_hex "Kernel entry PC: " (entry_pc image) >>
   show_uint "Kernel segment count: " (segment_count image)) >>
  or_hex "Kernel staging failed: " (panthera_stage_kernel_image kernel_file kernel_file_size) >>
  (let! v := get_var gKernelImageBase in show_hex "Kernel image physical base: " v) >>
  (let! v := get_var gKernelImageSize in show_uint "Kernel image physical size: " v) >>
  locate_text >>
  locate_entry >>
  check_low32 gKernelTextBase "Kernel text base is above 4GiB." >>
  check_low32 gKernelEntryBase "Kernel entry base is above 4GiB.".

Definition load_and_stage_kernel : M F unit :=
  let! (kernel_file, kernel_file_size) :=
    or_hex "Kernel load failed: " (panthera_try_load_kernel image_handle) in
  show_uint "Kernel file size: " kernel_file_size >>
  on_error (use_kernel_file kernel_file kernel_file_size)
    (fun _ => panthera_free_pool kernel_file) >>
  panthera_free_pool kernel_file.

Definition capture_firmware : M F (map_info * Z * Z) :=
  let! info := or_hex "GetMemoryMap failed: " panthera_capture_memory_map in
  show_uint "EFI memory map size: " (mi_size info) >>
  show_uint "EFI descriptor size: " (mi_desc_size info) >>
  show_hex "EFI map key: " (mi_key info) >>
  (let! v := get_var gMemoryMapBase in show_hex "EFI memory map base: " v) >>
  let! table := or_hex "System table copy failed: " panthera_capture_system_table in
  put_var gSystemTableBase table >>
  show_hex "EFI system table copy: " table >>
  check_low32 gSystemTableBase "EFI system table copy is above 4GiB." >>
  let! args := or_hex "boot_args allocation failed: " panthera_allocate_boot_args in
  put_var gBootArgsBase args >>
  check_low32 gBootArgsBase "boot_args allocation is above 4GiB." >>
  ret (info, table, args).

Definition stage_boot_data : M F unit :=
  or_hex "Boot args load failed: " (panthera_load_boot_command_line image_handle) >>
  or_hex "Boot kext staging failed: " (panthera_stage_boot_kexts image_handle) >>
  (let! v := get_var gBootKextCount in show_uint "Boot kext count: " v) >>
  or_hex "Device tree allocation failed: " panthera_build_synthetic_device_tree >>
  check_low32 gDeviceTreeBase "Device tree allocation is above 4GiB." >>
  (let! v := get_var gDeviceTreeBase in show_hex "Device tree physical base: " v) >>
  (let! v := get_var gDeviceTreeSize in show_uint "Device tree size: " v).

Definition prepare_handoff : M F unit :=
  or_hex "Handoff code allocation failed: " panthera_prepare_handoff_code >>
  (let! v := get_var gHandoffCodeBase in show_hex "Handoff code base: " v) >>
  (let! v := get_var gHandoffCodeSize in show_uint "Handoff code size: " v) >>
  check_low32 gHandoffCodeBase "Handoff code base is above 4GiB." >>
  or_hex "Handoff stack allocation failed: " panthera_prepare_handoff_stack >>
  (let! v := get_var gHandoffStackBase in show_hex "Handoff stack base: " v) >>
  (let! v := get_var gHandoffStackBase in
   or_line "Handoff stack top is above 4GiB."
     (panthera_ensure_low32 (v +64 PANTHERA_HANDOFF_STACK_SIZE))).

Definition show_boot_args (args : Z) : M F unit :=
  (let! v := get_var gDeviceTreeBase in put_field args deviceTreeP (wrap 32 v)) >>
  (let! v := get_var gDeviceTreeSize in put_field args deviceTreeLength v) >>
  (let! v := get_var gBootArgsBase in show_hex "boot_args physical base: " v) >>
  (let! v := get_field args MemoryMap in show_hex "boot_args MemoryMap: " v) >>
  (let! v := get_field args efiSystemTable in show_hex "boot_args efiSystemTable: " v) >>
  (let! v := get_field args PhysicalMemorySize in show_uint "boot_args PhysicalMemorySize: " v) >>
  (let! v := get_field args efiRuntimeServicesPageCount in
   show_uint "boot_args RuntimePageCount: " v) >>
  console_write (line "Attempting ExitBootServices and 32-bit pstart handoff.") >> ret tt.

Definition EfiMain : M F unit :=
  greet >>
  query_framebuffer >>
  load_and_stage_kernel >>
  let! (info, system_table_copy, args) := capture_firmware in
  stage_boot_data >>
  prepare_handoff >>
  panthera_fill_boot_args args system_table_copy (mi_map info) (mi_size info)
    (mi_desc_size info) (mi_desc_version info) >>
  show_boot_args args >>
  panthera_exit_boot_services_and_enter_kernel system_table_copy args (mi_map info).
End Boot.
