(* ===== verification/BootArgs.v ===== *)
(** * The boot arguments and the memory map: boot/efi/loader/src/bootx64.c

    The loops over the firmware's memory map and the record the kernel reads. *)

From Stdlib Require Import ZArith Lia Ascii String.
From stdpp Require Import base list gmap relations.
From S2P Require Import Prelude MachO Rebase BootText KextManifest Efi BootLogic Sim Loading DeviceTree Stage BootMain.

Open Scope Z_scope.

(** ** Descriptors *)
Section Descriptors.
Context `{BootABI}.

(** The addresses of [n] descriptors. *)
Definition descriptors (memory_map descriptor_size : Z) (n : nat) : list Z :=
  (fun i => memory_map + Z.of_nat i * descriptor_size) <$> seq 0 n.

Definition range_end (m : mem) (range : Z) : Z :=
  range_start m range +64 wrap 64 (Z.shiftl (range_pages m range) 12).

Definition is_runtime (m : mem) (range : Z) : bool :=
  negb (Z.land (range_attribute m range) EFI_MEMORY_RUNTIME =? 0).

(** The largest end of a range. *)
Definition highest_end (m : mem) (rs : list Z) : Z := foldr (fun r h => Z.max (range_end m r) h) 0 rs.

(** The pages of the runtime ranges. *)
Definition runtime_pages (m : mem) (rs : list Z) : Z :=
  foldr (fun r k => (if is_runtime m r then range_pages m r else 0) + k) 0 rs.

Lemma descriptors_S map ds n :
  descriptors map ds (S n) = descriptors map ds n ++ [map + Z.of_nat n * ds].
Proof. unfold descriptors. rewrite seq_S, fmap_app. done. Qed.

Lemma highest_end_snoc m rs r : 0 <= highest_end m rs /\
  highest_end m (rs ++ [r]) = Z.max (highest_end m rs) (range_end m r).
Proof.
  unfold highest_end. induction rs as [|x rs IH]; cbn.
  - split; [lia|]. pose proof (wrap_64_range (range_start m r + wrap 64 (Z.shiftl (range_pages m r) 12))).
    unfold range_end. lia.
  - lia.
Qed.

Lemma runtime_pages_snoc m rs r :
  runtime_pages m (rs ++ [r]) = runtime_pages m rs + (if is_runtime m r then range_pages m r else 0).
Proof.
  unfold runtime_pages. induction rs as [|x rs IH]; cbn [foldr app]; [ring|]. rewrite IH. ring.
Qed.

Section Map.
Variables (m : mem) (memory_map descriptor_size : Z) (n : nat).
Hypothesis size_pos : 0 < descriptor_size.
Hypothesis map_fits : 0 <= memory_map /\ memory_map + Z.of_nat n * descriptor_size < 2 ^ 64.

(** After [k] descriptors. *)
Lemma end_exact : memory_map +64 Z.of_nat n * descriptor_size = memory_map + Z.of_nat n * descriptor_size.
Proof. apply wrap_small. nia. Qed.

Lemma memory_size_loop :
  panthera_compute_physical_memory_size m memory_map (Z.of_nat n * descriptor_size) descriptor_size =
  Some (highest_end m (descriptors memory_map descriptor_size n)).
Proof.
  unfold panthera_compute_physical_memory_size. rewrite end_exact.
  apply (while_rule _
    (fun s => exists k : nat, (k <= n)%nat /\ s = (memory_map + Z.of_nat k * descriptor_size,
        highest_end m (descriptors memory_map descriptor_size k)))
    (fun s => memory_map + Z.of_nat n * descriptor_size - s.1)).
  - intros [c h] (k & Hk & E). injection E as -> ->. unfold memory_size_step.
    destruct (Z.ltb_spec (memory_map + Z.of_nat k * descriptor_size)
                (memory_map + Z.of_nat n * descriptor_size)) as [Hlt|Hge].
    + assert (Hkn : (k < n)%nat) by nia.
      assert (Ew : (memory_map + Z.of_nat k * descriptor_size) +64 descriptor_size =
                   memory_map + Z.of_nat (S k) * descriptor_size).
      { rewrite wrap_small by nia. lia. }
      rewrite Ew. cbn [fst]. split; [|nia]. exists (S k). split; [lia|]. f_equal.
      rewrite descriptors_S. destruct (highest_end_snoc m (descriptors memory_map descriptor_size k)
        (memory_map + Z.of_nat k * descriptor_size)) as [_ ->].
      fold (range_end m (memory_map + Z.of_nat k * descriptor_size)).
      destruct (Z.ltb_spec (highest_end m (descriptors memory_map descriptor_size k))
        (range_end m (memory_map + Z.of_nat k * descriptor_size))); lia.
    + by replace k with n by nia.
  - exists 0%nat. split; [lia|]. cbn. f_equal. lia.
  - intros [c h] (k & Hk & E). injection E as -> ->. cbn. nia.
  - cbn [fst]. unfold rounds64. nia.
Qed.

Lemma runtime_loop :
  exists start,
    runtime_ranges m memory_map (Z.of_nat n * descriptor_size) descriptor_size =
      Some (start, wrap 32 (runtime_pages m (descriptors memory_map descriptor_size n))) /\
    (start = 0 \/ exists r, r ∈ descriptors memory_map descriptor_size n /\
       is_runtime m r = true /\ start = Z.shiftr (range_start m r) 12).
Proof.
  set (ds := descriptors memory_map descriptor_size).
  set (Start := fun k start => start = 0 \/ exists r, r ∈ ds k /\ is_runtime m r = true /\
    start = Z.shiftr (range_start m r) 12).
  unfold runtime_ranges. rewrite end_exact.
  apply (while_rule _
    (fun s => exists (k : nat) start, (k <= n)%nat /\ Start k start /\
       s = (memory_map + Z.of_nat k * descriptor_size, start, wrap 32 (runtime_pages m (ds k))))
    (fun s => memory_map + Z.of_nat n * descriptor_size - s.1.1)
    (fun r => exists start, r = Some (start, wrap 32 (runtime_pages m (ds n))) /\ Start n start)).
  - intros [[c st] k'] (k & start & Hk & Hst & E). injection E as -> -> ->. unfold runtime_step.
    set (cur := memory_map + Z.of_nat k * descriptor_size).
    destruct (Z.ltb_spec cur (memory_map + Z.of_nat n * descriptor_size)) as [Hlt|Hge].
    + assert (Hkn : (k < n)%nat) by nia.
      assert (Ew : cur +64 descriptor_size = memory_map + Z.of_nat (S k) * descriptor_size).
      { unfold cur. rewrite wrap_small by nia. lia. }
      assert (Ed : ds (S k) = ds k ++ [cur]) by apply descriptors_S.
      assert (Hst' : Start (S k) start).
      { destruct Hst as [|(r & Hr & ?)]; [by left|]. right. exists r. rewrite Ed. set_solver. }
      fold (is_runtime m cur). rewrite Ew. pose proof (runtime_pages_snoc m (ds k) cur) as Es.
      destruct (is_runtime m cur) eqn:Er; cbn [fst]; (split; [|nia]).
      * exists (S k), (if wrap 32 (runtime_pages m (ds k)) =? 0
                       then Z.shiftr (range_start m cur) 12 else start).
        split; [lia|]. split; [|by rewrite Ed, Es, wrap_add_l, wrap_add_r].
        case_match; [|exact Hst']. right. exists cur. rewrite Ed. set_solver.
      * exists (S k), start. split; [lia|]. split; [done|]. by rewrite Ed, Es, Z.add_0_r.
    + exists start. by replace k with n in * by nia.
  - exists 0%nat, 0. split; [lia|]. split; [by left|]. cbn. f_equal. f_equal. lia.
  - intros [[c h] k'] (k & start & Hk & _ & E). injection E as -> -> ->. cbn. nia.
  - cbn [fst]. unfold rounds64. nia.
Qed.
End Map.
End Descriptors.

(** Over a firmware memory map of [n] descriptors inside the address space
    both loops end. The physical memory size is the largest end of a range, and
    the runtime page count is the number of pages of the ranges marked runtime,
    modulo 2^32; the runtime start is a page number of one of them. *)
Theorem memory_map_summary `{BootABI} (m : mem) (memory_map descriptor_size : Z) (n : nat) :
  0 < descriptor_size -> 0 <= memory_map /\ memory_map + Z.of_nat n * descriptor_size < 2 ^ 64 ->
  let rs := descriptors memory_map descriptor_size n in
  panthera_compute_physical_memory_size m memory_map (Z.of_nat n * descriptor_size) descriptor_size =
    Some (highest_end m rs) /\
  exists start,
    runtime_ranges m memory_map (Z.of_nat n * descriptor_size) descriptor_size =
      Some (start, wrap 32 (runtime_pages m rs)) /\
    (start = 0 \/ exists r, r ∈ rs /\ is_runtime m r = true /\ start = Z.shiftr (range_start m r) 12).
Proof. intros Hs Hm rs. split; [by apply memory_size_loop|by apply runtime_loop]. Qed.

(** ** A concrete layout

    A 4096-byte record to evaluate the theorems on, with a short stand-in for the
    assembled handoff code. *)
Definition xnu_offset (f : ba_field) : Z :=
  match f with
  | Revision => 0 | Version => 2 | efiMode => 4 | debugMode => 5 | flags => 6
  | MemoryMap => 1032 | MemoryMapSize => 1036 | MemoryMapDescriptorSize => 1040
  | MemoryMapDescriptorVersion => 1044
  | V1_baseAddr => 1048 | V1_display => 1052 | V1_rowBytes => 1056 | V1_width => 1060
  | V1_height => 1064 | V1_depth => 1068
  | deviceTreeP => 1072 | deviceTreeLength => 1076 | kaddr => 1080 | ksize => 1084
  | efiRuntimeServicesPageStart => 1088 | efiRuntimeServicesPageCount => 1092
  | efiRuntimeServicesVirtualPageStart => 1096 | efiSystemTable => 1104
  | PhysicalMemorySize => 1144 | FSBFrequency => 1152
  | pciConfigSpaceBaseAddress => 1160 | pciConfigSpaceStartBusNumber => 1168
  | pciConfigSpaceEndBusNumber => 1172
  | V_display => 1192 | V_rowBytes => 1196 | V_width => 1200 | V_height => 1204 | V_depth => 1208
  | V_baseAddr => 1240
  end.

Definition xnu_size (f : ba_field) : nat :=
  match f with
  | Revision | Version | flags => 2
  | efiMode | debugMode => 1
  | efiRuntimeServicesVirtualPageStart | PhysicalMemorySize | FSBFrequency
  | pciConfigSpaceBaseAddress | V_baseAddr => 8
  | _ => 4
  end.

#[export] Instance xnu_abi : BootABI := {|
  sizeof_boot_args := 4096; ba_offset := xnu_offset; ba_size := xnu_size;
  CommandLine_offset := 8; CommandLine_size := 1024;
  PhysicalStart_offset := 8; NumberOfPages_offset := 24; Attribute_offset := 32;
  kBootArgsRevision := 0; kBootArgsVersion := 2; kBootArgsEfiMode64 := 64;
  handoff_template := repeat 0x90 64; gdtr_offset := 16; gdt_offset := 32 |}.

Definition sample_map : mem := mstore ∅ 0x1000 sim_descriptors.

Lemma memory_map_summary_witness :
  panthera_compute_physical_memory_size sample_map 0x1000 96 48 = Some 0x8010000 /\
  runtime_ranges sample_map 0x1000 96 48 = Some (0x8000, 16).
Proof.
  destruct (memory_map_summary sample_map 0x1000 48 2 ltac:(lia) ltac:(lia)) as [H1 (st & H2 & _)].
  split.
  - etrans; [exact H1|]. vm_compute. reflexivity.
  - vm_compute. reflexivity.
Defined.

(** ** Laws of a layout *)
Class LawfulABI `{BootABI} := {
  ba_inside f : 0 <= ba_offset f /\ ba_offset f + Z.of_nat (ba_size f) <= sizeof_boot_args;
  ba_apart f g : f <> g ->
    ba_offset f + Z.of_nat (ba_size f) <= ba_offset g \/ ba_offset g + Z.of_nat (ba_size g) <= ba_offset f;
  line_inside : 0 <= CommandLine_offset /\ 0 < CommandLine_size /\
    CommandLine_offset + CommandLine_size <= sizeof_boot_args;
  line_apart f : ba_offset f + Z.of_nat (ba_size f) <= CommandLine_offset \/
    CommandLine_offset + CommandLine_size <= ba_offset f;
  boot_args_small : sizeof_boot_args <= 2 ^ 32;
  ba_word f : f ∈ [deviceTreeP; deviceTreeLength; kaddr; ksize] -> ba_size f = 4%nat;
  range_inside : 0 <= PhysicalStart_offset <= 32 /\ 0 <= NumberOfPages_offset <= 32 /\
    0 <= Attribute_offset <= 32;
  template_bytes : Forall byte handoff_template;
  gdtr_inside : 0 <= gdtr_offset /\ gdtr_offset + 10 <= Z.of_nat (length handoff_template);
  template_small : Z.of_nat (length handoff_template) <= 2 ^ 32
}.

#[export] Instance xnu_lawful : LawfulABI.
Proof.
  constructor; cbn.
  - intros []; cbn; lia.
  - intros [] []; cbn; try lia; done.
  - lia.
  - intros []; cbn; lia.
  - lia.
  - intros f Hf. repeat (apply elem_of_cons in Hf as [->|Hf]; [done|]). by apply elem_of_nil in Hf.
  - lia.
  - apply (bool_decide_unpack _). vm_compute. exact I.
  - lia.
  - lia.
Qed.

(** ** Writing fields *)
Section Fields.
Context `{LawfulABI}.
Variable args : Z.

Definition field_at (m : mem) (f : ba_field) : Z := mread m (args + ba_offset f) (ba_size f).

Definition write_field (m : mem) (fv : ba_field * Z) : mem :=
  mwrite m (args + ba_offset fv.1) (ba_size fv.1) fv.2.

Definition write_fields (m : mem) (l : list (ba_field * Z)) : mem := foldl write_field m l.

Lemma write_fields_app m l k : write_fields (write_fields m l) k = write_fields m (l ++ k).
Proof. unfold write_fields. by rewrite foldl_app. Qed.

Lemma field_at_write m g v f :
  field_at (write_field m (g, v)) f =
  if decide (f = g) then v mod 256 ^ Z.of_nat (ba_size f) else field_at m f.
Proof.
  unfold field_at, write_field. cbn. case_decide as E.
  - subst. apply mread_mwrite.
  - apply mread_mwrite_disjoint. destruct (ba_apart f g E); lia.
Qed.

Lemma field_at_other l m f : f ∉ l.*1 -> field_at (write_fields m l) f = field_at m f.
Proof.
  revert m. induction l as [|[g v] l IH]; intros m Hf; [done|]. cbn in *.
  rewrite IH by set_solver. rewrite field_at_write, decide_False; [done|set_solver].
Qed.

Lemma field_at_in l m f v :
  NoDup l.*1 -> (f, v) ∈ l -> field_at (write_fields m l) f = v mod 256 ^ Z.of_nat (ba_size f).
Proof.
  revert m. induction l as [|[g w] l IH]; intros m Hn Hi; [by apply elem_of_nil in Hi|].
  cbn in Hn. apply NoDup_cons in Hn as [Hg Hn]. cbn. apply elem_of_cons in Hi as [E|Hi].
  - injection E as <- <-. rewrite field_at_other by done. by rewrite field_at_write, decide_True.
  - by apply IH.
Qed.

Lemma only_in_write_field m fv : only_in args sizeof_boot_args m (write_field m fv).
Proof.
  destruct fv as [f v]. pose proof (ba_inside f).
  eapply only_in_weaken; [apply only_in_mwrite| |]; cbn; lia.
Qed.

Lemma only_in_write_fields l m : only_in args sizeof_boot_args m (write_fields m l).
Proof.
  revert m. induction l as [|fv l IH]; intros m; [apply only_in_refl|].
  eapply only_in_trans; [apply only_in_write_field|apply IH].
Qed.

Lemma field_at_store m bs f :
  Z.of_nat (length bs) <= CommandLine_size ->
  field_at (mstore m (args + CommandLine_offset) bs) f = field_at m f.
Proof.
  intros Hl. unfold field_at. apply mread_ext. intros b Hb. apply mget_mstore_out.
  destruct (line_apart f); lia.
Qed.

Lemma line_write_fields m l bs :
  Z.of_nat (length bs) <= CommandLine_size ->
  holds m (args + CommandLine_offset) bs -> holds (write_fields m l) (args + CommandLine_offset) bs.
Proof.
  intros Hl. revert m. induction l as [|[f v] l IH]; intros m Hh; [done|]. apply IH.
  eapply holds_only_in; [apply only_in_mwrite| |done]. destruct (line_apart f); cbn; lia.
Qed.

Lemma wf_write_fields l m : mem_wf m -> mem_wf (write_fields m l).
Proof.
  revert m. induction l as [|[f v] l IH]; intros m Hm; [done|]. apply IH. by apply mem_wf_mwrite.
Qed.
End Fields.

(** ** The fields the loader fills, in its order *)
Section Filled.
Context `{BootABI}.
Variables (V : gvar -> Z) (table map size dsize dver phys rt_start rt_count : Z).

Definition version_fields : list (ba_field * Z) :=
  [(Revision, kBootArgsRevision); (Version, kBootArgsVersion); (efiMode, kBootArgsEfiMode64);
   (debugMode, 0); (flags, 0)].

Definition header_fields : list (ba_field * Z) :=
  [(MemoryMap, wrap 32 map); (MemoryMapSize, wrap 32 size);
   (MemoryMapDescriptorSize, wrap 32 dsize); (MemoryMapDescriptorVersion, dver);
   (deviceTreeP, wrap 32 (V gDeviceTreeBase)); (deviceTreeLength, V gDeviceTreeSize);
   (kaddr, wrap 32 (V gKernelTextBase)); (ksize, wrap 32 (V gKernelReservedSize));
   (efiSystemTable, wrap 32 table)].

Definition clock_fields : list (ba_field * Z) :=
  [(PhysicalMemorySize, phys); (FSBFrequency, V gFSBFrequencyHz);
   (pciConfigSpaceBaseAddress, 0); (pciConfigSpaceStartBusNumber, 0);
   (pciConfigSpaceEndBusNumber, 0xff)].

Definition video_fields : list (ba_field * Z) :=
  if V gGopFrameBufferBase =? 0 then []
  else
    [(V1_baseAddr, wrap 32 (Z.land (V gGopFrameBufferBase) 0xffffffff));
     (V1_rowBytes, wrap 32 (V gGopPixelsPerScanLine * 4)); (V1_width, V gGopWidth);
     (V1_height, V gGopHeight); (V1_depth, 32); (V1_display, 0);
     (V_baseAddr, V gGopFrameBufferBase); (V_rowBytes, wrap 32 (V gGopPixelsPerScanLine * 4));
     (V_width, V gGopWidth); (V_height, V gGopHeight); (V_depth, 32); (V_display, 0)].

Definition runtime_fields : list (ba_field * Z) :=
  [(efiRuntimeServicesPageStart, wrap 32 rt_start); (efiRuntimeServicesPageCount, rt_count);
   (efiRuntimeServicesVirtualPageStart, 0)].

Definition boot_fields : list (ba_field * Z) :=
  version_fields ++ header_fields ++ clock_fields ++ video_fields ++ runtime_fields.

Lemma boot_fields_nodup : NoDup boot_fields.*1.
Proof.
  unfold boot_fields, video_fields. destruct (V gGopFrameBufferBase =? 0);
    apply (bool_decide_unpack _); vm_compute; exact I.
Qed.
End Filled.

(** ** The run of panthera_fill_boot_args *)
Section Fill.
Context {F : Type} `{Firmware F} `{LawfulABI}.

Definition line_bytes (line : list Z) : list Z := panthera_copy_ascii CommandLine_size line ++ [0].

Lemma line_bytes_length line : Z.of_nat (length (line_bytes line)) <= CommandLine_size.
Proof.
  pose proof line_inside. unfold line_bytes, panthera_copy_ascii. rewrite length_app. cbn.
  destruct (copy_ascii_bound CommandLine_size 0 line); lia.
Qed.

Definition header_mem (args table map size dsize dver : Z) (s : boot_state F) : mem :=
  write_fields args
    (mstore (write_fields args (panthera_zero_memory (b_mem s) args sizeof_boot_args) version_fields)
       (args + CommandLine_offset) (line_bytes (gBootCommandLine s)))
    (header_fields (b_vars s) table map size dsize dver).

Lemma fill_header_run args table map size dsize dver (s : boot_state F) :
  fill_header args table map size dsize dver s =
  (Ok tt, set_mem s (header_mem args table map size dsize dver s)).
Proof.
  unfold fill_header, put_command_line_field.
  pose proof line_inside as (_ & Hl & _).
  unfold bind, zero_memory, put_field, get_command_line, store_bytes, bind, get_mem, put_mem, get_var.
  rewrite (proj2 (Z.eqb_neq CommandLine_size 0)) by lia. reflexivity.
Qed.

Lemma fill_video_run args (s : boot_state F) :
  fill_video args s = (Ok tt, set_mem s (write_fields args (b_mem s) (video_fields (b_vars s)))).
Proof.
  unfold fill_video, video_fields, bind, get_var. destruct (b_vars s gGopFrameBufferBase =? 0).
  - by destruct s.
  - reflexivity.
Qed.

Lemma fill_boot_args_run args table map size dsize dver (s : boot_state F) :
  let m1 := header_mem args table map size dsize dver s in
  panthera_fill_boot_args args table map size dsize dver s =
  match panthera_compute_physical_memory_size m1 map size dsize with
  | None => (Stuck, set_mem s m1)
  | Some phys =>
      let m2 := write_fields args (write_fields args m1 (clock_fields (b_vars s) phys))
                  (video_fields (b_vars s)) in
      match runtime_ranges m2 map size dsize with
      | None => (Stuck, set_mem s m2)
      | Some (st, n) => (Ok tt, set_mem s (write_fields args m2 (runtime_fields st n)))
      end
  end.
Proof.
  intros m1. unfold panthera_fill_boot_args, bind at 1. rewrite fill_header_run. fold m1.
  unfold bind at 1. unfold fill_clock at 1, bind at 1, get_mem at 1. cbn [b_mem set_mem].
  destruct (panthera_compute_physical_memory_size m1 map size dsize) as [phys|]; [|reflexivity].
  set (m1c := write_fields args m1 (clock_fields (b_vars s) phys)).
  match goal with |- match ?m with _ => _ end = _ =>
    change m with (Ok tt, set_mem s m1c) end. cbv iota beta.
  unfold bind at 1. rewrite fill_video_run. cbn [b_mem b_vars set_mem].
  unfold fill_runtime, bind at 1, get_mem at 1. cbn [b_mem set_mem].
  destruct (runtime_ranges _ map size dsize) as [[st n]|]; reflexivity.
Qed.

(** The memory map lies outside the boot arguments, and each descriptor holds the
    fields the loader reads. *)
Definition map_outside (args map dsize : Z) (n : nat) : Prop :=
  (map + Z.of_nat n * dsize <= args \/ args + sizeof_boot_args <= map) /\
  0 <= PhysicalStart_offset /\ PhysicalStart_offset + 8 <= dsize /\
  0 <= NumberOfPages_offset /\ NumberOfPages_offset + 8 <= dsize /\
  0 <= Attribute_offset /\ Attribute_offset + 8 <= dsize.

Lemma descriptor_bounds map dsize n r :
  0 < dsize -> r ∈ descriptors map dsize n -> map <= r /\ r + dsize <= map + Z.of_nat n * dsize.
Proof.
  intros Hd Hr. apply list_elem_of_fmap in Hr as (i & -> & Hi). apply elem_of_seq in Hi. nia.
Qed.

Lemma map_reads args map dsize n m m' r :
  0 < dsize -> map_outside args map dsize n -> only_in args sizeof_boot_args m m' ->
  r ∈ descriptors map dsize n ->
  range_start m' r = range_start m r /\ range_pages m' r = range_pages m r /\
  range_attribute m' r = range_attribute m r.
Proof.
  intros Hd (Ho & Hoff) Hi Hr. pose proof (descriptor_bounds _ _ _ _ Hd Hr).
  unfold range_start, range_pages, range_attribute.
  split_and!; (eapply mread_only_in; [exact Hi|lia]).
Qed.

Lemma summary_only_in args map dsize n m m' :
  0 < dsize -> map_outside args map dsize n -> only_in args sizeof_boot_args m m' ->
  let rs := descriptors map dsize n in
  highest_end m' rs = highest_end m rs /\ runtime_pages m' rs = runtime_pages m rs /\
  (forall r, r ∈ rs -> is_runtime m' r = is_runtime m r /\ range_start m' r = range_start m r).
Proof.
  intros Hd Ho Hi rs.
  assert (Hr : forall r, r ∈ rs -> range_end m' r = range_end m r /\ is_runtime m' r = is_runtime m r /\
    range_pages m' r = range_pages m r /\ range_start m' r = range_start m r).
  { intros r Hr. unfold range_end, is_runtime.
    destruct (map_reads args map dsize n m m' r Hd Ho Hi Hr) as (-> & -> & ->). done. }
  clearbody rs. unfold highest_end, runtime_pages. split_and!;
    [| |intros r Hin; destruct (Hr r Hin) as (_ & ? & _ & ?); done].
  - induction rs as [|r rs IH]; [done|]. cbn. rewrite IH by (intros; apply Hr; set_solver).
    destruct (Hr r ltac:(set_solver)) as (-> & _). done.
  - induction rs as [|r rs IH]; [done|]. cbn [foldr]. rewrite IH by (intros; apply Hr; set_solver).
    destruct (Hr r ltac:(set_solver)) as (_ & -> & -> & _). done.
Qed.

Lemma header_mem_only_in args table map size dsize dver s :
  only_in args sizeof_boot_args (b_mem s) (header_mem args table map size dsize dver s).
Proof.
  unfold header_mem. eapply only_in_trans; [apply only_in_zero|].
  eapply only_in_trans; [apply only_in_write_fields|].
  eapply only_in_trans; [|apply only_in_write_fields].
  pose proof line_inside. pose proof (line_bytes_length (gBootCommandLine s)).
  eapply only_in_weaken; [apply only_in_mstore|lia|lia].
Qed.

(** All writes: what the fields read afterwards. *)
Lemma all_fields args table map size dsize dver phys st k (s : boot_state F) f v :
  let V := b_vars s in
  let m := write_fields args (write_fields args (write_fields args
             (header_mem args table map size dsize dver s) (clock_fields V phys)) (video_fields V))
             (runtime_fields st k) in
  (f, v) ∈ boot_fields V table map size dsize dver phys st k ->
  field_at args m f = v mod 256 ^ Z.of_nat (ba_size f).
Proof.
  intros V m Hin.
  pose proof (boot_fields_nodup V table map size dsize dver phys st k) as Hn.
  unfold m, header_mem. fold V. set (stored := mstore _ _ _).
  rewrite !(write_fields_app args stored), <- !(assoc_L (++)).
  unfold boot_fields in Hin, Hn. set (late := header_fields _ _ _ _ _ _ ++ _) in *.
  rewrite fmap_app in Hn. apply NoDup_app in Hn as (Hn1 & Hd & Hn2).
  apply elem_of_app in Hin as [Hin|Hin]; [|by apply field_at_in].
  rewrite field_at_other.
  - unfold stored. rewrite field_at_store by apply line_bytes_length. by apply field_at_in.
  - apply Hd. apply (list_elem_of_fmap_2 fst) in Hin. exact Hin.
Qed.
End Fill.

Lemma fill_boot_args_ok {F} `{Firmware F} `{LawfulABI} (args table map dsize dver : Z) (n : nat)
    (s : boot_state F) :
  0 < dsize -> 0 <= map /\ map + Z.of_nat n * dsize < 2 ^ 64 -> map_outside args map dsize n ->
  Forall byte (gBootCommandLine s) ->
  let rs := descriptors map dsize n in
  exists m' start,
    panthera_fill_boot_args args table map (Z.of_nat n * dsize) dsize dver s = (Ok tt, set_mem s m') /\
    only_in args sizeof_boot_args (b_mem s) m' /\
    holds m' (args + CommandLine_offset) (panthera_copy_ascii CommandLine_size (gBootCommandLine s) ++ [0]) /\
    (start = 0 \/ exists r, r ∈ rs /\ is_runtime (b_mem s) r = true /\
       start = Z.shiftr (range_start (b_mem s) r) 12) /\
    forall f v,
      (f, v) ∈ boot_fields (b_vars s) table map (Z.of_nat n * dsize) dsize dver
                 (highest_end (b_mem s) rs) start (wrap 32 (runtime_pages (b_mem s) rs)) ->
      field_at args m' f = v mod 256 ^ Z.of_nat (ba_size f).
Proof.
  intros Hd Hm Ho Hb rs. set (size := Z.of_nat n * dsize).
  rewrite (fill_boot_args_run args table map size dsize dver s).
  pose proof (header_mem_only_in args table map size dsize dver s) as O1.
  set (m1 := header_mem args table map size dsize dver s) in *.
  rewrite (memory_size_loop m1 map dsize n Hd Hm).
  destruct (summary_only_in args map dsize n _ _ Hd Ho O1) as (-> & _ & _). fold rs.
  set (m2 := write_fields args (write_fields args m1 _) _).
  assert (O2 : only_in args sizeof_boot_args (b_mem s) m2).
  { eapply only_in_trans; [exact O1|]. eapply only_in_trans; apply only_in_write_fields. }
  destruct (runtime_loop m2 map dsize n Hd Hm) as (start & Er & Hst). fold size in Er. cbv zeta.
  rewrite Er. clear Er.
  destruct (summary_only_in args map dsize n _ _ Hd Ho O2) as (_ & -> & Hr). fold rs in Hst, Hr |- *.
  eexists _, start. split; [reflexivity|]. split_and!.
  - eapply only_in_trans; [exact O2|apply only_in_write_fields].
  - do 4 (apply line_write_fields; [apply line_bytes_length|]). apply holds_mstore.
    apply Forall_app. split; [|by repeat constructor].
    pose proof line_inside. apply (copy_ascii_bound CommandLine_size 0 (gBootCommandLine s)); [lia|done].
  - destruct Hst as [|(r & Hin & Hrt & E)]; [by left|]. right. exists r. destruct (Hr r Hin) as [E1 E2].
    by rewrite <- E1, <- E2.
  - intros f v Hin. by apply all_fields.
Qed.

(** C16. Filling the boot arguments over a memory map of [n] descriptors that lies
    outside them returns, and changes nothing else: every field the loader assigns
    reads back as the value of the corresponding variable, truncated to the
    field's width, with the physical memory size and the runtime pages of the
    memory map, and the command line is there with its NUL. *)
Theorem boot_args_filled {F} `{Firmware F} `{LawfulABI} (args table map dsize dver : Z) (n : nat)
    (s : boot_state F) :
  0 < dsize -> 0 <= map /\ map + Z.of_nat n * dsize < 2 ^ 64 -> map_outside args map dsize n ->
  Forall byte (gBootCommandLine s) ->
  let rs := descriptors map dsize n in
  exists m' start,
    panthera_fill_boot_args args table map (Z.of_nat n * dsize) dsize dver s = (Ok tt, set_mem s m') /\
    only_in args sizeof_boot_args (b_mem s) m' /\
    holds m' (args + CommandLine_offset) (panthera_copy_ascii CommandLine_size (gBootCommandLine s) ++ [0]) /\
    (start = 0 \/ exists r, r ∈ rs /\ is_runtime (b_mem s) r = true /\
       start = Z.shiftr (range_start (b_mem s) r) 12) /\
    forall f v,
      (f, v) ∈ boot_fields (b_vars s) table map (Z.of_nat n * dsize) dsize dver
                 (highest_end (b_mem s) rs) start (wrap 32 (runtime_pages (b_mem s) rs)) ->
      field_at args m' f = v mod 256 ^ Z.of_nat (ba_size f).
Proof. apply fill_boot_args_ok. Qed.

(** The memory map at 0x1000 and the boot arguments at 0x200000. *)
Definition args_boot : boot_state sim :=
  set_command_line
    (set_var (set_var (mkBoot sample_map (sim_start 0) [] (fun _ => 0) (initial_image 0) [] [])
       gDeviceTreeBase 0x300000) gFSBFrequencyHz 100000000) (str "serial=3").

Lemma boot_args_filled_witness :
  exists m', panthera_fill_boot_args 0x200000 0x400000 0x1000 96 48 1 args_boot = (Ok tt, set_mem args_boot m') /\
    field_at 0x200000 m' PhysicalMemorySize = 0x8010000 /\
    field_at 0x200000 m' deviceTreeP = 0x300000 /\
    field_at 0x200000 m' pciConfigSpaceEndBusNumber = 0xff.
Proof.
  destruct (boot_args_filled 0x200000 0x400000 0x1000 48 1 2 args_boot) as (m' & st & E & _ & _ & _ & Hf).
  - lia.
  - lia.
  - unfold map_outside. cbn. lia.
  - apply (bool_decide_unpack _). vm_compute. exact I.
  - exists m'. split; [exact E|]. clear E.
    split_and!.
    + etrans; [apply (Hf PhysicalMemorySize)|].
      * unfold boot_fields. rewrite !elem_of_app. right; right; left. left.
      * vm_compute. reflexivity.
    + etrans; [apply (Hf deviceTreeP)|].
      * unfold boot_fields. rewrite !elem_of_app. right; left. do 4 right. left.
      * vm_compute. reflexivity.
    + etrans; [apply (Hf pciConfigSpaceEndBusNumber)|].
      * unfold boot_fields. rewrite !elem_of_app. right; right; left. do 4 right. left.
      * vm_compute. reflexivity.
Defined.
