(* ===== verification/Handoff.v ===== *)
(** * Entering the kernel: boot/efi/loader/src/bootx64.c

    How the whole boot sequence [EfiMain] leaves boot services: the events that
    each phase may add to the trace, and the exit protocol on every firmware. *)

From Stdlib Require Import ZArith Lia Ascii String.
From stdpp Require Import base list gmap relations.
From S2P Require Import Prelude MachO Rebase BootText KextManifest Efi BootLogic Sim Loading DeviceTree Stage KernelImage BootMain BootArgs.

Open Scope Z_scope.

(** ** Traces *)
Section Traced.
Context {F : Type}.
Variable Q : event -> Prop.

(** The events added to the trace satisfy [Q]. *)
Definition traced : relation (boot_state F) := fun s s' =>
  exists es, b_trace s' = es ++ b_trace s /\ Forall Q es.

#[export] Instance traced_preorder : PreOrder traced.
Proof.
  split; [by intros s; exists []|]. intros s1 s2 s3 (e1 & E1 & F1) (e2 & E2 & F2).
  exists (e2 ++ e1). split; [by rewrite E2, E1, (assoc_L (++))|]. by apply Forall_app.
Qed.
End Traced.

Definition no_exit (e : event) : Prop := match e with ExitTried _ _ => False | _ => True end.
Definition port_output (e : event) : Prop :=
  match e with DebugByte _ | PortWord _ _ => True | _ => False end.

Ltac traced_leaf _ :=
  lazymatch goal with
  | |- pres _ (call _ _) =>
      intros ?; unfold call; try case_match; eexists; (split; [reflexivity|]);
      repeat case_match; repeat constructor
  | |- pres _ (put_var _ _) => intros ?; by exists []
  | |- pres _ (put_mem _) => intros ?; by exists []
  | |- pres _ (put_image _) => intros ?; by exists []
  | |- pres _ (put_command_line _) => intros ?; by exists []
  | |- pres _ (put_records _) => intros ?; by exists []
  | |- pres _ (fun _ => _) => intros ?; by exists []
  end.
Ltac traced_tac := pres_tac traced_leaf.

(** ** The recursive functions *)
Section Recursive.
Context {F : Type} `{Firmware F}.

Lemma never_append_kexts b rs o : never (append_kexts (F := F) b rs o).
Proof. revert o. induction rs as [|r rs IH]; intros o; cbn [append_kexts]; never_tac. Qed.

Lemma traced_append_kexts b rs o : pres (traced no_exit) (append_kexts (F := F) b rs o).
Proof. revert o. induction rs as [|r rs IH]; intros o; cbn [append_kexts]; traced_tac. Qed.

Lemma vars_append_kexts X b rs o : pres (vars_kept X) (append_kexts (F := F) b rs o).
Proof. revert o. induction rs as [|r rs IH]; intros o; cbn [append_kexts]; kept_tac. Qed.

Lemma never_stage_entries ih l : never (stage_entries (F := F) ih l).
Proof. induction l as [|e l IH]; cbn [stage_entries]; never_tac. Qed.
End Recursive.

Section Recursive2.
Context {F : Type} `{Firmware F}.

Lemma traced_stage_entries ih l : pres (traced no_exit) (stage_entries (F := F) ih l).
Proof. induction l as [|e l IH]; cbn [stage_entries]; traced_tac. Qed.

Lemma vars_stage_entries ih l :
  pres (vars_kept [gKernelBootDataCursor; gKernelReservedSize; gBootKextCount]) (stage_entries (F := F) ih l).
Proof. induction l as [|e l IH]; cbn [stage_entries]; kept_tac. Qed.

Lemma never_copy_segments image b kf n l : never (copy_segments (F := F) image b kf n l).
Proof. induction l as [|g l IH]; cbn [copy_segments]; never_tac. Qed.

Lemma traced_copy_segments image b kf n l :
  pres (traced no_exit) (copy_segments (F := F) image b kf n l).
Proof. induction l as [|g l IH]; cbn [copy_segments]; traced_tac. Qed.

Lemma vars_copy_segments X image b kf n l : pres (vars_kept X) (copy_segments (F := F) image b kf n l).
Proof. induction l as [|g l IH]; cbn [copy_segments]; kept_tac. Qed.
End Recursive2.

#[export] Hint Resolve never_append_kexts traced_append_kexts vars_append_kexts
  never_stage_entries traced_stage_entries vars_stage_entries
  never_copy_segments traced_copy_segments vars_copy_segments : boot.

(** ** The phases fail with error statuses *)
Section Errs.
Context {F : Type} `{Firmware F} `{BootABI}.

Lemma errs_append_kexts b rs o : errs (append_kexts (F := F) b rs o).
Proof. revert o. induction rs as [|r rs IH]; intros o; cbn [append_kexts]; errs_tac. Qed.
Lemma errs_stage_entries ih l : errs (stage_entries (F := F) ih l).
Proof. induction l as [|e l IH]; cbn [stage_entries]; errs_tac. Qed.
Lemma errs_copy_segments image b kf n l : errs (copy_segments (F := F) image b kf n l).
Proof. induction l as [|g l IH]; cbn [copy_segments]; errs_tac. Qed.

#[local] Hint Resolve errs_append_kexts errs_stage_entries errs_copy_segments : boot.

Lemma errs_greet : errs (greet (F := F)).
Proof. errs_tac. Qed.
Lemma errs_query_framebuffer : errs (query_framebuffer (F := F)).
Proof. errs_tac. Qed.
Lemma errs_load_and_stage ih : errs (load_and_stage_kernel (F := F) ih).
Proof. errs_tac. Qed.
Lemma errs_capture st : errs (capture_firmware (F := F) st).
Proof. errs_tac. Qed.
Lemma errs_stage_boot_data ih : errs (stage_boot_data (F := F) ih).
Proof. errs_tac. Qed.
Lemma errs_prepare_handoff : errs (prepare_handoff (F := F)).
Proof. errs_tac. Qed.
Lemma errs_fill a t m n d v : errs (panthera_fill_boot_args (F := F) a t m n d v).
Proof. errs_tac. Qed.
Lemma errs_show_boot_args a : errs (show_boot_args (F := F) a).
Proof. errs_tac. Qed.
End Errs.

#[export] Hint Resolve errs_greet errs_query_framebuffer errs_load_and_stage errs_capture
  errs_stage_boot_data errs_prepare_handoff errs_fill errs_show_boot_args : boot.

(** ** Leaving boot services *)
Definition failed_exit (e : event) : Prop :=
  match e with ExitTried _ st => EFI_ERROR st = true | _ => True end.

Definition exits (es : list event) : nat :=
  length (List.filter (fun e => match e with ExitTried _ _ => true | _ => false end) es).

Lemma exits_app es fs : exits (es ++ fs) = (exits es + exits fs)%nat.
Proof. unfold exits. by rewrite List.filter_app, length_app. Qed.

Section Exit.
Context {F : Type} `{Firmware F} `{BootABI}.

Lemma refresh_run map capacity (s : boot_state F) :
  match panthera_refresh_memory_map map capacity s with
  | (Ok info, s') => b_trace s' = MapRead (mi_key info) :: b_trace s
  | (Err st, s') => EFI_ERROR st = true /\ b_trace s' = b_trace s
  | _ => False
  end.
Proof.
  unfold panthera_refresh_memory_map, get_memory_map, bind, call.
  destruct (GetMemoryMap capacity map (b_fw s)) as [r fw].
  destruct (map =? 0); unfold ret, store_bytes, bind, get_mem, put_mem, check;
    destruct (EFI_ERROR (mr_status r)) eqn:E; cbn; rewrite ?E; done.
Qed.

Lemma port_events_trace text (s : boot_state F) :
  exists es, panthera_debugcon_write_ascii text s = (Ok tt, set_fw s (b_fw s) es) /\ Forall port_output es.
Proof.
  revert s. induction text as [|c text IH]; intros s; cbn [panthera_debugcon_write_ascii].
  - exists []. split; [by rewrite set_fw_id|done].
  - unfold bind, port_event, call. destruct (IH (set_fw s (b_fw s) [DebugByte c])) as (es & -> & Hes).
    exists (es ++ [DebugByte c]). rewrite set_fw_set_fw. cbn. split; [done|].
    apply Forall_app. split; [done|by repeat constructor].
Qed.

(** Entering the kernel: port output only, and the three addresses. *)
Lemma enter_kernel_run code (s : boot_state F) :
  exists es, Forall port_output es /\
    enter_kernel code s =
      (Entered (mkHandoff code (wrap 32 (b_vars s gBootArgsBase)) (wrap 32 (b_vars s gKernelEntryBase))
         (wrap 32 (b_vars s gHandoffStackBase +64 PANTHERA_HANDOFF_STACK_SIZE))),
       set_fw s (b_fw s) es).
Proof.
  unfold enter_kernel, bind at 1.
  destruct (port_events_trace (str "PANTHERA:EBS" ++ [10]) s) as (es & -> & Hes).
  unfold bind, get_var. cbn [b_vars set_fw]. destruct (b_vars s gGopFrameBufferBase =? 0).
  - exists es. split; [done|]. reflexivity.
  - exists ([PortWord 0x01cf 0x41] ++ [PortWord 0x01ce 4] ++ es). split.
    + by repeat constructor.
    + unfold port_event, call. cbn [b_fw set_fw]. by rewrite !set_fw_set_fw.
Qed.

Lemma fill_trace a t m n d v (s : boot_state F) :
  b_trace (panthera_fill_boot_args a t m n d v s).2 = b_trace s.
Proof.
  assert (Hp : pres trace_kept (panthera_fill_boot_args (F := F) a t m n d v)) by kept_tac. apply Hp.
Qed.

Definition exit_outcome (n : nat) (tr : list event) (r : result unit * boot_state F) : Prop :=
  match r with
  | (Entered _, s') => exists ports key st before,
      b_trace s' = ports ++ ExitTried key st :: MapRead key :: before ++ tr /\
      EFI_ERROR st = false /\ Forall port_output ports /\ Forall failed_exit before /\
      (exits before < n)%nat
  | (Err st, s') => EFI_ERROR st = true /\
      exists es, b_trace s' = es ++ tr /\ Forall failed_exit es /\ (exits es <= n)%nat
  | (Ok _, _) => False
  | (Stuck, s') => exists es, b_trace s' = es ++ tr /\ Forall failed_exit es /\ (exits es <= n)%nat
  end.

(** One more failed round before. *)
Lemma exit_outcome_round n tr key st r :
  EFI_ERROR st = true ->
  exit_outcome n (ExitTried key st :: MapRead key :: tr) r -> exit_outcome (S n) tr r.
Proof.
  intros Hst. unfold exit_outcome. destruct r as [[a|e|h|] s'].
  - done.
  - intros (He & es & E & Hf & Hx). split; [done|]. exists (es ++ [ExitTried key st; MapRead key]).
    rewrite <- (assoc_L (++)), exits_app. cbn. split_and!; [done| |lia].
    apply Forall_app. split; [done|]. by repeat constructor.
  - intros (ports & k & st' & before & E & H1 & H2 & H3 & Hx).
    exists ports, k, st', (before ++ [ExitTried key st; MapRead key]).
    rewrite <- (assoc_L (++)), exits_app. cbn. split_and!; [done|done|done| |lia].
    apply Forall_app. split; [done|]. by repeat constructor.
  - intros (es & E & Hf & Hx). exists (es ++ [ExitTried key st; MapRead key]).
    rewrite <- (assoc_L (++)), exits_app. cbn. split_and!; [done| |lia].
    apply Forall_app. split; [done|]. by repeat constructor.
Qed.

Lemma no_exit_failed es : Forall no_exit es -> Forall failed_exit es /\ exits es = 0%nat.
Proof.
  unfold exits. induction 1 as [|e es He _ [IH1 IH2]]; [done|].
  split; [constructor; [by destruct e|done]|]. cbn. by destruct e.
Qed.

(** A run that does not try to leave boot services, before anything else. *)
Lemma exit_outcome_quiet n (s : boot_state F) (r : result unit) s' :
  traced no_exit s s' ->
  match r with Err st => EFI_ERROR st = true | Stuck => True | _ => False end ->
  exit_outcome n (b_trace s) (r, s').
Proof.
  intros (es & E & Hes) Hr. apply no_exit_failed in Hes as [Hf Hx].
  destruct r; try done; cbn; [split; [done|]|]; exists es; split_and!; try done; lia.
Qed.

Lemma exit_outcome_after n (s s1 : boot_state F) r :
  traced no_exit s s1 -> exit_outcome n (b_trace s1) r -> exit_outcome n (b_trace s) r.
Proof.
  intros (es & E & Hes) Ho. apply no_exit_failed in Hes as [Hf Hx]. rewrite E in Ho.
  destruct r as [[a|st|h|] s']; cbn in *; [done|..].
  - destruct Ho as (He & fs & -> & Hfs & Hn). split; [done|]. exists (fs ++ es).
    rewrite (assoc_L (++)), exits_app, Forall_app. split_and!; try done. lia.
  - destruct Ho as (ports & key & st & before & -> & ? & ? & Hb & Hn).
    exists ports, key, st, (before ++ es).
    rewrite (assoc_L (++)), exits_app, Forall_app. split_and!; try done. lia.
  - destruct Ho as (fs & -> & Hfs & Hn). exists (fs ++ es).
    rewrite (assoc_L (++)), exits_app, Forall_app. split_and!; try done. lia.
Qed.

Lemma exit_outcome_bind {A} n (m : M F A) (k : A -> M F unit) s :
  errs m -> pres (traced no_exit) m ->
  (forall a s', m s = (Ok a, s') -> exit_outcome n (b_trace s) (k a s')) ->
  exit_outcome n (b_trace s) (bind m k s).
Proof.
  intros He Hp Hk. unfold bind. specialize (He s). specialize (Hp s).
  destruct (m s) as [[a|st|h|] s']; cbn in Hp; try done; [by apply Hk|..];
    by apply exit_outcome_quiet.
Qed.

Lemma exit_outcome_seq {A} n (m : M F A) (k : A -> M F unit) s :
  errs m -> pres (traced no_exit) m ->
  (forall a s', m s = (Ok a, s') -> exit_outcome n (b_trace s') (k a s')) ->
  exit_outcome n (b_trace s) (bind m k s).
Proof.
  intros He Hp Hk. apply exit_outcome_bind; [done..|]. intros a s' E.
  eapply exit_outcome_after; [by eapply pres_run|]. by apply Hk.
Qed.

Lemma traced_hex label v : pres (traced no_exit) (console_write_hex64 (F := F) label v).
Proof. traced_tac. Qed.

Lemma exit_attempts_outcome n code t a map st (s : boot_state F) :
  EFI_ERROR st = true -> exit_outcome n (b_trace s) (exit_attempts n code t a map st s).
Proof.
  revert st s. induction n as [|n IH]; intros st s Hst; cbn [exit_attempts].
  { apply exit_outcome_seq; [errs_tac|apply traced_hex|]. intros x s' _.
    by apply exit_outcome_quiet. }
  apply exit_outcome_bind; [done|traced_tac|]. intros cap ? [= <- <-].
  apply exit_outcome_bind; [errs_tac|traced_tac|]. intros info s1 E1. apply on_error_ok in E1.
  pose proof (refresh_run map (b_vars s gMemoryMapCapacity) s) as Hr. rewrite E1 in Hr.
  pose proof (fill_trace a t map (mi_size info) (mi_desc_size info) (mi_desc_version info) s1) as Hf.
  pose proof (errs_fill a t map (mi_size info) (mi_desc_size info) (mi_desc_version info) s1) as He.
  assert (Hq : traced no_exit s s1) by (exists [MapRead (mi_key info)]; split; [done|by repeat constructor]).
  unfold bind at 1. destruct (panthera_fill_boot_args _ _ _ _ _ _ s1) as [[x|e|h|] s2]; try done.
  2,3: cbn in Hf; apply exit_outcome_quiet; [destruct Hq as (es & E & ?); exists es; by rewrite Hf|done].
  unfold bind, call. destruct (ExitBootServices (mi_key info) (b_fw s2)) as [st' fw].
  cbn [fst snd] in Hf. destruct (EFI_ERROR st') eqn:Es; cbn [negb].
  - apply (exit_outcome_round _ _ (mi_key info) st'); [done|]. rewrite <- Hr, <- Hf. by apply IH.
  - destruct (enter_kernel_run code (set_fw s2 fw [ExitTried (mi_key info) st'])) as (es & Hes & ->).
    exists es, (mi_key info), st', []. cbn. rewrite Hf, Hr. split_and!; try done. lia.
Qed.
End Exit.

(** ** The phases do not leave boot services *)
Section Phases.
Context {F : Type} `{Firmware F} `{BootABI}.

Lemma traced_greet : pres (traced no_exit) (greet (F := F)).
Proof. traced_tac. Qed.
Lemma traced_query_framebuffer : pres (traced no_exit) (query_framebuffer (F := F)).
Proof. traced_tac. Qed.
Lemma traced_load_and_stage ih : pres (traced no_exit) (load_and_stage_kernel (F := F) ih).
Proof. traced_tac. Qed.
Lemma traced_capture st : pres (traced no_exit) (capture_firmware (F := F) st).
Proof. traced_tac. Qed.
Lemma traced_stage_boot_data ih : pres (traced no_exit) (stage_boot_data (F := F) ih).
Proof. traced_tac. Qed.
Lemma traced_prepare_handoff : pres (traced no_exit) (prepare_handoff (F := F)).
Proof. traced_tac. Qed.
Lemma traced_fill a t m n d v : pres (traced no_exit) (panthera_fill_boot_args (F := F) a t m n d v).
Proof. traced_tac. Qed.
Lemma traced_show_boot_args a : pres (traced no_exit) (show_boot_args (F := F) a).
Proof. traced_tac. Qed.

End Phases.

#[export] Hint Resolve traced_greet traced_query_framebuffer traced_load_and_stage traced_capture
  traced_stage_boot_data traced_prepare_handoff traced_fill traced_show_boot_args : boot.

(** C2. Leaving boot services, whatever the firmware answers. [EfiMain] never
    returns normally. It enters the kernel only after a successful
    ExitBootServices, called with the key of a memory map read directly before;
    at most three attempts failed earlier, and after it the loader does only port
    output. Otherwise it fails with an EFI error status (or one of its loops
    does not end) and no attempt, of at most four, succeeded. *)
Theorem exit_protocol {F} `{Firmware F} `{BootABI} (ih table : Z) (s : boot_state F) :
  exit_outcome 4 (b_trace s) (EfiMain ih table s).
Proof.
  unfold EfiMain.
  do 3 (apply exit_outcome_seq; [auto with boot|auto with boot|intros ? ? _]).
  apply exit_outcome_seq; [auto with boot|auto with boot|intros [[info t] args] ? _].
  do 4 (apply exit_outcome_seq; [auto with boot|auto with boot|intros ? ? _]).
  unfold panthera_exit_boot_services_and_enter_kernel.
  apply exit_outcome_seq; [done|traced_tac|intros code ? _]. by apply exit_attempts_outcome.
Qed.
