(* ===== verification/Resources.v ===== *)
(** * Pool buffers and file handles: boot/efi/loader/src/bootx64.c

    The whole boot sequence releases every pool buffer and file handle it
    acquires, on the error paths and when it enters the kernel. *)

From Stdlib Require Import ZArith Lia Ascii String.
From stdpp Require Import base list gmap relations.
From S2P Require Import Prelude MachO Rebase BootText KextManifest Efi BootLogic Sim DeviceTree Stage KernelImage BootMain BootArgs Handoff.

Open Scope Z_scope.

(** ** Neutral computations *)
Section Neutral.
Context {F : Type}.

(** Whether it returns or fails, every resource is held as often as before. *)
Definition neutral {A} (m : M F A) : Prop := bal m (fun _ _ => 0) none.

Lemma neutral_bal {A} (m : M F A) d e :
  neutral m -> (forall a r, r <> Pool 0 -> d a r = 0) -> (forall r, r <> Pool 0 -> e r = 0) -> bal m d e.
Proof. intros Hm Hd He. eapply bal_mono; [exact Hm| |]; intros; symmetry; auto. Qed.

Lemma neutral_bind {A B} (m : M F A) (k : A -> M F B) :
  neutral m -> (forall a, neutral (k a)) -> neutral (bind m k).
Proof.
  intros Hm Hk. eapply bal_bind; [exact Hm|]. intros a. apply neutral_bal; [apply Hk|done|done].
Qed.

Lemma neutral_on_error {A} (m : M F A) h :
  neutral m -> (forall st, neutral (h st)) -> neutral (on_error m h).
Proof.
  intros Hm Hh. eapply bal_on_error; [exact Hm|]. intros st. apply neutral_bal; [apply Hh|done|done].
Qed.

Lemma attempt_bal {A} (m : M F A) e : neutral m -> bal (attempt m) (fun _ _ => 0) e.
Proof.
  intros Hm. apply (bal_mono _ _ _ _ _ (bal_attempt m (fun _ _ => 0) none e Hm)); [|done]. by intros [a|st] r _.
Qed.

Lemma neutral_attempt {A} (m : M F A) : neutral m -> neutral (attempt m).
Proof. apply attempt_bal. Qed.

Lemma neutral_quiet {A} (m : M F A) : quiet m -> neutral m.
Proof. intros Hm s r Hr. destruct (Hm s) as (a & s' & -> & ->). cbn. lia. Qed.

Lemma neutral_call {A} (f : F -> A * F) log :
  (forall a, Forall (fun e => match e with
     | PoolAllocated _ | PoolFreed _ | Opened _ | Closed _ => False | _ => True end) (log a)) ->
  neutral (call f log).
Proof.
  intros Hl. apply bal_call. intros a r _. specialize (Hl a). induction (log a) as [|e l IH]; [done|].
  apply Forall_cons in Hl as [He Hl]. cbn. fold (live l r). rewrite (IH Hl). by destruct e.
Qed.
End Neutral.

Ltac neutral_tac :=
  repeat lazymatch goal with
  | |- forall _, neutral _ => intros ?
  | |- neutral (bind _ _) => apply neutral_bind; [|intros]
  | |- neutral (on_error _ _) => apply neutral_on_error; [|intros]
  | |- neutral (attempt _) => apply neutral_attempt
  | |- neutral (ret _) => by apply bal_ret
  | |- neutral (throw _) => by apply bal_throw
  | |- neutral stuck => apply bal_stuck
  | |- neutral (check _) => by apply bal_check
  | |- neutral (call _ _) => apply neutral_call; intros; repeat case_match; by repeat constructor
  | |- neutral (get_var _) => apply neutral_quiet; by do 2 eexists
  | |- neutral get_mem => apply neutral_quiet; by do 2 eexists
  | |- neutral get_image => apply neutral_quiet; by do 2 eexists
  | |- neutral get_command_line => apply neutral_quiet; by do 2 eexists
  | |- neutral get_records => apply neutral_quiet; by do 2 eexists
  | |- neutral (put_var _ _) => apply neutral_quiet; by do 2 eexists
  | |- neutral (put_mem _) => apply neutral_quiet; by do 2 eexists
  | |- neutral (put_image _) => apply neutral_quiet; by do 2 eexists
  | |- neutral (put_command_line _) => apply neutral_quiet; by do 2 eexists
  | |- neutral (put_records _) => apply neutral_quiet; by do 2 eexists
  | |- neutral (match ?x with _ => _ end) => destruct x
  | |- neutral ?m => first [solve [eauto 1 with boot nocore] | walk_unfold m]
  end.

Section Phases.
Context {F : Type} `{Firmware F} `{BootABI}.
Hypothesis free_present : FreePool <> None.

Lemma neutral_greet : neutral (greet (F := F)).
Proof. neutral_tac. Qed.
Lemma neutral_query_framebuffer : neutral (query_framebuffer (F := F)).
Proof. neutral_tac. Qed.
Lemma neutral_capture st : neutral (capture_firmware (F := F) st).
Proof. neutral_tac. Qed.
Lemma neutral_prepare_handoff : neutral (prepare_handoff (F := F)).
Proof. neutral_tac. Qed.
Lemma neutral_fill a t m n d v : neutral (panthera_fill_boot_args (F := F) a t m n d v).
Proof. neutral_tac. Qed.
Lemma neutral_show_boot_args a : neutral (show_boot_args (F := F) a).
Proof. neutral_tac. Qed.

Lemma neutral_command_line ih : neutral (panthera_load_boot_command_line (F := F) ih).
Proof. by apply bal_load_boot_command_line. Qed.

Lemma neutral_append_kexts b rs o : neutral (append_kexts (F := F) b rs o).
Proof. revert o. induction rs as [|r rs IH]; intros o; cbn [append_kexts]; neutral_tac. Qed.

Lemma neutral_copy_segments image b kf n l : neutral (copy_segments (F := F) image b kf n l).
Proof. induction l as [|g l IH]; cbn [copy_segments]; neutral_tac. Qed.

#[local] Hint Resolve neutral_command_line neutral_append_kexts neutral_copy_segments : boot.

(** A loaded file: the rest has to release its buffer. *)
Lemma neutral_load_file ih path {B} (k : Z * Z -> M F B) :
  (forall buf size, bal (k (buf, size)) (fun _ r => - ind (Pool buf) r) (fun r => - ind (Pool buf) r)) ->
  neutral (bind (panthera_load_kernel_file ih path) k).
Proof.
  intros Hk. eapply bal_bind; [by apply bal_load_kernel_file|]. intros [buf size].
  eapply bal_mono; [apply Hk| |]; intros; unfold none; cbn; lia.
Qed.

Lemma neutral_load_file_to_pages ih path t out :
  (forall b, neutral (out b)) -> neutral (panthera_load_file_to_pages (F := F) ih path t out).
Proof.
  intros Ho. apply neutral_load_file. intros buf size. cbn zeta. apply bal_skip.
  { intros e. apply attempt_bal. neutral_tac. }
  intros r. apply bal_skip.
  { intros e. destruct r as [page|st]; [|by apply bal_ret]. apply bal_quiet; [by do 2 eexists|]. intros _.
    destruct (size =? 0); [by apply bal_ret|]. intros s x _. symmetry. apply Z.add_0_r. }
  intros _. apply bal_release; [done|]. apply neutral_bal; [|intros; cbn; lia|intros; cbn; lia].
  neutral_tac.
Qed.

Lemma neutral_update i f : neutral (update_record (F := F) i f).
Proof. neutral_tac. Qed.

#[local] Hint Resolve neutral_update : boot.

Lemma neutral_stage_entries ih l : neutral (stage_entries (F := F) ih l).
Proof.
  assert (Hl : forall path t i g, neutral (panthera_load_file_to_pages (F := F) ih path t
    (fun b => update_record i (fun r => g r b)))) by (intros; apply neutral_load_file_to_pages; neutral_tac).
  induction l as [|e l IH]; cbn [stage_entries]; neutral_tac.
Qed.

#[local] Hint Resolve neutral_stage_entries : boot.

Lemma neutral_stage_boot_data ih : neutral (stage_boot_data (F := F) ih).
Proof. neutral_tac. Qed.

Lemma neutral_use_kernel_file kf size : neutral (use_kernel_file (F := F) kf size).
Proof. neutral_tac. Qed.

Lemma neutral_load_and_stage ih : neutral (load_and_stage_kernel (F := F) ih).
Proof.
  unfold load_and_stage_kernel. eapply bal_bind.
  { eapply bal_on_error; [by apply bal_try_load_kernel|]. intros st.
    apply neutral_bal; [|intros; unfold none; cbn; lia..]. neutral_tac. }
  intros [kf size]. cbn [fst]. apply bal_skip.
  { intros e. unfold show_uint, console_write_uint64. apply bal_skip; [|intros; by apply bal_ret].
    intros e'. case_match; [by apply bal_console|apply bal_stuck]. }
  intros _. eapply bal_bind.
  { eapply (bal_on_error _ _ (fun _ _ => 0) none); [apply neutral_use_kernel_file|]. intros st.
    eapply bal_mono; [by apply bal_free| |]; unfold none; intros; cbn; [lia|reflexivity]. }
  intros []. eapply bal_mono; [by apply bal_free| |]; intros; cbn; [lia|reflexivity].
Qed.

End Phases.

(** ** Leaving boot services acquires nothing *)
Section Exit.
Context {F : Type} `{Firmware F} `{BootABI}.

Definition same_live : relation (boot_state F) := fun s s' =>
  forall r, live (b_trace s') r = live (b_trace s) r.

#[export] Instance same_live_preorder : PreOrder same_live.
Proof. split; [by intros s r|]. intros s1 s2 s3 H1' H2' r. by rewrite H2', H1'. Qed.

Lemma same_live_debugcon text : pres same_live (panthera_debugcon_write_ascii (F := F) text).
Proof.
  induction text as [|c text IH]; cbn [panthera_debugcon_write_ascii];
    [apply pres_ret; apply _|apply pres_bind; [apply _| |intros; exact IH]].
  intros s r. unfold port_event, call. cbn [snd b_trace set_fw]. rewrite live_app. cbn. lia.
Qed.

#[local] Hint Resolve same_live_debugcon : boot.

Lemma same_live_exit n code t a map st :
  pres same_live (exit_attempts (F := F) n code t a map st).
Proof.
  assert (Hc : forall A (f : F -> A * F) log, (forall a r, live (log a) r = 0) -> pres same_live (call f log)).
  { intros A f log Hl s r. unfold call. destruct (f (b_fw s)) as [x fw]. cbn [snd b_trace set_fw].
    rewrite live_app, Hl. lia. }
  revert st. induction n as [|n IH]; intros st; cbn [exit_attempts];
    pres_tac ltac:(fun _ => lazymatch goal with
      | |- pres _ (call _ _) => apply Hc; intros; repeat case_match; reflexivity
      | |- pres _ (put_mem _) => intros ? ?; reflexivity
      | |- pres _ (fun _ => _) => intros ? ?; reflexivity
      end).
Qed.

(** The outcome of a run that started with the trace [tr]. *)
Definition released (tr : list event) (x : resource) (r : result unit * boot_state F) : Prop :=
  match r with
  | (Stuck, _) => True
  | (_, s') => live (b_trace s') x = live tr x
  end.

Lemma released_bind {A} tr x (m : M F A) (k : A -> M F unit) s :
  neutral m -> x <> Pool 0 -> live (b_trace s) x = live tr x ->
  (forall a s', live (b_trace s') x = live tr x -> released tr x (k a s')) ->
  released tr x (bind m k s).
Proof.
  intros Hm Hx Hs Hk. unfold bind. specialize (Hm s x Hx).
  destruct (m s) as [[a|st|h|] s']; cbn in *; try done; [apply Hk|unfold none in Hm]; lia.
Qed.
End Exit.

(** C3. Nothing leaks: with a working FreePool, whatever else the firmware
    answers, when [EfiMain] fails or enters the kernel every pool buffer and every
    file handle has been released exactly as often as it was acquired. *)
Theorem nothing_leaks {F} `{Firmware F} `{BootABI} (ih table : Z) (s : boot_state F) (x : resource) :
  FreePool <> None -> x <> Pool 0 ->
  match EfiMain ih table s with
  | (Stuck, _) => True
  | (_, s') => live (b_trace s') x = live (b_trace s) x
  end.
Proof.
  intros Hf Hx. change (released (b_trace s) x (EfiMain ih table s)). unfold EfiMain.
  apply released_bind; [apply neutral_greet|done|done|intros _ s1 E1].
  apply released_bind; [apply neutral_query_framebuffer|done|done|intros _ s2 E2].
  apply released_bind; [by apply neutral_load_and_stage|done|done|intros _ s3 E3].
  apply released_bind; [apply neutral_capture|done|done|intros [[info t] args] s4 E4].
  apply released_bind; [by apply neutral_stage_boot_data|done|done|intros _ s5 E5].
  apply released_bind; [apply neutral_prepare_handoff|done|done|intros _ s6 E6].
  apply released_bind; [apply neutral_fill|done|done|intros _ s7 E7].
  apply released_bind; [apply neutral_show_boot_args|done|done|intros _ s8 E8].
  pose proof (same_live_exit 4 (b_vars s8 gHandoffCodeBase) t args (mi_map info) EFI_NOT_FOUND s8 x) as He.
  rewrite E8 in He. unfold panthera_exit_boot_services_and_enter_kernel, bind at 1, get_var at 1. cbv beta iota.
  by destruct (exit_attempts _ _ _ _ _ _ s8) as [[a|st|h|] s'].
Qed.

Lemma nothing_leaks_witness :
  match EfiMain 5 0x1000 (sim_boot 2) with
  | (Entered _, s') => live (b_trace s') (Pool pool_floor) = 0
  | _ => False
  end.
Proof.
  assert (Hf : FreePool (F := sim) <> None) by discriminate.
  assert (Hp : Pool pool_floor <> Pool 0) by discriminate.
  pose proof (nothing_leaks 5 0x1000 (sim_boot 2) (Pool pool_floor) Hf Hp) as Hl.
  assert (E : exists h, (EfiMain 5 0x1000 (sim_boot 2)).1 = Entered h) by (eexists; vm_compute; reflexivity).
  destruct E as [h E]. destruct (EfiMain 5 0x1000 (sim_boot 2)) as [r s']. cbn [fst] in E. subst r. exact Hl.
Defined.
