(* ===== verification/KernelView.v ===== *)
(** * What the kernel finds: boot/efi/loader/src/bootx64.c

    The composition of the loader's phases: when [EfiMain] enters the kernel, the
    boot arguments, the device tree, the staged extensions and the pages of the
    kernel are in memory as the earlier phases left them. *)

From Stdlib Require Import ZArith Lia Ascii String.
From stdpp Require Import base list gmap relations.
From S2P Require Import Prelude MachO Rebase BootText KextManifest Efi BootLogic Sim Loading DeviceTree Stage KernelImage BootMain BootArgs Handoff.

Open Scope Z_scope.

(** ** The later phases keep the frame *)
Section Frames.
Context {F : Type} `{LawfulFirmware F}.
Variable P : Z -> Prop.

Lemma framed_call_pages f kind n a :
  AllocatePages = Some f -> pres (framed P) (call_allocate_pages (F := F) f kind n a).
Proof.
  intros E. apply framed_call. intros fw x Hx. pose proof (AllocatePages_law f kind n a fw E) as Hl.
  destruct (f kind n a fw) as [[st b] fw']. destruct Hl as [[Hk _] _]. by apply Hk.
Qed.

Lemma framed_allocate_pages size : pres (framed P) (panthera_allocate_pages (F := F) size).
Proof.
  unfold panthera_allocate_pages. destruct AllocatePages as [f|] eqn:E; [|apply pres_throw, _].
  apply pres_bind; [apply _|by apply framed_call_pages|]. intros [st b].
  destruct (negb _); [apply pres_ret, _|].
  apply pres_bind; [apply _|by apply framed_call_pages|]. intros [st' b'].
  apply pres_bind; [apply _|apply pres_check, _|]. intros. apply pres_ret, _.
Qed.

(** A buffer from the page allocator is outside every owned set. *)
Lemma framed_bind_pages {B} size (k : Z -> M F B) :
  0 <= size <= 2 ^ 64 - 4096 ->
  (forall b, 0 <= b -> b + size < 2 ^ 64 -> outside P b size -> pres (framed P) (k b)) ->
  pres (framed P) (bind (panthera_allocate_buffer_pages size) k).
Proof.
  intros Hs Hk. pose proof (pages_of_bound size Hs).
  apply (framed_bind_val _ (fun b => 0 <= b /\ b + size < 2 ^ 64 /\ outside P b size));
    [apply framed_allocate_pages| |intros b (? & ? & ?); by apply Hk].
  intros s b s' [_ HP] Hr. apply allocate_pages_ok in Hr as (_ & (_ & ? & _ & ? & Hf & _)).
  split_and!; [lia|lia|]. intros x Hx Hp. destruct (Hf x ltac:(lia)) as [Hn _]. by apply Hn, HP.
Qed.

Lemma framed_exit_call key : pres (framed P) (call (ExitBootServices (F := F) key) (fun st => [ExitTried key st])).
Proof. apply framed_call. intros fw x Hx. by apply (ExitBootServices_law key fw). Qed.

Lemma framed_get_memory_map size buffer :
  0 <= size -> outside P buffer size -> pres (framed P) (get_memory_map (F := F) size buffer).
Proof.
  intros Hs Ho. unfold get_memory_map.
  apply (framed_bind_val _ (fun r => Z.of_nat (length (mr_bytes r)) <= size)).
  - apply framed_call. intros fw x Hx. pose proof (GetMemoryMap_law size buffer fw) as Hl.
    destruct (GetMemoryMap size buffer fw) as [r fw']. by apply Hl.
  - intros s r s' _ Hc. apply call_ok in Hc as (fw' & Hc & _).
    pose proof (GetMemoryMap_law size buffer (b_fw s)) as Hl. rewrite Hc in Hl. destruct Hl as (_ & Hl & _). lia.
  - intros r Hlen. apply pres_bind; [apply _| |intros; apply pres_ret, _].
    destruct (buffer =? 0); [apply pres_ret, _|].
    apply framed_store. intros x Hx. apply Ho. lia.
Qed.

Lemma framed_port e : pres (framed P) (port_event (F := F) e).
Proof. apply framed_call. done. Qed.
End Frames.

#[export] Hint Resolve framed_allocate_pages framed_exit_call framed_port : boot.

Section FillFrame.
Context {F : Type} `{LawfulFirmware F} `{LawfulABI}.
Variable P : Z -> Prop.
Variable args : Z.
Hypothesis args_outside : outside P args sizeof_boot_args.

Lemma framed_put_field f v : pres (framed P) (put_field (F := F) args f v).
Proof.
  intros s. cbn. apply framed_write. pose proof (ba_inside f). intros x Hx. apply args_outside. lia.
Qed.

Lemma framed_put_line : pres (framed P) (put_command_line_field (F := F) args).
Proof.
  unfold put_command_line_field. apply pres_bind; [apply _|apply pres_get_command_line, _|]. intros line.
  destruct (_ =? 0); [apply pres_ret, _|]. apply framed_store. pose proof line_inside.
  pose proof (line_bytes_length line) as Hl. unfold line_bytes in Hl. intros x Hx. apply args_outside. lia.
Qed.

Lemma framed_zero_args : pres (framed P) (zero_memory (F := F) args sizeof_boot_args).
Proof. by apply framed_zero. Qed.

#[local] Hint Resolve framed_put_field framed_put_line framed_zero_args : boot.

Lemma framed_fill t map size dsize dver :
  pres (framed P) (panthera_fill_boot_args (F := F) args t map size dsize dver).
Proof. framed_tac. Qed.

Lemma framed_show_boot_args : pres (framed P) (show_boot_args (F := F) args).
Proof. framed_tac. Qed.
End FillFrame.

Section HandoffFrame.
Context {F : Type} `{LawfulFirmware F} `{LawfulABI}.
Variable P : Z -> Prop.

Lemma framed_handoff_code : pres (framed P) (panthera_prepare_handoff_code (F := F)).
Proof.
  pose proof template_small. pose proof gdtr_inside.
  unfold panthera_prepare_handoff_code. apply framed_bind_pages; [lia|]. intros code _ _ Ho.
  apply pres_bind; [apply _|framed_tac|]. intros _.
  apply pres_bind; [apply _|by apply framed_zero|]. intros _.
  apply pres_bind; [apply _|by apply framed_store|]. intros _.
  apply pres_bind; [apply _| |framed_tac].
  intros s. apply (framed_write P (code + gdtr_offset + 2) 8 (code +64 gdt_offset) s).
  intros x Hx. apply Ho. lia.
Qed.

Lemma framed_handoff_stack : pres (framed P) (panthera_prepare_handoff_stack (F := F)).
Proof.
  unfold panthera_prepare_handoff_stack. apply framed_bind_pages; [unfold PANTHERA_HANDOFF_STACK_SIZE; lia|].
  intros stack _ _ Ho. apply pres_bind; [apply _|framed_tac|]. intros _. by apply framed_zero.
Qed.

#[local] Hint Resolve framed_handoff_code framed_handoff_stack : boot.

Lemma framed_prepare_handoff : pres (framed P) (prepare_handoff (F := F)).
Proof. framed_tac. Qed.

Lemma framed_load_command_line ih : pres (framed P) (panthera_load_boot_command_line (F := F) ih).
Proof. framed_tac. Qed.
End HandoffFrame.

(** ** The attempt that enters the kernel *)
Section Exit.
Context {F : Type} `{LawfulFirmware F} `{LawfulABI}.
Variable P : Z -> Prop.
Variables (args map capacity : Z).
Hypothesis args_outside : outside P args sizeof_boot_args.
Hypothesis map_apart : outside P map capacity.
Hypothesis capacity_ok : 0 <= capacity.

Definition map_sane (info : map_info) : Prop :=
  40 <= mi_desc_size info /\ 0 < mi_size info <= capacity /\
  exists n, mi_size info = Z.of_nat n * mi_desc_size info.

Lemma refresh_ok (s : boot_state F) info s' :
  panthera_refresh_memory_map map capacity s = (Ok info, s') ->
  map_sane info /\ framed P s s' /\ globals_kept s s'.
Proof.
  intros Hr. unfold panthera_refresh_memory_map in Hr.
  assert (Hg : pres globals_kept (get_memory_map (F := F) capacity map)) by kept_tac.
  apply bind_ok in Hr as (r & s1 & H1' & Hr). run_inv.
  split; [|split; [|by eapply pres_run]].
  - unfold get_memory_map in H1'. apply bind_ok in H1' as (r' & s2 & H2' & Hr'). run_inv.
    pose proof (GetMemoryMap_law capacity map (b_fw s)) as Hl.
    match goal with Hc : GetMemoryMap _ _ _ = _ |- _ => rewrite Hc in Hl end.
    destruct Hl as (_ & _ & _ & _ & Hl). by apply Hl.
  - eapply pres_run; [|exact H1']. by apply framed_get_memory_map.
Qed.

Lemma branch_run {A} (b : bool) (m1 m2 : M F A) s r :
  (if negb b then m1 else m2) s = r -> b = true /\ m2 s = r \/ b = false /\ m1 s = r.
Proof. destruct b; auto. Qed.

Lemma exit_attempts_entered n code t st (s : boot_state F) h s' :
  b_vars s gMemoryMapCapacity = capacity ->
  exit_attempts n code t args map st s = (Entered h, s') ->
  exists sm info sf, framed P s sm /\ globals_kept s sm /\ map_sane info /\
    panthera_fill_boot_args args t map (mi_size info) (mi_desc_size info) (mi_desc_version info) sm =
      (Ok tt, sf) /\
    b_mem s' = b_mem sf /\ globals_kept sf s' /\ framed P sf s' /\
    h = mkHandoff code (wrap 32 (b_vars sf gBootArgsBase)) (wrap 32 (b_vars sf gKernelEntryBase))
          (wrap 32 (b_vars sf gHandoffStackBase +64 PANTHERA_HANDOFF_STACK_SIZE)).
Proof.
  revert st s. induction n as [|n IH]; intros st s Hcap Hr; cbn [exit_attempts] in Hr.
  { apply bind_entered in Hr as (? & ? & _ & Hr); [done|never_tac]. }
  apply bind_entered in Hr as (cap & s0 & Hc & Hr); [|never_tac]. injection Hc as <- <-. rewrite Hcap in Hr.
  apply bind_entered in Hr as (info & s1 & H1' & Hr); [|never_tac]. apply on_error_ok in H1'.
  apply refresh_ok in H1' as (Hs & F1 & G1).
  apply bind_entered in Hr as ([] & s2 & H2' & Hr); [|apply errs_never, errs_fill].
  apply bind_entered in Hr as (st' & s3 & H3' & Hr); [|never_tac].
  assert (F3 : framed P s2 s3) by (eapply pres_run; [|exact H3']; apply framed_exit_call).
  apply call_ok in H3' as (fw & Hx & ->). apply branch_run in Hr as [[_ Hr]|[_ Hr]].
  - assert (G2 : globals_kept s1 s2) by (eapply pres_run; [|exact H2']; kept_tac).
    assert (F2 : framed P s1 s2) by (eapply pres_run; [|exact H2']; by apply framed_fill).
    apply IH in Hr as (sm & i & sf & F4 & G4 & Hrest); [|cbn].
    + exists sm, i, sf. split; [|split; [|exact Hrest]].
      * etrans; [exact F1|]. etrans; [exact F2|]. etrans; [exact F3|exact F4].
      * etrans; [exact G1|]. etrans; [exact G2|exact G4].
    + by rewrite (proj1 G2), (proj1 G1).
  - set (s3 := set_fw s2 fw _) in Hr, F3. destruct (enter_kernel_run code s3) as (es & _ & E).
    pose proof (eq_trans (eq_sym E) Hr) as E'. injection E' as <- <-. exists s1, info, s2.
    split_and!; [exact F1|exact G1|exact Hs|exact H2'|reflexivity|split_and!; reflexivity| |reflexivity].
    etrans; [exact F3|]. by apply framed_same.
Qed.
End Exit.

(** ** Capturing the memory map and the system table *)
Section Capture.
Context {F : Type} `{LawfulFirmware F} `{LawfulABI}.

(** The system table lies in pages of the firmware and its number of
    configuration tables is a sensible one. *)
Definition table_sane (t : Z) (s : boot_state F) : Prop :=
  (forall x, t <= x < t + sizeof_EFI_SYSTEM_TABLE -> paged (b_fw s) x) /\
  mread (b_mem s) (t + NumberOfTableEntries_offset) 8 < 2 ^ 58.

(** The pages of [b, b + n) are new in [s']. *)
Definition new_range (s s' : boot_state F) (b n : Z) : Prop :=
  forall x, b <= x < b + n -> ~ paged (b_fw s) x /\ paged (b_fw s') x.

Lemma framed_capture_map P : pres (framed P) (panthera_capture_memory_map (F := F)).
Proof.
  unfold panthera_capture_memory_map.
  apply (framed_bind_val _ (fun r => mr_status r = EFI_BUFFER_TOO_SMALL -> 0 <= mr_size r < 2 ^ 63)).
  - apply framed_get_memory_map; [done|]. intros x Hx. lia.
  - intros s r s' _ Hr. unfold get_memory_map in Hr. apply bind_ok in Hr as (r' & s1 & Hc & Hr). run_inv.
    pose proof (GetMemoryMap_law 0 0 (b_fw s)) as Hl.
    match goal with Hc : GetMemoryMap _ _ _ = _ |- _ => rewrite Hc in Hl end. by apply Hl.
  - intros r Hr. destruct (Z.eqb_spec (mr_status r) EFI_BUFFER_TOO_SMALL) as [E|]; cbn [negb]; [|framed_tac].
    specialize (Hr E). set (cap := if _ <? _ then _ else _).
    assert (Hcap : 0 <= cap < 2 ^ 63).
    { unfold cap, PANTHERA_MEMORY_MAP_BUFFER_SIZE. case_match; lia. }
    apply framed_bind_pages; [lia|]. intros b _ _ Ho.
    apply pres_bind; [apply _|by apply framed_zero|]. intros _.
    apply pres_bind; [apply _|apply framed_get_memory_map; [lia|done]|]. intros r'. framed_tac.
Qed.

Lemma framed_capture_table P t (s : boot_state F) :
  mem_wf (b_mem s) -> table_sane t s -> framed P s (panthera_capture_system_table t s).2.
Proof.
  intros Hw [_ Hn]. unfold panthera_capture_system_table, bind at 1, get_mem at 1. cbv beta iota.
  pose proof (mread_range (b_mem s) (t + NumberOfTableEntries_offset) 8 Hw) as Hr.
  set (n := mread (b_mem s) (t + NumberOfTableEntries_offset) 8) in *.
  unfold sizeof_EFI_CONFIGURATION_TABLE, sizeof_EFI_SYSTEM_TABLE.
  assert (E1 : n *64 24 = n * 24) by (wrap_tac; done).
  assert (E2 : 120 +64 n * 24 = 120 + n * 24) by (wrap_tac; done).
  rewrite E1, E2. match goal with |- framed P s (?K s).2 => enough (Hk : pres (framed P) K) by apply Hk end.
  apply framed_bind_pages; [lia|]. intros b Hb0 Hb1 Ho. apply pres_bind; [apply _| |intros _].
  { apply framed_copy; [lia|]. intros x Hx. apply Ho. lia. }
  apply pres_bind; [apply _| |intros _].
  { destruct (n * 24 =? 0); [framed_tac|]. apply pres_bind; [apply _|apply pres_get_mem, _|]. intros m.
    apply framed_copy; [lia|]. rewrite wrap_small by lia. intros x Hx. apply Ho. lia. }
  apply pres_bind; [apply _| |framed_tac].
  intros s'. apply (framed_write P (b + ConfigurationTable_offset) 8 _ s').
  unfold ConfigurationTable_offset. intros x Hx. apply Ho. lia.
Qed.

Lemma framed_allocate_args P : pres (framed P) (panthera_allocate_boot_args (F := F)).
Proof.
  pose proof boot_args_small. pose proof line_inside.
  apply (framed_bind_pages P sizeof_boot_args); [lia|]. intros b _ _ Ho.
  apply pres_bind; [apply _|by apply framed_zero|framed_tac].
Qed.

Lemma pages_get_memory_map size buffer : pres pages_kept (get_memory_map (F := F) size buffer).
Proof.
  unfold get_memory_map. apply pres_bind; [apply _| |intros r; kept_tac].
  intros s x Hx. unfold call. pose proof (GetMemoryMap_law size buffer (b_fw s)) as Hl.
  destruct (GetMemoryMap size buffer (b_fw s)) as [r fw]. destruct Hl as [[Hk _] _]. by apply Hk.
Qed.

Lemma new_pages size (s : boot_state F) b s' :
  0 <= size <= 2 ^ 64 - 4096 -> panthera_allocate_pages size s = (Ok b, s') ->
  0 <= b /\ b + size < 2 ^ 64 /\ new_range s s' b size.
Proof.
  intros Hs Hr. apply allocate_pages_ok in Hr as (_ & (_ & ? & _ & ? & Hf & _)).
  pose proof (pages_of_bound size Hs). split_and!; [lia|lia|]. intros x Hx. apply Hf. lia.
Qed.

Lemma new_range_kept (s s1 s2 : boot_state F) b n :
  new_range s s1 b n -> pages_kept s1 s2 -> new_range s s2 b n.
Proof. intros Hn Hp x Hx. destruct (Hn x Hx). auto. Qed.

Lemma new_range_before (s s1 s2 : boot_state F) b n :
  pages_kept s s1 -> new_range s1 s2 b n -> new_range s s2 b n.
Proof. intros Hp Hn x Hx. destruct (Hn x Hx) as [H1' H2']. split; [|done]. intros Hq. by apply H1', Hp. Qed.

Lemma framed_pages (s s' : boot_state F) :
  mem_wf (b_mem s) -> (forall P, framed P s s') -> mem_wf (b_mem s') /\ pages_kept s s'.
Proof. intros Hw Hf. destruct (Hf (paged (b_fw s))) as [[Hw' Hp] _]; [by split|]. done. Qed.

Lemma capture_map_ok (s : boot_state F) info s' :
  panthera_capture_memory_map s = (Ok info, s') ->
  let capacity := b_vars s' gMemoryMapCapacity in
  0 < capacity /\ 0 <= mi_map info /\ mi_map info + capacity < 2 ^ 64 /\
  new_range s s' (mi_map info) capacity.
Proof.
  intros Hr. unfold panthera_capture_memory_map in Hr. apply bind_ok in Hr as (r & s1 & Hm & Hr).
  assert (K1 : pages_kept s s1) by (eapply pres_run; [|exact Hm]; apply pages_get_memory_map).
  assert (Hl : (mr_status r = EFI_BUFFER_TOO_SMALL -> 0 <= mr_size r < 2 ^ 63) /\ EFI_ERROR (mr_status r) = true).
  { unfold get_memory_map in Hm. apply bind_ok in Hm as (r' & s2 & Hc & Hm). run_inv.
    pose proof (GetMemoryMap_law 0 0 (b_fw s)) as Hl.
    match goal with Hc : GetMemoryMap _ _ _ = _ |- _ => rewrite Hc in Hl end.
    destruct Hl as (_ & _ & _ & Hl & Hs). split; [done|]. destruct (EFI_ERROR (mr_status _)); [done|].
    destruct (Hs eq_refl) as (_ & ? & _). lia. }
  clear Hm. destruct Hl as [Hl He].
  destruct (Z.eqb_spec (mr_status r) EFI_BUFFER_TOO_SMALL) as [E|]; cbn [negb] in Hr.
  2:{ apply bind_ok in Hr as (? & ? & Hc & _). apply check_ok in Hc as [? _]. congruence. }
  specialize (Hl E). set (cap := if _ <? _ then _ else _) in Hr.
  assert (Hcap : 0 < cap < 2 ^ 63).
  { unfold cap, PANTHERA_MEMORY_MAP_BUFFER_SIZE. case_match; lia. }
  apply bind_ok in Hr as (b & s2 & Ha & Hr). apply new_pages in Ha as (Hb0 & Hb1 & Hn); [|lia].
  apply bind_ok in Hr as ([] & s3 & Hz & Hr). apply bind_ok in Hr as (r' & s4 & Hm & Hr).
  assert (K3 : pages_kept s2 s3) by (eapply pres_run; [|exact Hz]; kept_tac).
  assert (K4 : pages_kept s3 s4) by (eapply pres_run; [|exact Hm]; apply pages_get_memory_map).
  run_inv. cbn [mi_map]. autorewrite with panthera. split_and!; [lia|lia|lia|].
  eapply new_range_before; [exact K1|]. eapply new_range_kept; [exact Hn|]. by etrans.
Qed.

Lemma or_hex_ok {A} label (m : M F A) s a s' : or_hex label m s = (Ok a, s') -> m s = (Ok a, s').
Proof. apply on_error_ok. Qed.

(** A step that only prints: nothing is lost and no variable changes. *)
Definition calm (s s' : boot_state F) : Prop := (forall P, framed P s s') /\ globals_kept s s'.

Lemma calm_run {A} (m : M F A) s r s' :
  (forall P, pres (framed P) m) -> pres globals_kept m -> m s = (r, s') -> calm s s'.
Proof. intros Hf Hg Hr. split; [intros P|]; (eapply pres_run; [|exact Hr]); auto. Qed.

Lemma calm_trans s1 s2 s3 : calm s1 s2 -> calm s2 s3 -> calm s1 s3.
Proof. intros [F1 G1] [F2 G2]. split; [intros P; etrans; [apply F1|apply F2]|by etrans]. Qed.

Lemma show_uint_calm label v (s : boot_state F) s' : show_uint label v s = (Ok tt, s') -> calm s s'.
Proof. apply calm_run; [intros P; framed_tac|kept_tac]. Qed.

Lemma show_hex_calm label v (s : boot_state F) s' : show_hex label v s = (Ok tt, s') -> calm s s'.
Proof. apply calm_run; [intros P; framed_tac|kept_tac]. Qed.

Lemma show_var_hex_calm label x (s : boot_state F) s' :
  (let! v := get_var x in show_hex label v) s = (Ok tt, s') -> calm s s'.
Proof. apply calm_run; [intros P; framed_tac|kept_tac]. Qed.

Lemma show_var_uint_calm label x (s : boot_state F) s' :
  (let! v := get_var x in show_uint label v) s = (Ok tt, s') -> calm s s'.
Proof. apply calm_run; [intros P; framed_tac|kept_tac]. Qed.

Lemma check_low32_ok x text (s : boot_state F) s' :
  check_low32 x text s = (Ok tt, s') -> b_vars s x < 2 ^ 32 /\ s' = s.
Proof.
  unfold check_low32. intros Hr. apply bind_ok in Hr as (v & s1 & Hv & Hr). injection Hv as <- <-.
  apply on_error_ok in Hr. by apply ensure_low32_ok.
Qed.

Lemma table_sane_framed t (s s' : boot_state F) :
  mem_wf (b_mem s) -> (forall P, framed P s s') -> table_sane t s -> table_sane t s'.
Proof.
  intros Hw Hf [Hp Hn]. destruct (Hf (paged (b_fw s))) as [[Hw' Hp'] Hm]; [by split|].
  split; [intros x Hx; by apply Hp', Hp|]. erewrite mread_ext; [exact Hn|].
  intros b Hb. apply Hm, Hp. unfold NumberOfTableEntries_offset, sizeof_EFI_SYSTEM_TABLE in *. lia.
Qed.

Lemma capture_table_ok t (s : boot_state F) b s' :
  mem_wf (b_mem s) -> table_sane t s -> panthera_capture_system_table t s = (Ok b, s') ->
  0 <= b /\ (forall P, framed P s s') /\ globals_kept s s'.
Proof.
  intros Hw Ht Hr. split_and!.
  - unfold panthera_capture_system_table in Hr. apply bind_ok in Hr as (m & s1 & _ & Hr).
    apply bind_ok in Hr as (b' & s2 & Ha & Hr). apply allocate_pages_ok in Ha as (_ & (_ & ? & _)).
    run_inv. done.
  - intros P. pose proof (framed_capture_table P t s Hw Ht) as Hf. by rewrite Hr in Hf.
  - assert (Hg : pres globals_kept (panthera_capture_system_table (F := F) t)) by kept_tac.
    by eapply pres_run.
Qed.

Lemma new_ranges_apart (s s1 s2 s' : boot_state F) b n b' n' :
  new_range s s1 b n -> pages_kept s1 s2 -> new_range s2 s' b' n' -> 0 < n -> 0 < n' ->
  b + n <= b' \/ b' + n' <= b.
Proof.
  intros H1' Hk H2' Hn Hn'. destruct (decide (b + n <= b' \/ b' + n' <= b)) as [|Hc]; [done|exfalso].
  destruct (H1' (Z.max b b') ltac:(lia)) as [_ Hp]. destruct (H2' (Z.max b b') ltac:(lia)) as [Hq _].
  by apply Hq, Hk.
Qed.

(** What capturing leaves: the buffers of the memory map and of the boot
    arguments, in new pages, apart from each other. *)
Record captured (s s' : boot_state F) (map capacity args table : Z) : Prop := {
  captured_frame : forall P, framed P s s';
  captured_wf : mem_wf (b_mem s');
  captured_capacity : b_vars s' gMemoryMapCapacity = capacity /\ 0 < capacity;
  captured_args : b_vars s' gBootArgsBase = args /\ 0 <= args < 2 ^ 32;
  captured_table : b_vars s' gSystemTableBase = table /\ 0 <= table < 2 ^ 32;
  captured_map : 0 <= map /\ map + capacity < 2 ^ 64 /\ new_range s s' map capacity;
  captured_new : new_range s s' args sizeof_boot_args;
  captured_apart : map + capacity <= args \/ args + sizeof_boot_args <= map
}.

Lemma capture_firmware_ok t (s : boot_state F) info table args s' :
  mem_wf (b_mem s) -> table_sane t s -> capture_firmware t s = (Ok (info, table, args), s') ->
  captured s s' (mi_map info) (b_vars s' gMemoryMapCapacity) args table.
Proof.
  intros Hw Ht Hr. unfold capture_firmware in Hr.
  apply bind_ok in Hr as (i & s1 & H1' & Hr). apply or_hex_ok in H1'.
  assert (F1 : forall P, framed P s s1) by (intros P; eapply pres_run; [|exact H1']; apply framed_capture_map).
  destruct (framed_pages _ _ Hw F1) as [W1 K1]. apply capture_map_ok in H1' as (Hc & Hm0 & Hm1 & Hn1).
  apply bind_ok in Hr as ([] & s2 & H2' & Hr). apply show_uint_calm in H2'.
  apply bind_ok in Hr as ([] & s3 & H3' & Hr). apply show_uint_calm in H3'.
  apply bind_ok in Hr as ([] & s4 & H4' & Hr). apply show_hex_calm in H4'.
  apply bind_ok in Hr as ([] & s5 & H5' & Hr). apply show_var_hex_calm in H5'.
  assert (C5 : calm s1 s5) by (do 3 (eapply calm_trans; [eassumption|]); done).
  clear H2' H3' H4' H5'. destruct C5 as [F5 G5]. destruct (framed_pages _ _ W1 F5) as [W5 K5].
  pose proof (table_sane_framed t _ _ W1 F5 (table_sane_framed t _ _ Hw F1 Ht)) as T5.
  apply bind_ok in Hr as (tb & s6 & H6' & Hr). apply or_hex_ok in H6'.
  apply capture_table_ok in H6' as (Ht0 & F6 & G6); [|done|done].
  destruct (framed_pages _ _ W5 F6) as [W6 K6].
  apply bind_ok in Hr as ([] & s7 & H7' & Hr). injection H7' as <-.
  apply bind_ok in Hr as ([] & s8 & H8' & Hr). apply show_hex_calm in H8' as [F8 G8].
  apply bind_ok in Hr as ([] & s9 & H9' & Hr). apply check_low32_ok in H9' as [Ht1 ->].
  assert (F68 : forall P, framed P s6 s8) by (intros P; etrans; [|apply F8]; by apply framed_same).
  destruct (framed_pages _ _ W6 F68) as [W8 K8].
  apply bind_ok in Hr as (a & s10 & Ha & Hr). apply or_hex_ok in Ha.
  assert (F10 : forall P, framed P s8 s10) by (intros P; eapply pres_run; [|exact Ha]; apply framed_allocate_args).
  assert (G10 : globals_kept s8 s10) by (eapply pres_run; [|exact Ha]; kept_tac).
  destruct (framed_pages _ _ W8 F10) as [W10 K10].
  pose proof boot_args_small. pose proof line_inside.
  apply bind_ok in Ha as (b & s11 & Hb & Hz). apply new_pages in Hb as (Hb0 & Hb1 & Hn2); [|lia].
  assert (K11 : pages_kept s11 s10) by (eapply pres_run; [|exact Hz]; kept_tac).
  apply bind_ok in Hz as ([] & s12 & _ & Hz). apply ret_ok in Hz as [-> ->].
  apply bind_ok in Hr as ([] & s13 & H13' & Hr). injection H13' as <-.
  apply bind_ok in Hr as ([] & s14 & H14' & Hr). apply check_low32_ok in H14' as [Ha1 ->].
  apply ret_ok in Hr as [[= <- <- <-] <-]. autorewrite with panthera in *.
  assert (Ev : forall x, x <> gSystemTableBase -> b_vars s10 x = b_vars s1 x).
  { intros x Hx. rewrite (proj1 G10), (proj1 G8), var_other, (proj1 G6), (proj1 G5) by done. done. }
  assert (Ht2 : b_vars s10 gSystemTableBase = tb).
  { rewrite (proj1 G10), (proj1 G8), var_same. done. }
  rewrite <- (proj1 G10), Ht2 in Ht1. rewrite (Ev gMemoryMapCapacity) by done.
  assert (K1a : pages_kept s1 s8) by (etrans; [exact K5|]; etrans; [exact K6|exact K8]).
  assert (Hn2' : new_range s8 s10 a sizeof_boot_args) by (by eapply new_range_kept).
  split.
  - intros P. etrans; [apply F1|]. etrans; [apply F5|]. etrans; [apply F6|]. etrans; [apply F68|].
    etrans; [apply F10|]. by apply framed_same.
  - done.
  - autorewrite with panthera. by rewrite (Ev gMemoryMapCapacity).
  - autorewrite with panthera. lia.
  - autorewrite with panthera. lia.
  - split_and!; [lia|lia|]. eapply new_range_kept; [exact Hn1|]. etrans; [exact K1a|exact K10].
  - eapply new_range_before; [|exact Hn2']. by etrans.
  - eapply new_ranges_apart; [exact Hn1|exact K1a|exact Hn2'|lia|lia].
Qed.
End Capture.

(** ** Staging boot data *)
Section BootData.
Context {F : Type} `{LawfulFirmware F} `{LawfulABI}.

Lemma grows_framed (s s' : boot_state F) P : grows s s' -> framed P s s'.
Proof.
  intros Hg [Hw Hp]. destruct (Hg Hw) as [Hw' G]. split; [split; [done|]|];
    intros x Hx; by apply G, Hp.
Qed.

Lemma framed_grows_run (s s' : boot_state F) : (forall P, framed P s s') -> grows s s'.
Proof. intros Hf Hw. destruct (Hf (paged (b_fw s))) as [[Hw' Hp] Hm]; [by split|]. auto. Qed.

Definition default_line : list Z := panthera_copy_ascii command_line_size PANTHERA_DEFAULT_BOOT_ARGS.

(** The default command line, or what the file says. *)
Definition command_line_ok (line : list Z) : Prop :=
  line = default_line \/ line = (boot_command_line (volume path_boot_args)).1.

Lemma command_line_ok_bytes line : command_line_ok line -> Forall byte line.
Proof.
  intros [->| ->]; [|apply boot_command_line_bytes, volume_bytes].
  apply (bool_decide_unpack _). vm_compute. exact I.
Qed.

Lemma load_command_line_ok ih (s s' : boot_state F) :
  mem_wf (b_mem s) -> panthera_load_boot_command_line ih s = (Ok tt, s') ->
  command_line_ok (gBootCommandLine s') /\ grows s s' /\ vars_kept [] s s'.
Proof.
  intros Hw Hr. split_and!.
  2:{ apply framed_grows_run. intros P. eapply pres_run; [|exact Hr]. apply framed_load_command_line. }
  - unfold panthera_load_boot_command_line in Hr. apply bind_ok in Hr as ([] & s1 & H1' & Hr).
    injection H1' as <-. apply bind_ok in Hr as (r & s2 & H2' & Hr).
    set (p := match r with inl p => p | inr _ => (0, 0) end) in Hr.
    assert (Hd : gBootCommandLine s2 = default_line).
    { assert (Hg : pres globals_kept (attempt (panthera_load_kernel_file (F := F) ih path_boot_args)))
        by apply pres_attempt, globals_load_kernel_file.
      apply (pres_run _ _ _ _ _ Hg) in H2' as (_ & _ & -> & _). reflexivity. }
    assert (Hp : p.1 = 0 \/ mbytes (b_mem s2) p.1 (Z.to_nat p.2) = volume path_boot_args).
    { destruct r as [[buf size]|st]; [right|by left]. apply attempt_ok in H2'.
      apply load_kernel_file_ok in H2' as (_ & -> & _ & Hh & _); [|done]. cbn. by rewrite Nat2Z.id. }
    clear H2'. destruct p as [buf size]. cbn [fst snd] in Hp. apply bind_ok in Hr as (used & s3 & H3' & Hr).
    assert (Hl : command_line_ok (gBootCommandLine s3)).
    { destruct (Z.eqb_spec buf 0); cbn [orb] in H3'; [apply ret_ok in H3' as [_ <-]; by left|].
      destruct (size =? 0); [apply ret_ok in H3' as [_ <-]; by left|]. destruct Hp as [|Hp]; [done|].
      apply bind_ok in H3' as (m & s4 & H4' & H3'). injection H4' as <- <-. rewrite Hp in H3'. right.
      destruct (boot_command_line _) as [line u]. apply bind_ok in H3' as ([] & s5 & H5' & H3').
      injection H5' as <-. by apply ret_ok in H3' as [_ <-]. }
    match type of Hr with ?K s3 = _ => assert (Hg : pres globals_kept K) by (clear; kept_tac) end.
    apply (pres_run _ _ _ _ _ Hg) in Hr as (_ & _ & -> & _). done.
  - eapply pres_run; [|exact Hr]. kept_tac.
Qed.

Lemma device_tree_run old n (s s' : boot_state F) :
  let bytes := encode_tree (device_tree (take n (gBootKextRecords s)) (b_vars s gFSBFrequencyHz)) in
  owned old s -> b_vars s gBootKextCount = Z.of_nat n -> (n <= 34)%nat ->
  length (gBootKextRecords s) = 34%nat -> Forall record_ok (take n (gBootKextRecords s)) ->
  panthera_build_synthetic_device_tree s = (Ok tt, s') ->
  0 <= b_vars s' gDeviceTreeBase /\ b_vars s' gDeviceTreeSize = Z.of_nat (length bytes) /\
  region old s' (b_vars s' gDeviceTreeBase) bytes /\ grows s s' /\
  vars_kept [gDeviceTreeBase; gDeviceTreeSize] s s' /\
  gBootKextRecords s' = gBootKextRecords s /\ gBootCommandLine s' = gBootCommandLine s.
Proof.
  intros bytes [Hw Ho] Hc Hn Hl Hr E. unfold panthera_build_synthetic_device_tree in E.
  apply bind_ok in E as (base & s1 & Ha & E). pose proof Ha as Ha'.
  apply new_pages in Ha as (Hb0 & Hb1 & Hnew); [|unfold PANTHERA_DEVICE_TREE_MAX_SIZE; lia].
  apply allocate_pages_ok in Ha' as ([es E1] & (Hk & _)).
  assert (V1 : b_vars s1 = b_vars s /\ gBootKextRecords s1 = gBootKextRecords s /\
    gBootCommandLine s1 = gBootCommandLine s /\ b_mem s1 = b_mem s) by (rewrite E1; done).
  clear E1. destruct V1 as (V1 & R1 & L1 & M1).
  apply bind_ok in E as ([] & s2 & H2' & E). injection H2' as <-.
  pose proof (build_in_buffer_run (set_var s1 gDeviceTreeBase base) base n) as Hb.
  cbv zeta in Hb. rewrite !var_other, V1 in Hb by discriminate.
  change (gBootKextRecords (set_var s1 gDeviceTreeBase base)) with (gBootKextRecords s1) in Hb.
  rewrite R1 in Hb. fold bytes in Hb. destruct (Hb Hc Hn Hl Hr) as (m' & E' & Hh & Hi & Hw'). clear Hb.
  change (b_mem (set_var s1 gDeviceTreeBase base)) with (b_mem s1) in Hi, Hw'. rewrite M1 in Hi, Hw'.
  assert (Hlen : Z.of_nat (length bytes) <= PANTHERA_DEVICE_TREE_MAX_SIZE).
  { pose proof (length_encode_device_tree _ (b_vars s gFSBFrequencyHz) Hr) as Hle. fold bytes in Hle.
    rewrite length_take in Hle. unfold PANTHERA_DEVICE_TREE_MAX_SIZE. lia. }
  clearbody bytes. rewrite E' in E. injection E as <-.
  rewrite var_same, var_other, vars_set_mem, var_same by discriminate.
  split_and!; [exact Hb0|reflexivity| | | |exact R1|exact L1].
  - split; [exact Hh|]. intros x Hx. destruct (Hnew x ltac:(lia)) as [Hx1 Hx2].
    split; [exact Hx2|]. intros Hox. by apply Hx1, Ho.
  - intros _. split; [by apply Hw'|]. intros x Hx. split; [by apply Hk|]. apply Hi.
    destruct (decide (base <= x < base + PANTHERA_DEVICE_TREE_MAX_SIZE)) as [Hin|]; [|lia].
    by destruct (Hnew x Hin).
  - intros x Hx. assert (x <> gDeviceTreeBase /\ x <> gDeviceTreeSize) as [? ?] by (clear - Hx; set_solver).
    rewrite var_other, vars_set_mem, var_other by done. by rewrite V1.
Qed.

Lemma staged_impl old old' low (s s' : boot_state F) e r :
  (forall b bs, staged_bytes old low s b bs -> staged_bytes old' low s' b bs) ->
  staged old low s e r -> staged old' low s' e r.
Proof.
  intros Hb ([H1' (p & H2' & H3' & H4') H5' [H6' H7']] & H8' & H9' & H10').
  split_and!; [|done|done|by apply Hb]. split; [done| | |by split; [|apply Hb]].
  - exists p. split_and!; [done|done|by apply Hb].
  - destruct (executable_path e); [|done]. destruct H5'. by split; [|apply Hb].
Qed.

Lemma region_framed old (s s' : boot_state F) b bs :
  mem_wf (b_mem s) -> framed (fun x => paged (b_fw s) x /\ ~ old x) s s' ->
  region old s b bs -> region old s' b bs.
Proof.
  intros Hw Hf [Hh Hp]. destruct Hf as [[_ Hp'] Hm]; [split; [done|tauto]|]. split.
  - eapply holds_ext; [|exact Hh]. intros x Hx. by apply Hm, Hp.
  - intros x Hx. split; [by apply Hp', Hp|by apply Hp].
Qed.

Lemma staged_framed old low (s s' : boot_state F) e r :
  mem_wf (b_mem s) -> framed (fun x => paged (b_fw s) x /\ ~ old x) s s' -> cursor s' = cursor s ->
  staged old low s e r -> staged old low s' e r.
Proof.
  intros Hw Hf Hc. apply staged_impl. intros b bs (Hr & Hb & Hlo & Hl). split_and!; [|lia..].
  by eapply region_framed.
Qed.

Lemma staged_record_ok old low (s : boot_state F) e r :
  entry_ok e = true -> staged old low s e r -> record_ok r.
Proof.
  intros He ([Hn _ _ _] & _). unfold record_ok. rewrite Hn. unfold entry_ok in He.
  do 5 apply andb_prop in He as [He _]. apply andb_prop in He as [Hl Hc]. split.
  - by apply Nat.leb_le.
  - apply Forall_forall. intros c Hin. rewrite forallb_forall in Hc.
    specialize (Hc c (proj1 (list_elem_of_In _ _) Hin)). apply andb_prop in Hc as [? ?]. lia.
Qed.

(** What staging leaves: the command line, the extensions and the device tree in
    pages that are not [old], the extensions at or above [low]. *)
Record boot_data (old : Z -> Prop) (low : Z) (s : boot_state F) (es : list PantheraBootKextManifestEntry)
    (records : list PantheraBootKextRecord) : Prop := {
  data_line : command_line_ok (gBootCommandLine s);
  data_enabled : es = enabled_entries (gBootCommandLine s) gBootKextManifest;
  data_records : records = take (length es) (gBootKextRecords s);
  data_staged : Forall2 (staged old low s) es records;
  data_reserved : reserved_ok s;
  data_tree_ok : Forall record_ok records /\ (length records <= 34)%nat;
  data_tree_base : 0 <= b_vars s gDeviceTreeBase < 2 ^ 32;
  data_tree_size : b_vars s gDeviceTreeSize =
    Z.of_nat (length (encode_tree (device_tree records (b_vars s gFSBFrequencyHz))));
  data_tree : region old s (b_vars s gDeviceTreeBase)
    (encode_tree (device_tree records (b_vars s gFSBFrequencyHz)))
}.

Lemma stage_boot_data_ok ih (s s' : boot_state F) :
  mem_wf (b_mem s) -> stage_boot_data ih s = (Ok tt, s') ->
  grows s s' /\ exists es records, boot_data (paged (b_fw s)) (cursor s) s' es records.
Proof.
  intros Hw Hr. unfold stage_boot_data in Hr.
  apply bind_ok in Hr as ([] & s1 & H1' & Hr). apply or_hex_ok, load_command_line_ok in H1' as (L1 & G1 & EV1); [|done].
  pose proof (owned_grows (paged (b_fw s)) _ _ G1 ltac:(by split)) as O1.
  apply bind_ok in Hr as ([] & s2 & H2' & Hr). apply or_hex_ok, (stage_boot_kexts_ok (paged (b_fw s)) (cursor s)) in H2';
    [|split; [exact O1|unfold cursor; rewrite EV1 by (clear; set_solver); lia]]. destruct H2' as (Hc & Hn & Hf & Hres & V2 & Cu & VK & L2).
  pose proof (owned_grows (paged (b_fw s)) _ _ V2 O1) as O2.
  pose proof (enabled_length (gBootCommandLine s1)) as Hlen.
  pose proof (enabled_entry_ok (gBootCommandLine s1)) as Hok. cbv zeta in Hc, Hf.
  remember (enabled_entries (gBootCommandLine s1) gBootKextManifest) as es eqn:Ees.
  assert (Hrec : Forall record_ok (take (length es) (gBootKextRecords s2))).
  { apply Forall_forall. intros r Hin. apply list_elem_of_lookup in Hin as [i Hi].
    destruct (Forall2_lookup_r _ _ _ _ _ Hf Hi) as (e & He & Hs).
    eapply staged_record_ok; [|exact Hs]. exact (Forall_lookup_1 _ _ _ _ Hok He). }
  apply bind_ok in Hr as ([] & s3 & H3' & Hr). apply show_var_uint_calm in H3' as [F3 (EV3 & _ & EL3 & ER3)].
  pose proof (framed_grows_run _ _ F3) as G3. pose proof (owned_grows (paged (b_fw s)) _ _ G3 O2) as O3.
  apply bind_ok in Hr as ([] & s4 & H4' & Hr). apply or_hex_ok in H4'.
  apply (device_tree_run (paged (b_fw s)) (length es)) in H4';
    [|exact O3|by rewrite EV3|lia|by rewrite ER3|by rewrite ER3].
  rewrite ER3, EV3 in H4'. destruct H4' as (B0 & Bs & Br & G4 & V4 & R4 & L4).
  apply bind_ok in Hr as ([] & s5 & H5' & Hr). apply check_low32_ok in H5' as [B1 ->].
  apply bind_ok in Hr as ([] & s6 & H6' & Hr). apply show_var_hex_calm in H6'.
  apply show_var_uint_calm in Hr. destruct (calm_trans _ _ _ H6' Hr) as [F7 (EV7 & _ & EL7 & ER7)].
  pose proof (framed_grows_run _ _ F7) as G7. clear H6' Hr.
  assert (G27 : grows s2 s') by (etrans; [exact G3|]; etrans; [exact G4|exact G7]).
  assert (Ev : forall x, x ∉ [gDeviceTreeBase; gDeviceTreeSize] -> b_vars s' x = b_vars s2 x).
  { intros x Hx. by rewrite EV7, V4, EV3. }
  split; [etrans; [exact G1|]; etrans; [exact V2|exact G27]|].
  assert (El : gBootCommandLine s' = gBootCommandLine s1) by by rewrite EL7, L4, EL3, L2.
  assert (Er : gBootKextRecords s' = gBootKextRecords s2) by by rewrite ER7, R4.
  exists es, (take (length es) (gBootKextRecords s2)). split.
  - by rewrite El.
  - rewrite El. exact Ees.
  - by rewrite Er.
  - eapply Forall2_impl; [exact Hf|]. intros e r. apply staged_impl. intros b bs (Hreg & Hb & Hlo & Hcur).
    split_and!; [eapply region_grows; [apply O2|exact G27|exact Hreg]|lia|lia|lia|].
    unfold cursor. by rewrite Ev by (clear; set_solver).
  - unfold reserved_ok, cursor in *. by rewrite !Ev by (clear; set_solver).
  - split; [exact Hrec|]. rewrite length_take. lia.
  - rewrite EV7. lia.
  - rewrite EV7, Bs, (V4 gFSBFrequencyHz) by (clear; set_solver). by rewrite EV3.
  - rewrite EV7, (V4 gFSBFrequencyHz), EV3 by (clear; set_solver). eapply region_grows; [|exact G7|exact Br].
    apply (owned_grows (paged (b_fw s)) _ _ G4 O3).
Qed.
End BootData.

(** ** Preparing the handoff *)
Section Prepare.
Context {F : Type} `{LawfulFirmware F} `{LawfulABI}.

Definition line_kept : relation (boot_state F) := fun s s' => gBootCommandLine s' = gBootCommandLine s.

#[export] Instance line_kept_preorder : PreOrder line_kept.
Proof. split; [done|]. intros s1 s2 s3 E1 E2. unfold line_kept in *. congruence. Qed.

(** Only the variables of [X] change; the records and the command line stay. *)
Definition state_kept (X : list gvar) : relation (boot_state F) := fun s s' =>
  vars_kept X s s' /\ records_kept s s' /\ line_kept s s'.

#[export] Instance state_kept_preorder X : PreOrder (state_kept X).
Proof.
  split; [intros s; split_and!; reflexivity|].
  intros s1 s2 s3 (V1 & R1 & L1) (V2 & R2 & L2). split_and!; by etrans.
Qed.

Lemma state_kept_run X {A} (m : M F A) s r s' :
  pres (vars_kept X) m -> pres records_kept m -> pres line_kept m -> m s = (r, s') -> state_kept X s s'.
Proof. intros Hv Hr Hl E. split_and!; by eapply pres_run. Qed.

Lemma handoff_code_ok (s s' : boot_state F) :
  panthera_prepare_handoff_code s = (Ok tt, s') -> 0 <= b_vars s' gHandoffCodeBase.
Proof.
  unfold panthera_prepare_handoff_code. intros Hr. apply bind_ok in Hr as (code & s1 & Ha & Hr).
  apply allocate_pages_ok in Ha as (_ & (_ & Hb & _)). apply bind_ok in Hr as ([] & s2 & Hp & Hr).
  injection Hp as <-.
  match type of Hr with ?K _ = _ => assert (Hk : pres (vars_kept [gHandoffCodeSize]) K) by kept_tac end.
  apply (pres_run _ _ _ _ _ Hk) in Hr. rewrite Hr by (clear; set_solver). by rewrite var_same.
Qed.

Lemma handoff_stack_ok (s s' : boot_state F) :
  panthera_prepare_handoff_stack s = (Ok tt, s') ->
  0 <= b_vars s' gHandoffStackBase /\ b_vars s' gHandoffStackBase + PANTHERA_HANDOFF_STACK_SIZE < 2 ^ 64.
Proof.
  unfold panthera_prepare_handoff_stack. intros Hr. apply bind_ok in Hr as (stack & s1 & Ha & Hr).
  apply new_pages in Ha as (Hb & Hb' & _); [|unfold PANTHERA_HANDOFF_STACK_SIZE; lia].
  apply bind_ok in Hr as ([] & s2 & Hp & Hr). injection Hp as <-.
  match type of Hr with ?K _ = _ => assert (Hk : pres (vars_kept []) K) by kept_tac end.
  apply (pres_run _ _ _ _ _ Hk) in Hr. rewrite Hr by (clear; set_solver). by rewrite var_same.
Qed.

Lemma prepare_handoff_ok (s s' : boot_state F) :
  prepare_handoff s = (Ok tt, s') ->
  (forall P, framed P s s') /\
  state_kept [gHandoffCodeBase; gHandoffCodeSize; gHandoffStackBase] s s' /\
  0 <= b_vars s' gHandoffCodeBase < 2 ^ 32 /\
  0 <= b_vars s' gHandoffStackBase /\ b_vars s' gHandoffStackBase + PANTHERA_HANDOFF_STACK_SIZE < 2 ^ 32.
Proof.
  intros Hr. split; [intros P; eapply pres_run; [|exact Hr]; apply framed_prepare_handoff|].
  split; [eapply state_kept_run; [| | |exact Hr]; kept_tac|].
  unfold prepare_handoff in Hr. apply bind_ok in Hr as ([] & s1 & H1' & Hr).
  apply or_hex_ok, handoff_code_ok in H1'.
  apply bind_ok in Hr as ([] & s2 & H2' & Hr). apply show_var_hex_calm in H2' as [_ [E2 _]].
  apply bind_ok in Hr as ([] & s3 & H3' & Hr). apply show_var_uint_calm in H3' as [_ [E3 _]].
  apply bind_ok in Hr as ([] & s4 & H4' & Hr). apply check_low32_ok in H4' as [Hc ->].
  apply bind_ok in Hr as ([] & s5 & H5' & Hr). apply or_hex_ok in H5'.
  assert (V5 : vars_kept [gHandoffStackBase] s3 s5) by (eapply pres_run; [|exact H5']; kept_tac).
  apply handoff_stack_ok in H5' as [Hs0 Hs1].
  apply bind_ok in Hr as ([] & s6 & H6' & Hr). apply show_var_hex_calm in H6' as [_ [E6 _]].
  apply bind_ok in Hr as (v & s7 & Hv & Hr). injection Hv as <- <-.
  apply (on_error_ok (panthera_ensure_low32 _)), ensure_low32_ok in Hr as [Hs2 ->].
  rewrite E6 in *. rewrite (V5 gHandoffCodeBase) by (clear; set_solver). rewrite E3, E2 in *.
  rewrite wrap_small in Hs2 by (unfold PANTHERA_HANDOFF_STACK_SIZE in *; lia). lia.
Qed.
End Prepare.

(** ** The addresses of the kernel *)
Section Bases.
Context {F : Type} `{LawfulFirmware F}.

Lemma wrap_nonneg z : 0 <= wrap 64 z.
Proof. apply Z.mod_pos_bound. lia. Qed.

Lemma locate_text_ok (s s' : boot_state F) :
  locate_text s = (Ok tt, s') -> 0 <= b_vars s' gKernelTextBase.
Proof.
  unfold locate_text. intros Hr. apply bind_ok in Hr as (image & s1 & H1' & Hr). injection H1' as <- <-.
  apply bind_ok in Hr as (b & s1 & H1' & Hr). injection H1' as <- <-.
  destruct (panthera_find_segment _ _) as [g|]; [|apply bind_ok in Hr as (? & ? & _ & Hr); done].
  apply bind_ok in Hr as ([] & s2 & H2' & Hr). injection H2' as <-.
  apply show_hex_calm in Hr as [_ [-> _]]. rewrite var_same. apply wrap_nonneg.
Qed.

Lemma locate_entry_ok (s s' : boot_state F) :
  locate_entry s = (Ok tt, s') -> 0 < b_vars s' gKernelEntryBase.
Proof.
  unfold locate_entry. intros Hr. apply bind_ok in Hr as (image & s1 & H1' & Hr). injection H1' as <- <-.
  apply bind_ok in Hr as (b & s1 & H1' & Hr). injection H1' as <- <-.
  apply bind_ok in Hr as ([] & s2 & H2' & Hr). injection H2' as <-.
  set (base := panthera_compute_entry_physical_base _ _) in *.
  assert (0 <= base) by (unfold base, panthera_compute_entry_physical_base; destruct (_ || _); [lia|apply wrap_nonneg]).
  destruct (Z.eqb_spec base 0); [apply bind_ok in Hr as (? & ? & _ & Hr); done|].
  apply show_hex_calm in Hr as [_ [-> _]]. rewrite var_same. lia.
Qed.

Lemma load_and_stage_bases ih (s s' : boot_state F) :
  load_and_stage_kernel ih s = (Ok tt, s') ->
  0 <= b_vars s' gKernelTextBase < 2 ^ 32 /\ 0 < b_vars s' gKernelEntryBase < 2 ^ 32.
Proof.
  unfold load_and_stage_kernel. intros Hr. apply bind_ok in Hr as ([kf size] & s1 & _ & Hr).
  apply bind_ok in Hr as ([] & s2 & _ & Hr). apply bind_ok in Hr as ([] & s3 & Hu & Hr).
  assert (Hg : pres (vars_kept []) (panthera_free_pool (F := F) kf)) by kept_tac.
  apply (pres_run _ _ _ _ _ Hg) in Hr. rewrite !Hr by (clear; set_solver). clear Hr Hg.
  apply (on_error_ok (use_kernel_file kf size)) in Hu. unfold use_kernel_file in Hu.
  do 5 apply bind_ok in Hu as (? & ? & _ & Hu).
  apply bind_ok in Hu as ([] & s4 & H4' & Hu). apply locate_text_ok in H4'.
  apply bind_ok in Hu as ([] & s5 & H5' & Hu).
  assert (V5 : vars_kept [gKernelEntryBase] s4 s5) by (eapply pres_run; [|exact H5']; kept_tac).
  apply locate_entry_ok in H5'. apply bind_ok in Hu as ([] & s6 & H6' & Hu).
  apply check_low32_ok in H6' as [Ht ->]. apply check_low32_ok in Hu as [He ->].
  rewrite (V5 gKernelTextBase) in * by (clear; set_solver). lia.
Qed.
End Bases.

(** ** What the kernel finds *)
Section View.
Context {F : Type} `{LawfulFirmware F} `{LawfulABI}.

(** [s1]: when the kernel was staged; [s']: when it is entered with [h]. *)
Record kernel_view (s1 s' : boot_state F) (h : handoff) : Prop := {
  view_addresses : boot_args_phys h = b_vars s' gBootArgsBase /\
    kernel_entry_phys h = b_vars s' gKernelEntryBase /\
    stack_top_phys h = b_vars s' gHandoffStackBase + PANTHERA_HANDOFF_STACK_SIZE /\
    handoff_code h = b_vars s' gHandoffCodeBase /\ handoff_code h < 2 ^ 32;
  view_line : command_line_ok (gBootCommandLine s') /\
    holds (b_mem s') (boot_args_phys h + CommandLine_offset) (line_bytes (gBootCommandLine s'));
  view_kernel : field_at (boot_args_phys h) (b_mem s') kaddr = b_vars s' gKernelTextBase /\
    field_at (boot_args_phys h) (b_mem s') ksize = wrap 32 (cursor s' -64 b_vars s' gKernelTextBase);
  view_kexts :
    let es := enabled_entries (gBootCommandLine s') gBootKextManifest in
    let records := take (length es) (gBootKextRecords s') in
    Forall2 (staged (paged (b_fw s1)) (cursor s1) s') es records /\
    decode_tree 3 (mbytes (b_mem s') (field_at (boot_args_phys h) (b_mem s') deviceTreeP)
                     (Z.to_nat (field_at (boot_args_phys h) (b_mem s') deviceTreeLength))) =
      Some (device_tree records (b_vars s' gFSBFrequencyHz), []);
  view_pages : forall x, paged (b_fw s1) x -> mget (b_mem s') x = mget (b_mem s1) x
}.

Lemma efi_main_phases ih t (s : boot_state F) h s' :
  EfiMain ih t s = (Entered h, s') ->
  exists s1 s2 s3 s4 s5 s6 info table args code,
    (greet >> query_framebuffer >> load_and_stage_kernel ih) s = (Ok tt, s1) /\
    capture_firmware t s1 = (Ok (info, table, args), s2) /\
    stage_boot_data ih s2 = (Ok tt, s3) /\ prepare_handoff s3 = (Ok tt, s4) /\
    panthera_fill_boot_args args table (mi_map info) (mi_size info) (mi_desc_size info)
      (mi_desc_version info) s4 = (Ok tt, s5) /\
    show_boot_args args s5 = (Ok tt, s6) /\ code = b_vars s6 gHandoffCodeBase /\
    exit_attempts 4 code table args (mi_map info) EFI_NOT_FOUND s6 = (Entered h, s').
Proof.
  unfold EfiMain. intros Hr.
  apply bind_entered in Hr as ([] & sa & Ha & Hr); [|apply errs_never, errs_greet].
  apply bind_entered in Hr as ([] & sb & Hb & Hr); [|apply errs_never, errs_query_framebuffer].
  apply bind_entered in Hr as ([] & s1 & H1' & Hr); [|apply errs_never, errs_load_and_stage].
  apply bind_entered in Hr as ([[info table] args] & s2 & H2' & Hr); [|apply errs_never, errs_capture].
  apply bind_entered in Hr as ([] & s3 & H3' & Hr); [|apply errs_never, errs_stage_boot_data].
  apply bind_entered in Hr as ([] & s4 & H4' & Hr); [|apply errs_never, errs_prepare_handoff].
  apply bind_entered in Hr as ([] & s5 & H5' & Hr); [|apply errs_never, errs_fill].
  apply bind_entered in Hr as ([] & s6 & H6' & Hr); [|apply errs_never, errs_show_boot_args].
  apply bind_entered in Hr as (code & s7 & H7' & Hr); [|done]. injection H7' as <- <-.
  exists s1, s2, s3, s4, s5, s6, info, table, args, (b_vars s6 gHandoffCodeBase).
  split_and!; [|exact H2'|exact H3'|exact H4'|exact H5'|exact H6'|reflexivity|exact Hr].
  unfold bind. rewrite Ha, Hb. exact H1'.
Qed.

Lemma capture_vars t (s : boot_state F) r s' :
  capture_firmware t s = (r, s') ->
  vars_kept [gMemoryMapBase; gMemoryMapCapacity; gSystemTableBase; gBootArgsBase] s s'.
Proof. apply pres_run. kept_tac. Qed.

Lemma stage_vars ih (s : boot_state F) r s' :
  stage_boot_data ih s = (r, s') ->
  vars_kept [gKernelBootDataCursor; gKernelReservedSize; gBootKextCount; gDeviceTreeBase; gDeviceTreeSize] s s'.
Proof.
  apply pres_run.
  assert (Hs : forall l, pres (vars_kept [gKernelBootDataCursor; gKernelReservedSize; gBootKextCount;
    gDeviceTreeBase; gDeviceTreeSize]) (stage_entries (F := F) ih l)).
  { intros l s0. eapply vars_kept_weaken; [|apply vars_stage_entries]. clear. set_solver. }
  kept_tac.
Qed.

(** The four words of the boot arguments that describe the kernel and the tree. *)
Definition words_ok (args : Z) (m : mem) (V : gvar -> Z) : Prop :=
  field_at args m deviceTreeP = wrap 32 (V gDeviceTreeBase) /\
  field_at args m deviceTreeLength = wrap 32 (V gDeviceTreeSize) /\
  field_at args m kaddr = wrap 32 (V gKernelTextBase) /\
  field_at args m ksize = wrap 32 (V gKernelReservedSize).

Lemma last_fill args table map capacity info (s s' : boot_state F) :
  0 <= map /\ map + capacity < 2 ^ 64 ->
  map + capacity <= args \/ args + sizeof_boot_args <= map -> map_sane capacity info ->
  Forall byte (gBootCommandLine s) ->
  panthera_fill_boot_args args table map (mi_size info) (mi_desc_size info) (mi_desc_version info) s =
    (Ok tt, s') ->
  b_vars s' = b_vars s /\ words_ok args (b_mem s') (b_vars s) /\
  holds (b_mem s') (args + CommandLine_offset) (line_bytes (gBootCommandLine s)).
Proof.
  intros Hm Ha (Hd & Hs & n & En) Hb Hr. rewrite En in Hr, Hs. pose proof range_inside.
  destruct (fill_boot_args_ok args table map (mi_desc_size info) (mi_desc_version info) n s)
    as (m' & start & E & _ & Hl & _ & Hf); [lia|lia|unfold map_outside; lia|done|].
  rewrite E in Hr. injection Hr as <-. split; [done|]. split; [|exact Hl].
  cbn [b_mem set_mem].
  assert (Hw : forall f v, f ∈ [deviceTreeP; deviceTreeLength; kaddr; ksize] ->
    (f, v) ∈ header_fields (b_vars s) table map (Z.of_nat n * mi_desc_size info) (mi_desc_size info)
               (mi_desc_version info) -> field_at args m' f = v mod 2 ^ 32).
  { intros f v Hin Hv. rewrite (Hf f v); [by rewrite (ba_word f Hin)|].
    unfold boot_fields. rewrite !elem_of_app. right; left. exact Hv. }
  unfold words_ok. split_and!; (etrans; [eapply Hw|]);
    try (unfold header_fields; repeat (first [left; reflexivity | right])); try apply Z.mod_mod; done.
Qed.

Lemma globals_state X (s s' : boot_state F) : globals_kept s s' -> state_kept X s s'.
Proof. intros (Ev & _ & El & Er). split_and!; [|done|done]. intros x _. by rewrite Ev. Qed.

Lemma state_weaken X Y (s s' : boot_state F) : X ⊆ Y -> state_kept X s s' -> state_kept Y s s'.
Proof. intros HX (V & R & L). split_and!; [by eapply vars_kept_weaken|done|done]. Qed.

Lemma fill_state args t map n d v (s : boot_state F) r s' :
  panthera_fill_boot_args args t map n d v s = (r, s') -> globals_kept s s'.
Proof. apply pres_run. kept_tac. Qed.

Lemma show_state args (s : boot_state F) r s' : show_boot_args args s = (r, s') -> globals_kept s s'.
Proof. apply pres_run. kept_tac. Qed.

(** From the staged boot data to the entry, for addresses [P] outside the boot
    arguments and the memory map. *)
Lemma boot_tail P args table info map capacity (s3 s4 s5 s6 : boot_state F) h s' :
  outside P args sizeof_boot_args -> outside P map capacity -> 0 < capacity ->
  0 <= map /\ map + capacity < 2 ^ 64 ->
  map + capacity <= args \/ args + sizeof_boot_args <= map ->
  b_vars s3 gMemoryMapCapacity = capacity -> Forall byte (gBootCommandLine s3) ->
  prepare_handoff s3 = (Ok tt, s4) ->
  panthera_fill_boot_args args table map (mi_size info) (mi_desc_size info) (mi_desc_version info) s4 =
    (Ok tt, s5) ->
  show_boot_args args s5 = (Ok tt, s6) ->
  exit_attempts 4 (b_vars s6 gHandoffCodeBase) table args map EFI_NOT_FOUND s6 = (Entered h, s') ->
  framed P s3 s' /\ state_kept [gHandoffCodeBase; gHandoffCodeSize; gHandoffStackBase] s3 s' /\
  words_ok args (b_mem s') (b_vars s') /\
  holds (b_mem s') (args + CommandLine_offset) (line_bytes (gBootCommandLine s')) /\
  h = mkHandoff (b_vars s' gHandoffCodeBase) (wrap 32 (b_vars s' gBootArgsBase))
        (wrap 32 (b_vars s' gKernelEntryBase))
        (b_vars s' gHandoffStackBase + PANTHERA_HANDOFF_STACK_SIZE) /\
  b_vars s' gHandoffCodeBase < 2 ^ 32.
Proof.
  intros Oa Om Hc Hm Hap Ec Hb H4' H5' H6' Hx.
  apply prepare_handoff_ok in H4' as (F4 & K4 & Hcode & Hst0 & Hst1).
  assert (F5 : framed P s4 s5) by (eapply pres_run; [|exact H5']; by apply framed_fill).
  assert (F6 : framed P s5 s6) by (eapply pres_run; [|exact H6']; by apply framed_show_boot_args).
  apply fill_state in H5'. apply show_state in H6'.
  assert (G46 : globals_kept s4 s6) by by etrans. clear H5' H6'.
  apply (exit_attempts_entered P args map capacity) in Hx; [|done|done|lia|].
  2:{ rewrite (proj1 G46), (proj1 K4) by (clear; set_solver). done. }
  destruct Hx as (sm & i & sf & Fm & Gm & Hsane & Hfill & Emem & Gf & Ff & ->).
  pose proof (fill_state _ _ _ _ _ _ _ _ _ Hfill) as Gfill.
  assert (Fs : framed P sm sf) by (eapply pres_run; [|exact Hfill]; by apply framed_fill).
  assert (G4m : globals_kept s4 sm) by by etrans.
  assert (G4 : globals_kept s4 s') by (etrans; [exact G4m|]; by etrans).
  assert (Em : gBootCommandLine sm = gBootCommandLine s3).
  { destruct G4m as (_ & _ & -> & _), K4 as (_ & _ & L2). done. }
  apply (last_fill args table map capacity i) in Hfill as (Ev & Hwords & Hline);
    [|done|done|done|by rewrite Em].
  assert (Ev4 : b_vars sm = b_vars s' /\ b_vars sf = b_vars s' /\ b_vars s6 = b_vars s' /\ b_vars s4 = b_vars s').
  { destruct G4 as (-> & _), G46 as (-> & _). rewrite <- (proj1 G4m), Ev. done. }
  destruct Ev4 as (E1 & E2 & E3 & E4). rewrite E1 in Hwords. rewrite E4 in Hcode, Hst0, Hst1. rewrite E2, E3.
  split_and!.
  - etrans; [apply F4|]. etrans; [exact F5|]. etrans; [exact F6|]. etrans; [exact Fm|]. by etrans.
  - etrans; [exact K4|]. by apply globals_state.
  - by rewrite Emem.
  - rewrite Emem. destruct G4 as (_ & _ & -> & _). by rewrite <- (proj1 (proj2 (proj2 G4m))).
  - f_equal. rewrite wrap_small; rewrite wrap_small; unfold PANTHERA_HANDOFF_STACK_SIZE in *; lia.
  - lia.
Qed.
(** Boot data survives what leaves its pages alone. *)
Lemma boot_data_kept old low (s s' : boot_state F) es records :
  mem_wf (b_mem s) -> framed (fun x => paged (b_fw s) x /\ ~ old x) s s' ->
  state_kept [gHandoffCodeBase; gHandoffCodeSize; gHandoffStackBase] s s' ->
  boot_data old low s es records -> boot_data old low s' es records.
Proof.
  intros Hw Hf (V & R & L) [Dl De Dr Ds Dres Dok Db Dz Dt].
  assert (Hc : cursor s' = cursor s) by (apply V; clear; set_solver).
  unfold records_kept in R. unfold line_kept in L.
  split; rewrite ?L, ?R, ?(V gDeviceTreeBase), ?(V gDeviceTreeSize), ?(V gFSBFrequencyHz)
    by (clear; set_solver); try assumption.
  - eapply Forall2_impl; [exact Ds|]. intros e r. by apply staged_framed.
  - unfold reserved_ok. rewrite Hc, !V by (clear; set_solver). exact Dres.
  - by eapply region_framed.
Qed.

Lemma boot_data_tree old low (s : boot_state F) es records args :
  words_ok args (b_mem s) (b_vars s) -> boot_data old low s es records ->
  decode_tree 3 (mbytes (b_mem s) (field_at args (b_mem s) deviceTreeP)
                   (Z.to_nat (field_at args (b_mem s) deviceTreeLength))) =
    Some (device_tree records (b_vars s gFSBFrequencyHz), []).
Proof.
  intros (Wt & Wl & _) [_ _ _ _ _ [Dok Dlen] Db Dz [Dh _]]. rewrite Wt, Wl.
  pose proof (length_encode_device_tree _ (b_vars s gFSBFrequencyHz) Dok) as Hl.
  rewrite (wrap_small 32 _ Db), Dz, wrap_small, Nat2Z.id by lia. unfold holds in Dh. rewrite Dh.
  rewrite <- (app_nil_r (encode_tree _)). apply decode_encode_tree, device_tree_ok; [done|lia].
Qed.
End View.

(** C1. What the kernel finds, on a firmware that keeps its contract. Suppose the
    kernel was staged ([s1]), memory holds bytes and the firmware's system table is
    in its own pages with a sensible number of entries. If [EfiMain] then enters the
    kernel, the addresses it passes are exact 32-bit values; the boot arguments hold
    the command line of the boot-args file (or the built-in one) and point to the
    kernel, whose reserved size ends at the boot data cursor, and to a device tree
    that reads back with one entry per enabled extension; each extension's files
    are in memory byte for byte in pages of their own; and every page handed out
    before, so the whole staged kernel, is unchanged. *)
Theorem kernel_receives {F} `{LawfulFirmware F} `{LawfulABI} (ih table : Z) (s s1 : boot_state F)
    (h : handoff) (s' : boot_state F) :
  (greet >> query_framebuffer >> load_and_stage_kernel ih) s = (Ok tt, s1) ->
  mem_wf (b_mem s1) -> table_sane table s1 ->
  EfiMain ih table s = (Entered h, s') -> kernel_view s1 s' h.
Proof.
  intros H1' Hw Ht Hr. apply efi_main_phases in Hr as
    (s1' & s2 & s3 & s4 & s5 & s6 & info & tb & args & code & H1'' & H2' & H3' & H4' & H5' & H6' & -> & Hx).
  rewrite H1' in H1''. injection H1'' as <-.
  assert (Hbases : 0 <= b_vars s1 gKernelTextBase < 2 ^ 32 /\ 0 < b_vars s1 gKernelEntryBase < 2 ^ 32).
  { apply bind_ok in H1' as (? & ? & _ & H1'). apply bind_ok in H1' as (? & ? & _ & H1').
    by eapply load_and_stage_bases. }
  pose proof (capture_vars _ _ _ _ H2') as V2. pose proof (stage_vars _ _ _ _ H3') as V3.
  apply capture_firmware_ok in H2' as [F2 W2 [_ Cc] [Ca Ca'] _ (Cm & Cm' & Nm) Na Ap]; [|done|done].
  apply stage_boot_data_ok in H3' as (G3 & es & records & D); [|done].
  assert (Ec : cursor s2 = cursor s1) by (apply V2; clear; set_solver). rewrite Ec in D.
  destruct (framed_pages _ _ Hw F2) as [_ K12]. pose proof (mem_wf_grows _ _ G3 W2) as W3.
  set (P := fun x => paged (b_fw s1) x \/ (paged (b_fw s3) x /\ ~ paged (b_fw s2) x)).
  assert (Oa : outside P args sizeof_boot_args) by (intros x Hx'; destruct (Na x Hx'); unfold P; tauto).
  assert (Om : outside P (mi_map info) (b_vars s2 gMemoryMapCapacity))
    by (intros x Hx'; destruct (Nm x Hx'); unfold P; tauto).
  eapply (boot_tail P args tb info (mi_map info) (b_vars s2 gMemoryMapCapacity)) in Hx
    as (F3 & K3 & Hwords & Hline & -> & Hcode);
    [|exact Oa|exact Om|exact Cc|lia|exact Ap| | |exact H4'|exact H5'|exact H6'];
    [|by rewrite V3 by (clear; set_solver)|apply command_line_ok_bytes, D].
  assert (O3 : owned P s3).
  { split; [done|]. intros x [Hx'|[Hx' _]]; [|done]. by apply (G3 W2), K12. }
  destruct (F3 O3) as [_ Hm]. pose proof K3 as (V4 & R4 & L4).
  apply (boot_data_kept _ _ _ s') in D; [|done| |exact K3].
  2:{ intros _. destruct (F3 O3) as [[W' Hp] _]. split; [split; [done|]|]; intros x Hx';
      [apply Hp|apply Hm]; by right. }
  assert (Ea : b_vars s' gBootArgsBase = args).
  { rewrite (V4 gBootArgsBase), (V3 gBootArgsBase) by (clear; set_solver). done. }
  assert (Ek : b_vars s' gKernelEntryBase = b_vars s1 gKernelEntryBase /\
               b_vars s' gKernelTextBase = b_vars s1 gKernelTextBase).
  { rewrite !V4, !V3, !V2 by (clear; set_solver). done. }
  destruct Ek as [Ee Et]. rewrite (wrap_small 32 (b_vars s' gBootArgsBase)), (wrap_small 32 (b_vars s' gKernelEntryBase))
    by lia. pose proof D as [Dl De Dr Ds Dres _ _ _ _].
  split; cbn [boot_args_phys kernel_entry_phys stack_top_phys handoff_code]; rewrite ?Ea.
  - done.
  - done.
  - destruct Hwords as (_ & _ & -> & ->). rewrite Dres, wrap_small by lia. done.
  - cbv zeta. rewrite <- De, <- Dr. split; [|by eapply boot_data_tree].
    eapply Forall2_impl; [exact Ds|]. intros e r. apply staged_impl. intros b bs ((Hh & Hp) & Hb).
    split; [|exact Hb]. split; [exact Hh|]. intros x Hx'. destruct (Hp x Hx') as [? Hn]. split; [done|].
    intros Hq. by apply Hn, K12.
  - intros x Hx'. rewrite Hm by (by left). destruct (G3 W2) as [_ G3'].
    destruct (G3' x (K12 x Hx')) as [_ ->]. destruct (F2 (paged (b_fw s1))) as [_ F2']; [by split|].
    by apply F2'.
Qed.

Lemma mem_wf_map (m : mem) : map_Forall (fun _ v => byte v) m -> mem_wf m.
Proof.
  intros Hm a. unfold mget. destruct (m !! a) as [v|] eqn:E; [|cbn; lia]. exact (Hm a v E).
Qed.

Lemma run_pair {A S} (Q : S -> Prop) (p : result A * S) r :
  p.1 = r -> Q p.2 -> exists s, p = (r, s) /\ Q s.
Proof. destruct p as [r' s']. cbn. intros -> Hq. by exists s'. Qed.

(** The simulated firmware, with two failing attempts to leave boot services. *)
Lemma kernel_receives_witness :
  exists s1 h s', (greet >> query_framebuffer >> load_and_stage_kernel 5) (sim_boot 2) = (Ok tt, s1) /\
    EfiMain 5 0x1000 (sim_boot 2) = (Entered h, s') /\ kernel_entry_phys h = 0x200100 /\
    kernel_view s1 s' h.
Proof.
  destruct (run_pair (fun s => mem_wf (b_mem s) /\ table_sane 0x1000 s)
    ((greet >> query_framebuffer >> load_and_stage_kernel 5) (sim_boot 2)) (Ok tt)) as (s1 & E1 & Hw & Ht).
  - vm_compute. reflexivity.
  - split; [apply mem_wf_map, (bool_decide_unpack _); vm_compute; exact I|].
    split; [|vm_compute; reflexivity]. intros x Hx. unfold sizeof_EFI_SYSTEM_TABLE in Hx.
    change (sim_paged (b_fw ((greet >> query_framebuffer >> load_and_stage_kernel 5) (sim_boot 2)).2) x).
    unfold sim_paged, pool_floor. split; [left|lia].
    assert (E : sim_next (b_fw ((greet >> query_framebuffer >> load_and_stage_kernel 5) (sim_boot 2)).2) =
      0x201000) by (vm_compute; reflexivity). rewrite E. lia.
  - destruct (run_pair (fun _ => True) (EfiMain 5 0x1000 (sim_boot 2))
      (Entered (mkHandoff 133091328 133160960 0x200100 133091328))) as (s' & E2 & _);
      [vm_compute; reflexivity|done|].
    eexists s1, _, s'. split; [exact E1|]. split; [exact E2|]. split; [reflexivity|].
    exact (kernel_receives 5 0x1000 _ _ _ _ E1 Hw Ht E2).
Defined.
