(* ===== verification/Words.v ===== *)
(** * Words and counted loops of the cryptographic kernel extension

    Counted [for] loops, xor and rotation of machine words, shared by the models
    of kexts/corecrypto/src. *)

From Stdlib Require Import ZArith Lia Btauto.
From stdpp Require Import base list.
From S2P Require Import Prelude.

Open Scope Z_scope.

(** [for (i = a; i < a + n; ++i) s = f i s]. *)
Definition for_range {S} (a n : nat) (f : nat -> S -> S) (s : S) : S :=
  fold_left (fun s i => f i s) (seq a n) s.

(** [for (i = n; i > 0; i--) s = f i s]. *)
Fixpoint for_down {S} (n : nat) (f : nat -> S -> S) (s : S) : S :=
  match n with
  | O => s
  | Datatypes.S k => for_down k f (f n s)
  end.

(** An element of an array that is only read inside its bounds. *)
Definition elt (l : list Z) (i : nat) : Z := nth i l 0.

Infix "⊕" := Z.lxor (at level 50, left associativity) : c_scope.

Lemma for_range_S {S} a n (f : nat -> S -> S) s :
  for_range a (Datatypes.S n) f s = f (a + n)%nat (for_range a n f s).
Proof. unfold for_range. by rewrite seq_S, fold_left_app. Qed.

Lemma for_down_S {S} n (f : nat -> S -> S) s :
  for_down (Datatypes.S n) f s = for_down n f (f (1 + n)%nat s).
Proof. reflexivity. Qed.

(** The usual rule for a counted loop. *)
Lemma for_range_ind {S} (P : nat -> S -> Prop) a n (f : nat -> S -> S) s :
  P 0%nat s -> (forall k s', (k < n)%nat -> P k s' -> P (Datatypes.S k) (f (a + k)%nat s')) ->
  P n (for_range a n f s).
Proof.
  intros H0 Hs. induction n as [|n IH]; [done|]. rewrite for_range_S.
  apply Hs; [lia|]. apply IH. intros k s' Hk. apply Hs. lia.
Qed.

(** [xor_tac] decides equations between xors. *)
Ltac xor_tac := apply Z.bits_inj; intros ?; rewrite ?Z.lxor_spec, ?Z.bits_0; btauto.

Lemma byte_bits b : byte b <-> 0 <= b /\ forall i, 8 <= i -> Z.testbit b i = false.
Proof.
  unfold byte. split.
  - intros H. split; [lia|]. intros i Hi. rewrite <- (Z.mod_small b (2 ^ 8)) by lia.
    apply Z.mod_pow2_bits_high. lia.
  - intros [H Hb]. split; [done|]. destruct (decide (b = 0)) as [->|Hn]; [lia|].
    change 256 with (2 ^ 8). apply Z.log2_lt_pow2; [lia|].
    destruct (decide (Z.log2 b < 8)) as [|Hl]; [done|].
    pose proof (Z.bit_log2 b ltac:(lia)) as Ht. rewrite Hb in Ht by lia. done.
Qed.

Lemma byte_lxor a b : byte a -> byte b -> byte (a ⊕ b).
Proof.
  rewrite !byte_bits. intros [Ha Ha'] [Hb Hb']. split; [by apply Z.lxor_nonneg|].
  intros i Hi. rewrite Z.lxor_spec, Ha', Hb' by lia. done.
Qed.

Lemma byte_wrap a : byte (wrap 8 a).
Proof. unfold byte. apply (wrap_range 8). lia. Qed.

#[export] Hint Resolve byte_lxor byte_wrap : panthera.

(** A property of all bytes is decided by testing them. *)
Definition all_bytes (p : Z -> bool) : bool := forallb p (map Z.of_nat (seq 0 256)).

Lemma all_bytes_spec p b : all_bytes p = true -> byte b -> p b = true.
Proof.
  unfold all_bytes, byte. intros H Hb. rewrite forallb_forall in H. apply H.
  apply in_map_iff. exists (Z.to_nat b). split; [lia|]. apply in_seq. lia.
Qed.

Lemma zeros_bytes n : Forall byte (repeat 0 n).
Proof. induction n; cbn [repeat]; constructor; [unfold byte; lia|done]. Qed.

#[export] Hint Resolve zeros_bytes : panthera.

(** Stored bytes are read back, at an element. *)
Lemma elt_app_l (l k : list Z) i : (i < length l)%nat -> elt (l ++ k) i = elt l i.
Proof. apply app_nth1. Qed.

Lemma elt_app_r (l k : list Z) i : elt (l ++ k) (length l + i) = elt k i.
Proof. unfold elt. rewrite app_nth2 by lia. f_equal. lia. Qed.

(** [((k >> i) & 1) * z]. *)
Lemma bit_times k i z : 0 <= i -> Z.land (Z.shiftr k i) 1 * z = if Z.testbit k i then z else 0.
Proof.
  intros Hi. change 1 with (Z.ones 1). rewrite Z.land_ones, Z.shiftr_div_pow2 by lia.
  change (2 ^ 1) with 2. rewrite <- Z.testbit_spec' by lia. destruct (Z.testbit k i); cbn [Z.b2z]; lia.
Qed.

(** ** Arrays *)
Lemma elt_insert (l : list Z) i j v : (i < length l)%nat ->
  elt (<[i := v]> l) j = if decide (i = j) then v else elt l j.
Proof.
  intros Hi. unfold elt. rewrite !nth_lookup. case_decide as E.
  - subst j. by rewrite list_lookup_insert_eq by done.
  - by rewrite list_lookup_insert_ne by done.
Qed.

Lemma elt_map_seq (f : nat -> Z) n k : (k < n)%nat -> elt (map f (seq 0 n)) k = f k.
Proof.
  intros H. unfold elt. rewrite nth_indep with (d' := f 0%nat) by (by rewrite length_map, length_seq).
  rewrite map_nth, seq_nth by done. done.
Qed.

Lemma elt_ext (l l' : list Z) : length l = length l' ->
  (forall k, (k < length l)%nat -> elt l k = elt l' k) -> l = l'.
Proof. intros Hl H. by apply (nth_ext l l' 0 0). Qed.

(** A list whose elements are computed from the ones before. *)
Fixpoint grow {A} (next : list A -> A) (n : nat) : list A :=
  match n with
  | O => []
  | S k => let l := grow next k in l ++ [next l]
  end.

Lemma length_grow {A} (next : list A -> A) n : length (grow next n) = n.
Proof. induction n as [|n IH]; cbn [grow]; [done|]. rewrite length_app, IH. cbn. lia. Qed.

Lemma elt_grow next n t : (t < n)%nat -> elt (grow next n) t = next (grow next t).
Proof.
  induction n as [|n IH]; intros H; [lia|]. cbn [grow]. destruct (decide (t = n)) as [->|Hn].
  - rewrite <- (length_grow next n) at 3. replace (length (grow next n)) with (length (grow next n) + 0)%nat by lia.
    by rewrite elt_app_r.
  - rewrite elt_app_l by (rewrite length_grow; lia). apply IH. lia.
Qed.

(** ** Rotations

    [(x >> rot) | (x << (w - rot))] of a [w]-bit word, and to the left. *)
Definition rotr (w rot x : Z) : Z := wrap w (Z.lor (Z.shiftr x rot) (Z.shiftl x (w - rot))).
Definition rotl (w rot x : Z) : Z := wrap w (Z.lor (Z.shiftl x rot) (Z.shiftr x (w - rot))).

(** [~x] of a [w]-bit word. *)
Definition lnot (w x : Z) : Z := wrap w (Z.lnot x).

(** ** Registers that change their roles

    The unrolled rounds rename [n] registers instead of moving them: in round [t]
    the register in role [k] is [reg n t k]. *)
Definition reg (n t k : nat) : nat := ((k + (n - 1) * t) mod n)%nat.

Lemma reg_lt n t k : (0 < n)%nat -> (reg n t k < n)%nat.
Proof. intros H. unfold reg. apply Nat.mod_upper_bound. lia. Qed.

Lemma reg_0 n k : (k < n)%nat -> reg n 0 k = k.
Proof. intros H. unfold reg. rewrite Nat.mul_0_r, Nat.add_0_r. by apply Nat.mod_small. Qed.

Lemma reg_S n t k : (0 < n)%nat -> reg n (S t) (S k) = reg n t k.
Proof.
  intros H. unfold reg. replace (S k + (n - 1) * S t)%nat with (k + (n - 1) * t + 1 * n)%nat by nia.
  by rewrite Nat.Div0.mod_add.
Qed.

Lemma reg_first n t : (0 < n)%nat -> reg n (S t) 0 = reg n t (n - 1).
Proof. intros H. unfold reg. f_equal. lia. Qed.

Lemma reg_inj n t j k : (j < n)%nat -> (k < n)%nat -> reg n t j = reg n t k -> j = k.
Proof.
  intros Hj Hk. revert j k Hj Hk. induction t as [|t IH]; intros j k Hj Hk E.
  - by rewrite !reg_0 in E.
  - destruct j as [|j], k as [|k]; [done|..]; rewrite ?reg_S, ?reg_first in E by lia;
      apply IH in E; lia.
Qed.

(** A round that renames: register in role [k] after an update. *)
Lemma elt_insert_reg n t j k v l : length l = n -> (j < n)%nat -> (k < n)%nat ->
  elt (<[reg n t j := v]> l) (reg n t k) = if decide (j = k) then v else elt l (reg n t k).
Proof.
  intros Hl Hj Hk. rewrite elt_insert by (rewrite Hl; apply reg_lt; lia).
  repeat case_decide; subst; try done. by apply reg_inj in H.
Qed.

(** ** 32-bit words *)
Definition word32 (x : Z) : Prop := 0 <= x < 2 ^ 32.

Lemma word32_wrap x : word32 (wrap 32 x).
Proof. apply wrap_32_range. Qed.

Lemma word32_high x i : word32 x -> 32 <= i -> Z.testbit x i = false.
Proof.
  intros H Hi. unfold word32 in H. rewrite <- (Z.mod_small x (2 ^ 32)) by done. by apply Z.mod_pow2_bits_high.
Qed.

Lemma lnot_spec w x i : 0 <= w -> 0 <= i -> Z.testbit (lnot w x) i = (i <? w) && negb (Z.testbit x i).
Proof.
  intros Hw Hi. unfold lnot, wrap. destruct (Z.ltb_spec i w).
  - rewrite Z.mod_pow2_bits_low, Z.lnot_spec by lia. done.
  - rewrite Z.mod_pow2_bits_high by lia. done.
Qed.

(** [bool_tac] decides equations between boolean functions of 32-bit words. *)
Ltac bool_tac :=
  apply Z.bits_inj; intros i; destruct (decide (0 <= i)) as [Hi|Hi];
  [|rewrite !Z.testbit_neg_r by lia; reflexivity];
  rewrite ?Z.lxor_spec, ?Z.lor_spec, ?Z.land_spec, ?Z.lxor_spec, ?Z.lor_spec, ?Z.land_spec, ?lnot_spec by lia;
  destruct (Z.ltb_spec i 32);
  [|repeat match goal with H : word32 ?x |- context [Z.testbit ?x i] => rewrite (word32_high x i H) by lia end];
  btauto.

Lemma bits_choose b c d : word32 b -> word32 c -> word32 d ->
  d ⊕ Z.land b (c ⊕ d) = Z.land b c ⊕ Z.land (lnot 32 b) d.
Proof. intros. bool_tac. Qed.

Lemma bits_choose_or b c d : word32 b -> word32 c -> word32 d ->
  d ⊕ Z.land b (c ⊕ d) = Z.lor (Z.land b c) (Z.land (lnot 32 b) d).
Proof. intros. bool_tac. Qed.

Lemma bits_choose_or' b c d : word32 b -> word32 c -> word32 d ->
  c ⊕ Z.land d (b ⊕ c) = Z.lor (Z.land b d) (Z.land c (lnot 32 d)).
Proof. intros. bool_tac. Qed.
