(* ===== verification/Aes.v ===== *)
(** * AES-128: kexts/corecrypto/src/algorithms

    The block cipher of aes128.c (tables, key expansion, the round steps and
    their inverses), its ECB and CBC modes over memory, with input and output
    buffers that may overlap, and the mode descriptors of aes_ecb.c and
    aes_cbc.c. The reference is the cipher of FIPS 197, defined from arithmetic in
    the field with 256 elements. *)

From Stdlib Require Import ZArith Lia Btauto.
From stdpp Require Import base list gmap.
From S2P Require Import Prelude Words.

Open Scope Z_scope.

(** ** Constants and tables *)
Definition Nb : nat := 4.
Definition Nk : nat := 4.
Definition KEYLEN : nat := 16.
Definition Nr : nat := 10.

Definition sbox : list Z :=
  [0x63; 0x7c; 0x77; 0x7b; 0xf2; 0x6b; 0x6f; 0xc5; 0x30; 0x01; 0x67; 0x2b; 0xfe; 0xd7; 0xab; 0x76;
   0xca; 0x82; 0xc9; 0x7d; 0xfa; 0x59; 0x47; 0xf0; 0xad; 0xd4; 0xa2; 0xaf; 0x9c; 0xa4; 0x72; 0xc0;
   0xb7; 0xfd; 0x93; 0x26; 0x36; 0x3f; 0xf7; 0xcc; 0x34; 0xa5; 0xe5; 0xf1; 0x71; 0xd8; 0x31; 0x15;
   0x04; 0xc7; 0x23; 0xc3; 0x18; 0x96; 0x05; 0x9a; 0x07; 0x12; 0x80; 0xe2; 0xeb; 0x27; 0xb2; 0x75;
   0x09; 0x83; 0x2c; 0x1a; 0x1b; 0x6e; 0x5a; 0xa0; 0x52; 0x3b; 0xd6; 0xb3; 0x29; 0xe3; 0x2f; 0x84;
   0x53; 0xd1; 0x00; 0xed; 0x20; 0xfc; 0xb1; 0x5b; 0x6a; 0xcb; 0xbe; 0x39; 0x4a; 0x4c; 0x58; 0xcf;
   0xd0; 0xef; 0xaa; 0xfb; 0x43; 0x4d; 0x33; 0x85; 0x45; 0xf9; 0x02; 0x7f; 0x50; 0x3c; 0x9f; 0xa8;
   0x51; 0xa3; 0x40; 0x8f; 0x92; 0x9d; 0x38; 0xf5; 0xbc; 0xb6; 0xda; 0x21; 0x10; 0xff; 0xf3; 0xd2;
   0xcd; 0x0c; 0x13; 0xec; 0x5f; 0x97; 0x44; 0x17; 0xc4; 0xa7; 0x7e; 0x3d; 0x64; 0x5d; 0x19; 0x73;
   0x60; 0x81; 0x4f; 0xdc; 0x22; 0x2a; 0x90; 0x88; 0x46; 0xee; 0xb8; 0x14; 0xde; 0x5e; 0x0b; 0xdb;
   0xe0; 0x32; 0x3a; 0x0a; 0x49; 0x06; 0x24; 0x5c; 0xc2; 0xd3; 0xac; 0x62; 0x91; 0x95; 0xe4; 0x79;
   0xe7; 0xc8; 0x37; 0x6d; 0x8d; 0xd5; 0x4e; 0xa9; 0x6c; 0x56; 0xf4; 0xea; 0x65; 0x7a; 0xae; 0x08;
   0xba; 0x78; 0x25; 0x2e; 0x1c; 0xa6; 0xb4; 0xc6; 0xe8; 0xdd; 0x74; 0x1f; 0x4b; 0xbd; 0x8b; 0x8a;
   0x70; 0x3e; 0xb5; 0x66; 0x48; 0x03; 0xf6; 0x0e; 0x61; 0x35; 0x57; 0xb9; 0x86; 0xc1; 0x1d; 0x9e;
   0xe1; 0xf8; 0x98; 0x11; 0x69; 0xd9; 0x8e; 0x94; 0x9b; 0x1e; 0x87; 0xe9; 0xce; 0x55; 0x28; 0xdf;
   0x8c; 0xa1; 0x89; 0x0d; 0xbf; 0xe6; 0x42; 0x68; 0x41; 0x99; 0x2d; 0x0f; 0xb0; 0x54; 0xbb; 0x16].

Definition rsbox : list Z :=
  [0x52; 0x09; 0x6a; 0xd5; 0x30; 0x36; 0xa5; 0x38; 0xbf; 0x40; 0xa3; 0x9e; 0x81; 0xf3; 0xd7; 0xfb;
   0x7c; 0xe3; 0x39; 0x82; 0x9b; 0x2f; 0xff; 0x87; 0x34; 0x8e; 0x43; 0x44; 0xc4; 0xde; 0xe9; 0xcb;
   0x54; 0x7b; 0x94; 0x32; 0xa6; 0xc2; 0x23; 0x3d; 0xee; 0x4c; 0x95; 0x0b; 0x42; 0xfa; 0xc3; 0x4e;
   0x08; 0x2e; 0xa1; 0x66; 0x28; 0xd9; 0x24; 0xb2; 0x76; 0x5b; 0xa2; 0x49; 0x6d; 0x8b; 0xd1; 0x25;
   0x72; 0xf8; 0xf6; 0x64; 0x86; 0x68; 0x98; 0x16; 0xd4; 0xa4; 0x5c; 0xcc; 0x5d; 0x65; 0xb6; 0x92;
   0x6c; 0x70; 0x48; 0x50; 0xfd; 0xed; 0xb9; 0xda; 0x5e; 0x15; 0x46; 0x57; 0xa7; 0x8d; 0x9d; 0x84;
   0x90; 0xd8; 0xab; 0x00; 0x8c; 0xbc; 0xd3; 0x0a; 0xf7; 0xe4; 0x58; 0x05; 0xb8; 0xb3; 0x45; 0x06;
   0xd0; 0x2c; 0x1e; 0x8f; 0xca; 0x3f; 0x0f; 0x02; 0xc1; 0xaf; 0xbd; 0x03; 0x01; 0x13; 0x8a; 0x6b;
   0x3a; 0x91; 0x11; 0x41; 0x4f; 0x67; 0xdc; 0xea; 0x97; 0xf2; 0xcf; 0xce; 0xf0; 0xb4; 0xe6; 0x73;
   0x96; 0xac; 0x74; 0x22; 0xe7; 0xad; 0x35; 0x85; 0xe2; 0xf9; 0x37; 0xe8; 0x1c; 0x75; 0xdf; 0x6e;
   0x47; 0xf1; 0x1a; 0x71; 0x1d; 0x29; 0xc5; 0x89; 0x6f; 0xb7; 0x62; 0x0e; 0xaa; 0x18; 0xbe; 0x1b;
   0xfc; 0x56; 0x3e; 0x4b; 0xc6; 0xd2; 0x79; 0x20; 0x9a; 0xdb; 0xc0; 0xfe; 0x78; 0xcd; 0x5a; 0xf4;
   0x1f; 0xdd; 0xa8; 0x33; 0x88; 0x07; 0xc7; 0x31; 0xb1; 0x12; 0x10; 0x59; 0x27; 0x80; 0xec; 0x5f;
   0x60; 0x51; 0x7f; 0xa9; 0x19; 0xb5; 0x4a; 0x0d; 0x2d; 0xe5; 0x7a; 0x9f; 0x93; 0xc9; 0x9c; 0xef;
   0xa0; 0xe0; 0x3b; 0x4d; 0xae; 0x2a; 0xf5; 0xb0; 0xc8; 0xeb; 0xbb; 0x3c; 0x83; 0x53; 0x99; 0x61;
   0x17; 0x2b; 0x04; 0x7e; 0xba; 0x77; 0xd6; 0x26; 0xe1; 0x69; 0x14; 0x63; 0x55; 0x21; 0x0c; 0x7d].

Definition Rcon : list Z :=
  [0x8d; 0x01; 0x02; 0x04; 0x08; 0x10; 0x20; 0x40; 0x80; 0x1b; 0x36; 0x6c; 0xd8; 0xab; 0x4d; 0x9a;
   0x2f; 0x5e; 0xbc; 0x63; 0xc6; 0x97; 0x35; 0x6a; 0xd4; 0xb3; 0x7d; 0xfa; 0xef; 0xc5; 0x91; 0x39;
   0x72; 0xe4; 0xd3; 0xbd; 0x61; 0xc2; 0x9f; 0x25; 0x4a; 0x94; 0x33; 0x66; 0xcc; 0x83; 0x1d; 0x3a;
   0x74; 0xe8; 0xcb; 0x8d; 0x01; 0x02; 0x04; 0x08; 0x10; 0x20; 0x40; 0x80; 0x1b; 0x36; 0x6c; 0xd8;
   0xab; 0x4d; 0x9a; 0x2f; 0x5e; 0xbc; 0x63; 0xc6; 0x97; 0x35; 0x6a; 0xd4; 0xb3; 0x7d; 0xfa; 0xef;
   0xc5; 0x91; 0x39; 0x72; 0xe4; 0xd3; 0xbd; 0x61; 0xc2; 0x9f; 0x25; 0x4a; 0x94; 0x33; 0x66; 0xcc;
   0x83; 0x1d; 0x3a; 0x74; 0xe8; 0xcb; 0x8d; 0x01; 0x02; 0x04; 0x08; 0x10; 0x20; 0x40; 0x80; 0x1b;
   0x36; 0x6c; 0xd8; 0xab; 0x4d; 0x9a; 0x2f; 0x5e; 0xbc; 0x63; 0xc6; 0x97; 0x35; 0x6a; 0xd4; 0xb3;
   0x7d; 0xfa; 0xef; 0xc5; 0x91; 0x39; 0x72; 0xe4; 0xd3; 0xbd; 0x61; 0xc2; 0x9f; 0x25; 0x4a; 0x94;
   0x33; 0x66; 0xcc; 0x83; 0x1d; 0x3a; 0x74; 0xe8; 0xcb; 0x8d; 0x01; 0x02; 0x04; 0x08; 0x10; 0x20;
   0x40; 0x80; 0x1b; 0x36; 0x6c; 0xd8; 0xab; 0x4d; 0x9a; 0x2f; 0x5e; 0xbc; 0x63; 0xc6; 0x97; 0x35;
   0x6a; 0xd4; 0xb3; 0x7d; 0xfa; 0xef; 0xc5; 0x91; 0x39; 0x72; 0xe4; 0xd3; 0xbd; 0x61; 0xc2; 0x9f;
   0x25; 0x4a; 0x94; 0x33; 0x66; 0xcc; 0x83; 0x1d; 0x3a; 0x74; 0xe8; 0xcb; 0x8d; 0x01; 0x02; 0x04;
   0x08; 0x10; 0x20; 0x40; 0x80; 0x1b; 0x36; 0x6c; 0xd8; 0xab; 0x4d; 0x9a; 0x2f; 0x5e; 0xbc; 0x63;
   0xc6; 0x97; 0x35; 0x6a; 0xd4; 0xb3; 0x7d; 0xfa; 0xef; 0xc5; 0x91; 0x39; 0x72; 0xe4; 0xd3; 0xbd;
   0x61; 0xc2; 0x9f; 0x25; 0x4a; 0x94; 0x33; 0x66; 0xcc; 0x83; 0x1d; 0x3a; 0x74; 0xe8; 0xcb].

Definition getSBoxValue (num : Z) : Z := elt sbox (Z.to_nat num).
Definition getSBoxInvert (num : Z) : Z := elt rsbox (Z.to_nat num).

(** ** The state

    [state_t] is an array of four rows of four bytes: element [i], [j] is byte
    [4 * i + j] of the block that the pointer [state] points to. *)
Definition state_get (st : list Z) (i j : nat) : Z := elt st (4 * i + j).
Definition state_set (st : list Z) (i j : nat) (v : Z) : list Z := <[(4 * i + j)%nat := v]> st.

(** ** Key expansion *)
Definition RotWord (tempa : list Z) : list Z :=
  [elt tempa 1; elt tempa 2; elt tempa 3; elt tempa 0].
Definition SubWord (tempa : list Z) : list Z :=
  [getSBoxValue (elt tempa 0); getSBoxValue (elt tempa 1);
   getSBoxValue (elt tempa 2); getSBoxValue (elt tempa 3)].

(** One round of the second loop. [Nk > 6] is false here. *)
Definition expand_word (i : nat) (RoundKey : list Z) : list Z :=
  let tempa := map (fun j => elt RoundKey ((i - 1) * 4 + j)) (seq 0 4) in
  let tempa :=
    if (i mod Nk =? 0)%nat then
      let t := SubWord (RotWord tempa) in
      <[0%nat := elt t 0 ⊕ elt Rcon (i / Nk)]> t
    else if ((6 <? Nk) && (i mod Nk =? 4))%nat then SubWord tempa
    else tempa in
  for_range 0 4 (fun j rk =>
    <[(i * 4 + j)%nat := elt rk ((i - Nk) * 4 + j) ⊕ elt tempa j]> rk) RoundKey.

Definition KeyExpansion (RoundKey key : list Z) : list Z :=
  let rk := for_range 0 Nk (fun i rk =>
    for_range 0 4 (fun j rk => <[(i * 4 + j)%nat := elt key (i * 4 + j)]> rk) rk) RoundKey in
  for_range Nk (Nb * (Nr + 1) - Nk) expand_word rk.

(** ** The round steps *)
Definition AddRoundKey (RoundKey : list Z) (round : nat) (st : list Z) : list Z :=
  for_range 0 4 (fun i st => for_range 0 4 (fun j st =>
    state_set st i j (state_get st i j ⊕ elt RoundKey (round * Nb * 4 + i * Nb + j))) st) st.

Definition SubBytes (st : list Z) : list Z :=
  for_range 0 4 (fun i st => for_range 0 4 (fun j st =>
    state_set st j i (getSBoxValue (state_get st j i))) st) st.

Definition ShiftRows (st : list Z) : list Z :=
  let temp := state_get st 0 1 in
  let st := state_set st 0 1 (state_get st 1 1) in
  let st := state_set st 1 1 (state_get st 2 1) in
  let st := state_set st 2 1 (state_get st 3 1) in
  let st := state_set st 3 1 temp in
  let temp := state_get st 0 2 in
  let st := state_set st 0 2 (state_get st 2 2) in
  let st := state_set st 2 2 temp in
  let temp := state_get st 1 2 in
  let st := state_set st 1 2 (state_get st 3 2) in
  let st := state_set st 3 2 temp in
  let temp := state_get st 0 3 in
  let st := state_set st 0 3 (state_get st 3 3) in
  let st := state_set st 3 3 (state_get st 2 3) in
  let st := state_set st 2 3 (state_get st 1 3) in
  state_set st 1 3 temp.

Definition xtime (x : Z) : Z :=
  wrap 8 (Z.shiftl x 1 ⊕ (Z.land (Z.shiftr x 7) 1 * 0x1b)).

Definition mix_column (i : nat) (st : list Z) : list Z :=
  let t := state_get st i 0 in
  let Tmp := state_get st i 0 ⊕ state_get st i 1 ⊕ state_get st i 2 ⊕ state_get st i 3 in
  let Tm := xtime (state_get st i 0 ⊕ state_get st i 1) in
  let st := state_set st i 0 (state_get st i 0 ⊕ (Tm ⊕ Tmp)) in
  let Tm := xtime (state_get st i 1 ⊕ state_get st i 2) in
  let st := state_set st i 1 (state_get st i 1 ⊕ (Tm ⊕ Tmp)) in
  let Tm := xtime (state_get st i 2 ⊕ state_get st i 3) in
  let st := state_set st i 2 (state_get st i 2 ⊕ (Tm ⊕ Tmp)) in
  let Tm := xtime (state_get st i 3 ⊕ t) in
  state_set st i 3 (state_get st i 3 ⊕ (Tm ⊕ Tmp)).

Definition MixColumns (st : list Z) : list Z := for_range 0 4 mix_column st.

Definition Multiply (x y : Z) : Z :=
  wrap 8
    ((Z.land y 1 * x) ⊕
     (Z.land (Z.shiftr y 1) 1 * xtime x) ⊕
     (Z.land (Z.shiftr y 2) 1 * xtime (xtime x)) ⊕
     (Z.land (Z.shiftr y 3) 1 * xtime (xtime (xtime x))) ⊕
     (Z.land (Z.shiftr y 4) 1 * xtime (xtime (xtime (xtime x))))).

Definition inv_mix_column (i : nat) (st : list Z) : list Z :=
  let a := state_get st i 0 in
  let b := state_get st i 1 in
  let c := state_get st i 2 in
  let d := state_get st i 3 in
  let st := state_set st i 0 (Multiply a 0x0e ⊕ Multiply b 0x0b ⊕ Multiply c 0x0d ⊕ Multiply d 0x09) in
  let st := state_set st i 1 (Multiply a 0x09 ⊕ Multiply b 0x0e ⊕ Multiply c 0x0b ⊕ Multiply d 0x0d) in
  let st := state_set st i 2 (Multiply a 0x0d ⊕ Multiply b 0x09 ⊕ Multiply c 0x0e ⊕ Multiply d 0x0b) in
  state_set st i 3 (Multiply a 0x0b ⊕ Multiply b 0x0d ⊕ Multiply c 0x09 ⊕ Multiply d 0x0e).

Definition InvMixColumns (st : list Z) : list Z := for_range 0 4 inv_mix_column st.

Definition InvSubBytes (st : list Z) : list Z :=
  for_range 0 4 (fun i st => for_range 0 4 (fun j st =>
    state_set st j i (getSBoxInvert (state_get st j i))) st) st.

Definition InvShiftRows (st : list Z) : list Z :=
  let temp := state_get st 3 1 in
  let st := state_set st 3 1 (state_get st 2 1) in
  let st := state_set st 2 1 (state_get st 1 1) in
  let st := state_set st 1 1 (state_get st 0 1) in
  let st := state_set st 0 1 temp in
  let temp := state_get st 0 2 in
  let st := state_set st 0 2 (state_get st 2 2) in
  let st := state_set st 2 2 temp in
  let temp := state_get st 1 2 in
  let st := state_set st 1 2 (state_get st 3 2) in
  let st := state_set st 3 2 temp in
  let temp := state_get st 0 3 in
  let st := state_set st 0 3 (state_get st 1 3) in
  let st := state_set st 1 3 (state_get st 2 3) in
  let st := state_set st 2 3 (state_get st 3 3) in
  state_set st 3 3 temp.

(** ** The cipher and its inverse *)
Definition cipher_round (RoundKey : list Z) (round : nat) (st : list Z) : list Z :=
  AddRoundKey RoundKey round (MixColumns (ShiftRows (SubBytes st))).

Definition Cipher (RoundKey st : list Z) : list Z :=
  let st := AddRoundKey RoundKey 0 st in
  let st := for_range 1 (Nr - 1) (cipher_round RoundKey) st in
  AddRoundKey RoundKey Nr (ShiftRows (SubBytes st)).

Definition inv_round (RoundKey : list Z) (round : nat) (st : list Z) : list Z :=
  InvMixColumns (AddRoundKey RoundKey round (InvSubBytes (InvShiftRows st))).

Definition InvCipher (RoundKey st : list Z) : list Z :=
  let st := AddRoundKey RoundKey Nr st in
  let st := for_down (Nr - 1) (inv_round RoundKey) st in
  AddRoundKey RoundKey 0 (InvSubBytes (InvShiftRows st)).

(** ** Modes over memory

    [state = output; f(ctx)]: the sixteen bytes at [output] are
    transformed in place. *)
Definition on_state (f : list Z -> list Z) (output : Z) (m : mem) : mem :=
  mstore m output (f (mbytes m output 16)).

Definition BlockCopy (output input : Z) (m : mem) : mem :=
  for_range 0 KEYLEN (fun i m => mput m (output + Z.of_nat i) (mget m (input + Z.of_nat i))) m.

Definition XorWithIv (iv buf : Z) (m : mem) : mem :=
  for_range 0 KEYLEN (fun i m =>
    mput m (buf + Z.of_nat i) (mget m (buf + Z.of_nat i) ⊕ mget m (iv + Z.of_nat i))) m.

Definition memcpy16 (dst src : Z) (m : mem) : mem := mstore m dst (mbytes m src 16).

(** A null key leaves the context as it is. *)
Definition AES128_set_key (RoundKey : list Z) (key : option (list Z)) : list Z :=
  match key with None => RoundKey | Some k => KeyExpansion RoundKey k end.

(** [for (i = 0; i < nblocks; i++) { ...; input += KEYLEN; output += KEYLEN; }]. *)
Fixpoint each_block (body : Z -> Z -> mem -> mem) (nblocks : nat) (input output : Z) (m : mem) : mem :=
  match nblocks with
  | O => m
  | S n => each_block body n (input + 16) (output + 16) (body input output m)
  end.

Definition AES128_ECB_encrypt (RoundKey : list Z) : nat -> Z -> Z -> mem -> mem :=
  each_block (fun input output m =>
    let m := BlockCopy output input m in
    on_state (Cipher RoundKey) output m).

Definition AES128_ECB_decrypt (RoundKey : list Z) : nat -> Z -> Z -> mem -> mem :=
  each_block (fun input output m =>
    let m := BlockCopy output input m in
    on_state (InvCipher RoundKey) output m).

Definition AES128_CBC_encrypt (RoundKey : list Z) (iv : Z) : nat -> Z -> Z -> mem -> mem :=
  each_block (fun input output m =>
    let m := BlockCopy output input m in
    let m := XorWithIv iv output m in
    let m := on_state (Cipher RoundKey) output m in
    memcpy16 iv output m).

Definition AES128_CBC_decrypt (RoundKey : list Z) (iv : Z) : nat -> Z -> Z -> mem -> mem :=
  each_block (fun input output m =>
    let nextiv := mbytes m input 16 in
    let m := BlockCopy output input m in
    let m := on_state (InvCipher RoundKey) output m in
    let m := XorWithIv iv output m in
    mstore m iv nextiv).

(** ** Mode descriptors

    [assert] is checked only in a kernel built with assertions. *)
Inductive init_result :=
  | Initialised (status : Z) (RoundKey : list Z)
  | AssertionFailed
  | Panic.

Section Init.
Variable assertions : bool.
Variable CCAES_KEY_SIZE_128 : Z.

Definition pdcmode_aes_ecb_init (RoundKey : list Z) (key_len : Z) (key : option (list Z)) : init_result :=
  if (32 <? key_len) && assertions && negb (key_len mod 8 =? 0) then AssertionFailed
  else
    let key_len := if 32 <? key_len then key_len / 8 else key_len in
    if negb (key_len =? CCAES_KEY_SIZE_128) then Panic
    else Initialised 0 (AES128_set_key RoundKey key).

Definition pdcmode_aes_cbc_init (RoundKey : list Z) (key_len : Z) (key : option (list Z)) : init_result :=
  if (32 <? key_len) && assertions && negb (key_len mod 8 =? 0) then AssertionFailed
  else
    let key_len := if 32 <? key_len then key_len / 8 else key_len in
    if negb (key_len =? CCAES_KEY_SIZE_128) then Panic
    else Initialised 0 (AES128_set_key RoundKey key).
End Init.

Definition pdcmode_aes_ecb_encrypt (RoundKey : list Z) (nblocks : nat) (input output : Z) (m : mem)
  : Z * mem := (0, AES128_ECB_encrypt RoundKey nblocks input output m).
Definition pdcmode_aes_ecb_decrypt (RoundKey : list Z) (nblocks : nat) (input output : Z) (m : mem)
  : Z * mem := (0, AES128_ECB_decrypt RoundKey nblocks input output m).
Definition pdcmode_aes_cbc_encrypt (RoundKey : list Z) (iv : Z) (nblocks : nat) (input output : Z)
    (m : mem) : Z * mem := (0, AES128_CBC_encrypt RoundKey iv nblocks input output m).
Definition pdcmode_aes_cbc_decrypt (RoundKey : list Z) (iv : Z) (nblocks : nat) (input output : Z)
    (m : mem) : Z * mem := (0, AES128_CBC_decrypt RoundKey iv nblocks input output m).

(** ** FIPS 197

    Bytes are polynomials over the field with two elements, modulo
    [x^8 + x^4 + x^3 + x + 1]. *)
Module Fips197.
(** Multiplication by [x]. *)
Definition gx (a : Z) : Z := if 2 * a <? 256 then 2 * a else (2 * a) ⊕ 0x11b.

Fixpoint gmul_bits (n : nat) (a b : Z) : Z :=
  match n with
  | O => 0
  | S k => (if Z.odd b then a else 0) ⊕ gmul_bits k (gx a) (b / 2)
  end.
Definition gmul (a b : Z) : Z := gmul_bits 8 a b.
Fixpoint gpow (a : Z) (n : nat) : Z := match n with O => 1 | S k => gmul a (gpow a k) end.

(** The inverse, zero for zero: the group of units has 255 elements, so it is
    [a ^ 254], the product of the squares [a ^ 2], [a ^ 4] to [a ^ 128]. *)
Fixpoint squares (n : nat) (a : Z) : Z :=
  match n with
  | O => 1
  | S k => let b := gmul a a in gmul b (squares k b)
  end.
Definition ginv (a : Z) : Z := squares 7 a.

(** The S-box: inverse, then an affine map. *)
Definition rotl8 (b k : Z) : Z := wrap 8 (Z.lor (Z.shiftl b k) (Z.shiftr b (8 - k))).
Definition sub_byte (a : Z) : Z :=
  let b := ginv a in b ⊕ rotl8 b 1 ⊕ rotl8 b 2 ⊕ rotl8 b 3 ⊕ rotl8 b 4 ⊕ 0x63.

(** Row [r], column [c] of a block, and the block with given entries. *)
Definition at_ (b : list Z) (r c : nat) : Z := elt b (r + 4 * c).
Definition build (f : nat -> nat -> Z) : list Z :=
  flat_map (fun c => map (fun r => f r c) (seq 0 4)) (seq 0 4).

Definition sub_bytes (b : list Z) : list Z := build (fun r c => sub_byte (at_ b r c)).
Definition shift_rows (b : list Z) : list Z := build (fun r c => at_ b r ((c + r) mod 4)).
Definition coefficient (r k : nat) : Z := elt [2; 3; 1; 1] ((4 + k - r) mod 4).
Definition mix_columns (b : list Z) : list Z :=
  build (fun r c => fold_right Z.lxor 0 (map (fun k => gmul (coefficient r k) (at_ b k c)) (seq 0 4))).
Definition add_round_key (w : list (list Z)) (round : nat) (b : list Z) : list Z :=
  build (fun r c => at_ b r c ⊕ elt (nth (4 * round + c) w []) r).

(** The words of the expanded key. *)
Definition xor_words (a b : list Z) : list Z := map (fun r => elt a r ⊕ elt b r) (seq 0 4).
Definition rot_word (a : list Z) : list Z := map (fun r => elt a ((r + 1) mod 4)) (seq 0 4).
Definition sub_word (a : list Z) : list Z := map (fun r => sub_byte (elt a r)) (seq 0 4).
Definition rcon (j : nat) : list Z := [gpow 2 (j - 1); 0; 0; 0].
Definition next_word (key : list Z) (ws : list (list Z)) : list Z :=
  let i := length ws in
  if (i <? 4)%nat then map (fun r => elt key (4 * i + r)) (seq 0 4)
  else
    let temp := nth (i - 1) ws [] in
    let temp := if (i mod 4 =? 0)%nat then xor_words (sub_word (rot_word temp)) (rcon (i / 4)) else temp in
    xor_words (nth (i - 4) ws []) temp.
Fixpoint key_words (key : list Z) (n : nat) : list (list Z) :=
  match n with O => [] | S k => let ws := key_words key k in ws ++ [next_word key ws] end.

Fixpoint main_rounds (w : list (list Z)) (n : nat) (b : list Z) : list Z :=
  match n with
  | O => add_round_key w 0 b
  | S k => add_round_key w n (mix_columns (shift_rows (sub_bytes (main_rounds w k b))))
  end.
Definition encrypt (key block : list Z) : list Z :=
  let w := key_words key 44 in
  add_round_key w 10 (shift_rows (sub_bytes (main_rounds w 9 block))).
End Fips197.

(** ** Blocks *)
Definition block (b : list Z) : Prop := length b = 16%nat /\ Forall byte b.

Ltac explode l :=
  do 16 (let x := fresh "b" in destruct l as [|x l]; [discriminate|]); destruct l; [|discriminate].

(** Blocks are handled entry by entry. *)
Ltac entries :=
  repeat match goal with
    | H : block _ |- _ => destruct H as [? ?]
    | H : Forall byte (_ :: _) |- _ => apply Forall_cons in H as [? ?]
    end.

Lemma sbox_fips b : byte b -> getSBoxValue b = Fips197.sub_byte b.
Proof.
  intros H. apply Z.eqb_eq. apply (all_bytes_spec (fun b => getSBoxValue b =? Fips197.sub_byte b)); [|done].
  vm_compute. reflexivity.
Qed.

Lemma sbox_inverse b : byte b -> getSBoxInvert (getSBoxValue b) = b.
Proof.
  intros H. apply Z.eqb_eq. apply (all_bytes_spec (fun b => getSBoxInvert (getSBoxValue b) =? b)); [|done].
  vm_compute. reflexivity.
Qed.

Lemma sbox_byte b : byte b -> byte (getSBoxValue b).
Proof.
  intros H. assert ((0 <=? getSBoxValue b) && (getSBoxValue b <? 256) = true) as Hb.
  - apply (all_bytes_spec (fun b => (0 <=? getSBoxValue b) && (getSBoxValue b <? 256))); [|done].
    vm_compute. reflexivity.
  - unfold byte. apply andb_prop in Hb as [? ?]. lia.
Qed.

#[local] Hint Resolve sbox_byte : panthera.

Lemma ginv_spec b : byte b -> b <> 0 -> Fips197.gmul b (Fips197.ginv b) = 1.
Proof.
  intros H Hn.
  assert ((b =? 0) || (Fips197.gmul b (Fips197.ginv b) =? 1) = true) as E.
  - apply (all_bytes_spec (fun b => (b =? 0) || (Fips197.gmul b (Fips197.ginv b) =? 1))); [|done].
    vm_compute. reflexivity.
  - apply orb_prop in E as [E|E]; lia.
Qed.

(** ** Multiplication by [x] *)
Lemma xtime_byte x : byte (xtime x).
Proof. apply byte_wrap. Qed.

Lemma xtime_lxor x y : xtime (x ⊕ y) = xtime x ⊕ xtime y.
Proof.
  unfold xtime, wrap. rewrite <- !Z.land_ones by lia.
  rewrite !bit_times, Z.lxor_spec by lia. apply Z.bits_inj. intros i.
  destruct (Z.testbit x 7), (Z.testbit y 7); cbn [xorb];
    destruct (decide (0 <= i)) as [Hi|Hi]; try (rewrite !Z.testbit_neg_r by lia; reflexivity);
    rewrite ?Z.lxor_spec, ?Z.land_spec, ?Z.lxor_spec, ?Z.shiftl_spec, ?Z.lxor_spec, ?Z.bits_0 by lia;
    btauto.
Qed.

(** A product with a constant of the inverse matrix is a sum of doublings. *)
Lemma Multiply_spec x k : byte x ->
  Multiply x k = (if Z.testbit k 0 then x else 0) ⊕ (if Z.testbit k 1 then xtime x else 0)
    ⊕ (if Z.testbit k 2 then xtime (xtime x) else 0) ⊕ (if Z.testbit k 3 then xtime (xtime (xtime x)) else 0)
    ⊕ (if Z.testbit k 4 then xtime (xtime (xtime (xtime x))) else 0).
Proof.
  intros Hx. unfold Multiply.
  rewrite <- (Z.shiftr_0_r k) at 1. rewrite !bit_times by lia.
  apply wrap_small. change (byte (
    (if Z.testbit k 0 then x else 0) ⊕ (if Z.testbit k 1 then xtime x else 0)
    ⊕ (if Z.testbit k 2 then xtime (xtime x) else 0) ⊕ (if Z.testbit k 3 then xtime (xtime (xtime x)) else 0)
    ⊕ (if Z.testbit k 4 then xtime (xtime (xtime (xtime x))) else 0))).
  repeat apply byte_lxor; case_match; try apply xtime_byte; unfold byte in *; lia.
Qed.

Lemma gmul_1 b : byte b -> Fips197.gmul 1 b = b.
Proof.
  intros H. apply Z.eqb_eq. apply (all_bytes_spec (fun b => Fips197.gmul 1 b =? b)); [|done].
  vm_compute. reflexivity.
Qed.

Lemma gmul_2 b : byte b -> Fips197.gmul 2 b = xtime b.
Proof.
  intros H. apply Z.eqb_eq. apply (all_bytes_spec (fun b => Fips197.gmul 2 b =? xtime b)); [|done].
  vm_compute. reflexivity.
Qed.

Lemma gmul_3 b : byte b -> Fips197.gmul 3 b = xtime b ⊕ b.
Proof.
  intros H. apply Z.eqb_eq. apply (all_bytes_spec (fun b => Fips197.gmul 3 b =? xtime b ⊕ b)); [|done].
  vm_compute. reflexivity.
Qed.

(** ** The round steps, as maps of blocks *)
Lemma SubBytes_map b : length b = 16%nat -> SubBytes b = map getSBoxValue b.
Proof. intros H. explode b. reflexivity. Qed.

Lemma InvSubBytes_map b : length b = 16%nat -> InvSubBytes b = map getSBoxInvert b.
Proof. intros H. explode b. reflexivity. Qed.

Lemma SubBytes_fips b : block b -> SubBytes b = Fips197.sub_bytes b.
Proof.
  intros [Hl Hb]. rewrite SubBytes_map by done.
  transitivity (map Fips197.sub_byte b); [|explode b; reflexivity].
  apply map_ext_in. intros x Hx. apply sbox_fips. rewrite Forall_forall in Hb. apply Hb.
  by apply list_elem_of_In.
Qed.

Lemma InvSubBytes_SubBytes b : block b -> InvSubBytes (SubBytes b) = b.
Proof.
  intros [Hl Hb]. rewrite SubBytes_map by done. rewrite InvSubBytes_map by by rewrite length_map.
  rewrite map_map. rewrite <- (map_id b) at 2. apply map_ext_in. intros x Hx.
  apply sbox_inverse. rewrite Forall_forall in Hb. apply Hb. by apply list_elem_of_In.
Qed.

Lemma ShiftRows_fips b : length b = 16%nat -> ShiftRows b = Fips197.shift_rows b.
Proof. intros H. explode b. reflexivity. Qed.

Lemma InvShiftRows_ShiftRows b : length b = 16%nat -> InvShiftRows (ShiftRows b) = b.
Proof. intros H. explode b. reflexivity. Qed.

(** [list_cbv] computes the shape of a block, keeping the arithmetic of its entries. *)
Ltac list_cbv := cbv -[byte Z.lxor xtime Multiply Fips197.gmul getSBoxValue getSBoxInvert].

Lemma MixColumns_fips b : block b -> MixColumns b = Fips197.mix_columns b.
Proof.
  intros [Hl Hb]. explode b. entries. list_cbv.
  rewrite !gmul_1, !gmul_2, !gmul_3 by done. rewrite !xtime_lxor, !Z.lxor_0_r.
  repeat (apply f_equal2; [xor_tac|]). reflexivity.
Qed.

(** One row of the inverse matrix times the mixed column: the coefficients of
    [b], [c] and [d] cancel as polynomials, without reduction. *)
Lemma unmix a b c d : byte a -> byte b -> byte c -> byte d ->
  let T := a ⊕ b ⊕ c ⊕ d in
  Multiply (a ⊕ (xtime (a ⊕ b) ⊕ T)) 14 ⊕ Multiply (b ⊕ (xtime (b ⊕ c) ⊕ T)) 11
    ⊕ Multiply (c ⊕ (xtime (c ⊕ d) ⊕ T)) 13 ⊕ Multiply (d ⊕ (xtime (d ⊕ a) ⊕ T)) 9 = a.
Proof.
  intros Ha Hb Hc Hd T.
  rewrite !Multiply_spec by (unfold T; auto 12 using xtime_byte with panthera). unfold T.
  repeat match goal with |- context [Z.testbit ?k ?i] =>
    let v := eval vm_compute in (Z.testbit k i) in change (Z.testbit k i) with v end.
  cbv iota. rewrite !xtime_lxor.
  xor_tac.
Qed.

(** The other rows are the same identity for a rotated column. *)
Lemma unmix_rows a b c d : byte a -> byte b -> byte c -> byte d ->
  let T := a ⊕ b ⊕ c ⊕ d in
  let a' := a ⊕ (xtime (a ⊕ b) ⊕ T) in let b' := b ⊕ (xtime (b ⊕ c) ⊕ T) in
  let c' := c ⊕ (xtime (c ⊕ d) ⊕ T) in let d' := d ⊕ (xtime (d ⊕ a) ⊕ T) in
  Multiply a' 14 ⊕ Multiply b' 11 ⊕ Multiply c' 13 ⊕ Multiply d' 9 = a /\
  Multiply a' 9 ⊕ Multiply b' 14 ⊕ Multiply c' 11 ⊕ Multiply d' 13 = b /\
  Multiply a' 13 ⊕ Multiply b' 9 ⊕ Multiply c' 14 ⊕ Multiply d' 11 = c /\
  Multiply a' 11 ⊕ Multiply b' 13 ⊕ Multiply c' 9 ⊕ Multiply d' 14 = d.
Proof.
  intros Ha Hb Hc Hd. cbv zeta. split; [by apply unmix|].
  pose proof (unmix b c d a Hb Hc Hd Ha) as E1. pose proof (unmix c d a b Hc Hd Ha Hb) as E2.
  pose proof (unmix d a b c Hd Ha Hb Hc) as E3. cbv zeta in *.
  replace (b ⊕ c ⊕ d ⊕ a) with (a ⊕ b ⊕ c ⊕ d) in E1 by xor_tac.
  replace (c ⊕ d ⊕ a ⊕ b) with (a ⊕ b ⊕ c ⊕ d) in E2 by xor_tac.
  replace (d ⊕ a ⊕ b ⊕ c) with (a ⊕ b ⊕ c ⊕ d) in E3 by xor_tac.
  split_and!; (etransitivity; [|first [exact E1|exact E2|exact E3]]); xor_tac.
Qed.

Lemma InvMixColumns_MixColumns b : block b -> InvMixColumns (MixColumns b) = b.
Proof.
  intros [Hl Hb]. explode b. entries. list_cbv.
  edestruct (unmix_rows b0 b1 b2 b3) as (-> & -> & -> & ->); [done..|].
  edestruct (unmix_rows b4 b5 b6 b7) as (-> & -> & -> & ->); [done..|].
  edestruct (unmix_rows b8 b9 b10 b11) as (-> & -> & -> & ->); [done..|].
  edestruct (unmix_rows b12 b13 b14 b15) as (-> & -> & -> & ->); [done..|]. reflexivity.
Qed.

(** The round steps keep blocks. *)
Lemma block_SubBytes b : block b -> block (SubBytes b).
Proof.
  intros [Hl Hb]. rewrite SubBytes_map by done. split; [by rewrite length_map|].
  apply Forall_map. eapply Forall_impl; [exact Hb|]. intros; by apply sbox_byte.
Qed.

Lemma block_ShiftRows b : block b -> block (ShiftRows b).
Proof. intros [Hl Hb]. explode b. entries. split; [done|]. list_cbv.
  repeat (apply Forall_cons; split; [done|]). constructor. Qed.

Lemma block_MixColumns b : block b -> block (MixColumns b).
Proof.
  intros [Hl Hb]. explode b. entries. split; [done|]. list_cbv.
  repeat (apply Forall_cons; split; [auto 8 using xtime_byte with panthera|]). constructor.
Qed.

Lemma elt_byte l i : Forall byte l -> byte (elt l i).
Proof.
  intros H. unfold elt. destruct (nth_in_or_default i l 0) as [Hi| ->]; [|unfold byte; lia].
  rewrite Forall_forall in H. apply H. by apply list_elem_of_In.
Qed.

(** The key byte added to entry [i], [j]. *)
Lemma AddRoundKey_entries rk r b : length b = 16%nat -> exists k,
  (forall i j, k i j = elt rk (r * Nb * 4 + i * Nb + j)) /\
  AddRoundKey rk r b = Fips197.build (fun j i => Fips197.at_ b j i ⊕ k i j).
Proof.
  intros H. set (k := fun i j : nat => elt rk (r * Nb * 4 + i * Nb + j)). exists k. split; [done|].
  change (for_range 0 4 (fun i st => for_range 0 4 (fun j st =>
    state_set st i j (state_get st i j ⊕ k i j)) st) b = Fips197.build (fun j i => Fips197.at_ b j i ⊕ k i j)).
  clearbody k. explode b. reflexivity.
Qed.

Lemma block_AddRoundKey rk r b : Forall byte rk -> block b -> block (AddRoundKey rk r b).
Proof.
  intros Hk [Hl Hb]. destruct (AddRoundKey_entries rk r b Hl) as (k & Ek & ->).
  assert (Hk' : forall i j, byte (k i j)) by (intros; rewrite Ek; by apply elt_byte).
  clear Ek. explode b. entries. split; [done|]. list_cbv.
  repeat (apply Forall_cons; split; [auto with panthera|]). constructor.
Qed.

#[local] Hint Resolve block_SubBytes block_ShiftRows block_MixColumns block_AddRoundKey : panthera.

(** The round key is an involution. *)
Lemma AddRoundKey_twice rk r b : length b = 16%nat -> AddRoundKey rk r (AddRoundKey rk r b) = b.
Proof.
  intros H. destruct (AddRoundKey_entries rk r b H) as (k & Ek & ->).
  destruct (AddRoundKey_entries rk r (Fips197.build (fun j i => Fips197.at_ b j i ⊕ k i j)))
    as (k' & Ek' & ->); [done|].
  assert (E : forall i j, k' i j = k i j) by (intros; by rewrite Ek, Ek').
  clear Ek Ek'. explode b. list_cbv. rewrite !E.
  repeat (apply f_equal2; [by rewrite Z.lxor_assoc, Z.lxor_nilpotent, Z.lxor_0_r|]). reflexivity.
Qed.

Lemma rsbox_byte b : byte b -> byte (getSBoxInvert b).
Proof.
  intros H. assert ((0 <=? getSBoxInvert b) && (getSBoxInvert b <? 256) = true) as Hb.
  - apply (all_bytes_spec (fun b => (0 <=? getSBoxInvert b) && (getSBoxInvert b <? 256))); [|done].
    vm_compute. reflexivity.
  - unfold byte. apply andb_prop in Hb as [? ?]. lia.
Qed.

Lemma block_InvSubBytes b : block b -> block (InvSubBytes b).
Proof.
  intros [Hl Hb]. rewrite InvSubBytes_map by done. split; [by rewrite length_map|].
  apply Forall_map. eapply Forall_impl; [exact Hb|]. intros; by apply rsbox_byte.
Qed.

Lemma block_InvShiftRows b : block b -> block (InvShiftRows b).
Proof. intros [Hl Hb]. explode b. entries. split; [done|]. list_cbv.
  repeat (apply Forall_cons; split; [done|]). constructor. Qed.

Lemma block_InvMixColumns b : block b -> block (InvMixColumns b).
Proof.
  intros [Hl Hb]. explode b. entries. split; [done|]. list_cbv.
  repeat (apply Forall_cons; split; [repeat apply byte_lxor; apply byte_wrap|]). constructor.
Qed.

#[local] Hint Resolve block_InvSubBytes block_InvShiftRows block_InvMixColumns : panthera.

#[local] Opaque SubBytes ShiftRows MixColumns AddRoundKey InvSubBytes InvShiftRows InvMixColumns.

(** ** The inverse cipher *)
Lemma block_rounds rk n b : Forall byte rk -> block b -> block (for_range 1 n (cipher_round rk) b).
Proof.
  intros Hk Hb. induction n as [|n IH]; [done|]. rewrite for_range_S. unfold cipher_round at 1. auto with panthera.
Qed.

Lemma undo_round rk n b : Forall byte rk -> block b ->
  inv_round rk n (ShiftRows (SubBytes (cipher_round rk n b))) = ShiftRows (SubBytes b).
Proof.
  intros Hk Hb. assert (Hr : block (cipher_round rk n b)) by (unfold cipher_round; auto with panthera).
  unfold inv_round. rewrite InvShiftRows_ShiftRows by apply (block_SubBytes _ Hr).
  rewrite InvSubBytes_SubBytes by done. unfold cipher_round.
  rewrite AddRoundKey_twice by apply (block_MixColumns _ (block_ShiftRows _ (block_SubBytes _ Hb))).
  by rewrite InvMixColumns_MixColumns by auto with panthera.
Qed.

Lemma block_inv_round rk n b : Forall byte rk -> block b -> block (inv_round rk n b).
Proof. intros. unfold inv_round. auto with panthera. Qed.

#[local] Opaque cipher_round inv_round.

Lemma undo_rounds rk n b : Forall byte rk -> block b ->
  for_down n (inv_round rk) (ShiftRows (SubBytes (for_range 1 n (cipher_round rk) b))) = ShiftRows (SubBytes b).
Proof.
  intros Hk Hb. induction n as [|n IH]; [done|]. rewrite for_down_S, for_range_S.
  rewrite undo_round by auto using block_rounds. exact IH.
Qed.

Lemma InvCipher_Cipher rk b : Forall byte rk -> block b -> InvCipher rk (Cipher rk b) = b.
Proof.
  intros Hk Hb. unfold InvCipher, Cipher. cbv zeta.
  assert (H0 : block (AddRoundKey rk 0 b)) by auto with panthera.
  pose proof (block_rounds rk (Nr - 1) _ Hk H0) as Hn.
  rewrite AddRoundKey_twice by apply (block_ShiftRows _ (block_SubBytes _ Hn)).
  rewrite undo_rounds by done. rewrite InvShiftRows_ShiftRows by apply (block_SubBytes _ H0).
  rewrite InvSubBytes_SubBytes by done. by apply AddRoundKey_twice, Hb.
Qed.

Lemma block_Cipher rk b : Forall byte rk -> block b -> block (Cipher rk b).
Proof.
  intros Hk Hb. unfold Cipher. cbv zeta.
  pose proof (block_rounds rk (Nr - 1) (AddRoundKey rk 0 b) Hk (block_AddRoundKey _ _ _ Hk Hb)).
  auto with panthera.
Qed.

Lemma block_inv_rounds rk n b : Forall byte rk -> block b -> block (for_down n (inv_round rk) b).
Proof.
  intros Hk. revert b. induction n as [|n IH]; intros b Hb; [done|]. rewrite for_down_S.
  apply IH. by apply block_inv_round.
Qed.

Lemma block_InvCipher rk b : Forall byte rk -> block b -> block (InvCipher rk b).
Proof.
  intros Hk Hb. unfold InvCipher. cbv zeta.
  pose proof (block_inv_rounds rk (Nr - 1) (AddRoundKey rk Nr b) Hk (block_AddRoundKey _ _ _ Hk Hb)).
  auto with panthera.
Qed.

(** ** Key expansion *)
Definition word (w : list Z) : Prop := length w = 4%nat /\ Forall byte w.

Lemma length_concat_words (ws : list (list Z)) :
  Forall word ws -> length (concat ws) = (4 * length ws)%nat.
Proof. induction 1 as [|w ws [Hw _] _ IH]; cbn [concat length]; [done|]. rewrite length_app. lia. Qed.

Lemma elt_concat ws t i j : Forall word ws -> (i < length ws)%nat -> (j < 4)%nat ->
  elt (concat ws ++ t) (i * 4 + j) = elt (nth i ws []) j.
Proof.
  intros H. revert i. induction H as [|w ws [Hw _] _ IH]; intros i Hi Hj; cbn [length] in Hi; [lia|].
  destruct i as [|i]; cbn [concat nth].
  - rewrite <- app_assoc, elt_app_l by lia. done.
  - rewrite <- app_assoc. replace (S i * 4 + j)%nat with (length w + (i * 4 + j))%nat by lia.
    rewrite elt_app_r. apply IH; lia.
Qed.

Lemma rcon_fips j : (1 <= j <= 10)%nat -> elt Rcon j = elt (Fips197.rcon j) 0.
Proof. intros H. do 11 (destruct j as [|j]; [first [lia|reflexivity]|]). lia. Qed.

Lemma word_nth ws i : Forall word ws -> (i < length ws)%nat -> word (nth i ws []).
Proof.
  intros H Hi. rewrite Forall_forall in H. apply H. apply list_elem_of_In, nth_In. lia.
Qed.

Lemma word_map (f : nat -> Z) : (forall r, byte (f r)) -> word (map f (seq 0 4)).
Proof. intros H. split; [done|]. cbn. auto. Qed.

Lemma sub_byte_byte b : byte b -> byte (Fips197.sub_byte b).
Proof. intros H. rewrite <- sbox_fips by done. by apply sbox_byte. Qed.

Lemma rcon_byte j r : (1 <= j <= 10)%nat -> byte (elt (Fips197.rcon j) r).
Proof.
  intros H. apply elt_byte. do 11 (destruct j as [|j]; [first [lia|repeat constructor; unfold byte; vm_compute; done]|]). lia.
Qed.

(** The word the code computes from the previous one. *)
Definition schedule (i : nat) (w : list Z) : list Z :=
  if (i mod 4 =? 0)%nat then Fips197.xor_words (Fips197.sub_word (Fips197.rot_word w)) (Fips197.rcon (i / 4))
  else w.

Lemma schedule_word i w : (4 <= i < 44)%nat -> word w -> word (schedule i w).
Proof.
  intros Hi [Hl Hb]. unfold schedule. case_match; [|done]. apply word_map. intros r. apply byte_lxor.
  - apply elt_byte. apply word_map. intros r'. apply sub_byte_byte, elt_byte, word_map. intros. by apply elt_byte.
  - apply rcon_byte. split; [apply (Nat.div_le_lower_bound i 4 1); lia|].
    assert (i / 4 < 11)%nat by (apply Nat.Div0.div_lt_upper_bound; lia). lia.
Qed.

Lemma tempa_schedule i w : (4 <= i < 44)%nat -> word w ->
  (if (i mod Nk =? 0)%nat then
     let t := SubWord (RotWord w) in <[0%nat := elt t 0 ⊕ elt Rcon (i / Nk)]> t
   else if ((6 <? Nk) && (i mod Nk =? 4))%nat then SubWord w else w) = schedule i w.
Proof.
  intros Hi [Hl Hb]. unfold schedule, Nk. destruct (i mod 4 =? 0)%nat; [|done].
  destruct w as [|w0 [|w1 [|w2 [|w3 [|]]]]]; try discriminate. entries. cbv zeta.
  rewrite rcon_fips.
  - unfold SubWord, RotWord. cbn -[Z.lxor Fips197.sub_byte Fips197.gpow getSBoxValue].
    rewrite !sbox_fips by done. by rewrite !Z.lxor_0_r.
  - split; [apply (Nat.div_le_lower_bound i 4 1); lia|].
    assert (i / 4 < 11)%nat by (apply Nat.Div0.div_lt_upper_bound; lia). lia.
Qed.

Lemma next_word_later key ws : (4 <= length ws)%nat ->
  Fips197.next_word key ws =
  Fips197.xor_words (nth (length ws - 4) ws []) (schedule (length ws) (nth (length ws - 1) ws [])).
Proof. intros H. unfold Fips197.next_word. rewrite (proj2 (Nat.ltb_ge _ _)) by lia. reflexivity. Qed.

Lemma expand_word_spec key ws t0 t1 t2 t3 tail :
  Forall word ws -> (4 <= length ws < 44)%nat ->
  expand_word (length ws) (concat ws ++ t0 :: t1 :: t2 :: t3 :: tail) =
  concat (ws ++ [Fips197.next_word key ws]) ++ tail.
Proof.
  intros Hw Hi. set (i := length ws) in *. unfold expand_word.
  assert (E : map (fun j => elt (concat ws ++ t0 :: t1 :: t2 :: t3 :: tail) ((i - 1) * 4 + j)) (seq 0 4) =
              nth (i - 1) ws []).
  { destruct (word_nth ws (i - 1) Hw ltac:(lia)) as [Hl _]. cbn [map seq].
    rewrite !elt_concat by (done || lia).
    destruct (nth (i - 1) ws []) as [|w0 [|w1 [|w2 [|w3 [|]]]]]; try discriminate. reflexivity. }
  rewrite E. cbv zeta. pose proof (tempa_schedule i (nth (i - 1) ws []) ltac:(lia) (word_nth ws (i - 1) Hw ltac:(lia))) as Et.
  cbv zeta in Et. rewrite Et. clear E Et.
  assert (Hc : (i * 4 = length (concat ws))%nat) by (rewrite length_concat_words by done; lia).
  unfold for_range, Nk. cbn [seq fold_left]. rewrite !Hc, !insert_app_r. rewrite !elt_concat by (done || lia).
  rewrite next_word_later by (fold i; lia). fold i.
  rewrite concat_app. cbn [concat app]. rewrite app_nil_r, <- app_assoc. reflexivity.
Qed.

Lemma length_key_words key n : length (Fips197.key_words key n) = n.
Proof. induction n as [|n IH]; cbn [Fips197.key_words]; [done|]. rewrite length_app, IH. cbn. lia. Qed.

Lemma key_words_word key n : Forall byte key -> (n <= 44)%nat -> Forall word (Fips197.key_words key n).
Proof.
  intros Hk. induction n as [|n IH]; intros Hn; cbn [Fips197.key_words]; [done|].
  specialize (IH ltac:(lia)). apply Forall_app. split; [done|]. apply Forall_singleton.
  pose proof (length_key_words key n) as Hl. destruct (decide (n < 4)%nat) as [H4|H4].
  - unfold Fips197.next_word. rewrite Hl, (proj2 (Nat.ltb_lt _ _)) by lia.
    apply word_map. intros r. by apply elt_byte.
  - rewrite next_word_later by lia. rewrite Hl. apply word_map. intros r. apply byte_lxor; apply elt_byte.
    + apply word_nth; [done|lia].
    + apply schedule_word; [lia|]. apply word_nth; [done|lia].
Qed.

Lemma first_words key rk0 : length key = 16%nat -> (16 <= length rk0)%nat ->
  for_range 0 Nk (fun i rk =>
    for_range 0 4 (fun j rk => <[(i * 4 + j)%nat := elt key (i * 4 + j)]> rk) rk) rk0 =
  concat (Fips197.key_words key 4) ++ drop 16 rk0.
Proof.
  intros Hk Hr. do 16 (destruct rk0 as [|? rk0]; [cbn in Hr; lia|]). explode key. reflexivity.
Qed.

Lemma KeyExpansion_fips rk0 key : length rk0 = 176%nat -> length key = 16%nat -> Forall byte key ->
  KeyExpansion rk0 key = concat (Fips197.key_words key 44).
Proof.
  intros Hr Hk Hb. unfold KeyExpansion. cbv zeta. rewrite first_words by lia.
  assert (H : exists t, length t = 0%nat /\
    for_range Nk (Nb * (Nr + 1) - Nk) expand_word (concat (Fips197.key_words key 4) ++ drop 16 rk0) =
    concat (Fips197.key_words key 44) ++ t).
  { apply (for_range_ind (fun k rk => exists t, length t = (4 * (40 - k))%nat /\
      rk = concat (Fips197.key_words key (4 + k)) ++ t) Nk 40).
    - exists (drop 16 rk0). split; [rewrite length_drop; lia|done].
    - intros k rk Hlt (t & Ht & ->). destruct t as [|t0 [|t1 [|t2 [|t3 t]]]]; cbn [length] in Ht; try lia.
      exists t. split; [lia|]. pose proof (length_key_words key (4 + k)) as Hl.
      replace (Nk + k)%nat with (length (Fips197.key_words key (4 + k))) by (rewrite Hl; done).
      rewrite (expand_word_spec key); [|apply key_words_word; [done|lia]|lia].
      replace (4 + S k)%nat with (S (4 + k)) by lia. reflexivity. }
  destruct H as ([|] & Ht & ->); [apply app_nil_r|discriminate].
Qed.

(** ** The cipher is the one of the standard *)
Lemma AddRoundKey_fips ws r b : Forall word ws -> (4 * r + 4 <= length ws)%nat -> length b = 16%nat ->
  AddRoundKey (concat ws) r b = Fips197.add_round_key ws r b.
Proof.
  intros Hw Hr Hb. destruct (AddRoundKey_entries (concat ws) r b Hb) as (k & Ek & ->).
  assert (E : forall i j, (i < 4)%nat -> (j < 4)%nat -> k i j = elt (nth (4 * r + i) ws []) j).
  { intros i j Hi Hj. rewrite Ek, <- (app_nil_r (concat ws)), <- (elt_concat ws []) by (done || lia).
    f_equal. unfold Nb. lia. }
  clear Ek. unfold Fips197.add_round_key, Fips197.build. cbn [flat_map map seq app].
  by rewrite !E by lia.
Qed.

#[local] Transparent cipher_round.

Section Standard.
Variable key : list Z.
Hypothesis key_length : length key = 16%nat.
Hypothesis key_bytes : Forall byte key.
Let ws := Fips197.key_words key 44.

Lemma expanded_bytes : Forall byte (concat ws).
Proof.
  apply Forall_concat. eapply Forall_impl; [by apply (key_words_word key 44)|]. by intros w [_ ?].
Qed.

Lemma rounds_fips n b : (n <= 10)%nat -> block b ->
  for_range 1 n (cipher_round (concat ws)) (AddRoundKey (concat ws) 0 b) = Fips197.main_rounds ws n b.
Proof.
  intros Hn Hb. pose proof (key_words_word key 44 key_bytes ltac:(lia)) as Hw.
  pose proof (length_key_words key 44) as Hl. fold ws in Hw, Hl.
  induction n as [|n IH].
  - apply AddRoundKey_fips; [done|lia|apply Hb].
  - rewrite for_range_S. cbn [Fips197.main_rounds]. rewrite <- IH by lia.
    pose proof (block_rounds (concat ws) n _ expanded_bytes (block_AddRoundKey _ 0 b expanded_bytes Hb)) as Hx.
    set (x := for_range 1 n (cipher_round (concat ws)) (AddRoundKey (concat ws) 0 b)) in *. clearbody x.
    unfold cipher_round.
    assert (Hs : block (ShiftRows (SubBytes x))) by auto with panthera.
    rewrite AddRoundKey_fips; [|done|lia|apply (block_MixColumns _ Hs)].
    rewrite MixColumns_fips by done. rewrite ShiftRows_fips by apply (block_SubBytes _ Hx).
    by rewrite SubBytes_fips by done.
Qed.

Lemma Cipher_fips rk0 b : length rk0 = 176%nat -> block b ->
  Cipher (KeyExpansion rk0 key) b = Fips197.encrypt key b.
Proof.
  intros Hr Hb. rewrite KeyExpansion_fips by done. fold ws. unfold Cipher, Fips197.encrypt. cbv zeta.
  pose proof (block_rounds (concat ws) (Nr - 1) _ expanded_bytes (block_AddRoundKey _ 0 b expanded_bytes Hb)) as Hx.
  rewrite AddRoundKey_fips; [| |unfold ws; rewrite length_key_words; unfold Nr; lia
    |apply (block_ShiftRows _ (block_SubBytes _ Hx))]; [|by apply key_words_word].
  rewrite ShiftRows_fips by apply (block_SubBytes _ Hx). rewrite SubBytes_fips by done.
  by rewrite rounds_fips by (done || unfold Nr; lia).
Qed.
End Standard.

#[local] Opaque Cipher InvCipher KeyExpansion.

(** ** One block in memory *)
Definition xor_bytes (x y : list Z) : list Z := zip_with Z.lxor x y.

Lemma mbytes_shift m m' a b n :
  (forall i, 0 <= i < Z.of_nat n -> mget m' (b + i) = mget m (a + i)) -> mbytes m' b n = mbytes m a n.
Proof.
  revert a b. induction n as [|n IH]; intros a b H; cbn [mbytes]; [done|].
  f_equal; [by specialize (H 0 ltac:(lia)); rewrite !Z.add_0_r in H|].
  apply IH. intros i Hi. specialize (H (1 + i) ltac:(lia)). by rewrite !Z.add_assoc in H.
Qed.

Lemma mbytes_xor m m' m1 a b c n :
  (forall i, 0 <= i < Z.of_nat n -> mget m' (b + i) = mget m (a + i) ⊕ mget m1 (c + i)) ->
  mbytes m' b n = xor_bytes (mbytes m a n) (mbytes m1 c n).
Proof.
  revert a b c. induction n as [|n IH]; intros a b c H; cbn [mbytes xor_bytes zip_with]; [done|].
  f_equal; [by specialize (H 0 ltac:(lia)); rewrite !Z.add_0_r in H|].
  apply IH. intros i Hi. specialize (H (1 + i) ltac:(lia)). by rewrite !Z.add_assoc in H.
Qed.

Lemma block_mbytes m a : mem_wf m -> block (mbytes m a 16).
Proof.
  intros Hw. split; [apply length_mbytes|]. generalize 16%nat. intros n. revert a.
  induction n as [|n IH]; intros a; cbn [mbytes]; constructor; [apply Hw|apply IH].
Qed.

Lemma block_xor x y : block x -> block y -> block (xor_bytes x y).
Proof.
  intros [Hx Bx] [Hy By]. split; [unfold xor_bytes; rewrite length_zip_with; lia|].
  clear Hx Hy. revert y By. induction Bx as [|a x Ha _ IH]; intros y By; [constructor|].
  destruct By as [|b y Hb By]; constructor; [by apply byte_lxor|by apply IH].
Qed.

Lemma xor_bytes_twice x y : length x = length y -> xor_bytes (xor_bytes x y) y = x.
Proof.
  revert y. induction x as [|a x IH]; intros [|b y] H; try discriminate; [done|]. cbn.
  rewrite Z.lxor_assoc, Z.lxor_nilpotent, Z.lxor_0_r. f_equal. apply IH. by injection H.
Qed.

Lemma mget_BlockCopy output input m a : mem_wf m -> output <= input \/ input + 16 <= output ->
  mget (BlockCopy output input m) a =
  if decide (output <= a < output + 16) then mget m (input + (a - output)) else mget m a.
Proof.
  intros Hw Hd.
  enough (H : forall a, mget (BlockCopy output input m) a =
    if decide (output <= a < output + Z.of_nat 16) then mget m (input + (a - output)) else mget m a) by apply H.
  unfold BlockCopy, KEYLEN.
  apply (for_range_ind (fun k m' => forall a, mget m' a =
    if decide (output <= a < output + Z.of_nat k) then mget m (input + (a - output)) else mget m a) 0 16).
  - intros x. by rewrite decide_False by lia.
  - intros k m' Hk IH x. rewrite mget_mput, !IH. cbn [Nat.add].
    rewrite (decide_False (P := output <= input + _ < _)) by lia. rewrite Z.mod_small by apply Hw.
    repeat case_decide; try lia; try done. f_equal. lia.
Qed.

Lemma mget_XorWithIv iv buf m a : mem_wf m -> iv + 16 <= buf \/ buf + 16 <= iv ->
  mget (XorWithIv iv buf m) a =
  if decide (buf <= a < buf + 16) then mget m a ⊕ mget m (iv + (a - buf)) else mget m a.
Proof.
  intros Hw Hd.
  enough (H : forall a, mget (XorWithIv iv buf m) a =
    if decide (buf <= a < buf + Z.of_nat 16) then mget m a ⊕ mget m (iv + (a - buf)) else mget m a) by apply H.
  unfold XorWithIv, KEYLEN.
  apply (for_range_ind (fun k m' => forall a, mget m' a =
    if decide (buf <= a < buf + Z.of_nat k) then mget m a ⊕ mget m (iv + (a - buf)) else mget m a) 0 16).
  - intros x. by rewrite decide_False by lia.
  - intros k m' Hk IH x. rewrite mget_mput, !IH. cbn [Nat.add].
    rewrite (decide_False (P := buf <= iv + _ < _)), (decide_False (P := buf <= buf + _ < _)) by lia.
    rewrite Z.mod_small by (apply byte_lxor; apply Hw).
    repeat case_decide; try lia; try done. subst x. f_equal. f_equal. lia.
Qed.

(** Outside the sixteen bytes at [a]. *)
Definition outside (a x : Z) : Prop := x < a \/ a + 16 <= x.

(** Buffers for which a block can be processed without destroying later input. *)
Definition forward (input output n : Z) : Prop := output <= input \/ input + n <= output.
Definition apart (a n b k : Z) : Prop := a + n <= b \/ b + k <= a.

Lemma mem_wf_ext m m' : (forall a, exists b, mget m' a = mget m b) -> mem_wf m -> mem_wf m'.
Proof. intros H Hw a. destruct (H a) as [b ->]. apply Hw. Qed.

Lemma BlockCopy_spec output input m : mem_wf m -> forward input output 16 ->
  mem_wf (BlockCopy output input m) /\ mbytes (BlockCopy output input m) output 16 = mbytes m input 16 /\
  only_in output 16 m (BlockCopy output input m).
Proof.
  intros Hw Hf. split_and!.
  - intros a. rewrite mget_BlockCopy by done. case_decide; apply Hw.
  - apply mbytes_shift. intros i Hi. rewrite mget_BlockCopy by done.
    rewrite decide_True by lia. f_equal. lia.
  - intros a Ha. rewrite mget_BlockCopy by done. by rewrite decide_False by lia.
Qed.

Lemma XorWithIv_spec iv buf m : mem_wf m -> apart iv 16 buf 16 ->
  mem_wf (XorWithIv iv buf m) /\
  mbytes (XorWithIv iv buf m) buf 16 = xor_bytes (mbytes m buf 16) (mbytes m iv 16) /\
  only_in buf 16 m (XorWithIv iv buf m).
Proof.
  intros Hw Hf. split_and!.
  - intros a. rewrite mget_XorWithIv by done. case_decide; [apply byte_lxor|]; apply Hw.
  - apply mbytes_xor. intros i Hi. rewrite mget_XorWithIv by done.
    rewrite decide_True by lia. do 2 f_equal. lia.
  - intros a Ha. rewrite mget_XorWithIv by done. by rewrite decide_False by lia.
Qed.

Lemma store_spec a bs m : mem_wf m -> block bs ->
  mem_wf (mstore m a bs) /\ mbytes (mstore m a bs) a 16 = bs /\ only_in a 16 m (mstore m a bs).
Proof.
  intros Hw [Hl Hb]. split_and!; [by apply mem_wf_mstore|rewrite <- Hl; by apply mbytes_mstore|].
  intros x Hx. apply mget_mstore_out. rewrite Hl. lia.
Qed.

Lemma mbytes_only_in a n m m' b k : only_in a n m m' -> apart a n b (Z.of_nat k) ->
  mbytes m' b k = mbytes m b k.
Proof. intros H Hd. apply mbytes_ext. intros x Hx. apply H. unfold apart in Hd. lia. Qed.

(** ** Modes as streams of blocks

    A mode turns a chaining value and an input block into an output block ([f])
    and the next chaining value ([g]). *)
Fixpoint blocks_at (m : mem) (a : Z) (n : nat) : list (list Z) :=
  match n with
  | O => []
  | S k => mbytes m a 16 :: blocks_at m (a + 16) k
  end.

Lemma concat_blocks_at m a n : concat (blocks_at m a n) = mbytes m a (16 * n).
Proof.
  revert a. induction n as [|n IH]; intros a; cbn [blocks_at concat]; [done|].
  rewrite IH. replace (16 * S n)%nat with (16 + 16 * n)%nat by lia. by rewrite mbytes_app.
Qed.

Lemma blocks_at_ext m m' a n :
  (forall x, a <= x < a + 16 * Z.of_nat n -> mget m' x = mget m x) -> blocks_at m' a n = blocks_at m a n.
Proof.
  revert a. induction n as [|n IH]; intros a H; cbn [blocks_at]; [done|].
  rewrite (IH (a + 16)) by (intros; apply H; lia). f_equal. apply mbytes_ext. intros. apply H. lia.
Qed.

Lemma blocks_at_blocks m a n : mem_wf m -> Forall block (blocks_at m a n).
Proof.
  intros Hw. revert a. induction n as [|n IH]; intros a; cbn [blocks_at]; constructor; [by apply block_mbytes|done].
Qed.

Section Stream.
Variables f g : list Z -> list Z -> list Z.

Fixpoint stream (v : list Z) (xs : list (list Z)) : list (list Z) * list Z :=
  match xs with
  | [] => ([], v)
  | x :: xs' => let '(ys, v') := stream (g v x) xs' in (f v x :: ys, v')
  end.

Variable step : Z -> Z -> mem -> mem.
Variables (iv : Z) (k : nat).

(** The step processes one block, and changes nothing but the output block and
    the chaining value. *)
Definition block_step : Prop := forall input output m,
  mem_wf m -> forward input output 16 ->
  apart iv (Z.of_nat k) output 16 -> apart iv (Z.of_nat k) input 16 ->
  let m' := step input output m in
  mem_wf m' /\ mbytes m' output 16 = f (mbytes m iv k) (mbytes m input 16) /\
  mbytes m' iv k = g (mbytes m iv k) (mbytes m input 16) /\
  (forall a, outside output a -> a < iv \/ iv + Z.of_nat k <= a -> mget m' a = mget m a).

Lemma run_spec : block_step -> forall n input output m,
  mem_wf m -> forward input output (16 * Z.of_nat n) ->
  apart iv (Z.of_nat k) output (16 * Z.of_nat n) -> apart iv (Z.of_nat k) input (16 * Z.of_nat n) ->
  let m' := each_block step n input output m in
  mem_wf m' /\
  (blocks_at m' output n, mbytes m' iv k) = stream (mbytes m iv k) (blocks_at m input n) /\
  (forall a, a < output \/ output + 16 * Z.of_nat n <= a -> a < iv \/ iv + Z.of_nat k <= a ->
    mget m' a = mget m a).
Proof.
  intros Hs n. induction n as [|n IH]; intros input output m Hw Hf Ho Hi; cbn [each_block]; cbv zeta; [done|].
  unfold forward, apart in *.
  destruct (Hs input output m Hw) as (W1 & O1 & I1 & K1); [unfold forward, apart; lia..|].
  set (m1 := step input output m) in *. clearbody m1.
  destruct (IH (input + 16) (output + 16) m1 W1) as (W2 & E2 & K2); [lia..|].
  set (m2 := each_block step n (input + 16) (output + 16) m1) in *. clearbody m2.
  split_and!; [done| |].
  - cbn [blocks_at stream]. rewrite (blocks_at_ext m m1 (input + 16)) in E2.
    + rewrite <- I1, <- O1, <- E2. do 2 f_equal. apply mbytes_ext. intros x Hx. apply K2; lia.
    + intros x Hx. apply K1; unfold outside; lia.
  - intros a Ha Hv. rewrite K2 by lia. apply K1; [unfold outside|]; lia.
Qed.
End Stream.

(** ** The four modes *)
Section Modes.
Variable rk : list Z.
Hypothesis rk_bytes : Forall byte rk.

Definition xor_then (x : list Z -> list Z) (v b : list Z) : list Z := x (xor_bytes b v).
Definition then_xor (x : list Z -> list Z) (v b : list Z) : list Z := xor_bytes (x b) v.
Definition only_block (x : list Z -> list Z) (v b : list Z) : list Z := x b.
Definition keep (v b : list Z) : list Z := v.
Definition input_block (v b : list Z) : list Z := b.

Lemma ecb_step c iv : (forall b, block b -> block (c b)) ->
  block_step (only_block c) keep (fun input output m => on_state c output (BlockCopy output input m)) iv 0.
Proof.
  intros Hc input output m Hw Hf Ho Hi. cbv zeta. unfold on_state.
  destruct (BlockCopy_spec output input m Hw Hf) as (W1 & E1 & K1).
  set (m1 := BlockCopy output input m) in *. clearbody m1. rewrite E1.
  destruct (store_spec output (c (mbytes m input 16)) m1 W1) as (W2 & E2 & K2); [by apply Hc, block_mbytes|].
  split_and!; [done|done|done|]. intros a Ha _. unfold outside in Ha. rewrite K2 by lia. by apply K1.
Qed.

Lemma cbc_encrypt_step iv : 
  block_step (xor_then (Cipher rk)) (xor_then (Cipher rk)) (fun input output m =>
    memcpy16 iv output (on_state (Cipher rk) output (XorWithIv iv output (BlockCopy output input m)))) iv 16.
Proof.
  intros input output m Hw Hf Ho Hi. cbv zeta. unfold on_state, memcpy16.
  destruct (BlockCopy_spec output input m Hw Hf) as (W1 & E1 & K1).
  set (m1 := BlockCopy output input m) in *. clearbody m1.
  destruct (XorWithIv_spec iv output m1 W1 Ho) as (W2 & E2 & K2).
  set (m2 := XorWithIv iv output m1) in *. clearbody m2.
  rewrite E1, (mbytes_only_in _ _ _ _ iv 16 K1) in E2 by (unfold apart in *; lia).
  rewrite E2. set (c := Cipher rk (xor_bytes (mbytes m input 16) (mbytes m iv 16))).
  assert (Hc : block c) by (apply block_Cipher; [done|]; apply block_xor; by apply block_mbytes).
  destruct (store_spec output c m2 W2 Hc) as (W3 & E3 & K3). rewrite E3.
  destruct (store_spec iv c (mstore m2 output c) W3 Hc) as (W4 & E4 & K4).
  unfold outside, apart in *. split_and!; [done| |done|].
  - rewrite (mbytes_only_in iv 16 _ _ output 16 K4) by (unfold apart; lia). done.
  - intros a Ha Hv. rewrite K4, K3, K2 by lia. by apply K1.
Qed.

Lemma cbc_decrypt_step iv :
  block_step (then_xor (InvCipher rk)) input_block (fun input output m =>
    mstore (XorWithIv iv output (on_state (InvCipher rk) output (BlockCopy output input m)))
      iv (mbytes m input 16)) iv 16.
Proof.
  intros input output m Hw Hf Ho Hi. cbv zeta. unfold on_state.
  destruct (BlockCopy_spec output input m Hw Hf) as (W1 & E1 & K1).
  set (m1 := BlockCopy output input m) in *. clearbody m1. rewrite E1.
  destruct (store_spec output (InvCipher rk (mbytes m input 16)) m1 W1) as (W2 & E2 & K2);
    [by apply block_InvCipher, block_mbytes|].
  set (m2 := mstore m1 output _) in *. clearbody m2.
  destruct (XorWithIv_spec iv output m2 W2 Ho) as (W3 & E3 & K3).
  set (m3 := XorWithIv iv output m2) in *. clearbody m3.
  unfold outside, apart in *.
  rewrite E2, (mbytes_only_in _ _ _ _ iv 16 K2), (mbytes_only_in _ _ _ _ iv 16 K1) in E3
    by (unfold apart; lia).
  destruct (store_spec iv (mbytes m input 16) m3 W3) as (W4 & E4 & K4); [by apply block_mbytes|].
  split_and!; [done| |done|].
  - rewrite (mbytes_only_in iv 16 _ _ output 16 K4) by (unfold apart; lia). done.
  - intros a Ha Hv. rewrite K4, K3, K2 by lia. by apply K1.
Qed.
End Modes.

(** ** Streams over blocks *)
Lemma stream_ecb c v xs : stream (only_block c) keep v xs = (map c xs, v).
Proof. induction xs as [|x xs IH]; cbn [stream map]; [done|].
  unfold keep at 2. by rewrite IH. Qed.

Lemma stream_ext f f' g g' v xs :
  (forall v x, block v -> block x -> f v x = f' v x /\ g v x = g' v x /\ block (g v x)) ->
  block v -> Forall block xs -> stream f g v xs = stream f' g' v xs.
Proof.
  intros H Hv Hx. revert v Hv. induction Hx as [|x xs Hx _ IH]; intros v Hv; cbn [stream]; [done|].
  destruct (H v x Hv Hx) as (Ef & Eg & Hg). rewrite (IH _ Hg), Ef, Eg. done.
Qed.

(** Decryption with the same initial vector undoes encryption. *)
Lemma stream_cbc e d v xs : (forall b, block b -> block (e b) /\ d (e b) = b) ->
  block v -> Forall block xs ->
  (stream (then_xor d) input_block v (stream (xor_then e) (xor_then e) v xs).1).1 = xs.
Proof.
  intros H Hv Hx. revert v Hv. induction Hx as [|x xs Hx _ IH]; intros v Hv; cbn [stream fst]; [done|].
  pose proof (block_xor x v Hx Hv) as Hb. destruct (H _ Hb) as [He Ed].
  specialize (IH (xor_then e v x) He).
  destruct (stream (xor_then e) (xor_then e) (xor_then e v x) xs) as [ys v']. cbn [fst stream] in *.
  change (input_block v (xor_then e v x)) with (xor_then e v x).
  destruct (stream (then_xor d) input_block (xor_then e v x) ys) as [zs v'']. cbn [fst] in *. subst zs.
  f_equal. unfold then_xor, xor_then. rewrite Ed. apply xor_bytes_twice. destruct Hx, Hv. congruence.
Qed.

Lemma init_key init assertions rk0 key_len key st rk :
  init = pdcmode_aes_ecb_init assertions 16 rk0 key_len (Some key) \/
  init = pdcmode_aes_cbc_init assertions 16 rk0 key_len (Some key) ->
  init = Initialised st rk -> rk = KeyExpansion rk0 key.
Proof.
  change (KeyExpansion rk0 key) with (AES128_set_key rk0 (Some key)).
  unfold pdcmode_aes_ecb_init, pdcmode_aes_cbc_init.
  generalize (AES128_set_key rk0 (Some key)) as rk'. intros rk' [-> | ->].
  all: destruct (_ && _ && _); [discriminate|].
  all: cbv zeta; destruct (negb _); [discriminate|].
  all: intros Hi; by injection Hi.
Qed.

Lemma expanded_key rk0 key rk : length rk0 = 176%nat -> length key = 16%nat -> Forall byte key ->
  rk = KeyExpansion rk0 key ->
  Forall byte rk /\ forall b, block b -> Cipher rk b = Fips197.encrypt key b.
Proof.
  intros Hr Hl Hb ->. split; [rewrite KeyExpansion_fips by done; by apply expanded_bytes|].
  intros b Hbl. by apply Cipher_fips.
Qed.

Lemma ecb_memory c n input output m : (forall b, block b -> block (c b)) ->
  mem_wf m -> forward input output (16 * Z.of_nat n) ->
  let m' := each_block (fun input output m => on_state c output (BlockCopy output input m)) n input output m in
  mem_wf m' /\ blocks_at m' output n = map c (blocks_at m input n) /\ only_in output (16 * Z.of_nat n) m m'.
Proof.
  intros Hc Hw Hf.
  destruct (run_spec _ _ _ _ _ (ecb_step c (Z.min input output) Hc) n input output m Hw Hf)
    as (W & E & K); [unfold apart; lia..|].
  rewrite stream_ecb in E. injection E as E. split_and!; [done|done|].
  intros a Ha. apply K; lia.
Qed.

(** C20. Electronic codebook mode. After a successful initialisation, encrypting
    writes to the output the FIPS 197 encryption of each input block and changes
    no other byte; decrypting that output gives the input back. Buffers may
    overlap as long as the output does not run ahead into unread input, so
    working in place is covered. *)
Theorem aes_ecb (assertions : bool) (rk0 key rk : list Z) (key_len st : Z) (n : nat)
    (input output back : Z) (m : mem) :
  pdcmode_aes_ecb_init assertions 16 rk0 key_len (Some key) = Initialised st rk ->
  length rk0 = 176%nat -> length key = 16%nat -> Forall byte key -> mem_wf m ->
  forward input output (16 * Z.of_nat n) -> forward output back (16 * Z.of_nat n) ->
  exists m1 m2,
    pdcmode_aes_ecb_encrypt rk n input output m = (0, m1) /\
    blocks_at m1 output n = map (Fips197.encrypt key) (blocks_at m input n) /\
    only_in output (16 * Z.of_nat n) m m1 /\
    pdcmode_aes_ecb_decrypt rk n output back m1 = (0, m2) /\
    mbytes m2 back (16 * n) = mbytes m input (16 * n) /\
    only_in back (16 * Z.of_nat n) m1 m2.
Proof.
  intros Hi Hr Hl Hb Hw Hf1 Hf2. eapply init_key in Hi; [|by left].
  destruct (expanded_key rk0 key rk Hr Hl Hb Hi) as [Hk Hc]. clear Hi.
  destruct (ecb_memory (Cipher rk) n input output m (fun b => block_Cipher rk b Hk) Hw Hf1) as (W1 & E1 & K1).
  destruct (ecb_memory (InvCipher rk) n output back _ (fun b => block_InvCipher rk b Hk) W1 Hf2) as (W2 & E2 & K2).
  eexists _, _. split; [reflexivity|]. split; [|split; [exact K1|]]; [|split; [reflexivity|split; [|exact K2]]].
  - etransitivity; [exact E1|]. apply map_ext_in. intros b Hi. apply Hc.
    apply (Forall_forall block (blocks_at m input n)); [by apply blocks_at_blocks|by apply list_elem_of_In].
  - rewrite <- !concat_blocks_at. f_equal. etransitivity; [exact E2|]. rewrite E1, map_map.
    rewrite <- (map_id (blocks_at m input n)) at 2. apply map_ext_in. intros b Hi. apply InvCipher_Cipher; [done|].
    apply (Forall_forall block (blocks_at m input n)); [by apply blocks_at_blocks|by apply list_elem_of_In].
Qed.

(** Cipher block chaining with the block cipher [e]: the outputs and the last
    chaining value. *)
Definition cbc (e : list Z -> list Z) (v : list Z) (xs : list (list Z)) : list (list Z) * list Z :=
  stream (xor_then e) (xor_then e) v xs.

Lemma cbc_fips key rk v xs : Forall byte rk -> (forall b, block b -> Cipher rk b = Fips197.encrypt key b) ->
  block v -> Forall block xs -> cbc (Cipher rk) v xs = cbc (Fips197.encrypt key) v xs.
Proof.
  intros Hk Hc. apply stream_ext. intros u x Hu Hx. pose proof (block_xor x u Hx Hu) as Hb.
  unfold xor_then. rewrite Hc by done. split_and!; [done|done|]. rewrite <- Hc by done. by apply block_Cipher.
Qed.

(** C21. Cipher block chaining. After a successful initialisation, encrypting
    writes the CBC encryption of the input under FIPS 197 to the output and
    leaves the last cipher block as the chaining value; decrypting that output
    with the initial vector put back gives the input. Only the output and the
    vector change, and the buffers may overlap as for the codebook mode. *)
Theorem aes_cbc (assertions : bool) (rk0 key rk : list Z) (key_len st iv : Z) (n : nat)
    (input output back : Z) (m : mem) :
  pdcmode_aes_cbc_init assertions 16 rk0 key_len (Some key) = Initialised st rk ->
  length rk0 = 176%nat -> length key = 16%nat -> Forall byte key -> mem_wf m ->
  forward input output (16 * Z.of_nat n) -> forward output back (16 * Z.of_nat n) ->
  apart iv 16 input (16 * Z.of_nat n) -> apart iv 16 output (16 * Z.of_nat n) ->
  apart iv 16 back (16 * Z.of_nat n) ->
  exists m1 m2,
    pdcmode_aes_cbc_encrypt rk iv n input output m = (0, m1) /\
    (blocks_at m1 output n, mbytes m1 iv 16) =
      cbc (Fips197.encrypt key) (mbytes m iv 16) (blocks_at m input n) /\
    (forall a, outside iv a -> a < output \/ output + 16 * Z.of_nat n <= a -> mget m1 a = mget m a) /\
    pdcmode_aes_cbc_decrypt rk iv n output back (mstore m1 iv (mbytes m iv 16)) = (0, m2) /\
    mbytes m2 back (16 * n) = mbytes m input (16 * n) /\
    (forall a, outside iv a -> a < back \/ back + 16 * Z.of_nat n <= a -> mget m2 a = mget m1 a).
Proof.
  intros Hi Hr Hl Hb Hw Hf1 Hf2 Ai Ao Ab. eapply init_key in Hi; [|by right].
  destruct (expanded_key rk0 key rk Hr Hl Hb Hi) as [Hk Hc]. clear Hi.
  destruct (run_spec _ _ _ _ _ (cbc_encrypt_step rk Hk iv) n input output m Hw Hf1 Ao Ai) as (W1 & E1 & K1).
  set (m1 := each_block _ n input output m) in *.
  pose proof (block_mbytes m iv Hw) as Hv. destruct (store_spec iv (mbytes m iv 16) m1 W1 Hv) as (W1' & E1' & K1').
  destruct (run_spec _ _ _ _ _ (cbc_decrypt_step rk Hk iv) n output back _ W1' Hf2 Ab Ao) as (W2 & E2 & K2).
  eexists m1, _. split; [reflexivity|]. split; [|split; [|split; [reflexivity|split]]].
  - etransitivity; [exact E1|]. by apply cbc_fips, blocks_at_blocks.
  - intros a Ha Ho. by apply K1.
  - rewrite <- !concat_blocks_at. f_equal. apply (f_equal fst) in E2. cbn [fst] in E2.
    etransitivity; [exact E2|]. rewrite E1', (blocks_at_ext m1).
    + apply (f_equal fst) in E1. cbn [fst] in E1. rewrite E1. apply stream_cbc; [|done|by apply blocks_at_blocks].
      intros b Hbl. split; [by apply block_Cipher|by apply InvCipher_Cipher].
    + intros x Hx. apply K1'. unfold apart in Ao. lia.
  - intros a Ha Ho. etransitivity; [apply K2; [exact Ho|exact Ha]|]. apply K1'. exact Ha.
Qed.

(** The vectors of NIST SP 800-38A that the source cites. *)
Definition nist_key : list Z :=
  [0x2b; 0x7e; 0x15; 0x16; 0x28; 0xae; 0xd2; 0xa6;
   0xab; 0xf7; 0x15; 0x88; 0x09; 0xcf; 0x4f; 0x3c].
Definition nist_plain1 : list Z :=
  [0x6b; 0xc1; 0xbe; 0xe2; 0x2e; 0x40; 0x9f; 0x96;
   0xe9; 0x3d; 0x7e; 0x11; 0x73; 0x93; 0x17; 0x2a].
Definition nist_plain2 : list Z :=
  [0xae; 0x2d; 0x8a; 0x57; 0x1e; 0x03; 0xac; 0x9c;
   0x9e; 0xb7; 0x6f; 0xac; 0x45; 0xaf; 0x8e; 0x51].
Definition nist_iv : list Z :=
  [0x00; 0x01; 0x02; 0x03; 0x04; 0x05; 0x06; 0x07;
   0x08; 0x09; 0x0a; 0x0b; 0x0c; 0x0d; 0x0e; 0x0f].
Definition nist_memory : mem := mstore (mstore ∅ 0x1000 (nist_plain1 ++ nist_plain2)) 0x2000 nist_iv.

Lemma nist_key_bytes : Forall byte nist_key.
Proof. repeat constructor; vm_compute; discriminate. Qed.
Lemma nist_memory_wf : mem_wf nist_memory.
Proof. unfold nist_memory. auto with panthera. Qed.

(** Two blocks encrypted and decrypted in place. *)
Lemma aes_ecb_witness :
  exists rk m1 m2, pdcmode_aes_ecb_encrypt rk 2 0x1000 0x1000 nist_memory = (0, m1) /\
    blocks_at m1 0x1000 2 =
      [[0x3a; 0xd7; 0x7b; 0xb4; 0x0d; 0x7a; 0x36; 0x60; 0xa8; 0x9e; 0xca; 0xf3; 0x24; 0x66; 0xef; 0x97];
       [0xf5; 0xd3; 0xd5; 0x85; 0x03; 0xb9; 0x69; 0x9d; 0xe7; 0x85; 0x89; 0x5a; 0x96; 0xfd; 0xba; 0xaf]] /\
    pdcmode_aes_ecb_decrypt rk 2 0x1000 0x1000 m1 = (0, m2) /\
    mbytes m2 0x1000 32 = nist_plain1 ++ nist_plain2.
Proof.
  assert (Hf : forward 0x1000 0x1000 (16 * Z.of_nat 2)) by (left; lia).
  destruct (aes_ecb true (repeat 0 176) nist_key _ 128 0 2 0x1000 0x1000 0x1000 nist_memory eq_refl
    eq_refl eq_refl nist_key_bytes nist_memory_wf Hf Hf) as (m1 & m2 & E1 & B1 & _ & E2 & B2 & _).
  eexists _, m1, m2. split; [exact E1|]. split; [rewrite B1; vm_compute; reflexivity|].
  split; [exact E2|]. etransitivity; [exact B2|]. vm_compute. reflexivity.
Defined.

Lemma aes_cbc_witness :
  exists rk m1 m2, pdcmode_aes_cbc_encrypt rk 0x2000 2 0x1000 0x1000 nist_memory = (0, m1) /\
    blocks_at m1 0x1000 2 =
      [[0x76; 0x49; 0xab; 0xac; 0x81; 0x19; 0xb2; 0x46; 0xce; 0xe9; 0x8e; 0x9b; 0x12; 0xe9; 0x19; 0x7d];
       [0x50; 0x86; 0xcb; 0x9b; 0x50; 0x72; 0x19; 0xee; 0x95; 0xdb; 0x11; 0x3a; 0x91; 0x76; 0x78; 0xb2]] /\
    pdcmode_aes_cbc_decrypt rk 0x2000 2 0x1000 0x1000 (mstore m1 0x2000 nist_iv) = (0, m2) /\
    mbytes m2 0x1000 32 = nist_plain1 ++ nist_plain2.
Proof.
  assert (Hf : forward 0x1000 0x1000 (16 * Z.of_nat 2)) by (left; lia).
  assert (Ha : apart 0x2000 16 0x1000 (16 * Z.of_nat 2)) by (right; lia).
  destruct (aes_cbc true (repeat 0 176) nist_key _ 16 0 0x2000 2 0x1000 0x1000 0x1000 nist_memory eq_refl
    eq_refl eq_refl nist_key_bytes nist_memory_wf Hf Hf Ha Ha Ha) as (m1 & m2 & E1 & B1 & _ & E2 & B2 & _).
  eexists _, m1, m2. split; [exact E1|]. split; [|split].
  - apply (f_equal fst) in B1. cbn [fst] in B1. rewrite B1. vm_compute. reflexivity.
  - replace nist_iv with (mbytes nist_memory 0x2000 16) by (vm_compute; reflexivity). exact E2.
  - etransitivity; [exact B2|]. vm_compute. reflexivity.
Defined.
