(* ===== verification/Sha2.v ===== *)
(** * SHA-256, SHA-384 and SHA-512: kexts/corecrypto/src/algorithms/sha256.cc, sha512.cc

    The unrolled compression functions, with their register renaming and the
    message schedule computed in place in sixteen words, and the compression
    functions of FIPS 180-4 they are proved equal to. The constants of the
    reference are computed from square and cube roots of prime numbers. *)

From Stdlib Require Import ZArith Lia Btauto.
From stdpp Require Import base list.
From S2P Require Import Prelude Words.

Open Scope Z_scope.

(** ** The round macros

    A call names the registers for [A] to [H], the message words for [M1] to [M4]
    and the constant. *)
Record call_args := call { cregs : list nat; cmsgs : list nat; magic : Z }.
Definition R (c : call_args) (k : nat) : nat := nth k (cregs c) 0%nat.
Definition M (c : call_args) (k : nat) : nat := nth k (cmsgs c) 0%nat.

(** The common text of the macros; they differ in width and rotations. *)
Definition sha2_f (w : Z) (rho_A rho_E sigma_M2 sigma_M4 : Z -> Z) (c : call_args)
    (s : list Z * list Z) : list Z * list Z :=
  let '(r, W) := s in
  let A_rho := rho_A (elt r (R c 0)) in
  let E_rho := rho_E (elt r (R c 4)) in
  let M2_sigma := sigma_M2 (elt W (M c 1)) in
  let M4_sigma := sigma_M4 (elt W (M c 3)) in
  let A := elt r (R c 0) in let B := elt r (R c 1) in let C := elt r (R c 2) in let D := elt r (R c 3) in
  let E := elt r (R c 4) in let F := elt r (R c 5) in let G := elt r (R c 6) in let H := elt r (R c 7) in
  let H := wrap w (H + (magic c + E_rho + (Z.land E F ⊕ Z.land (lnot w E) G) + elt W (M c 0))) in
  let D := wrap w (D + H) in
  let H := wrap w (H + (A_rho + Z.lor (Z.land A B) (Z.land (Z.lor A B) C))) in
  let M1 := wrap w (elt W (M c 0) + (M2_sigma + elt W (M c 2) + M4_sigma)) in
  (<[R c 7 := H]> (<[R c 3 := D]> r), <[M c 0 := M1]> W).

Definition SHA2_32_F : call_args -> list Z * list Z -> list Z * list Z :=
  sha2_f 32
    (fun A => rotr 32 2 A ⊕ rotr 32 13 A ⊕ rotr 32 22 A)
    (fun E => rotr 32 6 E ⊕ rotr 32 11 E ⊕ rotr 32 25 E)
    (fun M2 => rotr 32 17 M2 ⊕ rotr 32 19 M2 ⊕ Z.shiftr M2 10)
    (fun M4 => rotr 32 7 M4 ⊕ rotr 32 18 M4 ⊕ Z.shiftr M4 3).

Definition SHA2_64_F : call_args -> list Z * list Z -> list Z * list Z :=
  sha2_f 64
    (fun A => rotr 64 28 A ⊕ rotr 64 34 A ⊕ rotr 64 39 A)
    (fun E => rotr 64 14 E ⊕ rotr 64 18 E ⊕ rotr 64 41 E)
    (fun M2 => rotr 64 19 M2 ⊕ rotr 64 61 M2 ⊕ Z.shiftr M2 6)
    (fun M4 => rotr 64 1 M4 ⊕ rotr 64 8 M4 ⊕ Z.shiftr M4 7).

(** [load_be(in, off)] for words of [size] bytes. *)
Definition load_be (size : nat) (input : list Z) (off : nat) : Z :=
  for_range 0 size (fun i out =>
    wrap (8 * Z.of_nat size) (Z.lor (Z.shiftl out 8) (elt input (off * size + i)))) 0.

(** ** The calls of pdcsha256_compress *)
#[local] Open Scope nat_scope.
Definition sha256_rows : list call_args :=
  [call [0; 1; 2; 3; 4; 5; 6; 7] [0; 14; 9; 1] 0x428A2F98;
   call [7; 0; 1; 2; 3; 4; 5; 6] [1; 15; 10; 2] 0x71374491;
   call [6; 7; 0; 1; 2; 3; 4; 5] [2; 0; 11; 3] 0xB5C0FBCF;
   call [5; 6; 7; 0; 1; 2; 3; 4] [3; 1; 12; 4] 0xE9B5DBA5;
   call [4; 5; 6; 7; 0; 1; 2; 3] [4; 2; 13; 5] 0x3956C25B;
   call [3; 4; 5; 6; 7; 0; 1; 2] [5; 3; 14; 6] 0x59F111F1;
   call [2; 3; 4; 5; 6; 7; 0; 1] [6; 4; 15; 7] 0x923F82A4;
   call [1; 2; 3; 4; 5; 6; 7; 0] [7; 5; 0; 8] 0xAB1C5ED5;
   call [0; 1; 2; 3; 4; 5; 6; 7] [8; 6; 1; 9] 0xD807AA98;
   call [7; 0; 1; 2; 3; 4; 5; 6] [9; 7; 2; 10] 0x12835B01;
   call [6; 7; 0; 1; 2; 3; 4; 5] [10; 8; 3; 11] 0x243185BE;
   call [5; 6; 7; 0; 1; 2; 3; 4] [11; 9; 4; 12] 0x550C7DC3;
   call [4; 5; 6; 7; 0; 1; 2; 3] [12; 10; 5; 13] 0x72BE5D74;
   call [3; 4; 5; 6; 7; 0; 1; 2] [13; 11; 6; 14] 0x80DEB1FE;
   call [2; 3; 4; 5; 6; 7; 0; 1] [14; 12; 7; 15] 0x9BDC06A7;
   call [1; 2; 3; 4; 5; 6; 7; 0] [15; 13; 8; 0] 0xC19BF174;
   call [0; 1; 2; 3; 4; 5; 6; 7] [0; 14; 9; 1] 0xE49B69C1;
   call [7; 0; 1; 2; 3; 4; 5; 6] [1; 15; 10; 2] 0xEFBE4786;
   call [6; 7; 0; 1; 2; 3; 4; 5] [2; 0; 11; 3] 0x0FC19DC6;
   call [5; 6; 7; 0; 1; 2; 3; 4] [3; 1; 12; 4] 0x240CA1CC;
   call [4; 5; 6; 7; 0; 1; 2; 3] [4; 2; 13; 5] 0x2DE92C6F;
   call [3; 4; 5; 6; 7; 0; 1; 2] [5; 3; 14; 6] 0x4A7484AA;
   call [2; 3; 4; 5; 6; 7; 0; 1] [6; 4; 15; 7] 0x5CB0A9DC;
   call [1; 2; 3; 4; 5; 6; 7; 0] [7; 5; 0; 8] 0x76F988DA;
   call [0; 1; 2; 3; 4; 5; 6; 7] [8; 6; 1; 9] 0x983E5152;
   call [7; 0; 1; 2; 3; 4; 5; 6] [9; 7; 2; 10] 0xA831C66D;
   call [6; 7; 0; 1; 2; 3; 4; 5] [10; 8; 3; 11] 0xB00327C8;
   call [5; 6; 7; 0; 1; 2; 3; 4] [11; 9; 4; 12] 0xBF597FC7;
   call [4; 5; 6; 7; 0; 1; 2; 3] [12; 10; 5; 13] 0xC6E00BF3;
   call [3; 4; 5; 6; 7; 0; 1; 2] [13; 11; 6; 14] 0xD5A79147;
   call [2; 3; 4; 5; 6; 7; 0; 1] [14; 12; 7; 15] 0x06CA6351;
   call [1; 2; 3; 4; 5; 6; 7; 0] [15; 13; 8; 0] 0x14292967;
   call [0; 1; 2; 3; 4; 5; 6; 7] [0; 14; 9; 1] 0x27B70A85;
   call [7; 0; 1; 2; 3; 4; 5; 6] [1; 15; 10; 2] 0x2E1B2138;
   call [6; 7; 0; 1; 2; 3; 4; 5] [2; 0; 11; 3] 0x4D2C6DFC;
   call [5; 6; 7; 0; 1; 2; 3; 4] [3; 1; 12; 4] 0x53380D13;
   call [4; 5; 6; 7; 0; 1; 2; 3] [4; 2; 13; 5] 0x650A7354;
   call [3; 4; 5; 6; 7; 0; 1; 2] [5; 3; 14; 6] 0x766A0ABB;
   call [2; 3; 4; 5; 6; 7; 0; 1] [6; 4; 15; 7] 0x81C2C92E;
   call [1; 2; 3; 4; 5; 6; 7; 0] [7; 5; 0; 8] 0x92722C85;
   call [0; 1; 2; 3; 4; 5; 6; 7] [8; 6; 1; 9] 0xA2BFE8A1;
   call [7; 0; 1; 2; 3; 4; 5; 6] [9; 7; 2; 10] 0xA81A664B;
   call [6; 7; 0; 1; 2; 3; 4; 5] [10; 8; 3; 11] 0xC24B8B70;
   call [5; 6; 7; 0; 1; 2; 3; 4] [11; 9; 4; 12] 0xC76C51A3;
   call [4; 5; 6; 7; 0; 1; 2; 3] [12; 10; 5; 13] 0xD192E819;
   call [3; 4; 5; 6; 7; 0; 1; 2] [13; 11; 6; 14] 0xD6990624;
   call [2; 3; 4; 5; 6; 7; 0; 1] [14; 12; 7; 15] 0xF40E3585;
   call [1; 2; 3; 4; 5; 6; 7; 0] [15; 13; 8; 0] 0x106AA070;
   call [0; 1; 2; 3; 4; 5; 6; 7] [0; 14; 9; 1] 0x19A4C116;
   call [7; 0; 1; 2; 3; 4; 5; 6] [1; 15; 10; 2] 0x1E376C08;
   call [6; 7; 0; 1; 2; 3; 4; 5] [2; 0; 11; 3] 0x2748774C;
   call [5; 6; 7; 0; 1; 2; 3; 4] [3; 1; 12; 4] 0x34B0BCB5;
   call [4; 5; 6; 7; 0; 1; 2; 3] [4; 2; 13; 5] 0x391C0CB3;
   call [3; 4; 5; 6; 7; 0; 1; 2] [5; 3; 14; 6] 0x4ED8AA4A;
   call [2; 3; 4; 5; 6; 7; 0; 1] [6; 4; 15; 7] 0x5B9CCA4F;
   call [1; 2; 3; 4; 5; 6; 7; 0] [7; 5; 0; 8] 0x682E6FF3;
   call [0; 1; 2; 3; 4; 5; 6; 7] [8; 6; 1; 9] 0x748F82EE;
   call [7; 0; 1; 2; 3; 4; 5; 6] [9; 7; 2; 10] 0x78A5636F;
   call [6; 7; 0; 1; 2; 3; 4; 5] [10; 8; 3; 11] 0x84C87814;
   call [5; 6; 7; 0; 1; 2; 3; 4] [11; 9; 4; 12] 0x8CC70208;
   call [4; 5; 6; 7; 0; 1; 2; 3] [12; 10; 5; 13] 0x90BEFFFA;
   call [3; 4; 5; 6; 7; 0; 1; 2] [13; 11; 6; 14] 0xA4506CEB;
   call [2; 3; 4; 5; 6; 7; 0; 1] [14; 12; 7; 15] 0xBEF9A3F7;
   call [1; 2; 3; 4; 5; 6; 7; 0] [15; 13; 8; 0] 0xC67178F2].

(** ** The calls of pdcsha512_compress *)
Definition sha512_rows : list call_args :=
  [call [0; 1; 2; 3; 4; 5; 6; 7] [0; 14; 9; 1] 0x428A2F98D728AE22;
   call [7; 0; 1; 2; 3; 4; 5; 6] [1; 15; 10; 2] 0x7137449123EF65CD;
   call [6; 7; 0; 1; 2; 3; 4; 5] [2; 0; 11; 3] 0xB5C0FBCFEC4D3B2F;
   call [5; 6; 7; 0; 1; 2; 3; 4] [3; 1; 12; 4] 0xE9B5DBA58189DBBC;
   call [4; 5; 6; 7; 0; 1; 2; 3] [4; 2; 13; 5] 0x3956C25BF348B538;
   call [3; 4; 5; 6; 7; 0; 1; 2] [5; 3; 14; 6] 0x59F111F1B605D019;
   call [2; 3; 4; 5; 6; 7; 0; 1] [6; 4; 15; 7] 0x923F82A4AF194F9B;
   call [1; 2; 3; 4; 5; 6; 7; 0] [7; 5; 0; 8] 0xAB1C5ED5DA6D8118;
   call [0; 1; 2; 3; 4; 5; 6; 7] [8; 6; 1; 9] 0xD807AA98A3030242;
   call [7; 0; 1; 2; 3; 4; 5; 6] [9; 7; 2; 10] 0x12835B0145706FBE;
   call [6; 7; 0; 1; 2; 3; 4; 5] [10; 8; 3; 11] 0x243185BE4EE4B28C;
   call [5; 6; 7; 0; 1; 2; 3; 4] [11; 9; 4; 12] 0x550C7DC3D5FFB4E2;
   call [4; 5; 6; 7; 0; 1; 2; 3] [12; 10; 5; 13] 0x72BE5D74F27B896F;
   call [3; 4; 5; 6; 7; 0; 1; 2] [13; 11; 6; 14] 0x80DEB1FE3B1696B1;
   call [2; 3; 4; 5; 6; 7; 0; 1] [14; 12; 7; 15] 0x9BDC06A725C71235;
   call [1; 2; 3; 4; 5; 6; 7; 0] [15; 13; 8; 0] 0xC19BF174CF692694;
   call [0; 1; 2; 3; 4; 5; 6; 7] [0; 14; 9; 1] 0xE49B69C19EF14AD2;
   call [7; 0; 1; 2; 3; 4; 5; 6] [1; 15; 10; 2] 0xEFBE4786384F25E3;
   call [6; 7; 0; 1; 2; 3; 4; 5] [2; 0; 11; 3] 0x0FC19DC68B8CD5B5;
   call [5; 6; 7; 0; 1; 2; 3; 4] [3; 1; 12; 4] 0x240CA1CC77AC9C65;
   call [4; 5; 6; 7; 0; 1; 2; 3] [4; 2; 13; 5] 0x2DE92C6F592B0275;
   call [3; 4; 5; 6; 7; 0; 1; 2] [5; 3; 14; 6] 0x4A7484AA6EA6E483;
   call [2; 3; 4; 5; 6; 7; 0; 1] [6; 4; 15; 7] 0x5CB0A9DCBD41FBD4;
   call [1; 2; 3; 4; 5; 6; 7; 0] [7; 5; 0; 8] 0x76F988DA831153B5;
   call [0; 1; 2; 3; 4; 5; 6; 7] [8; 6; 1; 9] 0x983E5152EE66DFAB;
   call [7; 0; 1; 2; 3; 4; 5; 6] [9; 7; 2; 10] 0xA831C66D2DB43210;
   call [6; 7; 0; 1; 2; 3; 4; 5] [10; 8; 3; 11] 0xB00327C898FB213F;
   call [5; 6; 7; 0; 1; 2; 3; 4] [11; 9; 4; 12] 0xBF597FC7BEEF0EE4;
   call [4; 5; 6; 7; 0; 1; 2; 3] [12; 10; 5; 13] 0xC6E00BF33DA88FC2;
   call [3; 4; 5; 6; 7; 0; 1; 2] [13; 11; 6; 14] 0xD5A79147930AA725;
   call [2; 3; 4; 5; 6; 7; 0; 1] [14; 12; 7; 15] 0x06CA6351E003826F;
   call [1; 2; 3; 4; 5; 6; 7; 0] [15; 13; 8; 0] 0x142929670A0E6E70;
   call [0; 1; 2; 3; 4; 5; 6; 7] [0; 14; 9; 1] 0x27B70A8546D22FFC;
   call [7; 0; 1; 2; 3; 4; 5; 6] [1; 15; 10; 2] 0x2E1B21385C26C926;
   call [6; 7; 0; 1; 2; 3; 4; 5] [2; 0; 11; 3] 0x4D2C6DFC5AC42AED;
   call [5; 6; 7; 0; 1; 2; 3; 4] [3; 1; 12; 4] 0x53380D139D95B3DF;
   call [4; 5; 6; 7; 0; 1; 2; 3] [4; 2; 13; 5] 0x650A73548BAF63DE;
   call [3; 4; 5; 6; 7; 0; 1; 2] [5; 3; 14; 6] 0x766A0ABB3C77B2A8;
   call [2; 3; 4; 5; 6; 7; 0; 1] [6; 4; 15; 7] 0x81C2C92E47EDAEE6;
   call [1; 2; 3; 4; 5; 6; 7; 0] [7; 5; 0; 8] 0x92722C851482353B;
   call [0; 1; 2; 3; 4; 5; 6; 7] [8; 6; 1; 9] 0xA2BFE8A14CF10364;
   call [7; 0; 1; 2; 3; 4; 5; 6] [9; 7; 2; 10] 0xA81A664BBC423001;
   call [6; 7; 0; 1; 2; 3; 4; 5] [10; 8; 3; 11] 0xC24B8B70D0F89791;
   call [5; 6; 7; 0; 1; 2; 3; 4] [11; 9; 4; 12] 0xC76C51A30654BE30;
   call [4; 5; 6; 7; 0; 1; 2; 3] [12; 10; 5; 13] 0xD192E819D6EF5218;
   call [3; 4; 5; 6; 7; 0; 1; 2] [13; 11; 6; 14] 0xD69906245565A910;
   call [2; 3; 4; 5; 6; 7; 0; 1] [14; 12; 7; 15] 0xF40E35855771202A;
   call [1; 2; 3; 4; 5; 6; 7; 0] [15; 13; 8; 0] 0x106AA07032BBD1B8;
   call [0; 1; 2; 3; 4; 5; 6; 7] [0; 14; 9; 1] 0x19A4C116B8D2D0C8;
   call [7; 0; 1; 2; 3; 4; 5; 6] [1; 15; 10; 2] 0x1E376C085141AB53;
   call [6; 7; 0; 1; 2; 3; 4; 5] [2; 0; 11; 3] 0x2748774CDF8EEB99;
   call [5; 6; 7; 0; 1; 2; 3; 4] [3; 1; 12; 4] 0x34B0BCB5E19B48A8;
   call [4; 5; 6; 7; 0; 1; 2; 3] [4; 2; 13; 5] 0x391C0CB3C5C95A63;
   call [3; 4; 5; 6; 7; 0; 1; 2] [5; 3; 14; 6] 0x4ED8AA4AE3418ACB;
   call [2; 3; 4; 5; 6; 7; 0; 1] [6; 4; 15; 7] 0x5B9CCA4F7763E373;
   call [1; 2; 3; 4; 5; 6; 7; 0] [7; 5; 0; 8] 0x682E6FF3D6B2B8A3;
   call [0; 1; 2; 3; 4; 5; 6; 7] [8; 6; 1; 9] 0x748F82EE5DEFB2FC;
   call [7; 0; 1; 2; 3; 4; 5; 6] [9; 7; 2; 10] 0x78A5636F43172F60;
   call [6; 7; 0; 1; 2; 3; 4; 5] [10; 8; 3; 11] 0x84C87814A1F0AB72;
   call [5; 6; 7; 0; 1; 2; 3; 4] [11; 9; 4; 12] 0x8CC702081A6439EC;
   call [4; 5; 6; 7; 0; 1; 2; 3] [12; 10; 5; 13] 0x90BEFFFA23631E28;
   call [3; 4; 5; 6; 7; 0; 1; 2] [13; 11; 6; 14] 0xA4506CEBDE82BDE9;
   call [2; 3; 4; 5; 6; 7; 0; 1] [14; 12; 7; 15] 0xBEF9A3F7B2C67915;
   call [1; 2; 3; 4; 5; 6; 7; 0] [15; 13; 8; 0] 0xC67178F2E372532B;
   call [0; 1; 2; 3; 4; 5; 6; 7] [0; 14; 9; 1] 0xCA273ECEEA26619C;
   call [7; 0; 1; 2; 3; 4; 5; 6] [1; 15; 10; 2] 0xD186B8C721C0C207;
   call [6; 7; 0; 1; 2; 3; 4; 5] [2; 0; 11; 3] 0xEADA7DD6CDE0EB1E;
   call [5; 6; 7; 0; 1; 2; 3; 4] [3; 1; 12; 4] 0xF57D4F7FEE6ED178;
   call [4; 5; 6; 7; 0; 1; 2; 3] [4; 2; 13; 5] 0x06F067AA72176FBA;
   call [3; 4; 5; 6; 7; 0; 1; 2] [5; 3; 14; 6] 0x0A637DC5A2C898A6;
   call [2; 3; 4; 5; 6; 7; 0; 1] [6; 4; 15; 7] 0x113F9804BEF90DAE;
   call [1; 2; 3; 4; 5; 6; 7; 0] [7; 5; 0; 8] 0x1B710B35131C471B;
   call [0; 1; 2; 3; 4; 5; 6; 7] [8; 6; 1; 9] 0x28DB77F523047D84;
   call [7; 0; 1; 2; 3; 4; 5; 6] [9; 7; 2; 10] 0x32CAAB7B40C72493;
   call [6; 7; 0; 1; 2; 3; 4; 5] [10; 8; 3; 11] 0x3C9EBE0A15C9BEBC;
   call [5; 6; 7; 0; 1; 2; 3; 4] [11; 9; 4; 12] 0x431D67C49C100D4C;
   call [4; 5; 6; 7; 0; 1; 2; 3] [12; 10; 5; 13] 0x4CC5D4BECB3E42B6;
   call [3; 4; 5; 6; 7; 0; 1; 2] [13; 11; 6; 14] 0x597F299CFC657E2A;
   call [2; 3; 4; 5; 6; 7; 0; 1] [14; 12; 7; 15] 0x5FCB6FAB3AD6FAEC;
   call [1; 2; 3; 4; 5; 6; 7; 0] [15; 13; 8; 0] 0x6C44198C4A475817].

#[local] Close Scope nat_scope.

(** The sixteen message words are loaded, the calls made in order, and the
    registers added to the state, from which the next block starts. *)
Definition sha2_block (w : Z) (size : nat) (f : call_args -> list Z * list Z -> list Z * list Z)
    (rows : list call_args) (state input : list Z) : list Z :=
  let W := map (load_be size input) (seq 0 16) in
  let '(r, _) := fold_left (fun s c => f c s) rows (state, W) in
  map (fun k => wrap w (elt state k + elt r k)) (seq 0 8).

(** [for (i = 0; i != nblocks; ++i) { ...; input += stride; }]. *)
Fixpoint blocks_loop (body : list Z -> list Z -> list Z) (stride nblocks : nat) (state input : list Z)
  : list Z :=
  match nblocks with
  | O => state
  | S n => blocks_loop body stride n (body state input) (drop stride input)
  end.

Definition pdcsha256_compress (state : list Z) (nblocks : nat) (data : list Z) : list Z :=
  blocks_loop (sha2_block 32 4 SHA2_32_F sha256_rows) 64 nblocks state data.

Definition pdcsha512_compress (state : list Z) (nblocks : nat) (data : list Z) : list Z :=
  blocks_loop (sha2_block 64 8 SHA2_64_F sha512_rows) 128 nblocks state data.

Definition pdcsha256_initial_state : list Z :=
  [0x6A09E667; 0xBB67AE85; 0x3C6EF372; 0xA54FF53A; 0x510E527F; 0x9B05688C; 0x1F83D9AB; 0x5BE0CD19].

Definition pdcsha384_initial_state : list Z :=
  [0xCBBB9D5DC1059ED8; 0x629A292A367CD507; 0x9159015A3070DD17; 0x152FECD8F70E5939;
   0x67332667FFC00B31; 0x8EB44A8768581511; 0xDB0C2E0D64F98FA7; 0x47B5481DBEFA4FA4].

Definition pdcsha512_initial_state : list Z :=
  [0x6A09E667F3BCC908; 0xBB67AE8584CAA73B; 0x3C6EF372FE94F82B; 0xA54FF53A5F1D36F1;
   0x510E527FADE682D1; 0x9B05688C2B3E6C1F; 0x1F83D9ABFB41BD6B; 0x5BE0CD19137E2179].

(** ** FIPS 180-4 *)

(** The integer cube root, bit by bit. *)
Fixpoint cbrt_bits (k : nat) (n r : Z) : Z :=
  match k with
  | O => r
  | S k' =>
      let r' := r + 2 ^ Z.of_nat k' in
      cbrt_bits k' n (if r' * r' * r' <=? n then r' else r)
  end.

(** The prime numbers below 410: a composite number below 441 has a divisor up
    to 20. There are eighty of them. *)
Definition is_prime (p : Z) : bool :=
  forallb (fun d => (d =? p) || negb (p mod d =? 0)) (map Z.of_nat (seq 2 19)).
Definition primes : list Z := List.filter is_prime (map Z.of_nat (seq 2 408)).

(** The first [w] bits of the fractional parts of the roots of the primes; the
    cube roots are below [2 ^ 3]. *)
Definition root3_bits (w : Z) : list Z := map (fun p => wrap w (cbrt_bits (Z.to_nat w + 3) (p * 2 ^ (3 * w)) 0)) primes.
Definition root2_bits (w : Z) : list Z := map (fun p => wrap w (Z.sqrt (p * 2 ^ (2 * w)))) primes.

Section Fips180.
Variables (w : Z) (Sigma0 Sigma1 sigma0 sigma1 : Z -> Z) (K : nat -> Z).

Definition Ch (x y z : Z) : Z := Z.land x y ⊕ Z.land (lnot w x) z.
Definition Maj (x y z : Z) : Z := Z.land x y ⊕ Z.land x z ⊕ Z.land y z.

(** The message schedule. *)
Definition next_word (msg ws : list Z) : Z :=
  let t := length ws in
  if (t <? 16)%nat then elt msg t
  else wrap w (sigma1 (elt ws (t - 2)) + elt ws (t - 7) + sigma0 (elt ws (t - 15)) + elt ws (t - 16)).
Definition schedule (msg : list Z) (n : nat) : list Z := grow (next_word msg) n.

Definition fips_round (Kt Wt : Z) (s : list Z) : list Z :=
  match s with
  | [a; b; c; d; e; f; g; h] =>
      let T1 := wrap w (h + Sigma1 e + Ch e f g + Kt + Wt) in
      let T2 := wrap w (Sigma0 a + Maj a b c) in
      [wrap w (T1 + T2); a; b; c; wrap w (d + T1); e; f; g]
  | _ => s
  end.

Fixpoint fips_rounds (ws s : list Z) (t : nat) : list Z :=
  match t with
  | O => s
  | S k => fips_round (K k) (elt ws k) (fips_rounds ws s k)
  end.

Definition fips_compress (rounds : nat) (s msg : list Z) : list Z :=
  let s' := fips_rounds (schedule msg rounds) s rounds in
  map (fun k => wrap w (elt s k + elt s' k)) (seq 0 8).
End Fips180.

(** Big-endian words of a block. *)
Fixpoint be_decode (bs : list Z) : Z :=
  match bs with
  | [] => 0
  | b :: bs' => b * 256 ^ Z.of_nat (length bs') + be_decode bs'
  end.
Definition be_words (size n : nat) (bs : list Z) : list Z :=
  map (fun k => be_decode (take size (drop (k * size) bs))) (seq 0 n).

Definition Sha256_block : list Z -> list Z -> list Z := fun s bs =>
  fips_compress 32
    (fun x => rotr 32 2 x ⊕ rotr 32 13 x ⊕ rotr 32 22 x)
    (fun x => rotr 32 6 x ⊕ rotr 32 11 x ⊕ rotr 32 25 x)
    (fun x => rotr 32 7 x ⊕ rotr 32 18 x ⊕ Z.shiftr x 3)
    (fun x => rotr 32 17 x ⊕ rotr 32 19 x ⊕ Z.shiftr x 10)
    (elt (root3_bits 32)) 64 s (be_words 4 16 bs).

Definition Sha512_block : list Z -> list Z -> list Z := fun s bs =>
  fips_compress 64
    (fun x => rotr 64 28 x ⊕ rotr 64 34 x ⊕ rotr 64 39 x)
    (fun x => rotr 64 14 x ⊕ rotr 64 18 x ⊕ rotr 64 41 x)
    (fun x => rotr 64 1 x ⊕ rotr 64 8 x ⊕ Z.shiftr x 7)
    (fun x => rotr 64 19 x ⊕ rotr 64 61 x ⊕ Z.shiftr x 6)
    (elt (root3_bits 64)) 80 s (be_words 8 16 bs).

(** The block function over the blocks of [size] bytes of a message. *)
Fixpoint chain (f : list Z -> list Z -> list Z) (size n : nat) (s bs : list Z) : list Z :=
  match n with
  | O => s
  | S k => chain f size k (f s (take size bs)) (drop size bs)
  end.

(** The bits are those of the largest number whose cube is at most [n]. *)
Lemma cbrt_bits_spec k n r : 0 <= r -> r ^ 3 <= n < (r + 2 ^ Z.of_nat k) ^ 3 ->
  let x := cbrt_bits k n r in 0 <= x /\ x ^ 3 <= n < (x + 1) ^ 3.
Proof.
  revert r. induction k as [|k IH]; intros r Hr H; cbn [cbrt_bits]; cbv zeta; [done|].
  rewrite Nat2Z.inj_succ, Z.pow_succ_r in H by lia. pose proof (Z.pow_pos_nonneg 2 (Z.of_nat k) ltac:(lia) ltac:(lia)).
  set (p := 2 ^ Z.of_nat k) in *. destruct (Z.leb_spec ((r + p) * (r + p) * (r + p)) n) as [Hle|Hlt].
  - apply IH; [lia|]. replace (r + 2 * p) with (r + p + p) in H by lia. split; [|lia].
    rewrite (Z.pow_mul_r _ 1 3) by lia. rewrite Z.pow_1_r. lia.
  - apply IH; [done|]. split; [lia|]. replace ((r + p) ^ 3) with ((r + p) * (r + p) * (r + p)) by ring. lia.
Qed.

Lemma sha512_constants : root3_bits 64 = map magic sha512_rows.
Proof. vm_compute. reflexivity. Qed.

Lemma sha256_constants : take 64 (root3_bits 32) = map magic sha256_rows.
Proof. vm_compute. reflexivity. Qed.

Lemma initial_states :
  take 8 (root2_bits 32) = pdcsha256_initial_state /\ take 8 (root2_bits 64) = pdcsha512_initial_state /\
  take 8 (drop 8 (root2_bits 64)) = pdcsha384_initial_state.
Proof. vm_compute. auto. Qed.

(** ** The unrolled rounds are the rounds of the standard *)
Lemma mod_16_eq a b : (a <= b < a + 16)%nat -> (a mod 16 = b mod 16)%nat -> a = b.
Proof. intros H E. pose proof (Nat.div_mod_eq a 16). pose proof (Nat.div_mod_eq b 16). lia. Qed.

Lemma majority a b c : Z.lor (Z.land a b) (Z.land (Z.lor a b) c) = Maj a b c.
Proof.
  unfold Maj. apply Z.bits_inj. intros i. rewrite !Z.lxor_spec, !Z.lor_spec, !Z.land_spec, Z.lor_spec. btauto.
Qed.

Section Unrolled.
Variables (w : Z) (rho_A rho_E sigma_M2 sigma_M4 : Z -> Z) (K : nat -> Z) (msg s0 : list Z).
Hypothesis msg_length : length msg = 16%nat.
Hypothesis s0_length : length s0 = 8%nat.

#[local] Abbreviation schedule' := (schedule w sigma_M4 sigma_M2 msg).
#[local] Abbreviation rounds' ws t := (fips_rounds w rho_A rho_E K ws s0 t).

Definition word_at (t : nat) : Z := next_word w sigma_M4 sigma_M2 msg (schedule' t).

Lemma length_schedule n : length (schedule' n) = n.
Proof. apply length_grow. Qed.

Lemma elt_schedule n t : (t < n)%nat -> elt (schedule' n) t = word_at t.
Proof. apply elt_grow. Qed.

Lemma word_at_eq t : word_at t =
  if (t <? 16)%nat then elt msg t
  else wrap w (sigma_M2 (word_at (t - 2)) + word_at (t - 7) + sigma_M4 (word_at (t - 15)) + word_at (t - 16)).
Proof.
  unfold word_at at 1, next_word. rewrite length_schedule. destruct (Nat.ltb_spec t 16); [done|].
  by rewrite !elt_schedule by lia.
Qed.

(** The call that round [t] should be. *)
Definition expected (t : nat) : call_args :=
  call (map (reg 8 t) (seq 0 8)) [(t mod 16)%nat; ((t + 14) mod 16)%nat; ((t + 9) mod 16)%nat; ((t + 1) mod 16)%nat]
    (K t).

Lemma R_expected t k : (k < 8)%nat -> R (expected t) k = reg 8 t k.
Proof.
  intros H. unfold R, expected, cregs. rewrite nth_indep with (d' := reg 8 t 0) by (by rewrite length_map, length_seq).
  rewrite map_nth, seq_nth by done. done.
Qed.

Lemma length_rounds ws t : length (rounds' ws t) = 8%nat.
Proof.
  induction t as [|t IH]; cbn [fips_rounds]; [done|].
  destruct (rounds' ws t) as [|a [|b [|c [|d [|e [|f [|g [|h [|]]]]]]]]]; try discriminate. done.
Qed.

(** After [t] rounds the registers hold the working variables under their new
    names, and the sixteen words the next part of the schedule. *)
Definition in_round (ws : list Z) (t : nat) (s : list Z * list Z) : Prop :=
  length s.1 = 8%nat /\ length s.2 = 16%nat /\
  (forall k, (k < 8)%nat -> elt s.1 (reg 8 t k) = elt (rounds' ws t) k) /\
  (forall i, (t <= i < t + 16)%nat -> elt s.2 (i mod 16) = word_at i).

Lemma schedule_step t (W : list Z) v : length W = 16%nat ->
  (forall i, (t <= i < t + 16)%nat -> elt W (i mod 16) = word_at i) -> v = word_at (t + 16) ->
  forall i, (S t <= i < S t + 16)%nat -> elt (<[(t mod 16)%nat := v]> W) (i mod 16) = word_at i.
Proof.
  intros Hl H -> i Hi. rewrite elt_insert by (rewrite Hl; apply Nat.mod_upper_bound; lia).
  destruct (decide (i = t + 16)%nat) as [->|Hn].
  - rewrite decide_True; [done|]. rewrite <- (Nat.Div0.mod_add t 1 16). f_equal.
  - rewrite decide_False; [apply H; lia|]. intros E. apply mod_16_eq in E; lia.
Qed.

Lemma round_step ws t s : (t < length ws)%nat -> (forall i, (i < length ws)%nat -> elt ws i = word_at i) ->
  in_round ws t s -> in_round ws (S t) (sha2_f w rho_A rho_E sigma_M2 sigma_M4 (expected t) s).
Proof.
  intros Ht Hws (Hr & HW & Hregs & Hwords). destruct s as [r W]. cbn [fst snd] in *.
  unfold sha2_f. rewrite !R_expected by lia. unfold M, expected. cbn [cmsgs nth magic].
  rewrite !Hregs by lia. rewrite !Hwords by lia.
  unfold in_round. cbn [fst snd]. rewrite !length_insert. split_and!; [done|done| |].
  - cbn [fips_rounds]. pose proof (length_rounds ws t) as Hx. rewrite <- (Hws t Ht).
    destruct (rounds' ws t) as [|a [|b [|c [|d [|e [|f [|g [|h [|]]]]]]]]] eqn:Ex; try discriminate.
    rewrite majority. intros k Hk.
    destruct k as [|k]; [rewrite reg_first by lia|rewrite reg_S by lia];
      rewrite !elt_insert_reg by (rewrite ?length_insert; lia).
    + rewrite decide_True by lia. cbn [elt nth fips_round]. unfold Ch.
      rewrite wrap_add_l, wrap_add_r, wrap_add_l. f_equal. lia.
    + rewrite Hregs by lia.
      do 7 (destruct k as [|k]; [cbn -[wrap Z.add Z.land lnot Maj]; first [reflexivity|unfold Ch; do 3 f_equal; lia]|]).
      lia.
  - apply schedule_step; [done|done|]. rewrite (word_at_eq (t + 16)).
    rewrite (proj2 (Nat.ltb_ge _ _)) by lia.
    replace (t + 16 - 2)%nat with (t + 14)%nat by lia. replace (t + 16 - 7)%nat with (t + 9)%nat by lia.
    replace (t + 16 - 15)%nat with (t + 1)%nat by lia. replace (t + 16 - 16)%nat with t by lia. f_equal. lia.
Qed.

Lemma unrolled n :
  in_round (schedule' n) n
    (fold_left (fun s c => sha2_f w rho_A rho_E sigma_M2 sigma_M4 c s) (map expected (seq 0 n)) (s0, msg)).
Proof.
  assert (H : forall k, (k <= n)%nat -> in_round (schedule' n) k
    (fold_left (fun s c => sha2_f w rho_A rho_E sigma_M2 sigma_M4 c s) (map expected (seq 0 k)) (s0, msg))).
  { induction k as [|k IH]; intros Hk.
    - unfold in_round. cbn [fst snd map seq fold_left fips_rounds]. split_and!; [done|done| |].
      + intros k Hk'. by rewrite reg_0.
      + intros i Hi. rewrite Nat.mod_small by lia. rewrite word_at_eq. by rewrite (proj2 (Nat.ltb_lt _ _)) by lia.
    - rewrite seq_S, map_app, fold_left_app. cbn [map fold_left Nat.add].
      apply round_step; [rewrite length_schedule; lia| |apply IH; lia].
      intros i Hi. rewrite length_schedule in Hi. by apply elt_schedule. }
  by apply H.
Qed.

Lemma unrolled_compress f rows size input n : 
  (forall c s, f c s = sha2_f w rho_A rho_E sigma_M2 sigma_M4 c s) ->
  rows = map expected (seq 0 (8 * n)) -> msg = map (load_be size input) (seq 0 16) ->
  sha2_block w size f rows s0 input = fips_compress w rho_A rho_E sigma_M4 sigma_M2 K (8 * n) s0 msg.
Proof.
  intros Ef -> Em. unfold sha2_block, fips_compress. rewrite <- Em.
  assert (E : forall l s, fold_left (fun s c => f c s) l s =
    fold_left (fun s c => sha2_f w rho_A rho_E sigma_M2 sigma_M4 c s) l s).
  { induction l as [|c l IH]; intros s; cbn [fold_left]; [done|]. by rewrite Ef, IH. }
  rewrite E. destruct (unrolled (8 * n)) as (_ & _ & Hr & _).
  destruct (fold_left _ _ (s0, msg)) as [r W]. cbn [fst] in Hr.
  apply map_ext_in. intros k Hk. apply in_seq in Hk. rewrite <- Hr by lia.
  do 3 f_equal. unfold reg. replace (k + (8 - 1) * (8 * n))%nat with (k + 7 * n * 8)%nat by lia.
  rewrite Nat.Div0.mod_add. symmetry. apply Nat.mod_small. lia.
Qed.
End Unrolled.

(** ** Loading big-endian words *)
Lemma be_decode_app l b : be_decode (l ++ [b]) = be_decode l * 256 + b.
Proof.
  induction l as [|a l IH]; cbn [app be_decode]; [cbn; lia|].
  rewrite IH, length_app, Nat2Z.inj_add. cbn [length]. rewrite Z.pow_add_r by lia. lia.
Qed.

Lemma be_decode_range l : Forall byte l -> 0 <= be_decode l < 256 ^ Z.of_nat (length l).
Proof.
  induction 1 as [|a l Ha _ IH]; cbn [be_decode length]; [cbn; lia|].
  unfold byte in Ha. rewrite Nat2Z.inj_succ, Z.pow_succ_r by lia. nia.
Qed.

Lemma lor_shiftl_8 a b : byte b -> Z.lor (Z.shiftl a 8) b = a * 256 + b.
Proof.
  intros Hb. assert (E : Z.land (Z.shiftl a 8) b = 0).
  { apply Z.bits_inj. intros i. rewrite Z.land_spec, Z.bits_0. destruct (decide (i < 8)) as [Hi|Hi].
    - destruct (decide (0 <= i)); [by rewrite Z.shiftl_spec_low by lia|by rewrite Z.testbit_neg_r by lia].
    - apply byte_bits in Hb as [_ Hb]. rewrite Hb by lia. apply andb_false_r. }
  rewrite <- Z.lxor_lor, <- Z.add_nocarry_lxor by done. rewrite Z.shiftl_mul_pow2 by lia. lia.
Qed.

Lemma load_be_spec size input off : (off * size + size <= length input)%nat -> Forall byte input ->
  load_be size input off = be_decode (take size (drop (off * size) input)).
Proof.
  intros Hl Hb. unfold load_be.
  set (l := drop (off * size) input). assert (Hl' : (size <= length l)%nat) by (unfold l; rewrite length_drop; lia).
  assert (Hb' : Forall byte l) by by apply Forall_drop.
  assert (E : forall i, elt input (off * size + i) = elt l i).
  { intros i. unfold l, elt. rewrite !nth_lookup, lookup_drop. done. }
  apply (for_range_ind (fun k out => (k <= size)%nat -> out = be_decode (take k l)) 0 size); [done| |lia].
  intros k out Hk IH _. rewrite E, (IH ltac:(lia)). cbn [Nat.add].
  destruct (lookup_lt_is_Some_2 l k ltac:(lia)) as [x Hx]. rewrite (take_S_r l k x Hx), be_decode_app.
  assert (Ex : elt l k = x) by (unfold elt; by rewrite nth_lookup, Hx).
  rewrite Ex. assert (Hxb : byte x) by (rewrite <- Ex; unfold elt; rewrite nth_lookup, Hx; by eapply Forall_lookup_1).
  rewrite lor_shiftl_8 by done. apply wrap_small.
  pose proof (be_decode_range (take k l) (Forall_take _ _ _ Hb')) as Hr.
  rewrite length_take_le in Hr by lia. unfold byte in Hxb.
  assert (256 ^ Z.of_nat k * 256 <= 2 ^ (8 * Z.of_nat size)).
  { rewrite (Z.pow_mul_r 2 8) by lia. change (2 ^ 8) with 256. rewrite Z.mul_comm, <- Z.pow_succ_r by lia.
    apply Z.pow_le_mono_r; lia. }
  nia.
Qed.

Lemma load_words size input : (16 * size <= length input)%nat -> Forall byte input ->
  map (load_be size input) (seq 0 16) = be_words size 16 (take (16 * size) input).
Proof.
  intros Hl Hb. unfold be_words. apply map_ext_in. intros k Hk. apply in_seq in Hk.
  rewrite load_be_spec by (done || nia). f_equal.
  rewrite skipn_firstn_comm, take_take. f_equal. nia.
Qed.

(** ** The compression functions *)
Lemma blocks_loop_chain (P : list Z -> Prop) f body size n s data :
  (forall s data, P s -> (size <= length data)%nat -> Forall byte data ->
    body s data = f s (take size data) /\ P (f s (take size data))) ->
  P s -> (size * n <= length data)%nat -> Forall byte data ->
  blocks_loop body size n s data = chain f size n s data.
Proof.
  intros H. revert s data. induction n as [|n IH]; intros s data Hs Hd Hb; cbn [blocks_loop chain]; [done|].
  destruct (H s data Hs ltac:(nia) Hb) as [E El]. rewrite E. apply IH; [done| |by apply Forall_drop].
  rewrite length_drop. nia.
Qed.

Lemma sha256_rows_expected : sha256_rows = map (expected (elt (root3_bits 32))) (seq 0 (8 * 8)).
Proof.
  transitivity (map (expected (elt (take 64 (root3_bits 32)))) (seq 0 64)).
  - rewrite sha256_constants. vm_compute. reflexivity.
  - apply map_ext_in. intros t Ht. apply in_seq in Ht. unfold expected. f_equal. unfold elt. rewrite !nth_lookup.
    by rewrite lookup_take_lt by lia.
Qed.

Lemma sha512_rows_expected : sha512_rows = map (expected (elt (root3_bits 64))) (seq 0 (8 * 10)).
Proof. rewrite sha512_constants. vm_compute. reflexivity. Qed.

Lemma sha256_block s data : length s = 8%nat -> (64 <= length data)%nat -> Forall byte data ->
  sha2_block 32 4 SHA2_32_F sha256_rows s data = Sha256_block s (take 64 data) /\
  length (Sha256_block s (take 64 data)) = 8%nat.
Proof.
  intros Hs Hl Hb. split; [|done]. unfold Sha256_block. rewrite <- (load_words 4) by (done || lia).
  refine (unrolled_compress 32 _ _ _ _ (elt (root3_bits 32)) _ s _ Hs SHA2_32_F sha256_rows 4 data 8 _ _ _);
    [done|done|apply sha256_rows_expected|done].
Qed.

Lemma sha512_block s data : length s = 8%nat -> (128 <= length data)%nat -> Forall byte data ->
  sha2_block 64 8 SHA2_64_F sha512_rows s data = Sha512_block s (take 128 data) /\
  length (Sha512_block s (take 128 data)) = 8%nat.
Proof.
  intros Hs Hl Hb. split; [|done]. unfold Sha512_block. rewrite <- (load_words 8) by (done || lia).
  refine (unrolled_compress 64 _ _ _ _ (elt (root3_bits 64)) _ s _ Hs SHA2_64_F sha512_rows 8 data 10 _ _ _);
    [done|done|apply sha512_rows_expected|done].
Qed.

(** C22. The unrolled SHA-2 compression functions are those of FIPS 180-4, for
    every state and any number of blocks, with round constants and initial values
    that are the leading fraction bits of cube and square roots of the primes. *)
Theorem sha2_compress_fips (s data : list Z) (n : nat) :
  length s = 8%nat -> Forall byte data ->
  ((64 * n <= length data)%nat -> pdcsha256_compress s n data = chain Sha256_block 64 n s data) /\
  ((128 * n <= length data)%nat -> pdcsha512_compress s n data = chain Sha512_block 128 n s data) /\
  pdcsha256_initial_state = take 8 (root2_bits 32) /\
  pdcsha512_initial_state = take 8 (root2_bits 64) /\
  pdcsha384_initial_state = take 8 (drop 8 (root2_bits 64)).
Proof.
  intros Hs Hb. destruct initial_states as (-> & -> & ->). split_and!; try reflexivity; intros Hl.
  - by apply (blocks_loop_chain (fun s => length s = 8%nat)); [apply sha256_block| | |].
  - by apply (blocks_loop_chain (fun s => length s = 8%nat)); [apply sha512_block| | |].
Qed.

(** The padded message of the three bytes 61, 62, 63. *)
Definition abc_block (size : nat) : list Z := [0x61; 0x62; 0x63; 0x80] ++ repeat 0 (size - 5) ++ [24].

Lemma abc_block_bytes size : Forall byte (abc_block size).
Proof.
  unfold abc_block. repeat (apply Forall_cons; split; [unfold byte; lia|]).
  apply Forall_app. split; [|repeat constructor; unfold byte; lia].
  apply zeros_bytes.
Qed.

Lemma sha2_compress_fips_witness :
  chain Sha256_block 64 1 pdcsha256_initial_state (abc_block 64) =
    [0xba7816bf; 0x8f01cfea; 0x414140de; 0x5dae2223; 0xb00361a3; 0x96177a9c; 0xb410ff61; 0xf20015ad] /\
  chain Sha512_block 128 1 pdcsha512_initial_state (abc_block 128) =
    [0xddaf35a193617aba; 0xcc417349ae204131; 0x12e6fa4e89a97ea2; 0x0a9eeee64b55d39a;
     0x2192992a274fc1a8; 0x36ba3c23a3feebbd; 0x454d4423643ce80e; 0x2a9ac94fa54ca49f].
Proof.
  destruct (sha2_compress_fips pdcsha256_initial_state (abc_block 64) 1 eq_refl (abc_block_bytes 64)) as [E1 _].
  destruct (sha2_compress_fips pdcsha512_initial_state (abc_block 128) 1 eq_refl (abc_block_bytes 128)) as (_ & E2 & _).
  rewrite <- E1, <- E2 by (cbn; lia). split; vm_compute; reflexivity.
Defined.
