(* ===== verification/Sha1Md5.v ===== *)
(** * SHA-1 and MD5: kexts/corecrypto/src/algorithms/sha1_impl.cc, md5_impl.cpp

    The unrolled compression functions of both digests, and the functions of FIPS
    180-4 and RFC 1321 they are proved equal to. *)

From Stdlib Require Import ZArith Lia Btauto.
From stdpp Require Import base list.
From S2P Require Import Prelude Words Sha2.

Open Scope Z_scope.

(** ** SHA-1: sha1_impl.cc

    [F1] to [F4] update [B] and [E], which they take by reference. *)
Definition rotate_left (input rot : Z) : Z := if rot =? 0 then input else rotl 32 rot input.

Definition F1 (A B C D E msg : Z) : Z * Z :=
  let E := wrap 32 (E + ((D ⊕ Z.land B (C ⊕ D)) + msg + 0x5A827999 + rotate_left A 5)) in
  (rotate_left B 30, E).
Definition F2 (A B C D E msg : Z) : Z * Z :=
  let E := wrap 32 (E + ((B ⊕ C ⊕ D) + msg + 0x6ED9EBA1 + rotate_left A 5)) in
  (rotate_left B 30, E).
Definition F3 (A B C D E msg : Z) : Z * Z :=
  let E := wrap 32 (E + (Z.lor (Z.land B C) (Z.land (Z.lor B C) D) + msg + 0x8F1BBCDC + rotate_left A 5)) in
  (rotate_left B 30, E).
Definition F4 (A B C D E msg : Z) : Z * Z :=
  let E := wrap 32 (E + ((B ⊕ C ⊕ D) + msg + 0xCA62C1D6 + rotate_left A 5)) in
  (rotate_left B 30, E).

Inductive sha1_fn := SF1 | SF2 | SF3 | SF4.
Definition sha1_f (f : sha1_fn) : Z -> Z -> Z -> Z -> Z -> Z -> Z * Z :=
  match f with SF1 => F1 | SF2 => F2 | SF3 => F3 | SF4 => F4 end.

Definition sha1_call (m_W : list Z) (c : sha1_fn * list nat * nat) (r : list Z) : list Z :=
  let '(f, regs, i) := c in
  let R k := nth k regs 0%nat in
  let '(B, E) := sha1_f f (elt r (R 0%nat)) (elt r (R 1%nat)) (elt r (R 2%nat)) (elt r (R 3%nat))
                   (elt r (R 4%nat)) (elt m_W i) in
  <[R 4%nat := E]> (<[R 1%nat := B]> r).

(** The calls of pdcsha1_compress: function, registers for [A] to [E], word. *)
#[local] Open Scope nat_scope.
Definition sha1_rows : list (sha1_fn * list nat * nat) :=
  [(SF1, [0; 1; 2; 3; 4], 0); (SF1, [4; 0; 1; 2; 3], 1);
   (SF1, [3; 4; 0; 1; 2], 2); (SF1, [2; 3; 4; 0; 1], 3);
   (SF1, [1; 2; 3; 4; 0], 4); (SF1, [0; 1; 2; 3; 4], 5);
   (SF1, [4; 0; 1; 2; 3], 6); (SF1, [3; 4; 0; 1; 2], 7);
   (SF1, [2; 3; 4; 0; 1], 8); (SF1, [1; 2; 3; 4; 0], 9);
   (SF1, [0; 1; 2; 3; 4], 10); (SF1, [4; 0; 1; 2; 3], 11);
   (SF1, [3; 4; 0; 1; 2], 12); (SF1, [2; 3; 4; 0; 1], 13);
   (SF1, [1; 2; 3; 4; 0], 14); (SF1, [0; 1; 2; 3; 4], 15);
   (SF1, [4; 0; 1; 2; 3], 16); (SF1, [3; 4; 0; 1; 2], 17);
   (SF1, [2; 3; 4; 0; 1], 18); (SF1, [1; 2; 3; 4; 0], 19);
   (SF2, [0; 1; 2; 3; 4], 20); (SF2, [4; 0; 1; 2; 3], 21);
   (SF2, [3; 4; 0; 1; 2], 22); (SF2, [2; 3; 4; 0; 1], 23);
   (SF2, [1; 2; 3; 4; 0], 24); (SF2, [0; 1; 2; 3; 4], 25);
   (SF2, [4; 0; 1; 2; 3], 26); (SF2, [3; 4; 0; 1; 2], 27);
   (SF2, [2; 3; 4; 0; 1], 28); (SF2, [1; 2; 3; 4; 0], 29);
   (SF2, [0; 1; 2; 3; 4], 30); (SF2, [4; 0; 1; 2; 3], 31);
   (SF2, [3; 4; 0; 1; 2], 32); (SF2, [2; 3; 4; 0; 1], 33);
   (SF2, [1; 2; 3; 4; 0], 34); (SF2, [0; 1; 2; 3; 4], 35);
   (SF2, [4; 0; 1; 2; 3], 36); (SF2, [3; 4; 0; 1; 2], 37);
   (SF2, [2; 3; 4; 0; 1], 38); (SF2, [1; 2; 3; 4; 0], 39);
   (SF3, [0; 1; 2; 3; 4], 40); (SF3, [4; 0; 1; 2; 3], 41);
   (SF3, [3; 4; 0; 1; 2], 42); (SF3, [2; 3; 4; 0; 1], 43);
   (SF3, [1; 2; 3; 4; 0], 44); (SF3, [0; 1; 2; 3; 4], 45);
   (SF3, [4; 0; 1; 2; 3], 46); (SF3, [3; 4; 0; 1; 2], 47);
   (SF3, [2; 3; 4; 0; 1], 48); (SF3, [1; 2; 3; 4; 0], 49);
   (SF3, [0; 1; 2; 3; 4], 50); (SF3, [4; 0; 1; 2; 3], 51);
   (SF3, [3; 4; 0; 1; 2], 52); (SF3, [2; 3; 4; 0; 1], 53);
   (SF3, [1; 2; 3; 4; 0], 54); (SF3, [0; 1; 2; 3; 4], 55);
   (SF3, [4; 0; 1; 2; 3], 56); (SF3, [3; 4; 0; 1; 2], 57);
   (SF3, [2; 3; 4; 0; 1], 58); (SF3, [1; 2; 3; 4; 0], 59);
   (SF4, [0; 1; 2; 3; 4], 60); (SF4, [4; 0; 1; 2; 3], 61);
   (SF4, [3; 4; 0; 1; 2], 62); (SF4, [2; 3; 4; 0; 1], 63);
   (SF4, [1; 2; 3; 4; 0], 64); (SF4, [0; 1; 2; 3; 4], 65);
   (SF4, [4; 0; 1; 2; 3], 66); (SF4, [3; 4; 0; 1; 2], 67);
   (SF4, [2; 3; 4; 0; 1], 68); (SF4, [1; 2; 3; 4; 0], 69);
   (SF4, [0; 1; 2; 3; 4], 70); (SF4, [4; 0; 1; 2; 3], 71);
   (SF4, [3; 4; 0; 1; 2], 72); (SF4, [2; 3; 4; 0; 1], 73);
   (SF4, [1; 2; 3; 4; 0], 74); (SF4, [0; 1; 2; 3; 4], 75);
   (SF4, [4; 0; 1; 2; 3], 76); (SF4, [3; 4; 0; 1; 2], 77);
   (SF4, [2; 3; 4; 0; 1], 78); (SF4, [1; 2; 3; 4; 0], 79)].
#[local] Close Scope nat_scope.

(** [load_be_n(out, in, count)], for the first elements of [m_W]. *)
Definition load_be_n (m_W input : list Z) (count : nat) : list Z :=
  for_range 0 count (fun i w => <[i := load_be 4 input i]> w) m_W.

(** [m_W[i] = rotate_left((m_W[a] ^ m_W[b] ^ m_W[c] ^ m_W[d]), 1)], and one round of
    the loop that extends the words, [j] to [j + 7]. *)
Definition extend_word (i a b c d : nat) (w : list Z) : list Z :=
  <[i := rotate_left (elt w a ⊕ elt w b ⊕ elt w c ⊕ elt w d) 1]> w.
Definition extend_words (j : nat) (w : list Z) : list Z :=
  let w := extend_word j (j - 3) (j - 8) (j - 14) (j - 16) w in
  let w := extend_word (j + 1) (j - 2) (j - 7) (j - 13) (j - 15) w in
  let w := extend_word (j + 2) (j - 1) (j - 6) (j - 12) (j - 14) w in
  let w := extend_word (j + 3) j (j - 5) (j - 11) (j - 13) w in
  let w := extend_word (j + 4) (j + 1) (j - 4) (j - 10) (j - 12) w in
  let w := extend_word (j + 5) (j + 2) (j - 3) (j - 9) (j - 11) w in
  let w := extend_word (j + 6) (j + 3) (j - 2) (j - 8) (j - 10) w in
  extend_word (j + 7) (j + 4) (j - 1) (j - 7) (j - 9) w.

Definition sha1_words (m_W input : list Z) : list Z :=
  for_range 0 8 (fun k w => extend_words (16 + 8 * k) w) (load_be_n m_W input 16).

(** The words [m_W] are not initialised before the first block. *)
Definition sha1_block (m_W state input : list Z) : list Z :=
  let r := fold_left (fun r c => sha1_call (sha1_words m_W input) c r) sha1_rows state in
  map (fun k => wrap 32 (elt state k + elt r k)) (seq 0 5).

Definition pdcsha1_compress (m_W state : list Z) (nblocks : nat) (data : list Z) : list Z :=
  blocks_loop (sha1_block m_W) 64 nblocks state data.

Definition pdcsha1_initial_state : list Z := [0x67452301; 0xefcdab89; 0x98badcfe; 0x10325476; 0xc3d2e1f0].

(** ** MD5: md5_impl.cpp *)
Definition load_le (input : list Z) (off : nat) : Z :=
  for_range 0 4 (fun i out => wrap 32 (Z.lor (Z.shiftl out 8) (elt input (off * 4 + (4 - 1 - i))))) 0.

Definition FF (A B C D msg S magic : Z) : Z :=
  let A := wrap 32 (A + ((D ⊕ Z.land B (C ⊕ D)) + msg + magic)) in wrap 32 (rotate_left A S + B).
Definition GG (A B C D msg S magic : Z) : Z :=
  let A := wrap 32 (A + ((C ⊕ Z.land D (B ⊕ C)) + msg + magic)) in wrap 32 (rotate_left A S + B).
Definition HH (A B C D msg S magic : Z) : Z :=
  let A := wrap 32 (A + ((B ⊕ C ⊕ D) + msg + magic)) in wrap 32 (rotate_left A S + B).
Definition II (A B C D msg S magic : Z) : Z :=
  let A := wrap 32 (A + ((C ⊕ Z.lor B (lnot 32 D)) + msg + magic)) in wrap 32 (rotate_left A S + B).

Inductive md5_fn := MFF | MGG | MHH | MII.
Definition md5_f (f : md5_fn) : Z -> Z -> Z -> Z -> Z -> Z -> Z -> Z :=
  match f with MFF => FF | MGG => GG | MHH => HH | MII => II end.

Definition md5_call (m_M : list Z) (c : md5_fn * list nat * nat * Z * Z) (r : list Z) : list Z :=
  let '(f, regs, i, rot, magic) := c in
  let R k := nth k regs 0%nat in
  <[R 0%nat := md5_f f (elt r (R 0%nat)) (elt r (R 1%nat)) (elt r (R 2%nat)) (elt r (R 3%nat))
                 (elt m_M i) rot magic]> r.

(** The calls of pdcmd5_compress: function, registers for [A] to [D], word,
    rotation and constant. *)
#[local] Open Scope nat_scope.
Definition md5_rows : list (md5_fn * list nat * nat * Z * Z) :=
  [(MFF, [0; 1; 2; 3], 0, 7%Z, 0xD76AA478%Z); (MFF, [3; 0; 1; 2], 1, 12%Z, 0xE8C7B756%Z);
   (MFF, [2; 3; 0; 1], 2, 17%Z, 0x242070DB%Z); (MFF, [1; 2; 3; 0], 3, 22%Z, 0xC1BDCEEE%Z);
   (MFF, [0; 1; 2; 3], 4, 7%Z, 0xF57C0FAF%Z); (MFF, [3; 0; 1; 2], 5, 12%Z, 0x4787C62A%Z);
   (MFF, [2; 3; 0; 1], 6, 17%Z, 0xA8304613%Z); (MFF, [1; 2; 3; 0], 7, 22%Z, 0xFD469501%Z);
   (MFF, [0; 1; 2; 3], 8, 7%Z, 0x698098D8%Z); (MFF, [3; 0; 1; 2], 9, 12%Z, 0x8B44F7AF%Z);
   (MFF, [2; 3; 0; 1], 10, 17%Z, 0xFFFF5BB1%Z); (MFF, [1; 2; 3; 0], 11, 22%Z, 0x895CD7BE%Z);
   (MFF, [0; 1; 2; 3], 12, 7%Z, 0x6B901122%Z); (MFF, [3; 0; 1; 2], 13, 12%Z, 0xFD987193%Z);
   (MFF, [2; 3; 0; 1], 14, 17%Z, 0xA679438E%Z); (MFF, [1; 2; 3; 0], 15, 22%Z, 0x49B40821%Z);
   (MGG, [0; 1; 2; 3], 1, 5%Z, 0xF61E2562%Z); (MGG, [3; 0; 1; 2], 6, 9%Z, 0xC040B340%Z);
   (MGG, [2; 3; 0; 1], 11, 14%Z, 0x265E5A51%Z); (MGG, [1; 2; 3; 0], 0, 20%Z, 0xE9B6C7AA%Z);
   (MGG, [0; 1; 2; 3], 5, 5%Z, 0xD62F105D%Z); (MGG, [3; 0; 1; 2], 10, 9%Z, 0x02441453%Z);
   (MGG, [2; 3; 0; 1], 15, 14%Z, 0xD8A1E681%Z); (MGG, [1; 2; 3; 0], 4, 20%Z, 0xE7D3FBC8%Z);
   (MGG, [0; 1; 2; 3], 9, 5%Z, 0x21E1CDE6%Z); (MGG, [3; 0; 1; 2], 14, 9%Z, 0xC33707D6%Z);
   (MGG, [2; 3; 0; 1], 3, 14%Z, 0xF4D50D87%Z); (MGG, [1; 2; 3; 0], 8, 20%Z, 0x455A14ED%Z);
   (MGG, [0; 1; 2; 3], 13, 5%Z, 0xA9E3E905%Z); (MGG, [3; 0; 1; 2], 2, 9%Z, 0xFCEFA3F8%Z);
   (MGG, [2; 3; 0; 1], 7, 14%Z, 0x676F02D9%Z); (MGG, [1; 2; 3; 0], 12, 20%Z, 0x8D2A4C8A%Z);
   (MHH, [0; 1; 2; 3], 5, 4%Z, 0xFFFA3942%Z); (MHH, [3; 0; 1; 2], 8, 11%Z, 0x8771F681%Z);
   (MHH, [2; 3; 0; 1], 11, 16%Z, 0x6D9D6122%Z); (MHH, [1; 2; 3; 0], 14, 23%Z, 0xFDE5380C%Z);
   (MHH, [0; 1; 2; 3], 1, 4%Z, 0xA4BEEA44%Z); (MHH, [3; 0; 1; 2], 4, 11%Z, 0x4BDECFA9%Z);
   (MHH, [2; 3; 0; 1], 7, 16%Z, 0xF6BB4B60%Z); (MHH, [1; 2; 3; 0], 10, 23%Z, 0xBEBFBC70%Z);
   (MHH, [0; 1; 2; 3], 13, 4%Z, 0x289B7EC6%Z); (MHH, [3; 0; 1; 2], 0, 11%Z, 0xEAA127FA%Z);
   (MHH, [2; 3; 0; 1], 3, 16%Z, 0xD4EF3085%Z); (MHH, [1; 2; 3; 0], 6, 23%Z, 0x04881D05%Z);
   (MHH, [0; 1; 2; 3], 9, 4%Z, 0xD9D4D039%Z); (MHH, [3; 0; 1; 2], 12, 11%Z, 0xE6DB99E5%Z);
   (MHH, [2; 3; 0; 1], 15, 16%Z, 0x1FA27CF8%Z); (MHH, [1; 2; 3; 0], 2, 23%Z, 0xC4AC5665%Z);
   (MII, [0; 1; 2; 3], 0, 6%Z, 0xF4292244%Z); (MII, [3; 0; 1; 2], 7, 10%Z, 0x432AFF97%Z);
   (MII, [2; 3; 0; 1], 14, 15%Z, 0xAB9423A7%Z); (MII, [1; 2; 3; 0], 5, 21%Z, 0xFC93A039%Z);
   (MII, [0; 1; 2; 3], 12, 6%Z, 0x655B59C3%Z); (MII, [3; 0; 1; 2], 3, 10%Z, 0x8F0CCC92%Z);
   (MII, [2; 3; 0; 1], 10, 15%Z, 0xFFEFF47D%Z); (MII, [1; 2; 3; 0], 1, 21%Z, 0x85845DD1%Z);
   (MII, [0; 1; 2; 3], 8, 6%Z, 0x6FA87E4F%Z); (MII, [3; 0; 1; 2], 15, 10%Z, 0xFE2CE6E0%Z);
   (MII, [2; 3; 0; 1], 6, 15%Z, 0xA3014314%Z); (MII, [1; 2; 3; 0], 13, 21%Z, 0x4E0811A1%Z);
   (MII, [0; 1; 2; 3], 4, 6%Z, 0xF7537E82%Z); (MII, [3; 0; 1; 2], 11, 10%Z, 0xBD3AF235%Z);
   (MII, [2; 3; 0; 1], 2, 15%Z, 0x2AD7D2BB%Z); (MII, [1; 2; 3; 0], 9, 21%Z, 0xEB86D391%Z)].
#[local] Close Scope nat_scope.

Definition md5_block (state input : list Z) : list Z :=
  let m_M := map (load_le input) (seq 0 16) in
  let r := fold_left (fun r c => md5_call m_M c r) md5_rows state in
  map (fun k => wrap 32 (elt state k + elt r k)) (seq 0 4).

Definition pdcmd5_compress (state : list Z) (nblocks : nat) (data : list Z) : list Z :=
  blocks_loop md5_block 64 nblocks state data.

Definition pdcmd5_initial_state : list Z := [0x67452301; 0xefcdab89; 0x98badcfe; 0x10325476].

(** ** FIPS 180-4, SHA-1 *)
Definition sha1_word (msg ws : list Z) : Z :=
  let t := length ws in
  if (t <? 16)%nat then elt msg t
  else rotl 32 1 (elt ws (t - 3) ⊕ elt ws (t - 8) ⊕ elt ws (t - 14) ⊕ elt ws (t - 16)).
Definition sha1_schedule (msg : list Z) (n : nat) : list Z := grow (sha1_word msg) n.

Definition Parity (x y z : Z) : Z := x ⊕ y ⊕ z.
Definition f_t (t : nat) : Z -> Z -> Z -> Z :=
  if (t <? 20)%nat then Ch 32 else if (t <? 40)%nat then Parity else if (t <? 60)%nat then Maj else Parity.

(** [floor (2 ^ 30 * sqrt n)] for 2, 3, 5 and 10. *)
Definition K_t (t : nat) : Z :=
  Z.sqrt ((if (t <? 20)%nat then 2 else if (t <? 40)%nat then 3 else if (t <? 60)%nat then 5 else 10) * 2 ^ 60).

Definition sha1_round (t : nat) (Wt : Z) (s : list Z) : list Z :=
  match s with
  | [a; b; c; d; e] =>
      [wrap 32 (rotl 32 5 a + f_t t b c d + e + K_t t + Wt); a; rotl 32 30 b; c; d]
  | _ => s
  end.
Fixpoint sha1_rounds (ws s : list Z) (t : nat) : list Z :=
  match t with O => s | S k => sha1_round k (elt ws k) (sha1_rounds ws s k) end.

Definition Sha1_block (s bs : list Z) : list Z :=
  let s' := sha1_rounds (sha1_schedule (be_words 4 16 bs) 80) s 80 in
  map (fun k => wrap 32 (elt s k + elt s' k)) (seq 0 5).

(** ** RFC 1321, MD5

    [T i] is the integer part of [2 ^ 32 * |sin i|], here from a table of the sine in
    fixed-point arithmetic with 96 fraction bits, by the addition theorem. *)
Definition one : Z := 2 ^ 96.
Fixpoint taylor (n : nat) (k sum term : Z) : Z :=
  match n with
  | O => sum
  | S n' => taylor n' (k + 2) (sum + term) (- term / ((k + 1) * (k + 2)))
  end.
Definition sin1 : Z := taylor 20 1 0 one.
Definition cos1 : Z := taylor 20 0 0 one.
Fixpoint sines (n : nat) (s c : Z) : list Z :=
  match n with
  | O => []
  | S n' =>
      let s' := (s * cos1 + c * sin1) / one in
      let c' := (c * cos1 - s * sin1) / one in
      Z.abs s' / 2 ^ 64 :: sines n' s' c'
  end.
Definition T_table : list Z := sines 64 0 one.

Definition md5_round_fn (t : nat) (x y z : Z) : Z :=
  if (t <? 16)%nat then Z.lor (Z.land x y) (Z.land (lnot 32 x) z)
  else if (t <? 32)%nat then Z.lor (Z.land x z) (Z.land y (lnot 32 z))
  else if (t <? 48)%nat then x ⊕ y ⊕ z
  else y ⊕ Z.lor x (lnot 32 z).
Definition md5_index (t : nat) : nat :=
  if (t <? 16)%nat then t
  else if (t <? 32)%nat then ((5 * t + 1) mod 16)%nat
  else if (t <? 48)%nat then ((3 * t + 5) mod 16)%nat
  else ((7 * t) mod 16)%nat.
Definition md5_shift (t : nat) : Z :=
  elt (if (t <? 16)%nat then [7; 12; 17; 22] else if (t <? 32)%nat then [5; 9; 14; 20]
       else if (t <? 48)%nat then [4; 11; 16; 23] else [6; 10; 15; 21]) (t mod 4).

Definition md5_round (T : list Z) (X : list Z) (t : nat) (s : list Z) : list Z :=
  match s with
  | [a; b; c; d] =>
      [d; wrap 32 (b + rotl 32 (md5_shift t) (wrap 32 (a + md5_round_fn t b c d + elt X (md5_index t) + elt T t)));
       b; c]
  | _ => s
  end.
Fixpoint md5_rounds (T X s : list Z) (t : nat) : list Z :=
  match t with O => s | S k => md5_round T X k (md5_rounds T X s k) end.

Definition le_words (n : nat) (bs : list Z) : list Z :=
  map (fun k => le_decode (take 4 (drop (k * 4) bs))) (seq 0 n).
Definition Md5_block (s bs : list Z) : list Z :=
  let s' := md5_rounds T_table (le_words 16 bs) s 64 in
  map (fun k => wrap 32 (elt s k + elt s' k)) (seq 0 4).

Definition sha1_expected (t : nat) : sha1_fn * list nat * nat :=
  (if (t <? 20)%nat then SF1 else if (t <? 40)%nat then SF2 else if (t <? 60)%nat then SF3 else SF4,
   map (reg 5 t) (seq 0 5), t).

Lemma sha1_rows_expected : sha1_rows = map sha1_expected (seq 0 80).
Proof. vm_compute. reflexivity. Qed.

Definition md5_expected (T : list Z) (t : nat) : md5_fn * list nat * nat * Z * Z :=
  (if (t <? 16)%nat then MFF else if (t <? 32)%nat then MGG else if (t <? 48)%nat then MHH else MII,
   map (reg 4 t) (seq 0 4), md5_index t, md5_shift t, elt T t).

Lemma md5_rows_expected : md5_rows = map (md5_expected T_table) (seq 0 64).
Proof. vm_compute. reflexivity. Qed.

(** ** SHA-1 is the function of the standard *)
Section Sha1.
Variable msg : list Z.

Definition sha1_word_at (t : nat) : Z := sha1_word msg (sha1_schedule msg t).

Lemma sha1_word_at_eq t : sha1_word_at t =
  if (t <? 16)%nat then elt msg t
  else rotl 32 1 (sha1_word_at (t - 3) ⊕ sha1_word_at (t - 8) ⊕ sha1_word_at (t - 14) ⊕ sha1_word_at (t - 16)).
Proof.
  unfold sha1_word_at at 1, sha1_word, sha1_schedule. rewrite length_grow. destruct (Nat.ltb_spec t 16); [done|].
  by rewrite !elt_grow by lia.
Qed.

(** The first [n] words are those of the schedule. *)
Definition filled (n : nat) (w : list Z) : Prop :=
  length w = 80%nat /\ forall i, (i < n)%nat -> elt w i = sha1_word_at i.

Lemma extend_word_spec n a b c d w : (16 <= n < 80)%nat -> filled n w ->
  a = (n - 3)%nat -> b = (n - 8)%nat -> c = (n - 14)%nat -> d = (n - 16)%nat -> filled (S n) (extend_word n a b c d w).
Proof.
  intros Hn [Hl Hw] -> -> -> ->. unfold extend_word. split; [by rewrite length_insert|]. intros i Hi.
  rewrite elt_insert by lia. rewrite !Hw by lia. case_decide; [|apply Hw; lia]. subst i.
  rewrite (sha1_word_at_eq n). by rewrite (proj2 (Nat.ltb_ge _ _)) by lia.
Qed.

Lemma extend_words_spec j w : (16 <= j <= 72)%nat -> filled j w -> filled (j + 8) (extend_words j w).
Proof.
  intros Hj Hw. unfold extend_words. cbv zeta.
  assert (S_add : forall k, S (j + k) = (j + S k)%nat) by lia.
  replace (j + 8)%nat with (S (j + 7)) by lia. apply extend_word_spec; try lia.
  rewrite <- S_add. apply extend_word_spec; try lia. rewrite <- S_add. apply extend_word_spec; try lia.
  rewrite <- S_add. apply extend_word_spec; try lia. rewrite <- S_add. apply extend_word_spec; try lia.
  rewrite <- S_add. apply extend_word_spec; try lia. rewrite <- S_add. apply extend_word_spec; try lia.
  rewrite <- S_add, Nat.add_0_r. by apply extend_word_spec; try lia.
Qed.

Lemma sha1_words_spec m_W input : length m_W = 80%nat -> msg = map (load_be 4 input) (seq 0 16) ->
  filled 80 (sha1_words m_W input).
Proof.
  intros Hl Em. unfold sha1_words. apply (for_range_ind (fun k w => filled (16 + 8 * k) w) 0 8).
  - unfold load_be_n. assert (H : length (for_range 0 16 (fun i w => <[i:=load_be 4 input i]> w) m_W) = 80%nat /\
      forall i, (i < 16)%nat -> elt (for_range 0 16 (fun i w => <[i:=load_be 4 input i]> w) m_W) i = load_be 4 input i).
    { apply (for_range_ind (fun k w => length w = 80%nat /\ forall i, (i < k)%nat -> elt w i = load_be 4 input i) 0 16).
      - split; [done|lia].
      - intros k w Hk [Hw Hi]. split; [by rewrite length_insert|]. intros i Hlt. rewrite elt_insert by lia.
        case_decide; [by subst|]. apply Hi. lia. }
    destruct H as [H1 H2]. split; [done|]. intros i Hi. rewrite H2, sha1_word_at_eq by lia.
    rewrite (proj2 (Nat.ltb_lt _ _)), Em, elt_map_seq by lia. done.
  - intros k w Hk Hw. replace (16 + 8 * S k)%nat with (16 + 8 * k + 8)%nat by lia. cbn [Nat.add].
    by apply extend_words_spec; [lia|].
Qed.

(** The four functions of the code are the one of the standard. *)
Lemma sha1_f_spec t a b c d e m : word32 b -> word32 c -> word32 d ->
  sha1_f (sha1_expected t).1.1 a b c d e m =
  (rotl 32 30 b, wrap 32 (rotl 32 5 a + f_t t b c d + e + K_t t + m)).
Proof.
  intros Hb Hc Hd. unfold sha1_expected, f_t, K_t. cbn [fst].
  destruct (t <? 20)%nat; [|destruct (t <? 40)%nat; [|destruct (t <? 60)%nat]]; cbn [sha1_f].
  - replace (Z.sqrt (2 * 2 ^ 60)) with 0x5A827999 by (vm_compute; reflexivity).
    unfold F1, Ch, rotate_left. cbn [Z.eqb]. rewrite bits_choose by done. do 2 f_equal. lia.
  - replace (Z.sqrt (3 * 2 ^ 60)) with 0x6ED9EBA1 by (vm_compute; reflexivity).
    unfold F2, Parity, rotate_left. cbn [Z.eqb]. do 2 f_equal. lia.
  - replace (Z.sqrt (5 * 2 ^ 60)) with 0x8F1BBCDC by (vm_compute; reflexivity).
    unfold F3, rotate_left. cbn [Z.eqb]. rewrite majority. do 2 f_equal. lia.
  - replace (Z.sqrt (10 * 2 ^ 60)) with 0xCA62C1D6 by (vm_compute; reflexivity).
    unfold F4, Parity, rotate_left. cbn [Z.eqb]. do 2 f_equal. lia.
Qed.

Variable s0 : list Z.
Hypothesis s0_length : length s0 = 5%nat.
Hypothesis s0_words : Forall word32 s0.

#[local] Abbreviation ws := (sha1_schedule msg 80).

Lemma sha1_rounds_words t : length (sha1_rounds ws s0 t) = 5%nat /\ Forall word32 (sha1_rounds ws s0 t).
Proof.
  induction t as [|t [IH Hw]]; cbn [sha1_rounds]; [done|].
  destruct (sha1_rounds ws s0 t) as [|a [|b [|c [|d [|e [|]]]]]]; try discriminate.
  repeat (apply Forall_cons in Hw as [? Hw]). cbn [sha1_round]. split; [done|].
  repeat (apply Forall_cons; split; [first [done|apply word32_wrap]|]). constructor.
Qed.

Lemma sha1_round_step m_W t r : (t < 80)%nat -> filled 80 m_W -> length r = 5%nat ->
  (forall k, (k < 5)%nat -> elt r (reg 5 t k) = elt (sha1_rounds ws s0 t) k) ->
  let r' := sha1_call m_W (sha1_expected t) r in
  length r' = 5%nat /\ forall k, (k < 5)%nat -> elt r' (reg 5 (S t) k) = elt (sha1_rounds ws s0 (S t)) k.
Proof.
  intros Ht [_ Hm] Hl Hr. pose proof (sha1_rounds_words t) as [Hx Hw]. cbv zeta.
  unfold sha1_call, sha1_expected. cbn [nth map seq]. rewrite !Hr, Hm by lia. cbn [sha1_rounds].
  change (sha1_f _) with (sha1_f (sha1_expected t).1.1).
  replace (elt ws t) with (sha1_word_at t) by (symmetry; by apply elt_grow).
  destruct (sha1_rounds ws s0 t) as [|a [|b [|c [|d [|e [|]]]]]]; try discriminate.
  cbn [elt nth] in *. repeat (apply Forall_cons in Hw as [? Hw]).
  rewrite sha1_f_spec by done. rewrite !length_insert. split; [done|]. intros k Hk.
  destruct k as [|k]; [rewrite reg_first by lia|rewrite reg_S by lia];
    rewrite !elt_insert_reg by (rewrite ?length_insert; lia); [done|]. rewrite Hr by lia.
  do 4 (destruct k as [|k]; [done|]). lia.
Qed.

Lemma sha1_unrolled m_W : filled 80 m_W ->
  let r := fold_left (fun r c => sha1_call m_W c r) sha1_rows s0 in
  forall k, (k < 5)%nat -> elt r k = elt (sha1_rounds ws s0 80) k.
Proof.
  intros Hm. cbv zeta. rewrite sha1_rows_expected.
  assert (H : forall n, (n <= 80)%nat ->
    let r := fold_left (fun r c => sha1_call m_W c r) (map sha1_expected (seq 0 n)) s0 in
    length r = 5%nat /\ forall k, (k < 5)%nat -> elt r (reg 5 n k) = elt (sha1_rounds ws s0 n) k).
  { induction n as [|n IH]; intros Hn; cbv zeta.
    - split; [done|]. intros k Hk. by rewrite reg_0.
    - rewrite seq_S, map_app, fold_left_app. cbn [map fold_left Nat.add].
      destruct (IH ltac:(lia)) as [Hl Hr]. by apply sha1_round_step. }
  destruct (H 80%nat ltac:(lia)) as [_ Hr]. intros k Hk. rewrite <- Hr by done. f_equal.
  unfold reg. replace (k + (5 - 1) * 80)%nat with (k + 64 * 5)%nat by lia.
  rewrite Nat.Div0.mod_add. symmetry. apply Nat.mod_small. lia.
Qed.
End Sha1.

Definition words32 (n : nat) (s : list Z) : Prop := length s = n /\ Forall word32 s.

Lemma words32_map n (f : nat -> Z) : words32 n (map (fun k => wrap 32 (f k)) (seq 0 n)).
Proof.
  split; [by rewrite length_map, length_seq|]. apply Forall_map, Forall_forall. intros. apply word32_wrap.
Qed.

Lemma sha1_block_fips m_W s data : length m_W = 80%nat -> words32 5 s -> (64 <= length data)%nat -> Forall byte data ->
  sha1_block m_W s data = Sha1_block s (take 64 data) /\ words32 5 (Sha1_block s (take 64 data)).
Proof.
  intros Hm [Hs Hw] Hl Hb. split; [|apply words32_map]. unfold sha1_block, Sha1_block.
  rewrite <- (load_words 4) by (done || lia). apply map_ext_in. intros k Hk. apply in_seq in Hk.
  do 2 f_equal. apply (sha1_unrolled _ s Hs Hw); [|lia]. by apply sha1_words_spec.
Qed.

Lemma sha1_compress_fips m_W s n data : length m_W = 80%nat -> words32 5 s ->
  (64 * n <= length data)%nat -> Forall byte data ->
  pdcsha1_compress m_W s n data = chain Sha1_block 64 n s data.
Proof.
  intros Hm Hs Hl Hb. apply (blocks_loop_chain (words32 5)); try done. intros. by apply sha1_block_fips.
Qed.

(** ** MD5 is the function of the RFC *)
Lemma le_decode_be l : le_decode l = be_decode (rev l).
Proof.
  induction l as [|b l IH]; cbn [le_decode rev]; [done|]. rewrite be_decode_app, IH. lia.
Qed.

Lemma load_le_spec input off : (off * 4 + 4 <= length input)%nat -> Forall byte input ->
  load_le input off = le_decode (take 4 (drop (off * 4) input)).
Proof.
  intros Hl Hb. set (l := drop (off * 4) input).
  assert (Hl' : (4 <= length l)%nat) by (unfold l; rewrite length_drop; lia).
  assert (Hb' : Forall byte l) by by apply Forall_drop.
  assert (E : forall i, elt input (off * 4 + i) = elt l i).
  { intros i. unfold l, elt. rewrite !nth_lookup, lookup_drop. done. }
  destruct l as [|a [|b [|c [|d l]]]]; cbn [length] in Hl'; try lia.
  repeat (apply Forall_cons in Hb' as [? Hb']). unfold byte in *.
  unfold load_le, for_range. cbn [seq fold_left Nat.sub]. rewrite !E. cbn [elt nth firstn le_decode].
  rewrite !lor_shiftl_8 by done. rewrite (wrap_small 32 (0 * 256 + d)) by lia.
  rewrite (wrap_small 32 ((0 * 256 + d) * 256 + c)) by lia.
  rewrite (wrap_small 32 (((0 * 256 + d) * 256 + c) * 256 + b)) by lia. rewrite (wrap_small 32) by lia. rewrite take_0. cbn [le_decode]. lia.
Qed.

Lemma md5_shift_range t : 0 < md5_shift t < 32.
Proof.
  unfold md5_shift. pose proof (Nat.mod_upper_bound t 4 ltac:(lia)) as H. revert H. generalize (t mod 4)%nat.
  intros k Hk. repeat case_match; do 4 (destruct k as [|k]; [cbn; lia|]); lia.
Qed.

Lemma md5_f_spec T t a b c d x s k : word32 b -> word32 c -> word32 d -> s <> 0 ->
  md5_f (md5_expected T t).1.1.1.1 a b c d x s k =
  wrap 32 (b + rotl 32 s (wrap 32 (a + md5_round_fn t b c d + x + k))).
Proof.
  intros Hb Hc Hd Hs. unfold md5_expected, md5_round_fn. cbn [fst].
  destruct (t <? 16)%nat; [|destruct (t <? 32)%nat; [|destruct (t <? 48)%nat]]; cbn [md5_f].
  all: unfold FF, GG, HH, II, rotate_left; rewrite (proj2 (Z.eqb_neq s 0) Hs).
  - rewrite bits_choose_or by done. rewrite Z.add_comm. do 4 f_equal. lia.
  - rewrite bits_choose_or' by done. rewrite Z.add_comm. do 4 f_equal. lia.
  - rewrite Z.add_comm. do 4 f_equal. lia.
  - rewrite Z.add_comm. do 4 f_equal. lia.
Qed.

Section Md5.
Variables T X s0 : list Z.
Hypothesis s0_words : words32 4 s0.

Lemma md5_rounds_words t : words32 4 (md5_rounds T X s0 t).
Proof.
  induction t as [|t [IH Hw]]; cbn [md5_rounds]; [done|].
  destruct (md5_rounds T X s0 t) as [|a [|b [|c [|d [|]]]]]; try discriminate.
  repeat (apply Forall_cons in Hw as [? Hw]). cbn [md5_round]. split; [done|].
  repeat (apply Forall_cons; split; [first [done|apply word32_wrap]|]). constructor.
Qed.

Lemma md5_round_step t r : length r = 4%nat ->
  (forall k, (k < 4)%nat -> elt r (reg 4 t k) = elt (md5_rounds T X s0 t) k) ->
  let r' := md5_call X (md5_expected T t) r in
  length r' = 4%nat /\ forall k, (k < 4)%nat -> elt r' (reg 4 (S t) k) = elt (md5_rounds T X s0 (S t)) k.
Proof.
  intros Hl Hr. destruct (md5_rounds_words t) as [Hx Hw]. cbv zeta.
  unfold md5_call, md5_expected. cbn [nth map seq]. rewrite !Hr by lia. cbn [md5_rounds].
  change (md5_f _) with (md5_f (md5_expected T t).1.1.1.1).
  destruct (md5_rounds T X s0 t) as [|a [|b [|c [|d [|]]]]]; try discriminate.
  cbn [elt nth] in *. repeat (apply Forall_cons in Hw as [? Hw]).
  rewrite md5_f_spec by (done || pose proof (md5_shift_range t); lia).
  rewrite !length_insert. split; [done|]. intros k Hk.
  destruct k as [|k]; [rewrite reg_first by lia|rewrite reg_S by lia];
    rewrite !elt_insert_reg by (rewrite ?length_insert; lia); rewrite Hr by lia; [done|].
  do 3 (destruct k as [|k]; [done|]). lia.
Qed.

Lemma md5_unrolled : 
  let r := fold_left (fun r c => md5_call X c r) (map (md5_expected T) (seq 0 64)) s0 in
  forall k, (k < 4)%nat -> elt r k = elt (md5_rounds T X s0 64) k.
Proof.
  cbv zeta. assert (H : forall n, 
    let r := fold_left (fun r c => md5_call X c r) (map (md5_expected T) (seq 0 n)) s0 in
    length r = 4%nat /\ forall k, (k < 4)%nat -> elt r (reg 4 n k) = elt (md5_rounds T X s0 n) k).
  { induction n as [|n IH]; cbv zeta.
    - split; [apply s0_words|]. intros k Hk. by rewrite reg_0.
    - rewrite seq_S, map_app, fold_left_app. cbn [map fold_left Nat.add].
      destruct IH as [Hl Hr]. by apply md5_round_step. }
  destruct (H 64%nat) as [_ Hr]. intros k Hk. rewrite <- Hr by done. f_equal.
  unfold reg. replace (k + (4 - 1) * 64)%nat with (k + 48 * 4)%nat by lia.
  rewrite Nat.Div0.mod_add. symmetry. apply Nat.mod_small. lia.
Qed.
End Md5.

Lemma md5_block_rfc s data : words32 4 s -> (64 <= length data)%nat -> Forall byte data ->
  md5_block s data = Md5_block s (take 64 data) /\ words32 4 (Md5_block s (take 64 data)).
Proof.
  intros Hs Hl Hb. split; [|apply words32_map]. unfold md5_block, Md5_block.
  assert (E : map (load_le data) (seq 0 16) = le_words 16 (take 64 data)).
  { apply map_ext_in. intros k Hk. apply in_seq in Hk. rewrite load_le_spec by (done || lia).
    f_equal. rewrite skipn_firstn_comm, take_take. f_equal. lia. }
  rewrite E, md5_rows_expected. apply map_ext_in. intros k Hk. apply in_seq in Hk. do 2 f_equal.
  apply md5_unrolled; [done|lia].
Qed.

Lemma md5_compress_rfc s n data : words32 4 s -> (64 * n <= length data)%nat -> Forall byte data ->
  pdcmd5_compress s n data = chain Md5_block 64 n s data.
Proof. intros Hs Hl Hb. apply (blocks_loop_chain (words32 4)); try done. intros. by apply md5_block_rfc. Qed.
