(* ===== verification/Digest.v ===== *)
(** * Message digests of the cryptographic provider: kexts/corecrypto/src

    The finalisation of pdcrypto_digest_final.c, the digest descriptors of md5.c,
    sha1.c, sha256.cc and sha512.cc and the one-shot digest of panthera_corecrypto.c.
    The context structure and the functions that fill it (ccdigest_init,
    ccdigest_update) belong to corecrypto, outside the tree: they are a class with
    the contract the finalisation relies on. *)

From Stdlib Require Import ZArith Lia.
From stdpp Require Import base list.
From S2P Require Import Prelude Words Sha2 Sha1Md5.

Open Scope Z_scope.

(** ** Contexts and descriptors

    The accessors [ccdigest_state_u32], [ccdigest_nbits], [ccdigest_data] and
    [ccdigest_num] are the fields of a context. *)
Record ccdigest_ctx := mkCtx {
  c_state : list Z;  (* as 32-bit words *)
  c_nbits : Z;
  c_data : list Z;
  c_num : nat }.

Inductive final_fn := pdcdigest_final_64le_fn | pdcdigest_final_64be_fn.

Record ccdigest_info := mkInfo {
  output_size : nat;
  block_size : nat;
  initial_state : list Z;
  compress : list Z -> nat -> list Z -> list Z;
  final : final_fn }.

(** ** Finalisation: pdcrypto_digest_final.c *)
Definition be_encode (n : nat) (v : Z) : list Z := rev (le_encode n v).

(** [ccdigest_data(di, ctx)[ccdigest_num(di, ctx)++] = v]. *)
Definition put_byte (v : Z) (c : ccdigest_ctx) : ccdigest_ctx :=
  mkCtx (c_state c) (c_nbits c) (<[c_num c := v]> (c_data c)) (S (c_num c)).

(** [while (ccdigest_num(di, ctx) < limit) ccdigest_data(di, ctx)[...] = 0]. *)
Definition pad_to (limit : nat) (c : ccdigest_ctx) : ccdigest_ctx :=
  Nat.iter (limit - c_num c) (put_byte 0) c.

Definition compress_data (di : ccdigest_info) (c : ccdigest_ctx) : ccdigest_ctx :=
  mkCtx (compress di (c_state c) 1 (c_data c)) (c_nbits c) (c_data c) (c_num c).

(** [CC_STORE64_xE(v, data + off)]. *)
Definition store_at (off : nat) (bs l : list Z) : list Z := take off l ++ bs ++ drop (off + length bs) l.

(** The two functions of the source differ in the byte order [enc]. *)
Definition final_64 (enc : nat -> Z -> list Z) (di : ccdigest_info) (c : ccdigest_ctx) : list Z :=
  let c := mkCtx (c_state c) (wrap 64 (c_nbits c + Z.of_nat (c_num c) * 8)) (c_data c) (c_num c) in
  let c := put_byte 0x80 c in
  let c :=
    if (64 - 8 <? c_num c)%nat then
      let c := compress_data di (pad_to 64 c) in
      mkCtx (c_state c) (c_nbits c) (c_data c) 0
    else c in
  let c := pad_to (64 - 8) c in
  let c := mkCtx (c_state c) (c_nbits c) (store_at (64 - 8) (enc 8%nat (c_nbits c)) (c_data c)) (c_num c) in
  let c := compress_data di c in
  concat (map (fun i => enc 4%nat (elt (c_state c) i)) (seq 0 (output_size di / 4))).

Definition pdcdigest_final_64le (di : ccdigest_info) (c : ccdigest_ctx) : list Z := final_64 le_encode di c.
Definition pdcdigest_final_64be (di : ccdigest_info) (c : ccdigest_ctx) : list Z := final_64 be_encode di c.

(** The byte order of the target is little-endian. *)
Definition pdcdigest_final_fn (di : ccdigest_info) (c : ccdigest_ctx) : list Z := pdcdigest_final_64le di c.

Definition run_final (di : ccdigest_info) (c : ccdigest_ctx) : list Z :=
  match final di with
  | pdcdigest_final_64le_fn => pdcdigest_final_64le di c
  | pdcdigest_final_64be_fn => pdcdigest_final_64be di c
  end.

(** ** Descriptors *)
Definition CCMD5_BLOCK_SIZE : nat := 64.
Definition CCMD5_OUTPUT_SIZE : nat := 16.

Definition pdcmd5_di : ccdigest_info :=
  mkInfo CCMD5_OUTPUT_SIZE CCMD5_BLOCK_SIZE pdcmd5_initial_state pdcmd5_compress pdcdigest_final_64le_fn.

(** The sizes of the SHA descriptors are constants of the corecrypto headers;
    [m_W] is the uninitialised array of the compression function. *)
Definition ccsha1_ltc_di (CCSHA1_OUTPUT_SIZE CCSHA1_BLOCK_SIZE : nat) (m_W : list Z) : ccdigest_info :=
  mkInfo CCSHA1_OUTPUT_SIZE CCSHA1_BLOCK_SIZE pdcsha1_initial_state (pdcsha1_compress m_W)
    pdcdigest_final_64be_fn.

Definition ccsha256_ltc_di (CCSHA256_OUTPUT_SIZE CCSHA256_BLOCK_SIZE : nat) : ccdigest_info :=
  mkInfo CCSHA256_OUTPUT_SIZE CCSHA256_BLOCK_SIZE pdcsha256_initial_state pdcsha256_compress
    pdcdigest_final_64be_fn.

(** The state of SHA-384 and SHA-512 is eight 64-bit words; in 32-bit words on
    this target the low half comes first. *)
Fixpoint u64_of_u32 (l : list Z) : list Z :=
  match l with
  | lo :: hi :: l' => lo + 2 ^ 32 * hi :: u64_of_u32 l'
  | _ => []
  end.
Definition u32_of_u64 (l : list Z) : list Z := flat_map (fun x => [wrap 32 x; x / 2 ^ 32]) l.

Definition sha512_compress_u32 (s : list Z) (n : nat) (data : list Z) : list Z :=
  u32_of_u64 (pdcsha512_compress (u64_of_u32 s) n data).

Definition ccsha384_ltc_di (CCSHA384_OUTPUT_SIZE CCSHA512_BLOCK_SIZE : nat) : ccdigest_info :=
  mkInfo CCSHA384_OUTPUT_SIZE CCSHA512_BLOCK_SIZE (u32_of_u64 pdcsha384_initial_state) sha512_compress_u32
    pdcdigest_final_64be_fn.

Definition ccsha512_ltc_di (CCSHA512_OUTPUT_SIZE CCSHA512_BLOCK_SIZE : nat) : ccdigest_info :=
  mkInfo CCSHA512_OUTPUT_SIZE CCSHA512_BLOCK_SIZE (u32_of_u64 pdcsha512_initial_state) sha512_compress_u32
    pdcdigest_final_64be_fn.

(** ** The library around it *)

(** A context has taken in the message [M]: the full blocks are compressed, the
    rest is at the start of the buffer. *)
Definition absorbed (di : ccdigest_info) (M : list Z) (c : ccdigest_ctx) : Prop :=
  let full := (length M / block_size di)%nat in
  c_state c = compress di (initial_state di) full M /\
  c_nbits c = wrap 64 (8 * Z.of_nat (full * block_size di)) /\
  c_num c = (length M mod block_size di)%nat /\
  take (c_num c) (c_data c) = drop (full * block_size di) M /\
  length (c_data c) = block_size di /\ Forall byte (c_data c).

(** A descriptor that runs a block function over 64-byte blocks. *)
Class BlockDigest (di : ccdigest_info) (f : list Z -> list Z -> list Z) (P : list Z -> Prop) : Prop := {
  block_64 : block_size di = 64%nat;
  initial_ok : P (initial_state di);
  compress_ok : forall s n data, P s -> (64 * n <= length data)%nat -> Forall byte data ->
    compress di s n data = chain f 64 n s data;
  step_ok : forall s b, P s -> length b = 64%nat -> Forall byte b -> P (f s b) }.

Definition supported (di : ccdigest_info) : Prop := exists f P, BlockDigest di f P.

Class DigestLibrary := {
  ccdigest_init : ccdigest_info -> ccdigest_ctx;
  ccdigest_update : ccdigest_info -> ccdigest_ctx -> list Z -> ccdigest_ctx;
  ccdigest_final : ccdigest_info -> ccdigest_ctx -> list Z }.

(** What the provider relies on. *)
Class LawfulDigestLibrary `{DigestLibrary} : Prop := {
  init_law : forall di, supported di -> absorbed di [] (ccdigest_init di);
  update_law : forall di c M bs, supported di -> Forall byte M -> Forall byte bs ->
    absorbed di M c -> absorbed di (M ++ bs) (ccdigest_update di c bs);
  final_law : forall di c, ccdigest_final di c = run_final di c }.

Definition panthera_digest_final `{DigestLibrary} (di : ccdigest_info) (c : ccdigest_ctx) : list Z :=
  ccdigest_final di c.

Definition panthera_digest `{DigestLibrary} (di : ccdigest_info) (data : list Z) : list Z :=
  let c := ccdigest_init di in
  let c := ccdigest_update di c data in
  ccdigest_final di c.

(** ** The standards

    Padding with a one bit, zeros and the length in bits, then the block function
    over the blocks, for 64-byte blocks. *)
Definition padding (enc : nat -> Z -> list Z) (n : nat) : list Z :=
  0x80 :: repeat 0 ((119 - n mod 64) mod 64) ++ enc 8%nat (8 * Z.of_nat n).
Definition merkle_damgard (enc : nat -> Z -> list Z) (f : list Z -> list Z -> list Z) (s0 : list Z)
    (words : nat) (M : list Z) : list Z :=
  let P := M ++ padding enc (length M) in
  concat (map (fun i => enc 4%nat (elt (chain f 64 (length P / 64) s0 P) i)) (seq 0 words)).

Definition MD5 : list Z -> list Z := merkle_damgard le_encode Md5_block pdcmd5_initial_state 4.
Definition SHA1 : list Z -> list Z := merkle_damgard be_encode Sha1_block pdcsha1_initial_state 5.
Definition SHA256 : list Z -> list Z := merkle_damgard be_encode Sha256_block (take 8 (root2_bits 32)) 8.

(** ** Chains of blocks *)
Lemma chain_app f size n s x y : length x = (size * n)%nat -> chain f size n s (x ++ y) = chain f size n s x.
Proof.
  revert s x. induction n as [|n IH]; intros s x Hx; cbn [chain]; [done|].
  rewrite take_app_le, drop_app_le by lia. apply IH. rewrite length_drop. lia.
Qed.

Lemma chain_add f size a b s x y : length x = (size * a)%nat ->
  chain f size (a + b) s (x ++ y) = chain f size b (chain f size a s x) y.
Proof.
  revert s x. induction a as [|a IH]; intros s x Hx; cbn [chain Nat.add].
  - destruct x; [done|cbn in Hx; lia].
  - rewrite take_app_le, drop_app_le by lia. apply IH. rewrite length_drop. lia.
Qed.

Lemma chain_ok `{BlockDigest di f P} n s x : P s -> (64 * n <= length x)%nat -> Forall byte x ->
  P (chain f 64 n s x).
Proof.
  revert s x. induction n as [|n IH]; intros s x Hs Hl Hb; cbn [chain]; [done|].
  apply IH; [|rewrite length_drop; lia|by apply Forall_drop].
  apply step_ok; [done|rewrite length_take; lia|by apply Forall_take].
Qed.

#[export] Instance md5_digest : BlockDigest pdcmd5_di Md5_block (words32 4).
Proof.
  split; [done| | |].
  - split; [done|]. repeat constructor; vm_compute; discriminate.
  - intros. by apply md5_compress_rfc.
  - intros s b _ _ _. apply words32_map.
Qed.

#[export] Instance sha1_digest out m_W : length m_W = 80%nat ->
  BlockDigest (ccsha1_ltc_di out 64 m_W) Sha1_block (words32 5).
Proof.
  intros Hm. split; [done| | |].
  - split; [done|]. repeat constructor; vm_compute; discriminate.
  - intros. by apply sha1_compress_fips.
  - intros s b _ _ _. apply words32_map.
Qed.

#[export] Instance sha256_digest out :
  BlockDigest (ccsha256_ltc_di out 64) Sha256_block (fun s => length s = 8%nat).
Proof.
  split; [done|done| |done]. intros s n data Hs Hl Hb.
  by apply (blocks_loop_chain (fun s => length s = 8%nat)); [apply sha256_block| | |].
Qed.

(** ** The buffer of a context *)
Definition buffer (c : ccdigest_ctx) : list Z := take (c_num c) (c_data c).

Lemma put_byte_buffer v c : (c_num c < length (c_data c))%nat -> byte v -> Forall byte (c_data c) ->
  buffer (put_byte v c) = buffer c ++ [v] /\ length (c_data (put_byte v c)) = length (c_data c) /\
  Forall byte (c_data (put_byte v c)).
Proof.
  intros Hn Hv Hb. unfold buffer, put_byte. cbn [c_num c_data]. split_and!.
  - rewrite (take_S_r _ _ v) by (by apply list_lookup_insert_eq). f_equal. by apply take_insert_ge.
  - by rewrite length_insert.
  - by apply Forall_insert.
Qed.

Lemma pad_to_buffer limit c : (c_num c <= limit <= length (c_data c))%nat -> Forall byte (c_data c) ->
  let c' := pad_to limit c in
  c_num c' = limit /\ buffer c' = buffer c ++ repeat 0 (limit - c_num c) /\
  length (c_data c') = length (c_data c) /\ Forall byte (c_data c') /\
  c_state c' = c_state c /\ c_nbits c' = c_nbits c.
Proof.
  intros Hl Hb. unfold pad_to. cbv zeta. remember (limit - c_num c)%nat as k eqn:Ek.
  assert (H : forall j, (j <= k)%nat -> let c' := Nat.iter j (put_byte 0) c in
    c_num c' = (c_num c + j)%nat /\ buffer c' = buffer c ++ repeat 0 j /\
    length (c_data c') = length (c_data c) /\ Forall byte (c_data c') /\
    c_state c' = c_state c /\ c_nbits c' = c_nbits c).
  { induction j as [|j IH]; intros Hj; cbv zeta.
    - cbn. rewrite app_nil_r. split_and!; first [done|lia].
    - change (Nat.iter (S j) (put_byte 0) c) with (put_byte 0 (Nat.iter j (put_byte 0) c)). destruct (IH ltac:(lia)) as (E1 & E2 & E3 & E4 & E5 & E6).
      set (c1 := Nat.iter j (put_byte 0) c) in *.
      destruct (put_byte_buffer 0 c1) as (B1 & B2 & B3); [lia|unfold byte; lia|done|].
      split_and!; [change (S (c_num c1) = (c_num c + S j)%nat); lia| |by rewrite B2|done|done|done].
      rewrite B1, E2, <- app_assoc. f_equal. symmetry. apply (repeat_cons j 0). }
  destruct (H k ltac:(lia)) as (E1 & ?). split; [lia|done].
Qed.

(** ** Finalising a context is hashing its message *)
Section Final.
Context `{HD : BlockDigest di f P}.
Variable enc : nat -> Z -> list Z.
Hypothesis enc_length : forall n v, length (enc n v) = n.
Hypothesis enc_bytes : forall n v, Forall byte (enc n v).

Lemma compress_one s c : P s -> length (c_data c) = 64%nat -> Forall byte (c_data c) -> c_state c = s ->
  c_state (compress_data di c) = f s (c_data c).
Proof.
  intros Hs Hl Hb <-. unfold compress_data. cbn [c_state]. rewrite (compress_ok _ 1) by (done || lia).
  cbn [chain]. by rewrite take_ge by lia.
Qed.

(** The last step: zeros up to the length field, the length, one block. *)
Lemma last_block s c : P s -> c_state c = s -> length (c_data c) = 64%nat -> Forall byte (c_data c) ->
  (c_num c <= 56)%nat ->
  let c1 := pad_to (64 - 8) c in
  let c2 := mkCtx (c_state c1) (c_nbits c1) (store_at (64 - 8) (enc 8%nat (c_nbits c1)) (c_data c1)) (c_num c1) in
  c_state (compress_data di c2) = f s (buffer c ++ repeat 0 (56 - c_num c) ++ enc 8%nat (c_nbits c)).
Proof.
  intros Hs E Hl Hb Hn. cbv zeta.
  destruct (pad_to_buffer (64 - 8) c) as (E1 & E2 & E3 & E4 & E5 & E6); [lia|done|].
  set (c1 := pad_to (64 - 8) c) in *. clearbody c1. rewrite E6.
  assert (Ed : store_at (64 - 8) (enc 8%nat (c_nbits c)) (c_data c1) =
    buffer c ++ repeat 0 (56 - c_num c) ++ enc 8%nat (c_nbits c)).
  { unfold store_at. rewrite enc_length, (drop_ge (c_data c1)) by lia. rewrite app_nil_r, app_assoc.
    f_equal. unfold buffer in E2. rewrite E1 in E2. exact E2. }
  rewrite Ed. rewrite (compress_one s); cbn [c_data c_state]; [done|done| | |congruence].
  - rewrite !length_app, repeat_length, enc_length. unfold buffer. rewrite length_take. lia.
  - rewrite !Forall_app. split_and!; [by apply Forall_take| |done].
    apply zeros_bytes.
Qed.

(** The message is cut into full blocks [X] and the buffered rest [Y]. *)
Lemma absorbed_parts M c : Forall byte M -> 8 * Z.of_nat (length M) < 2 ^ 64 -> absorbed di M c ->
  exists X Y full, M = X ++ Y /\ length X = (64 * full)%nat /\ length Y = c_num c /\ (c_num c < 64)%nat /\
    buffer c = Y /\ c_state c = chain f 64 full (initial_state di) X /\ P (c_state c) /\
    wrap 64 (c_nbits c + Z.of_nat (c_num c) * 8) = 8 * Z.of_nat (length M) /\
    length (c_data c) = 64%nat /\ Forall byte (c_data c).
Proof.
  intros HM HL (Es & En & Er & Eb & El & Hb). rewrite (block_64 (di := di)) in *.
  set (full := (length M / 64)%nat) in *. pose proof (Nat.div_mod_eq (length M) 64) as Hdm. fold full in Hdm.
  pose proof (Nat.mod_upper_bound (length M) 64 ltac:(lia)) as Hr. rewrite <- Er in Hdm, Hr.
  set (X := take (full * 64) M). set (Y := drop (full * 64) M) in *.
  assert (EM : M = X ++ Y) by (symmetry; apply take_drop).
  assert (HX : length X = (64 * full)%nat) by (unfold X; rewrite length_take; lia).
  assert (HY : length Y = c_num c) by (unfold Y; rewrite length_drop; lia).
  rewrite (compress_ok _ full) in Es by (apply initial_ok || done || lia).
  assert (Es' : c_state c = chain f 64 full (initial_state di) X).
  { rewrite Es, <- (chain_app f 64 full _ X Y HX), <- EM. done. }
  exists X, Y, full. split_and!; try done.
  - rewrite Es'. apply chain_ok; [apply initial_ok|lia|]. by apply Forall_take.
  - rewrite En, wrap_add_l, wrap_small; lia.
Qed.

(** The padded message, one or two blocks longer than the full blocks. *)
Lemma padded_blocks (X Y : list Z) full r : length X = (64 * full)%nat -> length Y = r -> (r < 64)%nat ->
  let M := X ++ Y in let len := enc 8%nat (8 * Z.of_nat (length M)) in
  forall s, chain f 64 (length (M ++ padding enc (length M)) / 64) s (M ++ padding enc (length M)) =
  if decide (r < 56)%nat then f (chain f 64 full s X) (Y ++ 0x80 :: repeat 0 (55 - r) ++ len)
  else f (f (chain f 64 full s X) (Y ++ 0x80 :: repeat 0 (63 - r))) (repeat 0 56 ++ len).
Proof.
  intros HX HY Hr M len s. assert (HM : length M = (64 * full + r)%nat) by (unfold M; rewrite length_app; lia).
  assert (Em : (length M mod 64 = r)%nat).
  { rewrite HM, Nat.add_comm, (Nat.mul_comm 64), Nat.Div0.mod_add. by apply Nat.mod_small. }
  unfold padding. rewrite Em. fold len. unfold M. rewrite <- app_assoc. case_decide as Hc.
  - replace ((119 - r) mod 64)%nat with (55 - r)%nat
      by (replace (119 - r)%nat with (55 - r + 1 * 64)%nat by lia; rewrite Nat.Div0.mod_add, Nat.mod_small; lia).
    set (B := Y ++ 0x80 :: repeat 0 (55 - r) ++ len).
    assert (HB : length B = 64%nat).
    { unfold B. rewrite length_app. cbn [length]. rewrite length_app, repeat_length. unfold len. rewrite enc_length. lia. }
    replace (length (X ++ B) / 64)%nat with (full + 1)%nat
      by (rewrite length_app, HB, HX; apply Nat.div_unique_exact; lia).
    rewrite chain_add by done. cbn [chain]. by rewrite take_ge by lia.
  - replace ((119 - r) mod 64)%nat with (119 - r)%nat by (symmetry; apply Nat.mod_small; lia).
    replace (119 - r)%nat with (63 - r + 56)%nat by lia. rewrite repeat_app.
    replace (Y ++ 0x80 :: (repeat 0 (63 - r) ++ repeat 0 56) ++ len)
      with ((Y ++ 0x80 :: repeat 0 (63 - r)) ++ (repeat 0 56 ++ len))
      by (rewrite <- !app_assoc; reflexivity).
    set (B := Y ++ 0x80 :: repeat 0 (63 - r)). set (C := repeat 0 56 ++ len).
    assert (HB : length B = 64%nat) by (unfold B; rewrite length_app; cbn [length]; rewrite repeat_length; lia).
    assert (HC : length C = 64%nat) by (unfold C, len; rewrite length_app, repeat_length, enc_length; lia).
    replace (length (X ++ B ++ C) / 64)%nat with (full + 2)%nat
      by (rewrite !length_app, HB, HC, HX; apply Nat.div_unique_exact; lia).
    rewrite chain_add by done. cbn [chain].
    rewrite take_app_length', drop_app_length' by done. by rewrite (take_ge C) by lia.
Qed.

Lemma final_64_hash M c : Forall byte M -> 8 * Z.of_nat (length M) < 2 ^ 64 -> absorbed di M c ->
  final_64 enc di c = merkle_damgard enc f (initial_state di) (output_size di / 4) M.
Proof.
  intros HM HL Ha. destruct (absorbed_parts M c HM HL Ha) as (X & Y & full & -> & HX & HY & Hr & Eb & Es & Ps & En & El & Hb).
  unfold final_64, merkle_damgard. cbv zeta. rewrite En. f_equal. apply map_ext. intros i. do 2 f_equal.
  rewrite (padded_blocks X Y full (c_num c)) by done. rewrite <- Es.
  set (len := 8 * Z.of_nat (length (X ++ Y))). set (c0 := mkCtx (c_state c) len (c_data c) (c_num c)).
  destruct (put_byte_buffer 0x80 c0) as (B1 & B2 & B3); [cbn [c0 c_num c_data]; lia|unfold byte; lia|done|].
  change (buffer c0) with (buffer c) in B1. rewrite Eb in B1. change (c_data c0) with (c_data c) in B2. rewrite El in B2.
  set (c1 := put_byte 0x80 c0) in *. assert (N1 : c_num c1 = S (c_num c)) by done.
  assert (S1 : c_state c1 = c_state c) by done. assert (L1 : c_nbits c1 = len) by done. clearbody c1.
  rewrite N1. case_decide as Hc.
  - rewrite (proj2 (Nat.ltb_ge _ _)) by lia. rewrite (last_block (c_state c)) by (done || lia).
    rewrite B1, N1, L1, <- app_assoc. cbn [app]. do 4 f_equal; lia.
  - rewrite (proj2 (Nat.ltb_lt _ _)) by lia.
    destruct (pad_to_buffer 64 c1) as (E1 & E2 & E3 & E4 & E5 & E6); [lia|done|].
    set (c2 := pad_to 64 c1) in *. clearbody c2.
    assert (D2 : c_data c2 = Y ++ 0x80 :: repeat 0 (63 - c_num c)).
    { unfold buffer at 1 in E2. rewrite E1, take_ge in E2 by lia. rewrite E2, B1, N1, <- app_assoc. cbn [app]. done. }
    rewrite (last_block (f (c_state c) (c_data c2))); cbn [c_state c_nbits c_data c_num];
      [|apply step_ok; [done|lia|done]|apply compress_one; [done|lia|done|congruence]|cbn; lia|done|lia].
    rewrite D2. f_equal. unfold buffer. cbn [c_num c_nbits compress_data]. rewrite E6, L1. done.
Qed.
End Final.

Lemma be_encode_length n v : length (be_encode n v) = n.
Proof. unfold be_encode. rewrite length_rev. apply length_le_encode. Qed.

Lemma be_encode_bytes n v : Forall byte (be_encode n v).
Proof. unfold be_encode. apply Forall_rev, le_encode_bytes. Qed.

Lemma digest_run `{LawfulDigestLibrary} `{HD : BlockDigest di f P} M : Forall byte M ->
  panthera_digest di M = run_final di (ccdigest_update di (ccdigest_init di) M) /\
  absorbed di M (ccdigest_update di (ccdigest_init di) M).
Proof.
  intros HM. assert (Hs : supported di) by (by exists f, P). unfold panthera_digest. split; [apply final_law|].
  apply (update_law di _ [] M Hs); [constructor|done|]. by apply init_law.
Qed.

(** ** A library that keeps the contract

    It takes the message byte by byte. *)
Definition absorb_byte (di : ccdigest_info) (c : ccdigest_ctx) (b : Z) : ccdigest_ctx :=
  let c := put_byte b c in
  if (c_num c =? block_size di)%nat then
    let c := compress_data di c in
    mkCtx (c_state c) (wrap 64 (c_nbits c + 8 * Z.of_nat (block_size di))) (c_data c) 0
  else c.

#[export] Instance byte_library : DigestLibrary := {|
  ccdigest_init di := mkCtx (initial_state di) 0 (repeat 0 (block_size di)) 0;
  ccdigest_update di c bs := fold_left (absorb_byte di) bs c;
  ccdigest_final := run_final |}.

Lemma absorb_byte_law `{HD : BlockDigest di f P} M c b : Forall byte M -> byte b ->
  absorbed di M c -> absorbed di (M ++ [b]) (absorb_byte di c b).
Proof.
  intros HM Hb (Es & En & Er & Eb & El & Hd). unfold absorbed, absorb_byte. rewrite (block_64 (di := di)) in *.
  set (full := (length M / 64)%nat) in *. pose proof (Nat.div_mod_eq (length M) 64) as Hdm. fold full in Hdm.
  pose proof (Nat.mod_upper_bound (length M) 64 ltac:(lia)) as Hr. rewrite <- Er in Hdm, Hr.
  destruct (put_byte_buffer b c) as (B1 & B2 & B3); [lia|done|done|].
  assert (HL : length (M ++ [b]) = (64 * full + S (c_num c))%nat) by (rewrite length_app; cbn [length]; lia).
  assert (HMb : Forall byte (M ++ [b])) by (apply Forall_app; split; [done|by constructor]).
  assert (HX : length (take (full * 64) M) = (64 * full)%nat) by (rewrite length_take; lia).
  assert (EM : M = take (full * 64) M ++ drop (full * 64) M) by (by rewrite take_drop).
  rewrite (compress_ok _ full) in Es by (apply initial_ok || done || lia).
  assert (EX : chain f 64 full (initial_state di) M = chain f 64 full (initial_state di) (take (full * 64) M))
    by (rewrite EM at 1; by apply chain_app).
  change (c_num (put_byte b c)) with (S (c_num c)). destruct (Nat.eqb_spec (S (c_num c)) 64) as [E64|N64].
  - replace (length (M ++ [b]) / 64)%nat with (full + 1)%nat by (apply Nat.div_unique_exact; lia).
    replace (length (M ++ [b]) mod 64)%nat with 0%nat
      by (apply (Nat.mod_unique _ 64 (full + 1)); lia).
    cbn [c_state c_nbits c_num c_data].
    change (c_data (compress_data di (put_byte b c))) with (c_data (put_byte b c)).
    change (c_nbits (compress_data di (put_byte b c))) with (c_nbits c).
    split_and!; [| |done| |by rewrite B2|done].
    + rewrite (compress_ok _ (full + 1)) by (apply initial_ok || done || lia).
      assert (Ed : c_data (put_byte b c) = drop (full * 64) M ++ [b]).
      { rewrite <- Eb. unfold buffer in B1. rewrite <- B1. change (c_num (put_byte b c)) with (S (c_num c)).
        by rewrite take_ge by lia. }
      rewrite (compress_one (c_state c)); [|rewrite Es, EX; apply chain_ok; [apply initial_ok|lia|by apply Forall_take]
        |by rewrite B2|done|done].
      rewrite Ed, Es, EX. replace (M ++ [b]) with (take (full * 64) M ++ (drop (full * 64) M ++ [b]))
        by (by rewrite app_assoc, take_drop).
      rewrite chain_add by done. cbn [chain]. rewrite (take_ge (drop (full * 64) M ++ [b])); [done|]. rewrite length_app, length_drop. cbn [length]. lia.
    + rewrite En, wrap_add_l. f_equal. lia.
    + rewrite drop_ge by lia. done.
  - replace (length (M ++ [b]) / 64)%nat with full by (apply (Nat.div_unique _ 64 full (S (c_num c))); lia).
    replace (length (M ++ [b]) mod 64)%nat with (S (c_num c))
      by (apply (Nat.mod_unique _ 64 full); lia).
    split_and!; [|done|done| |by rewrite B2|done].
    + change (c_state (put_byte b c)) with (c_state c). rewrite Es, EX.
      rewrite (compress_ok _ full) by (apply initial_ok || done || lia).
      replace (M ++ [b]) with (take (full * 64) M ++ (drop (full * 64) M ++ [b]))
        by (by rewrite app_assoc, take_drop). by rewrite chain_app by done.
    + change (buffer (put_byte b c) = drop (full * 64) (M ++ [b])). rewrite B1. unfold buffer. rewrite Eb.
      by rewrite drop_app_le by lia.
Qed.

#[export] Instance byte_library_lawful : LawfulDigestLibrary.
Proof.
  split.
  - intros di (f & P & HD). unfold absorbed. rewrite block_64. cbn -[wrap]. split_and!; try done.
    + symmetry. rewrite (compress_ok _ 0) by (apply initial_ok || done || cbn; lia). done.
    + by rewrite block_64.
    + rewrite block_64. repeat (apply Forall_cons; split; [unfold byte; lia|]). constructor.
  - intros di c M bs (f & P & HD) HM Hbs. revert M c HM. induction Hbs as [|b bs Hb _ IH]; intros M c HM Ha.
    + by rewrite app_nil_r.
    + cbn [ccdigest_update byte_library fold_left]. replace (M ++ b :: bs) with ((M ++ [b]) ++ bs)
        by (by rewrite <- app_assoc).
      apply IH; [apply Forall_app; split; [done|by constructor]|]. by apply (absorb_byte_law (f := f) (P := P)).
  - done.
Qed.

(** C23. One-shot digests. With a library that keeps the contract of
    ccdigest_init and ccdigest_update, [panthera_digest] computes MD5 (RFC 1321),
    SHA-1 and SHA-256 (FIPS 180-4) of every message shorter than [2 ^ 61] bytes. *)
Theorem panthera_digest_standard `{LawfulDigestLibrary} (m_W M : list Z) :
  length m_W = 80%nat -> Forall byte M -> 8 * Z.of_nat (length M) < 2 ^ 64 ->
  panthera_digest pdcmd5_di M = MD5 M /\
  panthera_digest (ccsha1_ltc_di 20 64 m_W) M = SHA1 M /\
  panthera_digest (ccsha256_ltc_di 32 64) M = SHA256 M.
Proof.
  intros Hm HM HL. pose proof (sha1_digest 20 m_W Hm) as HD1. split_and!.
  - destruct (digest_run (di := pdcmd5_di) M HM) as [-> Ha].
    apply (final_64_hash (di := pdcmd5_di) le_encode length_le_encode le_encode_bytes M _ HM HL Ha).
  - destruct (digest_run (di := ccsha1_ltc_di 20 64 m_W) M HM) as [-> Ha].
    apply (final_64_hash (di := ccsha1_ltc_di 20 64 m_W) be_encode be_encode_length be_encode_bytes M _ HM HL Ha).
  - destruct (digest_run (di := ccsha256_ltc_di 32 64) M HM) as [-> Ha]. unfold SHA256.
    rewrite (proj1 initial_states).
    apply (final_64_hash (di := ccsha256_ltc_di 32 64) be_encode be_encode_length be_encode_bytes M _ HM HL Ha).
Qed.

Lemma panthera_digest_standard_witness :
  MD5 [0x61; 0x62; 0x63] =
    [0x90; 0x01; 0x50; 0x98; 0x3c; 0xd2; 0x4f; 0xb0; 0xd6; 0x96; 0x3f; 0x7d; 0x28; 0xe1; 0x7f; 0x72] /\
  SHA1 [0x61; 0x62; 0x63] =
    [0xa9; 0x99; 0x3e; 0x36; 0x47; 0x06; 0x81; 0x6a; 0xba; 0x3e; 0x25; 0x71; 0x78; 0x50; 0xc2; 0x6c;
     0x9c; 0xd0; 0xd8; 0x9d] /\
  SHA256 [0x61; 0x62; 0x63] =
    [0xba; 0x78; 0x16; 0xbf; 0x8f; 0x01; 0xcf; 0xea; 0x41; 0x41; 0x40; 0xde; 0x5d; 0xae; 0x22; 0x23;
     0xb0; 0x03; 0x61; 0xa3; 0x96; 0x17; 0x7a; 0x9c; 0xb4; 0x10; 0xff; 0x61; 0xf2; 0x00; 0x15; 0xad].
Proof.
  assert (Hb : Forall byte [0x61; 0x62; 0x63]) by (repeat constructor; vm_compute; discriminate).
  destruct (panthera_digest_standard (repeat 0 80) [0x61; 0x62; 0x63] eq_refl Hb ltac:(cbn; lia)) as (<- & <- & <-).
  split_and!; vm_compute; reflexivity.
Defined.

(** ** SHA-384 and SHA-512

    Their descriptors name the same finalisation, which pads to 64 bytes and
    stores a 64-bit length, although their blocks have 128 bytes. *)
Definition SHA512 (M : list Z) : list Z :=
  let n := length M in
  let P := M ++ 0x80 :: repeat 0 ((239 - n mod 128) mod 128) ++ be_encode 16 (8 * Z.of_nat n) in
  concat (map (be_encode 8) (chain Sha512_block 128 (length P / 128) (take 8 (root2_bits 64)) P)).

(** The blocks that such a finalisation compresses, for the rest [Y] of the message
    in the buffer [D]. The padding ends at byte 64; what follows in a block is what
    the buffer held there. *)
Definition half_padded (Y D : list Z) (nbits : Z) : list (list Z) :=
  let r := length Y in
  let len := be_encode 8 nbits in
  if decide (r < 56)%nat then [Y ++ 0x80 :: repeat 0 (55 - r) ++ len ++ drop 64 D]
  else
    let first := Y ++ 0x80 :: repeat 0 (63 - r) ++ drop (Nat.max 64 (S r)) D in
    [first; repeat 0 56 ++ len ++ drop 64 first].

Lemma pad_to_drop limit c n : (limit <= n)%nat -> drop n (c_data (pad_to limit c)) = drop n (c_data c).
Proof.
  intros Hn. unfold pad_to. assert (H : forall k, (k <= limit - c_num c)%nat ->
    c_num (Nat.iter k (put_byte 0) c) = (c_num c + k)%nat /\
    drop n (c_data (Nat.iter k (put_byte 0) c)) = drop n (c_data c)).
  { induction k as [|k IH]; intros Hk; [split; [cbn; lia|done]|]. destruct (IH ltac:(lia)) as [E1 E2].
    change (Nat.iter (S k) (put_byte 0) c) with (put_byte 0 (Nat.iter k (put_byte 0) c)).
    set (x := Nat.iter k (put_byte 0) c) in *. clearbody x.
    unfold put_byte. cbn [c_num c_data]. rewrite E1, drop_insert_lt by lia. split; [lia|exact E2]. }
  by destruct (H (limit - c_num c)%nat ltac:(lia)).
Qed.

(** Zeros up to byte 56 and the length after them. *)
Lemma pad_and_length c bs : length (c_data c) = 128%nat -> Forall byte (c_data c) -> (c_num c <= 56)%nat -> length bs = 8%nat ->
  store_at (64 - 8) bs (c_data (pad_to (64 - 8) c)) = buffer c ++ repeat 0 (56 - c_num c) ++ bs ++ drop 64 (c_data c).
Proof.
  intros Hl Hb Hn Hs. destruct (pad_to_buffer (64 - 8) c) as (E1 & E2 & _); [lia|done|]. unfold store_at.
  rewrite Hs, pad_to_drop by lia. unfold buffer at 1 in E2. rewrite E1 in E2. rewrite E2, <- app_assoc. done.
Qed.

Section HalfBlock.
Variable di : ccdigest_info.
Hypothesis block_128 : block_size di = 128%nat.

Lemma last_half c : length (c_data c) = 128%nat -> Forall byte (c_data c) -> (c_num c <= 56)%nat ->
  let c1 := pad_to (64 - 8) c in
  let c2 := mkCtx (c_state c1) (c_nbits c1) (store_at (64 - 8) (be_encode 8 (c_nbits c1)) (c_data c1)) (c_num c1) in
  c_state (compress_data di c2) =
  compress di (c_state c) 1 (buffer c ++ repeat 0 (56 - c_num c) ++ be_encode 8 (c_nbits c) ++ drop 64 (c_data c)).
Proof.
  intros Hl Hb Hn. cbv zeta. destruct (pad_to_buffer (64 - 8) c) as (_ & _ & _ & _ & E5 & E6); [lia|done|].
  rewrite <- (pad_and_length c) by (done || apply be_encode_length). rewrite <- E5, <- E6 at 1. by rewrite E6.
Qed.

(** The first of two blocks. *)
Lemma first_half Y D c : length D = 128%nat -> Forall byte D -> (56 <= length Y < 128)%nat -> buffer c = Y ++ [0x80] ->
  length (c_data c) = 128%nat -> Forall byte (c_data c) -> c_num c = S (length Y) ->
  (forall n, (S (length Y) <= n)%nat -> drop n (c_data c) = drop n D) ->
  let c' := pad_to 64 c in
  c_data c' = Y ++ 0x80 :: repeat 0 (63 - length Y) ++ drop (Nat.max 64 (S (length Y))) D /\
  c_state c' = c_state c /\ c_nbits c' = c_nbits c /\ length (c_data c') = 128%nat /\ Forall byte (c_data c').
Proof.
  intros HD HbD HY HB HL Hb HN Hd. cbv zeta. destruct (Nat.le_gt_cases (S (length Y)) 64).
  - destruct (pad_to_buffer 64 c) as (E1 & E2 & E3 & E4 & E5 & E6); [lia|done|].
    rewrite E3, E5, E6. split_and!; try done.
    rewrite <- (take_drop 64 (c_data (pad_to 64 c))), pad_to_drop, Hd by lia.
    unfold buffer at 1 in E2. rewrite E1 in E2. rewrite E2, HB, HN, <- !app_assoc. rewrite Nat.max_l by lia. done.
  - unfold pad_to. replace (64 - c_num c)%nat with 0%nat by lia. change (Nat.iter 0 (put_byte 0) c) with c. split_and!; try done.
    rewrite <- (take_drop (c_num c) (c_data c)). fold (buffer c). rewrite HB, HN, Hd, Nat.max_r by lia.
    replace (63 - length Y)%nat with 0%nat by lia. rewrite <- app_assoc. done.
Qed.

Lemma final_64_half M c : 8 * Z.of_nat (length M) < 2 ^ 64 -> absorbed di M c ->
  let Y := drop (length M / 128 * 128) M in
  final_64 be_encode di c = concat (map (fun i => be_encode 4 (elt
    (fold_left (fun s B => compress di s 1 B) (half_padded Y (c_data c) (8 * Z.of_nat (length M))) (c_state c)) i))
    (seq 0 (output_size di / 4))).
Proof.
  intros HL (_ & En & Er & Eb & El & Hb) Y. rewrite block_128 in *. fold Y in Eb.
  pose proof (Nat.div_mod_eq (length M) 128) as Hdm. pose proof (Nat.mod_upper_bound (length M) 128 ltac:(lia)) as Hr.
  rewrite <- Er in Hdm, Hr. assert (HY : length Y = c_num c) by (unfold Y; rewrite length_drop; lia).
  assert (Hbits : wrap 64 (c_nbits c + Z.of_nat (c_num c) * 8) = 8 * Z.of_nat (length M))
    by (rewrite En, wrap_add_l, wrap_small; lia).
  unfold final_64. cbv zeta. rewrite Hbits. generalize (8 * Z.of_nat (length M)). intros nb. clearbody Y.
  f_equal. apply map_ext. intros i. do 2 f_equal. clear i.
  destruct (put_byte_buffer 0x80 (mkCtx (c_state c) nb (c_data c) (c_num c))) as (B1 & B2 & B3);
    [cbn [c_num c_data]; lia|unfold byte; lia|done|].
  assert (D1 : forall n, (S (length Y) <= n)%nat -> drop n (c_data (put_byte 0x80 (mkCtx (c_state c) nb (c_data c) (c_num c)))) = drop n (c_data c))
    by (intros n Hn; cbn [put_byte c_data c_num]; by rewrite drop_insert_lt by lia).
  unfold buffer at 2 in B1. cbn [c_num c_data] in B1, B2. rewrite Eb in B1. rewrite El in B2.
  assert (N1 : c_num (put_byte 0x80 (mkCtx (c_state c) nb (c_data c) (c_num c))) = S (length Y)) by (by rewrite HY).
  assert (S1 : c_state (put_byte 0x80 (mkCtx (c_state c) nb (c_data c) (c_num c))) = c_state c) by done.
  assert (L1 : c_nbits (put_byte 0x80 (mkCtx (c_state c) nb (c_data c) (c_num c))) = nb) by done.
  revert B1 B2 B3 D1 N1 S1 L1. generalize (put_byte 0x80 (mkCtx (c_state c) nb (c_data c) (c_num c))). intros c1 B1 B2 B3 D1 N1 S1 L1.
  unfold half_padded. rewrite N1. case_decide as Hc.
  - rewrite (proj2 (Nat.ltb_ge _ _)) by lia. rewrite last_half by (done || lia). cbn [fold_left].
    rewrite B1, N1, S1, L1, D1, <- app_assoc by lia. cbn [app]. done.
  - rewrite (proj2 (Nat.ltb_lt _ _)) by lia.
    destruct (first_half Y (c_data c) c1) as (E1 & E2 & E3 & E4 & E5); [done|done|lia|done|done|done|done|done|].
    rewrite last_half; cbn [c_data c_num c_state c_nbits compress_data]; [|done|done|lia].
    cbn [fold_left]. unfold buffer. cbn [c_num c_data]. rewrite take_0, Nat.sub_0_r, E1, E2, E3, S1, L1. done.
Qed.

Lemma final_64_words f n M c : final di = pdcdigest_final_64be_fn -> compress di = f -> (output_size di / 4)%nat = n ->
  8 * Z.of_nat (length M) < 2 ^ 64 -> absorbed di M c ->
  run_final di c = concat (map (fun i => be_encode 4 (elt (fold_left (fun s B => f s 1%nat B)
    (half_padded (drop (length M / 128 * 128) M) (c_data c) (8 * Z.of_nat (length M))) (c_state c)) i)) (seq 0 n)).
Proof. intros Ef <- <- HL Ha. unfold run_final. rewrite Ef. by apply final_64_half. Qed.
End HalfBlock.

(** C25. What the finalisation named by the SHA-512 and SHA-384 descriptors computes,
    for every message and every context that took it in: their blocks have 128
    bytes, but the padding and the 64-bit length end at byte 64 of the block, and
    the bytes after it are whatever the buffer held, so they enter the digest. *)
Theorem sha512_final_half_block (M : list Z) (c : ccdigest_ctx) :
  let Y := drop (length M / 128 * 128) M in
  let state := fold_left (fun s B => sha512_compress_u32 s 1 B)
                 (half_padded Y (c_data c) (8 * Z.of_nat (length M))) (c_state c) in
  let words n := concat (map (fun i => be_encode 4 (elt state i)) (seq 0 n)) in
  8 * Z.of_nat (length M) < 2 ^ 64 ->
  (absorbed (ccsha512_ltc_di 64 128) M c -> run_final (ccsha512_ltc_di 64 128) c = words 16%nat) /\
  (absorbed (ccsha384_ltc_di 48 128) M c -> run_final (ccsha384_ltc_di 48 128) c = words 12%nat).
Proof.
  intros Y state words HL. split; intros Ha.
  - apply (final_64_words (ccsha512_ltc_di 64 128) eq_refl sha512_compress_u32 16); done.
  - apply (final_64_words (ccsha384_ltc_di 48 128) eq_refl sha512_compress_u32 12); done.
Qed.

(** Two contexts that took in the same message, with different bytes behind it. *)
Definition stale_ctx (b : Z) : ccdigest_ctx :=
  mkCtx (u32_of_u64 pdcsha512_initial_state) 0 (repeat 0 100 ++ repeat b 28) 0.

Lemma stale_absorbed b : byte b -> absorbed (ccsha512_ltc_di 64 128) [] (stale_ctx b).
Proof.
  intros Hb. unfold absorbed. split_and!; try reflexivity; try (vm_compute; reflexivity).
  cbn [stale_ctx c_data]. apply Forall_app. split; [apply zeros_bytes|]. generalize 28%nat. intros k. induction k; cbn; by constructor.
Qed.

Lemma sha512_final_half_block_witness :
  run_final (ccsha512_ltc_di 64 128) (stale_ctx 0) <> run_final (ccsha512_ltc_di 64 128) (stale_ctx 1).
Proof.
  destruct (sha512_final_half_block [] (stale_ctx 0) eq_refl) as [E0 _].
  destruct (sha512_final_half_block [] (stale_ctx 1) eq_refl) as [E1 _].
  rewrite E0, E1 by (apply stale_absorbed; unfold byte; lia). vm_compute. discriminate.
Defined.

Lemma sha512_code M P : P = M ++ 0x80 :: repeat 0 ((239 - length M mod 128) mod 128) ++ be_encode 16 (8 * Z.of_nat (length M)) ->
  Forall byte P -> (128 * (length P / 128) <= length P)%nat ->
  SHA512 M = concat (map (be_encode 8) (pdcsha512_compress pdcsha512_initial_state (length P / 128) P)).
Proof.
  intros -> Hb Hl. unfold SHA512. cbv zeta. rewrite (proj1 (proj2 initial_states)). do 2 f_equal. symmetry.
  by apply (blocks_loop_chain (fun s => length s = 8%nat)); [apply sha512_block| | |].
Qed.

(** And the digest is not SHA-512 even when the buffer was zero. *)
Lemma sha512_digest_wrong : panthera_digest (ccsha512_ltc_di 64 128) [] <> SHA512 [].
Proof.
  erewrite sha512_code; [|reflexivity| |].
  - vm_compute. discriminate.
  - apply Forall_cons. split; [unfold byte; lia|]. apply Forall_app. split; [|apply be_encode_bytes].
    apply zeros_bytes.
  - vm_compute. lia.
Qed.
