(* ===== verification/Random.v ===== *)
(** * Random numbers of the cryptographic provider: kexts/corecrypto/src/panthera_corecrypto.c

    The generator for kernel memory (splitmix64), the bulk generators over the
    kernel's entropy source and the bounded draw. The entropy source itself
    (read_frandom, early_random) is the kernel's: a class with its contract. *)

From Stdlib Require Import ZArith Lia.
From stdpp Require Import base list.
From S2P Require Import Prelude Words.

Open Scope Z_scope.

(** ** The entropy source *)
Class Entropy (G : Type) := {
  read_frandom : Z -> G -> list Z * G;
  early_random : G -> Z * G }.

Class LawfulEntropy (G : Type) `{Entropy G} : Prop := {
  read_length : forall n g, 0 <= n < 2 ^ 32 -> length (read_frandom n g).1 = Z.to_nat n;
  read_bytes : forall n g, Forall byte (read_frandom n g).1;
  early_range : forall g, 0 <= (early_random g).1 < 2 ^ 64 }.

(** ** splitmix64 *)
Definition gamma : Z := 0x9e3779b97f4a7c15.

Definition panthera_splitmix64_next (state : Z) : Z * Z :=
  let state := state +64 gamma in
  let z := state in
  let z := (z ⊕ Z.shiftr z 30) *64 0xbf58476d1ce4e5b9 in
  let z := (z ⊕ Z.shiftr z 27) *64 0x94d049bb133111eb in
  (z ⊕ Z.shiftr z 31, state).

(** ** Bulk generators *)
Definition UINT_MAX : Z := 2 ^ 32 - 1.
Definition UINT64_MAX : Z := 2 ^ 64 - 1.

Section Generators.
Context {G : Type} `{Entropy G}.

(** One round of the loop: output so far, bytes to go, source. *)
Definition generate_step (s : list Z * Z * G) : (list Z * Z * G) + (list Z * G) :=
  let '(out, size, g) := s in
  if 0 <? size then
    let chunk := if UINT_MAX <? size then UINT_MAX else size in
    let '(bs, g) := read_frandom chunk g in
    inl (out ++ bs, size - chunk, g)
  else inr (out, g).

Definition panthera_random_generate (random_size : Z) (g : G) : list Z * G :=
  while rounds64 ([], g) generate_step ([], random_size, g).

Definition panthera_ccrng_generate (outlen : Z) (g : G) : Z * (list Z * G) :=
  (0, while rounds64 ([], g) generate_step ([], outlen, g)).

(** The bounded draw, given up after [tries] rejected draws. *)
Fixpoint uniform_loop (tries : nat) (limit bound : Z) (g : G) : option (Z * G) :=
  match tries with
  | O => None
  | S n =>
      let '(bs, g) := panthera_random_generate 8 g in
      let random := le_decode bs in
      if limit <=? random then uniform_loop n limit bound g else Some (random mod bound, g)
  end.

Definition panthera_random_uniform (tries : nat) (bound : Z) (g : G) : option (Z * G) :=
  if bound =? 0 then Some (0, g)
  else uniform_loop tries (UINT64_MAX - UINT64_MAX mod bound) bound g.

(** ** The generator for kernel memory *)
Definition panthera_random_kmem_ctx_size : Z := 8.

Definition panthera_random_kmem_init (ctx : option Z) (g : G) : option Z * G :=
  match ctx with
  | None => (None, g)
  | Some _ =>
      let '(bs, g) := read_frandom 8 g in
      let state := le_decode bs in
      if state =? 0 then let '(v, g) := early_random g in (Some v, g) else (Some state, g)
  end.

Definition kmem_step (s : list Z * Z * Z) : (list Z * Z * Z) + (list Z * Z) :=
  let '(out, size, state) := s in
  if 0 <? size then
    let '(value, state) := panthera_splitmix64_next state in
    let chunk := if size <? 8 then size else 8 in
    inl (out ++ take (Z.to_nat chunk) (le_encode 8 value), size - chunk, state)
  else inr (out, state).

Definition panthera_random_kmem_generate (ctx : option Z) (random_size : Z) (g : G)
  : list Z * option Z * G :=
  match ctx with
  | None => let '(bs, g) := panthera_random_generate random_size g in (bs, None, g)
  | Some state =>
      let '(bs, state) := while rounds64 ([], state) kmem_step ([], random_size, state) in
      (bs, Some state, g)
  end.
End Generators.

(** ** splitmix64 visits every output once

    Each step of the mixing function has an inverse. *)
Definition unshift (k y : Z) : Z := y ⊕ Z.shiftr y k ⊕ Z.shiftr y (2 * k).
Definition unmix (x : Z) : Z :=
  let z := unshift 31 x in
  let z := unshift 27 (z *64 0x319642b2d24d8ec3) in
  unshift 30 (z *64 0x96de1b173f119089).

Lemma unshift_spec k z : 22 <= k -> 0 <= z < 2 ^ 64 -> unshift k (z ⊕ Z.shiftr z k) = z.
Proof.
  intros Hk Hz. assert (E : Z.shiftr z (3 * k) = 0).
  { rewrite Z.shiftr_div_pow2 by lia. apply Z.div_small. split; [lia|].
    apply Z.lt_le_trans with (2 ^ 64); [lia|]. apply Z.pow_le_mono_r; lia. }
  unfold unshift. rewrite !Z.shiftr_lxor, !Z.shiftr_shiftr by lia.
  replace (k + 2 * k) with (3 * k) by lia. replace (2 * k) with (k + k) by lia.
  rewrite E, Z.lxor_0_r. xor_tac.
Qed.

Lemma lxor_range a b : 0 <= a < 2 ^ 64 -> 0 <= b < 2 ^ 64 -> 0 <= a ⊕ b < 2 ^ 64.
Proof.
  intros Ha Hb. rewrite <- (Z.mod_small a (2 ^ 64)), <- (Z.mod_small b (2 ^ 64)) by lia.
  rewrite <- !Z.land_ones by lia. replace (Z.land a (Z.ones 64) ⊕ Z.land b (Z.ones 64)) with (Z.land (a ⊕ b) (Z.ones 64))
    by (apply Z.bits_inj; intros i; rewrite !Z.land_spec, !Z.lxor_spec, !Z.land_spec; destruct (Z.testbit (Z.ones 64) i);
        by rewrite ?andb_true_r, ?andb_false_r).
  rewrite Z.land_ones by lia. apply Z.mod_pos_bound. lia.
Qed.

Lemma mix_range k z : 0 <= k -> 0 <= z < 2 ^ 64 -> 0 <= z ⊕ Z.shiftr z k < 2 ^ 64.
Proof.
  intros Hk Hz. apply lxor_range; [done|]. rewrite Z.shiftr_div_pow2 by lia.
  pose proof (Z.pow_pos_nonneg 2 k ltac:(lia) Hk). split; [apply Z.div_pos; lia|].
  apply Z.le_lt_trans with z; [|lia]. apply Z.div_le_upper_bound; nia.
Qed.

Lemma mul_inverse z c d : 0 <= z < 2 ^ 64 -> wrap 64 (c * d) = 1 -> (z *64 c) *64 d = z.
Proof.
  intros Hz E. unfold wrap in *. rewrite Zmult_mod_idemp_l, <- Z.mul_assoc, <- Zmult_mod_idemp_r, E, Z.mul_1_r.
  by apply Z.mod_small.
Qed.

Lemma unmix_next state : unmix (panthera_splitmix64_next state).1 = state +64 gamma.
Proof.
  unfold panthera_splitmix64_next, unmix. cbn [fst].
  pose proof (wrap_64_range (state + gamma)) as H0. set (s := state +64 gamma) in *.
  pose proof (mix_range 30 s ltac:(lia) H0) as H1.
  set (z1 := (s ⊕ Z.shiftr s 30) *64 _). pose proof (wrap_64_range ((s ⊕ Z.shiftr s 30) * 0xbf58476d1ce4e5b9)) as H2.
  fold z1 in H2. pose proof (mix_range 27 z1 ltac:(lia) H2) as H3.
  set (z2 := (z1 ⊕ Z.shiftr z1 27) *64 _). pose proof (wrap_64_range ((z1 ⊕ Z.shiftr z1 27) * 0x94d049bb133111eb)) as H4.
  fold z2 in H4. rewrite (unshift_spec 31) by (done || lia). unfold z2.
  rewrite mul_inverse by (done || vm_compute; reflexivity). rewrite (unshift_spec 27) by (done || lia). unfold z1.
  rewrite mul_inverse by (done || vm_compute; reflexivity). by rewrite (unshift_spec 30) by (done || lia).
Qed.

(** The [i]-th output after [state]. *)
Definition output (state : Z) (i : nat) : Z :=
  (panthera_splitmix64_next (wrap 64 (state + Z.of_nat i * gamma))).1.

Lemma output_inj state i j : Z.of_nat i < 2 ^ 64 -> Z.of_nat j < 2 ^ 64 -> output state i = output state j -> i = j.
Proof.
  intros Hi Hj E. apply (f_equal unmix) in E. unfold output in E. rewrite !unmix_next in E.
  assert (E' : forall n, wrap 64 ((wrap 64 (wrap 64 (state + Z.of_nat n * gamma) + gamma) - (state + gamma)) * 0xf1de83e19937733d) = wrap 64 (Z.of_nat n)).
  { intros n. rewrite wrap_add_l. unfold wrap. rewrite <- Zmult_mod_idemp_l, Zminus_mod_idemp_l, Zmult_mod_idemp_l.
    replace (state + Z.of_nat n * gamma + gamma - (state + gamma)) with (Z.of_nat n * gamma) by lia.
    rewrite <- Z.mul_assoc, <- Zmult_mod_idemp_r. replace ((gamma * 0xf1de83e19937733d) mod 2 ^ 64) with 1 by (vm_compute; reflexivity).
    by rewrite Z.mul_1_r. }
  pose proof (E' i) as Ei. rewrite E, E' in Ei. rewrite !wrap_small in Ei by lia. lia.
Qed.

Lemma NoDup_outputs state n : Z.of_nat n <= 2 ^ 64 -> NoDup (map (output state) (seq 0 n)).
Proof.
  intros Hn. apply NoDup_fmap_2_strong; [|apply NoDup_seq].
  intros i j Hi Hj. apply elem_of_seq in Hi, Hj. apply output_inj; lia.
Qed.

(** ** Filling a buffer *)
Definition stream_bytes (state : Z) (k : nat) : list Z := concat (map (fun i => le_encode 8 (output state i)) (seq 0 k)).

Lemma length_stream_bytes state k : length (stream_bytes state k) = (8 * k)%nat.
Proof.
  unfold stream_bytes. induction k as [|k IH]; [done|]. rewrite seq_S, map_app, concat_app, length_app, IH.
  cbn [map concat]. rewrite length_app, length_le_encode. cbn [length]. lia.
Qed.

Lemma stream_bytes_S state k : stream_bytes state (S k) = stream_bytes state k ++ le_encode 8 (output state k).
Proof.
  unfold stream_bytes. rewrite seq_S, map_app, concat_app. cbn [map concat Nat.add]. by rewrite app_nil_r.
Qed.

Lemma kmem_loop state size : 0 <= state < 2 ^ 64 -> 0 <= size < 2 ^ 64 ->
  exists k, 8 * Z.of_nat k < size + 8 /\ size <= 8 * Z.of_nat k /\
  while rounds64 ([], state) kmem_step ([], size, state) =
    (take (Z.to_nat size) (stream_bytes state k), wrap 64 (state + Z.of_nat k * gamma)).
Proof.
  intros Hs Hz.
  set (I := fun s : list Z * Z * Z => exists k, 8 * Z.of_nat k < size + 8 /\
    s = (take (Z.to_nat size) (stream_bytes state k), Z.max 0 (size - 8 * Z.of_nat k),
         wrap 64 (state + Z.of_nat k * gamma))).
  apply (while_rule kmem_step I (fun s => s.1.2) (fun r => exists k, 8 * Z.of_nat k < size + 8 /\
    size <= 8 * Z.of_nat k /\ r = (take (Z.to_nat size) (stream_bytes state k), wrap 64 (state + Z.of_nat k * gamma)))).
  - intros s (k & Hk & ->). cbn [kmem_step]. destruct (Z.ltb_spec 0 (Z.max 0 (size - 8 * Z.of_nat k))) as [Hl|Hl].
    + destruct (panthera_splitmix64_next _) as [v st'] eqn:E.
      assert (Ev : v = output state k) by (unfold output; by rewrite E).
      assert (Es : st' = wrap 64 (state + Z.of_nat (S k) * gamma)).
      { replace st' with (panthera_splitmix64_next (wrap 64 (state + Z.of_nat k * gamma))).2 by (by rewrite E).
        unfold panthera_splitmix64_next. cbn [snd]. rewrite wrap_add_l. f_equal. lia. }
      assert (Hmax : Z.max 0 (size - 8 * Z.of_nat k) = size - 8 * Z.of_nat k) by lia. rewrite Hmax.
      set (chunk := if size - 8 * Z.of_nat k <? 8 then size - 8 * Z.of_nat k else 8).
      assert (Hc : chunk = Z.min 8 (size - 8 * Z.of_nat k)) by (unfold chunk; destruct (Z.ltb_spec (size - 8 * Z.of_nat k) 8); lia).
      rewrite Hc. split; [|cbn [fst snd]; lia]. exists (S k). split; [lia|]. rewrite Es, Ev. f_equal. f_equal; [|lia].
      rewrite stream_bytes_S, take_app, (take_ge (stream_bytes state k)), length_stream_bytes by (rewrite length_stream_bytes; lia).
      f_equal. destruct (decide (size - 8 * Z.of_nat k < 8)).
      * f_equal. lia.
      * rewrite !take_ge by (rewrite length_le_encode; lia). done.
    + exists k. split_and!; [lia|lia|done].
  - exists 0%nat. rewrite Z.mul_0_l, Z.add_0_r, wrap_small by done. split; [lia|].
    change (stream_bytes state 0) with (@nil Z). rewrite take_nil. f_equal. f_equal. lia.
  - intros s' (k & _ & ->). cbn. lia.
  - cbn [fst snd]. unfold rounds64. lia.
Qed.

(** The generator for kernel memory fills a buffer of any size with the
    little-endian outputs of splitmix64, the last one cut to fit, leaves the state
    after as many steps, and no 64-bit output occurs twice in a request. *)
Theorem kmem_generate_stream {G} `{Entropy G} (state size : Z) (g : G) :
  0 <= state < 2 ^ 64 -> 0 <= size < 2 ^ 64 ->
  exists k, 8 * (Z.of_nat k - 1) < size <= 8 * Z.of_nat k /\
  panthera_random_kmem_generate (Some state) size g =
    (take (Z.to_nat size) (stream_bytes state k), Some (wrap 64 (state + Z.of_nat k * gamma)), g) /\
  NoDup (map (output state) (seq 0 k)).
Proof.
  intros Hs Hz. destruct (kmem_loop state size Hs Hz) as (k & H1 & H2 & E). exists k.
  split; [lia|]. split; [unfold panthera_random_kmem_generate; by rewrite E|]. apply NoDup_outputs. lia.
Qed.

(** A source of zeros. *)
#[export] Instance zero_entropy : Entropy unit := {|
  read_frandom n g := (repeat 0 (Z.to_nat n), g);
  early_random g := (1, g) |}.

#[export] Instance zero_lawful : LawfulEntropy unit.
Proof.
  split; cbn.
  - intros n g _. apply repeat_length.
  - intros n g. apply zeros_bytes.
  - intros g. lia.
Qed.

(** The first output of the seed zero is the published one. *)
Lemma kmem_generate_stream_witness : exists k st,
  panthera_random_kmem_generate (Some 0) 12 tt = (take 12 (stream_bytes 0 k), st, tt) /\ k = 2%nat /\
  take 8 (stream_bytes 0 k) = le_encode 8 0xe220a8397b1dcdaf.
Proof.
  destruct (kmem_generate_stream 0 12 tt ltac:(lia) ltac:(lia)) as (k & Hk & E & _).
  assert (k = 2%nat) as -> by lia. eexists _, _. split; [exact E|]. split; [reflexivity|]. vm_compute. reflexivity.
Defined.

(** ** The bulk generators *)
Section Bulk.
Context {G : Type} `{LawfulEntropy G}.

Lemma generate_total size g : 0 <= size < 2 ^ 64 ->
  let '(out, _) := while rounds64 ([], g) generate_step ([], size, g) in
  length out = Z.to_nat size /\ Forall byte out.
Proof.
  intros Hz.
  apply (while_rule generate_step (fun s => 0 <= s.1.2 /\ Z.of_nat (length s.1.1) + s.1.2 = size /\ Forall byte s.1.1)
    (fun s => s.1.2) (fun r => let '(out, _) := r in length out = Z.to_nat size /\ Forall byte out)).
  - intros [[out k] g'] (Hk & Hl & Hb). cbn [fst snd] in *. cbn [generate_step].
    destruct (Z.ltb_spec 0 k) as [H1|H1]; [|split; [lia|done]].
    set (chunk := if UINT_MAX <? k then UINT_MAX else k).
    assert (Hc : 0 < chunk < 2 ^ 32 /\ chunk <= k).
    { unfold chunk, UINT_MAX. destruct (Z.ltb_spec (2 ^ 32 - 1) k); lia. }
    pose proof (read_length chunk g' ltac:(lia)) as Hr. pose proof (read_bytes chunk g') as Hrb.
    destruct (read_frandom chunk g') as [bs g'']. cbn [fst snd] in *.
    split; [|lia]. rewrite length_app. split_and!; [lia|lia|]. by apply Forall_app.
  - cbn [fst snd length]. split_and!; [lia|lia|constructor].
  - intros s' [Hs _]. exact Hs.
  - cbn [fst snd]. unfold rounds64. lia.
Qed.

Lemma draw_range g : 0 <= le_decode (panthera_random_generate 8 g).1 < 2 ^ 64.
Proof.
  pose proof (generate_total 8 g ltac:(lia)) as Ht. unfold panthera_random_generate.
  destruct (while _ _ _ _) as [out g']. destruct Ht as [Hl Hb]. cbn [fst].
  pose proof (le_decode_range out Hb) as Hr. rewrite Hl in Hr. exact Hr.
Qed.

#[local] Opaque panthera_random_generate.

(** The [k]-th 64-bit draw and the source after it. *)
Definition after (k : nat) (g : G) : G := Nat.iter k (fun g => (panthera_random_generate 8 g).2) g.
Definition draw (g : G) (k : nat) : Z := le_decode (panthera_random_generate 8 (after k g)).1.

Lemma after_S k g : after (S k) g = after k (panthera_random_generate 8 g).2.
Proof. apply (Nat.iter_succ_r k (fun g => (panthera_random_generate 8 g).2)). Qed.

Lemma draw_S k g : draw g (S k) = draw (panthera_random_generate 8 g).2 k.
Proof. unfold draw. rewrite after_S. reflexivity. Qed.

Lemma uniform_loop_spec tries limit bound g :
  match uniform_loop tries limit bound g with
  | Some (x, g') => exists k, (k < tries)%nat /\ (forall j, (j < k)%nat -> limit <= draw g j) /\
      draw g k < limit /\ x = draw g k mod bound /\ g' = after (S k) g
  | None => forall j, (j < tries)%nat -> limit <= draw g j
  end.
Proof.
  revert g. induction tries as [|n IH]; intros g; cbn [uniform_loop]; [lia|].
  specialize (IH (panthera_random_generate 8 g).2).
  assert (E0 : draw g 0 = le_decode (panthera_random_generate 8 g).1) by done.
  assert (ES : forall j, draw g (S j) = draw (panthera_random_generate 8 g).2 j) by (intros; apply draw_S).
  assert (EA : forall j, after (S j) g = after j (panthera_random_generate 8 g).2) by (intros; apply after_S).
  destruct (panthera_random_generate 8 g) as [bs g1]. cbn [fst snd] in *. rewrite <- E0.
  destruct (Z.leb_spec limit (draw g 0)) as [Hle|Hlt].
  - destruct (uniform_loop n limit bound g1) as [[x g']|].
    + destruct IH as (k & Hk & Hb & Hd & -> & ->). exists (S k). rewrite ES, EA. split_and!; try done; [lia|].
      intros [|j] Hj; [done|]. rewrite ES. apply Hb. lia.
    + intros [|j] Hj; [done|]. rewrite ES. apply IH. lia.
  - exists 0%nat. split_and!; try done; lia.
Qed.
End Bulk.

(** C24. The bounded draw is unbiased: the rejection limit is the multiple of the
    bound in the upper half of the 64-bit range, every residue comes from equally
    many accepted draws, and the function returns the residue of the first accepted
    draw; it keeps drawing exactly as long as draws are rejected. *)
Theorem random_uniform_unbiased {G} `{LawfulEntropy G} (tries : nat) (bound : Z) (g : G) :
  0 < bound < 2 ^ 64 ->
  let limit := UINT64_MAX - UINT64_MAX mod bound in
  (2 ^ 63 <= limit < 2 ^ 64 /\ limit = bound * (limit / bound)) /\
  (forall r v, 0 <= r < bound ->
    (0 <= v < limit /\ v mod bound = r) <-> (exists q, 0 <= q < limit / bound /\ v = q * bound + r)) /\
  match panthera_random_uniform tries bound g with
  | Some (x, g') => 0 <= x < bound /\
      exists k, (k < tries)%nat /\ (forall j, (j < k)%nat -> limit <= draw g j) /\
        0 <= draw g k < limit /\ x = draw g k mod bound /\ g' = after (S k) g
  | None => forall j, (j < tries)%nat -> limit <= draw g j
  end.
Proof.
  intros Hb limit. unfold UINT64_MAX in limit.
  pose proof (Z.mod_pos_bound (2 ^ 64 - 1) bound ltac:(lia)) as Hm.
  pose proof (Z.div_mod (2 ^ 64 - 1) bound ltac:(lia)) as Hd.
  assert (El : limit = bound * ((2 ^ 64 - 1) / bound)) by (unfold limit; lia).
  assert (Eq : limit / bound = (2 ^ 64 - 1) / bound) by (rewrite El, Z.mul_comm; apply Z.div_mul; lia).
  assert (Hq : 1 <= (2 ^ 64 - 1) / bound) by (apply Z.div_le_lower_bound; lia).
  split; [|split].
  - split; [|by rewrite Eq]. unfold limit in *. nia.
  - intros r v Hr. rewrite Eq. split.
    + intros [Hv Ev]. exists (v / bound). pose proof (Z.div_mod v bound ltac:(lia)). split; [|lia].
      split; [apply Z.div_pos; lia|]. apply Z.div_lt_upper_bound; lia.
    + intros (q & Hq' & ->). rewrite Z.add_comm, Z_mod_plus_full, Z.mod_small by lia. split; [nia|done].
  - unfold panthera_random_uniform. rewrite (proj2 (Z.eqb_neq bound 0)) by lia. fold limit.
    pose proof (uniform_loop_spec tries limit bound g) as Hs. fold UINT64_MAX in limit.
    change (UINT64_MAX - UINT64_MAX mod bound) with limit.
    destruct (uniform_loop tries limit bound g) as [[x g']|]; [|done].
    destruct Hs as (k & Hk & Hbef & Hdr & -> & ->). split; [apply Z.mod_pos_bound; lia|].
    exists k. pose proof (draw_range (after k g)). split_and!; try done. unfold draw. lia.
Qed.

Lemma random_uniform_unbiased_witness :
  exists x, panthera_random_uniform 1 10 tt = Some (x, tt) /\ 0 <= x < 10.
Proof.
  pose proof (random_uniform_unbiased 1 10 tt ltac:(lia)) as (_ & _ & Hr).
  replace (panthera_random_uniform 1 10 tt) with (Some (0, tt)) in * by (vm_compute; reflexivity).
  exists 0. split; [reflexivity|exact (proj1 Hr)].
Defined.
