(* ===== verification/Runs.v ===== *)
(** * Runs of loops, and machine words in memory

    Shared by the models of the dynamic linker (userland/dyld) and of the shared
    cache builder (tools): a way to evaluate a [while] loop round by round, reads
    and writes of several fields, and finite loops over array elements. *)

From Stdlib Require Import ZArith Lia.
From stdpp Require Import base list gmap.
From S2P Require Import Prelude Words.

Open Scope Z_scope.

(** ** Rounds of a loop *)
Section Runs.
Context {S R : Type}.
Variable f : S -> S + R.

(** At most [k] rounds from [s]. *)
Fixpoint runs (k : nat) (s : S) : S + R :=
  match k with
  | O => inl s
  | Datatypes.S k => match f s with inl s' => runs k s' | inr r => inr r end
  end.

Lemma runs_add j k s : runs (j + k) s = match runs j s with inl s' => runs k s' | inr r => inr r end.
Proof. revert s. induction j as [|j IH]; intros s; cbn [runs Nat.add]; [done|]. destruct (f s); [apply IH|done]. Qed.

Lemma loop_runs p s : loop p f s = runs (Pos.to_nat p) s.
Proof.
  revert s. induction p as [q IH|q IH|]; intros s; cbn [loop].
  - rewrite Pos2Nat.inj_xI. cbn [runs]. destruct (f s) as [s'|r]; [|done].
    replace (2 * Pos.to_nat q)%nat with (Pos.to_nat q + Pos.to_nat q)%nat by lia.
    rewrite runs_add, IH. destruct (runs (Pos.to_nat q) s'); [apply IH|done].
  - rewrite Pos2Nat.inj_xO. replace (2 * Pos.to_nat q)%nat with (Pos.to_nat q + Pos.to_nat q)%nat by lia.
    rewrite runs_add, IH. destruct (runs (Pos.to_nat q) s); [apply IH|done].
  - change (Pos.to_nat 1) with 1%nat. cbn [runs]. by destruct (f s).
Qed.

(** A loop that leaves within its rounds. *)
Lemma while_runs p dflt k s r : runs k s = inr r -> Z.of_nat k <= Zpos p -> while p dflt f s = r.
Proof.
  intros E H. unfold while. rewrite loop_runs.
  replace (Pos.to_nat p) with (k + (Pos.to_nat p - k))%nat by lia. by rewrite runs_add, E.
Qed.

(** An invariant of the loop, whatever the number of rounds. *)
Lemma while_inv (I : S -> Prop) (Q : R -> Prop) p dflt s : I s -> Q dflt ->
  (forall s, I s -> match f s with inl s' => I s' | inr r => Q r end) -> Q (while p dflt f s).
Proof.
  intros Hs Hd Hstep. unfold while. rewrite loop_runs. revert s Hs. induction (Pos.to_nat p) as [|k IH]; intros s Hs; cbn [runs]; [done|].
  specialize (Hstep s Hs). destruct (f s); [by apply IH|done].
Qed.
End Runs.

(** ** Memory *)
Lemma mget_mread m a n i : mem_wf m -> (i < n)%nat ->
  mget m (a + Z.of_nat i) = (mread m a n / 256 ^ Z.of_nat i) mod 256.
Proof.
  intros Hw. revert a i. induction n as [|n IH]; intros a i Hi; [lia|]. cbn [mread].
  pose proof (Hw a) as Ha. destruct i as [|i].
  - rewrite Z.add_0_r, Z.pow_0_r, Z.div_1_r. rewrite (Z.mul_comm 256), Z_mod_plus_full. by rewrite Z.mod_small by lia.
  - replace (a + Z.of_nat (S i)) with (a + 1 + Z.of_nat i) by lia. rewrite IH by lia.
    replace (Z.of_nat (S i)) with (1 + Z.of_nat i) by lia.
    rewrite Z.pow_add_r, Z.pow_1_r by lia. rewrite <- Z.div_div by (try apply Z.pow_pos_nonneg; lia).
    rewrite (Z.mul_comm 256 (mread _ _ _)), Z.div_add, (Z.div_small (mget m a)), Z.add_0_l by lia. done.
Qed.

Lemma mread_shift m m' a b n : (forall i, (i < n)%nat -> mget m (a + Z.of_nat i) = mget m' (b + Z.of_nat i)) ->
  mread m a n = mread m' b n.
Proof.
  revert a b. induction n as [|n IH]; intros a b H; cbn [mread]; [done|]. f_equal.
  - specialize (H 0%nat). rewrite !Z.add_0_r in H. apply H. lia.
  - f_equal. apply IH. intros i Hi. replace (a + 1 + Z.of_nat i) with (a + Z.of_nat (S i)) by lia.
    replace (b + 1 + Z.of_nat i) with (b + Z.of_nat (S i)) by lia. apply H. lia.
Qed.

Lemma mbytes_get m a n i : (i < n)%nat -> mbytes m a n !! i = Some (mget m (a + Z.of_nat i)).
Proof.
  revert a i. induction n as [|n IH]; intros a i Hi; [lia|]. cbn [mbytes]. destruct i as [|i]; cbn [lookup list_lookup].
  - by rewrite Z.add_0_r.
  - change (mbytes m (a + 1) n !! i = Some (mget m (a + Z.of_nat (S i)))).
    rewrite IH by lia. do 2 f_equal. lia.
Qed.

(** Equal regions read the same. *)
Lemma mbytes_relocate m m' a b n : mbytes m a n = mbytes m' b n <->
  (forall i, 0 <= i < Z.of_nat n -> mget m (a + i) = mget m' (b + i)).
Proof.
  split.
  - intros E i Hi. assert (H : mbytes m a n !! Z.to_nat i = mbytes m' b n !! Z.to_nat i) by (by rewrite E).
    rewrite !mbytes_get in H by lia. rewrite !Z2Nat.id in H by lia. congruence.
  - intros H. apply list_eq. intros i. destruct (decide (i < n)%nat) as [Hi|Hi].
    + rewrite !mbytes_get by done. f_equal. apply H. lia.
    + rewrite !lookup_ge_None_2 by (rewrite length_mbytes; lia). done.
Qed.

Lemma mread_region m m' a b n c k : mbytes m a n = mbytes m' b n -> 0 <= c -> c + Z.of_nat k <= Z.of_nat n ->
  mread m (a + c) k = mread m' (b + c) k.
Proof.
  rewrite mbytes_relocate. intros H Hc Hk. apply mread_shift. intros i Hi. rewrite <- !Z.add_assoc. apply H. lia.
Qed.

(** An evaluated result. *)
Lemma is_Some_bool {A} (o : option A) : (if o then true else false) = true -> is_Some o.
Proof. destruct o; [by eexists|done]. Qed.
