(* ===== verification/SlideInfo.v ===== *)
(** * Slide info: tools/build_shared_cache_real.c and userland/dyld/panthera_dyld.cpp

    The shared cache builder records which words of the DATA region are pointers
    and [generate_slide_info_v2] turns each page's pointers into a chain; dyld's
    [applySlidInfoV2] walks the chains and restores the pointers with the slide
    added. The builder's buffer is a byte memory addressed by file offset. *)

From Stdlib Require Import ZArith Lia Sorted.
From stdpp Require Import base list gmap sorting.
From S2P Require Import Prelude Words Runs.

Open Scope Z_scope.

(** ** The loader: applySlidInfoV2 *)
Definition SLIDE_PAGE_NO_REBASE : Z := 0x4000.
Definition SLIDE_PAGE_EXTRA : Z := 0x8000.
Definition SLIDE_PAGE_END : Z := 0x8000.
Definition SLIDE_PAGE_VALUE : Z := 0x3FFF.
Definition SLIDE_PAGE_OFFSET_SHIFT : Z := 2.

(** The number of rounds of [while (m && !(m & 1)) { deltaShift++; m >>= 1; }]. *)
Fixpoint trailing_zeros (n : nat) (m : Z) : Z :=
  match n with
  | O => 0
  | S n => if (m =? 0) || Z.odd m then 0 else 1 + trailing_zeros n (Z.shiftr m 1)
  end.

(** One chain of pointers in a page. A negative shift count, which C leaves
    undefined, and a chain that does not end are [None]. *)
Definition chain_step (deltaMask deltaShift valueAdd slide pageBase : Z) (s : mem * Z) : (mem * Z) + option mem :=
  let '(m, pageOffset) := s in
  let valueMask := Z.lxor deltaMask (Z.ones 64) in
  let loc := pageBase +64 pageOffset in
  let rawValue := mread m loc 8 in
  if deltaShift <? 0 then inr None
  else
    let delta := wrap 32 (Z.shiftr (Z.land rawValue deltaMask) deltaShift) in
    let newValue := Z.land rawValue valueMask in
    let newValue := if newValue =? 0 then newValue else (newValue +64 valueAdd) +64 slide in
    let m := mwrite m loc 8 newValue in
    if delta =? 0 then inr (Some m) else inl (m, pageOffset +32 delta).

Definition walk_chain (deltaMask deltaShift valueAdd slide pageBase : Z) (m : mem) (pageOffset : Z) : option mem :=
  while rounds64 None (chain_step deltaMask deltaShift valueAdd slide pageBase) (m, pageOffset).

(** The chains a page lists in the extras table. *)
Definition extras_step (walk : mem -> Z -> option mem) (pageExtras extrasCnt : Z) (s : mem * Z) : (mem * Z) + option mem :=
  let '(m, chainIdx) := s in
  if chainIdx <? extrasCnt then
    let chainEntry := mread m (pageExtras +64 2 * chainIdx) 2 in
    let chainIdx := chainIdx + 1 in
    match walk m (Z.shiftl (Z.land chainEntry SLIDE_PAGE_VALUE) SLIDE_PAGE_OFFSET_SHIFT) with
    | None => inr None
    | Some m => if Z.land chainEntry SLIDE_PAGE_END =? 0 then inl (m, chainIdx) else inr (Some m)
    end
  else inr (Some m).

Definition slide_page (deltaMask deltaShift valueAdd slide pageSize pageStarts pageExtras extrasCnt dataRegion : Z)
    (p : nat) (s : option mem) : option mem :=
  match s with
  | None => None
  | Some m =>
      let startOff := mread m (pageStarts +64 2 * Z.of_nat p) 2 in
      if startOff =? SLIDE_PAGE_NO_REBASE then Some m
      else
        let pageBase := dataRegion +64 Z.of_nat p * pageSize in
        let walk := walk_chain deltaMask deltaShift valueAdd slide pageBase in
        if negb (Z.land startOff SLIDE_PAGE_EXTRA =? 0) then
          while rounds64 None (extras_step walk pageExtras extrasCnt) (m, Z.land startOff SLIDE_PAGE_VALUE)
        else walk m (Z.shiftl (Z.land startOff SLIDE_PAGE_VALUE) SLIDE_PAGE_OFFSET_SHIFT)
  end.

Definition applySlidInfoV2 (slideInfo dataRegion slide : Z) (m : mem) : option mem :=
  let version := mread m slideInfo 4 in
  if negb (version =? 2) then Some m
  else
    let pageSize := mread m (slideInfo + 4) 4 in
    let startsOff := mread m (slideInfo + 8) 4 in
    let startsCnt := mread m (slideInfo + 12) 4 in
    let extrasOff := mread m (slideInfo + 16) 4 in
    let extrasCnt := mread m (slideInfo + 20) 4 in
    let deltaMask := mread m (slideInfo + 24) 8 in
    let valueAdd := mread m (slideInfo + 32) 8 in
    let deltaShift := trailing_zeros 64 deltaMask - 2 in
    for_range 0 (Z.to_nat startsCnt)
      (slide_page deltaMask deltaShift valueAdd slide pageSize (slideInfo +64 startsOff) (slideInfo +64 extrasOff)
         extrasCnt dataRegion) (Some m).

(** ** The builder: record_rebase and generate_slide_info_v2 *)
Definition PAGE_SZ : Z := 4096.
Definition PAGE_ALIGN (x : Z) : Z := Z.ldiff (x +64 (PAGE_SZ - 1)) (PAGE_SZ - 1).
Definition SHARED_REGION_BASE : Z := 0x00007FFF20000000.
Definition MAX_REBASE_LOCS : Z := Z.shiftl 1 20.
Definition sizeof_slide_info2 : Z := 40.

Definition record_rebase (gRebaseLocs : list Z) (cacheFileOff : Z) : list Z :=
  if Z.of_nat (length gRebaseLocs) <? MAX_REBASE_LOCS then gRebaseLocs ++ [cacheFileOff] else gRebaseLocs.

Definition compare_u64 (va vb : Z) : Z := Z.b2z (vb <? va) - Z.b2z (va <? vb).

(** The order [qsort] puts the locations in. *)
Definition u64_order : relation Z := fun a b => compare_u64 a b <= 0.
#[export] Instance u64_order_dec : RelDecision u64_order.
Proof. intros a b. unfold u64_order. apply _. Defined.

(** [qsort] and the loop that moves the first of equal neighbours down. *)
Definition dedup_step (i : nat) (s : nat * list Z) : nat * list Z :=
  let '(unique, locs) := s in
  if elt locs i =? elt locs (i - 1) then (unique, locs) else (S unique, <[unique := elt locs i]> locs).

Definition sort_and_deduplicate (gRebaseLocs : list Z) : list Z :=
  let locs := merge_sort u64_order gRebaseLocs in
  let '(unique, locs) := for_range 1 (length locs - 1) dedup_step (1%nat, locs) in
  take unique locs.

Definition deltaMask : Z := 0x00FFFF0000000000.
Definition valueMask : Z := Z.lxor deltaMask (Z.ones 64).
Definition valueAdd : Z := SHARED_REGION_BASE.
Definition deltaShift : Z := 38.

(** [gRebaseLocs + locIdx] is the list of the locations that are left. *)
Fixpoint skip_before (pageFileStart : Z) (rest : list Z) : list Z :=
  match rest with
  | x :: rest' => if x <? pageFileStart then skip_before pageFileStart rest' else rest
  | [] => []
  end.

(** The first pass over a page: [firstInPage] and the page's entry. *)
Fixpoint scan_page (pageFileStart pageFileEnd : Z) (rest : list Z) (firstInPage start : Z) : Z * Z :=
  match rest with
  | x :: rest' =>
      if x <? pageFileEnd then
        let locOff := x -64 pageFileStart in
        if firstInPage <? 0 then scan_page pageFileStart pageFileEnd rest' locOff (wrap 16 (locOff / 4))
        else scan_page pageFileStart pageFileEnd rest' firstInPage start
      else (firstInPage, start)
  | [] => (firstInPage, start)
  end.

(** The value part of a pointer, or [None] when the builder gives up. *)
Definition encode_value (rawValue : Z) : option Z :=
  if rawValue =? 0 then Some 0
  else if rawValue <? valueAdd then None
  else
    let value := rawValue -64 valueAdd in
    if Z.land value deltaMask =? 0 then Some (Z.land value valueMask) else None.

(** The second pass over a page encodes the chain. *)
Fixpoint encode_page (pageFileEnd : Z) (rest : list Z) (gBuf : mem) : option (mem * list Z) :=
  match rest with
  | x :: rest' =>
      if x <? pageFileEnd then
        match encode_value (mread gBuf x 8) with
        | None => None
        | Some value =>
            let deltaToNext :=
              match rest' with
              | y :: _ => if y <? pageFileEnd then y -64 x else 0
              | [] => 0
              end in
            let encodedDelta := Z.land (wrap 64 (Z.shiftl deltaToNext deltaShift)) deltaMask in
            encode_page pageFileEnd rest' (mwrite gBuf x 8 (Z.lor value encodedDelta))
        end
      else Some (gBuf, rest)
  | [] => Some (gBuf, [])
  end.

Definition chain_page (gDataFileOff : Z) (p : nat) (s : option (mem * list Z * list Z)) : option (mem * list Z * list Z) :=
  match s with
  | None => None
  | Some (gBuf, pageStarts, rest) =>
      match rest with
      | [] => s
      | _ =>
          let pageFileStart := gDataFileOff +64 Z.of_nat p * PAGE_SZ in
          let pageFileEnd := pageFileStart +64 PAGE_SZ in
          let rest := skip_before pageFileStart rest in
          let '(firstInPage, start) := scan_page pageFileStart pageFileEnd rest (-1) SLIDE_PAGE_NO_REBASE in
          if firstInPage <? 0 then Some (gBuf, pageStarts, rest)
          else
            match encode_page pageFileEnd rest gBuf with
            | None => None
            | Some (gBuf, rest) => Some (gBuf, <[p := start]> pageStarts, rest)
            end
      end
  end.

Definition store_header (off dataPages : Z) (gBuf : mem) : mem :=
  let b := mwrite gBuf off 4 2 in
  let b := mwrite b (off + 4) 4 PAGE_SZ in
  let b := mwrite b (off + 8) 4 sizeof_slide_info2 in
  let b := mwrite b (off + 12) 4 dataPages in
  let b := mwrite b (off + 16) 4 (sizeof_slide_info2 +32 dataPages * 2) in
  let b := mwrite b (off + 20) 4 0 in
  let b := mwrite b (off + 24) 8 deltaMask in
  mwrite b (off + 32) 8 valueAdd.

(** [None] when the builder exits with an error. The result is the buffer, the
    sorted locations and the size of the slide info. *)
Definition generate_slide_info_v2 (gDataFileOff gDataSize gSlideInfoFileOff gSlideInfoSize : Z)
    (gRebaseLocs : list Z) (gBuf : mem) : option (mem * list Z * Z) :=
  match gRebaseLocs with
  | [] => Some (gBuf, [], gSlideInfoSize)
  | _ =>
      let locs := sort_and_deduplicate gRebaseLocs in
      let dataPages := wrap 32 ((gDataSize +64 (PAGE_SZ - 1)) / PAGE_SZ) in
      let pageStarts := repeat SLIDE_PAGE_NO_REBASE (Z.to_nat dataPages) in
      match for_range 0 (Z.to_nat dataPages) (chain_page gDataFileOff) (Some (gBuf, pageStarts, locs)) with
      | None => None
      | Some (gBuf, pageStarts, _) =>
          let gBuf := store_header gSlideInfoFileOff dataPages gBuf in
          let gBuf := mstore gBuf (gSlideInfoFileOff +64 sizeof_slide_info2) (concat (map (le_encode 2) pageStarts)) in
          Some (gBuf, locs, PAGE_ALIGN (sizeof_slide_info2 +64 dataPages * 2))
      end
  end.

(** ** Sorting and deduplication *)
Lemma elt_lookup (l : list Z) i x : l !! i = Some x -> elt l i = x.
Proof. intros H. unfold elt. by rewrite nth_lookup, H. Qed.

Lemma lookup_elt (l : list Z) i : (i < length l)%nat -> l !! i = Some (elt l i).
Proof. intros H. unfold elt. rewrite nth_lookup. by destruct (lookup_lt_is_Some_2 l i H) as [x ->]. Qed.

Lemma sorted_elt_le (l : list Z) i j : StronglySorted Z.le l -> (i <= j < length l)%nat -> elt l i <= elt l j.
Proof.
  intros H. revert i j. induction H as [|x l Hs IH Hf]; intros i j Hij; [cbn in Hij; lia|]. cbn [length] in Hij.
  destruct i as [|i], j as [|j]; try lia; unfold elt; cbn [nth].
  - change (x <= elt l j). rewrite Forall_forall in Hf. apply Hf, list_elem_of_lookup. exists j. apply lookup_elt. lia.
  - apply IH. lia.
Qed.

Lemma StronglySorted_snoc (l : list Z) x : StronglySorted Z.lt l -> (forall y, y ∈ l -> y < x) -> StronglySorted Z.lt (l ++ [x]).
Proof.
  intros H Hx. induction H as [|y l Hs IH Hf]; cbn [app]; [repeat constructor|]. constructor.
  - apply IH. intros z Hz. apply Hx. by right.
  - apply Forall_app. split; [done|]. constructor; [|done]. apply Hx. by left.
Qed.

Lemma take_insert_snoc (l : list Z) u v : (u < length l)%nat -> take (S u) (<[u := v]> l) = take u l ++ [v].
Proof.
  intros H. rewrite (take_S_r _ _ v) by (by apply list_lookup_insert_eq). by rewrite take_insert_ge by lia.
Qed.

Lemma u64_order_le a b : u64_order a b <-> a <= b.
Proof. unfold u64_order, compare_u64. destruct (Z.ltb_spec b a), (Z.ltb_spec a b); cbn; lia. Qed.

#[export] Instance u64_order_total : Total u64_order.
Proof. intros a b. rewrite !u64_order_le. lia. Qed.

Lemma u64_sorted l : Sorted u64_order l -> StronglySorted Z.le l.
Proof.
  intros H. apply Sorted_StronglySorted; [intros ???; lia|].
  induction H as [|x l Hs IH Hh]; constructor; [done|]. destruct Hh as [|y l Hy]; constructor. by apply u64_order_le.
Qed.

(** The locations the first [k + 1] elements of the sorted array leave. *)
Definition deduped (L : list Z) (k : nat) (s : nat * list Z) : Prop :=
  (1 <= s.1 <= k + 1)%nat /\ length s.2 = length L /\
  (forall j, (k <= j)%nat -> elt s.2 j = elt L j) /\
  StronglySorted Z.lt (take s.1 s.2) /\
  (forall x, x ∈ take s.1 s.2 <-> x ∈ take (k + 1) L).

Lemma dedup_step_ok L k s : StronglySorted Z.le L -> (k + 1 < length L)%nat ->
  deduped L k s -> deduped L (k + 1) (dedup_step (k + 1) s).
Proof.
  destruct s as [u l]. intros HL Hk (Hu & Hl & He & Hs & Hin). cbn [fst snd] in *. unfold dedup_step.
  replace (k + 1 - 1)%nat with k by lia. rewrite !He by lia.
  assert (Et : take (k + 1 + 1) L = take (k + 1) L ++ [elt L (k + 1)]).
  { rewrite Nat.add_1_r at 1. apply take_S_r, lookup_elt. lia. }
  destruct (Z.eqb_spec (elt L (k + 1)) (elt L k)) as [E|E]; unfold deduped; cbn [fst snd]; rewrite Et.
  - split_and!; [lia|lia|done| |done|]; [intros j Hj; apply He; lia|].
    intros x. rewrite Hin, elem_of_app, list_elem_of_singleton, E. split; [by left|]. intros [H| ->]; [done|].
    apply list_elem_of_lookup. exists k. rewrite lookup_take_lt by lia. apply lookup_elt. lia.
  - rewrite length_insert, take_insert_snoc by lia. split_and!; [lia|lia|done| | |].
    + intros j Hj. rewrite elt_insert by lia. case_decide as Ej; [|apply He; lia]. subst j. f_equal. lia.
    + apply StronglySorted_snoc; [done|]. intros y Hy. apply Hin, list_elem_of_lookup in Hy as [i Hi].
      pose proof (lookup_lt_Some _ _ _ Hi) as Hlt. rewrite length_take in Hlt.
      rewrite lookup_take_lt in Hi by lia. apply elt_lookup in Hi as <-.
      pose proof (sorted_elt_le L i k HL ltac:(lia)). pose proof (sorted_elt_le L k (k + 1) HL ltac:(lia)). lia.
    + intros x. rewrite !elem_of_app, Hin. done.
Qed.

Lemma sort_and_deduplicate_ok l : l <> [] ->
  StronglySorted Z.lt (sort_and_deduplicate l) /\ (forall x, x ∈ sort_and_deduplicate l <-> x ∈ l).
Proof.
  intros Hl. unfold sort_and_deduplicate. set (L := merge_sort u64_order l).
  assert (HP : L ≡ₚ l) by apply merge_sort_Permutation.
  assert (HL : StronglySorted Z.le L).
  { apply u64_sorted, (Sorted_merge_sort u64_order). }
  assert (Hn : (1 <= length L)%nat) by (rewrite HP; destruct l; [done|cbn; lia]).
  pose proof (for_range_ind (deduped L) 1 (length L - 1) dedup_step (1%nat, L)) as H.
  destruct (for_range 1 (length L - 1) dedup_step (1%nat, L)) as [u l'].
  destruct H as (Hu & Hl' & _ & Hs & Hin).
  - unfold deduped. cbn [fst snd]. split_and!; try done; try lia. clearbody L. destruct L as [|x L]; [cbn in Hn; lia|]. cbn. repeat constructor.
  - intros k s Hk Hd. rewrite <- Nat.add_1_r, (Nat.add_comm 1 k). apply dedup_step_ok; [done|lia|done].
  - cbn [fst snd] in *. split; [done|]. intros x. rewrite Hin.
    replace (length L - 1 + 1)%nat with (length L) by lia. rewrite firstn_all. by rewrite HP.
Qed.

(** ** Links of a chain *)

(** The bits of a pointer that are stored, and a stored pointer with the distance
    to the next one. *)
Definition offset_part (v : Z) : Z := if v =? 0 then 0 else v - valueAdd.
Definition link (v d : Z) : Z := Z.lor (offset_part v) (Z.shiftl d deltaShift).
Definition representable (v : Z) : Prop := encode_value v = Some (offset_part v) /\ 0 <= offset_part v < 2 ^ 64 /\
  Z.land (offset_part v) deltaMask = 0.

(** The pointer the loader restores. The pointer to the base of the region has
    the offset 0, which stands for the null pointer. *)
Definition slid (slide v : Z) : Z := if (v =? 0) || (v =? valueAdd) then 0 else v +64 slide.

Lemma land_valueMask w : 0 <= w < 2 ^ 64 -> Z.land w deltaMask = 0 -> Z.land w valueMask = w.
Proof.
  intros Hr Hz. apply Z.bits_inj'. intros i Hi. unfold valueMask. rewrite Z.land_spec, Z.lxor_spec.
  assert (Hb : Z.testbit (Z.land w deltaMask) i = false) by (by rewrite Hz, Z.bits_0).
  rewrite Z.land_spec in Hb. destruct (Z.ltb_spec i 64) as [Hlt|Hge].
  - rewrite Z.ones_spec_low by lia. destruct (Z.testbit w i), (Z.testbit deltaMask i); cbn in *; done.
  - assert (Z.testbit w i = false) as ->; [|done]. rewrite <- (Z.mod_small _ _ Hr). apply Z.mod_pow2_bits_high. lia.
Qed.

Lemma encode_value_ok v w : 0 <= v < 2 ^ 64 -> encode_value v = Some w -> w = offset_part v /\ representable v.
Proof.
  intros Hv. unfold representable, encode_value, offset_part. destruct (Z.eqb_spec v 0) as [->|Hn].
  { intros [= <-]. split_and!; done. }
  destruct (Z.ltb_spec v valueAdd) as [|Hge]; [done|]. rewrite wrap_small by (unfold valueAdd, SHARED_REGION_BASE in *; lia).
  destruct (Z.eqb_spec (Z.land (v - valueAdd) deltaMask) 0) as [Hz|]; [|done]. intros [= <-].
  assert (E : Z.land (v - valueAdd) valueMask = v - valueAdd).
  { apply land_valueMask; [unfold valueAdd, SHARED_REGION_BASE in *; lia|done]. }
  rewrite E. split_and!; try done; unfold valueAdd, SHARED_REGION_BASE in *; lia.
Qed.

Lemma distance_bits d : 0 <= d < 4096 -> d mod 4 = 0 ->
  Z.land (wrap 64 (Z.shiftl d deltaShift)) deltaMask = Z.shiftl d deltaShift /\
  Z.land (Z.shiftl d deltaShift) deltaMask = Z.shiftl d deltaShift /\ 0 <= Z.shiftl d deltaShift < 2 ^ 64.
Proof.
  intros Hd Hm. assert (E : Z.shiftl d deltaShift = Z.shiftl (d / 4) 40).
  { unfold deltaShift. rewrite !Z.shiftl_mul_pow2 by lia. pose proof (Z.div_mod d 4 ltac:(lia)). lia. }
  assert (Hq : 0 <= d / 4 < 1024) by (split; [apply Z.div_pos; lia|apply Z.div_lt_upper_bound; lia]).
  assert (Hr : 0 <= Z.shiftl (d / 4) 40 < 2 ^ 64) by (rewrite Z.shiftl_mul_pow2 by lia; lia).
  rewrite E, wrap_small by done.
  assert (Hl : Z.land (Z.shiftl (d / 4) 40) deltaMask = Z.shiftl (d / 4) 40).
  { change deltaMask with (Z.shiftl (Z.ones 16) 40). rewrite <- Z.shiftl_land, Z.land_ones by lia. by rewrite Z.mod_small by lia. }
  done.
Qed.

(** Decoding a link gives the distance and the pointer. *)
Lemma link_decode v d : representable v -> 0 <= d < 4096 -> d mod 4 = 0 ->
  0 <= link v d < 2 ^ 64 /\
  wrap 32 (Z.shiftr (Z.land (link v d) deltaMask) deltaShift) = d /\
  Z.land (link v d) (Z.lxor deltaMask (Z.ones 64)) = offset_part v.
Proof.
  intros (_ & Hr & Hz) Hd Hm. destruct (distance_bits d Hd Hm) as (_ & Hl & Hs). unfold link.
  set (w := offset_part v) in *. set (X := Z.shiftl d deltaShift) in *. split; [|split].
  - split; [apply Z.lor_nonneg; lia|]. destruct (Z.eq_dec (Z.lor w X) 0) as [->|Hn]; [lia|].
    apply Z.log2_lt_pow2; [pose proof (proj2 (Z.lor_nonneg w X) ltac:(lia)); lia|]. rewrite Z.log2_lor by lia.
    apply Z.max_lub_lt; (destruct (Z.eq_dec w 0) as [->|]; destruct (Z.eq_dec X 0) as [->|];
      try (change (Z.log2 0) with 0; lia); apply Z.log2_lt_pow2; lia).
  - rewrite Z.land_lor_distr_l, Hz, Hl, Z.lor_0_l. unfold X. rewrite Z.shiftr_shiftl_l by (unfold deltaShift; lia).
    rewrite Z.sub_diag, Z.shiftl_0_r. apply wrap_small. lia.
  - rewrite Z.land_lor_distr_l. assert (Z.land X (Z.lxor deltaMask (Z.ones 64)) = 0) as ->.
    { rewrite <- Hl, <- Z.land_assoc. change (Z.land deltaMask _) with 0. apply Z.land_0_r. }
    rewrite Z.lor_0_r. by apply land_valueMask.
Qed.

(** ** Chains in memory *)
Definition spaced : list Z -> Prop := StronglySorted (fun x y => x + 8 <= y).

(** [m'] differs from [m] at most in the words at [xs]. *)
Definition untouched (xs : list Z) (m m' : mem) : Prop :=
  forall a, (forall x, x ∈ xs -> a < x \/ x + 8 <= a) -> mget m' a = mget m a.

Definition gap (x : Z) (rest : list Z) : Z := match rest with y :: _ => y - x | [] => 0 end.

(** The words at [xs + t] of [m] are the links for the pointers [b] has at [xs]. *)
Fixpoint linked (b m : mem) (t : Z) (xs : list Z) : Prop :=
  match xs with
  | [] => True
  | x :: rest => mread m (x + t) 8 = link (mread b x 8) (gap x rest) /\ linked b m t rest
  end.

(** Aligned locations in the page that starts at [s]. *)
Definition in_page (s : Z) (xs : list Z) : Prop := Forall (fun x => s <= x < s + PAGE_SZ /\ (x - s) mod 4 = 0) xs.

Lemma untouched_mread xs m m' x : untouched xs m m' -> (forall y, y ∈ xs -> x + 8 <= y \/ y + 8 <= x) ->
  mread m' x 8 = mread m x 8.
Proof. intros Hu Hx. apply mread_ext. intros a Ha. apply Hu. intros y Hy. specialize (Hx y Hy). lia. Qed.

Lemma untouched_mwrite x v m : untouched [x] m (mwrite m x 8 v).
Proof.
  intros a Ha. apply mget_mwrite_out. specialize (Ha x ltac:(by left)). lia.
Qed.

Lemma untouched_trans xs ys m1 m2 m3 : untouched xs m1 m2 -> untouched ys m2 m3 -> untouched (xs ++ ys) m1 m3.
Proof.
  intros H1 H2 a Ha. rewrite H2, H1; [done| |]; intros x Hx; apply Ha, elem_of_app; auto.
Qed.

Lemma spaced_cons x xs : spaced (x :: xs) <-> spaced xs /\ (forall y, y ∈ xs -> x + 8 <= y).
Proof.
  split.
  - intros H. apply StronglySorted_inv in H as [H1 H2]. by rewrite Forall_forall in H2.
  - intros [H1 H2]. constructor; [done|]. by apply Forall_forall.
Qed.

Lemma spaced_app xs ys : spaced (xs ++ ys) <-> spaced xs /\ spaced ys /\ (forall x y, x ∈ xs -> y ∈ ys -> x + 8 <= y).
Proof.
  induction xs as [|x xs IH]; cbn [app].
  - split; [intros H; split_and!; [constructor|done|intros ?? Hx; by apply elem_of_nil in Hx]|tauto].
  - rewrite !spaced_cons, IH. setoid_rewrite elem_of_app. setoid_rewrite elem_of_cons. split.
    + intros ((H1 & H2 & H3) & H4). split_and!; auto. intros z y [->|Hz] Hy; auto.
    + intros ((H1 & H4) & H2 & H3). split_and!; auto. intros y [Hy|Hy]; auto.
Qed.

(** The distance inside a page fits its field. *)
Lemma gap_range s x xs : spaced (x :: xs) -> in_page s (x :: xs) -> 0 <= gap x xs < 4096 /\ gap x xs mod 4 = 0.
Proof.
  intros Hs Hp. destruct xs as [|y xs]; cbn [gap]; [done|].
  apply spaced_cons in Hs as [_ Hs]. specialize (Hs y ltac:(by left)).
  apply Forall_cons in Hp as [[Hx Mx] Hp]. apply Forall_cons in Hp as [[Hy My] _]. unfold PAGE_SZ in *. split; [lia|].
  replace (y - x) with ((y - s) - (x - s)) by lia. rewrite Zminus_mod, Mx, My. done.
Qed.

Lemma linked_same b m m' t t' xs : (forall x, x ∈ xs -> mread m' (x + t') 8 = mread m (x + t) 8) ->
  linked b m t xs -> linked b m' t' xs.
Proof.
  induction xs as [|x xs IH]; [done|]. cbn [linked]. intros He [H1 H2]. split.
  - rewrite <- H1. apply He. by left.
  - apply IH; [|done]. intros y Hy. apply He. by right.
Qed.

Lemma linked_ext b m m' t xs ys : linked b m t xs -> untouched ys m m' ->
  (forall x y, x ∈ xs -> y ∈ ys -> x + t + 8 <= y \/ y + 8 <= x + t) -> linked b m' t xs.
Proof.
  intros Hl Hu Hd. eapply linked_same; [|exact Hl]. intros x Hx. eapply untouched_mread; [done|]. intros y. by apply Hd.
Qed.

(** ** The builder's pages *)
Lemma encode_page_ok s xs rest b0 : spaced (xs ++ rest) -> in_page s xs -> Forall (fun y => s + PAGE_SZ <= y) rest ->
  0 <= s -> s + PAGE_SZ <= 2 ^ 63 ->
  forall b r, mem_wf b -> (forall x, x ∈ xs -> mread b x 8 = mread b0 x 8) ->
  encode_page (s + PAGE_SZ) (xs ++ rest) b = Some r ->
  r.2 = rest /\ linked b0 r.1 0 xs /\ untouched xs b r.1 /\ mem_wf r.1 /\ (forall x, x ∈ xs -> representable (mread b0 x 8)).
Proof.
  intros Hs Hp Hrest H0 H63. induction xs as [|x xs IH]; intros b r Hw Hb; cbn [app encode_page].
  { assert (E : encode_page (s + PAGE_SZ) rest b = Some (b, rest)).
    { destruct rest as [|y rest]; [done|]. apply Forall_cons in Hrest as [Hy _]. cbn [encode_page].
      destruct (Z.ltb_spec y (s + PAGE_SZ)); [lia|done]. }
    rewrite E. intros [= <-]. split_and!; try done. intros ? Hx. by apply elem_of_nil in Hx. }
  pose proof (gap_range s x xs) as Hg. cbn [app] in Hs. apply spaced_cons in Hs as [Hs Hx].
  destruct Hg as [Hg Hg4]; [apply spaced_cons; split; [by apply spaced_app in Hs as (? & _)|intros y Hy; apply Hx, elem_of_app; auto]|done|].
  pose proof Hp as Hp'. apply Forall_cons in Hp as [[Hxs Hx4] Hp].
  destruct (Z.ltb_spec x (s + PAGE_SZ)); [|lia]. rewrite Hb by (by left).
  destruct (encode_value (mread b0 x 8)) as [w|] eqn:Ew; [|done].
  assert (Hr : 0 <= mread b0 x 8 < 2 ^ 64) by (rewrite <- Hb by (by left); apply (mread_range b x 8 Hw)).
  destruct (encode_value_ok _ _ Hr Ew) as [-> Hrep].
  assert (Ed : (match xs ++ rest with y :: _ => if y <? s + PAGE_SZ then y -64 x else 0 | [] => 0 end) = gap x xs).
  { destruct xs as [|y xs]; cbn [app gap].
    - destruct rest as [|y rest]; [done|]. apply Forall_cons in Hrest as [Hy _]. destruct (Z.ltb_spec y (s + PAGE_SZ)); [lia|done].
    - apply Forall_cons in Hp as [[Hy _] _]. destruct (Z.ltb_spec y (s + PAGE_SZ)); [|lia].
      cbn [gap] in Hg. apply wrap_small. lia. }
  rewrite Ed, (proj1 (distance_bits _ Hg Hg4)). fold (link (mread b0 x 8) (gap x xs)).
  set (b1 := mwrite b x 8 (link (mread b0 x 8) (gap x xs))). intros E.
  destruct (IH Hs Hp b1 r) as (E1 & E2 & E3 & E4 & E5); [by apply mem_wf_mwrite| |exact E|].
  { intros y Hy. rewrite <- Hb by (by right). specialize (Hx y ltac:(apply elem_of_app; auto)).
    apply mread_mwrite_disjoint. lia. }
  split_and!; [done| |by apply (untouched_trans [x] xs b b1); [apply untouched_mwrite|]|done|].
  - cbn [linked]. split; [|done]. rewrite Z.add_0_r. erewrite untouched_mread; [|exact E3|].
    + unfold b1. rewrite mread_mwrite. apply Z.mod_small. by apply (link_decode _ _ Hrep Hg Hg4).
    + intros y Hy. left. apply Hx, elem_of_app. auto.
  - intros y [->|Hy]%elem_of_cons; [done|]. by apply E5.
Qed.

Lemma skip_before_id s rest : Forall (fun y => s <= y) rest -> skip_before s rest = rest.
Proof.
  intros H. destruct rest as [|y rest]; [done|]. apply Forall_cons in H as [H _]. cbn [skip_before].
  destruct (Z.ltb_spec y s); [lia|done].
Qed.

(** The first pass finds the page's first location. *)
Lemma scan_page_ok s xs rest : in_page s xs -> Forall (fun y => s + PAGE_SZ <= y) rest -> 0 <= s -> s + PAGE_SZ <= 2 ^ 63 ->
  scan_page s (s + PAGE_SZ) (xs ++ rest) (-1) SLIDE_PAGE_NO_REBASE =
    match xs with x :: _ => (x - s, (x - s) / 4) | [] => (-1, SLIDE_PAGE_NO_REBASE) end.
Proof.
  intros Hp Hr H0 H63.
  assert (Hlater : forall ys f v, 0 <= f -> scan_page s (s + PAGE_SZ) ys f v = (f, v)).
  { intros ys f v Hf. induction ys as [|y ys IH]; [done|]. cbn [scan_page].
    destruct (y <? s + PAGE_SZ); [|done]. destruct (Z.ltb_spec f 0); [lia|done]. }
  destruct xs as [|x xs]; cbn [app].
  - destruct rest as [|y rest]; [done|]. apply Forall_cons in Hr as [Hy _]. cbn [scan_page].
    destruct (Z.ltb_spec y (s + PAGE_SZ)); [lia|done].
  - apply Forall_cons in Hp as [[Hx _] _]. unfold PAGE_SZ in *. cbn [scan_page]. destruct (Z.ltb_spec x (s + 4096)); [|lia].
    cbn [Z.ltb Z.compare]. rewrite (wrap_small 64) by lia. rewrite Hlater by lia. f_equal. apply wrap_small.
    split; [apply Z.div_pos; lia|apply Z.div_lt_upper_bound; lia].
Qed.

Definition page_start (off : Z) (p : nat) : Z := off + Z.of_nat p * PAGE_SZ.
Definition start_entry (s : Z) (xs : list Z) : Z := match xs with x :: _ => (x - s) / 4 | [] => SLIDE_PAGE_NO_REBASE end.

(** The buffer [b] encodes the pages [pages] of the pointers [b0] has. *)
Definition chained (off : Z) (b0 b : mem) (pages : list (list Z)) : Prop :=
  forall p xs, pages !! p = Some xs -> in_page (page_start off p) xs /\ spaced xs /\ linked b0 b 0 xs /\
    (forall x, x ∈ xs -> representable (mread b0 x 8)).

(** What the first [k] of [N] pages have left. *)
Definition built (off : Z) (b0 : mem) (N : nat) (locs : list Z) (k : nat) (s : option (mem * list Z * list Z)) : Prop :=
  match s with
  | None => True
  | Some (b, starts, rest) => exists pages,
      length pages = k /\ locs = concat pages ++ rest /\ Forall (fun y => page_start off k <= y) rest /\
      chained off b0 b pages /\
      starts = imap (fun p xs => start_entry (page_start off p) xs) pages ++ repeat SLIDE_PAGE_NO_REBASE (N - k) /\
      untouched (concat pages) b0 b /\ mem_wf b
  end.

Lemma split_page e rest : spaced rest ->
  exists xs ys, rest = xs ++ ys /\ Forall (fun x => x < e) xs /\ Forall (fun y => e <= y) ys.
Proof.
  induction rest as [|x rest IH]; intros Hs; [by exists [], []|]. apply spaced_cons in Hs as [Hs Hx].
  destruct (Z.lt_ge_cases x e) as [Hlt|Hge].
  - destruct (IH Hs) as (xs & ys & -> & H1 & H2). exists (x :: xs), ys. split_and!; auto.
  - exists [], (x :: rest). split_and!; [done|done|]. constructor; [done|]. apply Forall_forall. intros y Hy.
    specialize (Hx y Hy). lia.
Qed.

Lemma page_start_S off k : page_start off (S k) = page_start off k + PAGE_SZ.
Proof. unfold page_start. lia. Qed.

Lemma page_start_aligned off k x : (x - off) mod 4 = 0 -> (x - page_start off k) mod 4 = 0.
Proof.
  intros H. unfold page_start, PAGE_SZ. replace (x - (off + Z.of_nat k * 4096)) with (x - off + (- Z.of_nat k * 1024) * 4) by lia.
  by rewrite Z_mod_plus_full.
Qed.

Lemma elem_of_concat {A} (ls : list (list A)) x : x ∈ concat ls <-> exists l, l ∈ ls /\ x ∈ l.
Proof. rewrite list_elem_of_In, in_concat. by setoid_rewrite <- list_elem_of_In. Qed.

Lemma concat_snoc {A} (pages : list (list A)) xs : concat (pages ++ [xs]) = concat pages ++ xs.
Proof. rewrite concat_app. cbn. by rewrite app_nil_r. Qed.

(** A page more. *)
Lemma built_snoc off b0 N locs k b starts rest b' xs ys :
  (k < N)%nat -> spaced locs -> built off b0 N locs k (Some (b, starts, rest)) -> rest = xs ++ ys ->
  in_page (page_start off k) xs -> Forall (fun y => page_start off (S k) <= y) ys ->
  linked b0 b' 0 xs -> (forall x, x ∈ xs -> representable (mread b0 x 8)) -> untouched xs b b' -> mem_wf b' ->
  built off b0 N locs (S k) (Some (b', <[k := start_entry (page_start off k) xs]> starts, ys)).
Proof.
  intros Hk Hs (pages & Hl & El & Hr & Hc & Est & Hu & Hw) -> Hp Hys Hlk Hrep Hu' Hw'. exists (pages ++ [xs]).
  assert (Hsp : spaced (concat pages ++ (xs ++ ys))) by (by rewrite <- El).
  apply spaced_app in Hsp as (_ & Hsx & Hd). apply spaced_app in Hsx as (Hsx & _ & _).
  split_and!; [rewrite length_app, Hl; cbn; lia|rewrite concat_snoc, El; by rewrite app_assoc|done| | | |done].
  - intros p zs Hz. apply lookup_app_Some in Hz as [Hz|[Hz1 Hz2]].
    + destruct (Hc p zs Hz) as (C1 & C2 & C3 & C4). split_and!; auto. eapply linked_ext; [done..|].
      intros x y Hx Hy. left. rewrite Z.add_0_r. apply Hd; [|apply elem_of_app; auto].
      apply elem_of_concat. exists zs. split; [|done]. by eapply list_elem_of_lookup_2.
    + assert (p = k) as -> by (pose proof (lookup_lt_Some _ _ _ Hz2); cbn in *; lia).
      rewrite Hl, Nat.sub_diag in Hz2. injection Hz2 as <-. done.
  - rewrite Est. rewrite imap_app. cbn [imap]. rewrite <- app_assoc. cbn [app].
    replace (N - k)%nat with (S (N - S k)) by lia. cbn [repeat].
    rewrite insert_app_r_alt by (rewrite length_imap; lia). rewrite length_imap, Hl, Nat.sub_diag. cbn. by rewrite Nat.add_0_r.
  - rewrite concat_snoc. by eapply untouched_trans.
Qed.

Section Builder.
Variables (off size : Z) (L : list Z) (b0 : mem).
Hypothesis Hoff : 0 <= off.
Hypothesis Hsize : 0 <= size /\ off + size <= 2 ^ 40.
Hypothesis wf0 : mem_wf b0.
Hypothesis locations : forall x, x ∈ L -> off <= x /\ x + 8 <= off + size /\ (x - off) mod 4 = 0.
Hypothesis separate : forall x y, x ∈ L -> y ∈ L -> x = y \/ x + 8 <= y \/ y + 8 <= x.
Hypothesis nonempty : L <> [].

Let locs := sort_and_deduplicate L.
Definition page_count : Z := (size + (PAGE_SZ - 1)) / PAGE_SZ.

Lemma page_count_range : 0 <= page_count < 2 ^ 32 /\ size <= page_count * PAGE_SZ.
Proof.
  unfold page_count, PAGE_SZ. pose proof (Z.div_mod (size + (4096 - 1)) 4096 ltac:(lia)).
  pose proof (Z.mod_pos_bound (size + (4096 - 1)) 4096 ltac:(lia)).
  split; [split; [apply Z.div_pos; lia|apply Z.div_lt_upper_bound; lia]|lia].
Qed.

Lemma spaced_locs : spaced locs.
Proof.
  destruct (sort_and_deduplicate_ok L nonempty) as [Hs Hin]. fold locs in Hs, Hin.
  assert (Hsub : forall x, x ∈ locs -> x ∈ L) by (intros x; apply Hin). clearbody locs. clear Hin.
  induction Hs as [|x l Hs IH Hf]; [constructor|]. apply spaced_cons. split.
  - apply IH. intros y Hy. apply Hsub. by right.
  - intros y Hy. rewrite Forall_forall in Hf. specialize (Hf y Hy).
    destruct (separate x y) as [->|[H|H]]; [apply Hsub; by left|apply Hsub; by right|lia|done|lia].
Qed.

Lemma page_start_bound k : Z.of_nat k < page_count -> 0 <= page_start off k /\ page_start off k + PAGE_SZ <= 2 ^ 41.
Proof.
  intros Hk. pose proof (Z.div_mod (size + (PAGE_SZ - 1)) PAGE_SZ ltac:(done)).
  pose proof (Z.mod_pos_bound (size + (PAGE_SZ - 1)) PAGE_SZ ltac:(done)).
  unfold page_start, page_count, PAGE_SZ in *. lia.
Qed.

(** The locations left before page [k] split into those of the page and the rest. *)
Lemma page_split k pages rest : locs = concat pages ++ rest -> Forall (fun y => page_start off k <= y) rest ->
  exists xs ys, rest = xs ++ ys /\ in_page (page_start off k) xs /\ Forall (fun y => page_start off (S k) <= y) ys /\
    spaced (xs ++ ys).
Proof.
  intros El Hr. assert (Hsp : spaced rest).
  { pose proof spaced_locs as H. rewrite El in H. by apply spaced_app in H as (_ & ? & _). }
  destruct (split_page (page_start off (S k)) rest Hsp) as (xs & ys & -> & Hxs & Hys). exists xs, ys. split_and!; try done.
  rewrite page_start_S in Hxs. apply Forall_forall. intros x Hx. rewrite Forall_forall in Hxs, Hr.
  specialize (Hxs x Hx). specialize (Hr x ltac:(apply elem_of_app; auto)).
  split; [lia|]. apply page_start_aligned, locations, (sort_and_deduplicate_ok L nonempty).
  fold locs. rewrite El, !elem_of_app. auto.
Qed.

Lemma chain_page_ok N k s : (k < N)%nat -> Z.of_nat N = page_count ->
  built off b0 N locs k s -> built off b0 N locs (S k) (chain_page off k s).
Proof.
  intros Hk HN. destruct s as [[[b starts] rest]|]; [|done].
  intros HB. pose proof HB as (pages & Hl & El & Hr & Hc & Est & Hu & Hw).
  pose proof (page_start_bound k ltac:(lia)) as Hb.
  assert (Est' : starts !! k = Some SLIDE_PAGE_NO_REBASE).
  { rewrite Est, lookup_app_r by (rewrite length_imap; lia). rewrite length_imap, Hl, Nat.sub_diag.
    destruct (N - k)%nat eqn:E; [lia|done]. }
  destruct (page_split k pages rest El Hr) as (xs & ys & Exy & Hp & Hys & Hsp).
  pose proof spaced_locs as Hsl.
  assert (Hempty : xs = [] -> built off b0 N locs (S k) (Some (b, starts, rest))).
  { intros ->. rewrite <- (list_insert_id _ _ _ Est').
    apply (built_snoc off b0 N locs k b starts rest b [] rest); try done.
    - by rewrite Exy.
    - intros x Hx. by apply elem_of_nil in Hx. }
  unfold chain_page. destruct rest as [|r0 rest0] eqn:Er; [apply Hempty; by destruct xs|]. rewrite <- Er in *. clear Er.
  assert (Ew : wrap 64 (off + Z.of_nat k * PAGE_SZ) = page_start off k) by (apply wrap_small; unfold page_start, PAGE_SZ in *; lia).
  rewrite Ew, (wrap_small 64 (page_start off k + PAGE_SZ)) by (unfold PAGE_SZ in *; lia). rewrite (skip_before_id _ _ Hr), Exy.
  pose proof Hys as Hys'. rewrite page_start_S in Hys'. rewrite (scan_page_ok _ _ _ Hp Hys') by lia.
  destruct xs as [|x xs]; [cbn [Z.ltb Z.compare app]; rewrite Exy in Hempty; by apply Hempty|].
  pose proof (Forall_inv Hp) as [Hx _]. destruct (Z.ltb_spec (x - page_start off k) 0); [lia|].
  destruct (encode_page _ _ b) as [[b' rest']|] eqn:Ee; [|done].
  assert (Hbx : forall y, y ∈ x :: xs -> mread b y 8 = mread b0 y 8).
  { intros y Hy. eapply untouched_mread; [exact Hu|]. intros z Hz. right. rewrite El, Exy in Hsl.
    apply spaced_app in Hsl as (_ & _ & Hd). apply Hd; [done|]. apply elem_of_app. auto. }
  destruct (encode_page_ok _ _ _ b0 Hsp Hp Hys' ltac:(lia) ltac:(lia) b _ Hw Hbx Ee) as (E1 & E2 & E3 & E4 & E5).
  cbn [fst snd] in *. rewrite E1.
  by apply (built_snoc off b0 N locs k b starts rest b' (x :: xs) ys).
Qed.

(** All pages together hold all locations. *)
Lemma all_pages N b starts rest : Z.of_nat N = page_count -> built off b0 N locs N (Some (b, starts, rest)) -> rest = [].
Proof.
  intros HN (pages & _ & El & Hr & _). pose proof page_count_range as [_ HN2]. destruct rest as [|x rest]; [done|].
  apply Forall_inv in Hr. destruct (locations x) as (_ & Hx & _).
  { apply (sort_and_deduplicate_ok L nonempty). fold locs. rewrite El, elem_of_app. right. by left. }
  unfold page_start in Hr. lia.
Qed.
End Builder.

(** ** The slide info table *)
Lemma table_read (l : list Z) m a p : Forall (fun v => 0 <= v < 65536) l -> (p < length l)%nat ->
  mread (mstore m a (concat (map (le_encode 2) l))) (a + 2 * Z.of_nat p) 2 = elt l p.
Proof.
  intros Hl. revert m a p. induction Hl as [|v l Hv Hl IH]; intros m a p Hp; [cbn in Hp; lia|].
  cbn [map concat]. rewrite mstore_app, length_le_encode. destruct p as [|p].
  - change (2 * Z.of_nat 0) with 0. rewrite Z.add_0_r.
    transitivity (mread (mstore m a (le_encode 2 v)) a 2); [apply mread_ext; intros b Hb; apply mget_mstore_out; lia|].
    rewrite <- mwrite_mstore, mread_mwrite. change (256 ^ Z.of_nat 2) with 65536. apply Z.mod_small. done.
  - replace (a + 2 * Z.of_nat (S p)) with (a + Z.of_nat 2 + 2 * Z.of_nat p) by lia. rewrite IH by (cbn in Hp; lia). done.
Qed.

(** [m] has at [a] the slide info for [pages]. *)
Definition slide_info (m : mem) (a off : Z) (pages : list (list Z)) : Prop :=
  mread m a 4 = 2 /\ mread m (a + 4) 4 = PAGE_SZ /\ mread m (a + 8) 4 = sizeof_slide_info2 /\
  mread m (a + 12) 4 = Z.of_nat (length pages) /\ mread m (a + 24) 8 = deltaMask /\ mread m (a + 32) 8 = valueAdd /\
  (forall p xs, pages !! p = Some xs ->
    mread m (a + sizeof_slide_info2 + 2 * Z.of_nat p) 2 = start_entry (page_start off p) xs).

Lemma start_entry_range s xs : in_page s xs -> 0 <= start_entry s xs < 1024 \/ xs = [].
Proof.
  intros Hp. destruct xs as [|x xs]; [by right|left]. apply Forall_inv in Hp as [Hx _]. cbn [start_entry]. unfold PAGE_SZ in Hx.
  split; [apply Z.div_pos; lia|apply Z.div_lt_upper_bound; lia].
Qed.

Lemma slide_info_stored b off a pages : Z.of_nat (length pages) < 2 ^ 32 -> 0 <= a <= 2 ^ 41 ->
  (forall p xs, pages !! p = Some xs -> in_page (page_start off p) xs) ->
  let starts := imap (fun p xs => start_entry (page_start off p) xs) pages in
  let m := mstore (store_header a (Z.of_nat (length pages)) b) (a +64 sizeof_slide_info2) (concat (map (le_encode 2) starts)) in
  slide_info m a off pages /\ (forall c, c < a -> mget m c = mget b c).
Proof.
  intros Hn Ha Hp starts m.
  assert (Ew : a +64 sizeof_slide_info2 = a + sizeof_slide_info2) by (apply wrap_small; unfold sizeof_slide_info2; lia).
  assert (Hh : forall c k, c + Z.of_nat k <= a + sizeof_slide_info2 ->
    mread m c k = mread (store_header a (Z.of_nat (length pages)) b) c k).
  { intros c k Hc. apply mread_ext. intros d Hd. unfold m. rewrite Ew. apply mget_mstore_out. lia. }
  split; [unfold slide_info; split_and!|].
  1-6: rewrite Hh by (unfold sizeof_slide_info2; lia); unfold store_header;
    rewrite ?mread_mwrite_disjoint by lia; rewrite mread_mwrite; apply Z.mod_small;
    first [done | (unfold PAGE_SZ; lia) | lia].
  - intros p xs Hx. unfold m. rewrite Ew, table_read.
    + unfold starts. apply elt_lookup. by rewrite list_lookup_imap, Hx.
    + apply Forall_lookup. intros i v Hv. unfold starts in Hv. rewrite list_lookup_imap in Hv.
      destruct (pages !! i) as [ys|] eqn:Ei; [|done]. cbn in Hv. injection Hv as <-.
      destruct (start_entry_range _ _ (Hp _ _ Ei)) as [?| ->]; [lia|]. done.
    + unfold starts. rewrite length_imap. by eapply lookup_lt_Some.
  - intros c Hc. unfold m. rewrite Ew, mget_mstore_out by (unfold sizeof_slide_info2; lia).
    unfold store_header. rewrite !mget_mwrite_out by lia. done.
Qed.

Lemma PAGE_ALIGN_ge x : 0 <= x < 2 ^ 63 -> x <= PAGE_ALIGN x.
Proof.
  intros Hx. unfold PAGE_ALIGN, PAGE_SZ. rewrite wrap_small by lia. change (4096 - 1) with (Z.ones 12).
  rewrite Z.ldiff_ones_r, Z.shiftr_div_pow2, Z.shiftl_mul_pow2 by lia.
  pose proof (Z.div_mod (x + Z.ones 12) (2 ^ 12) ltac:(lia)). pose proof (Z.mod_pos_bound (x + Z.ones 12) (2 ^ 12) ltac:(lia)).
  change (Z.ones 12) with 4095 in *. lia.
Qed.

(** What the builder has recorded: aligned pointers of the DATA region that do not
    overlap. *)
Record recorded (off size : Z) (L : list Z) (b : mem) : Prop := {
  r_off : 0 <= off;
  r_size : 0 <= size /\ off + size <= 2 ^ 40;
  r_wf : mem_wf b;
  r_locations : forall x, x ∈ L -> off <= x /\ x + 8 <= off + size /\ (x - off) mod 4 = 0;
  r_separate : forall x y, x ∈ L -> y ∈ L -> x = y \/ x + 8 <= y \/ y + 8 <= x;
  r_nonempty : L <> [] }.

Lemma chained_ext off b0 b b' pages : (forall xs x, xs ∈ pages -> x ∈ xs -> mread b' x 8 = mread b x 8) ->
  chained off b0 b pages -> chained off b0 b' pages.
Proof.
  intros He Hc p xs Hx. destruct (Hc p xs Hx) as (H1 & H2 & H3 & H4). split_and!; try done.
  eapply linked_same; [|done]. intros x Hin. rewrite Z.add_0_r. eapply He; [by eapply list_elem_of_lookup_2|done].
Qed.

Lemma generate_ok off size L b0 slideOff sz b' locs sz' : recorded off size L b0 -> off + size <= slideOff <= 2 ^ 41 ->
  generate_slide_info_v2 off size slideOff sz L b0 = Some (b', locs, sz') ->
  exists pages, Z.of_nat (length pages) = page_count size /\ concat pages = locs /\ locs = sort_and_deduplicate L /\
    chained off b0 b' pages /\ slide_info b' slideOff off pages /\
    (forall a, a < slideOff -> (forall x, x ∈ L -> a < x \/ x + 8 <= a) -> mget b' a = mget b0 a) /\
    sizeof_slide_info2 + 2 * page_count size <= sz' /\ mem_wf b'.
Proof.
  intros [Ho Hs Hw Hl Hsep Hne] Hso. unfold generate_slide_info_v2. destruct L as [|l0 L0] eqn:EL; [done|]. rewrite <- EL in *.
  pose proof (page_count_range off size Ho Hs) as [HN _]. unfold page_count in HN.
  rewrite (wrap_small 64) by (unfold PAGE_SZ; lia). rewrite (wrap_small 32) by done. fold (page_count size) in HN |- *.
  set (N := Z.to_nat (page_count size)). assert (EN : Z.of_nat N = page_count size) by lia.
  pose proof (for_range_ind (built off b0 N (sort_and_deduplicate L)) 0 N (chain_page off)
    (Some (b0, repeat SLIDE_PAGE_NO_REBASE N, sort_and_deduplicate L))) as HB.
  destruct (for_range 0 N (chain_page off) _) as [[[b starts] rest]|]; [|done].
  assert (HB' : built off b0 N (sort_and_deduplicate L) N (Some (b, starts, rest))).
  { apply HB.
    - exists []. split_and!; try done; [|by rewrite Nat.sub_0_r].
      apply Forall_forall. intros y Hy. apply (sort_and_deduplicate_ok L Hne), Hl in Hy as [Hy _]. unfold page_start. lia.
    - intros k s Hk. by apply (chain_page_ok off size L b0 Ho Hs Hl Hsep Hne). }
  clear HB. pose proof (all_pages off size L b0 Ho Hs Hl Hne N b starts rest EN HB') as ->.
  destruct HB' as (pages & HP & EL' & _ & Hc & -> & Hu & Hw'). rewrite Nat.sub_diag, !app_nil_r in *. cbn [repeat].
  rewrite ?app_nil_r. rewrite <- EN, <- HP in *. intros [= <- <- <-]. exists pages.
  destruct (slide_info_stored b off slideOff pages) as [HS HU]; [lia|lia|intros p xs Hx; by apply Hc in Hx as [? _]|].
  assert (Hin : forall x, x ∈ concat pages -> x ∈ L) by (intros x; rewrite <- EL'; apply (sort_and_deduplicate_ok L Hne)).
  split_and!; try done.
  - eapply chained_ext; [|done]. intros xs x Hxs Hx. apply mread_ext. intros c Hcx. apply HU.
    destruct (Hl x) as (_ & Hlx & _); [apply Hin, elem_of_concat; eauto|]. lia.
  - intros a Ha Hax. rewrite HU by done. apply Hu. intros x Hx. apply Hax, Hin, Hx.
  - rewrite wrap_small by (unfold sizeof_slide_info2; lia). pose proof (PAGE_ALIGN_ge (sizeof_slide_info2 + Z.of_nat (length pages) * 2)) as HA.
    unfold sizeof_slide_info2 in *. lia.
  - unfold store_header. auto 20 with panthera.
Qed.

(** ** Walking the chains *)
Lemma spaced_length e r : forall x, spaced (x :: r) -> Forall (fun y => y < e) (x :: r) -> x + 8 * Z.of_nat (length r) < e.
Proof.
  induction r as [|z r IH]; intros x Hs He; [apply Forall_inv in He; cbn; lia|].
  apply spaced_cons in Hs as [Hs Hx]. apply Forall_cons in He as [_ He]. specialize (IH z Hs He).
  specialize (Hx z ltac:(by left)). cbn [length]. lia.
Qed.

Lemma slid_range slide v : 0 <= slid slide v < 2 ^ 64.
Proof. unfold slid. destruct (_ || _); [lia|apply wrap_64_range]. Qed.

(** A stored pointer is restored. *)
Lemma slid_offset slide v : 0 <= v < 2 ^ 64 ->
  (if offset_part v =? 0 then offset_part v else (offset_part v +64 valueAdd) +64 slide) = slid slide v.
Proof.
  intros Hv. unfold slid, offset_part. destruct (Z.eqb_spec v 0) as [->|Hn]; [done|]. cbn [orb].
  destruct (Z.eqb_spec (v - valueAdd) 0) as [E|E], (Z.eqb_spec v valueAdd); try lia.
  rewrite wrap_add_l. f_equal. lia.
Qed.

Section Walk.
Variables (b0 : mem) (s t slide : Z).
Hypothesis wf0 : mem_wf b0.
Hypothesis Hbase : 0 <= s + t /\ s + t + 2 * PAGE_SZ <= 2 ^ 64.

Let step := chain_step deltaMask deltaShift valueAdd slide (s + t).

Lemma chain_step_ok m x r : spaced (x :: r) -> in_page s (x :: r) -> representable (mread b0 x 8) ->
  mread m (x + t) 8 = link (mread b0 x 8) (gap x r) ->
  step (m, x - s) =
    let m' := mwrite m (x + t) 8 (slid slide (mread b0 x 8)) in
    match r with [] => inr (Some m') | y :: _ => inl (m', y - s) end.
Proof.
  intros Hs Hp Hrep Hm. destruct (gap_range s x r Hs Hp) as [Hg Hg4].
  destruct (link_decode _ _ Hrep Hg Hg4) as (_ & Ed & Ev). pose proof (Forall_inv Hp) as [Hx _]. unfold PAGE_SZ in *.
  unfold step, chain_step. rewrite (wrap_small 64 (s + t + (x - s))) by lia. replace (s + t + (x - s)) with (x + t) by lia.
  rewrite Hm, Ed, Ev. change (deltaShift <? 0) with false. cbn [andb].
  rewrite slid_offset by (apply (mread_range b0 x 8 wf0)). destruct r as [|y r]; cbn [gap].
  - done.
  - apply spaced_cons in Hs as [_ Hy]. specialize (Hy y ltac:(by left)).
    apply Forall_cons in Hp as [_ Hp]. apply Forall_inv in Hp as [Hyr _]. unfold PAGE_SZ in *.
    destruct (Z.eqb_spec (y - x) 0); [lia|]. do 2 f_equal. rewrite wrap_small by lia. lia.
Qed.

Lemma walk_runs r : forall x m, spaced (x :: r) -> in_page s (x :: r) ->
  (forall y, y ∈ x :: r -> representable (mread b0 y 8)) -> linked b0 m t (x :: r) ->
  exists m', runs step (S (length r)) (m, x - s) = inr (Some m') /\
    (forall y, y ∈ x :: r -> mread m' (y + t) 8 = slid slide (mread b0 y 8)) /\
    untouched (map (fun y => y + t) (x :: r)) m m'.
Proof.
  induction r as [|z r IH]; intros x m Hs Hp Hrep Hl; cbn [length runs];
    rewrite (chain_step_ok m x _ Hs Hp (Hrep x ltac:(by left)) (proj1 Hl)); cbv zeta;
    set (m1 := mwrite m (x + t) 8 (slid slide (mread b0 x 8)));
    (assert (E1 : mread m1 (x + t) 8 = slid slide (mread b0 x 8)) by
      (unfold m1; rewrite mread_mwrite; apply Z.mod_small; apply slid_range)).
  - exists m1. split_and!; [done| |apply untouched_mwrite]. intros y [->|Hy]%elem_of_cons; [done|by apply elem_of_nil in Hy].
  - pose proof Hs as Hs'. apply spaced_cons in Hs' as [Hs' Hx]. apply Forall_cons in Hp as [_ Hp].
    destruct (IH z m1 Hs' Hp) as (m' & E & Hr & Hu).
    { intros y Hy. apply Hrep. by right. }
    { destruct Hl as [_ Hl]. eapply linked_ext; [exact Hl|apply untouched_mwrite|].
      intros y w Hy ->%list_elem_of_singleton. right. specialize (Hx y Hy). lia. }
    exists m'. split_and!; [exact E| |by apply (untouched_trans [x + t] (map _ (z :: r)) m m1 m'); [apply untouched_mwrite|]].
    intros y [->|Hy]%elem_of_cons; [|by apply Hr]. rewrite <- E1. eapply untouched_mread; [exact Hu|].
    intros w Hw. apply list_elem_of_fmap in Hw as (v & -> & Hv). specialize (Hx v Hv). left. lia.
Qed.

Lemma walk_chain_ok x r m : spaced (x :: r) -> in_page s (x :: r) ->
  (forall y, y ∈ x :: r -> representable (mread b0 y 8)) -> linked b0 m t (x :: r) ->
  exists m', walk_chain deltaMask deltaShift valueAdd slide (s + t) m (x - s) = Some m' /\
    (forall y, y ∈ x :: r -> mread m' (y + t) 8 = slid slide (mread b0 y 8)) /\
    untouched (map (fun y => y + t) (x :: r)) m m'.
Proof.
  intros Hs Hp Hrep Hl. destruct (walk_runs r x m Hs Hp Hrep Hl) as (m' & E & H). exists m'. split; [|done].
  unfold walk_chain. eapply while_runs; [exact E|]. pose proof (Forall_inv Hp) as [Hx _].
  pose proof (spaced_length (s + PAGE_SZ) r x Hs) as Hlen. unfold PAGE_SZ, rounds64 in *.
  enough (x + 8 * Z.of_nat (length r) < s + 4096) by lia. apply Hlen. eapply Forall_impl; [exact Hp|]. intros y [Hy _]. unfold PAGE_SZ in Hy. lia.
Qed.
End Walk.

(** ** The whole table *)
Lemma entry_bits v : 0 <= v < 1024 -> Z.land v SLIDE_PAGE_EXTRA = 0 /\ Z.land v SLIDE_PAGE_VALUE = v.
Proof.
  intros Hv. assert (E : Z.land v (Z.ones 14) = v) by (rewrite Z.land_ones by lia; apply Z.mod_small; lia).
  split; [|exact E]. rewrite <- E, <- Z.land_assoc. change (Z.land (Z.ones 14) SLIDE_PAGE_EXTRA) with 0. apply Z.land_0_r.
Qed.

Section Apply.
Variables (off size slide info data : Z) (pages : list (list Z)) (b0 b' m : mem).
Let t := data - off.
Hypothesis wf0 : mem_wf b0.
Hypothesis Hdata : 0 <= data /\ data + Z.of_nat (length pages) * PAGE_SZ + PAGE_SZ <= 2 ^ 64.
Hypothesis Hinfo : 0 <= info /\ info + sizeof_slide_info2 + 2 * Z.of_nat (length pages) <= 2 ^ 64.
Hypothesis apart : info + sizeof_slide_info2 + 2 * Z.of_nat (length pages) <= data \/ data + size <= info.
Hypothesis inside : forall x, x ∈ concat pages -> off <= x /\ x + 8 <= off + size.
Hypothesis Hsp : spaced (concat pages).
Hypothesis table : slide_info m info off pages.
Hypothesis chains : forall p xs, pages !! p = Some xs ->
  in_page (page_start off p) xs /\ spaced xs /\ linked b0 m t xs /\ (forall x, x ∈ xs -> representable (mread b0 x 8)).

(** What the first [k] pages have restored. *)
Definition restored (k : nat) (s : option mem) : Prop :=
  exists m', s = Some m' /\ untouched (map (fun y => y + t) (concat (take k pages))) m m' /\
    (forall x, x ∈ concat (take k pages) -> mread m' (x + t) 8 = slid slide (mread b0 x 8)).

Lemma restored_outside k m' a n : untouched (map (fun y => y + t) (concat (take k pages))) m m' ->
  a + Z.of_nat n <= data \/ data + size <= a -> mread m' a n = mread m a n.
Proof.
  intros Hu Ha. apply mread_ext. intros c Hc. apply Hu. intros x Hx. apply list_elem_of_fmap in Hx as (y & -> & Hy).
  assert (Hin : y ∈ concat pages).
  { rewrite <- (take_drop k pages), concat_app. apply elem_of_app. by left. }
  apply inside in Hin. unfold t. lia.
Qed.

Lemma slide_page_ok k s : (k < length pages)%nat -> restored k s ->
  restored (S k) (slide_page deltaMask deltaShift valueAdd slide PAGE_SZ (info +64 sizeof_slide_info2)
    (info +64 (mread m (info + 16) 4)) (mread m (info + 20) 4) data k s).
Proof.
  intros Hk (m' & -> & Hu & Hr). destruct (lookup_lt_is_Some_2 pages k Hk) as [xs Hxs].
  destruct (chains k xs Hxs) as (Hp & Hs & Hl & Hrep). destruct table as (_ & _ & _ & _ & _ & _ & Htab).
  assert (Et : take (S k) pages = take k pages ++ [xs]) by (by apply take_S_r).
  assert (Hd : forall x y, x ∈ concat (take k pages) -> y ∈ xs -> x + 8 <= y).
  { pose proof Hsp as H. rewrite <- (take_drop k pages), concat_app in H. apply spaced_app in H as (_ & _ & H).
    intros x y Hx Hy. apply H; [done|]. apply elem_of_concat. exists xs. split; [|done].
    apply list_elem_of_lookup. exists 0%nat. by rewrite lookup_drop, Nat.add_0_r. }
  unfold slide_page. cbv zeta. rewrite (wrap_small 64 (info + sizeof_slide_info2)) by (unfold sizeof_slide_info2 in *; lia).
  rewrite (wrap_small 64 (info + sizeof_slide_info2 + _)) by (unfold sizeof_slide_info2 in *; lia).
  rewrite (restored_outside k m' _ 2 Hu) by (unfold sizeof_slide_info2 in *; lia). rewrite (Htab k xs Hxs).
  destruct xs as [|x xs]; cbn [start_entry].
  { exists m'. unfold restored. rewrite Et, concat_snoc, app_nil_r. done. }
  destruct (start_entry_range _ _ Hp) as [Hse|]; [|done]. cbn [start_entry] in Hse.
  destruct (Z.eqb_spec ((x - page_start off k) / 4) SLIDE_PAGE_NO_REBASE) as [E|_]; [unfold SLIDE_PAGE_NO_REBASE in E; lia|].
  destruct (entry_bits _ Hse) as [-> ->]. cbn [negb Z.eqb].
  pose proof (Forall_inv Hp) as [Hx Hx4]. assert (Ex : Z.shiftl ((x - page_start off k) / 4) SLIDE_PAGE_OFFSET_SHIFT = x - page_start off k).
  { unfold SLIDE_PAGE_OFFSET_SHIFT. rewrite Z.shiftl_mul_pow2 by lia. pose proof (Z.div_mod (x - page_start off k) 4 ltac:(lia)). lia. }
  rewrite Ex, (wrap_small 64) by (unfold PAGE_SZ in *; lia).
  replace (data + Z.of_nat k * PAGE_SZ) with (page_start off k + t) by (unfold page_start, t; lia).
  destruct (walk_chain_ok b0 (page_start off k) t slide wf0 ltac:(unfold page_start, t, PAGE_SZ in *; lia) x xs m' Hs Hp Hrep)
    as (m2 & -> & Hr2 & Hu2).
  { eapply linked_ext; [exact Hl|exact Hu|]. intros y z Hy Hz. apply list_elem_of_fmap in Hz as (w & -> & Hw).
    specialize (Hd w y Hw Hy). lia. }
  exists m2. rewrite Et, concat_snoc, map_app. split_and!; [done|by eapply untouched_trans|].
  intros y [Hy|Hy]%elem_of_app; [|by apply Hr2]. rewrite <- (Hr y Hy). eapply untouched_mread; [exact Hu2|].
  intros z Hz. apply list_elem_of_fmap in Hz as (w & -> & Hw). specialize (Hd y w Hy Hw). lia.
Qed.

Lemma apply_ok : exists m', applySlidInfoV2 info data slide m = Some m' /\
  untouched (map (fun y => y + t) (concat pages)) m m' /\
  (forall x, x ∈ concat pages -> mread m' (x + t) 8 = slid slide (mread b0 x 8)).
Proof.
  unfold applySlidInfoV2. destruct table as (-> & -> & -> & -> & -> & -> & _). cbn [negb Z.eqb Pos.eqb].
  rewrite Nat2Z.id. change (trailing_zeros 64 deltaMask - 2) with deltaShift.
  match goal with |- exists m', ?e = _ /\ _ => assert (HR : restored (length pages) e) end.
  - apply (for_range_ind restored 0 (length pages)).
    + exists m. cbn. split_and!; [done|done|]. intros x Hx. by apply elem_of_nil in Hx.
    + intros k s Hk Hs. apply (slide_page_ok k s Hk Hs).
  - unfold restored in HR. by rewrite firstn_all in HR.
Qed.
End Apply.

(** A mapped table reads the same. *)
Lemma slide_info_mapped m b info slideOff off pages : slide_info b slideOff off pages ->
  mbytes m info (Z.to_nat (sizeof_slide_info2 + 2 * Z.of_nat (length pages))) =
    mbytes b slideOff (Z.to_nat (sizeof_slide_info2 + 2 * Z.of_nat (length pages))) ->
  slide_info m info off pages.
Proof.
  intros Hsi Hi. assert (Hrd : forall c k, 0 <= c -> c + Z.of_nat k <= 40 + 2 * Z.of_nat (length pages) ->
    mread m (info + c) k = mread b (slideOff + c) k).
  { intros c k H1 H2. eapply mread_region; [exact Hi|done|]. unfold sizeof_slide_info2. lia. }
  destruct Hsi as (H1 & H2 & H3 & H4 & H5 & H6 & H7). unfold slide_info, sizeof_slide_info2 in *.
  rewrite <- (Z.add_0_r info) at 1. rewrite !Hrd, Z.add_0_r by lia. split_and!; try done.
  intros p xs Hx. rewrite <- Z.add_assoc, Hrd, Z.add_assoc; [by apply H7|lia|].
  pose proof (lookup_lt_Some _ _ _ Hx). lia.
Qed.

Lemma slide_info_restored (off size slideOff sz sz' : Z) (L locs : list Z) (b b' : mem) (data info slide : Z) (m : mem) :
  recorded off size L b -> off + size <= slideOff <= 2 ^ 41 ->
  generate_slide_info_v2 off size slideOff sz L b = Some (b', locs, sz') ->
  let n := sizeof_slide_info2 + 2 * page_count size in
  mbytes m data (Z.to_nat size) = mbytes b' off (Z.to_nat size) ->
  mbytes m info (Z.to_nat n) = mbytes b' slideOff (Z.to_nat n) ->
  0 <= data -> data + size <= 2 ^ 63 -> 0 <= info -> info + n <= 2 ^ 63 -> info + n <= data \/ data + size <= info ->
  exists m', applySlidInfoV2 info data slide m = Some m' /\
    (forall x, x ∈ L -> mread m' (data + (x - off)) 8 = slid slide (mread b x 8)) /\
    (forall a, 0 <= a < size -> (forall x, x ∈ L -> off + a < x \/ x + 8 <= off + a) ->
      mget m' (data + a) = mget b (off + a)) /\
    only_in data size m m'.
Proof.
  intros HR Hso Hg n Hd Hi D0 D1 I0 I1 Hap.
  destruct (generate_ok off size L b slideOff sz b' locs sz' HR Hso Hg) as (pages & HN & Hc & Hlocs & Hch & Hsi & Hout & _ & _).
  destruct HR as [Ho Hs Hw Hl Hsep Hne]. pose proof (page_count_range off size Ho Hs) as [HNr HNs].
  assert (HL : forall x, x ∈ concat pages <-> x ∈ L) by (rewrite Hc, Hlocs; apply (sort_and_deduplicate_ok L Hne)).
  assert (Hn : 0 <= n) by (unfold n, sizeof_slide_info2; lia).
  destruct (apply_ok off size slide info data pages b m) as (m' & E & Hu & Hr); try done.
  - rewrite HN. unfold page_count, PAGE_SZ in *. pose proof (Z.div_mod (size + (4096 - 1)) 4096 ltac:(lia)).
    pose proof (Z.mod_pos_bound (size + (4096 - 1)) 4096 ltac:(lia)). lia.
  - rewrite HN. unfold n in *. lia.
  - rewrite HN. unfold n in *. lia.
  - intros x Hx. apply HL, Hl in Hx. lia.
  - rewrite Hc, Hlocs. by apply (spaced_locs L).
  - eapply slide_info_mapped; [exact Hsi|by rewrite HN].
  - intros p xs Hx. destruct (Hch p xs Hx) as (C1 & C2 & C3 & C4). split_and!; try done.
    eapply linked_same; [|exact C3]. intros x Hxx. rewrite Z.add_0_r.
    assert (Hin : x ∈ L) by (apply HL, elem_of_concat; exists xs; split; [by eapply list_elem_of_lookup_2|done]).
    apply Hl in Hin. replace (x + (data - off)) with (data + (x - off)) by lia. replace x with (off + (x - off)) at 2 by lia.
    eapply mread_region; [exact Hd|lia|]. rewrite Z2Nat.id by lia. lia.
  - exists m'. split_and!; [done| | |].
    + intros x Hx. replace (data + (x - off)) with (x + (data - off)) by lia. apply Hr, HL, Hx.
    + intros a Ha Hx. rewrite Hu.
      * rewrite <- (Hout (off + a)) by (done || lia). rewrite mbytes_relocate in Hd. apply Hd. lia.
      * intros y Hy. apply list_elem_of_fmap in Hy as (x & -> & Hxp). apply HL in Hxp. specialize (Hx x Hxp). lia.
    + intros c Hcx. apply Hu. intros y Hy. apply list_elem_of_fmap in Hy as (x & -> & Hxp). apply HL, Hl in Hxp. lia.
Qed.

(** C26. The builder's slide info and dyld's reader are inverse. The recorded
    pointers are turned into chains in the cache file; when the file's DATA region
    and table are mapped, [applySlidInfoV2] terminates, restores every recorded
    pointer with the slide added and leaves every other byte as the builder had it
    before. The one exception is a pointer to the base of the shared region, which
    is restored as a null pointer ([slid]). *)
Theorem slide_info_roundtrip (off size slideOff sz sz' : Z) (L locs : list Z) (b b' : mem) (data info slide : Z) (m : mem) :
  recorded off size L b -> off + size <= slideOff <= 2 ^ 41 ->
  generate_slide_info_v2 off size slideOff sz L b = Some (b', locs, sz') ->
  let n := sizeof_slide_info2 + 2 * page_count size in
  mbytes m data (Z.to_nat size) = mbytes b' off (Z.to_nat size) ->
  mbytes m info (Z.to_nat n) = mbytes b' slideOff (Z.to_nat n) ->
  0 <= data -> data + size <= 2 ^ 63 -> 0 <= info -> info + n <= 2 ^ 63 -> info + n <= data \/ data + size <= info ->
  exists m', applySlidInfoV2 info data slide m = Some m' /\
    (forall x, x ∈ L -> mread m' (data + (x - off)) 8 = slid slide (mread b x 8)) /\
    (forall a, 0 <= a < size -> (forall x, x ∈ L -> off + a < x \/ x + 8 <= off + a) ->
      mget m' (data + a) = mget b (off + a)) /\
    only_in data size m m'.
Proof. apply slide_info_restored. Qed.

(** A cache with three pointers in its DATA region, at 0x1000, mapped at 0x20000;
    the last one points to the base of the region. *)
Definition small_locs : list Z := [0x1018; 0x1004; 0x1010; 0x1004].
Definition small_buf : mem :=
  mwrite (mwrite (mwrite (mwrite ∅ 0x1004 8 0x7FFF80000018) 0x100C 4 7) 0x1010 8 0) 0x1018 8 SHARED_REGION_BASE.
Definition small_map (b' : mem) : mem :=
  mstore (mstore ∅ 0x10000 (mbytes b' 0x2000 42)) 0x20000 (mbytes b' 0x1000 32).

Lemma small_recorded : recorded 0x1000 32 small_locs small_buf.
Proof.
  split; try lia; try done; [unfold small_buf; auto 20 with panthera| |]; unfold small_locs.
  - intros x Hx. rewrite !elem_of_cons, elem_of_nil in Hx. destruct_or! Hx; subst; try done; split_and!; (lia || done).
  - intros x y Hx Hy. rewrite !elem_of_cons, elem_of_nil in Hx, Hy. destruct_or! Hx; destruct_or! Hy; subst; try done; lia.
Qed.

Lemma small_built : is_Some (generate_slide_info_v2 0x1000 32 0x2000 0 small_locs small_buf).
Proof. apply is_Some_bool. vm_compute. reflexivity. Qed.

Lemma mem_wf_bytes m a n : mem_wf m -> Forall byte (mbytes m a n).
Proof. intros Hw. revert a. induction n as [|n IH]; intros a; cbn [mbytes]; constructor; [apply Hw|apply IH]. Qed.

Lemma slide_info_roundtrip_witness : exists b' locs sz' m',
  generate_slide_info_v2 0x1000 32 0x2000 0 small_locs small_buf = Some (b', locs, sz') /\
  applySlidInfoV2 0x10000 0x20000 0x5000 (small_map b') = Some m' /\
  mread m' 0x20004 8 = 0x7FFF80005018 /\ mread m' 0x20010 8 = 0 /\ mread m' 0x20018 8 = 0 /\ mget m' 0x2000C = 7.
Proof.
  destruct small_built as [[[b' locs] sz'] E].
  exists b', locs, sz'.
  pose proof (generate_ok 0x1000 32 small_locs small_buf 0x2000 0 b' locs sz' small_recorded ltac:(lia) E) as (_ & _ & _ & _ & _ & _ & _ & _ & Hw).
  destruct (slide_info_roundtrip 0x1000 32 0x2000 0 sz' small_locs locs small_buf b' 0x20000 0x10000 0x5000 (small_map b')
    small_recorded ltac:(lia) E) as (m' & E' & H1 & H2 & _).
  - change (Z.to_nat 32) with (length (mbytes b' 0x1000 32)). apply mbytes_mstore, mem_wf_bytes, Hw.
  - change (Z.to_nat _) with 42%nat. transitivity (mbytes (mstore ∅ 0x10000 (mbytes b' 0x2000 42)) 0x10000 42).
    + apply mbytes_ext. intros c Hc. apply mget_mstore_out. left. lia.
    + change 42%nat with (length (mbytes b' 0x2000 42)) at 2. apply mbytes_mstore, mem_wf_bytes, Hw.
  - lia.
  - lia.
  - lia.
  - vm_compute. discriminate.
  - left. vm_compute. discriminate.
  - exists m'. split_and!; [done|done| | | |].
    + apply (H1 0x1004). by repeat constructor.
    + apply (H1 0x1010). by repeat constructor.
    + apply (H1 0x1018). by repeat constructor.
    + apply (H2 0xC); [lia|]. intros x Hx. unfold small_locs in Hx. rewrite !elem_of_cons, elem_of_nil in Hx. clear E E'. lia.
Defined.
