(* ===== verification/Leb128.v ===== *)
(** * LEB128 numbers: userland/dyld/panthera_dyld.cpp

    The readers of variable-length integers, and the numbers that byte strings
    stand for. The readers without a bound shift by 64 or more when a number has
    more than ten bytes, which C leaves undefined; that is the value [None]. *)

From Stdlib Require Import ZArith Lia.
From stdpp Require Import base list gmap.
From S2P Require Import Prelude Words Runs.

Open Scope Z_scope.

(** ** readULEB128Bounded

    The value, if there is one, and the cursor afterwards. Ten bytes bring
    [shift] to 70, past the limit of 64. *)
Fixpoint uleb_loop (n : nat) (m : mem) (p e result shift : Z) : option Z * Z :=
  match n with
  | O => (None, p)
  | S n =>
      if p <? e then
        let byte := mget m p in
        let p := p + 1 in
        let result := Z.lor result (wrap 64 (Z.shiftl (Z.land byte 0x7f) shift)) in
        if Z.land byte 0x80 =? 0 then (Some result, p) else uleb_loop n m p e result (shift + 7)
      else (None, p)
  end.

Definition readULEB128Bounded (m : mem) (p e : Z) : option Z * Z := uleb_loop 10 m p e 0 0.

(** ** readULEB128 and readSLEB128

    The value and the cursor after it. *)
Fixpoint uleb_do (n : nat) (m : mem) (p result shift : Z) : option (Z * Z) :=
  match n with
  | O => None
  | S n =>
      let byte := mget m p in
      let result := Z.lor result (wrap 64 (Z.shiftl (Z.land byte 0x7f) shift)) in
      let p := p + 1 in
      if Z.land byte 0x80 =? 0 then Some (result, p) else uleb_do n m p result (shift + 7)
  end.

Definition readULEB128 (m : mem) (p : Z) : option (Z * Z) := uleb_do 10 m p 0 0.

Fixpoint sleb_do (n : nat) (m : mem) (p result shift : Z) : option (Z * Z) :=
  match n with
  | O => None
  | S n =>
      let byte := mget m p in
      let p := p + 1 in
      let result := Z.lor result (wrap 64 (Z.shiftl (Z.land byte 0x7f) shift)) in
      let shift := shift + 7 in
      if Z.land byte 0x80 =? 0 then
        let result :=
          if (shift <? 64) && negb (Z.land byte 0x40 =? 0) then Z.lor result (wrap 64 (- Z.shiftl 1 shift)) else result in
        Some (signed 64 result, p)
      else sleb_do n m p result shift
  end.

Definition readSLEB128 (m : mem) (p : Z) : option (Z * Z) := sleb_do 10 m p 0 0.

(** ** Numbers and their encodings *)
Fixpoint leb_value (bs : list Z) : Z :=
  match bs with
  | [] => 0
  | b :: bs => Z.land b 0x7f + 128 * leb_value bs
  end.

(** Every byte but the last has the continuation bit. *)
Fixpoint leb_ok (bs : list Z) : Prop :=
  match bs with
  | [] => False
  | [b] => 0 <= b < 128
  | b :: bs => 128 <= b < 256 /\ leb_ok bs
  end.

(** [m] has at [p] a number of at most ten bytes that ends before [e]; [q] is the
    address after it. *)
Definition uleb_at (m : mem) (p e v q : Z) : Prop := exists bs,
  holds m p bs /\ leb_ok bs /\ (length bs <= 10)%nat /\ leb_value bs = v /\ v < 2 ^ 64 /\ q = p + Z.of_nat (length bs) /\ q <= e.

(** The encoding linkers use, with as few bytes as possible. *)
Fixpoint uleb_encode (n : nat) (v : Z) : list Z :=
  match n with
  | O => []
  | S n => if v <? 128 then [v] else (128 + v mod 128) :: uleb_encode n (v / 128)
  end.

Fixpoint sleb_encode (n : nat) (v : Z) : list Z :=
  match n with
  | O => []
  | S n => if (- 64 <=? v) && (v <? 64) then [v mod 128] else (128 + v mod 128) :: sleb_encode n (v / 128)
  end.

(** ** Lemmas *)
Lemma land_7f b : Z.land b 0x7f = b mod 128.
Proof. change 0x7f with (Z.ones 7). by rewrite Z.land_ones. Qed.

Lemma land_80 b : 0 <= b < 256 -> Z.land b 0x80 = if b <? 128 then 0 else 128.
Proof.
  intros Hb. assert (H : all_bytes (fun b => Z.land b 0x80 =? (if b <? 128 then 0 else 128)) = true) by (vm_compute; reflexivity).
  pose proof (all_bytes_spec _ b H Hb) as Hs. cbv beta in Hs. lia.
Qed.

Lemma lor_shiftl_add a b s : 0 <= s -> 0 <= a < 2 ^ s -> Z.lor a (Z.shiftl b s) = a + 2 ^ s * b.
Proof.
  intros Hs Ha. assert (E : Z.land a (Z.shiftl b s) = 0).
  { apply Z.bits_inj'. intros i Hi. rewrite Z.land_spec, Z.bits_0. destruct (Z.lt_ge_cases i s) as [Hlt|Hge].
    - rewrite Z.shiftl_spec_low by lia. apply andb_false_r.
    - rewrite <- (Z.mod_small a (2 ^ s)) by done. by rewrite Z.mod_pow2_bits_high by lia. }
  pose proof (Z.add_lor_land a (Z.shiftl b s)) as H. rewrite E, Z.shiftl_mul_pow2 in * by done. lia.
Qed.

Lemma leb_value_nonneg bs : 0 <= leb_value bs.
Proof.
  induction bs as [|b bs IH]; cbn [leb_value]; [lia|]. rewrite land_7f. pose proof (Z.mod_pos_bound b 128 ltac:(lia)). lia.
Qed.

(** One digit more. *)
Lemma leb_digit result shift b rest : 0 <= shift -> 0 <= result < 2 ^ shift -> 0 <= rest ->
  result + 2 ^ shift * (Z.land b 0x7f + 128 * rest) < 2 ^ 64 ->
  let result' := Z.lor result (wrap 64 (Z.shiftl (Z.land b 0x7f) shift)) in
  result' = result + 2 ^ shift * Z.land b 0x7f /\ 0 <= result' < 2 ^ (shift + 7) /\
  result' + 2 ^ (shift + 7) * rest = result + 2 ^ shift * (Z.land b 0x7f + 128 * rest).
Proof.
  intros Hs Hr Hrest Hv. rewrite land_7f in *. pose proof (Z.mod_pos_bound b 128 ltac:(lia)) as Hd.
  set (d := b mod 128) in *. assert (Hp : 2 ^ (shift + 7) = 2 ^ shift * 128) by (by rewrite Z.pow_add_r by lia).
  pose proof (Z.pow_pos_nonneg 2 shift ltac:(lia) Hs) as Hpos.
  assert (Hw : wrap 64 (Z.shiftl d shift) = Z.shiftl d shift).
  { apply wrap_small. rewrite Z.shiftl_mul_pow2 by done. nia. }
  cbv zeta. rewrite Hw, lor_shiftl_add by done. rewrite Hp. split; [done|]. split; nia.
Qed.

Lemma holds_cons m p b bs : holds m p (b :: bs) <-> mget m p = b /\ holds m (p + 1) bs.
Proof. unfold holds. cbn [length mbytes]. split; [by intros [= -> H]|intros [-> ->]; done]. Qed.

Lemma leb_ok_head b bs : leb_ok (b :: bs) -> 0 <= b < 256 /\ Z.land b 0x80 = (if b <? 128 then 0 else 128) /\
  ((b <? 128) = match bs with [] => true | _ => false end) /\ match bs with [] => True | _ => leb_ok bs end.
Proof.
  intros H. assert (Hb : 0 <= b < 256) by (destruct bs; cbn in H; lia). split; [done|]. split; [by apply land_80|].
  destruct bs as [|c bs]; cbn in H; (split; [lia|]); [done|by destruct H].
Qed.

Lemma uleb_loop_ok m e bs : forall n p result shift, holds m p bs -> leb_ok bs -> (length bs <= n)%nat ->
  0 <= shift -> 0 <= result < 2 ^ shift -> result + 2 ^ shift * leb_value bs < 2 ^ 64 -> p + Z.of_nat (length bs) <= e ->
  uleb_loop n m p e result shift = (Some (result + 2 ^ shift * leb_value bs), p + Z.of_nat (length bs)).
Proof.
  induction bs as [|b bs IH]; intros n p result shift Hh Hok Hn Hs Hr Hv He; [done|].
  destruct n as [|n]; [cbn in Hn; lia|]. apply holds_cons in Hh as [Hb Hh]. cbn [length leb_value uleb_loop] in *.
  destruct (Z.ltb_spec p e); [|lia]. rewrite Hb. apply leb_ok_head in Hok as (_ & -> & Hl & Hok).
  destruct (leb_digit result shift b (leb_value bs) Hs Hr (leb_value_nonneg bs) Hv) as (E1 & E2 & E3). rewrite Hl.
  destruct bs as [|c bs].
  - cbn [Z.eqb leb_value length] in *. repeat f_equal; lia.
  - cbn [Z.eqb]. rewrite IH; [|done|done|lia|lia|done|lia|lia]. rewrite E3. f_equal. lia.
Qed.

Lemma readULEB128Bounded_ok m p e v q : uleb_at m p e v q -> readULEB128Bounded m p e = (Some v, q).
Proof.
  intros (bs & Hh & Hok & Hl & <- & Hv & -> & He). unfold readULEB128Bounded.
  rewrite (uleb_loop_ok m e bs) by (done || lia). f_equal. f_equal. lia.
Qed.

Lemma uleb_do_loop m e : forall n p result shift v q, uleb_loop n m p e result shift = (Some v, q) -> uleb_do n m p result shift = Some (v, q).
Proof.
  induction n as [|n IH]; intros p result shift v q; cbn [uleb_loop uleb_do]; [done|].
  destruct (p <? e); [|done]. destruct (_ =? 0); [by intros [= -> ->]|apply IH].
Qed.

Lemma readULEB128_ok m p e v q : uleb_at m p e v q -> readULEB128 m p = Some (v, q).
Proof. intros H. eapply uleb_do_loop. by eapply readULEB128Bounded_ok. Qed.

(** ** Signed numbers *)
Definition last_byte (bs : list Z) : Z := List.last bs 0.

(** The number of a byte string in two's complement: bit 6 of the last byte is the
    sign. *)
Definition sleb_value (bs : list Z) : Z :=
  if last_byte bs <? 64 then leb_value bs else leb_value bs - 2 ^ (7 * Z.of_nat (length bs)).

Definition sleb_at (m : mem) (p e v q : Z) : Prop := exists bs,
  holds m p bs /\ leb_ok bs /\ (length bs <= 10)%nat /\ sleb_value bs = v /\ - 2 ^ 63 <= v < 2 ^ 63 /\ q = p + Z.of_nat (length bs) /\ q <= e.

Lemma lor_digit result d shift : 0 <= shift <= 63 -> 0 <= result < 2 ^ shift -> 0 <= d ->
  Z.lor result (wrap 64 (Z.shiftl d shift)) = wrap 64 (result + 2 ^ shift * d).
Proof.
  intros Hs Hr Hd. assert (E64 : 2 ^ 64 = 2 ^ shift * 2 ^ (64 - shift)) by (rewrite <- Z.pow_add_r by lia; f_equal; lia).
  pose proof (Z.pow_pos_nonneg 2 shift ltac:(lia) ltac:(lia)). pose proof (Z.pow_pos_nonneg 2 (64 - shift) ltac:(lia) ltac:(lia)).
  assert (Ew : wrap 64 (Z.shiftl d shift) = Z.shiftl (d mod 2 ^ (64 - shift)) shift).
  { unfold wrap. rewrite !Z.shiftl_mul_pow2 by lia. rewrite E64, (Z.mul_comm (2 ^ shift)). by rewrite Z.mul_mod_distr_r by lia. }
  rewrite Ew, lor_shiftl_add by (done || lia). pose proof (Z.mod_pos_bound d (2 ^ (64 - shift)) ltac:(lia)).
  unfold wrap. pose proof (Z.div_mod d (2 ^ (64 - shift)) ltac:(lia)) as Edm.
  apply (Z.mod_unique _ _ (d / 2 ^ (64 - shift))); [left; nia|]. rewrite Edm at 1. rewrite E64. ring.
Qed.

Lemma sign_bit b : 0 <= b < 128 -> (Z.land b 0x40 =? 0) = (b <? 64).
Proof.
  intros Hb. assert (Hb' : 0 <= b < 256) by lia. assert (H : all_bytes (fun b => implb (b <? 128) (eqb (Z.land b 0x40 =? 0) (b <? 64))) = true) by (vm_compute; reflexivity).
  pose proof (all_bytes_spec _ b H Hb') as Hs. clear H. cbv beta in Hs. destruct (Z.ltb_spec b 128); [|lia]. by apply eqb_prop in Hs.
Qed.

Lemma sleb_do_ok m bs : forall n p result shift, holds m p bs -> leb_ok bs -> (length bs <= n)%nat -> 0 <= shift ->
  shift + 7 * (Z.of_nat (length bs) - 1) <= 63 -> 0 <= result < 2 ^ shift ->
  sleb_do n m p result shift = Some (signed 64 (wrap 64 (result + 2 ^ shift * sleb_value bs)), p + Z.of_nat (length bs)).
Proof.
  induction bs as [|b bs IH]; intros n p result shift Hh Hok Hn Hs Hs' Hr; [done|].
  destruct n as [|n]; [cbn in Hn; lia|]. apply holds_cons in Hh as [Hb Hh]. cbn [length sleb_do] in *. rewrite Hb.
  pose proof (leb_ok_head b bs Hok) as (Hbr & -> & Hl & Hok'). rewrite Hl. set (d := Z.land b 0x7f).
  assert (Hd : 0 <= d < 128) by (unfold d; rewrite land_7f; apply Z.mod_pos_bound; lia). rewrite lor_digit by lia.
  assert (Hp : 2 ^ (shift + 7) = 2 ^ shift * 128) by (by rewrite Z.pow_add_r by lia). pose proof (Z.pow_pos_nonneg 2 shift ltac:(lia) Hs) as Hpos.
  destruct bs as [|c bs].
  - cbn [Z.eqb]. assert (Hb128 : b < 128) by lia. assert (Ed : d = b) by (unfold d; rewrite land_7f, Z.mod_small by lia; done). rewrite sign_bit by lia. rewrite Ed in *.
    unfold sleb_value, last_byte. cbn [leb_value length List.last]. fold d. rewrite Ed. f_equal. f_equal.
    destruct (Z.ltb_spec b 64); cbn [negb]; [rewrite andb_false_r; do 2 f_equal; lia|]. rewrite andb_true_r.
    destruct (Z.ltb_spec (shift + 7) 64).
    + f_equal. assert (Hle : 2 ^ (shift + 7) <= 2 ^ 63) by (apply Z.pow_le_mono_r; lia). rewrite (wrap_small 64 (result + 2 ^ shift * b)) by nia.
      rewrite Z.shiftl_mul_pow2, Z.mul_1_l by lia. rewrite wrap_neg by lia.
      replace (- 2 ^ (shift + 7) + 2 ^ 64) with (Z.shiftl (2 ^ (64 - (shift + 7)) - 1) (shift + 7)).
      * rewrite lor_shiftl_add by nia. replace (2 ^ (shift + 7) * (2 ^ (64 - (shift + 7)) - 1)) with (2 ^ 64 - 2 ^ (shift + 7)).
        -- unfold wrap. apply (Z.mod_unique _ _ (-1)); [left; nia|]. rewrite Hp. change (Z.of_nat 1) with 1. change (2 ^ (7 * 1)) with 128. ring.
        -- rewrite Z.mul_sub_distr_l, <- Z.pow_add_r by lia. replace (shift + 7 + (64 - (shift + 7))) with 64 by lia. lia.
      * rewrite Z.shiftl_mul_pow2, Z.mul_sub_distr_r, <- Z.pow_add_r by lia. replace (64 - (shift + 7) + (shift + 7)) with 64 by lia. lia.
    + f_equal. unfold wrap. assert (shift + 7 = 64 + (shift - 57)) by lia.
      replace (result + 2 ^ shift * (b + 128 * 0 - 2 ^ (7 * Z.of_nat 1))) with (result + 2 ^ shift * b + (- 2 ^ (shift - 57)) * 2 ^ 64).
      * by rewrite Z_mod_plus_full.
      * change (Z.of_nat 1) with 1. change (2 ^ (7 * 1)) with 128. rewrite Z.mul_opp_l, <- Z.pow_add_r by lia. replace (shift - 57 + 64) with (shift + 7) by lia. rewrite Hp. ring.
  - cbn [Z.eqb]. assert (Hs2 : shift + 7 <= 63) by (cbn [length] in Hs'; lia). assert (Hle : 2 ^ (shift + 7) <= 2 ^ 63) by (apply Z.pow_le_mono_r; lia).
    rewrite (wrap_small 64) by nia. rewrite IH; [|done|done|lia|lia|cbn [length] in *; lia|nia]. f_equal. f_equal; [|lia]. do 2 f_equal.
    unfold sleb_value. change (last_byte (b :: c :: bs)) with (last_byte (c :: bs)). change (leb_value (b :: c :: bs)) with (d + 128 * leb_value (c :: bs)). rewrite Hp.
    destruct (last_byte (c :: bs) <? 64); [ring|]. change (length (b :: c :: bs)) with (S (length (c :: bs))).
    replace (7 * Z.of_nat (S (length (c :: bs)))) with (7 + 7 * Z.of_nat (length (c :: bs))) by lia. rewrite Z.pow_add_r by lia. change (2 ^ 7) with 128. ring.
Qed.

Lemma readSLEB128_ok m p e v q : sleb_at m p e v q -> readSLEB128 m p = Some (v, q).
Proof.
  intros (bs & Hh & Hok & Hl & Hv & Hr & -> & He). unfold readSLEB128. rewrite (sleb_do_ok m bs) by (done || (cbn; lia)). rewrite Hv. do 2 f_equal.
  rewrite Z.pow_0_r, Z.add_0_l, Z.mul_1_l. unfold signed. change (2 ^ (64 - 1)) with (2 ^ 63).
  destruct (Z.lt_ge_cases v 0); [rewrite wrap_neg by lia; destruct (Z.ltb_spec (v + 2 ^ 64) (2 ^ 63)); lia|].
  rewrite wrap_small by lia. by destruct (Z.ltb_spec v (2 ^ 63)); [|lia].
Qed.
