(* ===== verification/DyldImage.v ===== *)
(** * Strings and images of the dynamic linker: userland/dyld/panthera_dyld.cpp

    The process's memory is a byte memory and pointers are addresses; [0] is the
    null pointer. This file has the string helpers, the record dyld keeps for a
    loaded image and the layout of the Mach-O structures it reads, which is that
    of mach-o/loader.h and mach-o/nlist.h. *)

From Stdlib Require Import ZArith Lia.
From stdpp Require Import base list gmap.
From S2P Require Import Prelude Words Runs.

Open Scope Z_scope.

(** ** C strings in memory

    The characters from [p] to the first NUL. A finite memory has one within
    [size m + 1] bytes ([cstr_nul]). *)
Fixpoint cstr_upto (n : nat) (m : mem) (p : Z) : list Z :=
  match n with
  | O => []
  | S n => if mget m p =? 0 then [] else mget m p :: cstr_upto n m (p + 1)
  end.

Definition cstr (m : mem) (p : Z) : list Z := cstr_upto (S (size m)) m p.

Definition _strlen (m : mem) (s : Z) : Z := Z.of_nat (length (cstr m s)).

(** [while (n < max && s[n]) n++]. *)
Definition _strnlen (m : mem) (s max : Z) : Z :=
  if s =? 0 then 0 else Z.of_nat (length (cstr_upto (Z.to_nat max) m s)).

(** Comparison of two strings, given by their characters. *)
Fixpoint _strcmp (a b : list Z) : Z :=
  match a with
  | x :: a' => if x =? deref b then _strcmp a' (tl b) else x - deref b
  | [] => 0 - deref b
  end.

(** The same for at most [n] characters. The count is that of the characters not
    yet looked at; [n == (size_t)-1] after the loop means that it ran out. *)
Fixpoint _strncmp (a b : list Z) (n : nat) {struct n} : Z :=
  match n with
  | O => 0
  | S n =>
      match a with
      | x :: a' => if x =? deref b then _strncmp a' (tl b) n else x - deref b
      | [] => 0 - deref b
      end
  end.

(** ** Loaded images *)
Record LoadedImage := mkImage {
  img_self : Z;            (* the address of the structure *)
  img_header : Z;
  img_slide : Z;
  img_path : Z;
  img_symtab : Z;
  img_strtab : Z;
  img_nsyms : Z;
  img_strsize : Z }.

Definition MAX_IMAGES : Z := 64.

(** ** nlist_64 *)
Definition sizeof_nlist_64 : Z := 16.
Definition N_TYPE : Z := 0x0e.
Definition N_EXT : Z := 0x01.
Definition N_UNDF : Z := 0.
Definition N_WEAK_DEF : Z := 0x80.

Record nlist_64 := mkNlist { n_strx : Z; n_type : Z; n_desc : Z; n_value : Z }.

(** [img.symtab[i]]. *)
Definition symtab_entry (m : mem) (img : LoadedImage) (i : Z) : nlist_64 :=
  let a := img_symtab img + i * sizeof_nlist_64 in
  mkNlist (mread m a 4) (mread m (a + 4) 1) (mread m (a + 6) 2) (mread m (a + 8) 8).

(** ** Lemmas on strings *)
Lemma length_cstr_upto n m p : (length (cstr_upto n m p) <= n)%nat.
Proof. revert p. induction n as [|n IH]; intros p; cbn [cstr_upto]; [done|]. case_match; cbn; [lia|]. specialize (IH (p + 1)). lia. Qed.

Lemma cstr_upto_get n m p i : (i < length (cstr_upto n m p))%nat ->
  cstr_upto n m p !! i = Some (mget m (p + Z.of_nat i)) /\ mget m (p + Z.of_nat i) <> 0.
Proof.
  revert p i. induction n as [|n IH]; intros p i; cbn [cstr_upto length]; [lia|].
  destruct (Z.eqb_spec (mget m p) 0) as [|Hn]; cbn [length]; [lia|]. intros Hi. destruct i as [|i].
  - rewrite Z.add_0_r. done.
  - replace (p + Z.of_nat (S i)) with (p + 1 + Z.of_nat i) by lia. apply IH. lia.
Qed.

Lemma cstr_upto_nul n m p : (length (cstr_upto n m p) < n)%nat -> mget m (p + Z.of_nat (length (cstr_upto n m p))) = 0.
Proof.
  revert p. induction n as [|n IH]; intros p; cbn [cstr_upto]; [lia|].
  destruct (Z.eqb_spec (mget m p) 0) as [E|Hn]; cbn [length]; intros H; [by rewrite Z.add_0_r|].
  replace (p + Z.of_nat (S _)) with (p + 1 + Z.of_nat (length (cstr_upto n m (p + 1)))) by lia. apply IH. lia.
Qed.

(** Nonzero bytes at consecutive addresses are at most as many as the memory's. *)
Lemma nonzero_run m p n : (forall i, (i < n)%nat -> mget m (p + Z.of_nat i) <> 0) -> (n <= size m)%nat.
Proof.
  intros H. rewrite <- size_dom. set (X := list_to_set (map (fun i => p + Z.of_nat i) (seq 0 n)) : gset Z).
  assert (Hs : size X = n).
  { unfold X. rewrite size_list_to_set; [by rewrite length_map, length_seq|].
    apply NoDup_fmap_2; [intros ???; lia|apply NoDup_seq]. }
  rewrite <- Hs at 1. apply subseteq_size. intros a Ha. unfold X in Ha. apply elem_of_list_to_set in Ha.
  apply list_elem_of_fmap in Ha as (i & -> & Hi). apply elem_of_seq in Hi. apply elem_of_dom.
  specialize (H i ltac:(lia)). unfold mget in H. destruct (m !! _) eqn:E; [by eexists|done].
Qed.

Lemma length_cstr m p : (length (cstr m p) <= size m)%nat.
Proof. apply (nonzero_run m p). intros i Hi. by apply cstr_upto_get in Hi as [_ ?]. Qed.

Lemma cstr_nul m p : mget m (p + Z.of_nat (length (cstr m p))) = 0.
Proof. apply cstr_upto_nul. pose proof (length_cstr m p). unfold cstr in *. lia. Qed.

Lemma cstr_nonzero m p : Forall (fun c => c <> 0) (cstr m p).
Proof.
  apply Forall_lookup. intros i c Hc. pose proof (lookup_lt_Some _ _ _ Hc) as Hi.
  destruct (cstr_upto_get _ _ _ _ Hi) as [E Hn]. unfold cstr in Hc. congruence.
Qed.

Lemma cstr_mbytes m p : mbytes m p (length (cstr m p)) = cstr m p.
Proof.
  apply list_eq. intros i. destruct (decide (i < length (cstr m p))%nat) as [Hi|Hi].
  - rewrite mbytes_get by done. symmetry. by apply cstr_upto_get.
  - rewrite !lookup_ge_None_2; [done|lia|rewrite length_mbytes; lia].
Qed.

(** A run of nonzero bytes up to a NUL is the string. *)
Lemma cstr_unique m p n : (forall i, (i < n)%nat -> mget m (p + Z.of_nat i) <> 0) -> mget m (p + Z.of_nat n) = 0 ->
  cstr m p = mbytes m p n.
Proof.
  intros H H0. assert (E : length (cstr m p) = n); [|by rewrite <- E, cstr_mbytes].
  pose proof (cstr_nul m p) as Hn. destruct (Nat.lt_trichotomy (length (cstr m p)) n) as [Hl|[Hl|Hl]]; [|done|].
  - by specialize (H _ Hl).
  - unfold cstr in Hl. apply cstr_upto_get in Hl as [_ Hl]. done.
Qed.

Lemma cstr_bytes m p : mem_wf m -> Forall byte (cstr m p).
Proof.
  intros Hw. apply Forall_lookup. intros i c Hc. pose proof (lookup_lt_Some _ _ _ Hc) as Hi.
  apply cstr_upto_get in Hi as [E _]. unfold cstr in Hc. rewrite E in Hc. injection Hc as <-. apply Hw.
Qed.

(** Comparison decides equality of strings. *)
Lemma _strcmp_eq a b : Forall (fun c => c <> 0) a -> Forall (fun c => c <> 0) b -> _strcmp a b = 0 <-> a = b.
Proof.
  intros Ha. revert b. induction Ha as [|x a Hx Ha IH]; intros b Hb; cbn [_strcmp].
  - destruct Hb as [|y b Hy Hb]; cbn [deref]; [done|]. cbn in Hy. split; [lia|done].
  - destruct Hb as [|y b Hy Hb]; cbn [deref tl].
    + cbn in Hx. destruct (Z.eqb_spec x 0); [done|]. split; [lia|done].
    + destruct (Z.eqb_spec x y) as [->|Hn]; [rewrite IH by done; split; [by intros ->|congruence]|]. split; [lia|congruence].
Qed.

(** [_strncmp] decides whether the second string's first [n] characters start the first. *)
Lemma _strncmp_prefix a e b : Forall (fun c => c <> 0) a -> Forall (fun c => c <> 0) e ->
  _strncmp a (e ++ b) (length e) = 0 <-> exists a', a = e ++ a'.
Proof.
  intros Ha He. revert a Ha. induction He as [|y e Hy He IH]; intros a Ha; cbn [length _strncmp app].
  - split; [by exists a|done].
  - destruct Ha as [|x a Hx Ha]; cbn [deref tl]; [cbn in Hy; split; [lia|by intros [? ?]]|].
    destruct (Z.eqb_spec x y) as [->|Hn].
    + rewrite IH by done. split; intros [a' E]; exists a'; [by rewrite E|congruence].
    + split; [lia|]. intros [a' E]. congruence.
Qed.

(** Strings in bytes that did not change. *)
Lemma cstr_same m m' p k : 0 <= k -> mget m (p + k) = 0 -> (forall a, p <= a <= p + k -> mget m' a = mget m a) -> cstr m' p = cstr m p.
Proof.
  intros Hk Hz Hs. pose proof (cstr_nul m p) as Hnul. set (n := length (cstr m p)) in *.
  assert (Hne : forall i, (i < n)%nat -> mget m (p + Z.of_nat i) <> 0) by (intros i Hi; exact (proj2 (cstr_upto_get _ _ _ _ Hi))).
  assert (Hn : Z.of_nat n <= k).
  { destruct (Z.le_gt_cases (Z.of_nat n) k); [done|]. exfalso. apply (Hne (Z.to_nat k)); [lia|]. by rewrite Z2Nat.id. }
  rewrite (cstr_unique m' p n).
  - rewrite <- (cstr_mbytes m p). apply mbytes_ext. intros b Hb. apply Hs. fold n in Hb. lia.
  - intros i Hi. rewrite Hs by lia. by apply Hne.
  - rewrite Hs by lia. exact Hnul.
Qed.
