(* ===== verification/SymbolIndex.v ===== *)
(** * The symbol index: userland/dyld/panthera_dyld.cpp

    dyld keeps the exported symbols of every image it has searched in one hash
    table with linear probing ([symbolIndexInsert], [symbolIndexImage],
    [symbolIndexLookup]); [findSymbolInImage] falls back to a scan of the image's
    symbol table when the index overflowed. The index is proved equivalent to the
    scan. The trace output of the functions is not modelled. *)

From Stdlib Require Import ZArith Lia.
From stdpp Require Import base list gmap.
From S2P Require Import Prelude Words Runs DyldImage.

Open Scope Z_scope.

Definition SYMBOL_INDEX_CAPACITY : Z := 131071.

Record SymbolIndexEntry := mkEntry {
  e_img : Z;
  e_name : Z;
  e_nameLen : Z;
  e_hash : Z;
  e_isWeak : bool;
  e_addr : Z }.

(** The table has the entries with [used] set; [si_images] is
    [sSymbolIndexedImages] up to [sSymbolIndexedImageCount]. *)
Record symbol_index := mkIndex {
  si_table : gmap Z SymbolIndexEntry;
  si_images : list Z;
  si_used : Z;
  si_overflow : bool }.

Definition empty_index : symbol_index := mkIndex ∅ [] 0 false.

(** ** Names *)
Definition hash_byte (h c : Z) : Z := wrap 32 (Z.lxor h c * 16777619).

Definition symbolHashN (m : mem) (name nameLen : Z) : Z :=
  let h := fold_left hash_byte (mbytes m name (Z.to_nat nameLen)) 2166136261 in
  if h =? 0 then 1 else h.

(** The index of the first NUL among [maxLen] characters. *)
Definition symbolNameLen (m : mem) (name maxLen : Z) : option Z :=
  if name =? 0 then None
  else
    let n := length (cstr_upto (Z.to_nat maxLen) m name) in
    if (n <? Z.to_nat maxLen)%nat then Some (Z.of_nat n) else None.

Definition symbolNameEquals (m : mem) (a aLen b bLen : Z) : bool :=
  if aLen =? bLen then bool_decide (mbytes m a (Z.to_nat aLen) = mbytes m b (Z.to_nat aLen)) else false.

(** ** Probing *)
Inductive probe_result :=
  | Unused (slot : Z)
  | Found (slot : Z) (e : SymbolIndexEntry)
  | Exhausted.

Definition entry_matches (m : mem) (img h name nameLen : Z) (e : SymbolIndexEntry) : bool :=
  (e_img e =? img) && (e_hash e =? h) && symbolNameEquals m (e_name e) (e_nameLen e) name nameLen.

Definition probe_step (m : mem) (t : gmap Z SymbolIndexEntry) (img h name nameLen : Z) (s : Z * Z) : (Z * Z) + probe_result :=
  let '(slot, probe) := s in
  if probe <? SYMBOL_INDEX_CAPACITY then
    match t !! slot with
    | None => inr (Unused slot)
    | Some e =>
        if entry_matches m img h name nameLen e then inr (Found slot e)
        else
          let slot := slot + 1 in
          inl (if slot =? SYMBOL_INDEX_CAPACITY then 0 else slot, probe + 1)
    end
  else inr Exhausted.

(** The loop shared by insertion and lookup. *)
Definition probe (m : mem) (t : gmap Z SymbolIndexEntry) (img h name nameLen : Z) : probe_result :=
  while rounds32 Exhausted (probe_step m t img h name nameLen) (h mod SYMBOL_INDEX_CAPACITY, 0).

Definition set_overflow (st : symbol_index) : symbol_index := mkIndex (si_table st) (si_images st) (si_used st) true.

Definition symbolIndexInsert (m : mem) (img name nameLen addr : Z) (isWeak : bool) (st : symbol_index) : bool * symbol_index :=
  if si_overflow st || (SYMBOL_INDEX_CAPACITY <=? si_used st) then (false, set_overflow st)
  else
    let h := symbolHashN m name nameLen in
    match probe m (si_table st) img h name nameLen with
    | Unused slot =>
        (true, mkIndex (<[slot := mkEntry img name nameLen h isWeak addr]> (si_table st)) (si_images st)
                 (si_used st + 1) (si_overflow st))
    | Found slot e =>
        (true, if e_isWeak e && negb isWeak
               then mkIndex (<[slot := mkEntry (e_img e) (e_name e) (e_nameLen e) (e_hash e) false addr]> (si_table st))
                      (si_images st) (si_used st) (si_overflow st)
               else st)
    | Exhausted => (false, set_overflow st)
    end.

(** ** Images *)
Definition symbolIndexHasImage (img : LoadedImage) (st : symbol_index) : bool :=
  existsb (fun i => i =? img_self img) (si_images st).

(** One round of the loop over the symbol table; [inr] is the [break]. *)
Definition index_symbol (m : mem) (img : LoadedImage) (i : Z) (st : symbol_index) : symbol_index + symbol_index :=
  let sym := symtab_entry m img i in
  if Z.land (n_type sym) N_TYPE =? N_UNDF then inl st
  else if Z.land (n_type sym) N_EXT =? 0 then inl st
  else if (n_strx sym =? 0) || (img_strsize img <=? n_strx sym) then inl st
  else
    let sname := img_strtab img + n_strx sym in
    match symbolNameLen m sname (img_strsize img - n_strx sym) with
    | None => inl st
    | Some snameLen =>
        if snameLen =? 0 then inl st
        else
          let addr := n_value sym +64 img_slide img in
          let isWeak := negb (Z.land (n_desc sym) N_WEAK_DEF =? 0) in
          let '(ok, st) := symbolIndexInsert m (img_self img) sname snameLen addr isWeak st in
          if ok then inl st else inr st
    end.

Fixpoint index_symbols (m : mem) (img : LoadedImage) (i : Z) (n : nat) (st : symbol_index) : symbol_index :=
  match n with
  | O => st
  | S n => match index_symbol m img i st with inl st => index_symbols m img (i + 1) n st | inr st => st end
  end.

Definition symbolIndexImage (m : mem) (img : LoadedImage) (st : symbol_index) : symbol_index :=
  if symbolIndexHasImage img st then st
  else
    let st :=
      if Z.of_nat (length (si_images st)) <? MAX_IMAGES
      then mkIndex (si_table st) (si_images st ++ [img_self img]) (si_used st) (si_overflow st) else st in
    if si_overflow st then st
    else if (img_symtab img =? 0) || (img_strtab img =? 0) then st
    else index_symbols m img 0 (Z.to_nat (img_nsyms img)) st.

(** [Some (address, weak)] when the function returns [true]. *)
Definition symbolIndexLookup (m : mem) (img : LoadedImage) (name : Z) (st : symbol_index) : option (Z * bool) * symbol_index :=
  let st := symbolIndexImage m img st in
  let nameLen := wrap 32 (_strlen m name) in
  let h := symbolHashN m name nameLen in
  match probe m (si_table st) (img_self img) h name nameLen with
  | Found _ e => (Some (e_addr e, e_isWeak e), st)
  | _ => (None, st)
  end.

(** ** The scan *)

(** One symbol of the scan: [inr] returns, [inl] is the address kept in [weakAddr]. *)
Definition scan_symbol (m : mem) (img : LoadedImage) (name : Z) (includeLocals : bool) (i weakAddr : Z) : Z + Z :=
  let sym := symtab_entry m img i in
  if Z.land (n_type sym) N_TYPE =? N_UNDF then inl weakAddr
  else if negb includeLocals && (Z.land (n_type sym) N_EXT =? 0) then inl weakAddr
  else if (n_strx sym =? 0) || (img_strsize img <=? n_strx sym) then inl weakAddr
  else
    let sname := img_strtab img + n_strx sym in
    if _strcmp (cstr m sname) (cstr m name) =? 0 then
      let addr := n_value sym +64 img_slide img in
      if Z.land (n_desc sym) N_WEAK_DEF =? 0 then inr addr
      else inl (if weakAddr =? 0 then addr else weakAddr)
    else inl weakAddr.

(** The address and whether it is weak; [*isWeakOut] keeps its value [weakIn] when
    nothing is found. *)
Fixpoint scan_symbols (m : mem) (img : LoadedImage) (name : Z) (includeLocals : bool) (i : Z) (n : nat) (weakAddr : Z)
    (weakIn : bool) : Z * bool :=
  match n with
  | O => (weakAddr, if weakAddr =? 0 then weakIn else true)
  | S n =>
      match scan_symbol m img name includeLocals i weakAddr with
      | inr addr => (addr, false)
      | inl weakAddr => scan_symbols m img name includeLocals (i + 1) n weakAddr weakIn
      end
  end.

Definition findSymbolInImage (m : mem) (img : LoadedImage) (name : Z) (includeLocals weakIn : bool) (st : symbol_index)
    : (Z * bool) * symbol_index :=
  let scan st :=
    if (img_symtab img =? 0) || (img_strtab img =? 0) then ((0, weakIn), st)
    else (scan_symbols m img name includeLocals 0 (Z.to_nat (img_nsyms img)) 0 weakIn, st) in
  if includeLocals then scan st
  else
    match symbolIndexLookup m img name st with
    | (Some (addr, weak), st) => ((addr, weak), st)
    | (None, st) => if si_overflow st then scan st else ((0, weakIn), st)
    end.

(** ** Keys *)
Definition hash_of (bs : list Z) : Z :=
  let h := fold_left hash_byte bs 2166136261 in if h =? 0 then 1 else h.

Definition name_bytes (m : mem) (name nameLen : Z) : list Z := mbytes m name (Z.to_nat nameLen).

Lemma symbolHashN_bytes m name nameLen : symbolHashN m name nameLen = hash_of (name_bytes m name nameLen).
Proof. reflexivity. Qed.

(** An entry is found by its image and the bytes of its name. *)
Definition ekey (m : mem) (e : SymbolIndexEntry) : Z * list Z := (e_img e, name_bytes m (e_name e) (e_nameLen e)).

Definition entry_ok (m : mem) (e : SymbolIndexEntry) : Prop := e_hash e = hash_of (ekey m e).2 /\ 0 <= e_nameLen e.

Lemma symbolNameEquals_spec m a aLen b bLen : 0 <= aLen -> 0 <= bLen ->
  symbolNameEquals m a aLen b bLen = true <-> name_bytes m a aLen = name_bytes m b bLen.
Proof.
  intros Ha Hb. unfold symbolNameEquals, name_bytes. destruct (Z.eqb_spec aLen bLen) as [->|Hn].
  - apply bool_decide_eq_true.
  - split; [done|]. intros E. apply (f_equal length) in E. rewrite !length_mbytes in E. lia.
Qed.

Lemma entry_matches_spec m img name nameLen e : entry_ok m e -> 0 <= nameLen ->
  entry_matches m img (hash_of (name_bytes m name nameLen)) name nameLen e = true <-> ekey m e = (img, name_bytes m name nameLen).
Proof.
  intros [Hh Hl] Hn. unfold entry_matches, ekey in *. cbn [snd] in Hh.
  rewrite !andb_true_iff, !Z.eqb_eq, symbolNameEquals_spec by done. split.
  - intros [[-> _] ->]. done.
  - intros E. injection E as E1 E2. rewrite Hh, E2. done.
Qed.

(** ** The table *)
Abbreviation CAP := SYMBOL_INDEX_CAPACITY.

(** Every entry is reached from its hash over used slots with other keys. *)
Definition table_wf (m : mem) (t : gmap Z SymbolIndexEntry) : Prop := forall s e, t !! s = Some e ->
  entry_ok m e /\ exists j, 0 <= j < CAP /\ s = (e_hash e + j) mod CAP /\
    forall i, 0 <= i < j -> exists e', t !! ((e_hash e + i) mod CAP) = Some e' /\ ekey m e' <> ekey m e.

Definition absent (m : mem) (t : gmap Z SymbolIndexEntry) (k : Z * list Z) : Prop := forall s e, t !! s = Some e -> ekey m e <> k.

Lemma slot_next h p : let s := (h + p) mod CAP in (if s + 1 =? CAP then 0 else s + 1) = (h + (p + 1)) mod CAP.
Proof.
  cbv zeta. replace (h + (p + 1)) with (h + p + 1) by lia. rewrite (Z.add_mod (h + p) 1) by done.
  pose proof (Z.mod_pos_bound (h + p) CAP ltac:(done)). change (1 mod CAP) with 1. unfold CAP in *.
  destruct (Z.eqb_spec ((h + p) mod 131071 + 1) 131071) as [->|Hn]; [done|]. rewrite (Z.mod_small (_ + 1)); lia.
Qed.

Section Probe.
Variables (m : mem) (t : gmap Z SymbolIndexEntry) (img name nameLen : Z).
Hypothesis Hwf : table_wf m t.
Hypothesis Hn : 0 <= nameLen.
Let k := (img, name_bytes m name nameLen).
Let h := hash_of (name_bytes m name nameLen).

(** The slots before the [p]-th are used by other keys. *)
Definition passed (p : Z) : Prop := forall i, 0 <= i < p -> exists e, t !! ((h + i) mod CAP) = Some e /\ ekey m e <> k.

Lemma passed_absent p s : 0 <= p -> passed p -> (t !! s = None /\ s = (h + p) mod CAP \/ p = CAP) -> absent m t k.
Proof.
  intros H0 Hp Hs s' e He Ek. destruct (Hwf s' e He) as ([Hh _] & j & Hj & Es & Hbefore).
  assert (Eh : e_hash e = h) by (by rewrite Hh, Ek). rewrite Eh in *.
  destruct (Z.lt_ge_cases j p) as [Hlt|Hge].
  - destruct (Hp j ltac:(lia)) as (e' & He' & Hne). rewrite <- Es, He in He'. congruence.
  - destruct Hs as [[Hnone Es']| ->]; [|lia]. destruct (decide (j = p)) as [->|Hne]; [congruence|].
    destruct (Hbefore p ltac:(lia)) as (e' & He' & _). congruence.
Qed.

Lemma probe_spec : match probe m t img h name nameLen with
  | Found s e => t !! s = Some e /\ ekey m e = k
  | Unused s => absent m t k /\ t !! s = None /\ exists p, 0 <= p < CAP /\ s = (h + p) mod CAP /\ passed p
  | Exhausted => absent m t k /\ passed CAP
  end.
Proof.
  unfold probe.
  apply (while_rule _ (fun s => 0 <= s.2 <= CAP /\ s.1 = (h + s.2) mod CAP /\ passed s.2) (fun s => CAP + 1 - s.2)).
  - intros [slot p] (Hp & Es & Hpass). cbn [fst snd] in *. unfold probe_step.
    destruct (Z.ltb_spec p CAP) as [Hlt|Hge].
    + destruct (t !! slot) as [e|] eqn:Et.
      * destruct (entry_matches m img h name nameLen e) eqn:Em.
        -- split; [done|]. by apply entry_matches_spec; [apply (Hwf _ _ Et)|..].
        -- cbn [fst snd]. rewrite Es, slot_next. split; [|lia]. split; [lia|]. split; [done|].
           intros i Hi. destruct (decide (i = p)) as [->|Hne]; [|apply Hpass; lia]. exists e. rewrite <- Es. split; [done|].
           intros Ek. apply entry_matches_spec in Ek; [|by apply (Hwf _ _ Et)|done]. fold h in Ek. congruence.
      * split; [|split; [done|exists p; split; [lia|done]]]. apply (passed_absent p slot ltac:(lia) Hpass). by left.
    + assert (p = CAP) as -> by lia. split; [|done]. apply (passed_absent CAP slot ltac:(done) Hpass). by right.
  - cbn [fst snd]. split; [unfold CAP; lia|]. split; [by rewrite Z.add_0_r|]. intros i Hi. lia.
  - intros [slot p] (Hp & _). cbn [fst snd] in *. lia.
  - cbn. unfold CAP, rounds32. lia.
Qed.
End Probe.

(** ** The table as a finite map *)

(** [o] is the entry for [k]: its weakness and address. *)
Definition entry_for (m : mem) (t : gmap Z SymbolIndexEntry) (k : Z * list Z) (o : option (bool * Z)) : Prop :=
  match o with
  | Some (w, a) => exists s e, t !! s = Some e /\ ekey m e = k /\ e_isWeak e = w /\ e_addr e = a
  | None => absent m t k
  end.

Definition represents (m : mem) (t : gmap Z SymbolIndexEntry) (A : gmap (Z * list Z) (bool * Z)) : Prop :=
  forall k, entry_for m t k (A !! k).

(** A strong definition replaces a weak one; otherwise the first stays. *)
Definition merge (old : option (bool * Z)) (w : bool) (a : Z) : bool * Z :=
  match old with
  | None => (w, a)
  | Some (true, a0) => if w then (true, a0) else (false, a)
  | Some (false, a0) => (false, a0)
  end.

Lemma table_wf_unique m t s e s' e' : table_wf m t -> t !! s = Some e -> t !! s' = Some e' -> ekey m e = ekey m e' -> s = s'.
Proof.
  intros Hwf He He' Ek. destruct (Hwf s e He) as ([Hh _] & j & Hj & Es & Hb).
  destruct (Hwf s' e' He') as ([Hh' _] & j' & Hj' & Es' & Hb').
  assert (Eh : e_hash e' = e_hash e) by (by rewrite Hh, Hh', Ek). rewrite Eh in *.
  destruct (Z.lt_trichotomy j j') as [Hlt|[->|Hlt]]; [|congruence|].
  - destruct (Hb' j ltac:(lia)) as (e2 & He2 & Hne). rewrite <- Es, He in He2. congruence.
  - destruct (Hb j' ltac:(lia)) as (e2 & He2 & Hne). rewrite <- Es', He' in He2. congruence.
Qed.

Lemma represents_found m t A s e : table_wf m t -> represents m t A -> t !! s = Some e ->
  A !! ekey m e = Some (e_isWeak e, e_addr e).
Proof.
  intros Hwf HA He. specialize (HA (ekey m e)). destruct (A !! ekey m e) as [[w a]|]; cbn in HA.
  - destruct HA as (s' & e' & He' & Ek & <- & <-). assert (s' = s) as -> by (by eapply table_wf_unique).
    congruence.
  - by specialize (HA s e He).
Qed.

Lemma represents_absent m t A k : represents m t A -> absent m t k -> A !! k = None.
Proof.
  intros HA Hab. specialize (HA k). destruct (A !! k) as [[w a]|]; [|done].
  destruct HA as (s & e & He & Ek & _). by specialize (Hab s e He).
Qed.

(** A new entry in the slot the probe found. *)
Lemma insert_new m t A img name nameLen w a s p :
  let k := (img, name_bytes m name nameLen) in let h := hash_of (name_bytes m name nameLen) in
  table_wf m t -> represents m t A -> 0 <= nameLen -> absent m t k -> t !! s = None ->
  0 <= p < CAP -> s = (h + p) mod CAP -> passed m t img name nameLen p ->
  let t' := <[s := mkEntry img name nameLen h w a]> t in
  table_wf m t' /\ represents m t' (<[k := (w, a)]> A).
Proof.
  intros k h Hwf HA Hn Hab Hs Hp Es Hpass t'. set (e0 := mkEntry img name nameLen h w a).
  assert (Hold : forall s' e', t !! s' = Some e' -> t' !! s' = Some e').
  { intros s' e' H. unfold t'. rewrite lookup_insert_ne; [done|congruence]. }
  split.
  - intros s' e' He. unfold t' in He. apply lookup_insert_Some in He as [[<- <-]|[Hne He]].
    + split; [done|]. exists p. split; [done|]. split; [done|]. intros i Hi.
      destruct (Hpass i Hi) as (e' & He' & Hk). exists e'. split; [by apply Hold|done].
    + destruct (Hwf s' e' He) as (Hok & j & Hj & Ej & Hb). split; [done|]. exists j. split; [done|]. split; [done|].
      intros i Hi. destruct (Hb i Hi) as (e2 & He2 & Hk2). exists e2. split; [by apply Hold|done].
  - intros k'. destruct (decide (k' = k)) as [->|Hk].
    + rewrite lookup_insert_eq. exists s, e0. split; [apply lookup_insert_eq|done].
    + rewrite lookup_insert_ne by done. specialize (HA k'). destruct (A !! k') as [[w' a']|]; cbn in *.
      * destruct HA as (s' & e' & He' & ? & ? & ?). exists s', e'. split; [by apply Hold|done].
      * intros s' e' He. unfold t' in He. apply lookup_insert_Some in He as [[<- <-]|[Hne He]]; [by apply not_eq_sym|].
        by eapply HA.
Qed.

(** A strong definition over a weak entry. *)
Lemma insert_strong m t A s e a : table_wf m t -> represents m t A -> t !! s = Some e ->
  let t' := <[s := mkEntry (e_img e) (e_name e) (e_nameLen e) (e_hash e) false a]> t in
  table_wf m t' /\ represents m t' (<[ekey m e := (false, a)]> A).
Proof.
  intros Hwf HA He t'. set (e0 := mkEntry (e_img e) (e_name e) (e_nameLen e) (e_hash e) false a).
  assert (Hold : forall s' e', t !! s' = Some e' -> exists e2, t' !! s' = Some e2 /\ ekey m e2 = ekey m e').
  { intros s' e' H. unfold t'. destruct (decide (s = s')) as [<-|Hne].
    - exists e0. rewrite lookup_insert_eq. split; [done|]. rewrite He in H. by injection H as <-.
    - exists e'. by rewrite lookup_insert_ne. }
  split.
  - intros s' e' He'. assert (Hwf' : exists e1, t !! s' = Some e1 /\ e_hash e1 = e_hash e' /\ ekey m e1 = ekey m e' /\ (entry_ok m e1 -> entry_ok m e')).
    { unfold t' in He'. apply lookup_insert_Some in He' as [[<- <-]|[Hne He']]; [by exists e|by exists e']. }
    destruct Hwf' as (e1 & H1 & Eh & Ek & Hok). destruct (Hwf s' e1 H1) as (Hok1 & j & Hj & Ej & Hb). rewrite Eh, Ek in *.
    split; [by apply Hok|]. exists j. split; [done|]. split; [done|]. intros i Hi. destruct (Hb i Hi) as (e2 & He2 & Hk2).
    destruct (Hold _ _ He2) as (e3 & He3 & Ek3). exists e3. by rewrite Ek3.
  - intros k'. destruct (decide (k' = ekey m e)) as [->|Hk].
    + rewrite lookup_insert_eq. exists s, e0. split; [apply lookup_insert_eq|done].
    + rewrite lookup_insert_ne by done. specialize (HA k'). destruct (A !! k') as [[w' a']|]; cbn in *.
      * destruct HA as (s' & e' & He' & Ek & ? & ?). exists s', e'. split; [|done]. unfold t'. rewrite lookup_insert_ne; [done|].
        intros ->. rewrite He in He'. injection He' as ->. by rewrite Ek in Hk.
      * intros s' e' He'. unfold t' in He'. apply lookup_insert_Some in He' as [[<- <-]|[Hne He']]; [by apply not_eq_sym|].
        by eapply HA.
Qed.

(** ** Insertion *)
Definition index_rep (m : mem) (st : symbol_index) (A : gmap (Z * list Z) (bool * Z)) : Prop :=
  table_wf m (si_table st) /\ represents m (si_table st) A /\ si_used st = Z.of_nat (size (si_table st)).

(** A probe that finds no free slot has seen them all. *)
Lemma passed_full m t img name nameLen : passed m t img name nameLen CAP -> CAP <= Z.of_nat (size t).
Proof.
  intros Hp. set (h := hash_of (name_bytes m name nameLen)) in *.
  set (l := (fun i => (h + i) mod CAP) <$> seqZ 0 CAP). assert (Hl : Z.of_nat (length l) = CAP).
  { unfold l. rewrite length_fmap, length_seqZ. done. }
  rewrite <- Hl, <- size_dom. apply inj_le. rewrite <- (size_list_to_set (C := gset Z) l).
  - apply subseteq_size. intros s Hs. apply elem_of_list_to_set, list_elem_of_fmap in Hs as (i & -> & Hi).
    apply elem_of_seqZ in Hi. destruct (Hp i ltac:(lia)) as (e & He & _). apply elem_of_dom. by exists e.
  - apply NoDup_fmap_2_strong; [|apply NoDup_seqZ]. intros x y Hx Hy E. apply elem_of_seqZ in Hx, Hy.
    pose proof (Z.div_mod (h + x) CAP ltac:(done)). pose proof (Z.div_mod (h + y) CAP ltac:(done)). rewrite E in *.
    unfold CAP in *. lia.
Qed.

Lemma symbolIndexInsert_ok m img name nameLen a w st A : index_rep m st A -> 0 <= nameLen ->
  let k := (img, name_bytes m name nameLen) in
  let '(ok, st') := symbolIndexInsert m img name nameLen a w st in
  si_images st' = si_images st /\
  if ok then si_overflow st = false /\ si_overflow st' = false /\ index_rep m st' (<[k := merge (A !! k) w a]> A)
  else si_overflow st' = true /\ (si_overflow st = false -> CAP <= si_used st').
Proof.
  intros (Hwf & HA & Hu) Hn k. unfold symbolIndexInsert.
  destruct (si_overflow st) eqn:Eo; cbn [orb]; [done|]. destruct (Z.leb_spec CAP (si_used st)) as [Hfull|Hlt]; [done|].
  rewrite symbolHashN_bytes. pose proof (probe_spec m (si_table st) img name nameLen Hwf Hn) as Hp.
  destruct (probe _ _ _ _ _ _) as [s|s e|].
  - destruct Hp as (Hab & Hs & p & Hp & Es & Hpass). split; [done|]. split; [done|]. split; [done|].
    rewrite (represents_absent _ _ _ k HA Hab). cbn [merge].
    destruct (insert_new m (si_table st) A img name nameLen w a s p) as [H1 H2]; try done.
    split; [exact H1|]. split; [exact H2|]. cbn [si_used si_table]. rewrite map_size_insert_None by done. lia.
  - destruct Hp as [Hs Ek]. pose proof (represents_found _ _ _ _ _ Hwf HA Hs) as EA. rewrite Ek in EA. fold k in EA.
    rewrite EA. cbn [merge]. split; [by destruct (_ && _)|]. split; [done|].
    destruct (e_isWeak e) eqn:Ew, w; cbn [andb negb].
    1, 3, 4: (split; [done|]; split; [done|]; rewrite insert_id by done; done).
    destruct (insert_strong m (si_table st) A s e a Hwf HA Hs) as [H1 H2]. rewrite Ek in H2. split; [done|].
    split; [exact H1|]. split; [exact H2|]. cbn [si_used si_table]. by rewrite map_size_insert, Hs.
  - destruct Hp as [_ Hpass]. apply passed_full in Hpass. split; [done|]. split; [done|]. cbn. lia.
Qed.

(** ** The symbols of an image *)
Definition export_of (m : mem) (img : LoadedImage) (i : Z) : option (list Z * bool * Z) :=
  let sym := symtab_entry m img i in
  if (Z.land (n_type sym) N_TYPE =? N_UNDF) || (Z.land (n_type sym) N_EXT =? 0) ||
     (n_strx sym =? 0) || (img_strsize img <=? n_strx sym) then None
  else
    let sname := img_strtab img + n_strx sym in
    match symbolNameLen m sname (img_strsize img - n_strx sym) with
    | Some n => if n =? 0 then None
                else Some (name_bytes m sname n, negb (Z.land (n_desc sym) N_WEAK_DEF =? 0), n_value sym +64 img_slide img)
    | None => None
    end.

Definition exports (m : mem) (img : LoadedImage) : list (list Z * bool * Z) :=
  if (img_symtab img =? 0) || (img_strtab img =? 0) then []
  else omap (export_of m img) (seqZ 0 (img_nsyms img)).

Definition add_export (self : Z) (A : gmap (Z * list Z) (bool * Z)) (x : list Z * bool * Z) : gmap (Z * list Z) (bool * Z) :=
  let '(nm, w, a) := x in <[(self, nm) := merge (A !! (self, nm)) w a]> A.

(** The definition a list of symbols has for a name, after the one in [o]. *)
Fixpoint definition (nm : list Z) (o : option (bool * Z)) (l : list (list Z * bool * Z)) : option (bool * Z) :=
  match l with
  | [] => o
  | (n, w, a) :: l => definition nm (if decide (n = nm) then Some (merge o w a) else o) l
  end.

Lemma fold_add_export self l A self' nm :
  fold_left (add_export self) l A !! (self', nm) =
    if decide (self' = self) then definition nm (A !! (self, nm)) l else A !! (self', nm).
Proof.
  revert A. induction l as [|[[n w] a] l IH]; intros A; cbn [fold_left definition].
  - case_decide; [by subst|done].
  - rewrite IH. unfold add_export. case_decide as Es.
    + subst self'. case_decide as En; [subst n; by rewrite lookup_insert_eq|]. rewrite lookup_insert_ne by congruence. done.
    + rewrite lookup_insert_ne by congruence. done.
Qed.

Lemma symbolNameLen_range m p n k : symbolNameLen m p n = Some k -> 0 <= k < n.
Proof.
  unfold symbolNameLen. destruct (p =? 0); [done|]. destruct (Nat.ltb_spec (length (cstr_upto (Z.to_nat n) m p)) (Z.to_nat n)); [|done].
  intros [= <-]. lia.
Qed.

Lemma index_symbol_export m img i st : index_symbol m img i st =
  match export_of m img i with
  | None => inl st
  | Some (nm, w, a) =>
      let sym := symtab_entry m img i in
      let sname := img_strtab img + n_strx sym in
      let '(ok, st) := symbolIndexInsert m (img_self img) sname (Z.of_nat (length nm)) a w st in if ok then inl st else inr st
  end.
Proof.
  unfold index_symbol, export_of. cbv zeta. destruct (_ =? N_UNDF); [done|]. destruct (_ =? 0); cbn [orb]; [done|].
  destruct (_ || _); [done|]. destruct (symbolNameLen _ _ _) as [n|] eqn:E; [|done]. destruct (n =? 0); [done|].
  apply symbolNameLen_range in E. unfold name_bytes. rewrite length_mbytes, Z2Nat.id by lia. done.
Qed.

Lemma export_of_name m img i nm w a : export_of m img i = Some (nm, w, a) ->
  name_bytes m (img_strtab img + n_strx (symtab_entry m img i)) (Z.of_nat (length nm)) = nm.
Proof.
  unfold export_of. cbv zeta. destruct (_ || _ || _ || _); [done|]. destruct (symbolNameLen _ _ _) as [n|] eqn:E; [|done].
  destruct (n =? 0); [done|]. intros [= <- _ _]. unfold name_bytes. by rewrite length_mbytes, Nat2Z.id.
Qed.

Lemma seqZ_cons' i n : seqZ i (Z.of_nat (S n)) = i :: seqZ (i + 1) (Z.of_nat n).
Proof. rewrite seqZ_cons by lia. f_equal. f_equal; lia. Qed.

Lemma index_symbols_ok m img n : forall i st A, index_rep m st A -> si_overflow st = false ->
  let st' := index_symbols m img i n st in
  si_images st' = si_images st /\
  (si_overflow st' = false ->
    index_rep m st' (fold_left (add_export (img_self img)) (omap (export_of m img) (seqZ i (Z.of_nat n))) A)) /\
  (si_overflow st' = true -> CAP <= si_used st').
Proof.
  induction n as [|n IH]; intros i st A HR Ho; cbn [index_symbols].
  { split; [done|]. split; [done|congruence]. }
  rewrite seqZ_cons'. cbn [omap list_omap]. rewrite index_symbol_export. cbv zeta.
  destruct (export_of m img i) as [[[nm w] a]|] eqn:Ex; [|apply (IH (i + 1) st A HR Ho)].
  pose proof (symbolIndexInsert_ok m (img_self img) (img_strtab img + n_strx (symtab_entry m img i)) (Z.of_nat (length nm)) a w st A HR ltac:(lia)) as H.
  rewrite (export_of_name _ _ _ _ _ _ Ex) in H. cbv zeta in H.
  destruct (symbolIndexInsert _ _ _ _ _ _ _) as [[|] st1].
  - destruct H as (Hi & _ & Ho1 & HR1). destruct (IH (i + 1) st1 _ HR1 Ho1) as (H1 & H2 & H3).
    split; [congruence|]. split; [exact H2|exact H3].
  - destruct H as (Hi & Ho1 & Hf). split; [done|]. split; [congruence|]. intros _. by apply Hf.
Qed.

(** ** The index as a whole

    [images] are the loaded images by the address of their structure. *)
Definition images_ok (images : gmap Z LoadedImage) : Prop :=
  (forall s img, images !! s = Some img -> img_self img = s) /\ Z.of_nat (size images) <= MAX_IMAGES.

Definition indexed (m : mem) (images : gmap Z LoadedImage) (self : Z) (nm : list Z) : option (bool * Z) :=
  match images !! self with Some img => definition nm None (exports m img) | None => None end.

(** The table holds exactly the definitions of the images indexed so far. *)
Definition index_inv (m : mem) (images : gmap Z LoadedImage) (st : symbol_index) : Prop :=
  (exists A, index_rep m st A /\
    forall self nm, A !! (self, nm) = if bool_decide (self ∈ si_images st) then indexed m images self nm else None) /\
  NoDup (si_images st) /\ (forall s, s ∈ si_images st -> is_Some (images !! s)) /\ si_overflow st = false.

Lemma empty_index_inv m images : index_inv m images empty_index.
Proof.
  split; [exists ∅|split_and!; [constructor|intros s Hs; by apply elem_of_nil in Hs|done]]. split; [|done]. split_and!.
  - intros s e He. cbn in He. by rewrite lookup_empty in He.
  - intros k. rewrite lookup_empty. intros s e He. cbn in He. by rewrite lookup_empty in He.
  - cbn. by rewrite map_size_empty.
Qed.

Lemma symbolIndexHasImage_spec img st : symbolIndexHasImage img st = bool_decide (img_self img ∈ si_images st).
Proof.
  unfold symbolIndexHasImage. induction (si_images st) as [|x l IH]; cbn [existsb]; [done|]. rewrite IH.
  destruct (Z.eqb_spec x (img_self img)) as [->|Hn]; cbn [orb].
  - symmetry. apply bool_decide_eq_true. by left.
  - apply bool_decide_ext. rewrite elem_of_cons. naive_solver.
Qed.

(** There is room in the list of images for one that is not in it. *)
Lemma images_room images st img : images_ok images -> NoDup (si_images st) ->
  (forall s, s ∈ si_images st -> is_Some (images !! s)) -> is_Some (images !! img_self img) -> img_self img ∉ si_images st ->
  Z.of_nat (length (si_images st)) < MAX_IMAGES.
Proof.
  intros [_ Hs] Hnd Hin Hi Hni. assert (Hle : (length (img_self img :: si_images st) <= size images)%nat).
  { rewrite <- (size_list_to_set (C := gset Z) (img_self img :: si_images st)), <- size_dom by (by constructor).
    apply subseteq_size. intros s Hx. apply elem_of_list_to_set, elem_of_cons in Hx as [->|Hx]; apply elem_of_dom; auto. }
  cbn [length] in Hle. lia.
Qed.

Lemma symbolIndexImage_ok m images img st : images_ok images -> images !! img_self img = Some img -> index_inv m images st ->
  let st' := symbolIndexImage m img st in
  (si_overflow st' = false -> index_inv m images st' /\ img_self img ∈ si_images st') /\
  (si_overflow st' = true -> CAP <= si_used st').
Proof.
  intros Hok Hi Hinv. pose proof Hinv as ((A & HR & HA) & Hnd & Hin & Ho). unfold symbolIndexImage. cbv zeta.
  rewrite symbolIndexHasImage_spec. case_bool_decide as Hm; [split; [done|congruence]|].
  pose proof (images_room images st img Hok Hnd Hin ltac:(by eexists) Hm) as Hroom.
  destruct (Z.ltb_spec (Z.of_nat (length (si_images st))) MAX_IMAGES); [|lia].
  set (st1 := mkIndex _ _ _ _). assert (HR1 : index_rep m st1 A) by exact HR. change (si_overflow st1) with (si_overflow st). rewrite Ho.
  assert (Hfin : forall st', si_images st' = si_images st1 -> si_overflow st' = false ->
    index_rep m st' (fold_left (add_export (img_self img)) (exports m img) A) -> index_inv m images st' /\ img_self img ∈ si_images st').
  { intros st' Ei Ho' HR'. rewrite Ei. cbn [si_images st1]. split; [|apply elem_of_app; right; by left].
    split; [|split_and!; [rewrite Ei; cbn [si_images st1]; apply NoDup_app; split_and!; [done|intros x Hx ->%list_elem_of_singleton; done|apply NoDup_singleton]| |done]].
    - eexists. split; [exact HR'|]. intros self nm. rewrite fold_add_export, !HA, Ei. cbn [si_images st1].
      rewrite bool_decide_eq_false_2 by done. case_decide as Es.
      + subst self. rewrite bool_decide_eq_true_2 by (apply elem_of_app; right; by left). unfold indexed. by rewrite Hi.
      + erewrite bool_decide_ext; [reflexivity|]. rewrite elem_of_app, list_elem_of_singleton. naive_solver.
    - rewrite Ei. cbn [si_images st1]. intros s [Hs| ->%list_elem_of_singleton]%elem_of_app; [by apply Hin|by eexists]. }
  unfold exports in Hfin. destruct (_ || _) eqn:En.
  - split; [intros _; by apply Hfin|change (si_overflow st1) with (si_overflow st); congruence].
  - destruct (index_symbols_ok m img (Z.to_nat (img_nsyms img)) 0 st1 A HR1 Ho) as (H1 & H2 & H3). split; [|exact H3].
    intros Ho'. apply Hfin; [done|done|]. specialize (H2 Ho').
    destruct (Z.le_gt_cases 0 (img_nsyms img)) as [Hge|Hneg]; [by rewrite Z2Nat.id in H2|].
    rewrite Z2Nat.nonpos in H2 by lia. unfold seqZ. rewrite Z2Nat.nonpos by lia. exact H2.
Qed.

(** ** The scan finds the same definition *)

(** The exported symbols have names that end inside the string table and
    addresses other than 0. *)
Definition symbols_ok (m : mem) (img : LoadedImage) : Prop := forall i, 0 <= i < img_nsyms img ->
  let sym := symtab_entry m img i in
  Z.land (n_type sym) N_TYPE <> N_UNDF -> Z.land (n_type sym) N_EXT <> 0 -> n_strx sym <> 0 -> n_strx sym < img_strsize img ->
  is_Some (symbolNameLen m (img_strtab img + n_strx sym) (img_strsize img - n_strx sym)) /\ n_value sym +64 img_slide img <> 0.

Lemma symbolNameLen_cstr m p n k : symbolNameLen m p n = Some k -> cstr m p = name_bytes m p k.
Proof.
  unfold symbolNameLen. destruct (p =? 0); [done|].
  destruct (Nat.ltb_spec (length (cstr_upto (Z.to_nat n) m p)) (Z.to_nat n)) as [Hl|]; [|done]. intros [= <-].
  unfold name_bytes. rewrite Nat2Z.id. apply cstr_unique.
  - intros i Hi. by apply cstr_upto_get in Hi as [_ ?].
  - by apply cstr_upto_nul.
Qed.

Lemma scan_symbol_export m img name i weak : symbols_ok m img -> 0 <= i < img_nsyms img -> cstr m name <> [] ->
  scan_symbol m img name false i weak =
    match export_of m img i with
    | Some (n, w, a) =>
        if decide (n = cstr m name) then (if w then inl (if weak =? 0 then a else weak) else inr a) else inl weak
    | None => inl weak
    end.
Proof.
  intros Hok Hi Hne. specialize (Hok i Hi). unfold scan_symbol, export_of. cbv zeta in *.
  destruct (Z.eqb_spec (Z.land (n_type (symtab_entry m img i)) N_TYPE) N_UNDF); [done|].
  destruct (Z.eqb_spec (Z.land (n_type (symtab_entry m img i)) N_EXT) 0); cbn [negb andb orb]; [done|].
  destruct (Z.eqb_spec (n_strx (symtab_entry m img i)) 0); cbn [orb]; [done|].
  destruct (Z.leb_spec (img_strsize img) (n_strx (symtab_entry m img i))); [done|].
  destruct Hok as [[k Ek] _]; [done..|]. rewrite Ek. pose proof (symbolNameLen_cstr _ _ _ _ Ek) as Ec. rewrite Ec.
  set (nm := name_bytes m _ k) in *.
  assert (Hnz : Forall (fun c => c <> 0) nm) by (rewrite <- Ec; apply cstr_nonzero).
  destruct (Z.eqb_spec (_strcmp nm (cstr m name)) 0) as [E|E].
  - apply _strcmp_eq in E; [|done|apply cstr_nonzero]. destruct (Z.eqb_spec k 0) as [->|Hk].
    + by rewrite <- E in Hne.
    + rewrite decide_True by done. by destruct (_ =? 0).
  - assert (nm <> cstr m name) by (intros F; apply E; apply _strcmp_eq; [done|apply cstr_nonzero|done]).
    destruct (k =? 0); [done|]. by rewrite decide_False.
Qed.

Lemma export_of_address m img i n w a : symbols_ok m img -> 0 <= i < img_nsyms img ->
  export_of m img i = Some (n, w, a) -> a <> 0.
Proof.
  intros Hok Hi. specialize (Hok i Hi). unfold export_of. cbv zeta in *.
  destruct (Z.eqb_spec (Z.land (n_type (symtab_entry m img i)) N_TYPE) N_UNDF); [done|].
  destruct (Z.eqb_spec (Z.land (n_type (symtab_entry m img i)) N_EXT) 0); cbn [orb]; [done|].
  destruct (Z.eqb_spec (n_strx (symtab_entry m img i)) 0); cbn [orb]; [done|].
  destruct (Z.leb_spec (img_strsize img) (n_strx (symtab_entry m img i))); [done|].
  destruct Hok as [_ Ha]; [done..|]. destruct (symbolNameLen _ _ _); [|done]. destruct (_ =? 0); [done|]. by intros [= _ _ <-].
Qed.

Lemma definition_strong nm a l : definition nm (Some (false, a)) l = Some (false, a).
Proof. induction l as [|[[n w] b] l IH]; cbn [definition]; [done|]. by case_decide. Qed.

(** What [findSymbolInImage] returns for a definition. *)
Definition found (weakIn : bool) (o : option (bool * Z)) : Z * bool :=
  match o with Some (w, a) => (a, w) | None => (0, weakIn) end.

Lemma scan_symbols_definition m img name weakIn : symbols_ok m img -> cstr m name <> [] ->
  forall n i weak, 0 <= i -> i + Z.of_nat n <= img_nsyms img ->
  scan_symbols m img name false i n weak weakIn =
    found weakIn (definition (cstr m name) (if weak =? 0 then None else Some (true, weak))
                   (omap (export_of m img) (seqZ i (Z.of_nat n)))).
Proof.
  intros Hok Hne. induction n as [|n IH]; intros i weak Hi Hn; cbn [scan_symbols].
  { cbn. destruct (Z.eqb_spec weak 0) as [->|]; done. }
  rewrite seqZ_cons', scan_symbol_export by (done || lia). cbn [omap list_omap].
  destruct (export_of m img i) as [[[nm w] a]|] eqn:Ex; [|apply IH; lia]. cbn [definition]. case_decide as En; [|apply IH; lia].
  assert (Ha : a <> 0) by (eapply (export_of_address m img i); [done|lia|done]). destruct w.
  - rewrite IH by lia. f_equal. f_equal. destruct (Z.eqb_spec weak 0) as [->|Hw]; cbn [merge].
    + by destruct (Z.eqb_spec a 0).
    + by destruct (Z.eqb_spec weak 0).
  - destruct (Z.eqb_spec weak 0); cbn [merge]; by rewrite definition_strong.
Qed.

(** The scan of an image, as [findSymbolInImage] makes it after an overflow. *)
Definition scan_image (m : mem) (img : LoadedImage) (name : Z) (weakIn : bool) : Z * bool :=
  if (img_symtab img =? 0) || (img_strtab img =? 0) then (0, weakIn)
  else scan_symbols m img name false 0 (Z.to_nat (img_nsyms img)) 0 weakIn.

Lemma scan_image_definition m img name weakIn : symbols_ok m img -> cstr m name <> [] -> 0 <= img_nsyms img ->
  scan_image m img name weakIn = found weakIn (definition (cstr m name) None (exports m img)).
Proof.
  intros Hok Hne Hn. unfold scan_image, exports. destruct (_ || _); [done|].
  rewrite scan_symbols_definition by (done || lia). by rewrite Z2Nat.id.
Qed.

(** [findSymbolInImage] from a state that holds the symbols of the images searched
    before. *)
Lemma findSymbolInImage_ok (m : mem) (images : gmap Z LoadedImage) (img : LoadedImage) (name : Z) (weakIn : bool) (st : symbol_index) :
  images_ok images -> images !! img_self img = Some img -> index_inv m images st ->
  symbols_ok m img -> 0 <= img_nsyms img -> cstr m name <> [] -> _strlen m name < 2 ^ 32 ->
  let '(r, st') := findSymbolInImage m img name false weakIn st in
  if si_overflow st' then SYMBOL_INDEX_CAPACITY <= si_used st'
  else r = scan_image m img name weakIn /\ index_inv m images st' /\ img_self img ∈ si_images st'.
Proof.
  intros Him Hi Hinv Hok Hns Hne Hlen. unfold findSymbolInImage, symbolIndexLookup.
  destruct (symbolIndexImage_ok m images img st Him Hi Hinv) as [H1 H2].
  set (st' := symbolIndexImage m img st) in *. assert (El : wrap 32 (_strlen m name) = _strlen m name) by (apply wrap_small; unfold _strlen in *; lia).
  cbv zeta. rewrite El, symbolHashN_bytes.
  assert (En : name_bytes m name (_strlen m name) = cstr m name) by (unfold name_bytes, _strlen; rewrite Nat2Z.id; apply cstr_mbytes).
  destruct (si_overflow st') eqn:Eo.
  { destruct (probe _ _ _ _ _ _) as [s|s e|], ((img_symtab img =? 0) || (img_strtab img =? 0)); rewrite ?Eo; by apply H2. }
  destruct (H1 eq_refl) as [Hinv' Hin]. pose proof Hinv' as ((A & (Hwf & HA & Hu) & HAx) & _).
  rewrite (scan_image_definition m img name weakIn Hok Hne Hns).
  assert (ED : A !! (img_self img, cstr m name) = definition (cstr m name) None (exports m img)).
  { rewrite HAx, bool_decide_eq_true_2 by done. unfold indexed. by rewrite Hi. }
  pose proof (probe_spec m (si_table st') (img_self img) name (_strlen m name) Hwf ltac:(unfold _strlen; lia)) as Hp.
  rewrite En in *. destruct (probe _ _ _ _ _ _) as [s|s e|]; rewrite ?Eo.
  - destruct Hp as (Hab & _). by rewrite <- ED, (represents_absent _ _ _ _ HA Hab).
  - destruct Hp as [Hs Ek]. pose proof (represents_found _ _ _ _ _ Hwf HA Hs) as EA. rewrite Ek, ED in EA. by rewrite EA.
  - destruct Hp as (Hab & _). by rewrite <- ED, (represents_absent _ _ _ _ HA Hab).
Qed.

(** Once the index has overflowed, it stays so. *)
Lemma symbolIndexImage_overflow m img st : si_overflow st = true -> si_overflow (symbolIndexImage m img st) = true.
Proof.
  intros Ho. unfold symbolIndexImage. destruct (symbolIndexHasImage _ _); [done|]. cbv zeta. set (st1 := if _ <? _ then _ else _).
  assert (E1 : si_overflow st1 = true) by (unfold st1; by destruct (_ <? _)). by rewrite E1.
Qed.

Lemma findSymbolInImage_overflow m img name loc w st : si_overflow st = true -> si_overflow (findSymbolInImage m img name loc w st).2 = true.
Proof.
  intros Ho. unfold findSymbolInImage. destruct loc; [by destruct (_ || _)|]. unfold symbolIndexLookup. pose proof (symbolIndexImage_overflow m img st Ho) as E.
  destruct (probe _ _ _ _ _ _); rewrite ?E; try done; by destruct (_ || _).
Qed.

(** C27. The hash index answers like a scan of the symbol table. From any state
    that holds the symbols of the images searched before, [findSymbolInImage]
    returns the image's first strong definition of the name, else its first weak
    one, exactly as the scan it falls back to; the image's symbols are then in the
    index. The index overflows only when all its slots are used. *)
Theorem index_equals_scan (m : mem) (images : gmap Z LoadedImage) (img : LoadedImage) (name : Z) (weakIn : bool) (st : symbol_index) :
  images_ok images -> images !! img_self img = Some img -> index_inv m images st ->
  symbols_ok m img -> 0 <= img_nsyms img -> cstr m name <> [] -> _strlen m name < 2 ^ 32 ->
  let '(r, st') := findSymbolInImage m img name false weakIn st in
  if si_overflow st' then SYMBOL_INDEX_CAPACITY <= si_used st'
  else r = scan_image m img name weakIn /\ index_inv m images st' /\ img_self img ∈ si_images st'.
Proof. apply findSymbolInImage_ok. Qed.

(** Two definitions of one name, the first of them weak. *)
Definition two_symbols : mem :=
  let sym m a strx desc value := mwrite (mwrite (mwrite (mwrite m a 4 strx) (a + 4) 1 0x0f) (a + 6) 2 desc) (a + 8) 8 value in
  mstore (mstore (sym (sym ∅ 0x1000 1 N_WEAK_DEF 0x100) 0x1010 1 0 0x200) 0x2000 [0; 0x5f; 0x61; 0]) 0x3000 [0x5f; 0x61; 0].
Definition two_image : LoadedImage := mkImage 0x10 0x4000 0x4000 0 0x1000 0x2000 2 4.

Lemma index_equals_scan_witness :
  let '(r, st') := findSymbolInImage two_symbols two_image 0x3000 false false empty_index in
  r = (0x4200, false) /\ si_used st' = 1.
Proof.
  assert (Him : images_ok {[0x10 := two_image]}).
  { split; [|rewrite map_size_singleton; done]. intros s img. rewrite lookup_singleton_Some. by intros [<- <-]. }
  assert (Hok : symbols_ok two_symbols two_image).
  { intros i Hi sym. change (img_nsyms two_image) with 2 in Hi. assert (i = 0 \/ i = 1) as [-> | ->] by lia; intros _ _ _ _;
      (split; [apply is_Some_bool; vm_compute; reflexivity|vm_compute; discriminate]). }
  pose proof (index_equals_scan two_symbols {[0x10 := two_image]} two_image 0x3000 false empty_index Him
    (lookup_singleton_eq _ _) (empty_index_inv _ _) Hok ltac:(done) ltac:(vm_compute; discriminate) ltac:(vm_compute; reflexivity)) as H.
  assert (Eo : si_overflow (findSymbolInImage two_symbols two_image 0x3000 false false empty_index).2 = false) by (vm_compute; reflexivity).
  assert (Eu : si_used (findSymbolInImage two_symbols two_image 0x3000 false false empty_index).2 = 1) by (vm_compute; reflexivity).
  destruct (findSymbolInImage two_symbols two_image 0x3000 false false empty_index) as [r st']. cbn [snd] in *.
  rewrite Eo in H. destruct H as [-> _]. split; [vm_compute; reflexivity|exact Eu].
Defined.
