(* ===== verification/MachImage.v ===== *)
(** * Load commands of an image in memory: userland/dyld/panthera_dyld.cpp

    The walks over the load commands of a mapped image: segments, the address of
    the link-edit data, the export trie and the symbol tables. The structures are
    those of mach-o/loader.h. *)

From Stdlib Require Import ZArith Lia Ascii String.
From stdpp Require Import base list gmap.
From S2P Require Import Prelude MachO Words Runs DyldImage.

Open Scope Z_scope.

(** ** mach_header_64 and load_command *)
Definition sizeof_mach_header_64 : Z := 32.
Definition mh_magic (m : mem) (mh : Z) : Z := mread m mh 4.
Definition mh_ncmds (m : mem) (mh : Z) : Z := mread m (mh + 16) 4.
Definition mh_sizeofcmds (m : mem) (mh : Z) : Z := mread m (mh + 20) 4.

Definition sizeof_load_command : Z := 8.
Definition lc_cmd (m : mem) (lc : Z) : Z := mread m lc 4.
Definition lc_cmdsize (m : mem) (lc : Z) : Z := mread m (lc + 4) 4.

Definition LC_LOAD_DYLIB : Z := 0xc.
Definition LC_DYLD_INFO : Z := 0x22.
Definition LC_LOAD_WEAK_DYLIB : Z := 0x80000018.
Definition LC_REEXPORT_DYLIB : Z := 0x8000001f.
Definition LC_DYLD_INFO_ONLY : Z := 0x80000022.
Definition LC_DYLD_EXPORTS_TRIE : Z := 0x80000033.
Definition LC_DYLD_CHAINED_FIXUPS : Z := 0x80000034.

(** ** segment_command_64 *)
Definition seg_name (m : mem) (seg : Z) : list Z := cstr m (seg + 8).
Definition seg_vmaddr (m : mem) (seg : Z) : Z := mread m (seg + 24) 8.
Definition seg_vmsize (m : mem) (seg : Z) : Z := mread m (seg + 32) 8.
Definition seg_fileoff (m : mem) (seg : Z) : Z := mread m (seg + 40) 8.
Definition seg_filesize (m : mem) (seg : Z) : Z := mread m (seg + 48) 8.
Definition seg_initprot (m : mem) (seg : Z) : Z := mread m (seg + 60) 4.

Definition SEG_TEXT : list Z := str "__TEXT".
Definition SEG_LINKEDIT : list Z := str "__LINKEDIT".

(** ** dyld_info_command, linkedit_data_command, symtab_command, dylib_command *)
Definition di_rebase_off (m : mem) (c : Z) : Z := mread m (c + 8) 4.
Definition di_rebase_size (m : mem) (c : Z) : Z := mread m (c + 12) 4.
Definition di_bind_off (m : mem) (c : Z) : Z := mread m (c + 16) 4.
Definition di_bind_size (m : mem) (c : Z) : Z := mread m (c + 20) 4.
Definition di_lazy_bind_off (m : mem) (c : Z) : Z := mread m (c + 32) 4.
Definition di_lazy_bind_size (m : mem) (c : Z) : Z := mread m (c + 36) 4.
Definition di_export_off (m : mem) (c : Z) : Z := mread m (c + 40) 4.
Definition di_export_size (m : mem) (c : Z) : Z := mread m (c + 44) 4.
Definition ldc_dataoff (m : mem) (c : Z) : Z := mread m (c + 8) 4.
Definition ldc_datasize (m : mem) (c : Z) : Z := mread m (c + 12) 4.
Definition sc_symoff (m : mem) (c : Z) : Z := mread m (c + 8) 4.
Definition sc_nsyms (m : mem) (c : Z) : Z := mread m (c + 12) 4.
Definition sc_stroff (m : mem) (c : Z) : Z := mread m (c + 16) 4.
Definition sc_strsize (m : mem) (c : Z) : Z := mread m (c + 20) 4.
Definition dylib_name_offset (m : mem) (c : Z) : Z := mread m (c + 8) 4.

(** ** Walks

    The addresses of the load commands, as the loops
    [for (i = 0; i < ncmds; i++) { ...; cmd += lc->cmdsize; }] visit them. *)
Fixpoint commands_from (m : mem) (cmd : Z) (n : nat) : list Z :=
  match n with
  | O => []
  | S n => cmd :: commands_from m (cmd + lc_cmdsize m cmd) n
  end.

Definition commands (m : mem) (mh : Z) : list Z :=
  commands_from m (mh + sizeof_mach_header_64) (Z.to_nat (mh_ncmds m mh)).

(** The loops that also stop at a command that leaves [sizeofcmds]. *)
Fixpoint checked_from (m : mem) (cmd cmdsEnd : Z) (n : nat) : list Z :=
  match n with
  | O => []
  | S n =>
      if cmdsEnd <? cmd + sizeof_load_command then []
      else if (lc_cmdsize m cmd <? sizeof_load_command) || (cmdsEnd <? cmd + lc_cmdsize m cmd) then []
      else cmd :: checked_from m (cmd + lc_cmdsize m cmd) cmdsEnd n
  end.

Definition checked_commands (m : mem) (mh : Z) : list Z :=
  let cmd := mh + sizeof_mach_header_64 in
  checked_from m cmd (cmd + mh_sizeofcmds m mh) (Z.to_nat (mh_ncmds m mh)).

Definition findSegment (m : mem) (mh : Z) (name : list Z) : option Z :=
  List.find (fun cmd => (lc_cmd m cmd =? LC_SEGMENT_64) && (_strcmp (seg_name m cmd) name =? 0)) (commands m mh).

Definition findSegmentByImageOffset (m : mem) (img : LoadedImage) (imageOffset : Z) : option Z :=
  match findSegment m (img_header img) SEG_TEXT with
  | None => None
  | Some textSeg =>
      List.find (fun cmd => (lc_cmd m cmd =? LC_SEGMENT_64) && (seg_vmaddr m textSeg <=? seg_vmaddr m cmd) &&
                       (seg_vmaddr m cmd - seg_vmaddr m textSeg =? imageOffset))
        (checked_commands m (img_header img))
  end.

Definition pageRoundDown (value : Z) : Z := Z.ldiff value 0xfff.
Definition pageRoundUp (value : Z) : Z := Z.ldiff (value +64 0xfff) 0xfff.

(** ** The shared cache's globals *)
Record cache_state := mkCache {
  sCacheValid : bool;
  sCacheSplitRegion : bool;
  sCachePreResolved : bool;
  sCacheMap : Z;
  sCacheFileSize : Z;
  sCacheBase : Z;
  sCacheSlide : Z;
  sCacheImages : Z;
  sCacheImageCount : Z;
  sCacheTextBase : Z;
  sCacheDataBase : Z;
  sCacheLinkBase : Z;
  sCacheTextAddr : Z;
  sCacheDataAddr : Z;
  sCacheLinkAddr : Z;
  sCacheTextSize : Z;
  sCacheDataSize : Z;
  sCacheLinkSize : Z;
  sCacheLinkFileOffset : Z }.

Definition no_cache : cache_state := mkCache false false false 0 0 0 0 0 0 0 0 0 0 0 0 0 0 0 0.

Definition isImageFromCache (c : cache_state) (img : LoadedImage) : bool :=
  if negb (sCachePreResolved c) || (img_header img =? 0) then false
  else if sCacheSplitRegion c then
    (sCacheTextBase c <=? img_header img) && (img_header img <? sCacheTextBase c + sCacheTextSize c)
  else false.

Definition linkeditBaseForImage (m : mem) (c : cache_state) (img : LoadedImage) (textSeg linkSeg : Z) : Z :=
  if isImageFromCache c img && sCacheSplitRegion c then sCacheLinkBase c -64 sCacheLinkFileOffset c
  else wrap 64 (img_header img + (seg_vmaddr m linkSeg - seg_vmaddr m textSeg) - seg_fileoff m linkSeg).

(** Where one command puts the export trie: [None] to go on, [Some r] to return [r]. *)
Definition export_trie_command (m : mem) (linkeditBase linkSeg cmd : Z) : option (option (Z * Z)) :=
  let trie off size :=
    if size <=? 0 then None
    else if (off <? seg_fileoff m linkSeg) || (seg_fileoff m linkSeg +64 seg_filesize m linkSeg <? off + size) then Some None
    else Some (Some (linkeditBase +64 off, size)) in
  if lc_cmd m cmd =? LC_DYLD_EXPORTS_TRIE then trie (ldc_dataoff m cmd) (ldc_datasize m cmd)
  else if (lc_cmd m cmd =? LC_DYLD_INFO) || (lc_cmd m cmd =? LC_DYLD_INFO_ONLY) then trie (di_export_off m cmd) (di_export_size m cmd)
  else None.

(** The first command that decides. *)
Fixpoint first_decided {A B} (f : A -> option (option B)) (l : list A) : option B :=
  match l with
  | [] => None
  | x :: l => match f x with Some r => r | None => first_decided f l end
  end.

(** The address and size of the export trie. *)
Definition exportTrieForImage (m : mem) (c : cache_state) (img : LoadedImage) : option (Z * Z) :=
  match findSegment m (img_header img) SEG_TEXT, findSegment m (img_header img) SEG_LINKEDIT with
  | Some textSeg, Some linkSeg =>
      let linkeditBase := linkeditBaseForImage m c img textSeg linkSeg in
      if linkeditBase =? 0 then None
      else first_decided (export_trie_command m linkeditBase linkSeg) (commands m (img_header img))
  | _, _ => None
  end.

(** [parseSymtab]: the last symbol table command of the image sets the fields. *)
Definition parse_symtab_command (m : mem) (linkeditBase : Z) (img : LoadedImage) (cmd : Z) : LoadedImage :=
  if lc_cmd m cmd =? LC_SYMTAB then
    mkImage (img_self img) (img_header img) (img_slide img) (img_path img)
      (linkeditBase +64 sc_symoff m cmd) (linkeditBase +64 sc_stroff m cmd) (sc_nsyms m cmd) (sc_strsize m cmd)
  else img.

Definition parseSymtab (m : mem) (c : cache_state) (img : LoadedImage) : LoadedImage :=
  match findSegment m (img_header img) SEG_TEXT, findSegment m (img_header img) SEG_LINKEDIT with
  | Some textSeg, Some linkEdit =>
      let linkeditBase := linkeditBaseForImage m c img textSeg linkEdit in
      if linkeditBase =? 0 then img
      else fold_left (parse_symtab_command m linkeditBase) (commands m (img_header img)) img
  | _, _ => img
  end.
