(* ===== verification/ExportTrie.v ===== *)
(** * The export trie: userland/dyld/panthera_dyld.cpp

    [findExportTrieSymbolInImage] looks a name up in the compressed prefix tree of
    an image's exports, following re-exports to other images, with limits on the
    depth and on the work done. The specification is an abstract prefix tree and
    the relation "these bytes encode this tree" that any linker's layout
    satisfies. *)

From Stdlib Require Import ZArith Lia.
From stdpp Require Import base list gmap.
From S2P Require Import Prelude MachO Words Runs Leb128 DyldImage MachImage.

Open Scope Z_scope.

Definition EXPORT_SYMBOL_FLAGS_WEAK_DEFINITION : Z := 0x04.
Definition EXPORT_SYMBOL_FLAGS_REEXPORT : Z := 0x08.

(** ** A node

    [*budget] is threaded through; a search that ends because it is used up
    returns 0, like one that finds nothing. *)

(** The characters of an edge: the cursor at its NUL and the budget, or [None] when
    the budget is used up. *)
Fixpoint scan_edge (n : nat) (m : mem) (p e budget : Z) : option Z * Z :=
  match n with
  | O => (Some p, budget)
  | S n =>
      if (p <? e) && negb (mget m p =? 0) then
        let budget := budget - 1 in
        if budget <=? 0 then (None, budget) else scan_edge n m (p + 1) e budget
      else (Some p, budget)
  end.

(** The child to go to and the rest of the name. *)
Fixpoint find_child (count : nat) (m : mem) (p e : Z) (remainingName : list Z) (budget : Z) : option (Z * list Z) * Z :=
  match count with
  | O => (None, budget)
  | S count =>
      if p <? e then
        let budget := budget - 1 in
        if budget <=? 0 then (None, budget)
        else
          match scan_edge (Z.to_nat (e - p)) m p e budget with
          | (None, budget) => (None, budget)
          | (Some q, budget) =>
              if e <=? q then (None, budget)
              else
                let edge := mbytes m p (Z.to_nat (q - p)) in
                match readULEB128Bounded m (q + 1) e with
                | (None, _) => (None, budget)
                | (Some childOffset, r) =>
                    if _strncmp remainingName edge (length edge) =? 0
                    then (Some (childOffset, drop (length edge) remainingName), budget)
                    else find_child count m r e remainingName budget
                end
          end
      else (None, budget)
  end.

(** What a node says about the name. *)
Inductive node_result :=
  | NotHere
  | Address (weak : bool) (address : Z)
  | Reexport (weak : bool) (ordinal : Z) (importName : option Z)
  | GoTo (childOffset : Z) (remainingName : list Z).

(** The terminal part: [weak] is what [*isWeakOut] was set to, if it was. *)
Definition read_terminal (m : mem) (p terminalEnd : Z) : option bool * node_result :=
  match readULEB128Bounded m p terminalEnd with
  | (None, _) => (None, NotHere)
  | (Some flags, p) =>
      let weak := negb (Z.land flags EXPORT_SYMBOL_FLAGS_WEAK_DEFINITION =? 0) in
      if negb (Z.land flags EXPORT_SYMBOL_FLAGS_REEXPORT =? 0) then
        match readULEB128Bounded m p terminalEnd with
        | (None, _) => (Some weak, NotHere)
        | (Some ordinal, p) =>
            (Some weak, Reexport weak ordinal (if (p <? terminalEnd) && negb (mget m p =? 0) then Some p else None))
        end
      else
        match readULEB128Bounded m p terminalEnd with
        | (None, _) => (Some weak, NotHere)
        | (Some address, _) => (Some weak, Address weak address)
        end
  end.

Definition visit_node (m : mem) (trie trieEnd nodeOffset : Z) (remainingName : list Z) (budget : Z)
    : option bool * node_result * Z :=
  match readULEB128Bounded m (trie + nodeOffset) trieEnd with
  | (None, _) => (None, NotHere, budget)
  | (Some terminalSize, p) =>
      if trieEnd - p <? terminalSize then (None, NotHere, budget)
      else
        let terminalEnd := p + terminalSize in
        if (length remainingName =? 0)%nat && (0 <? terminalSize) then (read_terminal m p terminalEnd, budget)
        else if trieEnd <=? terminalEnd then (None, NotHere, budget)
        else
          match find_child (Z.to_nat (mget m terminalEnd)) m (terminalEnd + 1) trieEnd remainingName budget with
          | (None, budget) => (None, NotHere, budget)
          | (Some (childOffset, rest), budget) => (None, GoTo childOffset rest, budget)
          end
  end.

(** ** The search *)

(** What the search needs of the rest of dyld: the memory, the shared cache's
    globals and [findOrdinalImage], which may load the image. *)
Class ImageEnv (St : Type) := {
  env_mem : St -> mem;
  env_cache : St -> cache_state;
  env_ordinal : LoadedImage -> Z -> St -> option LoadedImage * St }.

Section Search.
Context {St : Type} `{ImageEnv St}.

(** [n] is [33 - depth]. The result is the address, [*isWeakOut], [*budget] and the
    state. *)
Fixpoint findExportTrieSymbolAtNode (n : nat) (img : LoadedImage) (trie trieEnd nodeOffset : Z)
    (originalName remainingName : list Z) (isWeakOut : bool) (budget : Z) (st : St) : Z * bool * Z * St :=
  let budget := budget - 1 in
  match n with
  | O => (0, isWeakOut, budget, st)
  | S n =>
      if (budget <=? 0) || (trieEnd - trie <=? nodeOffset) then (0, isWeakOut, budget, st)
      else
        let '(weak, r, budget) := visit_node (env_mem st) trie trieEnd nodeOffset remainingName budget in
        let isWeakOut := default isWeakOut weak in
        match r with
        | NotHere => (0, isWeakOut, budget, st)
        | Address _ address => (img_header img +64 address, isWeakOut, budget, st)
        | Reexport _ ordinal importName =>
            match env_ordinal img (signed 32 (wrap 32 ordinal)) st with
            | (None, st) => (0, isWeakOut, budget, st)
            | (Some dep, st) =>
                match exportTrieForImage (env_mem st) (env_cache st) dep with
                | Some (depTrie, depTrieSize) =>
                    if negb (depTrie =? 0) && (0 <? depTrieSize) then
                      let name := match importName with Some p => cstr (env_mem st) p | None => originalName end in
                      findExportTrieSymbolAtNode n dep depTrie (depTrie + depTrieSize) 0 name name isWeakOut budget st
                    else (0, isWeakOut, budget, st)
                | None => (0, isWeakOut, budget, st)
                end
            end
        | GoTo childOffset rest =>
            findExportTrieSymbolAtNode n img trie trieEnd childOffset originalName rest isWeakOut budget st
        end
  end.

Definition trie_budget (trieSize : Z) : Z := if 16000 <? trieSize then 65536 else trieSize * 4 + 1024.

Definition findExportTrieSymbolInImage (img : LoadedImage) (name : list Z) (isWeakOut : bool) (st : St) : Z * bool * St :=
  match exportTrieForImage (env_mem st) (env_cache st) img with
  | Some (trie, trieSize) =>
      if (trie =? 0) || (trieSize =? 0) then (0, isWeakOut, st)
      else
        let '(addr, weak, _, st) :=
          findExportTrieSymbolAtNode 33 img trie (trie + trieSize) 0 name name false (trie_budget trieSize) st in
        (addr, weak, st)
  | None => (0, isWeakOut, st)
  end.

(** An invariant of [findOrdinalImage] is one of the search. *)
Lemma trie_search_inv (I : St -> Prop) : (forall img o st, I st -> I (env_ordinal img o st).2) ->
  forall img name w st, I st -> I (findExportTrieSymbolInImage img name w st).2.
Proof.
  intros Ho. assert (G : forall n img T e o nm rest w b st, I st -> I (findExportTrieSymbolAtNode n img T e o nm rest w b st).2).
  { induction n as [|n IH]; intros img T e o nm rest w b st Hs; cbn [findExportTrieSymbolAtNode]; [done|]. destruct (_ || _); [done|].
    destruct (visit_node _ _ _ _ _ _) as [[wk r] b']. destruct r as [|?|wk' ord imp|]; [done|done| |by apply IH].
    specialize (Ho img (signed 32 (wrap 32 ord)) st Hs). destruct (env_ordinal _ _ _) as [[dep|] st']; [|done].
    destruct (exportTrieForImage _ _ _) as [[? ?]|]; [|done]. destruct (_ && _); [by apply IH|done]. }
  intros img name w st Hs. unfold findExportTrieSymbolInImage. destruct (exportTrieForImage _ _ _) as [[T size]|]; [|done]. destruct (_ || _); [done|].
  specialize (G 33%nat img T (T + size) 0 name name false (trie_budget size) st Hs). by destruct (findExportTrieSymbolAtNode _ _ _ _ _ _ _ _ _ _) as [[[? ?] ?] ?].
Qed.
End Search.

(** ** Tries *)
Inductive export :=
  | ExAddress (flags address : Z)
  | ExReexport (flags ordinal : Z) (import : list Z).

Inductive trie := Node (terminal : option export) (children : list (list Z * trie)).

(** The exports of a trie. *)
Inductive entry : trie -> list Z -> export -> Prop :=
  | EntryHere ex kids : entry (Node (Some ex) kids) [] ex
  | EntryBelow term kids edge t rest ex : (edge, t) ∈ kids -> entry t rest ex -> entry (Node term kids) (edge ++ rest) ex.

(** No edge of a node starts another one. *)
Inductive prefix_free : trie -> Prop :=
  | PrefixFree term kids :
      (forall i j e1 t1 e2 t2, kids !! i = Some (e1, t1) -> kids !! j = Some (e2, t2) -> e1 `prefix_of` e2 -> i = j) ->
      (forall e t, (e, t) ∈ kids -> e <> []) -> (forall e t, (e, t) ∈ kids -> prefix_free t) ->
      prefix_free (Node term kids).

(** The nodes on the longest path, and the work a search may take: one unit for
    each node, edge and character. *)
Fixpoint height (t : trie) : nat :=
  let '(Node _ kids) := t in S ((fix go l := match l with [] => O | (_, k) :: l => Nat.max (height k) (go l) end) kids).

Fixpoint weight (t : trie) : Z :=
  let '(Node _ kids) := t in
  1 + (fix go l := match l with [] => 0 | (e, k) :: l => 1 + Z.of_nat (length e) + weight k + go l end) kids.

Definition kids_height := fix go (l : list (list Z * trie)) := match l with [] => O | (_, k) :: l => Nat.max (height k) (go l) end.
Definition kids_weight :=
  fix go (l : list (list Z * trie)) := match l with [] => 0 | (e, k) :: l => 1 + Z.of_nat (length e) + weight k + go l end.

(** ** Encodings *)
Definition weak_flag (flags : Z) : bool := negb (Z.land flags EXPORT_SYMBOL_FLAGS_WEAK_DEFINITION =? 0).

(** The terminal information between [p] and [pe]. *)
Definition terminal_at (m : mem) (p pe : Z) (term : option export) : Prop :=
  match term with
  | None => p = pe
  | Some (ExAddress f a) => Z.land f EXPORT_SYMBOL_FLAGS_REEXPORT = 0 /\
      exists q r, uleb_at m p pe f q /\ uleb_at m q pe a r
  | Some (ExReexport f ord nm) => Z.land f EXPORT_SYMBOL_FLAGS_REEXPORT <> 0 /\
      exists q r, uleb_at m p pe f q /\ uleb_at m q pe ord r /\
        match nm with
        | [] => r = pe \/ mget m r = 0
        | _ => Forall (fun c => c <> 0) nm /\ holds m r (nm ++ [0]) /\ r + Z.of_nat (length nm) + 1 <= pe
        end
  end.

(** The node at offset [off] of the bytes from [T] to [e]. *)
Inductive node_at (m : mem) (T e : Z) : Z -> trie -> Prop :=
  | NodeAt off size p term kids :
      0 <= off < e - T -> uleb_at m (T + off) e size p -> terminal_at m p (p + size) term -> p + size < e ->
      mget m (p + size) = Z.of_nat (length kids) -> children_at m T e (p + size + 1) kids -> node_at m T e off (Node term kids)
with children_at (m : mem) (T e : Z) : Z -> list (list Z * trie) -> Prop :=
  | NoChildren q : children_at m T e q []
  | ChildAt q edge t kids off r :
      Forall (fun c => c <> 0) edge -> holds m q (edge ++ [0]) -> uleb_at m (q + Z.of_nat (length edge) + 1) e off r ->
      node_at m T e off t -> children_at m T e r kids -> children_at m T e q ((edge, t) :: kids).

(** ** Looking up a name in a trie *)
Fixpoint strip (edge name : list Z) : option (list Z) :=
  match edge, name with
  | [], _ => Some name
  | c :: edge, d :: name => if c =? d then strip edge name else None
  | _, [] => None
  end.

Fixpoint first_child (kids : list (list Z * trie)) (name : list Z) : option (trie * list Z) :=
  match kids with
  | [] => None
  | (edge, t) :: kids => match strip edge name with Some rest => Some (t, rest) | None => first_child kids name end
  end.

Fixpoint trie_lookup (n : nat) (t : trie) (name : list Z) : option export :=
  match n with
  | O => None
  | S n =>
      let '(Node term kids) := t in
      match name, term with
      | [], Some ex => Some ex
      | _, _ => match first_child kids name with Some (k, rest) => trie_lookup n k rest | None => None end
      end
  end.

Lemma strip_Some edge name rest : strip edge name = Some rest <-> name = edge ++ rest.
Proof.
  revert name. induction edge as [|c edge IH]; intros name; cbn [strip app]; [split; [by intros [= ->]|by intros ->]|].
  destruct name as [|d name]; [done|]. destruct (Z.eqb_spec c d) as [->|Hn]; [rewrite IH; split; [by intros ->|congruence]|].
  split; [done|congruence].
Qed.

Lemma first_child_Some kids name k rest : first_child kids name = Some (k, rest) ->
  exists i edge, kids !! i = Some (edge, k) /\ name = edge ++ rest.
Proof.
  induction kids as [|[edge t] kids IH]; cbn [first_child]; [done|]. destruct (strip edge name) as [r|] eqn:E.
  - intros [= -> ->]. exists 0%nat, edge. split; [done|]. by apply strip_Some.
  - intros H. destruct (IH H) as (i & edge' & Hi & ->). by exists (S i), edge'.
Qed.

Lemma first_child_unique kids edge t rest i :
  (forall i j e1 t1 e2 t2, kids !! i = Some (e1, t1) -> kids !! j = Some (e2, t2) -> e1 `prefix_of` e2 -> i = j) ->
  kids !! i = Some (edge, t) -> first_child kids (edge ++ rest) = Some (t, rest).
Proof.
  revert i. induction kids as [|[e1 t1] kids IH]; intros i Hp Hi; [done|]. cbn [first_child].
  destruct (strip e1 (edge ++ rest)) as [r|] eqn:E.
  - apply strip_Some in E. assert (H0 : i = 0%nat).
    { destruct (prefix_weak_total e1 edge (edge ++ rest)) as [H|H]; [by exists r|by exists rest| |].
      - symmetry. by apply (Hp 0%nat i e1 t1 edge t).
      - by apply (Hp i 0%nat edge t e1 t1). }
    subst i. injection Hi as -> ->. apply app_inv_head in E as ->. done.
  - destruct i as [|i]; [injection Hi as -> ->; by rewrite (proj2 (strip_Some edge (edge ++ rest) rest)) in E|].
    apply (IH i); [|done]. intros a b ?? ?? Ha Hb Hpre. by specialize (Hp (S a) (S b) _ _ _ _ Ha Hb Hpre) as [= ->].
Qed.

Lemma kids_height_elem kids e t : (e, t) ∈ kids -> (height t <= kids_height kids)%nat.
Proof.
  induction kids as [|[e' t'] kids IH]; intros H; [by apply elem_of_nil in H|]. cbn [kids_height].
  apply elem_of_cons in H as [[= -> ->]|H]; [|specialize (IH H)]; fold kids_height; lia.
Qed.

Lemma entry_inv term kids name ex : entry (Node term kids) name ex <->
  (name = [] /\ term = Some ex) \/ (exists edge t rest, (edge, t) ∈ kids /\ name = edge ++ rest /\ entry t rest ex).
Proof.
  split.
  - intros H. inversion H; subst; [by left|right; eauto 10].
  - intros [[-> ->]|(edge & t & rest & ? & -> & ?)]; [constructor|by econstructor].
Qed.

(** In a prefix-free trie the lookup finds exactly the entries. *)
Lemma trie_lookup_entry t : prefix_free t -> forall n name ex, (height t <= n)%nat ->
  trie_lookup n t name = Some ex <-> entry t name ex.
Proof.
  induction 1 as [term kids Hp Hne Hpf IH]. intros n name ex Hn. destruct n as [|n]; [cbn in Hn; lia|].
  change (S (kids_height kids) <= S n)%nat in Hn. cbn [trie_lookup].
  assert (Hgo : match first_child kids name with Some (k, rest) => trie_lookup n k rest | None => None end = Some ex <->
    exists edge t rest, (edge, t) ∈ kids /\ name = edge ++ rest /\ entry t rest ex).
  { split.
    - destruct (first_child kids name) as [[k rest]|] eqn:E; [|done]. apply first_child_Some in E as (i & edge & Hi & ->).
      apply list_elem_of_lookup_2 in Hi. intros H. exists edge, k, rest. split_and!; [done|done|]. eapply IH; [done| |exact H].
      pose proof (kids_height_elem _ _ _ Hi). lia.
    - intros (edge & t & rest & Hin & -> & Hent). pose proof Hin as Hin'. apply list_elem_of_lookup in Hin' as [i Hi].
      rewrite (first_child_unique kids edge t rest i Hp Hi). apply (IH _ _ Hin); [|done].
      pose proof (kids_height_elem _ _ _ Hin). lia. }
  rewrite entry_inv, <- Hgo. destruct name as [|c name]; [destruct term as [ex'|]|].
  - split; [intros [= ->]; by left|]. intros [[_ H]|H]; [done|].
    destruct (proj1 Hgo H) as (edge & t & rest & Hin & Hname & _).
    symmetry in Hname. apply app_eq_nil in Hname as [-> _]. by apply Hne in Hin.
  - split; [by right|]. by intros [[_ [=]]|H].
  - split; [by right|]. by intros [[[=] _]|H].
Qed.

(** ** The code on an encoded trie *)
Lemma uleb_at_lt m p e v q : uleb_at m p e v q -> p < q <= e /\ 0 <= v.
Proof.
  intros (bs & _ & Hok & _ & <- & _ & -> & He). split; [|apply leb_value_nonneg]. destruct bs; [done|]. cbn [length] in *. lia.
Qed.

Lemma scan_edge_ok m e edge : Forall (fun c => c <> 0) edge -> forall n p b, holds m p (edge ++ [0]) ->
  p + Z.of_nat (length edge) < e -> (length edge <= n)%nat -> Z.of_nat (length edge) < b ->
  scan_edge n m p e b = (Some (p + Z.of_nat (length edge)), b - Z.of_nat (length edge)).
Proof.
  induction 1 as [|c edge Hc He IH]; intros n p b Hh Hp Hn Hb; cbn [length app] in *; apply holds_cons in Hh as [Hg Hh].
  - destruct n as [|n]; cbn [scan_edge]; [f_equal; [f_equal|]; lia|]. rewrite Hg. cbn [Z.eqb negb]. rewrite andb_false_r.
    f_equal; [f_equal|]; lia.
  - destruct n as [|n]; [lia|]. cbn [scan_edge]. rewrite Hg. destruct (Z.ltb_spec p e); [|lia].
    destruct (Z.eqb_spec c 0); [done|]. cbn [andb negb]. destruct (Z.leb_spec (b - 1) 0); [lia|].
    rewrite IH by (done || lia). f_equal; [f_equal|]; lia.
Qed.

Lemma weight_pos : forall t, 1 <= weight t.
Proof.
  fix IH 1. intros [term kids]. change (1 <= 1 + kids_weight kids). enough (0 <= kids_weight kids) by lia.
  induction kids as [|[e t] kids IHk]; [apply Z.le_refl|].
  change (0 <= 1 + Z.of_nat (length e) + weight t + kids_weight kids). specialize (IH t). lia.
Qed.

Lemma kids_weight_nonneg l : 0 <= kids_weight l.
Proof. pose proof (weight_pos (Node None l)) as H. change (1 <= 1 + kids_weight l) in H. lia. Qed.

Lemma holds_prefix m p x y : holds m p (x ++ y) -> holds m p x.
Proof. rewrite holds_app. by intros [H _]. Qed.

Lemma find_child_ok m T e q kids rem : Forall (fun c => c <> 0) rem -> children_at m T e q kids ->
  forall b, kids_weight kids < b ->
  match first_child kids rem with
  | Some (k, rest) => exists off b', find_child (length kids) m q e rem b = (Some (off, rest), b') /\ node_at m T e off k /\ b - b' + weight k <= kids_weight kids
  | None => exists b', find_child (length kids) m q e rem b = (None, b')
  end.
Proof.
  intros Hrem. induction 1 as [q|q edge t kids off r Hnz Hh Hu Hn Hk IH]; intros b Hb; cbn [first_child length find_child]; [by eexists|].
  change (1 + Z.of_nat (length edge) + weight t + kids_weight kids < b) in Hb.
  pose proof (weight_pos t). pose proof (kids_weight_nonneg kids). pose proof (uleb_at_lt _ _ _ _ _ Hu) as [Hq _].
  destruct (Z.ltb_spec q e); [|lia]. destruct (Z.leb_spec (b - 1) 0); [lia|].
  rewrite (scan_edge_ok m e edge Hnz) by (done || lia). destruct (Z.leb_spec e (q + Z.of_nat (length edge))); [lia|].
  replace (q + Z.of_nat (length edge) - q) with (Z.of_nat (length edge)) by lia. rewrite Nat2Z.id.
  rewrite (holds_prefix _ _ _ _ Hh), (readULEB128Bounded_ok _ _ _ _ _ Hu).
  pose proof (_strncmp_prefix rem edge [] Hrem Hnz) as Hs. rewrite app_nil_r in Hs.
  destruct (strip edge rem) as [rest|] eqn:Es.
  - apply strip_Some in Es. destruct (Z.eqb_spec (_strncmp rem edge (length edge)) 0) as [_|Hne].
    + eexists off, _. split; [rewrite Es, drop_app_length; reflexivity|]. split; [done|].
      change (kids_weight ((edge, t) :: kids)) with (1 + Z.of_nat (length edge) + weight t + kids_weight kids). lia.
    + destruct Hne. apply Hs. by exists rest.
  - destruct (Z.eqb_spec (_strncmp rem edge (length edge)) 0) as [E|_].
    + apply Hs in E as [rest E]. apply strip_Some in E. congruence.
    + change (kids_weight ((edge, t) :: kids)) with (1 + Z.of_nat (length edge) + weight t + kids_weight kids).
      specialize (IH (b - 1 - Z.of_nat (length edge)) ltac:(lia)). destruct (first_child kids rem) as [[k rest]|]; [|done].
      destruct IH as (off' & b' & E & Hk' & Hb'). exists off', b'. split; [done|]. split; [done|]. lia.
Qed.

Lemma cstr_holds m s : Forall (fun c => c <> 0) s -> forall p, holds m p (s ++ [0]) -> cstr m p = s.
Proof.
  intros Hs p Hh. rewrite holds_app in Hh. destruct Hh as [Hh H0]. apply holds_cons in H0 as [H0 _].
  rewrite (cstr_unique m p (length s)); [exact Hh| |done]. intros i Hi. pose proof (mbytes_get m p (length s) i Hi) as Hg.
  rewrite Hh in Hg. by apply (Forall_lookup_1 _ _ _ _ Hs Hg).
Qed.

(** What a node gives for a name. *)
Definition node_answer (m : mem) (T e : Z) (t : trie) (rem : list Z) (b : Z) (r : option bool * node_result * Z) : Prop :=
  let '(Node term kids) := t in
  match rem, term with
  | [], Some (ExAddress f a) => r = (Some (weak_flag f), Address (weak_flag f) a, b)
  | [], Some (ExReexport f ord nm) => exists p, r = (Some (weak_flag f), Reexport (weak_flag f) ord p, b) /\
      match nm, p with
      | [], None => True
      | _ :: _, Some p => T <= p /\ p + Z.of_nat (length nm) < e /\ Forall (fun c => c <> 0) nm /\ holds m p (nm ++ [0])
      | _, _ => False
      end
  | _, _ =>
      match first_child kids rem with
      | Some (k, rest) => exists off b', r = (None, GoTo off rest, b') /\ node_at m T e off k /\ b - b' + weight k <= kids_weight kids
      | None => exists b', r = (None, NotHere, b')
      end
  end.

Lemma read_terminal_ok m p pe f a : terminal_at m p pe (Some (ExAddress f a)) ->
  read_terminal m p pe = (Some (weak_flag f), Address (weak_flag f) a).
Proof.
  intros (Hf & q & r & H1 & H2). unfold read_terminal. rewrite (readULEB128Bounded_ok _ _ _ _ _ H1). rewrite Hf. cbn [negb Z.eqb].
  by rewrite (readULEB128Bounded_ok _ _ _ _ _ H2).
Qed.

Lemma read_terminal_reexport m p pe f ord nm : terminal_at m p pe (Some (ExReexport f ord nm)) ->
  exists r, p < r <= pe /\ read_terminal m p pe = (Some (weak_flag f), Reexport (weak_flag f) ord (match nm with [] => None | _ => Some r end)) /\
    match nm with [] => True | _ => Forall (fun c => c <> 0) nm /\ holds m r (nm ++ [0]) /\ r + Z.of_nat (length nm) + 1 <= pe end.
Proof.
  intros (Hf & q & r & H1 & H2 & Hn). exists r. pose proof (uleb_at_lt _ _ _ _ _ H1). pose proof (uleb_at_lt _ _ _ _ _ H2).
  split; [lia|]. split; [|by destruct nm]. unfold read_terminal. rewrite (readULEB128Bounded_ok _ _ _ _ _ H1).
  destruct (Z.eqb_spec (Z.land f EXPORT_SYMBOL_FLAGS_REEXPORT) 0); [done|]. cbn [negb]. rewrite (readULEB128Bounded_ok _ _ _ _ _ H2).
  do 2 f_equal. destruct nm as [|c nm].
  - destruct Hn as [->|Hn]; [by rewrite Z.ltb_irrefl|]. rewrite Hn. cbn. by rewrite andb_false_r.
  - destruct Hn as (Hnz & Hh & He). apply holds_cons in Hh as [Hg _]. rewrite Hg. apply Forall_inv in Hnz. cbn in Hnz.
    cbn [length] in He. destruct (Z.ltb_spec r pe); [|lia]. by destruct (Z.eqb_spec c 0).
Qed.

Lemma visit_node_ok m T e off t rem b : Forall (fun c => c <> 0) rem -> node_at m T e off t -> weight t < b + 1 ->
  node_answer m T e t rem b (visit_node m T e off rem b).
Proof.
  intros Hrem Ht Hb. destruct Ht as [off size p term kids Hoff Hu Hterm Hend Hc Hk].
  change (1 + kids_weight kids < b + 1) in Hb. unfold visit_node. rewrite (readULEB128Bounded_ok _ _ _ _ _ Hu).
  pose proof (uleb_at_lt _ _ _ _ _ Hu) as [Hp Hs0]. destruct (Z.ltb_spec (e - p) size); [lia|].
  destruct (Z.leb_spec e (p + size)); [lia|]. rewrite Hc, Nat2Z.id.
  pose proof (find_child_ok m T e (p + size + 1) kids rem Hrem Hk b ltac:(lia)) as Hfc.
  assert (Hgo : node_answer m T e (Node None kids) rem b
    (match find_child (length kids) m (p + size + 1) e rem b with
     | (None, budget) => (None, NotHere, budget) | (Some (childOffset, rest), budget) => (None, GoTo childOffset rest, budget) end)).
  { unfold node_answer.
    destruct (first_child kids rem) as [[k rest]|].
    - destruct Hfc as (off' & b' & -> & Hn & Hw). destruct rem; eauto.
    - destruct Hfc as (b' & ->). destruct rem; eauto. }
  destruct rem as [|c rem]; cbn [length Nat.eqb andb]; [|destruct term as [[]|]; exact Hgo].
  destruct term as [[f a|f ord nm]|].
  - pose proof Hterm as Hterm'. destruct Hterm' as (_ & q & r & H1 & _). apply uleb_at_lt in H1 as [H1 _].
    destruct (Z.ltb_spec 0 size); [|lia]. cbn [andb]. by rewrite (read_terminal_ok _ _ _ _ _ Hterm).
  - pose proof Hterm as Hterm'. destruct Hterm' as (_ & q & r & H1 & _). apply uleb_at_lt in H1 as [H1 _].
    destruct (Z.ltb_spec 0 size); [|lia]. cbn [andb]. destruct (read_terminal_reexport _ _ _ _ _ _ Hterm) as (r' & Hr & -> & Hn).
    eexists _. split; [reflexivity|]. destruct nm; [done|]. destruct Hn as (? & ? & ?). split_and!; try done; lia.
  - cbn in Hterm. assert (size = 0) as -> by lia. cbn [Z.ltb Z.compare andb]. exact Hgo.
Qed.

(** ** The search on encoded tries *)
Section Correctness.
Context {St : Type} `{ImageEnv St}.

(** The trie of an image. *)
Definition image_trie (st : St) (img : LoadedImage) (T size : Z) (t : trie) : Prop :=
  exportTrieForImage (env_mem st) (env_cache st) img = Some (T, size) /\ T <> 0 /\ 0 < size /\
  node_at (env_mem st) T (T + size) 0 t /\ prefix_free t.

(** The address an image exports under a name, and whether it is a weak definition:
    an entry of its own trie, or that of the image a re-export refers to, which
    [findOrdinalImage] may have to load ([st'] is the state after that). [depth]
    and [work] are the depth and the size of the tries passed through. *)
Inductive image_exports : St -> LoadedImage -> list Z -> Z -> bool -> St -> nat -> Z -> Prop :=
  | ExportsAddress st img T size t name f a :
      image_trie st img T size t -> entry t name (ExAddress f a) ->
      image_exports st img name (img_header img +64 a) (weak_flag f) st (height t) (weight t)
  | ExportsReexport st img T size t name f ord nm dep st' addr weak st'' depth work :
      image_trie st img T size t -> entry t name (ExReexport f ord nm) ->
      env_ordinal img (signed 32 (wrap 32 ord)) st = (Some dep, st') ->
      (forall p, T <= p < T + size -> mget (env_mem st') p = mget (env_mem st) p) ->
      image_exports st' dep (match nm with [] => name | _ => nm end) addr weak st'' depth work ->
      image_exports st img name addr weak st'' (height t + depth)%nat (weight t + work).

(** The end of a search in the trie of another image. *)
Definition follow (n : nat) (img : LoadedImage) (originalName : list Z) (ordinal : Z) (importName : option Z) (w : bool) (b : Z) (st : St)
    : Z * bool * Z * St :=
  match env_ordinal img (signed 32 (wrap 32 ordinal)) st with
  | (None, st) => (0, w, b, st)
  | (Some dep, st) =>
      match exportTrieForImage (env_mem st) (env_cache st) dep with
      | Some (depTrie, depTrieSize) =>
          if negb (depTrie =? 0) && (0 <? depTrieSize) then
            let name := match importName with Some p => cstr (env_mem st) p | None => originalName end in
            findExportTrieSymbolAtNode n dep depTrie (depTrie + depTrieSize) 0 name name w b st
          else (0, w, b, st)
      | None => (0, w, b, st)
      end
  end.

(** Where the import name of a re-export is. *)
Definition import_at (m : mem) (T e : Z) (nm : list Z) (p : option Z) : Prop :=
  match nm, p with
  | [], None => True
  | _ :: _, Some p => T <= p /\ p + Z.of_nat (length nm) < e /\ Forall (fun c => c <> 0) nm /\ holds m p (nm ++ [0])
  | _, _ => False
  end.

Definition search_result (st : St) (img : LoadedImage) (T e : Z) (orig : list Z) (n h : nat) (wt b : Z) (w : bool) (ex : option export)
    (r : Z * bool * Z * St) : Prop :=
  match ex with
  | Some (ExAddress f a) => exists b', r = (img_header img +64 a, weak_flag f, b', st)
  | Some (ExReexport f ord nm) => exists n' b' p, r = follow n' img orig ord p (weak_flag f) b' st /\
      (n <= n' + h)%nat /\ b - wt <= b' /\ import_at (env_mem st) T e nm p
  | None => exists b', r = (0, w, b', st)
  end.

Lemma search_in_trie img T e orig st : forall n off t rem w b,
  Forall (fun c => c <> 0) rem -> node_at (env_mem st) T e off t -> (height t <= n)%nat -> weight t < b ->
  search_result st img T e orig n (height t) (weight t) b w (trie_lookup n t rem) (findExportTrieSymbolAtNode n img T e off orig rem w b st).
Proof.
  induction n as [|n IH]; intros off t rem w b Hrem Ht Hh Hw; [destruct t; cbn in Hh; lia|].
  pose proof (weight_pos t) as Hpos. pose proof (visit_node_ok _ T e off t rem (b - 1) Hrem Ht ltac:(lia)) as Hv.
  assert (Hoff : off < e - T) by (destruct Ht; lia). cbn [findExportTrieSymbolAtNode].
  destruct (Z.leb_spec (b - 1) 0); [lia|]. destruct (Z.leb_spec (e - T) off); [lia|]. cbn [orb]. destruct t as [term kids].
  change (S (kids_height kids) <= S n)%nat in Hh. unfold node_answer in Hv.
  change (weight (Node term kids)) with (1 + kids_weight kids) in *. change (height (Node term kids)) with (S (kids_height kids)).
  destruct (visit_node _ _ _ _ _ _) as [[weak nr] b1]. cbn [trie_lookup].
  assert (Hcase : (exists ex, rem = [] /\ term = Some ex) \/
    (match rem, term with [], Some ex => Some ex
     | _, _ => match first_child kids rem with Some (k, rest) => trie_lookup n k rest | None => None end end
       = match first_child kids rem with Some (k, rest) => trie_lookup n k rest | None => None end /\
     match first_child kids rem with
     | Some (k, rest) => exists off b', (weak, nr, b1) = (None, GoTo off rest, b') /\ node_at (env_mem st) T e off k /\
         b - 1 - b' + weight k <= kids_weight kids
     | None => exists b', (weak, nr, b1) = (None, NotHere, b')
     end)) by (destruct rem, term as [[]|]; eauto).
  destruct Hcase as [([f a|f ord nm] & -> & ->)|[-> Hc]].
  - injection Hv as -> -> ->. cbn. by eexists.
  - destruct Hv as (p & [= -> -> ->] & Hp). cbn [default]. exists n, (b - 1), p. split; [done|]. split; [lia|]. split; [|done].
    pose proof (kids_weight_nonneg kids). lia.
  - destruct (first_child kids rem) as [[k rest]|] eqn:Ef; [|destruct Hc as (b' & [= -> -> ->]); by eexists].
    destruct Hc as (off' & b' & [= -> -> ->] & Hk & Hb'). cbn [default].
    apply first_child_Some in Ef as (i & edge & Hi & ->). apply Forall_app in Hrem as [_ Hrest].
    apply list_elem_of_lookup_2, kids_height_elem in Hi.
    specialize (IH off' k rest w b' Hrest Hk ltac:(lia) ltac:(lia)). unfold search_result in *.
    destruct (trie_lookup n k rest) as [[]|]; [done| |done].
    destruct IH as (n' & b'' & p & E & Hn & Hbb & Hp). exists n', b'', p. split; [done|]. split; [lia|]. split; [lia|done].
Qed.

(** The image's exports, with any depth and budget that suffice. *)
Lemma search_exports st img name addr weak st' depth work : image_exports st img name addr weak st' depth work ->
  Forall (fun c => c <> 0) name ->
  forall T size n w b, exportTrieForImage (env_mem st) (env_cache st) img = Some (T, size) -> (depth <= n)%nat -> work < b ->
  exists b', findExportTrieSymbolAtNode n img T (T + size) 0 name name w b st = (addr, weak, b', st').
Proof.
  induction 1 as [st img T size t name f a (Ht & _ & _ & Hn & Hpf) He
    |st img T size t name f ord nm dep st' addr weak st'' depth work (Ht & _ & _ & Hn & Hpf) He Ho Hframe Hx IH];
    intros Hname T' size' n w b Ht' Hd Hb; rewrite Ht in Ht'; injection Ht' as <- <-.
  - pose proof (search_in_trie img T (T + size) name st n 0 t name w b Hname Hn Hd Hb) as Hs.
    by rewrite (proj2 (trie_lookup_entry t Hpf n name _ Hd) He) in Hs.
  - assert (Hwork : 0 <= work) by (clear -Hx; induction Hx; pose proof (weight_pos t); lia).
    pose proof (search_in_trie img T (T + size) name st n 0 t name w b Hname Hn ltac:(lia) ltac:(lia)) as Hs.
    rewrite (proj2 (trie_lookup_entry t Hpf n name _ ltac:(lia)) He) in Hs. destruct Hs as (n' & b' & p & -> & Hn' & Hb' & Hp).
    unfold follow. rewrite Ho. assert (Htrie : exists T1 s1 t1, image_trie st' dep T1 s1 t1) by (inversion Hx; eauto).
    destruct Htrie as (T1 & s1 & t1 & E1 & Hnz & Hs1 & _). rewrite E1. destruct (Z.eqb_spec T1 0); [done|].
    destruct (Z.ltb_spec 0 s1); [|lia]. cbn [negb andb].
    replace (match p with Some p => cstr (env_mem st') p | None => name end) with (match nm with [] => name | _ => nm end).
    + apply IH; [|done|lia|lia]. destruct nm; [done|]. destruct p; [|done]. apply Hp.
    + destruct nm as [|c nm], p as [p|]; try done. destruct Hp as (Hp1 & Hp2 & Hnz' & Hh). symmetry. apply cstr_holds; [done|].
      eapply holds_ext; [|exact Hh]. intros i Hi. apply Hframe. rewrite length_app in Hi. cbn [length] in *. lia.
Qed.

(** C28. For an image whose export information encodes a prefix-free trie [t] of
    at most 33 levels (and at most the work the search allows),
    [findExportTrieSymbolInImage] returns the address and the weak flag the image
    exports under the name, following re-exports from trie to trie, under the name
    the re-export gives where it gives one, to the image that has the definition;
    and it returns 0 when [t] has no entry for the name. The images on the way are
    those [findOrdinalImage] gives, which may load them as long as it leaves the
    trie that named them as it is. *)
Theorem export_trie_lookup img name st T size t w :
  Forall (fun c => c <> 0) name -> image_trie st img T size t ->
  (forall addr weak st' depth work, image_exports st img name addr weak st' depth work -> (depth <= 33)%nat -> work < trie_budget size ->
     findExportTrieSymbolInImage img name w st = (addr, weak, st')) /\
  ((height t <= 33)%nat -> weight t < trie_budget size -> (forall ex, ~ entry t name ex) ->
     findExportTrieSymbolInImage img name w st = (0, false, st)).
Proof.
  intros Hname (Ht & Hnz & Hsz & Hn & Hpf). unfold findExportTrieSymbolInImage. rewrite Ht.
  destruct (Z.eqb_spec T 0); [done|]. destruct (Z.eqb_spec size 0); [lia|]. cbn [orb]. split.
  - intros addr weak st' depth work Hx Hd Hb.
    by destruct (search_exports _ _ _ _ _ _ _ _ Hx Hname T size 33 false (trie_budget size) Ht Hd Hb) as (b' & ->).
  - intros Hh Hw Hno. pose proof (search_in_trie img T (T + size) name st 33 0 t name false (trie_budget size) Hname Hn Hh Hw) as Hs.
    destruct (trie_lookup 33 t name) as [ex|] eqn:E; [|by destruct Hs as (b' & ->)].
    apply trie_lookup_entry in E; [|done|done]. by destruct (Hno ex).
Qed.
End Correctness.

(** Two images: the first exports [_a] and re-exports [_c] of the second as [_b]. *)
Definition small_image (m : mem) (mh : Z) (trie : list Z) : mem :=
  let segment m c name vmaddr := mwrite (mwrite (mwrite (mwrite (mstore (mwrite (mwrite m c 4 LC_SEGMENT_64) (c + 4) 4 72) (c + 8) name)
    (c + 24) 8 vmaddr) (c + 32) 8 0x1000) (c + 40) 8 vmaddr) (c + 48) 8 0x1000 in
  let m := segment (segment (mwrite m (mh + 16) 4 3) (mh + 32) SEG_TEXT 0) (mh + 104) SEG_LINKEDIT 0x1000 in
  let m := mwrite (mwrite (mwrite (mwrite m (mh + 176) 4 LC_DYLD_EXPORTS_TRIE) (mh + 180) 4 16) (mh + 184) 4 0x1000)
    (mh + 188) 4 (Z.of_nat (length trie)) in
  mstore m (mh + 0x1000) trie.

Definition trie_bytes_a : list Z :=
  [0; 1; 0x5f; 0; 5;  0; 2; 0x61; 0; 13; 0x62; 0; 17;  2; 0; 0x10; 0;  5; 8; 1; 0x5f; 0x63; 0; 0].
Definition trie_bytes_c : list Z := [0; 1; 0x5f; 0x63; 0; 6;  2; 4; 0x30; 0].
Definition two_images_mem : mem := small_image (small_image ∅ 0x10000 trie_bytes_a) 0x20000 trie_bytes_c.
Definition image_a : LoadedImage := mkImage 0x10 0x10000 0x10000 0 0 0 0 0.
Definition image_c : LoadedImage := mkImage 0x50 0x20000 0x20000 0 0 0 0 0.
Definition trie_a : trie :=
  Node None [([0x5f], Node None [([0x61], Node (Some (ExAddress 0 0x10)) []); ([0x62], Node (Some (ExReexport 8 1 [0x5f; 0x63])) [])])].
Definition trie_c : trie := Node None [([0x5f; 0x63], Node (Some (ExAddress 4 0x30)) [])].

(** Ordinal 1 of the first image is the second. *)
#[local] Instance two_images : ImageEnv mem := {|
  env_mem m := m;
  env_cache _ := no_cache;
  env_ordinal img ord m := ((if (img_self img =? 0x10) && (ord =? 1) then Some image_c else None), m) |}.

Ltac uleb bs := exists bs; split_and!; [vm_compute; reflexivity|cbn; lia|cbn; lia|vm_compute; reflexivity|vm_compute; reflexivity|cbn; lia|cbn; lia].
Ltac node size' p' := eapply (NodeAt _ _ _ _ size' p');
  [lia|uleb [size']| |lia|vm_compute; reflexivity|].
Ltac child off' r' := eapply (ChildAt _ _ _ _ _ _ _ off' r'); [repeat constructor; lia|vm_compute; reflexivity|uleb [off']| |].

Ltac prefix_free_trie := unfold trie_a, trie_c; repeat (constructor;
  [intros [|[|i]] [|[|j]] e1 t1 e2 t2 Hi Hj [rest Hp]; simplify_eq/=; done
  |intros e t He; repeat (apply elem_of_cons in He as [[= -> ->]|He]; [done|]); by apply elem_of_nil in He
  |intros e t He; repeat (apply elem_of_cons in He as [[= -> ->]|He]; [try clear|]); [..|by apply elem_of_nil in He]]).

Lemma trie_a_ok : image_trie two_images_mem image_a 0x11000 24 trie_a.
Proof.
  split; [vm_compute; reflexivity|]. split; [lia|]. split; [lia|]. cbn [env_mem two_images]. split.
  - node 0 0x11001; [done|]. child 5 0x11005; [|constructor]. node 0 0x11006; [done|].
    child 13 0x1100a; [|child 17 0x1100d; [|constructor]].
    + node 2 0x1100e; [|constructor]. split; [done|]. exists 0x1100f, 0x11010. split; [uleb [0]|uleb [0x10]].
    + node 5 0x11012; [|constructor]. split; [done|]. exists 0x11013, 0x11014. split; [uleb [8]|]. split; [uleb [1]|].
      split; [repeat constructor; lia|]. split; [vm_compute; reflexivity|cbn; lia].
  - prefix_free_trie.
Qed.

Lemma trie_c_ok : image_trie two_images_mem image_c 0x21000 10 trie_c.
Proof.
  split; [vm_compute; reflexivity|]. split; [lia|]. split; [lia|]. cbn [env_mem two_images]. split; [|prefix_free_trie].
  node 0 0x21001; [done|]. child 6 0x21006; [|constructor]. node 2 0x21007; [|constructor]. split; [done|].
  exists 0x21008, 0x21009. split; [uleb [4]|uleb [0x30]].
Qed.

Lemma export_trie_lookup_witness :
  findExportTrieSymbolInImage image_a [0x5f; 0x61] true two_images_mem = (0x10010, false, two_images_mem) /\
  findExportTrieSymbolInImage image_a [0x5f; 0x62] false two_images_mem = (0x20030, true, two_images_mem) /\
  findExportTrieSymbolInImage image_a [0x5f] true two_images_mem = (0, false, two_images_mem).
Proof.
  assert (Ha : entry trie_a [0x5f; 0x61] (ExAddress 0 0x10)).
  { eapply (EntryBelow _ _ [0x5f] _ [0x61]); [by left|]. eapply (EntryBelow _ _ [0x61] _ []); [by left|constructor]. }
  assert (Hb : entry trie_a [0x5f; 0x62] (ExReexport 8 1 [0x5f; 0x63])).
  { eapply (EntryBelow _ _ [0x5f] _ [0x62]); [by left|]. eapply (EntryBelow _ _ [0x62] _ []); [right; by left|constructor]. }
  assert (Hc : entry trie_c [0x5f; 0x63] (ExAddress 4 0x30)) by (eapply (EntryBelow _ _ [0x5f; 0x63] _ []); [by left|constructor]).
  split; [|split].
  - apply (export_trie_lookup image_a [0x5f; 0x61] two_images_mem 0x11000 24 trie_a true ltac:(repeat constructor; lia) trie_a_ok)
      with (depth := height trie_a) (work := weight trie_a); [|cbn; lia|cbn; lia].
    exact (ExportsAddress two_images_mem image_a _ _ _ _ _ _ trie_a_ok Ha).
  - apply (export_trie_lookup image_a [0x5f; 0x62] two_images_mem 0x11000 24 trie_a false ltac:(repeat constructor; lia) trie_a_ok)
      with (depth := (height trie_a + height trie_c)%nat) (work := weight trie_a + weight trie_c); [|cbn; lia|cbn; lia].
    apply (ExportsReexport two_images_mem image_a _ _ _ _ _ _ _ image_c two_images_mem _ _ _ _ _ trie_a_ok Hb); [reflexivity|intros p _; reflexivity|].
    exact (ExportsAddress two_images_mem image_c _ _ _ _ _ _ trie_c_ok Hc).
  - apply (export_trie_lookup image_a [0x5f] two_images_mem 0x11000 24 trie_a true ltac:(repeat constructor; lia) trie_a_ok);
      [cbn; lia|cbn; lia|]. intros ex He. apply (trie_lookup_entry trie_a ltac:(apply trie_a_ok) 33 [0x5f] ex ltac:(cbn; lia)) in He. done.
Defined.
