(* ===== verification/Linker.v ===== *)
(** * Loops over images and the linker interface: userland/dyld/panthera_dyld.cpp

    The loops of dyld read their bounds from memory that their bodies may change;
    [counted] and [each_command] are these loops, with rules for the usual case
    that the bounds stay the same. The class [Linker] is what the code that applies
    fixups needs of the rest of dyld: memory, symbol resolution and page
    protection. *)

From Stdlib Require Import ZArith Lia.
From stdpp Require Import base list gmap.
From S2P Require Import Prelude Words Runs DyldImage MachImage.

Open Scope Z_scope.

(** ** Loops *)
Section Loops.
Context {St : Type}.

(** [for (i = 0; i < bound; i++) body]. *)
Definition counted_step (bound : St -> Z) (f : Z -> St -> St) (s : Z * St) : (Z * St) + St :=
  let '(i, st) := s in if i <? bound st then inl (i + 1, f i st) else inr st.

Definition counted (bound : St -> Z) (f : Z -> St -> St) (st : St) : St :=
  while rounds32 st (counted_step bound f) (0, st).

Lemma counted_ind (I : Z -> St -> Prop) bound f st n : 0 <= n < 2 ^ 32 -> I 0 st ->
  (forall i s, 0 <= i <= n -> I i s -> bound s = n) -> (forall i s, 0 <= i < n -> I i s -> I (i + 1) (f i s)) ->
  I n (counted bound f st).
Proof.
  intros Hn H0 Hb Hs. unfold counted.
  apply (while_rule (counted_step bound f) (fun '(i, s) => 0 <= i <= n /\ I i s) (fun '(i, _) => n - i) (I n)).
  - intros [i s] [Hi HI]. cbn [counted_step]. rewrite (Hb i s Hi HI). destruct (Z.ltb_spec i n).
    + split; [split; [lia|apply Hs; [lia|done]]|lia].
    + by replace n with i by lia.
  - split; [lia|done].
  - intros [i s] [Hi _]. lia.
  - unfold rounds32. lia.
Qed.

(** [for (i = 0; i < mh->ncmds; i++) { body; cmd += lc->cmdsize; }]; [f] gives
    [inr] when the body leaves the loop, [done] is what follows the loop. *)
Context {R : Type} (mem_of : St -> mem).

Definition command_step (mh : Z) (f : Z -> St -> St + R) (done : St -> R) (s : Z * Z * St) : (Z * Z * St) + R :=
  let '(i, cmd, st) := s in
  if i <? mh_ncmds (mem_of st) mh then
    match f cmd st with
    | inl st => inl (i + 1, cmd + lc_cmdsize (mem_of st) cmd, st)
    | inr r => inr r
    end
  else inr (done st).

Definition each_command (mh : Z) (f : Z -> St -> St + R) (done : St -> R) (st : St) : R :=
  while rounds32 (done st) (command_step mh f done) (0, mh + sizeof_mach_header_64, st).

Lemma each_command_inv (I : St -> Prop) (Q : R -> Prop) mh f done st : I st -> (forall s, I s -> Q (done s)) ->
  (forall c s, I s -> match f c s with inl s' => I s' | inr r => Q r end) -> Q (each_command mh f done st).
Proof.
  intros Hs Hd Hf. unfold each_command. apply (while_inv (command_step mh f done) (fun '(_, _, s) => I s)); [done|by apply Hd|].
  intros [[i c] s] HI. cbn [command_step]. destruct (i <? _); [|by apply Hd]. specialize (Hf c s HI). by destruct (f c s).
Qed.

Lemma each_command_ext (I : St -> Prop) mh f g done st : I st ->
  (forall c s, I s -> f c s = g c s /\ match f c s with inl s' => I s' | inr _ => True end) ->
  each_command mh f done st = each_command mh g done st.
Proof.
  intros Hs Hf. unfold each_command, while. rewrite !loop_runs.
  assert (E : forall k i c s, I s -> runs (command_step mh f done) k (i, c, s) = runs (command_step mh g done) k (i, c, s)); [|by rewrite E].
  induction k as [|k IH]; intros i c s HI; cbn [runs command_step]; [done|]. destruct (i <? _); [|done]. destruct (Hf c s HI) as [<- Hp]. destruct (f c s); [by apply IH|done].
Qed.

(** The same over a list of commands. *)
Fixpoint fold_until (f : Z -> St -> St + R) (done : St -> R) (l : list Z) (st : St) : R :=
  match l with
  | [] => done st
  | c :: l => match f c st with inl st => fold_until f done l st | inr r => r end
  end.

(** Every state at the head of the loop satisfies [P]. *)
Fixpoint all_states (f : Z -> St -> St + R) (P : St -> Prop) (l : list Z) (st : St) : Prop :=
  P st /\ match l with [] => True | c :: l => match f c st with inl st => all_states f P l st | inr _ => True end end.
End Loops.

(** The header and the load commands of [mh] are in its first [n] bytes. *)
Definition commands_in (m : mem) (mh n : Z) : Prop :=
  32 <= n /\ forall c, c ∈ commands m mh -> mh + 32 <= c /\ c + 8 <= mh + n.

Definition same_header (m m' : mem) (mh n : Z) : Prop := forall a, mh <= a < mh + n -> mget m' a = mget m a.

Lemma same_header_read m m' mh n a k : same_header m m' mh n -> mh <= a -> a + Z.of_nat k <= mh + n -> mread m' a k = mread m a k.
Proof. intros H Ha Hk. apply mread_shift. intros i Hi. apply H. lia. Qed.

Lemma each_command_fold {St R} (mem_of : St -> mem) mh f (done : St -> R) st n :
  mem_wf (mem_of st) -> commands_in (mem_of st) mh n ->
  all_states f (fun s => same_header (mem_of st) (mem_of s) mh n) (commands (mem_of st) mh) st ->
  each_command mem_of mh f done st = fold_until f done (commands (mem_of st) mh) st.
Proof.
  intros Hwf [Hn Hin] Hall. set (m := mem_of st) in *. set (N := mh_ncmds m mh).
  assert (HN : 0 <= N < 2 ^ 32) by (by apply (mread_range m (mh + 16) 4)).
  assert (Hgo : forall k i cmd s, (forall c, c ∈ commands_from m cmd k -> c ∈ commands m mh) -> 0 <= i -> i + Z.of_nat k = N ->
    all_states f (fun s => same_header m (mem_of s) mh n) (commands_from m cmd k) s ->
    runs (command_step mem_of mh f done) (S k) (i, cmd, s) = inr (fold_until f done (commands_from m cmd k) s)).
  { induction k as [|k IH]; intros i cmd s Hsub Hi Hk [Hs Hrest].
    - cbn [runs command_step]. unfold mh_ncmds. rewrite (same_header_read m _ mh n) by (done || lia). fold (mh_ncmds m mh). fold N.
      by destruct (Z.ltb_spec i N); [lia|].
    - remember (S k) as k1. cbn [runs]. subst k1. cbn [command_step commands_from fold_until]. unfold mh_ncmds at 1.
      rewrite (same_header_read m _ mh n) by (done || lia). fold (mh_ncmds m mh). fold N. destruct (Z.ltb_spec i N); [|lia].
      cbn [commands_from] in Hrest, Hsub. destruct (f cmd s) as [s'|r] eqn:E; [|done].
      destruct (Hin cmd) as [Hc1 Hc2]; [apply Hsub; by left|].
      assert (Hs' : same_header m (mem_of s') mh n) by (destruct k; cbn in Hrest; tauto).
      assert (Esz : lc_cmdsize (mem_of s') cmd = lc_cmdsize m cmd) by (apply (same_header_read _ _ mh n); [done|lia|lia]).
      rewrite Esz. apply IH; [|lia|lia|done]. intros c Hc. apply Hsub. by right. }
  unfold each_command. apply (while_runs _ _ _ (S (Z.to_nat N))).
  - rewrite (Hgo (Z.to_nat N) 0 (mh + sizeof_mach_header_64) st); [done|done|lia|lia|done].
  - unfold rounds32. lia.
Qed.

(** ** The linker *)
Class Linker (St : Type) := {
  ln_mem : St -> mem;
  ln_set_mem : mem -> St -> St;
  ln_cache : St -> cache_state;
  ln_logged : St -> Z;              (* sUnresolvedBindLogCount *)
  ln_set_logged : Z -> St -> St;
  (** [resolveSymbol(name, ordinal, includeLocals, importer)]. *)
  ln_resolve : Z -> Z -> bool -> LoadedImage -> St -> Z * St;
  (** [sys_mprotect(addr, len, prot)]. *)
  ln_mprotect : Z -> Z -> Z -> St -> Z * St }.

(** Of the report only the count of the messages is kept. *)
Definition reportUnresolvedBind {St} `{Linker St} (st : St) : St :=
  if 64 <=? ln_logged st then st else ln_set_logged (ln_logged st + 1) st.

Definition store {St} `{Linker St} (loc v : Z) (st : St) : St := ln_set_mem (mwrite (ln_mem st) loc 8 v) st.

Definition PROT_READ : Z := 1.
Definition PROT_WRITE : Z := 2.
Definition PROT_EXEC : Z := 4.

(** What fixups rely on, in the states where [ln_ok] holds: resolving a symbol may
    load images and protecting a page changes the kernel's tables, but the bytes of
    the images that are loaded already ([ln_linked]) stay as they are. *)
Class LinkerLaws (St : Type) `{Linker St} := {
  ln_ok : St -> Prop;
  ln_linked : St -> Z -> Prop;
  ln_ok_wf : forall st, ln_ok st -> mem_wf (ln_mem st);
  ln_ok_set : forall m st, ln_ok st -> mem_wf m -> ln_ok (ln_set_mem m st);
  ln_mem_set : forall m st, ln_mem (ln_set_mem m st) = m;
  ln_cache_set : forall m st, ln_cache (ln_set_mem m st) = ln_cache st;
  ln_linked_set : forall m st a, ln_linked (ln_set_mem m st) a <-> ln_linked st a;
  ln_ok_logged : forall n st, ln_ok st -> ln_ok (ln_set_logged n st);
  ln_mem_logged : forall n st, ln_mem (ln_set_logged n st) = ln_mem st;
  ln_cache_logged : forall n st, ln_cache (ln_set_logged n st) = ln_cache st;
  ln_linked_logged : forall n st a, ln_linked (ln_set_logged n st) a <-> ln_linked st a;
  resolve_mem : forall name ord loc img st, ln_ok st ->
    let st' := (ln_resolve name ord loc img st).2 in
    ln_ok st' /\ ln_cache st' = ln_cache st /\
    forall a, ln_linked st a -> ln_linked st' a /\ mget (ln_mem st') a = mget (ln_mem st) a;
  protect_mem : forall addr len prot st, ln_ok st ->
    let st' := (ln_mprotect addr len prot st).2 in
    ln_ok st' /\ ln_cache st' = ln_cache st /\
    forall a, ln_linked st a -> ln_linked st' a /\ mget (ln_mem st') a = mget (ln_mem st) a }.

(** [st'] differs from [st] in the bytes of loaded images only where [D] holds. *)
Section Keeps.
Context {St : Type} `{LinkerLaws St}.

Definition keeps (D : Z -> Prop) (st st' : St) : Prop :=
  (ln_ok st -> ln_ok st') /\ ln_cache st' = ln_cache st /\
  forall a, ln_linked st a -> ln_linked st' a /\ (D a \/ mget (ln_mem st') a = mget (ln_mem st) a).

Lemma keeps_refl D st : keeps D st st.
Proof. split; [done|]. split; [done|]. intros a Ha. split; [done|by right]. Qed.

Lemma keeps_then D st1 st2 st3 : keeps D st1 st2 -> keeps D st2 st3 -> keeps D st1 st3.
Proof.
  intros (W1 & C1 & H1) (W2 & C2 & H2). split; [tauto|]. split; [congruence|]. intros a Ha.
  destruct (H1 a Ha) as [L1 E1], (H2 a (proj1 (H1 a Ha))) as [L2 E2]. split; [done|].
  destruct E1 as [?|E1]; [by left|]. destruct E2 as [?|E2]; [by left|right; congruence].
Qed.

Lemma keeps_weaken (D D' : Z -> Prop) st st' : (forall a, D a -> D' a) -> keeps D st st' -> keeps D' st st'.
Proof.
  intros HD (W & C & Hk). split; [done|]. split; [done|]. intros a Ha. destruct (Hk a Ha) as [? [?|?]]; split; auto.
Qed.

Lemma keeps_store loc v st : keeps (fun a => loc <= a < loc + 8) st (store loc v st).
Proof.
  unfold store. split; [intros Hok; apply ln_ok_set; [done|]; apply mem_wf_mwrite, ln_ok_wf, Hok|]. split; [apply ln_cache_set|]. intros a Ha.
  split; [by apply ln_linked_set|]. rewrite ln_mem_set. destruct (decide (loc <= a < loc + 8)) as [|Hn]; [by left|right].
  apply (only_in_mwrite (ln_mem st) loc 8 v). lia.
Qed.

Lemma keeps_report D st : keeps D st (reportUnresolvedBind st).
Proof.
  unfold reportUnresolvedBind. case_match; [apply keeps_refl|]. split; [apply ln_ok_logged|].
  split; [apply ln_cache_logged|]. intros a Ha. split; [by apply ln_linked_logged|right; by rewrite ln_mem_logged].
Qed.

Lemma keeps_resolve D name ord loc img st : ln_ok st -> keeps D st (ln_resolve name ord loc img st).2.
Proof.
  intros Hw. destruct (resolve_mem name ord loc img st Hw) as (H1 & H2 & H3). split; [done|]. split; [done|].
  intros a Ha. destruct (H3 a Ha). auto.
Qed.

Lemma keeps_protect D addr len prot st : ln_ok st -> keeps D st (ln_mprotect addr len prot st).2.
Proof.
  intros Hw. destruct (protect_mem addr len prot st Hw) as (H1 & H2 & H3). split; [done|]. split; [done|].
  intros a Ha. destruct (H3 a Ha). auto.
Qed.

(** The bytes in [F] are those of [m]. *)
Definition frozen (m : mem) (F : Z -> Prop) (st : St) : Prop :=
  ln_ok st /\ forall a, F a -> ln_linked st a /\ mget (ln_mem st) a = mget m a.

Lemma frozen_keeps m F T st st' : keeps T st st' -> (forall a, T a -> ~ F a) -> frozen m F st -> frozen m F st'.
Proof.
  intros (Kw & _ & Hk) HT [Hw Hf]. split; [by apply Kw|]. intros a Ha. destruct (Hf a Ha) as [Hl E].
  destruct (Hk a Hl) as [Hl' [Ht|E']]; [by destruct (HT a Ht)|]. split; [done|congruence].
Qed.

(** ** Pointers that have been set

    A pointer to set is its address and the value it gets: a function of the state
    in which symbols are resolved for it and of the value it has before. *)
Definition target : Type := Z * (St -> Z -> Z).

Definition in_targets (L : list target) (a : Z) : Prop := exists loc v, (loc, v) ∈ L /\ loc <= a < loc + 8.

Definition settled (L : list target) (st st' : St) : Prop :=
  keeps (in_targets L) st st' /\
  forall loc v, (loc, v) ∈ L -> exists st1, keeps (in_targets L) st st1 /\ mread (ln_mem st') loc 8 = v st1 (mread (ln_mem st) loc 8).

Lemma in_targets_app L1 L2 a : in_targets (L1 ++ L2) a <-> in_targets L1 a \/ in_targets L2 a.
Proof.
  unfold in_targets. split.
  - intros (loc & v & Hin & Ha). apply elem_of_app in Hin as [?|?]; [left|right]; by exists loc, v.
  - intros [(loc & v & Hin & Ha)|(loc & v & Hin & Ha)]; exists loc, v; rewrite elem_of_app; tauto.
Qed.

Lemma settled_nil st st' : keeps (fun _ => False) st st' -> settled [] st st'.
Proof. intros Hk. split; [by eapply keeps_weaken; [|exact Hk]|]. intros loc v Hin. by apply elem_of_nil in Hin. Qed.

(** A word none of whose bytes changed. *)
Lemma keeps_read T st st' loc : keeps T st st' -> (forall a, loc <= a < loc + 8 -> ln_linked st a /\ ~ T a) -> mread (ln_mem st') loc 8 = mread (ln_mem st) loc 8.
Proof.
  intros (_ & _ & Hk) HT. apply mread_shift. intros i Hi. destruct (HT (loc + Z.of_nat i)) as [Hl Hn]; [lia|]. by destruct (Hk _ Hl) as [_ [?|]].
Qed.

Lemma settled_app L1 L2 st st1 st' : settled L1 st st1 -> settled L2 st1 st' ->
  (forall a, in_targets (L1 ++ L2) a -> ln_linked st a) -> (forall a, in_targets L1 a -> ~ in_targets L2 a) -> settled (L1 ++ L2) st st'.
Proof.
  intros [K1 A1] [K2 A2] Hl Hd.
  assert (K1' : forall s s', keeps (in_targets L1) s s' -> keeps (in_targets (L1 ++ L2)) s s') by (intros s s'; apply keeps_weaken; intros; apply in_targets_app; by left).
  assert (K2' : forall s s', keeps (in_targets L2) s s' -> keeps (in_targets (L1 ++ L2)) s s') by (intros s s'; apply keeps_weaken; intros; apply in_targets_app; by right).
  split; [eapply keeps_then; eauto|]. intros loc v Hin. apply elem_of_app in Hin as [Hin|Hin].
  - destruct (A1 loc v Hin) as (s & Hs & E). exists s. split; [by apply K1'|]. rewrite <- E. apply (keeps_read (in_targets L2)); [done|]. intros a Ha.
    assert (Hi : in_targets L1 a) by (by exists loc, v). split; [apply K1, Hl, in_targets_app; by left|by apply Hd].
  - destruct (A2 loc v Hin) as (s & Hs & E). exists s. split; [eapply keeps_then; [apply K1', K1|by apply K2']|]. rewrite E. f_equal.
    apply (keeps_read (in_targets L1)); [done|]. intros a Ha. assert (Hi : in_targets L2 a) by (by exists loc, v).
    split; [apply Hl, in_targets_app; by right|]. intros Hi'. by apply (Hd a Hi').
Qed.

Lemma settled_keeps L st st1 st' : keeps (fun _ => False) st st1 -> (forall a, in_targets L a -> ln_linked st a) -> settled L st1 st' -> settled L st st'.
Proof.
  intros Hk Hl Hs. apply (settled_app [] L st st1 st'); [by apply settled_nil|done|done|]. intros a (loc & v & Hin & _). by apply elem_of_nil in Hin.
Qed.

Lemma fold_left_map {A B C} (f : A -> B -> A) (g : C -> B) l a : fold_left f (map g l) a = fold_left (fun a x => f a (g x)) l a.
Proof. revert a. induction l as [|x l IH]; intros a; cbn [map fold_left]; [done|apply IH]. Qed.

(** Pointers that do not overlap. *)
Definition apart (l : list Z) : Prop := forall i j a b, l !! i = Some a -> l !! j = Some b -> i <> j -> a + 8 <= b \/ b + 8 <= a.

Definition in_pointers (l : list Z) (a : Z) : Prop := exists loc, loc ∈ l /\ loc <= a < loc + 8.

Lemma apart_cons x l : apart (x :: l) -> apart l /\ forall y, y ∈ l -> x + 8 <= y \/ y + 8 <= x.
Proof.
  intros Ha. split; [intros i j a b Hi Hj Hij; apply (Ha (S i) (S j)); [done|done|lia]|].
  intros y Hy. apply list_elem_of_lookup in Hy as [i Hi]. by apply (Ha 0%nat (S i)).
Qed.

Lemma apart_app l1 l2 : apart (l1 ++ l2) -> apart l1 /\ apart l2 /\ forall x y, x ∈ l1 -> y ∈ l2 -> x + 8 <= y \/ y + 8 <= x.
Proof.
  intros Ha. split_and!.
  - intros i j a b Hi Hj Hij. apply (Ha i j); [by apply lookup_app_l_Some|by apply lookup_app_l_Some|done].
  - intros i j a b Hi Hj Hij. apply (Ha (length l1 + i)%nat (length l1 + j)%nat); [rewrite lookup_app_r by lia|rewrite lookup_app_r by lia|lia];
      by rewrite Nat.add_comm, Nat.add_sub.
  - intros x y Hx Hy. apply list_elem_of_lookup in Hx as [i Hi], Hy as [j Hj]. pose proof (lookup_lt_Some _ _ _ Hi). apply (Ha i (length l1 + j)%nat); [by apply lookup_app_l_Some| |lia].
    rewrite lookup_app_r by lia. by rewrite Nat.add_comm, Nat.add_sub.
Qed.

(** An action [act] that puts [w] of the old value into a pointer, done to each of
    them. *)
Lemma each_pointer (w : Z -> Z) (act : Z -> St -> St) l :
  (forall loc s, keeps (fun a => loc <= a < loc + 8) s (act loc s) /\ mread (ln_mem (act loc s)) loc 8 = w (mread (ln_mem s) loc 8)) ->
  forall st, apart l -> (forall a, in_pointers l a -> ln_linked st a) ->
  let st' := fold_left (fun st loc => act loc st) l st in
  keeps (in_pointers l) st st' /\ forall loc, loc ∈ l -> mread (ln_mem st') loc 8 = w (mread (ln_mem st) loc 8).
Proof.
  intros Hact. induction l as [|x l IH]; intros st Ha Hl; [split; [apply keeps_refl|]; intros loc Hin; by apply elem_of_nil in Hin|].
  destruct (apart_cons x l Ha) as [Ha' Hx]. cbn [fold_left]. destruct (Hact x st) as [Hk Hw]. destruct (IH (act x st) Ha') as [Hk' Hv].
  { intros a (loc & Hin & Hr). apply Hk, Hl. exists loc. split; [by right|done]. }
  split.
  - eapply keeps_then; [eapply keeps_weaken; [|exact Hk]|eapply keeps_weaken; [|exact Hk']].
    + intros a Hr. exists x. split; [by left|done].
    + intros a (loc & Hin & Hr). exists loc. split; [by right|done].
  - intros loc Hin. apply elem_of_cons in Hin as [->|Hin].
    + rewrite <- Hw. apply (keeps_read (in_pointers l)); [done|]. intros a Hr. split; [apply Hk, Hl; exists x; split; [by left|done]|].
      intros (y & Hy & Hr'). specialize (Hx y Hy). lia.
    + rewrite Hv by done. f_equal. apply (keeps_read (fun a => x <= a < x + 8)); [done|]. intros a Hr. split; [apply Hl; exists loc; split; [by right|done]|].
      specialize (Hx loc Hin). lia.
Qed.
End Keeps.

(** ** An example

    A linker that knows the symbol [_a]. *)
Definition one_symbol : Linker (mem * Z) := {|
  ln_mem := fst;
  ln_set_mem m st := (m, st.2);
  ln_cache _ := no_cache;
  ln_logged := snd;
  ln_set_logged n st := (st.1, n);
  ln_resolve name _ _ _ st := ((if decide (cstr st.1 name = [0x5f; 0x61]) then 0x7000 else 0), st);
  ln_mprotect _ _ _ st := (0, st) |}.

Definition one_symbol_laws : @LinkerLaws (mem * Z) one_symbol.
Proof. refine {| ln_ok := fun st => mem_wf st.1; ln_linked := fun _ _ => True |}; try done; intros; repeat split; done. Defined.
