(* ===== verification/ChainedFixups.v ===== *)
(** * Chained fixups: userland/dyld/panthera_dyld.cpp

    [applyChainedFixups] walks the chains of pointers that the link editor left in
    the pages of an image: every pointer is relocated or bound to an imported
    symbol. The definitions work on any bytes, malformed ones included; the
    specification is an abstract list of fixups for each page and the bytes that
    encode it. *)

From Stdlib Require Import ZArith Lia.
From stdpp Require Import base list gmap.
From S2P Require Import Prelude Words Runs DyldImage MachImage Linker.

Open Scope Z_scope.

Definition DYLD_CHAINED_PTR_64 : Z := 2.
Definition DYLD_CHAINED_PTR_64_OFFSET : Z := 6.
Definition DYLD_CHAINED_PTR_START_NONE : Z := 0xFFFF.

(** ** Structures *)

(** dyld_chained_fixups_header *)
Definition sizeof_fixups_header : Z := 28.
Definition fh_starts_offset (m : mem) (h : Z) : Z := mread m (h + 4) 4.
Definition fh_imports_offset (m : mem) (h : Z) : Z := mread m (h + 8) 4.
Definition fh_symbols_offset (m : mem) (h : Z) : Z := mread m (h + 12) 4.
Definition fh_imports_count (m : mem) (h : Z) : Z := mread m (h + 16) 4.

(** dyld_chained_starts_in_image *)
Definition si_seg_count (m : mem) (s : Z) : Z := mread m s 4.
Definition si_seg_info_offset (m : mem) (s i : Z) : Z := mread m (s + 4 + i * 4) 4.

(** dyld_chained_starts_in_segment *)
Definition sizeof_starts_in_segment : Z := 24.
Definition offsetof_page_start : Z := 22.
Definition ss_size (m : mem) (s : Z) : Z := mread m s 4.
Definition ss_page_size (m : mem) (s : Z) : Z := mread m (s + 4) 2.
Definition ss_pointer_format (m : mem) (s : Z) : Z := mread m (s + 6) 2.
Definition ss_segment_offset (m : mem) (s : Z) : Z := mread m (s + 8) 8.
Definition ss_page_count (m : mem) (s : Z) : Z := mread m (s + 20) 2.
Definition ss_page_start (m : mem) (s i : Z) : Z := mread m (s + offsetof_page_start + i * 2) 2.

(** dyld_chained_import *)
Definition sizeof_chained_import : Z := 4.
Definition ci_lib_ordinal (m : mem) (i : Z) : Z := Z.land (mread m i 4) 0xFF.
Definition ci_weak_import (m : mem) (i : Z) : bool := Z.testbit (mread m i 4) 8.
Definition ci_name_offset (m : mem) (i : Z) : Z := Z.shiftr (mread m i 4) 9.

Definition chainedImportOrdinal (libOrdinal : Z) : Z :=
  if 0xF0 <? libOrdinal then signed 8 libOrdinal else libOrdinal.

Definition rangeWithin (base e ptr size : Z) : bool := (base <=? ptr) && (ptr <=? e) && (size <=? e - ptr).

(** ** One fixup *)
Section Fixups.
Context {St : Type} `{Linker St}.

Definition bind_fixup (img : LoadedImage) (fixupData fixupEnd importsBase symbolStrings : Z) (loc rawValue : Z) (st : St) : St :=
  let m := ln_mem st in
  let ordinal := Z.land rawValue 0xFFFFFF in
  let addend := signed 8 (Z.land (Z.shiftr rawValue 24) 0xFF) in
  if ordinal <? fh_imports_count m fixupData then
    let imp := importsBase + ordinal * sizeof_chained_import in
    if negb (rangeWithin fixupData fixupEnd imp sizeof_chained_import) ||
       (wrap 32 (fixupEnd - symbolStrings) <=? ci_name_offset m imp)
    then store loc 0 (reportUnresolvedBind st)
    else
      let symName := symbolStrings + ci_name_offset m imp in
      if _strnlen m symName (fixupEnd - symName) =? fixupEnd - symName
      then store loc 0 (reportUnresolvedBind st)
      else
        let libOrdinal := chainedImportOrdinal (ci_lib_ordinal m imp) in
        let '(addr, st) := ln_resolve symName libOrdinal false img st in
        if negb (addr =? 0) then store loc (addr +64 addend) st
        else if ci_weak_import (ln_mem st) imp then store loc 0 st
        else store loc 0 (reportUnresolvedBind st)
  else st.

Definition rebase_fixup (img : LoadedImage) (pointer_format loc rawValue : Z) (st : St) : St :=
  if (pointer_format =? DYLD_CHAINED_PTR_64) || (pointer_format =? DYLD_CHAINED_PTR_64_OFFSET) then
    let target := Z.land rawValue 0xFFFFFFFFF in
    let high8 := Z.land (Z.shiftr rawValue 36) 0xFF in
    let newAddr := if pointer_format =? DYLD_CHAINED_PTR_64 then target +64 img_slide img else img_header img +64 target in
    store loc (Z.lor newAddr (Z.shiftl high8 56)) st
  else st.

(** One round of the walk along a chain. *)
Definition fixup_step (img : LoadedImage) (fixupData fixupEnd importsBase symbolStrings segInfo pageAddr pageEnd maxSteps : Z)
    (s : St * Z * Z) : (St * Z * Z) + St :=
  let '(st, loc, steps) := s in
  if (loc <? pageAddr) || (pageEnd <? loc +64 8) then inr st
  else
    let rawValue := mread (ln_mem st) loc 8 in
    let next := Z.land (Z.shiftr rawValue 51) 0xFFF in
    let steps := steps + 1 in
    if maxSteps <? steps then inr st
    else
      let st :=
        if Z.testbit rawValue 63 then bind_fixup img fixupData fixupEnd importsBase symbolStrings loc rawValue st
        else rebase_fixup img (ss_pointer_format (ln_mem st) segInfo) loc rawValue st in
      if next =? 0 then inr st else inl (st, loc +64 next * 4, steps).

Definition walk_page (img : LoadedImage) (fixupData fixupEnd importsBase symbolStrings segInfo pageAddr pageEnd maxSteps loc : Z)
    (st : St) : St :=
  while rounds32 st (fixup_step img fixupData fixupEnd importsBase symbolStrings segInfo pageAddr pageEnd maxSteps) (st, loc, 0).

(** ** Pages, segments and images *)
Definition fixup_page (img : LoadedImage) (fixupData fixupEnd importsBase symbolStrings segInfo segBase restoreProt page : Z)
    (st : St) : St :=
  let m := ln_mem st in
  let pageStart := ss_page_start m segInfo page in
  if pageStart =? DYLD_CHAINED_PTR_START_NONE then st
  else if negb (Z.land pageStart 0x8000 =? 0) then st
  else
    let page_size := ss_page_size m segInfo in
    let pageAddr := segBase +64 signed 32 (wrap 32 (page * page_size)) in
    let pageEnd := pageAddr +64 page_size in
    let maxSteps := page_size / 4 + 1 in
    let protectStart := pageRoundDown pageAddr in
    let protectEnd := pageRoundUp pageEnd in
    let protectSize := if protectStart <? protectEnd then protectEnd - protectStart else page_size in
    let writeProt := Z.lor restoreProt PROT_WRITE in
    let '(protectResult, st) := ln_mprotect protectStart protectSize writeProt st in
    let st := walk_page img fixupData fixupEnd importsBase symbolStrings segInfo pageAddr pageEnd maxSteps (pageAddr +64 pageStart) st in
    if (0 <=? protectResult) && negb (restoreProt =? writeProt) then (ln_mprotect protectStart protectSize restoreProt st).2
    else st.

(** The protection a segment has when its fixups are done. *)
Definition restore_prot (m : mem) (img : LoadedImage) (segment_offset : Z) : Z :=
  let prot := match findSegmentByImageOffset m img segment_offset with
              | Some fixupSeg => seg_initprot m fixupSeg
              | None => Z.lor PROT_READ PROT_WRITE
              end in
  let prot := Z.land prot (Z.lor (Z.lor PROT_READ PROT_WRITE) PROT_EXEC) in
  if prot =? 0 then PROT_READ else prot.

Definition fixup_segment (img : LoadedImage) (fixupData fixupEnd importsBase symbolStrings starts seg : Z) (st : St) : St :=
  let m := ln_mem st in
  if si_seg_info_offset m starts seg =? 0 then st
  else
    let segInfo := starts + si_seg_info_offset m starts seg in
    if negb (rangeWithin fixupData fixupEnd segInfo sizeof_starts_in_segment) ||
       (ss_size m segInfo <? sizeof_starts_in_segment) || negb (rangeWithin fixupData fixupEnd segInfo (ss_size m segInfo)) then st
    else
      let pageStartsSize := offsetof_page_start + ss_page_count m segInfo * 2 in
      if (ss_size m segInfo <? pageStartsSize) || (ss_page_size m segInfo =? 0) then st
      else
        let segBase := img_header img +64 ss_segment_offset m segInfo in
        let restoreProt := restore_prot m img (ss_segment_offset m segInfo) in
        counted (fun st => ss_page_count (ln_mem st) segInfo)
          (fixup_page img fixupData fixupEnd importsBase symbolStrings segInfo segBase restoreProt) st.

(** The body of the loop over the load commands; [inr] is a [break]. *)
Definition chained_command (img : LoadedImage) (textSeg cmd : Z) (st : St) : St + St :=
  let m := ln_mem st in
  if lc_cmd m cmd =? LC_DYLD_CHAINED_FIXUPS then
    match findSegment m (img_header img) SEG_LINKEDIT with
    | None => inr st
    | Some linkSeg =>
        let linkeditBase := linkeditBaseForImage m (ln_cache st) img textSeg linkSeg in
        let dataoff := ldc_dataoff m cmd in
        let datasize := ldc_datasize m cmd in
        if linkeditBase =? 0 then inr st
        else if (dataoff <? seg_fileoff m linkSeg) || (seg_fileoff m linkSeg +64 seg_filesize m linkSeg <? dataoff + datasize) ||
                (datasize <? sizeof_fixups_header) then inr st
        else
          let fixupData := linkeditBase +64 dataoff in
          let fixupEnd := fixupData + datasize in
          if (datasize <=? fh_starts_offset m fixupData) || (datasize <? fh_imports_offset m fixupData) ||
             (datasize <=? fh_symbols_offset m fixupData) ||
             (datasize <? fh_imports_offset m fixupData + fh_imports_count m fixupData * sizeof_chained_import) then inr st
          else
            let starts := fixupData + fh_starts_offset m fixupData in
            if negb (rangeWithin fixupData fixupEnd starts 4) then inr st
            else if (32 <? si_seg_count m starts) || negb (rangeWithin fixupData fixupEnd starts (4 + si_seg_count m starts * 4)) then inr st
            else
              let importsBase := fixupData + fh_imports_offset m fixupData in
              let symbolStrings := fixupData + fh_symbols_offset m fixupData in
              inl (counted (fun st => si_seg_count (ln_mem st) starts)
                     (fixup_segment img fixupData fixupEnd importsBase symbolStrings starts) st)
    end
  else inl st.

Definition applyChainedFixups (img : LoadedImage) (st : St) : St :=
  match findSegment (ln_mem st) (img_header img) SEG_TEXT with
  | None => st
  | Some textSeg => each_command ln_mem (img_header img) (chained_command img textSeg) id st
  end.
End Fixups.

(** ** Fixups and their encoding *)
Inductive fixup :=
  | Rebase (target high8 : Z)
  | Bind (import addend : Z).

Definition fixup_ok (f : fixup) : Prop :=
  match f with
  | Rebase t h => 0 <= t < 2 ^ 36 /\ 0 <= h < 2 ^ 8
  | Bind i a => 0 <= i < 2 ^ 24 /\ - 2 ^ 7 <= a < 2 ^ 7
  end.

(** A pointer that has yet to be fixed; [next] is the distance to the next one in
    units of four bytes. *)
Definition encode_fixup (f : fixup) (next : Z) : Z :=
  match f with
  | Rebase t h => t + 2 ^ 36 * h + 2 ^ 51 * next
  | Bind i a => i + 2 ^ 24 * (a mod 2 ^ 8) + 2 ^ 51 * next + 2 ^ 63
  end.

(** The fixups of a page with their offsets, in order. *)
Definition next_of (off : Z) (rest : list (Z * fixup)) : Z :=
  match rest with [] => 0 | (off', _) :: _ => (off' - off) / 4 end.

Fixpoint chain_at (m : mem) (P : Z) (l : list (Z * fixup)) : Prop :=
  match l with
  | [] => True
  | (off, f) :: rest => mread m (P + off) 8 = encode_fixup f (next_of off rest) /\ chain_at m P rest
  end.

Fixpoint chain_ok (size : Z) (nimports : Z) (l : list (Z * fixup)) : Prop :=
  match l with
  | [] => True
  | (off, f) :: rest =>
      0 <= off /\ off + 8 <= size /\ fixup_ok f /\ match f with Bind i _ => i < nimports | _ => True end /\
      match rest with [] => True | (off', _) :: _ => off + 8 <= off' /\ (off' - off) mod 4 = 0 /\ (off' - off) / 4 < 2 ^ 12 end /\
      chain_ok size nimports rest
  end.

Record import := mkImport { im_ordinal : Z; im_weak : bool; im_name : Z }.

Definition import_at (m : mem) (a : Z) (imp : import) : Prop :=
  ci_lib_ordinal m a = im_ordinal imp /\ ci_weak_import m a = im_weak imp /\ ci_name_offset m a = im_name imp.

(** The name of an import ends inside the fixup data. *)
Definition name_in (m : mem) (D size symbols : Z) (imp : import) : Prop :=
  0 <= im_name imp /\ exists k, 0 <= k /\ symbols + im_name imp + k < size /\ mget m (D + symbols + im_name imp + k) = 0.

Definition imports_at (m : mem) (D size imports symbols : Z) (l : list import) : Prop :=
  28 <= size < 2 ^ 32 /\ fh_imports_count m D = Z.of_nat (length l) /\
  0 <= imports /\ imports + 4 * Z.of_nat (length l) <= size /\ 0 <= symbols < size /\
  forall i imp, l !! i = Some imp -> import_at m (D + imports + Z.of_nat i * 4) imp /\ name_in m D size symbols imp.

(** ** What fixups mean *)
Section Meaning.
Context {St : Type} `{Linker St}.
Variables (img : LoadedImage) (D symbols : Z) (imports : list import).

Definition rebased (format target high8 : Z) : Z :=
  Z.lor (if format =? DYLD_CHAINED_PTR_64 then target +64 img_slide img else img_header img +64 target) (Z.shiftl high8 56).

Definition apply_fixup (format loc : Z) (f : fixup) (st : St) : St :=
  match f with
  | Rebase t h => store loc (rebased format t h) st
  | Bind i a =>
      match imports !! Z.to_nat i with
      | None => st
      | Some imp =>
          let '(addr, st) := ln_resolve (D + symbols + im_name imp) (chainedImportOrdinal (im_ordinal imp)) false img st in
          if addr =? 0 then store loc 0 (if im_weak imp then st else reportUnresolvedBind st) else store loc (addr +64 a) st
      end
  end.

Definition apply_chain (format P : Z) (l : list (Z * fixup)) (st : St) : St :=
  fold_left (fun st '(off, f) => apply_fixup format (P + off) f st) l st.
End Meaning.

(** ** Decoding *)
Lemma land_ones_mod a n k : 0 <= n -> k = Z.ones n -> Z.land a k = a mod 2 ^ n.
Proof. intros Hn ->. by apply Z.land_ones. Qed.

Lemma decode_next f next : fixup_ok f -> 0 <= next < 2 ^ 12 ->
  Z.land (Z.shiftr (encode_fixup f next) 51) 0xFFF = next.
Proof.
  intros Hf Hn. rewrite (land_ones_mod _ 12) by done. rewrite Z.shiftr_div_pow2 by lia. destruct f as [t h|i a]; cbn [encode_fixup fixup_ok] in *.
  - replace (t + 2 ^ 36 * h + 2 ^ 51 * next) with (t + 2 ^ 36 * h + next * 2 ^ 51) by lia. rewrite Z.div_add by lia.
    rewrite Z.div_small by lia. rewrite Z.add_0_l. by apply Z.mod_small.
  - pose proof (Z.mod_pos_bound a (2 ^ 8) ltac:(lia)).
    replace (i + 2 ^ 24 * (a mod 2 ^ 8) + 2 ^ 51 * next + 2 ^ 63) with (i + 2 ^ 24 * (a mod 2 ^ 8) + (next + 2 ^ 12) * 2 ^ 51) by lia.
    rewrite Z.div_add by lia. rewrite Z.div_small by lia. rewrite Z.add_0_l. replace (next + 2 ^ 12) with (next + 1 * 2 ^ 12) by lia.
    rewrite Z_mod_plus_full. by apply Z.mod_small.
Qed.

Lemma encode_fixup_range f next : fixup_ok f -> 0 <= next < 2 ^ 12 ->
  match f with Rebase _ _ => 0 <= encode_fixup f next < 2 ^ 63 | Bind _ _ => 2 ^ 63 <= encode_fixup f next < 2 ^ 64 end.
Proof.
  intros Hf Hn. destruct f as [t h|i a]; cbn [encode_fixup fixup_ok] in *; [lia|].
  pose proof (Z.mod_pos_bound a (2 ^ 8) ltac:(lia)). lia.
Qed.

Lemma decode_kind f next : fixup_ok f -> 0 <= next < 2 ^ 12 ->
  Z.testbit (encode_fixup f next) 63 = match f with Rebase _ _ => false | Bind _ _ => true end.
Proof.
  intros Hf Hn. pose proof (encode_fixup_range f next Hf Hn) as Hr. destruct f as [t h|i a].
  - apply Z.bits_above_log2; [lia|]. destruct (Z.eq_dec (encode_fixup (Rebase t h) next) 0) as [->|]; [done|].
    apply Z.log2_lt_pow2; lia.
  - set (e := encode_fixup (Bind i a) next) in *. rewrite Z.testbit_true by lia. rewrite <- (Z.mod_small 1 2) by lia. f_equal.
    symmetry. apply (Z.div_unique _ _ _ (e - 2 ^ 63)); lia.
Qed.

Lemma decode_rebase t h next : fixup_ok (Rebase t h) -> 0 <= next < 2 ^ 12 ->
  Z.land (encode_fixup (Rebase t h) next) 0xFFFFFFFFF = t /\ Z.land (Z.shiftr (encode_fixup (Rebase t h) next) 36) 0xFF = h.
Proof.
  intros [Ht Hh] Hn. rewrite (land_ones_mod _ 36), (land_ones_mod _ 8) by done. rewrite Z.shiftr_div_pow2 by lia. cbn [encode_fixup].
  replace (t + 2 ^ 36 * h + 2 ^ 51 * next) with (t + (h + 2 ^ 15 * next) * 2 ^ 36) by lia. split.
  - rewrite Z_mod_plus_full. by apply Z.mod_small.
  - rewrite Z.div_add by lia. rewrite Z.div_small by lia. rewrite Z.add_0_l. replace (h + 2 ^ 15 * next) with (h + (2 ^ 7 * next) * 2 ^ 8) by lia.
    rewrite Z_mod_plus_full. by apply Z.mod_small.
Qed.

Lemma decode_bind i a next : fixup_ok (Bind i a) -> 0 <= next < 2 ^ 12 ->
  Z.land (encode_fixup (Bind i a) next) 0xFFFFFF = i /\
  signed 8 (Z.land (Z.shiftr (encode_fixup (Bind i a) next) 24) 0xFF) = a.
Proof.
  intros [Hi Ha] Hn. rewrite (land_ones_mod _ 24), (land_ones_mod _ 8) by done. rewrite Z.shiftr_div_pow2 by lia. cbn [encode_fixup].
  pose proof (Z.mod_pos_bound a (2 ^ 8) ltac:(lia)) as Hm.
  replace (i + 2 ^ 24 * (a mod 2 ^ 8) + 2 ^ 51 * next + 2 ^ 63) with (i + (a mod 2 ^ 8 + (2 ^ 19 * next + 2 ^ 31) * 2 ^ 8) * 2 ^ 24) by lia. split.
  - rewrite Z_mod_plus_full. by apply Z.mod_small.
  - rewrite Z.div_add by lia. rewrite Z.div_small by lia. rewrite Z.add_0_l, Z_mod_plus_full, Z.mod_mod by lia.
    unfold signed. destruct (Z.ltb_spec (a mod 2 ^ 8) (2 ^ (8 - 1))); change (2 ^ (8 - 1)) with 128 in *; change (2 ^ 7) with 128 in *; change (2 ^ 8) with 256 in *.
    + destruct (Z.lt_ge_cases a 0) as [Hneg|]; [|by rewrite Z.mod_small by lia].
      rewrite <- (Z_mod_plus_full a 1 256), Z.mod_small in * by lia. lia.
    + destruct (Z.lt_ge_cases a 0) as [Hneg|]; [|rewrite Z.mod_small in * by lia; lia].
      rewrite <- (Z_mod_plus_full a 1 256), Z.mod_small in * by lia. lia.
Qed.

(** ** Walking a chain *)
Definition same_data (m m' : mem) (D size : Z) : Prop := forall a, D <= a < D + size -> mget m' a = mget m a.

Lemma same_data_read m m' D size a k : same_data m m' D size -> D <= a -> a + Z.of_nat k <= D + size -> mread m' a k = mread m a k.
Proof. intros H Ha Hk. apply mread_shift. intros i Hi. apply H. lia. Qed.

Lemma imports_at_same m m' D size io sy l : same_data m m' D size -> imports_at m D size io sy l -> imports_at m' D size io sy l.
Proof.
  intros Hs (Hsz & Hc & Hio & Hend & Hsy & Hi). split; [done|].
  split; [rewrite <- Hc; by apply (same_data_read m m' D size); [|lia|lia]|].
  split; [done|]. split; [done|]. split; [done|]. intros i imp Himp. destruct (Hi i imp Himp) as [(H1 & H2 & H3) (Hn & k & Hk & Hk' & Hz)].
  apply lookup_lt_Some in Himp. split.
  - unfold import_at, ci_lib_ordinal, ci_weak_import, ci_name_offset. by rewrite (same_data_read m m' D size) by (done || lia).
  - split; [done|]. exists k. split; [done|]. split; [done|]. rewrite <- Hz. apply Hs. lia.
Qed.

Lemma strnlen_short m p max k : p <> 0 -> 0 <= k < max -> mget m (p + k) = 0 -> _strnlen m p max < max.
Proof.
  intros Hp Hk Hz. unfold _strnlen. destruct (Z.eqb_spec p 0); [done|]. set (len := length (cstr_upto (Z.to_nat max) m p)).
  destruct (Z.lt_ge_cases (Z.of_nat len) max); [done|]. exfalso.
  assert (Hi : (Z.to_nat k < len)%nat) by lia. apply cstr_upto_get in Hi as [_ Hne]. rewrite Z2Nat.id in Hne by lia. done.
Qed.

Section Walk.
Context {St : Type} `{LinkerLaws St}.
Variables (img : LoadedImage) (D size io sy : Z) (imports : list import).

Lemma bind_fixup_ok loc i a next st : 0 < D -> imports_at (ln_mem st) D size io sy imports -> ln_ok st ->
  (forall b, D <= b < D + size -> ln_linked st b) -> fixup_ok (Bind i a) -> i < Z.of_nat (length imports) -> 0 <= next < 2 ^ 12 ->
  bind_fixup img D (D + size) (D + io) (D + sy) loc (encode_fixup (Bind i a) next) st = apply_fixup img D sy imports 0 loc (Bind i a) st.
Proof.
  intros HD Himp Hwf Hl Hf Hi Hn. destruct (decode_bind i a next Hf Hn) as [E1 E2]. unfold bind_fixup. rewrite E1, E2. clear E1 E2.
  destruct Hf as [Hi0 _]. destruct Himp as (Hsz & Hc & Hio & Hend & Hsy & Himp). rewrite Hc. destruct (Z.ltb_spec i (Z.of_nat (length imports))); [|lia].
  cbn [apply_fixup]. destruct (lookup_lt_is_Some_2 imports (Z.to_nat i)) as [imp Hlk]; [lia|]. rewrite Hlk.
  destruct (Himp _ _ Hlk) as [(I1 & I2 & I3) (Hn0 & k & Hk & Hk' & Hz)]. rewrite Z2Nat.id in I1, I2, I3 by lia.
  unfold sizeof_chained_import, rangeWithin. destruct (Z.leb_spec D (D + io + i * 4)); [|lia].
  destruct (Z.leb_spec (D + io + i * 4) (D + size)); [|lia]. destruct (Z.leb_spec 4 (D + size - (D + io + i * 4))); [|lia].
  rewrite I1, I3, wrap_small by lia. cbn [andb negb orb]. destruct (Z.leb_spec (D + size - (D + sy)) (im_name imp)); [lia|].
  pose proof (strnlen_short (ln_mem st) (D + sy + im_name imp) (D + size - (D + sy + im_name imp)) k ltac:(lia) ltac:(lia) Hz).
  destruct (Z.eqb_spec (_strnlen (ln_mem st) (D + sy + im_name imp) (D + size - (D + sy + im_name imp))) (D + size - (D + sy + im_name imp))); [lia|].
  pose proof (resolve_mem (D + sy + im_name imp) (chainedImportOrdinal (im_ordinal imp)) false img st Hwf) as Hr. cbv zeta in Hr.
  destruct (ln_resolve _ _ _ _ st) as [addr st']. cbn [snd] in Hr. destruct Hr as (_ & _ & Hr). destruct (Z.eqb_spec addr 0); cbn [negb]; [|done].
  replace (ci_weak_import (ln_mem st') (D + io + i * 4)) with (im_weak imp); [by destruct (im_weak imp)|].
  rewrite <- I2. unfold ci_weak_import. f_equal. symmetry. apply (same_data_read _ _ D size); [|lia|lia]. intros b Hb. by apply Hr, Hl.
Qed.

Lemma apply_fixup_keeps format loc f st : ln_ok st ->
  keeps (fun a => loc <= a < loc + 8) st (apply_fixup img D sy imports format loc f st).
Proof.
  intros Hwf. destruct f as [t h|i a]; cbn [apply_fixup]; [apply keeps_store|]. destruct (imports !! Z.to_nat i) as [imp|]; [|apply keeps_refl].
  pose proof (keeps_resolve (fun a => loc <= a < loc + 8) (D + sy + im_name imp) (chainedImportOrdinal (im_ordinal imp)) false img st Hwf) as Hk.
  destruct (ln_resolve _ _ _ _ st) as [addr st']. cbn [snd] in Hk. eapply keeps_then; [exact Hk|].
  destruct (addr =? 0); [|apply keeps_store]. destruct (im_weak imp); [apply keeps_store|]. eapply keeps_then; [apply keeps_report|apply keeps_store].
Qed.

Lemma apply_fixup_format fmt fmt' loc i a st : apply_fixup img D sy imports fmt loc (Bind i a) st = apply_fixup img D sy imports fmt' loc (Bind i a) st.
Proof. done. Qed.

Lemma rebase_fixup_ok format loc t h next st : fixup_ok (Rebase t h) -> 0 <= next < 2 ^ 12 ->
  format = DYLD_CHAINED_PTR_64 \/ format = DYLD_CHAINED_PTR_64_OFFSET ->
  rebase_fixup img format loc (encode_fixup (Rebase t h) next) st = apply_fixup img D sy imports format loc (Rebase t h) st.
Proof.
  intros Hf Hn Hfmt. destruct (decode_rebase t h next Hf Hn) as [E1 E2]. unfold rebase_fixup. rewrite E1, E2.
  by destruct Hfmt as [-> | ->].
Qed.

Lemma next_of_range s n off f rest : chain_ok s n ((off, f) :: rest) -> 0 <= next_of off rest < 2 ^ 12 /\
  match rest with [] => next_of off rest = 0 | (off', _) :: _ => next_of off rest <> 0 /\ off' = off + next_of off rest * 4 end.
Proof.
  intros (_ & _ & _ & _ & Hr & _). destruct rest as [|[off' f'] rest]; cbn [next_of]; [lia|]. destruct Hr as (H1 & H2 & H3).
  pose proof (Z.div_mod (off' - off) 4 ltac:(lia)). lia.
Qed.

Lemma chain_at_keeps P st st' off l s n : chain_ok s n l -> (forall o f, (o, f) ∈ l -> off + 8 <= o) ->
  (forall b, P <= b < P + s -> ln_linked st b) -> keeps (fun a => P + off <= a < P + off + 8) st st' ->
  chain_at (ln_mem st) P l -> chain_at (ln_mem st') P l.
Proof.
  intros Hok Hoff Hl (_ & _ & Hk). induction l as [|[o f] l IH]; [done|]. intros [Hc Hrest]. pose proof Hok as (Ho & Hs & _ & _ & _ & Hok'). split.
  - rewrite <- Hc. apply mread_shift. intros i Hi. specialize (Hoff o f ltac:(by left)).
    destruct (Hk (P + o + Z.of_nat i)) as [_ [?|E]]; [apply Hl; lia|lia|done].
  - apply IH; [done| |done]. intros o' f' Ho'. apply (Hoff o' f'). by right.
Qed.

Lemma chain_ok_sorted s n off f rest : chain_ok s n ((off, f) :: rest) -> forall o g, (o, g) ∈ rest -> off + 8 <= o.
Proof.
  revert off f. induction rest as [|[o1 g1] rest IH]; intros off f Hok o g Hin; [by apply elem_of_nil in Hin|].
  pose proof Hok as (_ & _ & _ & _ & (Ho & _) & Hok'). apply elem_of_cons in Hin as [[= -> ->]|Hin]; [done|].
  specialize (IH o1 g1 Hok' o g Hin). lia.
Qed.

Lemma chain_length s n l : chain_ok s n l -> forall off f, hd_error l = Some (off, f) -> off + 8 * Z.of_nat (length l) <= s.
Proof.
  induction l as [|[off f] l IH]; intros Hok o g Hhd; [done|]. cbn in Hhd. injection Hhd as <- <-. pose proof Hok as (_ & Hs & _ & _ & Hnx & Hok').
  destruct l as [|[off' f'] l]; [cbn; lia|]. specialize (IH Hok' off' f' eq_refl). cbn [length] in *. lia.
Qed.

(** What the walk along a page needs of the state. *)
Definition page_ready (segInfo format P psize : Z) (st : St) : Prop :=
  ln_ok st /\ imports_at (ln_mem st) D size io sy imports /\ (forall b, D <= b < D + size -> ln_linked st b) /\
  ss_pointer_format (ln_mem st) segInfo = format /\ (forall b, P <= b < P + psize -> ln_linked st b).

Definition in_page (P psize a : Z) : Prop := P <= a < P + psize.

Lemma page_ready_keeps segInfo format P psize st st' : P + psize <= D \/ D + size <= P -> D <= segInfo -> segInfo + 24 <= D + size ->
  page_ready segInfo format P psize st -> keeps (in_page P psize) st st' -> page_ready segInfo format P psize st'.
Proof.
  intros Hdis Hs1 Hs2 (Hw & Hi & Hl & Hf & Hp) (Kw & _ & Hk).
  assert (Hd : same_data (ln_mem st) (ln_mem st') D size).
  { intros a Ha. destruct (Hk a (Hl a Ha)) as [_ [Hin|E]]; [unfold in_page in Hin; lia|done]. }
  split; [by apply Kw|]. split; [by apply (imports_at_same (ln_mem st))|]. split; [intros b Hb; by apply Hk, Hl|].
  split; [rewrite <- Hf; by apply (same_data_read _ _ D size); [|lia|lia]|intros b Hb; by apply Hk, Hp].
Qed.

Lemma fixup_step_ok segInfo format P psize maxSteps off f rest st steps : 0 < D -> 0 <= P -> P + psize < 2 ^ 64 ->
  format = DYLD_CHAINED_PTR_64 \/ format = DYLD_CHAINED_PTR_64_OFFSET ->
  page_ready segInfo format P psize st -> chain_at (ln_mem st) P ((off, f) :: rest) -> chain_ok psize (Z.of_nat (length imports)) ((off, f) :: rest) ->
  steps + 1 <= maxSteps ->
  fixup_step img D (D + size) (D + io) (D + sy) segInfo P (P + psize) maxSteps (st, P + off, steps) =
  let st' := apply_fixup img D sy imports format (P + off) f st in
  match rest with [] => inr st' | (off', _) :: _ => inl (st', P + off', steps + 1) end.
Proof.
  intros HD HP Hend Hfmt (Hw & Himp & Hl & Hf & Hp) [Hraw _] Hok Hsteps. cbn [fixup_step].
  pose proof (next_of_range _ _ _ _ _ Hok) as [Hn Hnext]. destruct Hok as (Ho & Hs & Hfok & Hi & _ & Hrest).
  wrap_tac. destruct (Z.ltb_spec (P + off) P); [lia|]. destruct (Z.ltb_spec (P + psize) (P + off + 8)); [lia|]. cbn [orb].
  rewrite Hraw, decode_next by done. destruct (Z.ltb_spec maxSteps (steps + 1)); [lia|]. rewrite decode_kind by done. rewrite Hf.
  assert (E : (if match f with Rebase _ _ => false | Bind _ _ => true end
    then bind_fixup img D (D + size) (D + io) (D + sy) (P + off) (encode_fixup f (next_of off rest)) st
    else rebase_fixup img format (P + off) (encode_fixup f (next_of off rest)) st) = apply_fixup img D sy imports format (P + off) f st).
  { destruct f as [t h|i a]; [by apply rebase_fixup_ok|]. rewrite bind_fixup_ok by done. apply apply_fixup_format. }
  rewrite E. cbv zeta. destruct rest as [|[off' f'] rest]; [by rewrite Hnext|]. destruct Hnext as [Hne Hoff'].
  destruct (Z.eqb_spec (next_of off ((off', f') :: rest)) 0); [done|]. destruct Hrest as (_ & Hs' & _). do 2 f_equal. rewrite wrap_small; [f_equal; lia|lia].
Qed.

Lemma apply_chain_keeps format P psize n l : chain_ok psize n l -> forall st, ln_ok st ->
  keeps (in_page P psize) st (apply_chain img D sy imports format P l st).
Proof.
  induction l as [|[off f] l IH]; intros Hok st Hw; cbn [apply_chain fold_left]; [apply keeps_refl|].
  pose proof Hok as (Ho & Hs & _ & _ & _ & Hok'). pose proof (apply_fixup_keeps format (P + off) f st Hw) as Hk.
  eapply keeps_then; [eapply keeps_weaken; [|exact Hk]; unfold in_page; intros; lia|]. apply (IH Hok'). by apply Hk.
Qed.

Lemma walk_page_ok segInfo format P psize maxSteps off f rest st : 0 < D -> 0 <= P -> P + psize < 2 ^ 64 ->
  P + psize <= D \/ D + size <= P -> D <= segInfo -> segInfo + 24 <= D + size ->
  format = DYLD_CHAINED_PTR_64 \/ format = DYLD_CHAINED_PTR_64_OFFSET ->
  page_ready segInfo format P psize st -> chain_at (ln_mem st) P ((off, f) :: rest) -> chain_ok psize (Z.of_nat (length imports)) ((off, f) :: rest) ->
  Z.of_nat (length ((off, f) :: rest)) <= maxSteps < 2 ^ 32 ->
  walk_page img D (D + size) (D + io) (D + sy) segInfo P (P + psize) maxSteps (P + off) st =
  apply_chain img D sy imports format P ((off, f) :: rest) st.
Proof.
  intros HD HP Hend Hdis Hs1 Hs2 Hfmt Hr Hc Hok Hlen. unfold walk_page.
  apply (while_runs _ _ _ (length ((off, f) :: rest))); [|unfold rounds32; lia].
  assert (Hgo : forall rest off f st steps, page_ready segInfo format P psize st -> chain_at (ln_mem st) P ((off, f) :: rest) ->
    chain_ok psize (Z.of_nat (length imports)) ((off, f) :: rest) -> steps + Z.of_nat (length ((off, f) :: rest)) <= maxSteps ->
    runs (fixup_step img D (D + size) (D + io) (D + sy) segInfo P (P + psize) maxSteps) (length ((off, f) :: rest)) (st, P + off, steps) =
    inr (apply_chain img D sy imports format P ((off, f) :: rest) st)); [|apply Hgo; [done|done|done|lia]].
  clear off f rest st Hr Hc Hok Hlen. induction rest as [|[off' f'] rest IH]; intros off f st steps Hr Hc Hok Hlen; cbn [length] in *.
  - cbn [runs]. rewrite (fixup_step_ok segInfo format P psize maxSteps off f [] st steps) by (done || lia). done.
  - pose proof (fixup_step_ok segInfo format P psize maxSteps off f ((off', f') :: rest) st steps HD HP Hend Hfmt Hr Hc Hok ltac:(lia)) as E.
    remember (S (length rest)) as k eqn:Ek. cbn [runs]. rewrite E. subst k. cbv zeta. pose proof Hok as (Ho & Hs & _ & _ & _ & Hok').
    pose proof (apply_fixup_keeps format (P + off) f st (proj1 Hr)) as Hk. rewrite (IH off' f'); [done| | |done|lia].
    + eapply page_ready_keeps; [done|done|done|exact Hr|]. eapply keeps_weaken; [|exact Hk]. unfold in_page. intros; lia.
    + eapply (chain_at_keeps P st _ off _ psize (Z.of_nat (length imports))); [done|by apply (chain_ok_sorted _ _ _ _ _ Hok)|apply Hr|exact Hk|apply Hc].
Qed.
End Walk.

(** ** Pages and segments *)
Record segment_fixups := mkSegment { sg_page_size : Z; sg_format : Z; sg_offset : Z; sg_pages : list (list (Z * fixup)) }.

Definition first_offset (l : list (Z * fixup)) : Z := match l with [] => DYLD_CHAINED_PTR_START_NONE | (off, _) :: _ => off end.

(** The bytes at [s], inside the fixup data, describe the segment. *)
Definition segment_at (m : mem) (D size s : Z) (sg : segment_fixups) : Prop :=
  D <= s /\ sizeof_starts_in_segment <= ss_size m s /\ s + ss_size m s <= D + size /\
  offsetof_page_start + 2 * Z.of_nat (length (sg_pages sg)) <= ss_size m s /\
  ss_page_size m s = sg_page_size sg /\ 0 < sg_page_size sg /\ ss_pointer_format m s = sg_format sg /\
  (sg_format sg = DYLD_CHAINED_PTR_64 \/ sg_format sg = DYLD_CHAINED_PTR_64_OFFSET) /\ ss_segment_offset m s = sg_offset sg /\
  ss_page_count m s = Z.of_nat (length (sg_pages sg)) /\
  forall i l, sg_pages sg !! i = Some l -> ss_page_start m s (Z.of_nat i) = first_offset l.

Definition page_address (img : LoadedImage) (sg : segment_fixups) (i : nat) : Z :=
  img_header img + sg_offset sg + Z.of_nat i * sg_page_size sg.

(** Where a page with fixups is: its fixups are in memory, apart from the fixup
    data. *)
Definition page_at (img : LoadedImage) (m : mem) (linked : Z -> Prop) (D size nimports : Z) (sg : segment_fixups) (i : nat)
    (l : list (Z * fixup)) : Prop :=
  let P := page_address img sg i in
  chain_ok (sg_page_size sg) nimports l /\ first_offset l < 2 ^ 15 /\ chain_at m P l /\
  (forall a, in_page P (sg_page_size sg) a -> linked a) /\ (P + sg_page_size sg <= D \/ D + size <= P).

(** The image fits the address space. *)
Definition segment_fits (img : LoadedImage) (sg : segment_fixups) : Prop :=
  0 <= img_header img /\ 0 <= sg_offset sg /\ Z.of_nat (length (sg_pages sg)) * sg_page_size sg < 2 ^ 31 /\
  page_address img sg (length (sg_pages sg)) + 2 ^ 12 < 2 ^ 64.

Section Pages.
Context {St : Type} `{LinkerLaws St}.
Variables (img : LoadedImage) (D size io sy : Z) (imports : list import).

Definition apply_page (sg : segment_fixups) (prot : Z) (i : nat) (l : list (Z * fixup)) (st : St) : St :=
  match l with
  | [] => st
  | _ =>
      let P := page_address img sg i in
      let start := pageRoundDown P in
      let len := pageRoundUp (P + sg_page_size sg) - start in
      let '(r, st) := ln_mprotect start len (Z.lor prot PROT_WRITE) st in
      let st := apply_chain img D sy imports (sg_format sg) P l st in
      if (0 <=? r) && negb (prot =? Z.lor prot PROT_WRITE) then (ln_mprotect start len prot st).2 else st
  end.

Fixpoint apply_pages (sg : segment_fixups) (prot : Z) (i : nat) (pages : list (list (Z * fixup))) (st : St) : St :=
  match pages with
  | [] => st
  | l :: pages => apply_pages sg prot (S i) pages (apply_page sg prot i l st)
  end.

Definition apply_segment (o : option segment_fixups) (st : St) : St :=
  match o with
  | None => st
  | Some sg => apply_pages sg (restore_prot (ln_mem st) img (sg_offset sg)) 0 (sg_pages sg) st
  end.

Lemma apply_pages_snoc sg prot pages l : forall i st,
  apply_pages sg prot i (pages ++ [l]) st = apply_page sg prot (i + length pages) l (apply_pages sg prot i pages st).
Proof.
  induction pages as [|x pages IH]; intros i st; cbn [apply_pages app length]; [by rewrite Nat.add_0_r|].
  rewrite IH. by replace (i + S (length pages))%nat with (S i + length pages)%nat by lia.
Qed.

Lemma apply_page_keeps sg prot i l n st : chain_ok (sg_page_size sg) n l -> ln_ok st ->
  keeps (in_page (page_address img sg i) (sg_page_size sg)) st (apply_page sg prot i l st).
Proof.
  intros Hok Hw. unfold apply_page. destruct l as [|x l]; [apply keeps_refl|]. set (P := page_address img sg i).
  pose proof (keeps_protect (in_page P (sg_page_size sg)) (pageRoundDown P) (pageRoundUp (P + sg_page_size sg) - pageRoundDown P) (Z.lor prot PROT_WRITE) st Hw) as H1.
  destruct (ln_mprotect _ _ _ st) as [r st1]. cbn [snd] in H1. assert (W1 : ln_ok st1) by (by apply H1).
  pose proof (apply_chain_keeps img D sy imports (sg_format sg) P (sg_page_size sg) n (x :: l) Hok st1 W1) as H2.
  pose proof (keeps_then _ _ _ _ H1 H2) as H3. case_match; [|exact H3]. eapply keeps_then; [exact H3|]. apply keeps_protect. by apply H3.
Qed.

Lemma pageRoundDown_le a : 0 <= a -> 0 <= pageRoundDown a <= a.
Proof.
  intros Ha. unfold pageRoundDown. change 0xfff with (Z.ones 12). rewrite Z.ldiff_ones_r by lia. rewrite Z.shiftl_mul_pow2, Z.shiftr_div_pow2 by lia.
  pose proof (Z.div_mod a (2 ^ 12) ltac:(lia)). pose proof (Z.mod_pos_bound a (2 ^ 12) ltac:(lia)).
  assert (0 <= a / 2 ^ 12) by (apply Z.div_pos; lia). lia.
Qed.

Lemma pageRoundUp_ge a : 0 <= a -> a + 2 ^ 12 < 2 ^ 64 -> a <= pageRoundUp a.
Proof.
  intros Ha Hb. unfold pageRoundUp. rewrite wrap_small by lia. change 0xfff with (Z.ones 12).
  rewrite Z.ldiff_ones_r, Z.shiftl_mul_pow2, Z.shiftr_div_pow2 by lia. change (Z.ones 12) with 4095. change (2 ^ 12) with 4096 in *.
  pose proof (Z.div_mod (a + 4095) 4096 ltac:(lia)). pose proof (Z.mod_pos_bound (a + 4095) 4096 ltac:(lia)). lia.
Qed.

Lemma segment_at_same m m' s sg : same_data m m' D size -> segment_at m D size s sg -> segment_at m' D size s sg.
Proof.
  intros Hs (H1 & H2 & H3 & H4 & H5 & H6 & H7 & H8 & H9 & H10 & H11). unfold sizeof_starts_in_segment, offsetof_page_start in *.
  assert (E : forall a k, s <= a -> a + Z.of_nat k <= s + 24 -> mread m' a k = mread m a k).
  { intros a k Ha Hk. apply (same_data_read m m' D size); [done|lia|lia]. }
  unfold segment_at, ss_size, ss_page_size, ss_pointer_format, ss_segment_offset, ss_page_count, ss_page_start in *.
  rewrite !E by lia. split_and!; try done. intros i l Hi. rewrite <- (H11 i l Hi). apply lookup_lt_Some in Hi. unfold offsetof_page_start in *.
  apply (same_data_read m m' D size); [done|lia|lia].
Qed.

Lemma keeps_data (T : Z -> Prop) st st' : keeps T st st' -> (forall a, D <= a < D + size -> ln_linked st a /\ ~ T a) ->
  same_data (ln_mem st) (ln_mem st') D size.
Proof. intros (_ & _ & Hk) Hd a Ha. destruct (Hd a Ha) as [Hl Hn]. by destruct (Hk a Hl) as [_ [?|]]. Qed.

Lemma chain_at_same P psize n l m m' : chain_ok psize n l -> (forall a, in_page P psize a -> mget m' a = mget m a) ->
  chain_at m P l -> chain_at m' P l.
Proof.
  intros Hok Hs. induction l as [|[off f] l IH]; [done|]. destruct Hok as (Ho & Hsz & _ & _ & _ & Hok'). intros [E Hr]. split; [|by apply IH].
  rewrite <- E. apply mread_shift. intros i Hi. apply Hs. unfold in_page. lia.
Qed.

Lemma fixup_page_ok s sg prot i l st : 0 < D -> ln_ok st -> imports_at (ln_mem st) D size io sy imports ->
  (forall a, D <= a < D + size -> ln_linked st a) -> segment_at (ln_mem st) D size s sg -> segment_fits img sg -> sg_pages sg !! i = Some l ->
  (l <> [] -> page_at img (ln_mem st) (ln_linked st) D size (Z.of_nat (length imports)) sg i l) ->
  fixup_page img D (D + size) (D + io) (D + sy) s (img_header img +64 sg_offset sg) prot (Z.of_nat i) st = apply_page sg prot i l st.
Proof.
  intros HD Hw Himp Hl Hsg (Hh & Hoff & Hcnt & Hend) Hi Hp. unfold fixup_page, apply_page. pose proof Hsg as (S1 & S2 & S3 & S4 & S5 & S6 & S7 & S8 & S9 & S10 & S11).
  rewrite (S11 i l Hi), S5. destruct l as [|[off f] l]; [done|]. destruct (Hp ltac:(done)) as (Hok & Hfirst & Hc & Hlp & Hdis). cbn [first_offset] in *.
  pose proof Hok as (Ho & Hos & _). destruct (Z.eqb_spec off DYLD_CHAINED_PTR_START_NONE) as [->|_]; [done|].
  assert (E8 : Z.land off 0x8000 = 0).
  { apply Z.bits_inj'. intros k Hk. rewrite Z.land_spec, Z.bits_0. destruct (decide (k = 15)) as [->|Hne].
    - rewrite Z.bits_above_log2; [done|done|]. destruct (Z.eq_dec off 0) as [->|]; [done|]. apply Z.log2_lt_pow2; lia.
    - change 0x8000 with (2 ^ 15). rewrite Z.pow2_bits_false by done. apply andb_false_r. }
  rewrite E8. cbn [Z.eqb negb]. apply lookup_lt_Some in Hi.
  assert (Hpi : 0 <= Z.of_nat i * sg_page_size sg /\ Z.of_nat i * sg_page_size sg + sg_page_size sg <= Z.of_nat (length (sg_pages sg)) * sg_page_size sg) by nia.
  unfold page_address in *. set (P := img_header img + sg_offset sg + Z.of_nat i * sg_page_size sg) in *.
  assert (EP : (img_header img +64 sg_offset sg) +64 signed 32 (wrap 32 (Z.of_nat i * sg_page_size sg)) = P).
  { rewrite (wrap_small 32) by lia. unfold signed. destruct (Z.ltb_spec (Z.of_nat i * sg_page_size sg) (2 ^ (32 - 1))); [|lia].
    rewrite wrap_add_l. apply wrap_small. lia. }
  rewrite EP. rewrite (wrap_small 64 (P + sg_page_size sg)), (wrap_small 64 (P + off)) by lia.
  pose proof (pageRoundDown_le P ltac:(lia)). pose proof (pageRoundUp_ge (P + sg_page_size sg) ltac:(lia) ltac:(lia)).
  destruct (Z.ltb_spec (pageRoundDown P) (pageRoundUp (P + sg_page_size sg))); [|lia].
  pose proof (keeps_protect (fun _ => False) (pageRoundDown P) (pageRoundUp (P + sg_page_size sg) - pageRoundDown P) (Z.lor prot PROT_WRITE) st Hw) as Hk.
  destruct (ln_mprotect _ _ _ st) as [r st1]. cbn [snd] in Hk.
  assert (Hsd : same_data (ln_mem st) (ln_mem st1) D size) by (apply (keeps_data (fun _ => False)); [done|]; intros a Ha; split; [by apply Hl|tauto]).
  assert (Hsp : forall a, in_page P (sg_page_size sg) a -> ln_linked st1 a /\ mget (ln_mem st1) a = mget (ln_mem st) a).
  { intros a Ha. destruct Hk as (_ & _ & Hk). by destruct (Hk a (Hlp a Ha)) as [? [[]|]]. }
  rewrite (walk_page_ok img D size io sy imports s (sg_format sg) P (sg_page_size sg) (sg_page_size sg / 4 + 1) off f l); try done; try lia.
  - unfold sizeof_starts_in_segment in *. lia.
  - split; [by apply Hk|]. split; [by apply (imports_at_same (ln_mem st))|]. split; [intros b Hb; by apply Hk, Hl|].
    split; [by apply (segment_at_same _ _ _ _ Hsd Hsg)|intros b Hb; by apply Hsp].
  - apply (chain_at_same P (sg_page_size sg) (Z.of_nat (length imports)) _ (ln_mem st)); [done| |done]. intros a Ha. by apply Hsp.
  - pose proof (chain_length _ _ _ Hok off f eq_refl) as Hlen. assert (sg_page_size sg < 2 ^ 16) by (rewrite <- S5; by apply (mread_range (ln_mem st) (s + 4) 2), ln_ok_wf).
    pose proof (Z.div_mod (sg_page_size sg) 4 ltac:(lia)). pose proof (Z.mod_pos_bound (sg_page_size sg) 4 ltac:(lia)). lia.
Qed.
End Pages.

(** ** Segments *)

(** The bytes of page [j] of a segment, if it has fixups. *)
Definition seg_page (img : LoadedImage) (sg : segment_fixups) (j : nat) (a : Z) : Prop :=
  exists l, sg_pages sg !! j = Some l /\ l <> [] /\ in_page (page_address img sg j) (sg_page_size sg) a.

(** The pages of a segment hold their fixups and do not overlap. *)
Definition pages_at (img : LoadedImage) (m : mem) (linked : Z -> Prop) (D size nimports : Z) (sg : segment_fixups) : Prop :=
  segment_fits img sg /\
  (forall j l, sg_pages sg !! j = Some l -> l <> [] -> page_at img m linked D size nimports sg j l) /\
  (forall j j' a, seg_page img sg j a -> seg_page img sg j' a -> j = j').

Section Segments.
Context {St : Type} `{LinkerLaws St}.
Variables (img : LoadedImage) (D size io sy : Z) (imports : list import).
Notation nimports := (Z.of_nat (length imports)).

(** The data is in memory and loaded. *)
Definition data_ready (st : St) : Prop :=
  ln_ok st /\ imports_at (ln_mem st) D size io sy imports /\ (forall a, D <= a < D + size -> ln_linked st a).

Lemma data_ready_keeps (T : Z -> Prop) st st' : keeps T st st' -> (forall a, D <= a < D + size -> ~ T a) -> data_ready st -> data_ready st'.
Proof.
  intros Hk HT (Hw & Hi & Hl). assert (Hs : same_data (ln_mem st) (ln_mem st') D size) by (apply (keeps_data D size T); eauto).
  split; [by apply Hk|]. split; [by apply (imports_at_same (ln_mem st))|]. intros a Ha. by apply Hk, Hl.
Qed.

Lemma page_at_keeps (T : Z -> Prop) st st' sg j l : keeps T st st' -> (forall a, in_page (page_address img sg j) (sg_page_size sg) a -> ~ T a) ->
  page_at img (ln_mem st) (ln_linked st) D size nimports sg j l -> page_at img (ln_mem st') (ln_linked st') D size nimports sg j l.
Proof.
  intros (_ & _ & Hk) HT (H1 & H2 & H3 & H4 & H5). split; [done|]. split; [done|]. split; [|split; [|done]].
  - apply (chain_at_same _ (sg_page_size sg) nimports _ (ln_mem st)); [done| |done]. intros a Ha.
    destruct (Hk a (H4 a Ha)) as [_ [Hc|]]; [by destruct (HT a Ha)|done].
  - intros a Ha. by apply Hk, H4.
Qed.

Lemma page_not_data m linked sg j l a : page_at img m linked D size nimports sg j l ->
  in_page (page_address img sg j) (sg_page_size sg) a -> ~ (D <= a < D + size).
Proof. intros (_ & _ & _ & _ & Hd) Ha. unfold in_page in Ha. lia. Qed.

(** The loop over the pages of a segment. *)
Lemma fixup_pages_ok s sg prot st : 0 < D -> data_ready st -> segment_at (ln_mem st) D size s sg ->
  pages_at img (ln_mem st) (ln_linked st) D size nimports sg ->
  let st' := apply_pages img D sy imports sg prot 0 (sg_pages sg) st in
  counted (fun st => ss_page_count (ln_mem st) s) (fixup_page img D (D + size) (D + io) (D + sy) s (img_header img +64 sg_offset sg) prot) st = st' /\
  keeps (fun a => exists j, seg_page img sg j a) st st'.
Proof.
  intros HD Hready Hsg (Hfit & Hpg & Hdisj) st'. set (N := length (sg_pages sg)).
  assert (HN : 0 <= Z.of_nat N < 2 ^ 32).
  { pose proof (mread_range (ln_mem st) (s + 20) 2 (ln_ok_wf _ (proj1 Hready))) as Hr. destruct Hsg as (_ & _ & _ & _ & _ & _ & _ & _ & _ & S10 & _).
    unfold ss_page_count in S10. rewrite S10 in Hr. change (256 ^ Z.of_nat 2) with 65536 in Hr. unfold N. lia. }
  set (T := fun (p : nat) a => exists j, (j < p)%nat /\ seg_page img sg j a).
  set (I := fun (p : Z) (s' : St) => s' = apply_pages img D sy imports sg prot 0 (take (Z.to_nat p) (sg_pages sg)) st /\ keeps (T (Z.to_nat p)) st s').
  enough (HI : I (Z.of_nat N) (counted (fun st => ss_page_count (ln_mem st) s)
    (fixup_page img D (D + size) (D + io) (D + sy) s (img_header img +64 sg_offset sg) prot) st)).
  { destruct HI as [E Hk]. unfold N in E. rewrite Nat2Z.id, firstn_all in E. rewrite E in Hk |- *. split; [done|].
    eapply keeps_weaken; [|exact Hk]. intros a (j & _ & Hj). by exists j. }
  assert (HT : forall p a, D <= a < D + size -> ~ T p a).
  { intros p a Ha (j & _ & l & Hl & Hn0 & Hin). by apply (page_not_data _ _ _ _ _ a (Hpg j l Hl Hn0)). }
  assert (Hsame : forall p s', keeps (T p) st s' -> segment_at (ln_mem s') D size s sg).
  { intros p s' Hk. apply (segment_at_same D size (ln_mem st)); [|done]. eapply keeps_data; [exact Hk|]. intros a Ha. split; [by apply Hready|by apply HT]. }
  apply counted_ind; [done|split; [done|apply keeps_refl]| |].
  - intros p s' _ [_ Hk]. by destruct (Hsame _ _ Hk) as (_ & _ & _ & _ & _ & _ & _ & _ & _ & -> & _).
  - intros p s' Hp [E Hk]. destruct (lookup_lt_is_Some_2 (sg_pages sg) (Z.to_nat p)) as [l Hl]; [lia|].
    pose proof (data_ready_keeps _ _ _ Hk (HT _) Hready) as (Hw' & Hi' & Hl').
    assert (Hpage : l <> [] -> page_at img (ln_mem s') (ln_linked s') D size nimports sg (Z.to_nat p) l).
    { intros Hn0. eapply page_at_keeps; [exact Hk| |by apply Hpg]. intros a Ha (j & Hj & Hpj).
      assert (j = Z.to_nat p) by (apply (Hdisj j (Z.to_nat p) a Hpj); by exists l). lia. }
    pose proof (fixup_page_ok img D size io sy imports s sg prot (Z.to_nat p) l s' HD Hw' Hi' Hl' (Hsame _ _ Hk) Hfit Hl Hpage) as Ep.
    rewrite Z2Nat.id in Ep by lia. unfold I. rewrite Ep, Z2Nat.inj_add by lia. change (Z.to_nat 1) with 1%nat. rewrite Nat.add_1_r, (take_S_r _ _ l Hl). split.
    + rewrite apply_pages_snoc, <- E. rewrite length_take. by replace (0 + Nat.min (Z.to_nat p) (length (sg_pages sg)))%nat with (Z.to_nat p) by lia.
    + eapply keeps_then; [eapply keeps_weaken; [|exact Hk]; intros a (j & Hj & Ha); exists j; split; [lia|done]|].
      destruct l as [|x l]; [apply keeps_refl|]. eapply keeps_weaken; [|by apply apply_page_keeps with (n := nimports); [apply Hpage|]].
      intros a Ha. exists (Z.to_nat p). split; [lia|]. by exists (x :: l).
Qed.

Lemma fixup_segment_ok starts k sg st : 0 < D -> data_ready st ->
  si_seg_info_offset (ln_mem st) starts k <> 0 -> segment_at (ln_mem st) D size (starts + si_seg_info_offset (ln_mem st) starts k) sg ->
  pages_at img (ln_mem st) (ln_linked st) D size nimports sg ->
  fixup_segment img D (D + size) (D + io) (D + sy) starts k st = apply_segment img D sy imports (Some sg) st /\
  keeps (fun a => exists j, seg_page img sg j a) st (apply_segment img D sy imports (Some sg) st).
Proof.
  intros HD Hready Hne Hsg Hpg. unfold fixup_segment. destruct (Z.eqb_spec (si_seg_info_offset (ln_mem st) starts k) 0); [done|].
  set (s := starts + si_seg_info_offset (ln_mem st) starts k) in *. pose proof Hsg as (S1 & S2 & S3 & S4 & S5 & S6 & S7 & S8 & S9 & S10 & S11).
  unfold sizeof_starts_in_segment, offsetof_page_start, rangeWithin in *.
  destruct (Z.leb_spec D s); [|lia]. destruct (Z.leb_spec s (D + size)); [|lia]. destruct (Z.leb_spec 24 (D + size - s)); [|lia].
  destruct (Z.ltb_spec (ss_size (ln_mem st) s) 24); [lia|]. destruct (Z.leb_spec (ss_size (ln_mem st) s) (D + size - s)); [|lia]. cbn [andb negb orb].
  rewrite S10. destruct (Z.ltb_spec (ss_size (ln_mem st) s) (22 + Z.of_nat (length (sg_pages sg)) * 2)); [lia|]. rewrite S5.
  destruct (Z.eqb_spec (sg_page_size sg) 0); [lia|]. cbn [orb]. rewrite S9. by apply fixup_pages_ok.
Qed.
End Segments.

(** ** Images *)
Section Image.
Context {St : Type} `{LinkerLaws St}.
Variables (img : LoadedImage) (D size io sy so : Z) (imports : list import) (segs : list (option segment_fixups)).
Notation nimports := (Z.of_nat (length imports)).

Definition in_segment (i : nat) (a : Z) : Prop := exists sg j, segs !! i = Some (Some sg) /\ seg_page img sg j a.

(** The bytes at [D] are fixup data of these segments and imports. *)
Definition fixups_at (m : mem) (linked : Z -> Prop) : Prop :=
  imports_at m D size io sy imports /\ (forall a, D <= a < D + size -> linked a) /\
  fh_starts_offset m D = so /\ fh_imports_offset m D = io /\ fh_symbols_offset m D = sy /\ 0 <= so /\
  Z.of_nat (length segs) <= 32 /\ so + 4 + 4 * Z.of_nat (length segs) <= size /\ si_seg_count m (D + so) = Z.of_nat (length segs) /\
  (forall i o, segs !! i = Some o ->
     match o with
     | None => si_seg_info_offset m (D + so) (Z.of_nat i) = 0
     | Some sg => si_seg_info_offset m (D + so) (Z.of_nat i) <> 0 /\
         segment_at m D size (D + so + si_seg_info_offset m (D + so) (Z.of_nat i)) sg /\ pages_at img m linked D size nimports sg
     end) /\
  (forall i i' a, in_segment i a -> in_segment i' a -> i = i').

Definition apply_segments (l : list (option segment_fixups)) (st : St) : St :=
  fold_left (fun st o => apply_segment img D sy imports o st) l st.

Lemma apply_segments_snoc l o st : apply_segments (l ++ [o]) st = apply_segment img D sy imports o (apply_segments l st).
Proof. unfold apply_segments. by rewrite fold_left_app. Qed.

Lemma pages_at_keeps (T : Z -> Prop) st st' sg : keeps T st st' -> (forall j a, seg_page img sg j a -> ~ T a) ->
  pages_at img (ln_mem st) (ln_linked st) D size nimports sg -> pages_at img (ln_mem st') (ln_linked st') D size nimports sg.
Proof.
  intros Hk HT (Hf & Hp & Hd). split; [done|]. split; [|done]. intros j l Hl Hn. eapply page_at_keeps; [exact Hk| |by apply Hp].
  intros a Ha. apply (HT j). by exists l.
Qed.

Lemma segments_ok st : 0 < D -> ln_ok st -> fixups_at (ln_mem st) (ln_linked st) ->
  counted (fun st => si_seg_count (ln_mem st) (D + so)) (fixup_segment img D (D + size) (D + io) (D + sy) (D + so)) st = apply_segments segs st /\
  keeps (fun a => exists i, in_segment i a) st (apply_segments segs st).
Proof.
  intros HD Hw (Himp & Hl & _ & _ & _ & Hso & Hlen & Hend & Hcnt & Hsegs & Hdisj). set (N := length segs) in *.
  set (T := fun (p : nat) a => exists i, (i < p)%nat /\ in_segment i a).
  set (I := fun (p : Z) (s : St) => s = apply_segments (take (Z.to_nat p) segs) st /\ keeps (T (Z.to_nat p)) st s).
  enough (HI : I (Z.of_nat N) (counted (fun st => si_seg_count (ln_mem st) (D + so)) (fixup_segment img D (D + size) (D + io) (D + sy) (D + so)) st)).
  { destruct HI as [E Hk]. unfold N in E. rewrite Nat2Z.id, firstn_all in E. rewrite E in Hk |- *. split; [done|].
    eapply keeps_weaken; [|exact Hk]. intros a (i & _ & Hi). by exists i. }
  assert (HT : forall p a, D <= a < D + size -> ~ T p a).
  { intros p a Ha (i & _ & sg & j & Hi & l & Hlk & Hn & Hin). specialize (Hsegs i _ Hi). destruct Hsegs as (_ & _ & _ & Hp & _).
    by apply (page_not_data img D size imports _ _ _ _ _ a (Hp j l Hlk Hn)). }
  assert (Hsame : forall p s, keeps (T p) st s -> same_data (ln_mem st) (ln_mem s) D size)
    by (intros p s Hk; eapply keeps_data; [exact Hk|]; intros a Ha; split; [by apply Hl|by apply HT]).
  apply counted_ind; [lia|split; [done|apply keeps_refl]| |].
  - intros p s _ [_ Hk]. rewrite <- Hcnt. by apply (same_data_read _ _ D size); [apply (Hsame (Z.to_nat p))|lia|lia].
  - intros p s Hp [E Hk]. destruct (lookup_lt_is_Some_2 segs (Z.to_nat p)) as [o Ho]; [lia|].
    pose proof (data_ready_keeps D size io sy imports _ _ _ Hk (HT _) (conj Hw (conj Himp Hl))) as Hready.
    assert (Eoff : si_seg_info_offset (ln_mem s) (D + so) p = si_seg_info_offset (ln_mem st) (D + so) p)
      by (by apply (same_data_read _ _ D size); [apply (Hsame (Z.to_nat p))|lia|lia]).
    specialize (Hsegs _ _ Ho) as Hs. rewrite Z2Nat.id in Hs by lia.
    unfold I. rewrite Z2Nat.inj_add by lia. change (Z.to_nat 1) with 1%nat. rewrite Nat.add_1_r, (take_S_r _ _ o Ho), apply_segments_snoc, <- E.
    assert (Hmono : keeps (T (S (Z.to_nat p))) st s) by (eapply keeps_weaken; [|exact Hk]; intros a (i & Hi & Ha); exists i; split; [lia|done]).
    destruct o as [sg|].
    + destruct Hs as (Hne & Hsg & Hpg).
      destruct (fixup_segment_ok img D size io sy imports (D + so) p sg s HD Hready) as [-> Hks]; rewrite ?Eoff; [done| | |].
      * by apply (segment_at_same D size (ln_mem st)); [apply (Hsame (Z.to_nat p))|].
      * eapply pages_at_keeps; [exact Hk| |exact Hpg]. intros j a Ha (i & Hi & Hin).
        assert (i = Z.to_nat p) by (apply (Hdisj _ _ a Hin); by exists sg, j). lia.
      * split; [done|]. eapply keeps_then; [exact Hmono|]. eapply keeps_weaken; [|exact Hks]. intros a (j & Ha). exists (Z.to_nat p). split; [lia|]. by exists sg, j.
    + unfold fixup_segment. rewrite Eoff, Hs. cbn [Z.eqb apply_segment]. by split.
Qed.

(** The image has one command for chained fixups, and its data is at [D]. *)
Definition chained_image (m : mem) (c : cache_state) (n : Z) : Prop := exists textSeg linkSeg cmd before after,
  findSegment m (img_header img) SEG_TEXT = Some textSeg /\ findSegment m (img_header img) SEG_LINKEDIT = Some linkSeg /\
  commands_in m (img_header img) n /\ commands m (img_header img) = before ++ cmd :: after /\ lc_cmd m cmd = LC_DYLD_CHAINED_FIXUPS /\
  (forall cmd', cmd' ∈ before ++ after -> lc_cmd m cmd' <> LC_DYLD_CHAINED_FIXUPS) /\
  linkeditBaseForImage m c img textSeg linkSeg <> 0 /\ D = linkeditBaseForImage m c img textSeg linkSeg +64 ldc_dataoff m cmd /\
  size = ldc_datasize m cmd /\ seg_fileoff m linkSeg <= ldc_dataoff m cmd /\
  ldc_dataoff m cmd + size <= seg_fileoff m linkSeg +64 seg_filesize m linkSeg.

Lemma skip_commands textSeg l st n : (forall c, c ∈ l -> lc_cmd (ln_mem st) c <> LC_DYLD_CHAINED_FIXUPS) -> forall m,
  same_header m (ln_mem st) (img_header img) n ->
  fold_until (chained_command img textSeg) id l st = st /\
  all_states (chained_command img textSeg) (fun s => same_header m (ln_mem s) (img_header img) n) l st.
Proof.
  intros Hl m Hs. induction l as [|c l IH]; [done|]. cbn [fold_until all_states]. unfold chained_command at 1 3.
  destruct (Z.eqb_spec (lc_cmd (ln_mem st) c) LC_DYLD_CHAINED_FIXUPS) as [E|_]; [by destruct (Hl c ltac:(by left))|].
  destruct IH as [-> Ha]; [intros c' Hc'; apply Hl; by right|]. done.
Qed.

Lemma chained_command_ok textSeg linkSeg cmd st : 0 < D -> ln_ok st -> fixups_at (ln_mem st) (ln_linked st) ->
  findSegment (ln_mem st) (img_header img) SEG_LINKEDIT = Some linkSeg -> lc_cmd (ln_mem st) cmd = LC_DYLD_CHAINED_FIXUPS ->
  linkeditBaseForImage (ln_mem st) (ln_cache st) img textSeg linkSeg <> 0 ->
  D = linkeditBaseForImage (ln_mem st) (ln_cache st) img textSeg linkSeg +64 ldc_dataoff (ln_mem st) cmd -> size = ldc_datasize (ln_mem st) cmd ->
  seg_fileoff (ln_mem st) linkSeg <= ldc_dataoff (ln_mem st) cmd ->
  ldc_dataoff (ln_mem st) cmd + size <= seg_fileoff (ln_mem st) linkSeg +64 seg_filesize (ln_mem st) linkSeg ->
  chained_command img textSeg cmd st = inl (apply_segments segs st).
Proof.
  intros HD Hw Hfx Hls Hc Hlb ED Esz Hoff Hend. unfold chained_command. rewrite Hc. cbn [Z.eqb Pos.eqb LC_DYLD_CHAINED_FIXUPS]. rewrite Hls.
  pose proof Hfx as ((Hsz & Hcnt & Hio & Hiend & Hsy & _) & _ & Eso & Eio & Esy & Hso & Hlen & Hsend & Hsc & _).
  destruct (Z.eqb_spec (linkeditBaseForImage (ln_mem st) (ln_cache st) img textSeg linkSeg) 0); [done|]. rewrite <- ED, <- Esz, Eso, Eio, Esy, Hcnt.
  unfold sizeof_fixups_header, sizeof_chained_import, rangeWithin.
  destruct (Z.ltb_spec (ldc_dataoff (ln_mem st) cmd) (seg_fileoff (ln_mem st) linkSeg)); [lia|].
  destruct (Z.ltb_spec (seg_fileoff (ln_mem st) linkSeg +64 seg_filesize (ln_mem st) linkSeg) (ldc_dataoff (ln_mem st) cmd + size)); [lia|].
  destruct (Z.ltb_spec size 28); [lia|]. destruct (Z.leb_spec size so); [lia|]. destruct (Z.ltb_spec size io); [lia|].
  destruct (Z.leb_spec size sy); [lia|]. destruct (Z.ltb_spec size (io + nimports * 4)); [lia|].
  destruct (Z.leb_spec D (D + so)); [|lia]. destruct (Z.leb_spec (D + so) (D + size)); [|lia]. destruct (Z.leb_spec 4 (D + size - (D + so))); [|lia].
  rewrite Hsc. destruct (Z.ltb_spec 32 (Z.of_nat (length segs))); [lia|].
  destruct (Z.leb_spec (4 + Z.of_nat (length segs) * 4) (D + size - (D + so))); [|lia]. cbn [orb andb negb].
  f_equal. by apply segments_ok.
Qed.

Lemma applyChainedFixups_ok st n : 0 < D -> ln_ok st -> chained_image (ln_mem st) (ln_cache st) n ->
  fixups_at (ln_mem st) (ln_linked st) ->
  (forall a, img_header img <= a < img_header img + n -> ln_linked st a /\ forall i, ~ in_segment i a) ->
  applyChainedFixups img st = apply_segments segs st.
Proof.
  intros HD Hw (textSeg & linkSeg & cmd & l1 & l2 & Ht & Hls & Hcin & Hcmds & Hc & Hother & Hlb & ED & Esz & Hoff & Hend) Hfx Hhdr.
  pose proof (chained_command_ok textSeg linkSeg cmd st HD Hw Hfx Hls Hc Hlb ED Esz Hoff Hend) as Ecmd.
  destruct (segments_ok st HD Hw Hfx) as [_ Hk]. set (st' := apply_segments segs st) in *.
  assert (Hs' : same_header (ln_mem st) (ln_mem st') (img_header img) n).
  { intros a Ha. destruct (Hhdr a Ha) as [Hla Hna]. destruct Hk as (_ & _ & Hk). destruct (Hk a Hla) as [_ [(i & Hi)|E]]; [by destruct (Hna i)|done]. }
  assert (Hl1 : forall c, c ∈ l1 -> lc_cmd (ln_mem st) c <> LC_DYLD_CHAINED_FIXUPS) by (intros c Hc'; apply Hother, elem_of_app; by left).
  assert (Hl2 : forall c, c ∈ l2 -> lc_cmd (ln_mem st') c <> LC_DYLD_CHAINED_FIXUPS).
  { intros c Hc'. destruct (proj2 Hcin c) as [C1 C2]; [rewrite Hcmds, elem_of_app, elem_of_cons; tauto|].
    unfold lc_cmd. rewrite (same_header_read (ln_mem st) _ (img_header img) n) by (done || lia). apply Hother, elem_of_app; by right. }
  destruct (skip_commands textSeg l2 st' n Hl2 (ln_mem st) Hs') as [E2 A2].
  unfold applyChainedFixups. rewrite Ht, (each_command_fold _ _ _ _ _ n); [|by apply ln_ok_wf|done|]; rewrite Hcmds.
  - clear -Hl1 Ecmd E2. induction l1 as [|c l1 IH]; cbn [app fold_until]; [by rewrite Ecmd|]. unfold chained_command at 1.
    destruct (Z.eqb_spec (lc_cmd (ln_mem st) c) LC_DYLD_CHAINED_FIXUPS) as [E|_]; [by destruct (Hl1 c ltac:(by left))|]. apply IH.
    intros c' Hc'. apply Hl1. by right.
  - clear -Hl1 Ecmd A2. induction l1 as [|c l1 IH]; cbn [app all_states]; [rewrite Ecmd; by split|]. split; [done|]. unfold chained_command at 1.
    destruct (Z.eqb_spec (lc_cmd (ln_mem st) c) LC_DYLD_CHAINED_FIXUPS) as [E|_]; [by destruct (Hl1 c ltac:(by left))|]. apply IH.
    intros c' Hc'. apply Hl1. by right.
Qed.
End Image.

(** ** The effect on memory *)
Definition chain_locs (format P : Z) (l : list (Z * fixup)) : list (Z * Z * fixup) := map (fun '(off, f) => (P + off, format, f)) l.

Fixpoint pages_locs (img : LoadedImage) (sg : segment_fixups) (i : nat) (pages : list (list (Z * fixup))) : list (Z * Z * fixup) :=
  match pages with
  | [] => []
  | l :: pages => chain_locs (sg_format sg) (page_address img sg i) l ++ pages_locs img sg (S i) pages
  end.

(** The addresses, formats and contents of all fixups of an image. *)
Definition image_locs (img : LoadedImage) (segs : list (option segment_fixups)) : list (Z * Z * fixup) :=
  concat (map (fun o => match o with None => [] | Some sg => pages_locs img sg 0 (sg_pages sg) end) segs).

Definition in_locs (L : list (Z * Z * fixup)) (a : Z) : Prop := exists loc format f, (loc, format, f) ∈ L /\ loc <= a < loc + 8.

Section Effect.
Context {St : Type} `{LinkerLaws St}.
Variables (img : LoadedImage) (D sy : Z) (imports : list import).
Notation nimports := (Z.of_nat (length imports)).

(** The pointer a fixup stands for when symbols are resolved in state [st]. *)
Definition fixed (st : St) (format : Z) (f : fixup) : Z :=
  match f with
  | Rebase t h => rebased img format t h
  | Bind i a =>
      match imports !! Z.to_nat i with
      | None => 0
      | Some imp =>
          let addr := (ln_resolve (D + sy + im_name imp) (chainedImportOrdinal (im_ordinal imp)) false img st).1 in
          if addr =? 0 then 0 else addr +64 a
      end
  end.

(** Every fixup has been applied and nothing else in the images has changed. *)
Definition applied (L : list (Z * Z * fixup)) (st st' : St) : Prop :=
  keeps (in_locs L) st st' /\
  forall loc format f, (loc, format, f) ∈ L -> exists st1, keeps (in_locs L) st st1 /\ mread (ln_mem st') loc 8 = fixed st1 format f.

Lemma in_locs_app L1 L2 a : in_locs (L1 ++ L2) a <-> in_locs L1 a \/ in_locs L2 a.
Proof.
  unfold in_locs. split.
  - intros (loc & fmt & f & Hin & Ha). apply elem_of_app in Hin as [?|?]; [left|right]; by exists loc, fmt, f.
  - intros [(loc & fmt & f & Hin & Ha)|(loc & fmt & f & Hin & Ha)]; exists loc, fmt, f; rewrite elem_of_app; tauto.
Qed.

Lemma applied_keeps L st st1 st' : keeps (fun _ => False) st st1 -> applied L st1 st' -> applied L st st'.
Proof.
  intros Hk [H1 H2]. assert (Hk' : keeps (in_locs L) st st1) by (by eapply keeps_weaken; [|exact Hk]).
  split; [by eapply keeps_then|]. intros loc fmt f Hin. destruct (H2 loc fmt f Hin) as (s & Hs & E). exists s. split; [by eapply keeps_then|done].
Qed.

Lemma applied_app L1 L2 st st1 st' : applied L1 st st1 -> applied L2 st1 st' -> (forall a, in_locs L1 a -> ln_linked st a /\ ~ in_locs L2 a) ->
  applied (L1 ++ L2) st st'.
Proof.
  intros [K1 A1] [K2 A2] Hd. assert (K1' : keeps (in_locs (L1 ++ L2)) st st1) by (eapply keeps_weaken; [|exact K1]; intros; apply in_locs_app; by left).
  assert (K2' : keeps (in_locs (L1 ++ L2)) st1 st') by (eapply keeps_weaken; [|exact K2]; intros; apply in_locs_app; by right).
  split; [by eapply keeps_then|]. intros loc fmt f Hin. apply elem_of_app in Hin as [Hin|Hin].
  - destruct (A1 loc fmt f Hin) as (s & Hs & E). exists s. split; [eapply keeps_weaken; [|exact Hs]; intros; apply in_locs_app; by left|].
    rewrite <- E. apply mread_shift. intros i Hi. destruct (Hd (loc + Z.of_nat i)) as [Hl Hn]; [exists loc, fmt, f; split; [done|lia]|].
    destruct K1 as (_ & _ & K1). destruct (K1 _ Hl) as [Hl1 _]. destruct K2 as (_ & _ & K2). by destruct (K2 _ Hl1) as [_ [?|]].
  - destruct (A2 loc fmt f Hin) as (s & Hs & E). exists s. split; [|done]. eapply keeps_then; [exact K1'|].
    eapply keeps_weaken; [|exact Hs]. intros; apply in_locs_app; by right.
Qed.

Lemma mread_mwrite_word m a v : 0 <= v < 2 ^ 64 -> mread (mwrite m a 8 v) a 8 = v.
Proof. intros Hv. rewrite mread_mwrite. by apply Z.mod_small. Qed.

Lemma rebased_range format t h : 0 <= h < 2 ^ 8 -> 0 <= rebased img format t h < 2 ^ 64.
Proof.
  intros Hh. unfold rebased. match goal with |- 0 <= Z.lor ?e _ < _ => set (x := e) end. assert (Hx : 0 <= x < 2 ^ 64) by (unfold x; case_match; apply wrap_64_range).
  assert (Hy : 0 <= Z.shiftl h 56 < 2 ^ 64) by (rewrite Z.shiftl_mul_pow2 by lia; lia). split; [apply Z.lor_nonneg; lia|].
  destruct (Z.eq_dec (Z.lor x (Z.shiftl h 56)) 0) as [->|Hne]; [done|]. apply Z.log2_lt_pow2; [pose proof (Z.lor_nonneg x (Z.shiftl h 56)); lia|].
  rewrite Z.log2_lor by lia. apply Z.max_lub_lt; [destruct (Z.eq_dec x 0) as [->|]|destruct (Z.eq_dec (Z.shiftl h 56) 0) as [->|]]; try done; apply Z.log2_lt_pow2; lia.
Qed.

Lemma apply_fixup_applied format loc f st : ln_ok st -> fixup_ok f -> match f with Bind i _ => i < nimports | _ => True end ->
  applied [(loc, format, f)] st (apply_fixup img D sy imports format loc f st).
Proof.
  intros Hw Hf Hi. assert (Hkw : forall s s' : St, keeps (fun a => loc <= a < loc + 8) s s' -> keeps (in_locs [(loc, format, f)]) s s').
  { intros s s' Hk. eapply keeps_weaken; [|exact Hk]. intros a Ha. exists loc, format, f. split; [by left|done]. }
  split; [apply Hkw; by apply apply_fixup_keeps|]. intros loc' fmt' f' Hin. apply list_elem_of_singleton in Hin as [= -> -> ->].
  exists st. split; [apply keeps_refl|]. destruct f as [t h|i a]; cbn [apply_fixup fixed].
  - unfold store. rewrite ln_mem_set. apply mread_mwrite_word. destruct Hf as [_ Hh]. by apply rebased_range.
  - destruct Hf as [Hi0 _]. destruct (lookup_lt_is_Some_2 imports (Z.to_nat i)) as [imp Hlk]; [lia|]. rewrite Hlk.
    destruct (ln_resolve _ _ _ _ st) as [addr st']. cbn [fst]. unfold store.
    destruct (Z.eqb_spec addr 0); rewrite ln_mem_set; apply mread_mwrite_word; [done|apply wrap_64_range].
Qed.

Lemma chain_locs_page format P psize n l a : chain_ok psize n l -> in_locs (chain_locs format P l) a -> in_page P psize a.
Proof.
  intros Hok (loc & fmt & f & Hin & Ha). induction l as [|[off g] l IH]; [by apply elem_of_nil in Hin|].
  destruct Hok as (Ho & Hs & _ & _ & _ & Hok'). cbn [chain_locs map] in Hin. apply elem_of_cons in Hin as [[= -> -> ->]|Hin]; [unfold in_page; lia|].
  by apply IH.
Qed.

Lemma apply_chain_applied format P psize l : chain_ok psize nimports l -> forall st, ln_ok st ->
  (forall a, in_page P psize a -> ln_linked st a) -> applied (chain_locs format P l) st (apply_chain img D sy imports format P l st).
Proof.
  induction l as [|[off f] l IH]; intros Hok st Hw Hl; [split; [apply keeps_refl|]; intros loc fmt f Hin; by apply elem_of_nil in Hin|].
  pose proof Hok as (Ho & Hs & Hf & Hi & _ & Hok'). pose proof (apply_fixup_applied format (P + off) f st Hw Hf Hi) as Ha.
  pose proof (apply_fixup_keeps img D sy imports format (P + off) f st Hw) as Hk. cbn [apply_chain fold_left chain_locs map].
  apply (applied_app [(P + off, format, f)] _ _ _ _ Ha).
  - apply IH; [done|by apply Hk|]. intros a Ha'. by apply Hk, Hl.
  - intros a (loc & fmt & g & Hin & Hb). apply list_elem_of_singleton in Hin as [= -> -> ->]. split; [apply Hl; unfold in_page; lia|].
    intros (loc & fmt & g & Hin & Hc). apply list_elem_of_fmap in Hin as ([o g'] & [= -> -> ->] & Hin).
    pose proof (chain_ok_sorted _ _ _ _ _ Hok o g' Hin). lia.
Qed.

Lemma apply_page_applied sg prot i l st : ln_ok st ->
  (l <> [] -> chain_ok (sg_page_size sg) nimports l /\ forall a, in_page (page_address img sg i) (sg_page_size sg) a -> ln_linked st a) ->
  applied (chain_locs (sg_format sg) (page_address img sg i) l) st (apply_page img D sy imports sg prot i l st).
Proof.
  intros Hw Hl. destruct l as [|x l]; [split; [apply keeps_refl|]; intros loc fmt f Hin; by apply elem_of_nil in Hin|].
  destruct (Hl ltac:(done)) as [Hok Hlk]. unfold apply_page. set (P := page_address img sg i) in *.
  pose proof (keeps_protect (fun _ => False) (pageRoundDown P) (pageRoundUp (P + sg_page_size sg) - pageRoundDown P) (Z.lor prot PROT_WRITE) st Hw) as H1.
  destruct (ln_mprotect _ _ _ st) as [r st1]. cbn [snd] in H1. assert (W1 : ln_ok st1) by (by apply H1).
  assert (Ha : applied (chain_locs (sg_format sg) P (x :: l)) st (apply_chain img D sy imports (sg_format sg) P (x :: l) st1)).
  { eapply applied_keeps; [exact H1|]. apply (apply_chain_applied _ _ (sg_page_size sg)); [done|done|]. intros a Hin. by apply H1, Hlk. }
  case_match; [|exact Ha]. rewrite <- (app_nil_r (chain_locs _ _ _)). eapply applied_app; [exact Ha| |].
  - split; [apply keeps_protect; by apply Ha|]. intros loc fmt f Hin. by apply elem_of_nil in Hin.
  - intros a Hin. split; [by apply Hlk, (chain_locs_page (sg_format sg) P (sg_page_size sg) nimports (x :: l))|].
    intros (loc & fmt & f & Hn & _). by apply elem_of_nil in Hn.
Qed.

Definition page_in (sg : segment_fixups) (i : nat) (pages : list (list (Z * fixup))) (k : nat) (a : Z) : Prop :=
  exists l, pages !! k = Some l /\ l <> [] /\ in_page (page_address img sg (i + k)) (sg_page_size sg) a.

Lemma pages_locs_in sg i pages a : (forall k l, pages !! k = Some l -> l <> [] -> chain_ok (sg_page_size sg) nimports l) ->
  in_locs (pages_locs img sg i pages) a -> exists k, page_in sg i pages k a.
Proof.
  revert i. induction pages as [|l pages IH]; intros i Hok; cbn [pages_locs]; [intros (? & ? & ? & Hn & _); by apply elem_of_nil in Hn|].
  rewrite in_locs_app. intros [Ha|Ha].
  - destruct l as [|x l]; [destruct Ha as (? & ? & ? & Hn & _); by apply elem_of_nil in Hn|]. exists 0%nat, (x :: l). split; [done|]. split; [done|].
    rewrite Nat.add_0_r. apply (chain_locs_page (sg_format sg) _ _ nimports (x :: l)); [by apply (Hok 0%nat)|done].
  - destruct (IH (S i)) as (k & l' & H1 & H2 & H3); [intros k l' Hk; by apply (Hok (S k))|done|]. exists (S k), l'. split; [done|]. split; [done|].
    by replace (i + S k)%nat with (S i + k)%nat by lia.
Qed.

Lemma apply_pages_applied sg prot pages : forall i st, ln_ok st ->
  (forall k l, pages !! k = Some l -> l <> [] -> chain_ok (sg_page_size sg) nimports l) ->
  (forall k a, page_in sg i pages k a -> ln_linked st a) ->
  (forall k k' a, page_in sg i pages k a -> page_in sg i pages k' a -> k = k') ->
  applied (pages_locs img sg i pages) st (apply_pages img D sy imports sg prot i pages st).
Proof.
  induction pages as [|l pages IH]; intros i st Hw Hok Hl Hd; cbn [pages_locs apply_pages];
    [split; [apply keeps_refl|]; intros loc fmt f Hin; by apply elem_of_nil in Hin|].
  assert (Hp0 : forall a, l <> [] -> in_page (page_address img sg i) (sg_page_size sg) a -> page_in sg i (l :: pages) 0 a)
    by (intros a Hn Ha; exists l; rewrite Nat.add_0_r; done).
  assert (HpS : forall k a, page_in sg (S i) pages k a -> page_in sg i (l :: pages) (S k) a)
    by (intros k a (l' & H1 & H2 & H3); exists l'; replace (i + S k)%nat with (S i + k)%nat by lia; done).
  assert (Hok' : forall k l', pages !! k = Some l' -> l' <> [] -> chain_ok (sg_page_size sg) nimports l') by (intros k l' Hk; by apply (Hok (S k))).
  assert (Ha : applied (chain_locs (sg_format sg) (page_address img sg i) l) st (apply_page img D sy imports sg prot i l st)).
  { apply apply_page_applied; [done|]. intros Hn. split; [by apply (Hok 0%nat)|]. intros a Hin. by apply (Hl 0%nat), Hp0. }
  eapply applied_app; [exact Ha| |].
  - apply IH; [by apply Ha|done| |].
    + intros k a Hk. apply Ha, (Hl (S k)), HpS, Hk.
    + intros k k' a Hk Hk'. by injection (Hd (S k) (S k') a (HpS _ _ Hk) (HpS _ _ Hk')).
  - intros a Hin. destruct l as [|x l]; [destruct Hin as (? & ? & ? & Hn & _); by apply elem_of_nil in Hn|].
    apply (chain_locs_page (sg_format sg) _ (sg_page_size sg) nimports (x :: l)) in Hin; [|by apply (Hok 0%nat)]. pose proof (Hp0 a ltac:(done) Hin) as Hpage0. split; [by apply (Hl 0%nat)|].
    intros Hin'. apply pages_locs_in in Hin' as (k & Hk); [|done]. by specialize (Hd 0%nat (S k) a Hpage0 (HpS _ _ Hk)).
Qed.

Lemma apply_segments_applied segs : forall st, ln_ok st ->
  (forall i sg, segs !! i = Some (Some sg) ->
     (forall j l, sg_pages sg !! j = Some l -> l <> [] -> chain_ok (sg_page_size sg) nimports l) /\
     (forall j j' a, seg_page img sg j a -> seg_page img sg j' a -> j = j')) ->
  (forall i a, in_segment img segs i a -> ln_linked st a) ->
  (forall i i' a, in_segment img segs i a -> in_segment img segs i' a -> i = i') ->
  applied (image_locs img segs) st (apply_segments img D sy imports segs st).
Proof.
  induction segs as [|o segs IH]; intros st Hw Hok Hl Hd; [split; [apply keeps_refl|]; intros loc fmt f Hin; by apply elem_of_nil in Hin|].
  assert (HS : forall i a, in_segment img segs i a -> in_segment img (o :: segs) (S i) a) by (intros i a (sg & j & Hi & Ha); by exists sg, j).
  assert (Hrec : forall st, ln_ok st -> (forall i a, in_segment img segs i a -> ln_linked st a) ->
    applied (image_locs img segs) st (apply_segments img D sy imports segs st)).
  { intros s Hws Hls. apply IH; [done|intros i sg Hi; by apply (Hok (S i))|done|]. intros i i' a Hi Hi'. by injection (Hd (S i) (S i') a (HS _ _ Hi) (HS _ _ Hi')). }
  change (image_locs img (o :: segs)) with (match o with None => [] | Some sg => pages_locs img sg 0 (sg_pages sg) end ++ image_locs img segs).
  change (apply_segments img D sy imports (o :: segs) st) with (apply_segments img D sy imports segs (apply_segment img D sy imports o st)).
  destruct o as [sg|]; [|apply Hrec; [done|intros i a Ha; by apply (Hl (S i)), HS]]. destruct (Hok 0%nat sg eq_refl) as [Hok0 Hd0].
  assert (H0s : forall j a, seg_page img sg j a -> in_segment img (Some sg :: segs) 0 a) by (intros j a Ha; by exists sg, j).
  pose proof (apply_pages_applied sg (restore_prot (ln_mem st) img (sg_offset sg)) (sg_pages sg) 0 st Hw Hok0 (fun j a Ha => Hl 0%nat a (H0s j a Ha)) Hd0) as Ha.
  eapply applied_app; [exact Ha|apply Hrec|].
  - by apply Ha.
  - intros i a Hi. apply Ha, (Hl (S i)), HS, Hi.
  - intros a Hin. apply pages_locs_in in Hin as (j & Hj); [|done]. split; [by apply (Hl 0%nat), (H0s j)|]. intros Hin'.
    assert (Hi : exists i, in_segment img segs i a).
    { clear -Hin' Hok. induction segs as [|o segs IHs]; [destruct Hin' as (? & ? & ? & Hn & _); by apply elem_of_nil in Hn|].
      cbn [image_locs map concat] in Hin'. apply in_locs_app in Hin' as [Hin'|Hin'].
      - destruct o as [sg'|]; [|destruct Hin' as (? & ? & ? & Hn & _); by apply elem_of_nil in Hn].
        apply pages_locs_in in Hin' as (k & Hk); [|by apply (Hok 1%nat)]. by exists 0%nat, sg', k.
      - destruct IHs as (i & sg' & k & Hi & Hk); [|done|by exists (S i), sg', k]. intros [|i] sg' Hi; [by apply (Hok 0%nat)|by apply (Hok (S (S i)))]. }
    destruct Hi as [i Hi]. by specialize (Hd 0%nat (S i) a (H0s j a Hj) (HS i a Hi)).
Qed.
End Effect.

(** C29. When the image at [img] has well-formed chained fixup data for the imports
    and segments given, [applyChainedFixups] does what the fixups say, page by page
    with the page writable meanwhile and its protection restored afterwards
    ([apply_segments]). In the end every fixup location holds the relocated
    pointer, or the address its symbol resolved to plus the addend (null if there
    is none), and no other byte of a loaded image has changed. *)
Theorem chained_fixups_applied {St : Type} `{LinkerLaws St} (img : LoadedImage) (D size io sy so n : Z) (imports : list import)
    (segs : list (option segment_fixups)) (st : St) :
  0 < D -> ln_ok st -> chained_image img D size (ln_mem st) (ln_cache st) n ->
  fixups_at img D size io sy so imports segs (ln_mem st) (ln_linked st) ->
  (forall a, img_header img <= a < img_header img + n -> ln_linked st a /\ forall i, ~ in_segment img segs i a) ->
  let st' := applyChainedFixups img st in
  let L := image_locs img segs in
  st' = apply_segments img D sy imports segs st /\
  (forall loc format f, (loc, format, f) ∈ L ->
     exists st1, keeps (in_locs L) st st1 /\ mread (ln_mem st') loc 8 = fixed img D sy imports st1 format f) /\
  (forall a, ln_linked st a -> ~ in_locs L a -> mget (ln_mem st') a = mget (ln_mem st) a).
Proof.
  intros HD Hw Hci Hfx Hhdr st' L. pose proof (applyChainedFixups_ok img D size io sy so imports segs st n HD Hw Hci Hfx Hhdr) as E.
  assert (Ha : applied img D sy imports L st st').
  { unfold st'. rewrite E. destruct Hfx as (_ & _ & _ & _ & _ & _ & _ & _ & _ & Hs & Hd). apply apply_segments_applied; [done| | |done].
    - intros i sg Hi. destruct (Hs i _ Hi) as (_ & _ & _ & Hp & Hdj). split; [|done]. intros j l Hl Hn. by apply (Hp j l Hl Hn).
    - intros i a (sg & j & Hi & l & Hl & Hn & Hin). destruct (Hs i _ Hi) as (_ & _ & _ & Hp & _). by apply (Hp j l Hl Hn). }
  split; [done|]. destruct Ha as [(_ & _ & Hk) Hv]. split; [done|]. intros a Hla Hna. by destruct (Hk a Hla) as [_ [?|]].
Qed.

(** An image with one page: a pointer into the image and one to the import [_a]. *)
Definition one_page_mem : mem :=
  let segment m c name vmaddr :=
    mwrite (mwrite (mwrite (mwrite (mstore (mwrite (mwrite m c 4 25) (c + 4) 4 72) (c + 8) name) (c + 24) 8 vmaddr) (c + 32) 8 0x1000) (c + 40) 8 vmaddr) (c + 48) 8 0x1000 in
  let m := segment (segment (segment (mwrite (mwrite ∅ 0x10010 4 4) 0x10014 4 232) 0x10020 SEG_TEXT 0) 0x10068 [0x5f; 0x5f; 0x44; 0x41; 0x54; 0x41] 0x1000) 0x100b0 SEG_LINKEDIT 0x2000 in
  let m := mwrite (mwrite (mwrite (mwrite m 0x100f8 4 LC_DYLD_CHAINED_FIXUPS) 0x100fc 4 16) 0x10100 4 0x2000) 0x10104 4 76 in
  let m := mwrite (mwrite (mwrite (mwrite m 0x12004 4 28) 0x12008 4 68) 0x1200c 4 72) 0x12010 4 1 in
  let m := mwrite (mwrite m 0x1201c 4 3) 0x12024 4 16 in
  let m := mwrite (mwrite (mwrite (mwrite (mwrite m 0x1202c 4 24) 0x12030 2 0x1000) 0x12032 2 6) 0x12034 8 0x1000) 0x12040 2 1 in
  let m := mstore (mwrite m 0x12044 4 (1 + 2 ^ 9)) 0x12048 [0; 0x5f; 0x61; 0] in
  mwrite (mwrite m 0x11000 8 (encode_fixup (Rebase 0x123 0) 4)) 0x11010 8 (encode_fixup (Bind 0 5) 0).

Definition one_page_image : LoadedImage := mkImage 0 0x10000 0x10000 0 0 0 0 0.
Definition one_page_segment : segment_fixups := mkSegment 0x1000 6 0x1000 [[(0, Rebase 0x123 0); (16, Bind 0 5)]].
Definition one_page_segments : list (option segment_fixups) := [None; Some one_page_segment; None].
Definition one_page_imports : list import := [mkImport 1 false 1].

#[local] Existing Instance one_symbol.
#[local] Existing Instance one_symbol_laws.

Lemma one_page_mem_wf : mem_wf one_page_mem.
Proof. unfold one_page_mem. eauto 60 with panthera. Qed.

Lemma one_page_image_ok : chained_image one_page_image 0x12000 76 one_page_mem no_cache 264.
Proof.
  exists 0x10020, 0x100b0, 0x100f8, [0x10020; 0x10068; 0x100b0], [].
  assert (E : commands one_page_mem 0x10000 = [0x10020; 0x10068; 0x100b0; 0x100f8]) by (vm_compute; reflexivity).
  split; [vm_compute; reflexivity|]. split; [vm_compute; reflexivity|]. split; [split; [lia|]|].
  { intros c Hc. cbn [img_header one_page_image] in *. rewrite E in Hc. repeat (apply elem_of_cons in Hc as [->|Hc]; [lia|]). destruct (proj1 (elem_of_nil _) Hc). }
  split; [exact E|]. split; [vm_compute; reflexivity|]. split; [|split; [vm_compute; discriminate|]].
  { intros c Hc. cbn [app] in Hc. repeat (apply elem_of_cons in Hc as [->|Hc]; [vm_compute; discriminate|]). destruct (proj1 (elem_of_nil _) Hc). }
  split; [vm_compute; reflexivity|]. split; [vm_compute; reflexivity|]. split; [vm_compute; discriminate|vm_compute; discriminate].
Qed.

Lemma one_page_pages_ok : pages_at one_page_image one_page_mem (fun _ => True) 0x12000 76 1 one_page_segment.
Proof.
  split; [repeat split; vm_compute; congruence|]. split.
  - intros [|j] l Hl Hn; [|done]. injection Hl as <-. split; [repeat split; cbn; lia|]. split; [done|].
    split; [repeat split; vm_compute; reflexivity|]. split; [done|left; vm_compute; discriminate].
  - intros [|j] [|j'] a (l & Hl & _) (l' & Hl' & _); done.
Qed.

Lemma one_page_fixups_ok : fixups_at one_page_image 0x12000 76 68 72 28 one_page_imports one_page_segments one_page_mem (fun _ => True).
Proof.
  split; [|split; [done|]].
  { split; [lia|]. split; [vm_compute; reflexivity|]. split; [lia|]. split; [cbn; lia|]. split; [lia|]. intros [|i] imp Hi; [|done]. injection Hi as <-.
    split; [repeat split; vm_compute; reflexivity|]. split; [cbn; lia|]. exists 2. split; [lia|]. split; [cbn; lia|vm_compute; reflexivity]. }
  split; [vm_compute; reflexivity|]. split; [vm_compute; reflexivity|]. split; [vm_compute; reflexivity|]. split; [lia|]. split; [cbn; lia|]. split; [cbn; lia|].
  split; [vm_compute; reflexivity|]. split.
  - intros [|[|[|i]]] o Ho; [| | |done]; injection Ho as <-; [vm_compute; reflexivity| |vm_compute; reflexivity].
    split; [vm_compute; discriminate|]. split; [|exact one_page_pages_ok]. repeat (split; [vm_compute; try reflexivity; try congruence; by right|]).
    intros [|i] l Hi; [|done]. injection Hi as <-. vm_compute. reflexivity.
  - intros [|[|[|i]]] [|[|[|i']]] a (sg & j & Hi & _) (sg' & j' & Hi' & _); done.
Qed.

Lemma chained_fixups_applied_witness :
  let m' := ln_mem (applyChainedFixups one_page_image (one_page_mem, 0)) in
  mread m' 0x11000 8 = 0x10123 /\ mread m' 0x11010 8 = 0x7005 /\ mget m' 0x11008 = mget one_page_mem 0x11008.
Proof.
  pose proof (chained_fixups_applied one_page_image 0x12000 76 68 72 28 264 one_page_imports one_page_segments (one_page_mem, 0)) as Ht.
  specialize (Ht ltac:(lia) one_page_mem_wf one_page_image_ok one_page_fixups_ok). cbv zeta in Ht |- *.
  destruct Ht as (_ & Hv & Hk).
  { intros a Ha. split; [exact I|]. intros i (sg & j & Hi & l & Hl & Hn & Hin). destruct i as [|[|[|i]]]; try discriminate Hi. injection Hi as <-.
    destruct j as [|j]; [|discriminate Hl]. unfold in_page, page_address in Hin. cbn in Hin, Ha. lia. }
  split; [|split].
  - destruct (Hv 0x11000 6 (Rebase 0x123 0)) as (st1 & _ & E); [left|]. rewrite E. reflexivity.
  - destruct (Hv 0x11010 6 (Bind 0 5)) as (st1 & (_ & _ & Hst) & E); [right; left|]. rewrite E.
    assert (En : cstr st1.1 0x12049 = cstr one_page_mem 0x12049).
    { apply (cstr_same _ _ _ 2); [lia|vm_compute; reflexivity|]. intros a Ha'. destruct (Hst a I) as [_ [(loc & fmt & f & Hin & Ha)|Eg]]; [|exact Eg]. exfalso.
      unfold image_locs, one_page_segments, pages_locs, chain_locs, one_page_segment, page_address in Hin. cbn in Hin.
      repeat (apply elem_of_cons in Hin as [Hin|Hin]; [injection Hin as -> _ _; lia|]). by apply elem_of_nil in Hin. }
    change ((let addr := if decide (cstr st1.1 0x12049 = [0x5f; 0x61]) then 0x7000 else 0 in if addr =? 0 then 0 else addr +64 5) = 0x7005).
    rewrite En. vm_compute. reflexivity.
  - apply (Hk 0x11008 I). intros (loc & fmt & f & Hin & Ha). unfold image_locs, one_page_segments, pages_locs, chain_locs, one_page_segment, page_address in Hin. cbn in Hin.
    repeat (apply elem_of_cons in Hin as [Hin|Hin]; [injection Hin as -> _ _; lia|]). by apply elem_of_nil in Hin.
Defined.
