(* ===== verification/Opcodes.v ===== *)
(** * Rebase and bind opcodes: userland/dyld/panthera_dyld.cpp

    [applyRebases] and [applyBinds] interpret the byte codes in the link-edit data
    of an image. The specification is a list of abstract operations, the bytes
    that encode it, and the pointers it denotes. *)

From Stdlib Require Import ZArith Lia.
From stdpp Require Import base list gmap.
From S2P Require Import Prelude MachO Words Runs Leb128 DyldImage MachImage Linker.

Open Scope Z_scope.

Definition BIND_SYMBOL_FLAGS_WEAK_IMPORT : Z := 0x1.

(** [segs]: the segment commands, at most sixteen. *)
Definition segment_table (m : mem) (mh : Z) : list Z := take 16 (filter (fun c => lc_cmd m c = LC_SEGMENT_64) (commands m mh)).

Section Opcodes.
Context {St : Type} `{Linker St}.

(** [header + segs[segIndex]->vmaddr - text->vmaddr + segOffset]; [None] when there
    is no such segment. *)
Definition pointer_location (m : mem) (img : LoadedImage) (textSeg : Z) (segs : list Z) (segIndex segOffset : Z) : option Z :=
  match segs !! Z.to_nat segIndex with
  | None => None
  | Some seg => Some (wrap 64 (img_header img + seg_vmaddr m seg - seg_vmaddr m textSeg + segOffset))
  end.

(** ** Rebasing *)
Definition add_slide (img : LoadedImage) (loc : Z) (st : St) : St := store loc (mread (ln_mem st) loc 8 +64 img_slide img) st.

(** [count] pointers, [step] bytes apart; the state and [segOffset] afterwards. *)
Definition rebase_times_step (img : LoadedImage) (textSeg : Z) (segs : list Z) (segIndex count step : Z) (s : Z * St * Z)
    : (Z * St * Z) + option (St * Z) :=
  let '(j, st, segOffset) := s in
  if j <? count then
    match pointer_location (ln_mem st) img textSeg segs segIndex segOffset with
    | None => inr None
    | Some loc => inl (j + 1, add_slide img loc st, segOffset +64 step)
    end
  else inr (Some (st, segOffset)).

Definition rebase_times (img : LoadedImage) (textSeg : Z) (segs : list Z) (segIndex count step : Z) (st : St) (segOffset : Z) : option (St * Z) :=
  while rounds64 None (rebase_times_step img textSeg segs segIndex count step) (0, st, segOffset).

(** One opcode; [inr None] is an access through a null or a bad pointer. *)
Definition rebase_opcode_step (img : LoadedImage) (textSeg : Z) (segs : list Z) (e : Z) (s : St * Z * Z * Z) : (St * Z * Z * Z) + option St :=
  let '(st, p, segIndex, segOffset) := s in
  let m := ln_mem st in
  if p <? e then
    let byte := mget m p in
    let p := p + 1 in
    let opcode := Z.land byte 0xF0 in
    let imm := Z.land byte 0x0F in
    if opcode =? 0x10 then inl (st, p, segIndex, segOffset)
    else if opcode =? 0x20 then
      match readULEB128 m p with None => inr None | Some (v, p) => inl (st, p, imm, v) end
    else if opcode =? 0x30 then
      match readULEB128 m p with None => inr None | Some (v, p) => inl (st, p, segIndex, segOffset +64 v) end
    else if opcode =? 0x40 then inl (st, p, segIndex, segOffset +64 imm * 8)
    else if opcode =? 0x50 then
      match rebase_times img textSeg segs segIndex imm 8 st segOffset with
      | None => inr None
      | Some (st, segOffset) => inl (st, p, segIndex, segOffset)
      end
    else if opcode =? 0x60 then
      match readULEB128 m p with
      | None => inr None
      | Some (count, p) =>
          match rebase_times img textSeg segs segIndex count 8 st segOffset with
          | None => inr None
          | Some (st, segOffset) => inl (st, p, segIndex, segOffset)
          end
      end
    else if opcode =? 0x70 then
      match pointer_location m img textSeg segs segIndex segOffset with
      | None => inr None
      | Some loc =>
          let st := add_slide img loc st in
          match readULEB128 (ln_mem st) p with
          | None => inr None
          | Some (v, p) => inl (st, p, segIndex, segOffset +64 (v +64 8))
          end
      end
    else if opcode =? 0x80 then
      match readULEB128 m p with
      | None => inr None
      | Some (count, p) =>
          match readULEB128 m p with
          | None => inr None
          | Some (skip, p) =>
              match rebase_times img textSeg segs segIndex count (skip +64 8) st segOffset with
              | None => inr None
              | Some (st, segOffset) => inl (st, p, segIndex, segOffset)
              end
          end
      end
    else if opcode =? 0x00 then inr (Some st)
    else inl (st, p, segIndex, segOffset)
  else inr (Some st).

Definition rebase_command (img : LoadedImage) (cmd : Z) (st : St) : St + option St :=
  let m := ln_mem st in
  if (lc_cmd m cmd =? LC_DYLD_INFO) || (lc_cmd m cmd =? LC_DYLD_INFO_ONLY) then
    if di_rebase_size m cmd =? 0 then inr (Some st)
    else
      match findSegment m (img_header img) SEG_TEXT, findSegment m (img_header img) SEG_LINKEDIT with
      | Some textSeg, Some linkSeg =>
          let lbase := linkeditBaseForImage m (ln_cache st) img textSeg linkSeg in
          if lbase =? 0 then inr (Some st)
          else
            let p := lbase +64 di_rebase_off m cmd in
            let e := p + di_rebase_size m cmd in
            match while rounds64 None (rebase_opcode_step img textSeg (segment_table m (img_header img)) e) (st, p, 0, 0) with
            | None => inr None
            | Some st => inl st
            end
      | _, _ => inr (Some st)
      end
  else inl st.

(** [None] when the opcodes make it follow a bad pointer. *)
Definition applyRebases (img : LoadedImage) (st : St) : option St :=
  each_command ln_mem (img_header img) (rebase_command img) Some st.

(** ** Binding *)
Record bind_state := mkBind {
  b_segIndex : Z;
  b_segOffset : Z;
  b_symbolName : Z;
  b_symbolFlags : Z;
  b_addend : Z;
  b_ordinal : Z }.

(** Storing what a symbol resolved to. *)
Definition bind_store (b : bind_state) (addr loc : Z) (st : St) : St :=
  if negb (addr =? 0) then store loc (addr +64 b_addend b) st
  else if negb (Z.land (b_symbolFlags b) BIND_SYMBOL_FLAGS_WEAK_IMPORT =? 0) then store loc 0 st
  else reportUnresolvedBind st.

Definition with_offset (b : bind_state) (o : Z) : bind_state :=
  mkBind (b_segIndex b) o (b_symbolName b) (b_symbolFlags b) (b_addend b) (b_ordinal b).

(** The body of the three opcodes that bind one pointer. *)
Definition bind_one (img : LoadedImage) (textSeg : Z) (segs : list Z) (b : bind_state) (st : St) : option St :=
  let '(addr, st) := ln_resolve (b_symbolName b) (b_ordinal b) false img st in
  match pointer_location (ln_mem st) img textSeg segs (b_segIndex b) (b_segOffset b) with
  | None => None
  | Some loc => Some (bind_store b addr loc st)
  end.

Definition bind_times_step (img : LoadedImage) (textSeg : Z) (segs : list Z) (count step addr : Z) (s : Z * St * bind_state)
    : (Z * St * bind_state) + option (St * bind_state) :=
  let '(j, st, b) := s in
  if j <? count then
    match pointer_location (ln_mem st) img textSeg segs (b_segIndex b) (b_segOffset b) with
    | None => inr None
    | Some loc => inl (j + 1, bind_store b addr loc st, with_offset b (b_segOffset b +64 step))
    end
  else inr (Some (st, b)).

Definition bind_times (img : LoadedImage) (textSeg : Z) (segs : list Z) (count step : Z) (b : bind_state) (st : St) : option (St * bind_state) :=
  let '(addr, st) := ln_resolve (b_symbolName b) (b_ordinal b) false img st in
  while rounds64 None (bind_times_step img textSeg segs count step addr) (0, st, b).

(** [while (p < end && *p) p++; if (p < end) p++;] *)
Fixpoint skip_name (n : nat) (m : mem) (p e : Z) : Z :=
  match n with
  | O => p
  | S n => if p <? e then if mget m p =? 0 then p + 1 else skip_name n m (p + 1) e else p
  end.

Definition bind_opcode (img : LoadedImage) (textSeg : Z) (segs : list Z) (p e byte : Z) (b : bind_state) (st : St) : option (St * Z * bind_state) :=
  let m := ln_mem st in
  let opcode := Z.land byte 0xF0 in
  let imm := Z.land byte 0x0F in
  let with_ordinal o := mkBind (b_segIndex b) (b_segOffset b) (b_symbolName b) (b_symbolFlags b) (b_addend b) o in
  if opcode =? 0x10 then Some (st, p, with_ordinal imm)
  else if opcode =? 0x20 then
    match readULEB128 m p with None => None | Some (v, p) => Some (st, p, with_ordinal (signed 32 (wrap 32 v))) end
  else if opcode =? 0x30 then Some (st, p, with_ordinal (if imm =? 0 then 0 else signed 8 (Z.lor 0xF0 imm)))
  else if opcode =? 0x40 then
    Some (st, skip_name (Z.to_nat (e - p)) m p e, mkBind (b_segIndex b) (b_segOffset b) p imm (b_addend b) (b_ordinal b))
  else if opcode =? 0x60 then
    match readSLEB128 m p with
    | None => None
    | Some (v, p) => Some (st, p, mkBind (b_segIndex b) (b_segOffset b) (b_symbolName b) (b_symbolFlags b) v (b_ordinal b))
    end
  else if opcode =? 0x70 then
    match readULEB128 m p with
    | None => None
    | Some (v, p) => Some (st, p, mkBind imm v (b_symbolName b) (b_symbolFlags b) (b_addend b) (b_ordinal b))
    end
  else if opcode =? 0x80 then
    match readULEB128 m p with None => None | Some (v, p) => Some (st, p, with_offset b (b_segOffset b +64 v)) end
  else if opcode =? 0x90 then
    match bind_one img textSeg segs b st with None => None | Some st => Some (st, p, with_offset b (b_segOffset b +64 8)) end
  else if opcode =? 0xa0 then
    match bind_one img textSeg segs b st with
    | None => None
    | Some st =>
        match readULEB128 (ln_mem st) p with
        | None => None
        | Some (v, p) => Some (st, p, with_offset b (b_segOffset b +64 (v +64 8)))
        end
    end
  else if opcode =? 0xb0 then
    match bind_one img textSeg segs b st with None => None | Some st => Some (st, p, with_offset b (b_segOffset b +64 (imm + 1) * 8)) end
  else if opcode =? 0xc0 then
    match readULEB128 m p with
    | None => None
    | Some (count, p) =>
        match readULEB128 m p with
        | None => None
        | Some (skip, p) =>
            match bind_times img textSeg segs count (skip +64 8) b st with None => None | Some (st, b) => Some (st, p, b) end
        end
    end
  else Some (st, p, b).

Definition bind_step (img : LoadedImage) (textSeg : Z) (segs : list Z) (e : Z) (s : St * Z * Z * bind_state) : (St * Z * Z * bind_state) + option St :=
  let '(st, p, opcodeCount, b) := s in
  if p <? e then
    let opcodeCount := opcodeCount + 1 in
    if 1000000 <? opcodeCount then inr (Some st)
    else
      match bind_opcode img textSeg segs (p + 1) e (mget (ln_mem st) p) b st with
      | None => inr None
      | Some (st, p, b) => inl (st, p, opcodeCount, b)
      end
  else inr (Some st).

(** One pass; [empty] is the address of the empty string literal. *)
Definition bind_pass (empty : Z) (img : LoadedImage) (off sz : Z) (st : St) : option St :=
  let m := ln_mem st in
  if sz =? 0 then Some st
  else
    match findSegment m (img_header img) SEG_TEXT, findSegment m (img_header img) SEG_LINKEDIT with
    | Some textSeg, Some linkSeg =>
        let lbase := linkeditBaseForImage m (ln_cache st) img textSeg linkSeg in
        if lbase =? 0 then Some st
        else
          let p := lbase +64 off in
          while rounds64 None (bind_step img textSeg (segment_table m (img_header img)) (p + sz)) (st, p, 0, mkBind 0 0 empty 0 0 0)
    | _, _ => Some st
    end.

Definition bind_command (empty : Z) (img : LoadedImage) (cmd : Z) (st : St) : St + option St :=
  let m := ln_mem st in
  if (lc_cmd m cmd =? LC_DYLD_INFO) || (lc_cmd m cmd =? LC_DYLD_INFO_ONLY) then
    match bind_pass empty img (di_bind_off m cmd) (di_bind_size m cmd) st with
    | None => inr None
    | Some st =>
        match bind_pass empty img (di_lazy_bind_off (ln_mem st) cmd) (di_lazy_bind_size (ln_mem st) cmd) st with
        | None => inr None
        | Some st => inl st
        end
    end
  else inl st.

Definition applyBinds (empty : Z) (img : LoadedImage) (st : St) : option St :=
  each_command ln_mem (img_header img) (bind_command empty img) Some st.
End Opcodes.

(** ** Rebase programs *)
Inductive rebase_op :=
  | RSetType (ty : Z)
  | RSetSegment (seg off : Z)
  | RAddOffset (n : Z)
  | RAddScaled (k : Z)
  | RTimesImm (k : Z)
  | RTimes (n : Z)
  | ROneAdd (n : Z)
  | RTimesSkipping (n skip : Z)
  | RDone.

(** The bytes from [p] to [e] are the program; after [RDone] anything may follow. *)
Fixpoint rebase_at (m : mem) (p e : Z) (ops : list rebase_op) : Prop :=
  match ops with
  | [] => e <= p
  | op :: ops =>
      p < e /\
      match op with
      | RSetType ty => 0 <= ty < 16 /\ mget m p = 0x10 + ty /\ rebase_at m (p + 1) e ops
      | RSetSegment seg off => 0 <= seg < 16 /\ mget m p = 0x20 + seg /\ exists q, uleb_at m (p + 1) e off q /\ rebase_at m q e ops
      | RAddOffset n => mget m p = 0x30 /\ exists q, uleb_at m (p + 1) e n q /\ rebase_at m q e ops
      | RAddScaled k => 0 <= k < 16 /\ mget m p = 0x40 + k /\ rebase_at m (p + 1) e ops
      | RTimesImm k => 0 <= k < 16 /\ mget m p = 0x50 + k /\ rebase_at m (p + 1) e ops
      | RTimes n => mget m p = 0x60 /\ exists q, uleb_at m (p + 1) e n q /\ rebase_at m q e ops
      | ROneAdd n => mget m p = 0x70 /\ exists q, uleb_at m (p + 1) e n q /\ rebase_at m q e ops
      | RTimesSkipping n skip => mget m p = 0x80 /\ exists q r, uleb_at m (p + 1) e n q /\ uleb_at m q e skip r /\ rebase_at m r e ops
      | RDone => mget m p = 0
      end
  end.

(** [n] offsets, [step] apart. *)
Fixpoint offsets (n : nat) (off step : Z) : list Z :=
  match n with
  | O => []
  | S n => off :: offsets n (off +64 step) step
  end.

Definition offset_after (n : nat) (off step : Z) : Z := wrap 64 (off + Z.of_nat n * step).

(** The pointers a program slides, as segment indices and offsets. *)
Fixpoint rebase_pointers (ops : list rebase_op) (seg off : Z) : list (Z * Z) :=
  let times n step ops := map (pair seg) (offsets (Z.to_nat n) off step) ++ rebase_pointers ops seg (offset_after (Z.to_nat n) off step) in
  match ops with
  | [] => []
  | RSetType _ :: ops => rebase_pointers ops seg off
  | RSetSegment seg off :: ops => rebase_pointers ops seg off
  | RAddOffset n :: ops => rebase_pointers ops seg (off +64 n)
  | RAddScaled k :: ops => rebase_pointers ops seg (off +64 k * 8)
  | RTimesImm k :: ops => times k 8 ops
  | RTimes n :: ops => times n 8 ops
  | ROneAdd n :: ops => (seg, off) :: rebase_pointers ops seg (off +64 (n +64 8))
  | RTimesSkipping n skip :: ops => times n (skip +64 8) ops
  | RDone :: _ => []
  end.

Lemma uleb_at_same m m' p e v q : (forall a, p <= a < e -> mget m' a = mget m a) -> uleb_at m p e v q -> uleb_at m' p e v q.
Proof.
  intros Hs (bs & Hh & Hok & Hl & Hv & Hr & Hq & He). exists bs. split; [|done]. eapply holds_ext; [|exact Hh]. intros b Hb. apply Hs. lia.
Qed.

Lemma uleb_at_range m p e v q : uleb_at m p e v q -> p < q <= e /\ 0 <= v < 2 ^ 64.
Proof.
  intros (bs & _ & Hok & _ & <- & Hv & -> & He). pose proof (leb_value_nonneg bs). destruct bs; [done|]. cbn [length] in *. lia.
Qed.

(** The bounds of the numbers in a program. *)
Ltac uleb_facts :=
  repeat match goal with
    | H : uleb_at ?m ?p ?e ?v ?q |- _ =>
        lazymatch goal with
        | _ : p < q <= e /\ 0 <= v < 2 ^ 64 |- _ => fail
        | _ => pose proof (uleb_at_range m p e v q H)
        end
    end.

Ltac same_stream m IH Hs :=
  repeat match goal with
    | |- _ /\ _ => split
    | |- exists _, _ => eexists
    | |- uleb_at _ _ _ _ _ => apply (uleb_at_same m); [intros; apply Hs; lia|eassumption]
    | |- _ => eassumption
    | |- _ => lia
    | |- _ => apply IH; [intros; apply Hs; lia|eassumption]
    end.

Lemma rebase_at_same m m' e ops : forall p, (forall a, p <= a < e -> mget m' a = mget m a) -> rebase_at m p e ops -> rebase_at m' p e ops.
Proof.
  induction ops as [|op ops IH]; intros p Hs; [done|]. cbn [rebase_at]. intros [Hp Hop]. split; [done|]. rewrite Hs by lia.
  destruct op; decompose [and ex] Hop; uleb_facts; same_stream m IH Hs.
Qed.

(** The rounds a program takes. *)
Fixpoint rebase_rounds (ops : list rebase_op) : nat :=
  match ops with [] | RDone :: _ => 1 | _ :: ops => S (rebase_rounds ops) end.

Lemma rebase_rounds_le m e ops : forall p, p <= e -> rebase_at m p e ops -> Z.of_nat (rebase_rounds ops) <= e - p + 1.
Proof.
  induction ops as [|op ops IH]; intros p Hp; cbn [rebase_at rebase_rounds]; [lia|]. intros [Hlt Hop].
  destruct op; decompose [and ex] Hop; uleb_facts;
    try match goal with Hr : rebase_at _ ?q _ ops |- _ => specialize (IH q ltac:(lia) Hr) end; lia.
Qed.

(** ** Running a rebase program *)
Lemma byte_split b : 0 <= b < 256 -> Z.land b 0xF0 = b / 16 * 16 /\ Z.land b 0x0F = b mod 16.
Proof.
  intros Hb. assert (Ha : all_bytes (fun b => (Z.land b 0xF0 =? b / 16 * 16) && (Z.land b 0x0F =? b mod 16)) = true) by (vm_compute; reflexivity).
  pose proof (all_bytes_spec _ b Ha Hb) as Hs. cbv beta in Hs. apply andb_prop in Hs as [H1 H2]. lia.
Qed.

Lemma opcode_split k lo : 0 <= k < 16 -> 0 <= lo < 16 -> Z.land (16 * k + lo) 0xF0 = 16 * k /\ Z.land (16 * k + lo) 0x0F = lo.
Proof.
  intros Hk Hlo. destruct (byte_split (16 * k + lo)) as [-> ->]; [lia|].
  pose proof (Z.div_mod (16 * k + lo) 16 ltac:(lia)). pose proof (Z.mod_pos_bound (16 * k + lo) 16 ltac:(lia)). lia.
Qed.

Section Program.
Context {St : Type} `{LinkerLaws St}.
Variables (img : LoadedImage) (textSeg : Z) (segs : list Z) (m : mem) (F : Z -> Prop).

(** Locations come from bytes that do not change. *)
Hypothesis location_frozen : forall m', (forall a, F a -> mget m' a = mget m a) -> forall seg off,
  pointer_location m' img textSeg segs seg off = pointer_location m img textSeg segs seg off.

Definition location (x : Z * Z) : Z := default 0 (pointer_location m img textSeg segs x.1 x.2).

(** The pointer exists and is not among the frozen bytes. *)
Definition movable (x : Z * Z) : Prop := exists loc, pointer_location m img textSeg segs x.1 x.2 = Some loc /\ forall a, loc <= a < loc + 8 -> ~ F a.

Lemma location_now x st : frozen m F st -> movable x -> pointer_location (ln_mem st) img textSeg segs x.1 x.2 = Some (location x).
Proof.
  intros [_ Hf] (loc & E & _). rewrite (location_frozen (ln_mem st)) by (intros a Ha; by apply Hf). unfold location. by rewrite E.
Qed.

Lemma frozen_store x v st : movable x -> frozen m F st -> frozen m F (store (location x) v st).
Proof.
  intros (loc & E & Hn) Hf. unfold location. rewrite E. cbn [default]. eapply frozen_keeps; [apply keeps_store|done|done].
Qed.

Lemma offset_after_S n off step : offset_after n (off +64 step) step = offset_after (S n) off step.
Proof. unfold offset_after. rewrite wrap_add_l. f_equal. lia. Qed.

Definition slide_all (l : list (Z * Z)) (st : St) : St := fold_left (fun st x => add_slide img (location x) st) l st.

Lemma frozen_slide_all l : forall st, Forall movable l -> frozen m F st -> frozen m F (slide_all l st).
Proof.
  induction l as [|x l IH]; intros st Hl Hf; [done|]. apply Forall_cons in Hl as [Hx Hl]. cbn [slide_all fold_left]. apply IH; [done|]. by apply frozen_store.
Qed.

Lemma rebase_times_ok seg count step st off : 0 <= count < 2 ^ 64 -> 0 <= off < 2 ^ 64 -> frozen m F st ->
  Forall movable (map (pair seg) (offsets (Z.to_nat count) off step)) ->
  rebase_times img textSeg segs seg count step st off =
  Some (slide_all (map (pair seg) (offsets (Z.to_nat count) off step)) st, offset_after (Z.to_nat count) off step).
Proof.
  intros Hc Hoff Hf Hm. unfold rebase_times.
  assert (Hgo : forall n j st off, Z.of_nat n = count - j -> 0 <= off < 2 ^ 64 -> frozen m F st -> Forall movable (map (pair seg) (offsets n off step)) ->
    runs (rebase_times_step img textSeg segs seg count step) (S n) (j, st, off) =
    inr (Some (slide_all (map (pair seg) (offsets n off step)) st, offset_after n off step))).
  { clear st off Hoff Hf Hm. induction n as [|n IH]; intros j st off Hn Hoff Hf Hm.
    - cbn [runs rebase_times_step]. destruct (Z.ltb_spec j count); [lia|]. cbn. unfold offset_after. rewrite Z.add_0_r, wrap_small by done. done.
    - remember (S n) as n1. cbn [runs]. subst n1. cbn [rebase_times_step]. destruct (Z.ltb_spec j count); [|lia]. cbn [offsets map] in Hm.
      apply Forall_cons in Hm as [Hx Hm]. rewrite (location_now (seg, off) st Hf Hx : pointer_location _ _ _ _ seg off = _).
      rewrite IH; [|lia|apply wrap_64_range|by apply frozen_store|done]. cbn [offsets map slide_all fold_left]. by rewrite offset_after_S. }
  apply (while_runs _ _ _ (S (Z.to_nat count))); [apply Hgo; (done || lia)|unfold rounds64; lia].
Qed.

Lemma read_now p e v q st : frozen m F st -> (forall a, p <= a < e -> F a) -> uleb_at m p e v q -> readULEB128 (ln_mem st) p = Some (v, q).
Proof. intros [_ Hf] HF Hu. apply (readULEB128_ok _ _ e), (uleb_at_same m); [|done]. intros a Ha. by apply Hf, HF. Qed.

Lemma slide_all_app l1 l2 st : slide_all (l1 ++ l2) st = slide_all l2 (slide_all l1 st).
Proof. unfold slide_all. apply fold_left_app. Qed.

(** The byte at [p] is opcode [k] with operand [lo]. *)
Lemma opcode_now p k lo st : frozen m F st -> F p -> 0 <= k < 16 -> 0 <= lo < 16 -> mget m p = 16 * k + lo ->
  Z.land (mget (ln_mem st) p) 0xF0 = 16 * k /\ Z.land (mget (ln_mem st) p) 0x0F = lo.
Proof. intros [_ Hf] Hp Hk Hlo E. destruct (Hf p Hp) as [_ ->]. rewrite E. by apply opcode_split. Qed.

Ltac rebase_opcode k lo :=
  cbn [runs rebase_rounds rebase_pointers]; unfold rebase_opcode_step at 1;
  match goal with
  | Hf : frozen m F ?st, Hlt : ?p < ?e, HF : forall a, ?p <= a < ?e -> F a |- _ =>
      destruct (Z.ltb_spec p e); [|lia];
      destruct (opcode_now p k lo st Hf (HF p ltac:(lia)) ltac:(lia) ltac:(lia) ltac:(lia)) as [-> ->];
      let v := eval vm_compute in (16 * k) in change (16 * k) with v; cbn [Z.eqb Pos.eqb]
  end.

Lemma rebase_run e ops : forall st p seg off, frozen m F st -> (forall a, p <= a < e -> F a) -> rebase_at m p e ops -> 0 <= off < 2 ^ 64 ->
  Forall movable (rebase_pointers ops seg off) ->
  runs (rebase_opcode_step img textSeg segs e) (rebase_rounds ops) (st, p, seg, off) = inr (Some (slide_all (rebase_pointers ops seg off) st)).
Proof.
  induction ops as [|op ops IH]; intros st p seg off Hf HF Hat Hoff Hm.
  { cbn [runs rebase_rounds rebase_opcode_step]. cbn [rebase_at] in Hat. by destruct (Z.ltb_spec p e); [lia|]. }
  destruct Hat as [Hlt Hop]. cbn [rebase_pointers] in Hm.
  destruct op; decompose [and ex] Hop; uleb_facts.
  - rebase_opcode 1 ty. apply IH; (done || lia || (intros; apply HF; lia)).
  - rebase_opcode 2 seg0. erewrite read_now; [|done| |eassumption]; [|intros; apply HF; lia]. apply IH; (done || lia || (intros; apply HF; lia)).
  - rebase_opcode 3 0. erewrite read_now; [|done| |eassumption]; [|intros; apply HF; lia].
    apply IH; (done || apply wrap_64_range || (intros; apply HF; lia)).
  - rebase_opcode 4 k. apply IH; (done || apply wrap_64_range || (intros; apply HF; lia)).
  - rebase_opcode 5 k. apply Forall_app in Hm as [Hm1 Hm2]. rewrite rebase_times_ok by (done || lia). rewrite slide_all_app.
    apply IH; (done || apply wrap_64_range || (by apply frozen_slide_all) || (intros; apply HF; lia)).
  - rebase_opcode 6 0. erewrite read_now; [|done| |eassumption]; [|intros; apply HF; lia]. apply Forall_app in Hm as [Hm1 Hm2].
    rewrite rebase_times_ok by (done || lia). rewrite slide_all_app.
    apply IH; (done || apply wrap_64_range || (by apply frozen_slide_all) || (intros; apply HF; lia)).
  - rebase_opcode 7 0. apply Forall_cons in Hm as [Hx Hm]. rewrite (location_now (seg, off) st Hf Hx : pointer_location _ _ _ _ seg off = _).
    erewrite read_now; [|by apply frozen_store| |eassumption]; [|intros; apply HF; lia].
    etransitivity; [apply IH; (done || apply wrap_64_range || (by apply frozen_store) || (intros; apply HF; lia))|done].
  - rebase_opcode 8 0. erewrite read_now; [|done| |eassumption]; [|intros; apply HF; lia]. erewrite read_now; [|done| |eassumption]; [|intros; apply HF; lia].
    apply Forall_app in Hm as [Hm1 Hm2]. rewrite rebase_times_ok by (done || lia). rewrite slide_all_app.
    apply IH; (done || apply wrap_64_range || (by apply frozen_slide_all) || (intros; apply HF; lia)).
  - rebase_opcode 0 0. done.
Qed.
End Program.

(** ** Images with rebase opcodes *)

(** The image has one dyld info command [cmd]; the header and the load commands
    are in its first [n] bytes. *)
Definition info_image (m : mem) (mh n textSeg linkSeg cmd : Z) (before after : list Z) : Prop :=
  findSegment m mh SEG_TEXT = Some textSeg /\ findSegment m mh SEG_LINKEDIT = Some linkSeg /\
  commands_in m mh n /\ commands m mh = before ++ cmd :: after /\ cmd + 48 <= mh + n /\
  (lc_cmd m cmd = LC_DYLD_INFO \/ lc_cmd m cmd = LC_DYLD_INFO_ONLY) /\
  (forall c, c ∈ before ++ after -> lc_cmd m c <> LC_DYLD_INFO /\ lc_cmd m c <> LC_DYLD_INFO_ONLY) /\
  (forall c, c ∈ commands m mh -> lc_cmd m c = LC_SEGMENT_64 -> c + 72 <= mh + n /\ exists k, 0 <= k < 64 /\ mget m (c + 8 + k) = 0).

Definition in_header (mh n a : Z) : Prop := mh <= a < mh + n.
Definition in_range (p e a : Z) : Prop := p <= a < e.

(** A header that did not change reads the same. *)
Section Header.
Variables (m m' : mem) (mh n textSeg linkSeg cmd : Z) (before after : list Z).
Hypothesis info : info_image m mh n textSeg linkSeg cmd before after.
Hypothesis same : same_header m m' mh n.

Lemma commands_same : commands m' mh = commands m mh.
Proof using info same.
  destruct info as (_ & _ & Hcin & _). unfold commands, mh_ncmds. rewrite (same_header_read m m' mh n) by (done || (destruct Hcin; lia)).
  fold (mh_ncmds m mh). assert (Hin : forall c, c ∈ commands_from m (mh + sizeof_mach_header_64) (Z.to_nat (mh_ncmds m mh)) -> mh <= c /\ c + 8 <= mh + n).
  { intros c Hc. destruct (proj2 Hcin c Hc). lia. }
  revert Hin. generalize (mh + sizeof_mach_header_64). induction (Z.to_nat (mh_ncmds m mh)) as [|k IH]; intros c Hin; [done|]. cbn [commands_from] in *.
  destruct (Hin c ltac:(by left)) as [H1 H2]. unfold lc_cmdsize at 1. rewrite (same_header_read m m' mh n) by (done || lia). f_equal.
  apply IH. intros c' Hc'. apply Hin. by right.
Qed.

Lemma command_same c : c ∈ commands m mh -> lc_cmd m' c = lc_cmd m c.
Proof using info same.
  destruct info as (_ & _ & Hcin & _). intros Hc. destruct (proj2 Hcin c Hc). apply (same_header_read m m' mh n); [done|lia|lia].
Qed.

Lemma segment_same c : c ∈ commands m mh -> lc_cmd m c = LC_SEGMENT_64 -> seg_name m' c = seg_name m c /\ seg_vmaddr m' c = seg_vmaddr m c /\ seg_fileoff m' c = seg_fileoff m c.
Proof using info same.
  destruct info as (_ & _ & Hcin & _ & _ & _ & _ & Hs). intros Hc Hseg. destruct (proj2 Hcin c Hc). destruct (Hs c Hc Hseg) as (Hn & k & Hk & Hz).
  split; [|split; apply (same_header_read m m' mh n); (done || lia)]. unfold seg_name. apply (cstr_same m m' (c + 8) k); [lia|done|]. intros a Ha. apply same. lia.
Qed.

Lemma findSegment_same name : findSegment m' mh name = findSegment m mh name.
Proof using info same.
  unfold findSegment. rewrite commands_same. assert (Hin : forall c, c ∈ commands m mh -> c ∈ commands m mh) by done. revert Hin.
  generalize (commands m mh) at 1 3 4. induction l as [|c l IH]; intros Hin; [done|]. cbn [List.find]. rewrite command_same by (apply Hin; by left).
  rewrite IH by (intros c' Hc'; apply Hin; by right). destruct (Z.eqb_spec (lc_cmd m c) LC_SEGMENT_64) as [E|]; [|done].
  destruct (segment_same c) as (-> & _); [apply Hin; by left|done|]. done.
Qed.

Lemma segment_table_same : segment_table m' mh = segment_table m mh.
Proof using info same.
  unfold segment_table. rewrite commands_same. f_equal. assert (Hin : forall c, c ∈ commands m mh -> lc_cmd m' c = lc_cmd m c) by apply command_same.
  induction (commands m mh) as [|c l IH]; [done|]. rewrite !filter_cons, IH by (intros c' Hc'; apply Hin; by right). rewrite (Hin c) by (by left). done.
Qed.

Lemma findSegment_spec name c : findSegment m mh name = Some c -> c ∈ commands m mh /\ lc_cmd m c = LC_SEGMENT_64.
Proof. intros E. apply List.find_some in E as [Hin Hc]. apply andb_prop in Hc as [Hc _]. split; [by apply list_elem_of_In|lia]. Qed.

Lemma linkeditBase_same c img : img_header img = mh -> linkeditBaseForImage m' c img textSeg linkSeg = linkeditBaseForImage m c img textSeg linkSeg.
Proof using info same.
  intros Eh. pose proof info as (Ht & Hl & _). apply findSegment_spec in Ht as [Ht1 Ht2], Hl as [Hl1 Hl2]. unfold linkeditBaseForImage.
  destruct (segment_same textSeg Ht1 Ht2) as (_ & -> & _), (segment_same linkSeg Hl1 Hl2) as (_ & -> & ->). done.
Qed.

Lemma location_same img seg off :
  pointer_location m' img textSeg (segment_table m mh) seg off = pointer_location m img textSeg (segment_table m mh) seg off.
Proof using info same.
  unfold pointer_location. destruct (_ !! Z.to_nat seg) as [c|] eqn:Ec; [|done].
  pose proof info as (Ht & _). apply findSegment_spec in Ht as [Ht1 Ht2]. destruct (segment_same textSeg Ht1 Ht2) as (_ & -> & _).
  apply list_elem_of_lookup_2 in Ec. unfold segment_table in Ec. apply elem_of_take in Ec as (i & Ec & _). apply list_elem_of_lookup_2, list_elem_of_filter in Ec as [Hc1 Hc2].
  by destruct (segment_same c Hc2 Hc1) as (_ & -> & _).
Qed.
End Header.

Section Rebases.
Context {St : Type} `{LinkerLaws St}.

(** The other commands do nothing. *)
Lemma skip_info {R} (f : Z -> St -> St + R) (done : St -> R) m mh n l st : commands_in m mh n -> same_header m (ln_mem st) mh n ->
  (forall c, c ∈ l -> c ∈ commands m mh /\ lc_cmd m c <> LC_DYLD_INFO /\ lc_cmd m c <> LC_DYLD_INFO_ONLY) ->
  (forall c s, lc_cmd (ln_mem s) c <> LC_DYLD_INFO -> lc_cmd (ln_mem s) c <> LC_DYLD_INFO_ONLY -> f c s = inl s) -> forall l',
  fold_until f done (l ++ l') st = fold_until f done l' st /\
  (all_states f (fun s => same_header m (ln_mem s) mh n) l' st -> all_states f (fun s => same_header m (ln_mem s) mh n) (l ++ l') st).
Proof.
  intros Hcin Hs Hl Hf l'. induction l as [|c l IH]; [done|]. destruct (Hl c ltac:(by left)) as (Hc & H1 & H2).
  assert (E : lc_cmd (ln_mem st) c = lc_cmd m c) by (destruct (proj2 Hcin c Hc); by apply (same_header_read m _ mh n); [|lia|lia]).
  cbn [app fold_until all_states]. rewrite Hf by congruence. destruct IH as [IH1 IH2]; [intros c' Hc'; apply Hl; by right|]. auto.
Qed.

(** Running the dyld info command. *)
Lemma one_info_command {R} (f : Z -> St -> St + R) (done : St -> R) mh n textSeg linkSeg cmd before after st st' :
  ln_ok st -> info_image (ln_mem st) mh n textSeg linkSeg cmd before after -> same_header (ln_mem st) (ln_mem st') mh n ->
  (forall c s, lc_cmd (ln_mem s) c <> LC_DYLD_INFO -> lc_cmd (ln_mem s) c <> LC_DYLD_INFO_ONLY -> f c s = inl s) ->
  f cmd st = inl st' -> each_command ln_mem mh f done st = done st'.
Proof.
  set (m := ln_mem st). intros Hw (_ & _ & Hcin & Hcmds & _ & _ & Hother & _) Hs' Hf Ecmd.
  assert (Hb : forall c, c ∈ before -> c ∈ commands m mh /\ lc_cmd m c <> LC_DYLD_INFO /\ lc_cmd m c <> LC_DYLD_INFO_ONLY).
  { intros c Hc. split; [rewrite Hcmds, elem_of_app; by left|]. apply Hother, elem_of_app. by left. }
  assert (Ha : forall c, c ∈ after -> c ∈ commands m mh /\ lc_cmd m c <> LC_DYLD_INFO /\ lc_cmd m c <> LC_DYLD_INFO_ONLY).
  { intros c Hc. split; [rewrite Hcmds, elem_of_app, elem_of_cons; tauto|]. apply Hother, elem_of_app. by right. }
  assert (Hs : same_header m (ln_mem st) mh n) by done.
  destruct (skip_info f done m mh n before st Hcin Hs Hb Hf (cmd :: after)) as [E1 A1].
  destruct (skip_info f done m mh n after st' Hcin Hs' Ha Hf []) as [E2 A2]. rewrite app_nil_r in E2, A2.
  rewrite (each_command_fold _ _ _ _ _ n); [|by apply ln_ok_wf|done|]; fold m; rewrite Hcmds.
  - rewrite E1. cbn [fold_until]. by rewrite Ecmd, E2.
  - apply A1. cbn [all_states]. rewrite Ecmd. split; [done|]. apply A2. by split.
Qed.

Lemma rebase_command_other img c (s : St) : lc_cmd (ln_mem s) c <> LC_DYLD_INFO -> lc_cmd (ln_mem s) c <> LC_DYLD_INFO_ONLY -> rebase_command img c s = inl s.
Proof.
  intros H1 H2. unfold rebase_command. destruct (Z.eqb_spec (lc_cmd (ln_mem s) c) LC_DYLD_INFO); [done|].
  by destruct (Z.eqb_spec (lc_cmd (ln_mem s) c) LC_DYLD_INFO_ONLY).
Qed.

Lemma applyRebases_ok img n textSeg linkSeg cmd before after ops st :
  let m := ln_mem st in let mh := img_header img in
  let D := linkeditBaseForImage m (ln_cache st) img textSeg linkSeg +64 di_rebase_off m cmd in
  let e := D + di_rebase_size m cmd in
  let F a := in_header mh n a \/ in_range D e a in
  let segs := segment_table m mh in
  ln_ok st -> info_image m mh n textSeg linkSeg cmd before after -> linkeditBaseForImage m (ln_cache st) img textSeg linkSeg <> 0 ->
  di_rebase_size m cmd <> 0 -> rebase_at m D e ops -> (forall a, F a -> ln_linked st a) ->
  Forall (movable img textSeg segs m F) (rebase_pointers ops 0 0) ->
  applyRebases img st = Some (slide_all img textSeg segs m (rebase_pointers ops 0 0) st).
Proof.
  intros m mh D e F segs Hw Hinfo Hlb Hsz Hat HF Hm. pose proof Hinfo as (Ht & Hls & Hcin & Hcmds & Hcn & Hcmd & Hother & Hsegs).
  assert (Hfr : frozen m F st) by (split; [done|]; intros a Ha; split; [by apply HF|done]).
  assert (Hloc : forall m', (forall a, F a -> mget m' a = mget m a) -> forall seg off,
    pointer_location m' img textSeg segs seg off = pointer_location m img textSeg segs seg off).
  { intros m' Hm' seg off. apply (location_same m m' mh n textSeg linkSeg cmd before after Hinfo). intros a Ha. apply Hm'. by left. }
  set (st' := slide_all img textSeg segs m (rebase_pointers ops 0 0) st).
  assert (Hfr' : frozen m F st') by (by apply frozen_slide_all).
  assert (Hrs : 0 <= di_rebase_size m cmd < 2 ^ 32) by (by apply (mread_range m (cmd + 12) 4), ln_ok_wf).
  assert (Ecmd : rebase_command img cmd st = inl st').
  { unfold rebase_command. fold m. fold mh. rewrite (proj2 (orb_true_iff _ _)) by (destruct Hcmd as [-> | ->]; [left|right]; done).
    destruct (Z.eqb_spec (di_rebase_size m cmd) 0); [done|]. rewrite Ht, Hls. destruct (Z.eqb_spec (linkeditBaseForImage m (ln_cache st) img textSeg linkSeg) 0); [done|].
    fold D e segs. rewrite (while_runs _ _ _ (rebase_rounds ops) _ (Some st')); [done| |].
    - apply (rebase_run img textSeg segs m F Hloc e ops st D 0 0); try done. intros a Ha. by right.
    - pose proof (rebase_rounds_le m e ops D ltac:(lia) Hat). unfold rounds64. lia. }
  unfold applyRebases. apply (one_info_command _ _ mh n textSeg linkSeg cmd before after); [done|done| |apply rebase_command_other|done].
  intros a Ha. by apply Hfr'; left.
Qed.

Lemma add_slide_effect img loc (s : St) : keeps (fun a => loc <= a < loc + 8) s (add_slide img loc s) /\
  mread (ln_mem (add_slide img loc s)) loc 8 = mread (ln_mem s) loc 8 +64 img_slide img.
Proof. split; [apply keeps_store|]. unfold add_slide, store. rewrite ln_mem_set, mread_mwrite. apply Z.mod_small, wrap_64_range. Qed.

Lemma slide_all_effect img textSeg segs m l (st : St) : let locs := map (location img textSeg segs m) l in
  apart locs -> (forall a, in_pointers locs a -> ln_linked st a) ->
  let st' := slide_all img textSeg segs m l st in
  keeps (in_pointers locs) st st' /\ forall loc, loc ∈ locs -> mread (ln_mem st') loc 8 = mread (ln_mem st) loc 8 +64 img_slide img.
Proof.
  intros locs Ha Hl st'. replace st' with (fold_left (fun st loc => add_slide img loc st) locs st) by (unfold st', slide_all, locs; by rewrite fold_left_map).
  apply (each_pointer (fun v => v +64 img_slide img) (add_slide img)); [apply add_slide_effect|done|done].
Qed.
End Rebases.

(** ** Bind programs *)
Inductive bind_op :=
  | BDone
  | BOrdinalImm (i : Z)
  | BOrdinal (v : Z)
  | BSpecial (i : Z)
  | BSymbol (flags name : Z)     (* [name] is the address of the characters *)
  | BType (ty : Z)
  | BAddend (v : Z)
  | BSegment (seg off : Z)
  | BAddOffset (n : Z)
  | BOne
  | BOneAdd (n : Z)
  | BOneScaled (k : Z)
  | BTimesSkipping (n skip : Z).

Fixpoint bind_at (m : mem) (p e : Z) (ops : list bind_op) : Prop :=
  match ops with
  | [] => e <= p
  | op :: ops =>
      p < e /\
      match op with
      | BDone => mget m p = 0 /\ bind_at m (p + 1) e ops
      | BOrdinalImm i => 0 <= i < 16 /\ mget m p = 0x10 + i /\ bind_at m (p + 1) e ops
      | BOrdinal v => mget m p = 0x20 /\ exists q, uleb_at m (p + 1) e v q /\ bind_at m q e ops
      | BSpecial i => 0 <= i < 16 /\ mget m p = 0x30 + i /\ bind_at m (p + 1) e ops
      | BSymbol flags name => 0 <= flags < 16 /\ mget m p = 0x40 + flags /\ name = p + 1 /\
          exists s, Forall (fun c => c <> 0) s /\ holds m (p + 1) (s ++ [0]) /\ p + 1 + Z.of_nat (length s) < e /\
            bind_at m (p + 1 + Z.of_nat (length s) + 1) e ops
      | BType ty => 0 <= ty < 16 /\ mget m p = 0x50 + ty /\ bind_at m (p + 1) e ops
      | BAddend v => mget m p = 0x60 /\ exists q, sleb_at m (p + 1) e v q /\ bind_at m q e ops
      | BSegment seg off => 0 <= seg < 16 /\ mget m p = 0x70 + seg /\ exists q, uleb_at m (p + 1) e off q /\ bind_at m q e ops
      | BAddOffset n => mget m p = 0x80 /\ exists q, uleb_at m (p + 1) e n q /\ bind_at m q e ops
      | BOne => mget m p = 0x90 /\ bind_at m (p + 1) e ops
      | BOneAdd n => mget m p = 0xa0 /\ exists q, uleb_at m (p + 1) e n q /\ bind_at m q e ops
      | BOneScaled k => 0 <= k < 16 /\ mget m p = 0xb0 + k /\ bind_at m (p + 1) e ops
      | BTimesSkipping n skip => mget m p = 0xc0 /\ exists q r, uleb_at m (p + 1) e n q /\ uleb_at m q e skip r /\ bind_at m r e ops
      end
  end.

(** What an operation does to the registers. *)
Definition after_op (op : bind_op) (b : bind_state) : bind_state :=
  let with_ordinal o := mkBind (b_segIndex b) (b_segOffset b) (b_symbolName b) (b_symbolFlags b) (b_addend b) o in
  match op with
  | BDone | BType _ => b
  | BOrdinalImm i => with_ordinal i
  | BOrdinal v => with_ordinal (signed 32 (wrap 32 v))
  | BSpecial i => with_ordinal (if i =? 0 then 0 else i - 16)
  | BSymbol flags name => mkBind (b_segIndex b) (b_segOffset b) name flags (b_addend b) (b_ordinal b)
  | BAddend v => mkBind (b_segIndex b) (b_segOffset b) (b_symbolName b) (b_symbolFlags b) v (b_ordinal b)
  | BSegment seg off => mkBind seg off (b_symbolName b) (b_symbolFlags b) (b_addend b) (b_ordinal b)
  | BAddOffset n => with_offset b (b_segOffset b +64 n)
  | BOne => with_offset b (b_segOffset b +64 8)
  | BOneAdd n => with_offset b (b_segOffset b +64 (n +64 8))
  | BOneScaled k => with_offset b (b_segOffset b +64 (k + 1) * 8)
  | BTimesSkipping n skip => with_offset b (offset_after (Z.to_nat n) (b_segOffset b) (skip +64 8))
  end.

(** The offsets an operation binds, if it binds any. *)
Definition op_binds (op : bind_op) (b : bind_state) : option (list Z) :=
  match op with
  | BOne | BOneAdd _ | BOneScaled _ => Some [b_segOffset b]
  | BTimesSkipping n skip => Some (offsets (Z.to_nat n) (b_segOffset b) (skip +64 8))
  | _ => None
  end.

(** The symbols a program binds: the registers and the offsets of each. *)
Fixpoint bind_requests (ops : list bind_op) (b : bind_state) : list (bind_state * list Z) :=
  match ops with
  | [] => []
  | op :: ops =>
      match op_binds op b with
      | None => bind_requests ops (after_op op b)
      | Some offs => (b, offs) :: bind_requests ops (after_op op b)
      end
  end.

(** The locations of a request. *)
Definition request_pointers (x : bind_state * list Z) : list (Z * Z) := map (pair (b_segIndex x.1)) x.2.

Section Binds.
Context {St : Type} `{LinkerLaws St}.
Variables (img : LoadedImage) (textSeg : Z) (segs : list Z) (m : mem) (F : Z -> Prop).
Hypothesis location_frozen : forall m', (forall a, F a -> mget m' a = mget m a) -> forall seg off,
  pointer_location m' img textSeg segs seg off = pointer_location m img textSeg segs seg off.

(** Resolve the symbol once and store its address. *)
Definition bind_request (x : bind_state * list Z) (st : St) : St :=
  let '(addr, st) := ln_resolve (b_symbolName x.1) (b_ordinal x.1) false img st in
  fold_left (fun st p => bind_store x.1 addr (location img textSeg segs m p) st) (request_pointers x) st.

Lemma frozen_bind_store b addr x st : movable img textSeg segs m F x -> frozen m F st -> frozen m F (bind_store b addr (location img textSeg segs m x) st).
Proof.
  intros Hx Hf. unfold bind_store. case_match; [by apply frozen_store|]. case_match; [by apply frozen_store|].
  eapply frozen_keeps; [apply (keeps_report (fun _ => False))|tauto|done].
Qed.

Lemma frozen_bind_all b addr l : forall st, Forall (movable img textSeg segs m F) l -> frozen m F st ->
  frozen m F (fold_left (fun st p => bind_store b addr (location img textSeg segs m p) st) l st).
Proof.
  induction l as [|x l IH]; intros st Hl Hf; [done|]. apply Forall_cons in Hl as [Hx Hl]. cbn [fold_left]. apply IH; [done|]. by apply frozen_bind_store.
Qed.

Lemma frozen_resolve name ord b st : frozen m F st -> frozen m F (ln_resolve name ord b img st).2.
Proof. intros Hf. eapply frozen_keeps; [apply (keeps_resolve (fun _ => False)); by apply Hf|tauto|done]. Qed.

Lemma frozen_request x st : Forall (movable img textSeg segs m F) (request_pointers x) -> frozen m F st -> frozen m F (bind_request x st).
Proof.
  intros Hx Hf. unfold bind_request. pose proof (frozen_resolve (b_symbolName x.1) (b_ordinal x.1) false st Hf) as Hr.
  destruct (ln_resolve _ _ _ _ st) as [addr st']. cbn [snd] in Hr. by apply frozen_bind_all.
Qed.

Lemma bind_one_ok b st : frozen m F st -> movable img textSeg segs m F (b_segIndex b, b_segOffset b) ->
  bind_one img textSeg segs b st = Some (bind_request (b, [b_segOffset b]) st).
Proof.
  intros Hf Hm. unfold bind_one, bind_request. cbn [fst snd request_pointers map fold_left].
  pose proof (frozen_resolve (b_symbolName b) (b_ordinal b) false st Hf) as Hr. destruct (ln_resolve _ _ _ _ st) as [addr st']. cbn [snd] in Hr.
  by rewrite (location_now img textSeg segs m F location_frozen (b_segIndex b, b_segOffset b) st' Hr Hm : pointer_location _ _ _ _ (b_segIndex b) (b_segOffset b) = _).
Qed.

Lemma bind_store_offset b o addr loc st : bind_store (with_offset b o) addr loc st = bind_store b addr loc st.
Proof. done. Qed.

Lemma bind_times_ok count step b st : 0 <= count < 2 ^ 64 -> 0 <= b_segOffset b < 2 ^ 64 -> frozen m F st ->
  let offs := offsets (Z.to_nat count) (b_segOffset b) step in
  Forall (movable img textSeg segs m F) (request_pointers (b, offs)) ->
  bind_times img textSeg segs count step b st = Some (bind_request (b, offs) st, with_offset b (offset_after (Z.to_nat count) (b_segOffset b) step)).
Proof.
  intros Hc Hoff Hf offs Hm. unfold bind_times, bind_request. cbn [fst snd request_pointers] in *.
  pose proof (frozen_resolve (b_symbolName b) (b_ordinal b) false st Hf) as Hr. destruct (ln_resolve _ _ _ _ st) as [addr st1]. cbn [snd] in Hr.
  assert (Hgo : forall k j s o, Z.of_nat k = count - j -> 0 <= o < 2 ^ 64 -> frozen m F s ->
    Forall (movable img textSeg segs m F) (map (pair (b_segIndex b)) (offsets k o step)) ->
    runs (bind_times_step img textSeg segs count step addr) (S k) (j, s, with_offset b o) =
    inr (Some (fold_left (fun st p => bind_store b addr (location img textSeg segs m p) st) (map (pair (b_segIndex b)) (offsets k o step)) s,
               with_offset b (offset_after k o step)))).
  { induction k as [|k IH]; intros j s o Hk Ho Hs Hmk.
    - cbn [runs bind_times_step]. destruct (Z.ltb_spec j count); [lia|]. cbn. unfold offset_after. rewrite Z.add_0_r, wrap_small by done. done.
    - remember (S k) as k1. cbn [runs]. subst k1. cbn [bind_times_step]. destruct (Z.ltb_spec j count); [|lia]. cbn [offsets map] in Hmk.
      apply Forall_cons in Hmk as [Hx Hmk]. cbn [with_offset b_segIndex b_segOffset].
      rewrite (location_now img textSeg segs m F location_frozen (b_segIndex b, o) s Hs Hx : pointer_location _ _ _ _ (b_segIndex b) o = _).
      change (with_offset (with_offset b o) (o +64 step)) with (with_offset b (o +64 step)). rewrite bind_store_offset.
      rewrite IH; [|lia|apply wrap_64_range|by apply frozen_bind_store|done]. cbn [offsets map fold_left]. by rewrite offset_after_S. }
  pose proof (Hgo (Z.to_nat count) 0 st1 (b_segOffset b) ltac:(lia) Hoff Hr Hm) as Hg.
  replace (with_offset b (b_segOffset b)) with b in Hg by (by destruct b). rewrite (while_runs _ _ _ _ _ _ Hg); [done|unfold rounds64; lia].
Qed.

Lemma skip_name_ok mm e s : Forall (fun c => c <> 0) s -> forall k p, holds mm p (s ++ [0]) -> p + Z.of_nat (length s) < e -> (length s < k)%nat ->
  skip_name k mm p e = p + Z.of_nat (length s) + 1.
Proof.
  induction 1 as [|c s Hc Hs IH]; intros k p Hh He Hk; (destruct k as [|k]; [lia|]); cbn [skip_name app length] in *; apply holds_cons in Hh as [Hg Hh]; rewrite Hg;
    (destruct (Z.ltb_spec p e); [|lia]).
  - cbn [Z.eqb]. lia.
  - destruct (Z.eqb_spec c 0); [done|]. rewrite IH by (done || lia). lia.
Qed.

Definition bind_all (l : list (bind_state * list Z)) (st : St) : St := fold_left (fun st x => bind_request x st) l st.

Lemma frozen_bind_requests l : forall st, Forall (fun x => Forall (movable img textSeg segs m F) (request_pointers x)) l -> frozen m F st -> frozen m F (bind_all l st).
Proof.
  induction l as [|x l IH]; intros st Hl Hf; [done|]. apply Forall_cons in Hl as [Hx Hl]. cbn [bind_all fold_left]. apply IH; [done|]. by apply frozen_request.
Qed.

Lemma after_op_offset op b : 0 <= b_segOffset b < 2 ^ 64 -> (forall seg off, op = BSegment seg off -> 0 <= off < 2 ^ 64) -> 0 <= b_segOffset (after_op op b) < 2 ^ 64.
Proof. intros Hb Hop. destruct op; cbn [after_op b_segOffset with_offset]; try done; try apply wrap_64_range. by eapply Hop. Qed.

(** What one opcode has to do. *)
Definition bind_op_run (op : bind_op) (b : bind_state) (q : Z) (st : St) : option (St * Z * bind_state) :=
  Some (match op_binds op b with None => st | Some offs => bind_request (b, offs) st end, q, after_op op b).

Ltac bind_opcode k lo :=
  unfold bind_opcode;
  match goal with
  | Hf : frozen m F ?st, Hlt : ?p < ?e, HF : forall a, ?p <= a < ?e -> F a |- _ =>
      destruct (opcode_now m F p k lo st Hf (HF p ltac:(lia)) ltac:(lia) ltac:(lia) ltac:(lia)) as [-> ->];
      let v := eval vm_compute in (16 * k) in change (16 * k) with v; cbn [Z.eqb Pos.eqb]
  end.

Lemma special_ordinal i : 0 <= i < 16 -> (if i =? 0 then 0 else signed 8 (Z.lor 0xF0 i)) = if i =? 0 then 0 else i - 16.
Proof.
  intros Hi. destruct (Z.eqb_spec i 0); [done|]. change 0xF0 with (Z.shiftl 15 4). rewrite Z.lor_comm, lor_shiftl_add by lia. unfold signed.
  destruct (Z.ltb_spec (i + 2 ^ 4 * 15) (2 ^ (8 - 1))); lia.
Qed.

Lemma sleb_at_range mm p e v q : sleb_at mm p e v q -> p < q <= e.
Proof. intros (bs & _ & Hok & _ & _ & _ & -> & He). destruct bs; [done|]. cbn [length] in *. lia. Qed.

Lemma read_signed_now p e v q st : frozen m F st -> (forall a, p <= a < e -> F a) -> sleb_at m p e v q -> readSLEB128 (ln_mem st) p = Some (v, q).
Proof.
  intros [_ Hf] HF (bs & Hh & Hr). apply (readSLEB128_ok _ _ e). exists bs. split; [|done]. eapply holds_ext; [|exact Hh]. intros a Ha. apply Hf, HF.
  destruct Hr as (_ & _ & _ & _ & -> & He). lia.
Qed.

Lemma bind_opcode_ok e op ops p b st : frozen m F st -> (forall a, p <= a < e -> F a) -> bind_at m p e (op :: ops) -> 0 <= b_segOffset b < 2 ^ 64 ->
  (forall offs, op_binds op b = Some offs -> Forall (movable img textSeg segs m F) (request_pointers (b, offs))) ->
  exists q, bind_opcode img textSeg segs (p + 1) e (mget (ln_mem st) p) b st = bind_op_run op b q st /\ bind_at m q e ops /\ p < q /\
    0 <= b_segOffset (after_op op b) < 2 ^ 64.
Proof.
  intros Hf HF [Hlt Hop] Hb Hm.
  assert (Hoff : (forall seg off, op = BSegment seg off -> 0 <= off < 2 ^ 64) -> 0 <= b_segOffset (after_op op b) < 2 ^ 64) by apply after_op_offset, Hb.
  assert (Hoff' : (forall seg off, op <> BSegment seg off) -> 0 <= b_segOffset (after_op op b) < 2 ^ 64) by (intros Hn; apply Hoff; intros seg off E; by destruct (Hn seg off)).
  assert (HF1 : forall a, p + 1 <= a < e -> F a) by (intros; apply HF; lia).
  destruct op; cbn [op_binds] in Hm; decompose [and ex] Hop; uleb_facts.
  - exists (p + 1). bind_opcode 0 0. split_and!; try done; try lia; by apply Hoff'.
  - exists (p + 1). bind_opcode 1 i. split_and!; try done; try lia; by apply Hoff'.
  - exists x. bind_opcode 2 0. erewrite read_now by eassumption. split_and!; try done; try lia; by apply Hoff'.
  - exists (p + 1). bind_opcode 3 i. rewrite special_ordinal by lia. split_and!; try done; try lia; by apply Hoff'.
  - exists (p + 1 + Z.of_nat (length x) + 1). bind_opcode 4 flags. assert (Hhold : holds (ln_mem st) (p + 1) (x ++ [0])).
    { eapply holds_ext; [|eassumption]. intros a Ha. apply Hf, HF1. rewrite length_app in Ha. cbn [length] in Ha. lia. }
    rewrite (skip_name_ok _ e x) by (done || lia). subst name. split_and!; try done; try lia; by apply Hoff'.
  - exists (p + 1). bind_opcode 5 ty. split_and!; try done; try lia; by apply Hoff'.
  - exists x. match goal with Hs : sleb_at _ _ _ _ _ |- _ => pose proof (sleb_at_range _ _ _ _ _ Hs) end. bind_opcode 6 0.
    erewrite read_signed_now by eassumption. split_and!; try done; try lia; by apply Hoff'.
  - exists x. bind_opcode 7 seg. erewrite read_now by eassumption. split_and!; try done; try lia; apply Hoff; intros s o [= <- <-]; lia.
  - exists x. bind_opcode 8 0. erewrite read_now by eassumption. split_and!; try done; try lia; by apply Hoff'.
  - exists (p + 1). bind_opcode 9 0. specialize (Hm _ eq_refl). apply Forall_cons in Hm as [Hm _]. rewrite bind_one_ok by done. split_and!; try done; try lia; by apply Hoff'.
  - exists x. bind_opcode 10 0. specialize (Hm _ eq_refl). pose proof (frozen_request _ _ Hm Hf) as Hfr. apply Forall_cons in Hm as [Hm _]. rewrite bind_one_ok by done.
    erewrite read_now by eassumption. split_and!; try done; try lia; by apply Hoff'.
  - exists (p + 1). bind_opcode 11 k. specialize (Hm _ eq_refl). apply Forall_cons in Hm as [Hm _]. rewrite bind_one_ok by done. split_and!; try done; try lia; by apply Hoff'.
  - exists x0. bind_opcode 12 0. erewrite read_now by eassumption. erewrite read_now; [|done| |eassumption]; [|intros; apply HF; lia].
    rewrite bind_times_ok by (try apply Hm; done || lia). split_and!; try done; try lia; by apply Hoff'.
Qed.

Lemma bind_run e ops : forall st p cnt b, frozen m F st -> (forall a, p <= a < e -> F a) -> bind_at m p e ops -> 0 <= b_segOffset b < 2 ^ 64 ->
  0 <= cnt -> cnt + Z.of_nat (length ops) <= 1000000 ->
  Forall (fun x => Forall (movable img textSeg segs m F) (request_pointers x)) (bind_requests ops b) ->
  runs (bind_step img textSeg segs e) (S (length ops)) (st, p, cnt, b) = inr (Some (bind_all (bind_requests ops b) st)).
Proof.
  induction ops as [|op ops IH]; intros st p cnt b Hf HF Hat Hb Hc Hn Hm.
  { cbn [runs bind_step length]. cbn [bind_at] in Hat. by destruct (Z.ltb_spec p e); [lia|]. }
  pose proof Hat as [Hlt _]. cbn [bind_requests] in Hm.
  assert (Hmo : forall offs, op_binds op b = Some offs -> Forall (movable img textSeg segs m F) (request_pointers (b, offs))).
  { intros offs E. rewrite E in Hm. by apply Forall_cons in Hm as [Hm _]. }
  destruct (bind_opcode_ok e op ops p b st Hf HF Hat Hb Hmo) as (q & E & Hat' & Hq & Hb').
  cbn [length] in *. remember (S (length ops)) as k. cbn [runs]. subst k. unfold bind_step at 1. destruct (Z.ltb_spec p e); [|lia].
  destruct (Z.ltb_spec 1000000 (cnt + 1)); [lia|]. rewrite E. unfold bind_op_run. cbn [bind_requests].
  destruct (op_binds op b) as [offs|] eqn:Eo.
  - apply Forall_cons in Hm as [Hm1 Hm2]. rewrite IH; [done|by apply frozen_request|intros; apply HF; lia|done|done|lia|lia|done].
  - apply IH; [done|intros; apply HF; lia|done|done|lia|lia|done].
Qed.

(** The pointer a bind leaves: the address the symbol resolves to in [st], plus the
    addend; null if it is missing and weak; else the old value. *)
Definition bound (b : bind_state) (st : St) (old : Z) : Z :=
  let addr := (ln_resolve (b_symbolName b) (b_ordinal b) false img st).1 in
  if negb (addr =? 0) then addr +64 b_addend b
  else if negb (Z.land (b_symbolFlags b) BIND_SYMBOL_FLAGS_WEAK_IMPORT =? 0) then 0 else old.

Definition request_targets (x : bind_state * list Z) : list target := map (fun p => (location img textSeg segs m p, bound x.1)) (request_pointers x).

Definition request_locs (x : bind_state * list Z) : list Z := map (location img textSeg segs m) (request_pointers x).

Lemma in_request_targets x a : in_targets (request_targets x) a <-> in_pointers (request_locs x) a.
Proof.
  unfold in_targets, in_pointers, request_targets, request_locs. split.
  - intros (loc & v & Hin & Ha). apply list_elem_of_fmap in Hin as (p & [= -> ->] & Hp). eexists. split; [|exact Ha]. apply list_elem_of_fmap. by exists p.
  - intros (loc & Hin & Ha). apply list_elem_of_fmap in Hin as (p & -> & Hp). eexists _, _. split; [|exact Ha]. apply list_elem_of_fmap. by exists p.
Qed.

Lemma request_settled x st : ln_ok st -> apart (request_locs x) -> (forall a, in_pointers (request_locs x) a -> ln_linked st a) ->
  settled (request_targets x) st (bind_request x st).
Proof.
  intros Hw Ha Hl. unfold bind_request. pose proof (keeps_resolve (fun _ => False) (b_symbolName x.1) (b_ordinal x.1) false img st Hw) as Hk.
  assert (Eb : forall old, bound x.1 st old = let addr := (ln_resolve (b_symbolName x.1) (b_ordinal x.1) false img st).1 in
    if negb (addr =? 0) then addr +64 b_addend x.1 else if negb (Z.land (b_symbolFlags x.1) BIND_SYMBOL_FLAGS_WEAK_IMPORT =? 0) then 0 else old) by done.
  destruct (ln_resolve _ _ _ _ st) as [addr st1]. cbn [fst snd] in *.
  rewrite <- (fold_left_map (fun st loc => bind_store x.1 addr loc st) (location img textSeg segs m)). fold (request_locs x).
  assert (Hk' : forall T, keeps T st st1) by (intros T; by eapply keeps_weaken; [|exact Hk]).
  destruct (each_pointer (bound x.1 st) (bind_store x.1 addr) (request_locs x)) with (st := st1) as [Hkp Hv]; [|done|intros a Hin; by apply Hk, Hl|].
  { intros loc s. rewrite Eb. unfold bind_store. cbv zeta. destruct (negb (addr =? 0)).
    - split; [apply keeps_store|]. unfold store. rewrite ln_mem_set, mread_mwrite. apply Z.mod_small, wrap_64_range.
    - destruct (negb (Z.land _ _ =? 0)); [split; [apply keeps_store|]; unfold store; by rewrite ln_mem_set, mread_mwrite|].
      split; [apply keeps_report|]. unfold reportUnresolvedBind. case_match; [done|by rewrite ln_mem_logged]. }
  split.
  - eapply keeps_then; [apply Hk'|]. eapply keeps_weaken; [|exact Hkp]. intros a. apply in_request_targets.
  - intros loc v Hin. apply list_elem_of_fmap in Hin as (p & [= -> ->] & Hp). exists st. split; [apply keeps_refl|].
    assert (Hloc : location img textSeg segs m p ∈ request_locs x) by (apply list_elem_of_fmap; by exists p). rewrite Hv by done. f_equal.
    apply (keeps_read (fun _ => False)); [done|]. intros a Har. split; [|tauto]. apply Hl. by eexists.
Qed.

Lemma all_settled l : forall st, ln_ok st -> apart (concat (map request_locs l)) -> (forall a, in_pointers (concat (map request_locs l)) a -> ln_linked st a) ->
  settled (concat (map request_targets l)) st (bind_all l st).
Proof.
  induction l as [|x l IH]; intros st Hw Ha Hl; cbn [map concat bind_all fold_left]; [apply settled_nil, keeps_refl|].
  cbn [map concat] in Ha, Hl. apply apart_app in Ha as (Ha1 & Ha2 & Hd).
  assert (Hin : forall (l : list (bind_state * list Z)) a, in_targets (concat (map request_targets l)) a <-> in_pointers (concat (map request_locs l)) a).
  { clear. intros l a. induction l as [|x l IH]; cbn [map concat]; [split; [intros (? & ? & Hn & _)|intros (? & Hn & _)]; by apply elem_of_nil in Hn|].
    rewrite in_targets_app, IH, in_request_targets. unfold in_pointers. split.
    - intros [(loc & Hi & Hr)|(loc & Hi & Hr)]; exists loc; rewrite elem_of_app; tauto.
    - intros (loc & Hi & Hr). apply elem_of_app in Hi as [Hi|Hi]; [left|right]; by exists loc. }
  destruct (request_settled x st Hw Ha1) as [Hk1 Hv1]; [intros a (loc & Hi & Hr); apply Hl; exists loc; rewrite elem_of_app; tauto|].
  eapply settled_app; [by split|apply IH; [by apply Hk1|done|]| |].
  - intros a (loc & Hi & Hr). apply Hk1, Hl. exists loc. rewrite elem_of_app. tauto.
  - intros a Ha. apply (Hin (x :: l)) in Ha. by apply Hl.
  - intros a Hi1 Hi2. apply in_request_targets in Hi1. apply Hin in Hi2. destruct Hi1 as (u & Hu & Hur), Hi2 as (v & Hv & Hvr). destruct (Hd u v Hu Hv); lia.
Qed.

Lemma bind_request_cache x st : ln_ok st -> ln_cache (bind_request x st) = ln_cache st.
Proof.
  intros Hw. unfold bind_request. destruct (keeps_resolve (fun _ => False) (b_symbolName x.1) (b_ordinal x.1) false img st Hw) as (_ & Hc & _).
  destruct (ln_resolve _ _ _ _ st) as [addr st1]. cbn [snd] in Hc. rewrite <- Hc. generalize (request_pointers x). intros l. revert st1 Hc.
  induction l as [|p l IH]; intros st1 Hc; cbn [fold_left]; [done|]. assert (E : ln_cache (bind_store x.1 addr (location img textSeg segs m p) st1) = ln_cache st1).
  { unfold bind_store, store, reportUnresolvedBind. repeat case_match; by rewrite ?ln_cache_set, ?ln_cache_logged. }
  rewrite IH; congruence.
Qed.

Lemma bind_all_cache l : forall st, Forall (fun x => Forall (movable img textSeg segs m F) (request_pointers x)) l -> frozen m F st -> ln_cache (bind_all l st) = ln_cache st.
Proof.
  induction l as [|x l IH]; intros st Hl Hf; [done|]. apply Forall_cons in Hl as [Hx Hl]. cbn [bind_all fold_left]. unfold bind_all in IH.
  rewrite IH; [|done|by apply frozen_request]. apply bind_request_cache, Hf.
Qed.
End Binds.

(** ** Images with bind opcodes *)
Section BindImage.
Context {St : Type} `{LinkerLaws St}.

Lemma bind_command_other empty img c (s : St) : lc_cmd (ln_mem s) c <> LC_DYLD_INFO -> lc_cmd (ln_mem s) c <> LC_DYLD_INFO_ONLY -> bind_command empty img c s = inl s.
Proof.
  intros H1 H2. unfold bind_command. destruct (Z.eqb_spec (lc_cmd (ln_mem s) c) LC_DYLD_INFO); [done|].
  by destruct (Z.eqb_spec (lc_cmd (ln_mem s) c) LC_DYLD_INFO_ONLY).
Qed.

Definition bind_start (empty : Z) : bind_state := mkBind 0 0 empty 0 0 0.

Variables (empty : Z) (img : LoadedImage) (m : mem) (c : cache_state) (n textSeg linkSeg cmd : Z) (before after : list Z) (F : Z -> Prop).
Notation mh := (img_header img).
Notation lbase := (linkeditBaseForImage m c img textSeg linkSeg).
Notation segs := (segment_table m mh).
Hypothesis info : info_image m mh n textSeg linkSeg cmd before after.
Hypothesis lbase_nonzero : lbase <> 0.
Hypothesis header_frozen : forall a, in_header mh n a -> F a.

Lemma frozen_location : forall m', (forall a, F a -> mget m' a = mget m a) -> forall seg off,
  pointer_location m' img textSeg segs seg off = pointer_location m img textSeg segs seg off.
Proof using info header_frozen.
  intros m' Hm' seg off. apply (location_same m m' mh n textSeg linkSeg cmd before after info). intros a Ha. by apply Hm', header_frozen.
Qed.

Lemma frozen_header (st : St) : frozen m F st -> same_header m (ln_mem st) mh n.
Proof using header_frozen. intros [_ Hf] a Ha. by apply Hf, header_frozen. Qed.

Lemma bind_pass_ok off sz ops (st : St) : 0 <= sz < 2 ^ 32 -> frozen m F st -> ln_cache st = c ->
  let D := lbase +64 off in
  bind_at m D (D + sz) ops -> (forall a, in_range D (D + sz) a -> F a) -> Z.of_nat (length ops) <= 1000000 ->
  Forall (fun x => Forall (movable img textSeg segs m F) (request_pointers x)) (bind_requests ops (bind_start empty)) ->
  bind_pass empty img off sz st = Some (bind_all img textSeg segs m (bind_requests ops (bind_start empty)) st).
Proof using info lbase_nonzero header_frozen.
  intros Hsz Hf Hc D Hat HF Hlen Hm. pose proof (frozen_header st Hf) as Hs. unfold bind_pass. destruct (Z.eqb_spec sz 0) as [->|Hnz].
  { destruct ops as [|op ops]; [done|]. cbn [bind_at] in Hat. lia. }
  rewrite !(findSegment_same m _ mh n textSeg linkSeg cmd before after info Hs). pose proof info as (-> & -> & _).
  rewrite Hc, (linkeditBase_same m _ mh n textSeg linkSeg cmd before after info Hs) by done. destruct (Z.eqb_spec lbase 0); [done|]. fold D.
  rewrite (segment_table_same m _ mh n textSeg linkSeg cmd before after info Hs).
  apply (while_runs _ _ _ (S (length ops))); [|unfold rounds64; lia].
  apply (bind_run img textSeg segs m F frozen_location); done || lia.
Qed.

Lemma bind_command_ok ops0 ops1 (st : St) : ln_mem st = m -> ln_cache st = c -> ln_ok st -> (forall a, F a -> ln_linked st a) ->
  let D0 := lbase +64 di_bind_off m cmd in let e0 := D0 + di_bind_size m cmd in
  let D1 := lbase +64 di_lazy_bind_off m cmd in let e1 := D1 + di_lazy_bind_size m cmd in
  bind_at m D0 e0 ops0 -> bind_at m D1 e1 ops1 -> (forall a, in_range D0 e0 a \/ in_range D1 e1 a -> F a) ->
  Z.of_nat (length ops0) <= 1000000 -> Z.of_nat (length ops1) <= 1000000 ->
  let l := bind_requests ops0 (bind_start empty) ++ bind_requests ops1 (bind_start empty) in
  Forall (fun x => Forall (movable img textSeg segs m F) (request_pointers x)) l ->
  bind_command empty img cmd st = inl (bind_all img textSeg segs m l st) /\ frozen m F (bind_all img textSeg segs m l st).
Proof using info lbase_nonzero header_frozen.
  intros Em Ec Hw HF D0 e0 D1 e1 Hat0 Hat1 HFs Hl0 Hl1 l Hm. apply Forall_app in Hm as [Hm0 Hm1].
  assert (Hf : frozen m F st) by (split; [done|]; intros a Ha; rewrite Em; split; [by apply HF|done]).
  set (st1 := bind_all img textSeg segs m (bind_requests ops0 (bind_start empty)) st).
  assert (Hf1 : frozen m F st1) by (by apply frozen_bind_requests). pose proof (frozen_header st1 Hf1) as Hs1. pose proof info as (_ & _ & Hcin & Hcmds & Hcn & Hkind & _).
  assert (Hci : cmd ∈ commands m mh) by (rewrite Hcmds, elem_of_app, elem_of_cons; tauto). destruct (proj2 Hcin cmd Hci) as [Hc1 _].
  assert (Eall : bind_all img textSeg segs m l st = bind_all img textSeg segs m (bind_requests ops1 (bind_start empty)) st1) by (unfold bind_all, l; by rewrite fold_left_app).
  assert (Hr : forall k, 0 <= mread m k 4 < 2 ^ 32) by (intros k; rewrite <- Em; by apply (mread_range (ln_mem st) k 4), ln_ok_wf).
  split; [|rewrite Eall; by apply frozen_bind_requests]. unfold bind_command. rewrite Em.
  rewrite (proj2 (orb_true_iff _ _)) by (destruct Hkind as [-> | ->]; [left|right]; done).
  rewrite (bind_pass_ok _ _ ops0) by (done || apply Hr || (intros; apply HFs; by left)). fold st1.
  unfold di_lazy_bind_off, di_lazy_bind_size. rewrite !(same_header_read m (ln_mem st1) mh n) by (done || lia). fold (di_lazy_bind_off m cmd) (di_lazy_bind_size m cmd).
  rewrite (bind_pass_ok _ _ ops1); [by rewrite Eall|apply Hr|done| |done|intros; apply HFs; by right|done|done].
  unfold st1. by rewrite (bind_all_cache img textSeg segs m F).
Qed.
End BindImage.

(** ** What is applied *)

(** C30. When the rebase information of an image encodes a program, [applyRebases]
    runs it to its end: each pointer the program denotes is slid once, and no other
    byte of a loaded image changes. The pointers lie in segments of the image, do
    not overlap, and are not part of the header or of the program. *)
Theorem rebases_applied {St : Type} `{LinkerLaws St} (img : LoadedImage) (n textSeg linkSeg cmd : Z) (before after : list Z)
    (ops : list rebase_op) (st : St) :
  let m := ln_mem st in
  let lbase := linkeditBaseForImage m (ln_cache st) img textSeg linkSeg in
  let D := lbase +64 di_rebase_off m cmd in
  let e := D + di_rebase_size m cmd in
  let F a := in_header (img_header img) n a \/ in_range D e a in
  let segs := segment_table m (img_header img) in
  let pointers := rebase_pointers ops 0 0 in
  let locs := map (location img textSeg segs m) pointers in
  ln_ok st -> info_image m (img_header img) n textSeg linkSeg cmd before after -> lbase <> 0 -> di_rebase_size m cmd <> 0 ->
  rebase_at m D e ops -> (forall a, F a -> ln_linked st a) ->
  Forall (movable img textSeg segs m F) pointers -> apart locs -> (forall a, in_pointers locs a -> ln_linked st a) ->
  exists st', applyRebases img st = Some st' /\
    (forall loc, loc ∈ locs -> mread (ln_mem st') loc 8 = mread m loc 8 +64 img_slide img) /\
    (forall a, ln_linked st a -> ~ in_pointers locs a -> mget (ln_mem st') a = mget m a).
Proof.
  intros m lbase D e F segs pointers locs Hw Hinfo Hlb Hsz Hat HF Hm Ha Hl.
  pose proof (applyRebases_ok img n textSeg linkSeg cmd before after ops st Hw Hinfo Hlb Hsz Hat HF Hm) as E. eexists. split; [exact E|].
  destruct (slide_all_effect img textSeg segs m pointers st Ha Hl) as [(_ & _ & Hk) Hv]. split; [done|]. intros a Hla Hna. by destruct (Hk a Hla) as [_ [?|]].
Qed.

(** C31. When the bind and lazy bind information of an image encode programs,
    [applyBinds] runs both: each symbol is resolved once, in order, and each pointer
    it is bound to holds its address plus the addend, or null if it is missing and
    weak, or its old value if it is missing. No other byte of a loaded image
    changes. *)
Theorem binds_applied {St : Type} `{LinkerLaws St} (empty : Z) (img : LoadedImage) (n textSeg linkSeg cmd : Z) (before after : list Z)
    (ops0 ops1 : list bind_op) (st : St) :
  let m := ln_mem st in
  let lbase := linkeditBaseForImage m (ln_cache st) img textSeg linkSeg in
  let D0 := lbase +64 di_bind_off m cmd in let e0 := D0 + di_bind_size m cmd in
  let D1 := lbase +64 di_lazy_bind_off m cmd in let e1 := D1 + di_lazy_bind_size m cmd in
  let F a := in_header (img_header img) n a \/ in_range D0 e0 a \/ in_range D1 e1 a in
  let segs := segment_table m (img_header img) in
  let l := bind_requests ops0 (bind_start empty) ++ bind_requests ops1 (bind_start empty) in
  let locs := concat (map (request_locs img textSeg segs m) l) in
  let T := concat (map (request_targets img textSeg segs m) l) in
  ln_ok st -> info_image m (img_header img) n textSeg linkSeg cmd before after -> lbase <> 0 ->
  bind_at m D0 e0 ops0 -> bind_at m D1 e1 ops1 -> Z.of_nat (length ops0) <= 1000000 -> Z.of_nat (length ops1) <= 1000000 ->
  (forall a, F a -> ln_linked st a) -> Forall (fun x => Forall (movable img textSeg segs m F) (request_pointers x)) l ->
  apart locs -> (forall a, in_pointers locs a -> ln_linked st a) ->
  exists st', applyBinds empty img st = Some st' /\ st' = bind_all img textSeg segs m l st /\
    (forall loc v, (loc, v) ∈ T -> exists st1, keeps (in_targets T) st st1 /\ mread (ln_mem st') loc 8 = v st1 (mread m loc 8)) /\
    (forall a, ln_linked st a -> ~ in_targets T a -> mget (ln_mem st') a = mget m a).
Proof.
  intros m lbase D0 e0 D1 e1 F segs l locs T Hw Hinfo Hlb Hat0 Hat1 Hl0 Hl1 HF Hm Ha Hl.
  destruct (bind_command_ok empty img m (ln_cache st) n textSeg linkSeg cmd before after F Hinfo Hlb ltac:(intros; by left) ops0 ops1 st eq_refl eq_refl
    Hw HF Hat0 Hat1 ltac:(intros; by right) Hl0 Hl1 Hm) as [Ecmd Hf].
  destruct (all_settled img textSeg segs m l st Hw Ha Hl) as [(_ & _ & Hk) Hv]. exists (bind_all img textSeg segs m l st). split; [|split; [done|split; [done|]]].
  - unfold applyBinds. apply (one_info_command _ _ (img_header img) n textSeg linkSeg cmd before after); [done|done| |apply bind_command_other|done].
    intros a Hin. apply Hf. by left.
  - intros a Hla Hna. by destruct (Hk a Hla) as [_ [?|]].
Qed.

(** ** An example image

    A text segment at 0x10000, a data segment at 0x11000 whose first two words are
    to be slid and whose third is to be bound to [_a], and a link edit segment at
    0x12000 with the programs. *)
Definition opcode_mem : mem :=
  let segment m c name vmaddr :=
    mwrite (mwrite (mwrite (mwrite (mstore (mwrite (mwrite m c 4 25) (c + 4) 4 72) (c + 8) name) (c + 24) 8 vmaddr) (c + 32) 8 0x1000) (c + 40) 8 vmaddr) (c + 48) 8 0x1000 in
  let m := segment (segment (segment (mwrite (mwrite ∅ 0x10010 4 4) 0x10014 4 264) 0x10020 SEG_TEXT 0) 0x10068 [0x5f; 0x5f; 0x44; 0x41; 0x54; 0x41] 0x1000) 0x100b0 SEG_LINKEDIT 0x2000 in
  let m := mwrite (mwrite (mwrite (mwrite m 0x100f8 4 LC_DYLD_INFO_ONLY) 0x100fc 4 48) 0x10100 4 0x2000) 0x10104 4 5 in
  let m := mwrite (mwrite m 0x10108 4 0x2010) 0x1010c 4 10 in
  let m := mstore m 0x12000 [0x11; 0x21; 0; 0x52; 0] in
  let m := mstore m 0x12010 [0x11; 0x40; 0x5f; 0x61; 0; 0x51; 0x71; 0x10; 0x90; 0] in
  mwrite (mwrite m 0x11000 8 0x123) 0x11008 8 0x456.

Definition opcode_image : LoadedImage := mkImage 0 0x10000 0x10000 0 0 0 0 0.

#[local] Existing Instance one_symbol.
#[local] Existing Instance one_symbol_laws.

Lemma opcode_mem_wf : mem_wf opcode_mem.
Proof. unfold opcode_mem. eauto 60 with panthera. Qed.

Lemma opcode_image_ok : info_image opcode_mem 0x10000 296 0x10020 0x100b0 0x100f8 [0x10020; 0x10068; 0x100b0] [].
Proof.
  assert (E : commands opcode_mem 0x10000 = [0x10020; 0x10068; 0x100b0; 0x100f8]) by (vm_compute; reflexivity).
  split; [vm_compute; reflexivity|]. split; [vm_compute; reflexivity|]. split; [split; [lia|]|].
  { intros c Hc. rewrite E in Hc. repeat (apply elem_of_cons in Hc as [->|Hc]; [lia|]). destruct (proj1 (elem_of_nil _) Hc). }
  split; [exact E|]. split; [lia|]. split; [right; vm_compute; reflexivity|]. split.
  { intros c Hc. cbn [app] in Hc. repeat (apply elem_of_cons in Hc as [->|Hc]; [split; vm_compute; discriminate|]). destruct (proj1 (elem_of_nil _) Hc). }
  intros c Hc. rewrite E in Hc. repeat (apply elem_of_cons in Hc as [->|Hc];
    [intros Hs; vm_compute in Hs; first [discriminate Hs|clear Hs; split; [lia|exists 15; split; [lia|vm_compute; reflexivity]]]|]).
  destruct (proj1 (elem_of_nil _) Hc).
Qed.

Lemma uleb_byte m p e b q : 0 <= b < 128 -> mget m p = b -> p < e -> q = p + 1 -> uleb_at m p e b q.
Proof.
  intros Hb Hm He ->. exists [b]. split; [by rewrite holds_cons|]. cbn [length leb_ok leb_value]. 
  change 0x7f with (Z.ones 7). rewrite Z.land_ones, Z.mod_small by lia. repeat split; lia.
Qed.

Definition opcode_rebases : list rebase_op := [RSetType 1; RSetSegment 1 0; RTimesImm 2; RDone].
Definition opcode_binds : list bind_op := [BOrdinalImm 1; BSymbol 0 0x12012; BType 1; BSegment 1 0x10; BOne; BDone].

Lemma opcode_rebases_ok : rebase_at opcode_mem 0x12000 0x12005 opcode_rebases.
Proof.
  split; [lia|]. split; [lia|]. split; [vm_compute; reflexivity|]. split; [lia|]. split; [lia|]. split; [vm_compute; reflexivity|]. exists 0x12003.
  split; [apply uleb_byte; [lia|vm_compute; reflexivity|lia|lia]|]. split; [lia|]. split; [lia|]. split; [vm_compute; reflexivity|]. split; [lia|vm_compute; reflexivity].
Qed.

Lemma opcode_binds_ok : bind_at opcode_mem 0x12010 0x1201a opcode_binds.
Proof.
  split; [lia|]. split; [lia|]. split; [vm_compute; reflexivity|]. split; [lia|]. split; [lia|]. split; [vm_compute; reflexivity|]. split; [lia|].
  exists [0x5f; 0x61]. split; [repeat constructor; lia|]. split; [vm_compute; reflexivity|]. split; [cbn [length]; lia|].
  split; [cbn [length]; lia|]. split; [lia|]. split; [vm_compute; reflexivity|]. split; [cbn [length]; lia|]. split; [lia|]. split; [vm_compute; reflexivity|].
  exists 0x12018. split; [apply uleb_byte; [lia|vm_compute; reflexivity|cbn [length]; lia|cbn [length]; lia]|]. split; [lia|]. split; [vm_compute; reflexivity|].
  split; [lia|]. split; [vm_compute; reflexivity|cbn [bind_at]; lia].
Qed.

Lemma rebases_applied_witness :
  exists st', applyRebases opcode_image (opcode_mem, 0) = Some st' /\
    mread (ln_mem st') 0x11000 8 = 0x10123 /\ mread (ln_mem st') 0x11008 8 = 0x10456 /\ mget (ln_mem st') 0x11010 = mget opcode_mem 0x11010.
Proof.
  pose proof (rebases_applied opcode_image 296 0x10020 0x100b0 0x100f8 [0x10020; 0x10068; 0x100b0] [] opcode_rebases (opcode_mem, 0)) as Ht. cbv zeta in Ht.
  change (ln_mem (opcode_mem, 0)) with opcode_mem in Ht. change (ln_cache (opcode_mem, 0)) with no_cache in Ht.
  replace (linkeditBaseForImage opcode_mem no_cache opcode_image 0x10020 0x100b0) with 0x10000 in Ht by (vm_compute; reflexivity).
  replace (0x10000 +64 di_rebase_off opcode_mem 0x100f8) with 0x12000 in Ht by (vm_compute; reflexivity).
  replace (di_rebase_size opcode_mem 0x100f8) with 5 in Ht by (vm_compute; reflexivity).
  change (rebase_pointers opcode_rebases 0 0) with [(1, 0); (1, 8)] in Ht.
  change (img_header opcode_image) with 0x10000 in Ht. change (img_slide opcode_image) with 0x10000 in Ht.
  assert (Es : segment_table opcode_mem 0x10000 = [0x10020; 0x10068; 0x100b0]) by (vm_compute; reflexivity). rewrite Es in Ht.
  assert (E0 : pointer_location opcode_mem opcode_image 0x10020 [0x10020; 0x10068; 0x100b0] 1 0 = Some 0x11000) by (vm_compute; reflexivity).
  assert (E1 : pointer_location opcode_mem opcode_image 0x10020 [0x10020; 0x10068; 0x100b0] 1 8 = Some 0x11008) by (vm_compute; reflexivity).
  cbn [map] in Ht. unfold location in Ht. cbn [fst snd] in Ht. rewrite E0, E1 in Ht. cbn [default from_option id] in Ht.
  destruct Ht as (st' & E & Hv & Hk).
  - exact opcode_mem_wf.
  - exact opcode_image_ok.
  - lia.
  - lia.
  - exact opcode_rebases_ok.
  - intros a _. exact I.
  - constructor; [exists 0x11000; split; [exact E0|]|constructor; [exists 0x11008; split; [exact E1|]|constructor]]; intros a Ha [Hb|Hb]; unfold in_header, in_range in Hb; lia.
  - intros [|[|i]] [|[|j]] a b Ha Hb Hij; try discriminate Ha; try discriminate Hb; try injection Ha as <-; try injection Hb as <-; lia.
  - intros a _. exact I.
  - exists st'. split; [exact E|]. rewrite (Hv 0x11000) by left. rewrite (Hv 0x11008) by (right; left). split; [vm_compute; reflexivity|]. split; [vm_compute; reflexivity|].
    apply Hk; [exact I|]. intros (loc & Hin & Ha). repeat (apply elem_of_cons in Hin as [->|Hin]; [lia|]). destruct (proj1 (elem_of_nil _) Hin).
Defined.

Lemma binds_applied_witness :
  exists st', applyBinds 0x900 opcode_image (opcode_mem, 0) = Some st' /\
    mread (ln_mem st') 0x11010 8 = 0x7000 /\ mget (ln_mem st') 0x11008 = mget opcode_mem 0x11008.
Proof.
  pose proof (binds_applied 0x900 opcode_image 296 0x10020 0x100b0 0x100f8 [0x10020; 0x10068; 0x100b0] [] opcode_binds [] (opcode_mem, 0)) as Ht. cbv zeta in Ht.
  change (ln_mem (opcode_mem, 0)) with opcode_mem in Ht. change (ln_cache (opcode_mem, 0)) with no_cache in Ht.
  replace (linkeditBaseForImage opcode_mem no_cache opcode_image 0x10020 0x100b0) with 0x10000 in Ht by (vm_compute; reflexivity).
  replace (0x10000 +64 di_bind_off opcode_mem 0x100f8) with 0x12010 in Ht by (vm_compute; reflexivity).
  replace (di_bind_size opcode_mem 0x100f8) with 10 in Ht by (vm_compute; reflexivity).
  replace (0x10000 +64 di_lazy_bind_off opcode_mem 0x100f8) with 0x10000 in Ht by (vm_compute; reflexivity).
  replace (di_lazy_bind_size opcode_mem 0x100f8) with 0 in Ht by (vm_compute; reflexivity).
  change (bind_requests opcode_binds (bind_start 0x900) ++ bind_requests [] (bind_start 0x900)) with [(mkBind 1 16 0x12012 0 0 1, [16])] in Ht.
  change (img_header opcode_image) with 0x10000 in Ht.
  assert (Es : segment_table opcode_mem 0x10000 = [0x10020; 0x10068; 0x100b0]) by (vm_compute; reflexivity). rewrite Es in Ht.
  assert (E0 : pointer_location opcode_mem opcode_image 0x10020 [0x10020; 0x10068; 0x100b0] 1 16 = Some 0x11010) by (vm_compute; reflexivity).
  unfold request_targets, request_locs, request_pointers, location in Ht. cbn [map fst snd concat app b_segIndex] in Ht. rewrite E0 in Ht.
  cbn [default from_option id] in Ht.
  destruct Ht as (st' & E & _ & Hv & Hk).
  - exact opcode_mem_wf.
  - exact opcode_image_ok.
  - lia.
  - exact opcode_binds_ok.
  - cbn [bind_at]. lia.
  - cbn [opcode_binds length]. lia.
  - cbn [length]. lia.
  - intros a _. exact I.
  - constructor; [|constructor]. constructor; [|constructor]. exists 0x11010. split; [exact E0|]. intros a Ha [Hb|[Hb|Hb]]; unfold in_header, in_range in Hb; lia.
  - intros [|i] [|j] a b Ha Hb Hij; try discriminate Ha; try discriminate Hb; lia.
  - intros a _. exact I.
  - exists st'. split; [exact E|]. split.
    + destruct (Hv 0x11010 _ ltac:(left)) as (st1 & (_ & _ & Hst) & ->).
      assert (En : cstr st1.1 0x12012 = cstr opcode_mem 0x12012).
      { apply (cstr_same _ _ _ 2); [lia|vm_compute; reflexivity|]. intros a Ha.
        destruct (Hst a I) as [_ [(loc & v & Hin & Hr)|Eg]]; [|exact Eg]. apply list_elem_of_singleton in Hin. injection Hin as -> _. lia. }
      unfold bound. change (ln_resolve _ _ _ _ st1).1 with (if decide (cstr st1.1 0x12012 = [0x5f; 0x61]) then 0x7000 else 0).
      rewrite En. vm_compute. reflexivity.
    + apply Hk; [exact I|]. intros (loc & v & Hin & Hr). apply list_elem_of_singleton in Hin. injection Hin as -> _. lia.
Defined.
