(* ===== verification/Dyld.v ===== *)
(** * The state of dyld and its system calls: userland/dyld/panthera_dyld.cpp

    The kernel is a class: its calls act on a state of their own and give the bytes
    they put into the process's memory. The state of dyld is that memory and its
    globals. This file has
    the string and memory helpers, reading of files, and the lookups of images in
    the table and in the shared cache. *)

From Stdlib Require Import ZArith Lia Ascii String.
From stdpp Require Import base list gmap.
From S2P Require Import Prelude Words Runs DyldImage SymbolIndex MachImage.

Open Scope Z_scope.

(** ** System calls

    The results are those of [_syscall]: negative on failure. [k_read] and [k_mmap]
    also give the bytes that appear in memory. *)
Class Kernel (K : Type) := {
  k_open : list Z -> K -> Z * K;                                        (* path *)
  k_close : Z -> K -> K;                                                (* fd *)
  k_fstat : Z -> K -> Z * Z * K;                                        (* fd; result, st_size *)
  k_lseek : Z -> Z -> K -> Z * K;                                       (* fd, offset *)
  k_read : Z -> Z -> K -> Z * list Z * K;                               (* fd, count *)
  k_mmap : Z -> Z -> Z -> Z -> Z -> Z -> K -> Z * list Z * K;           (* addr, len, prot, flags, fd, offset *)
  k_munmap : Z -> Z -> K -> K;                                          (* addr, len *)
  k_mprotect : Z -> Z -> Z -> K -> Z * K }.                             (* addr, len, prot *)

Definition MAP_PRIVATE : Z := 0x2.
Definition MAP_FIXED : Z := 0x10.
Definition MAP_ANON : Z := 0x1000.

(** Where dyld's own objects are. *)
Class Layout := {
  sImages : Z;
  panthera_ttyname_shim : Z;
  panthera_ttyname_r_shim : Z }.

Record dyld (K : Type) := mkDyld {
  d_mem : mem;
  d_cache : cache_state;
  d_images : list LoadedImage;         (* sImages, up to sNumImages *)
  d_index : symbol_index;
  d_logged : Z;                        (* sUnresolvedBindLogCount *)
  d_refused : bool;                    (* a system call has failed *)
  d_kernel : K }.
Arguments mkDyld {K}.
Arguments d_mem {K}.
Arguments d_cache {K}.
Arguments d_images {K}.
Arguments d_index {K}.
Arguments d_logged {K}.
Arguments d_refused {K}.
Arguments d_kernel {K}.

(** ** Strings *)

(** [while (i < bMax && a[i] && b[i] && a[i] == b[i]) i++] and the test after it; [n]
    is [bMax - i]. *)
Fixpoint streq_from (n : nat) (m : mem) (a b : Z) : bool :=
  match n with
  | O => false
  | S n =>
      if negb (mget m a =? 0) && negb (mget m b =? 0) && (mget m a =? mget m b) then streq_from n m (a + 1) (b + 1)
      else (mget m a =? 0) && (mget m b =? 0)
  end.

Definition _streq_bounded (m : mem) (a b bMax : Z) : bool :=
  if (a =? 0) || (b =? 0) then false else streq_from (Z.to_nat bMax) m a b.

(** What follows the last slash. *)
Fixpoint basename_from (base path : list Z) : list Z :=
  match path with
  | [] => base
  | c :: path => basename_from (if c =? ch "/" then path else base) path
  end.

Definition _basename (path : list Z) : list Z := basename_from path path.

(** ** Copying

    Bytes until both pointers are aligned, words, and the bytes that are left. *)
Fixpoint copy_bytes (n : nat) (m : mem) (d s : Z) : mem :=
  match n with
  | O => m
  | S n => copy_bytes n (mput m d (mget m s)) (d + 1) (s + 1)
  end.

Fixpoint copy_words (n : nat) (m : mem) (d s : Z) : mem :=
  match n with
  | O => m
  | S n => copy_words n (mwrite m d 8 (mread m s 8)) (d + 8) (s + 8)
  end.

(** The number of bytes the first loop copies. *)
Fixpoint head_bytes (n : nat) (d s : Z) : nat :=
  match n with
  | O => O
  | S n => if Z.land (Z.lor d s) 7 =? 0 then O else S (head_bytes n (d + 1) (s + 1))
  end.

Definition _memcpy (m : mem) (dst src n : Z) : mem :=
  let h := head_bytes (Z.to_nat n) dst src in
  let m := copy_bytes h m dst src in
  let d := dst + Z.of_nat h in
  let s := src + Z.of_nat h in
  let n := n - Z.of_nat h in
  let w := Z.to_nat (n / 8) in
  let m := copy_words w m d s in
  copy_bytes (Z.to_nat (n mod 8)) m (d + 8 * Z.of_nat w) (s + 8 * Z.of_nat w).

Definition _memset (m : mem) (s c n : Z) : mem := mstore m s (replicate (Z.to_nat n) (wrap 8 c)).

Section Calls.
Context {K : Type} `{Kernel K}.

Definition set_mem (m : mem) (st : dyld K) : dyld K :=
  mkDyld m (d_cache st) (d_images st) (d_index st) (d_logged st) (d_refused st) (d_kernel st).
Definition set_cache (c : cache_state) (st : dyld K) : dyld K :=
  mkDyld (d_mem st) c (d_images st) (d_index st) (d_logged st) (d_refused st) (d_kernel st).
Definition set_images (l : list LoadedImage) (st : dyld K) : dyld K :=
  mkDyld (d_mem st) (d_cache st) l (d_index st) (d_logged st) (d_refused st) (d_kernel st).
Definition set_index (i : symbol_index) (st : dyld K) : dyld K :=
  mkDyld (d_mem st) (d_cache st) (d_images st) i (d_logged st) (d_refused st) (d_kernel st).
Definition set_logged (n : Z) (st : dyld K) : dyld K :=
  mkDyld (d_mem st) (d_cache st) (d_images st) (d_index st) n (d_refused st) (d_kernel st).
Definition set_kernel (k : K) (failed : bool) (st : dyld K) : dyld K :=
  mkDyld (d_mem st) (d_cache st) (d_images st) (d_index st) (d_logged st) (d_refused st || failed) k.

(** ** System calls of dyld *)
Definition refused (r : Z) : bool := r <? 0.

Definition open_path (path : list Z) (st : dyld K) : Z * dyld K :=
  let '(r, k) := k_open path (d_kernel st) in
  let fd := signed 32 (wrap 32 r) in
  (fd, set_kernel k (refused fd) st).

Definition sys_open (path : Z) (st : dyld K) : Z * dyld K := open_path (cstr (d_mem st) path) st.

Definition sys_close (fd : Z) (st : dyld K) : dyld K := set_kernel (k_close fd (d_kernel st)) false st.

Definition sys_fstat (fd : Z) (st : dyld K) : Z * Z * dyld K :=
  let '(r, size, k) := k_fstat fd (d_kernel st) in (r, size, set_kernel k (refused r) st).

Definition sys_lseek (fd offset : Z) (st : dyld K) : Z * dyld K :=
  let '(r, k) := k_lseek fd offset (d_kernel st) in (r, set_kernel k (refused r) st).

Definition sys_read (fd buf n : Z) (st : dyld K) : Z * dyld K :=
  let '(r, bs, k) := k_read fd n (d_kernel st) in (r, set_kernel k (refused r) (set_mem (mstore (d_mem st) buf bs) st)).

Definition sys_mmap (addr len prot flags fd offset : Z) (st : dyld K) : Z * dyld K :=
  let '(r, bs, k) := k_mmap addr len prot flags fd offset (d_kernel st) in
  (r, set_kernel k (refused r) (if r <? 0 then st else set_mem (mstore (d_mem st) r bs) st)).

Definition sys_munmap (addr len : Z) (st : dyld K) : dyld K := set_kernel (k_munmap addr len (d_kernel st)) false st.

Definition sys_mprotect (addr len prot : Z) (st : dyld K) : Z * dyld K :=
  let '(r, k) := k_mprotect addr len prot (d_kernel st) in (r, set_kernel k (refused r) st).

(** ** Reading files *)
Definition read_step (fd : Z) (s : dyld K * Z * Z) : (dyld K * Z * Z) + (bool * dyld K) :=
  let '(st, readPtr, remaining) := s in
  if 0 <? remaining then
    let want := if 64 * 1024 <? remaining then 64 * 1024 else remaining in
    let '(chunk, st) := sys_read fd readPtr want st in
    if chunk <=? 0 then inr (false, st) else inl (st, readPtr + chunk, remaining - chunk)
  else inr (true, st).

Definition readFileFully (fd buffer size : Z) (st : dyld K) : bool * dyld K :=
  while rounds64 (false, st) (read_step fd) (st, buffer, size).

Definition readFileFullyAt (fd offset buffer size : Z) (st : dyld K) : bool * dyld K :=
  let '(r, st) := sys_lseek fd offset st in
  if r <? 0 then (false, st) else readFileFully fd buffer size st.

(** ** The table of images *)
Definition image_path (st : dyld K) (img : LoadedImage) : list Z := cstr (d_mem st) (img_path img).

Definition findLoadedImageByPath (path : Z) (st : dyld K) : option LoadedImage :=
  if path =? 0 then None
  else
    let p := cstr (d_mem st) path in
    match List.find (fun img => negb (img_path img =? 0) && (_strcmp (image_path st img) p =? 0)) (d_images st) with
    | Some img => Some img
    | None =>
        let wantBase := _basename p in
        List.find (fun img => negb (img_path img =? 0) && (_strcmp (_basename (image_path st img)) wantBase =? 0)) (d_images st)
    end.

Definition findLoadedImageByPathBounded (path maxLen : Z) (st : dyld K) : option LoadedImage :=
  if (path =? 0) || (maxLen =? 0) then None
  else List.find (fun img => negb (img_path img =? 0) && _streq_bounded (d_mem st) (img_path img) path maxLen) (d_images st).

(** ** PantheraCacheImageInfo *)
Definition sizeof_PantheraCacheImageInfo : Z := 32.
Definition ii_address (m : mem) (a : Z) : Z := mread m a 8.
Definition ii_pathFileOffset (m : mem) (a : Z) : Z := mread m (a + 24) 4.

(** [sCacheImages[i]]. *)
Definition cache_image (c : cache_state) (i : Z) : Z := sCacheImages c + i * sizeof_PantheraCacheImageInfo.

(** One round of the search: [None] goes on. *)
Definition cache_candidate (m : mem) (c : cache_state) (p : list Z) (i : Z) : option (Z * Z) :=
  let imgPath := cstr m (sCacheMap c + ii_pathFileOffset m (cache_image c i)) in
  if (_strcmp imgPath p =? 0) || (_strcmp (_basename imgPath) (_basename p) =? 0) then
    let address := ii_address m (cache_image c i) in
    let next := ii_address m (cache_image c (i + 1)) in
    if sCacheSplitRegion c then
      let textEnd := sCacheTextAddr c +64 sCacheTextSize c in
      if (address <? sCacheTextAddr c) || (textEnd <=? address) then None
      else
        let nextAddr := if (i + 1 <? sCacheImageCount c) && (address <? next) && (next <=? textEnd) then next else textEnd in
        Some (address +64 sCacheSlide c, nextAddr - address)
    else
      let fileOff := address -64 sCacheBase c in
      if sCacheFileSize c <=? fileOff then None
      else
        let n := next -64 sCacheBase c in
        let nextOff := if (i + 1 <? sCacheImageCount c) && (fileOff <? n) && (n <=? sCacheFileSize c) then n else sCacheFileSize c in
        Some (sCacheMap c + fileOff, nextOff - fileOff)
  else None.

(** The address and the size of the image in the cache. *)
Fixpoint search_cache (n : nat) (m : mem) (c : cache_state) (p : list Z) (i : Z) : option (Z * Z) :=
  match n with
  | O => None
  | S n => match cache_candidate m c p i with Some r => Some r | None => search_cache n m c p (i + 1) end
  end.

Definition findDylibInCache (m : mem) (c : cache_state) (path : Z) : option (Z * Z) :=
  if sCacheValid c then search_cache (Z.to_nat (sCacheImageCount c)) m c (cstr m path) 0 else None.
End Calls.
