(* ===== verification/DyldKernel.v ===== *)
(** * What dyld relies on of the kernel: userland/dyld/panthera_dyld.cpp

    The laws of the system calls, stated on what the kernel knows: the files, the
    open descriptors with their positions, and the addresses in use. From them the
    effect of every call on the state of dyld, of [_memcpy] and of [readFileFully]. *)

From Stdlib Require Import ZArith Lia.
From stdpp Require Import base list gmap.
From S2P Require Import Prelude Words Runs DyldImage SymbolIndex MachImage Linker Dyld.

Open Scope Z_scope.

(** A file as a memory that starts at address 0. *)
Definition fmem (bs : list Z) : mem := mstore ∅ 0 bs.

Definition in_pages (r len a : Z) : Prop := r <= a < r + pageRoundUp len.

(** [n] bytes of a file, with zeros after its end. *)
Definition file_bytes (bs : list Z) (off n : Z) : list Z := mbytes (fmem bs) off (Z.to_nat n).

Class KernelLaws (K : Type) `{Kernel K} := {
  k_files : K -> list Z -> option (list Z);
  k_fds : K -> gmap Z (list Z * Z);
  k_used : K -> Z -> Prop;
  k_files_ok : forall k p bs, k_files k p = Some bs -> Forall byte bs /\ Z.of_nat (length bs) < 2 ^ 62;
  open_law : forall p k, let '(r, k') := k_open p k in
    k_files k' = k_files k /\ k_used k' = k_used k /\ - 2 ^ 31 <= r < 2 ^ 31 /\
    (r < 0 /\ k_fds k' = k_fds k \/
     0 <= r /\ k_fds k !! r = None /\ exists bs, k_files k p = Some bs /\ k_fds k' = <[r := (bs, 0)]> (k_fds k));
  close_law : forall fd k, let k' := k_close fd k in
    k_files k' = k_files k /\ k_used k' = k_used k /\ k_fds k' = delete fd (k_fds k);
  fstat_law : forall fd k, let '(r, size, k') := k_fstat fd k in
    k_files k' = k_files k /\ k_used k' = k_used k /\ k_fds k' = k_fds k /\
    (0 <= r -> exists bs off, k_fds k !! fd = Some (bs, off) /\ size = Z.of_nat (length bs));
  lseek_law : forall fd off k, 0 <= off -> let '(r, k') := k_lseek fd off k in
    k_files k' = k_files k /\ k_used k' = k_used k /\
    (r < 0 /\ k_fds k' = k_fds k \/ 0 <= r /\ exists bs pos, k_fds k !! fd = Some (bs, pos) /\ k_fds k' = <[fd := (bs, off)]> (k_fds k));
  read_law : forall fd n k, 0 < n -> let '(r, out, k') := k_read fd n k in
    k_files k' = k_files k /\ k_used k' = k_used k /\
    (r < 0 /\ out = [] /\ k_fds k' = k_fds k \/
     exists bs off, k_fds k !! fd = Some (bs, off) /\ 0 <= r <= n /\ (r = 0 -> Z.of_nat (length bs) <= off) /\
       out = file_bytes bs off r /\ (0 < r -> off + r <= Z.of_nat (length bs)) /\ k_fds k' = <[fd := (bs, off + r)]> (k_fds k));
  mmap_anon_law : forall len prot k, 0 <= len -> let '(r, out, k') := k_mmap 0 len prot (Z.lor MAP_PRIVATE MAP_ANON) (-1) 0 k in
    k_files k' = k_files k /\ k_fds k' = k_fds k /\
    (r < 0 /\ k_used k' = k_used k \/
     0 < r /\ Z.land r 0xfff = 0 /\ r + pageRoundUp len < 2 ^ 62 /\ (forall a, in_pages r len a -> ~ k_used k a) /\
     out = repeat 0 (Z.to_nat (pageRoundUp len)) /\ forall a, k_used k' a <-> k_used k a \/ in_pages r len a);
  mmap_file_law : forall addr len prot fd off k, 0 <= len -> 0 <= off -> Z.land len 0xfff = 0 -> Z.land off 0xfff = 0 -> Z.land addr 0xfff = 0 ->
    0 < addr -> (forall a, addr <= a < addr + len -> k_used k a) ->
    let '(r, out, k') := k_mmap addr len prot (Z.lor MAP_PRIVATE MAP_FIXED) fd off k in
    k_files k' = k_files k /\ k_fds k' = k_fds k /\ k_used k' = k_used k /\
    (r < 0 \/ r = addr /\ exists bs pos, k_fds k !! fd = Some (bs, pos) /\ out = file_bytes bs off len);
  mmap_fixed_law : forall addr len prot fd off k, 0 <= len -> 0 <= off -> Z.land off 0xfff = 0 -> Z.land addr 0xfff = 0 -> 0 < addr ->
    let '(r, out, k') := k_mmap addr len prot (Z.lor MAP_PRIVATE MAP_FIXED) fd off k in
    k_files k' = k_files k /\ k_fds k' = k_fds k /\
    (r < 0 /\ k_used k' = k_used k \/
     r = addr /\ (exists bs pos, k_fds k !! fd = Some (bs, pos) /\ out = file_bytes bs off (pageRoundUp len)) /\
     forall a, k_used k' a <-> k_used k a \/ in_pages addr len a);
  mmap_private_law : forall len prot fd k, 0 <= len -> let '(r, out, k') := k_mmap 0 len prot MAP_PRIVATE fd 0 k in
    k_files k' = k_files k /\ k_fds k' = k_fds k /\
    (r < 0 /\ k_used k' = k_used k \/
     0 < r /\ Z.land r 0xfff = 0 /\ r + pageRoundUp len < 2 ^ 62 /\ (forall a, in_pages r len a -> ~ k_used k a) /\
     (exists bs pos, k_fds k !! fd = Some (bs, pos) /\ out = file_bytes bs 0 (pageRoundUp len)) /\
     forall a, k_used k' a <-> k_used k a \/ in_pages r len a);
  munmap_law : forall addr len k, let k' := k_munmap addr len k in
    k_files k' = k_files k /\ k_fds k' = k_fds k /\ forall a, k_used k' a <-> k_used k a /\ ~ in_pages addr len a;
  mprotect_law : forall addr len prot k, let '(_, k') := k_mprotect addr len prot k in
    k_files k' = k_files k /\ k_fds k' = k_fds k /\ k_used k' = k_used k }.

(** ** Memory *)
Lemma mget_mstore m a bs b : Forall byte bs -> mget (mstore m a bs) b =
  if decide (a <= b < a + Z.of_nat (length bs)) then default 0 (bs !! Z.to_nat (b - a)) else mget m b.
Proof.
  intros Hb. case_decide as Hin; [|apply mget_mstore_out; lia].
  assert (E : mbytes (mstore m a bs) a (length bs) = bs) by (by apply mbytes_mstore).
  assert (Hl : mbytes (mstore m a bs) a (length bs) !! Z.to_nat (b - a) = Some (mget (mstore m a bs) b)).
  { rewrite mbytes_get by lia. do 2 f_equal. lia. }
  rewrite E in Hl. by rewrite Hl.
Qed.

Lemma mget_fmem bs i : Forall byte bs -> mget (fmem bs) i = if decide (0 <= i < Z.of_nat (length bs)) then default 0 (bs !! Z.to_nat i) else 0.
Proof. intros Hb. unfold fmem. rewrite mget_mstore, Z.sub_0_r, Z.add_0_l by done. case_decide; [done|]. unfold mget. by rewrite lookup_empty. Qed.

Lemma fmem_wf bs : mem_wf (fmem bs).
Proof. apply mem_wf_mstore, mem_wf_empty. Qed.

Lemma mbytes_byte m a n : mem_wf m -> Forall byte (mbytes m a n).
Proof. intros Hw. revert a. induction n; intros a; cbn [mbytes]; constructor; [apply Hw|done]. Qed.

Lemma file_bytes_byte bs off n : Forall byte (file_bytes bs off n).
Proof. apply mbytes_byte, fmem_wf. Qed.

Lemma file_bytes_get bs off n i : 0 <= i < n -> default 0 (file_bytes bs off n !! Z.to_nat i) = mget (fmem bs) (off + i).
Proof. intros Hi. unfold file_bytes. rewrite mbytes_get by lia. cbn. f_equal. lia. Qed.

Lemma pageRoundUp_le n : 0 <= n < 2 ^ 63 -> n <= pageRoundUp n < n + 0x1000 /\ (Z.land n 0xfff = 0 -> pageRoundUp n = n).
Proof.
  intros Hn. unfold pageRoundUp. rewrite wrap_small by lia. change 0xfff with (Z.ones 12). rewrite !Z.ldiff_ones_r, !Z.shiftr_div_pow2, !Z.shiftl_mul_pow2 by lia.
  rewrite Z.land_ones by lia. change (2 ^ 12) with 4096. change (Z.ones 12) with 4095.
  pose proof (Z.div_mod (n + 4095) 4096 ltac:(lia)). pose proof (Z.mod_pos_bound (n + 4095) 4096 ltac:(lia)). split; [lia|].
  intros Hm. pose proof (Z.div_mod n 4096 ltac:(lia)). replace (n + 4095) with (4095 + (n / 4096) * 4096) by lia. rewrite Z.div_add by lia. change (4095 / 4096) with 0. lia.
Qed.

(** ** Copying *)
Definition disjoint (a n b k : Z) : Prop := a + n <= b \/ b + k <= a.

Lemma copy_bytes_ok n : forall m d s a, mem_wf m -> disjoint d (Z.of_nat n) s (Z.of_nat n) ->
  mget (copy_bytes n m d s) a = if decide (d <= a < d + Z.of_nat n) then mget m (s + (a - d)) else mget m a.
Proof.
  induction n as [|n IH]; intros m d s a Hw Hd; cbn [copy_bytes]; [by case_decide; [lia|]|].
  rewrite IH; [|by apply mem_wf_mput|unfold disjoint in *; lia]. rewrite !mget_mput. unfold disjoint in Hd.
  assert (Hv : mget m s mod 256 = mget m s) by (apply Z.mod_small, Hw).
  repeat case_decide; try lia; subst; try (f_equal; lia). rewrite Hv. f_equal. lia.
Qed.

Lemma copy_words_ok n : forall m d s a, mem_wf m -> disjoint d (8 * Z.of_nat n) s (8 * Z.of_nat n) ->
  mget (copy_words n m d s) a = if decide (d <= a < d + 8 * Z.of_nat n) then mget m (s + (a - d)) else mget m a.
Proof.
  induction n as [|n IH]; intros m d s a Hw Hd; cbn [copy_words]; [by case_decide; [lia|]|].
  rewrite IH; [|by apply mem_wf_mwrite|unfold disjoint in *; lia]. unfold disjoint in Hd.
  assert (Hin : forall i, (i < 8)%nat -> mget (mwrite m d 8 (mread m s 8)) (d + Z.of_nat i) = mget m (s + Z.of_nat i)).
  { intros i Hi. rewrite !(mget_mread _ _ 8) by (done || apply mem_wf_mwrite, Hw). rewrite mread_mwrite. f_equal. f_equal. apply Z.mod_small, (mread_range m s 8 Hw). }
  assert (Hout : forall b, b < d \/ d + 8 <= b -> mget (mwrite m d 8 (mread m s 8)) b = mget m b) by (intros b Hb; apply mget_mwrite_out; lia).
  repeat case_decide; try lia.
  - rewrite Hout by lia. f_equal. lia.
  - specialize (Hin (Z.to_nat (a - d)) ltac:(lia)). rewrite Z2Nat.id in Hin by lia. replace (d + (a - d)) with a in Hin by lia. done.
  - apply Hout. lia.
Qed.

(** [m'] is [m] with [f 0], [f 1], ... at [a], [n] bytes in all. *)
Definition filled (m m' : mem) (a n : Z) (f : Z -> Z) : Prop :=
  forall b, mget m' b = if decide (a <= b < a + n) then f (b - a) else mget m b.

Lemma filled_in m m' a n f b : filled m m' a n f -> a <= b < a + n -> mget m' b = f (b - a).
Proof. intros Hf Hb. rewrite Hf. by rewrite decide_True. Qed.

Lemma filled_out m m' a n f b : filled m m' a n f -> ~ a <= b < a + n -> mget m' b = mget m b.
Proof. intros Hf Hb. rewrite Hf. by rewrite decide_False. Qed.

Lemma head_bytes_le n d s : (head_bytes n d s <= n)%nat.
Proof. revert d s. induction n as [|n IH]; intros d s; cbn [head_bytes]; [done|]. case_match; [lia|]. specialize (IH (d + 1) (s + 1)). lia. Qed.

Lemma mem_wf_copy_bytes n : forall m d s, mem_wf m -> mem_wf (copy_bytes n m d s).
Proof. induction n as [|n IH]; intros m d s Hw; cbn [copy_bytes]; [done|]. by apply IH, mem_wf_mput. Qed.

Lemma mem_wf_copy_words n : forall m d s, mem_wf m -> mem_wf (copy_words n m d s).
Proof. induction n as [|n IH]; intros m d s Hw; cbn [copy_words]; [done|]. by apply IH, mem_wf_mwrite. Qed.

Lemma mem_wf_memcpy m dst src n : mem_wf m -> mem_wf (_memcpy m dst src n).
Proof. intros Hw. unfold _memcpy. by apply mem_wf_copy_bytes, mem_wf_copy_words, mem_wf_copy_bytes. Qed.

(** Copying by words is copying. *)
Lemma memcpy_ok m dst src n : mem_wf m -> 0 <= n -> disjoint dst n src n ->
  filled m (_memcpy m dst src n) dst n (fun i => mget m (src + i)).
Proof.
  intros Hw Hn Hd b. unfold _memcpy. set (h := head_bytes _ _ _). pose proof (head_bytes_le (Z.to_nat n) dst src) as Hh. fold h in Hh.
  set (k := n - Z.of_nat h). pose proof (Z.div_mod k 8 ltac:(lia)) as Ek. pose proof (Z.mod_pos_bound k 8 ltac:(lia)).
  assert (0 <= k / 8) by (apply Z.div_pos; lia). set (w := Z.to_nat (k / 8)). set (t := Z.to_nat (k mod 8)). unfold disjoint in *.
  assert (W1 : mem_wf (copy_bytes h m dst src)) by (by apply mem_wf_copy_bytes).
  rewrite copy_bytes_ok; [|by apply mem_wf_copy_words|unfold disjoint; lia].
  rewrite !copy_words_ok by (done || unfold disjoint; lia). rewrite !copy_bytes_ok by (done || unfold disjoint; lia).
  repeat case_decide; try lia; f_equal; lia.
Qed.

Lemma mem_wf_memset m s c n : mem_wf m -> mem_wf (_memset m s c n).
Proof. apply mem_wf_mstore. Qed.

Lemma memset_ok m s c n : 0 <= n -> filled m (_memset m s c n) s n (fun _ => wrap 8 c).
Proof.
  intros Hn b. unfold _memset. rewrite mget_mstore by (apply Forall_replicate, byte_wrap). rewrite length_replicate, Z2Nat.id by lia.
  case_decide; [|done]. by rewrite lookup_replicate_2 by lia.
Qed.

Lemma mstore_filled m a bs n : Forall byte bs -> n = Z.of_nat (length bs) -> filled m (mstore m a bs) a n (fun i => default 0 (bs !! Z.to_nat i)).
Proof. intros Hb -> b. by rewrite mget_mstore. Qed.

(** ** The effect of the calls *)
Section Effects.
Context {K : Type} `{KernelLaws K}.

Notation used st := (k_used (d_kernel st)).
Notation fds st := (k_fds (d_kernel st)).

(** The bytes in use in [U] stay in use and keep their values. *)
Definition kept (U : Z -> Prop) (st st' : dyld K) : Prop :=
  (mem_wf (d_mem st) -> mem_wf (d_mem st')) /\ d_cache st' = d_cache st /\ k_files (d_kernel st') = k_files (d_kernel st) /\
  (d_refused st = true -> d_refused st' = true) /\
  forall a, U a -> used st a -> used st' a /\ mget (d_mem st') a = mget (d_mem st) a.

(** Nothing but memory and the kernel's state changes. *)
Definition quiet (st st' : dyld K) : Prop := d_images st' = d_images st /\ d_index st' = d_index st /\ d_logged st' = d_logged st.

(** No system call has failed. *)
Definition clean (st : dyld K) : Prop := d_refused st = false.

Lemma kept_refl U st : kept U st st.
Proof. by split_and!. Qed.

Lemma kept_then U st1 st2 st3 : kept U st1 st2 -> kept U st2 st3 -> kept U st1 st3.
Proof.
  intros (W1 & C1 & F1 & T1 & H1) (W2 & C2 & F2 & T2 & H2). split_and!; [tauto|congruence|congruence|tauto|].
  intros a Ha Hu. destruct (H1 a Ha Hu) as [U1 E1], (H2 a Ha U1) as [U2 E2]. split; [done|congruence].
Qed.

Lemma kept_weaken (U U' : Z -> Prop) st st' : (forall a, U a -> U' a) -> kept U' st st' -> kept U st st'.
Proof. intros HU (W & C & F & T & Hk). split_and!; auto. Qed.

Lemma kept_clean U st st' : kept U st st' -> clean st' -> clean st.
Proof. intros (_ & _ & _ & E & _) Hc. unfold clean in *. destruct (d_refused st); [by rewrite E in Hc|done]. Qed.

Lemma quiet_refl st : quiet st st.
Proof. done. Qed.

Lemma quiet_then st1 st2 st3 : quiet st1 st2 -> quiet st2 st3 -> quiet st1 st3.
Proof. intros (? & ? & ?) (? & ? & ?). split_and!; congruence. Qed.

(** A call that changes descriptors at most. *)
Lemma kept_kernel U st k es : k_files k = k_files (d_kernel st) -> k_used k = used st -> kept U st (set_kernel k es st).
Proof.
  intros Ef Eu. split_and!; [done|done|done|cbn; by intros ->|]. intros a _ Ha. cbn. by rewrite Eu.
Qed.

Lemma kept_set_mem (U : Z -> Prop) st m : (mem_wf (d_mem st) -> mem_wf m) -> (forall a, U a -> mget m a = mget (d_mem st) a) -> kept U st (set_mem m st).
Proof. intros Hw Hm. split_and!; [done|done|done|done|]. intros a Ha Hu. split; [done|by apply Hm]. Qed.

Lemma refused_clean st k r : clean (set_kernel k (refused r) st) -> 0 <= r.
Proof. unfold clean, refused. cbn. intros [_ E]%orb_false_elim. lia. Qed.

Lemma open_path_ok path st : let '(fd, st') := open_path path st in
  quiet st st' /\ kept (fun _ => True) st st' /\ d_mem st' = d_mem st /\
  (fd < 0 /\ fds st' = fds st /\ ~ clean st' \/
   0 <= fd /\ fds st !! fd = None /\ exists bs, k_files (d_kernel st) path = Some bs /\ fds st' = <[fd := (bs, 0)]> (fds st)).
Proof.
  unfold open_path. pose proof (open_law path (d_kernel st)) as Hl. destruct (k_open _ _) as [r k]. destruct Hl as (Ef & Eu & Hr & Hc).
  assert (Er : signed 32 (wrap 32 r) = r).
  { unfold signed. destruct (Z.le_gt_cases 0 r); [rewrite wrap_small by lia|rewrite wrap_neg by lia]; case_match; lia. }
  rewrite Er. split; [done|]. split; [by apply kept_kernel|]. split; [done|].
  destruct Hc as [[Hn E]|(Hn & Hnew & bs & Hf & E)]; [left|right].
  - split; [done|]. split; [exact E|]. intros Hcl. apply refused_clean in Hcl. lia.
  - split; [done|]. split; [done|]. exists bs. split; [done|exact E].
Qed.

Lemma sys_open_ok path st : let '(fd, st') := sys_open path st in
  quiet st st' /\ kept (fun _ => True) st st' /\ d_mem st' = d_mem st /\
  (fd < 0 /\ fds st' = fds st /\ ~ clean st' \/
   0 <= fd /\ fds st !! fd = None /\ exists bs, k_files (d_kernel st) (cstr (d_mem st) path) = Some bs /\ fds st' = <[fd := (bs, 0)]> (fds st)).
Proof. apply open_path_ok. Qed.

Lemma sys_close_ok fd st : let st' := sys_close fd st in
  quiet st st' /\ kept (fun _ => True) st st' /\ d_mem st' = d_mem st /\ used st' = used st /\ fds st' = delete fd (fds st) /\ (clean st -> clean st').
Proof.
  unfold sys_close. destruct (close_law fd (d_kernel st)) as (Ef & Eu & Ed). split; [done|]. split; [by apply kept_kernel|].
  split_and!; [done|done|done|]. unfold clean. cbn. by intros ->.
Qed.

Lemma sys_munmap_ok addr len st : let st' := sys_munmap addr len st in
  quiet st st' /\ kept (fun a => ~ in_pages addr len a) st st' /\ d_mem st' = d_mem st /\ fds st' = fds st /\
  (forall a, used st' a <-> used st a /\ ~ in_pages addr len a) /\ (clean st -> clean st').
Proof.
  unfold sys_munmap. destruct (munmap_law addr len (d_kernel st)) as (Ef & Ed & Eu). split; [done|]. split.
  - split_and!; [done|done|exact Ef|cbn; by intros ->|]. intros a Ha Hu. split; [by apply Eu|done].
  - split_and!; [done|done|done|]. unfold clean. cbn. by intros ->.
Qed.

Lemma sys_fstat_ok fd st : let '(r, size, st') := sys_fstat fd st in
  quiet st st' /\ kept (fun _ => True) st st' /\ d_mem st' = d_mem st /\ used st' = used st /\ fds st' = fds st /\
  (r < 0 /\ ~ clean st' \/ 0 <= r /\ exists bs off, fds st !! fd = Some (bs, off) /\ size = Z.of_nat (length bs)).
Proof.
  unfold sys_fstat. pose proof (fstat_law fd (d_kernel st)) as Hl. destruct (k_fstat _ _) as [[r size] k]. destruct Hl as (Ef & Eu & Ed & Hr).
  split; [done|]. split; [by apply kept_kernel|]. split_and!; [done|done|done|]. destruct (Z.le_gt_cases 0 r); [right; auto|left; split; [lia|]].
  intros Hc. apply refused_clean in Hc. lia.
Qed.

Lemma sys_lseek_ok fd off st : 0 <= off -> let '(r, st') := sys_lseek fd off st in
  quiet st st' /\ kept (fun _ => True) st st' /\ d_mem st' = d_mem st /\ used st' = used st /\
  (r < 0 /\ fds st' = fds st /\ ~ clean st' \/ 0 <= r /\ exists bs pos, fds st !! fd = Some (bs, pos) /\ fds st' = <[fd := (bs, off)]> (fds st)).
Proof.
  intros Ho. unfold sys_lseek. pose proof (lseek_law fd off (d_kernel st) Ho) as Hl. destruct (k_lseek _ _ _) as [r k]. destruct Hl as (Ef & Eu & Hr).
  split; [done|]. split; [by apply kept_kernel|]. split_and!; [done|done|]. destruct Hr as [[Hn Ed]|Hr]; [left|by right]. split_and!; [done|done|].
  intros Hc. apply refused_clean in Hc. lia.
Qed.

(** Writing [n] bytes at [a] and calling the kernel. *)
Lemma kept_write st k es m a n f : k_files k = k_files (d_kernel st) -> (forall b, used st b -> ~ a <= b < a + n -> k_used k b) ->
  (mem_wf (d_mem st) -> mem_wf m) -> filled (d_mem st) m a n f ->
  kept (fun b => ~ a <= b < a + n) st (set_kernel k es (set_mem m st)).
Proof.
  intros Ef Eu Hw Hm. split_and!; [done|done|done|cbn; by intros ->|]. intros b Hb Hu. split; [by apply Eu|]. by apply (filled_out _ _ _ _ _ _ Hm).
Qed.

Lemma sys_read_ok fd buf n st bs off : fds st !! fd = Some (bs, off) -> 0 < n -> let '(r, st') := sys_read fd buf n st in
  quiet st st' /\ kept (fun a => ~ buf <= a < buf + n) st st' /\ used st' = used st /\
  (r <= 0 /\ (exists off', fds st' = <[fd := (bs, off')]> (fds st)) /\ (clean st' -> Z.of_nat (length bs) <= off) \/
   0 < r <= n /\ off + r <= Z.of_nat (length bs) /\ fds st' = <[fd := (bs, off + r)]> (fds st) /\
   filled (d_mem st) (d_mem st') buf r (fun i => mget (fmem bs) (off + i))).
Proof.
  intros Hfd Hn. unfold sys_read. pose proof (read_law fd n (d_kernel st) Hn) as Hl. destruct (k_read _ _ _) as [[r out] k]. destruct Hl as (Ef & Eu & Hr).
  destruct Hr as [(Hneg & -> & Ed)|(bs' & off' & Hfd' & Hr & Hz & -> & Hle & Ed)].
  - cbn [mstore]. split; [done|]. split; [|split; [done|left]].
    + apply (kept_weaken _ (fun _ => True)); [done|]. apply (kept_then _ _ (set_mem (d_mem st) st)); [by apply kept_set_mem|by apply kept_kernel].
    + split; [lia|]. split; [exists off; cbn; by rewrite Ed, insert_id|]. intros Hc. apply refused_clean in Hc. lia.
  - rewrite Hfd in Hfd'. injection Hfd' as <- <-. assert (Hl : r = Z.of_nat (length (file_bytes bs off r))) by (unfold file_bytes; rewrite length_mbytes; lia).
    pose proof (mstore_filled (d_mem st) buf (file_bytes bs off r) r (file_bytes_byte _ _ _) Hl) as Hm.
    split; [done|]. split; [|split; [done|]].
    + apply (kept_weaken _ (fun b => ~ buf <= b < buf + r)); [lia|]. eapply kept_write; [done|by rewrite Eu|apply mem_wf_mstore|exact Hm].
    + destruct (Z.eq_dec r 0) as [->|Hr0]; [left|right].
      * split; [lia|]. split; [eexists; exact Ed|auto].
      * split_and!; [lia|lia|apply Hle; lia|exact Ed|]. intros b. cbn. rewrite Hm. case_decide; [|done]. apply file_bytes_get. lia.
Qed.

Lemma sys_mmap_anon_ok len prot st : 0 <= len < 2 ^ 63 -> let '(r, st') := sys_mmap 0 len prot (Z.lor MAP_PRIVATE MAP_ANON) (-1) 0 st in
  quiet st st' /\ kept (fun _ => True) st st' /\ fds st' = fds st /\
  (r < 0 /\ used st' = used st /\ ~ clean st' \/
   0 < r /\ Z.land r 0xfff = 0 /\ r + pageRoundUp len < 2 ^ 62 /\ (forall a, in_pages r len a -> ~ used st a /\ mget (d_mem st') a = 0) /\
   forall a, used st' a <-> used st a \/ in_pages r len a).
Proof.
  intros Hlen. unfold sys_mmap. pose proof (mmap_anon_law len prot (d_kernel st) ltac:(lia)) as Hl. destruct (k_mmap _ _ _ _ _ _ _) as [[r out] k]. destruct Hl as (Ef & Ed & Hr).
  destruct Hr as [[Hneg Eu]|(Hpos & Hal & Hb & Hfresh & -> & Eu)].
  - destruct (Z.ltb_spec r 0); [|lia]. split; [done|]. split; [by apply kept_kernel|]. split; [done|left]. split_and!; [done|done|]. intros Hcl. apply refused_clean in Hcl. lia.
  - destruct (Z.ltb_spec r 0); [lia|]. pose proof (pageRoundUp_le len Hlen) as [Hp _].
    pose proof (mstore_filled (d_mem st) r (repeat 0 (Z.to_nat (pageRoundUp len))) (pageRoundUp len) (zeros_bytes _) ltac:(rewrite repeat_length; lia)) as Hm.
    split; [done|]. split; [|split; [done|right]].
    + split_and!; [apply mem_wf_mstore|done|done|cbn; by intros ->|]. intros a _ Hu. split; [apply Eu; by left|]. cbn.
      rewrite (filled_out _ _ _ _ _ _ Hm); [done|]. intros Ha. by apply (Hfresh a).
    + split_and!; [done|done|done| |done]. intros a Ha. split; [by apply Hfresh|]. cbn. rewrite (filled_in _ _ _ _ _ _ Hm Ha).
      unfold in_pages in Ha. destruct (repeat 0 _ !! _) eqn:E; [|done]. apply list_elem_of_lookup_2 in E.
      apply list_elem_of_In, repeat_spec in E. by subst.
Qed.

Lemma sys_mmap_file_ok addr len prot fd off st bs pos : 0 <= len -> 0 <= off -> Z.land len 0xfff = 0 -> Z.land off 0xfff = 0 -> Z.land addr 0xfff = 0 -> 0 < addr ->
  (forall a, addr <= a < addr + len -> used st a) -> fds st !! fd = Some (bs, pos) ->
  let '(r, st') := sys_mmap addr len prot (Z.lor MAP_PRIVATE MAP_FIXED) fd off st in
  quiet st st' /\ kept (fun a => ~ addr <= a < addr + len) st st' /\ fds st' = fds st /\ used st' = used st /\
  (r < 0 /\ ~ clean st' \/ 0 <= r /\ filled (d_mem st) (d_mem st') addr len (fun i => mget (fmem bs) (off + i))).
Proof.
  intros Hlen Hoff Hl1 Hl2 Hl3 Hpos Hus Hfd. unfold sys_mmap.
  pose proof (mmap_file_law addr len prot fd off (d_kernel st) Hlen Hoff Hl1 Hl2 Hl3 Hpos Hus) as Hl. destruct (k_mmap _ _ _ _ _ _ _) as [[r out] k].
  destruct Hl as (Ef & Ed & Eu & [Hneg|(-> & bs' & pos' & Hfd' & ->)]).
  - destruct (Z.ltb_spec r 0); [|lia]. split; [done|]. split; [by apply kept_kernel|]. split_and!; [done|done|left]. split; [done|]. intros Hcl. apply refused_clean in Hcl. lia.
  - rewrite Hfd in Hfd'. injection Hfd' as <- <-. destruct (Z.ltb_spec addr 0); [lia|].
    assert (El : len = Z.of_nat (length (file_bytes bs off len))) by (unfold file_bytes; rewrite length_mbytes; lia).
    pose proof (mstore_filled (d_mem st) addr (file_bytes bs off len) len (file_bytes_byte _ _ _) El) as Hm.
    split; [done|]. split; [eapply kept_write; [done|by rewrite Eu|apply mem_wf_mstore|exact Hm]|]. split_and!; [done|done|right]. split; [lia|].
    intros b. cbn. rewrite Hm. case_decide; [|done]. apply file_bytes_get. lia.
Qed.

(** A file mapped where nothing was. *)
Lemma mapped_fresh r len off st k bs : 0 <= len < 2 ^ 62 -> k_files k = k_files (d_kernel st) -> (forall a, in_pages r len a -> ~ used st a) ->
  (forall a, k_used k a <-> used st a \/ in_pages r len a) -> 0 < r ->
  let st' := set_kernel k (refused r) (set_mem (mstore (d_mem st) r (file_bytes bs off (pageRoundUp len))) st) in
  kept (fun _ => True) st st' /\ filled (d_mem st) (d_mem st') r (pageRoundUp len) (fun i => mget (fmem bs) (off + i)).
Proof.
  intros Hlen Ef Hfresh Eu Hr. pose proof (pageRoundUp_le len ltac:(lia)) as [Hp _].
  assert (El : pageRoundUp len = Z.of_nat (length (file_bytes bs off (pageRoundUp len)))) by (unfold file_bytes; rewrite length_mbytes; lia).
  pose proof (mstore_filled (d_mem st) r (file_bytes bs off (pageRoundUp len)) (pageRoundUp len) (file_bytes_byte _ _ _) El) as Hm. split.
  - split_and!; [apply mem_wf_mstore|done|done|cbn; by intros ->|]. intros a _ Hu. split; [apply Eu; by left|]. cbn.
    rewrite (filled_out _ _ _ _ _ _ Hm); [done|]. intros Ha. by apply (Hfresh a).
  - intros b. cbn. rewrite Hm. case_decide; [|done]. apply file_bytes_get. lia.
Qed.

Lemma sys_mmap_private_ok len prot fd st bs pos : 0 <= len < 2 ^ 62 -> fds st !! fd = Some (bs, pos) ->
  let '(r, st') := sys_mmap 0 len prot MAP_PRIVATE fd 0 st in
  quiet st st' /\ kept (fun _ => True) st st' /\ fds st' = fds st /\
  (r < 0 /\ used st' = used st /\ ~ clean st' \/
   0 < r /\ Z.land r 0xfff = 0 /\ r + pageRoundUp len < 2 ^ 62 /\ (forall a, in_pages r len a -> ~ used st a) /\
   filled (d_mem st) (d_mem st') r (pageRoundUp len) (fun i => mget (fmem bs) i) /\ forall a, used st' a <-> used st a \/ in_pages r len a).
Proof.
  intros Hlen Hfd. unfold sys_mmap. pose proof (mmap_private_law len prot fd (d_kernel st) ltac:(lia)) as Hl. destruct (k_mmap _ _ _ _ _ _ _) as [[r out] k]. destruct Hl as (Ef & Ed & Hr).
  destruct Hr as [[Hneg Eu]|(Hpos & Hal & Hb & Hfresh & (bs' & pos' & Hfd' & ->) & Eu)].
  - destruct (Z.ltb_spec r 0); [|lia]. split; [done|]. split; [by apply kept_kernel|]. split; [done|left]. split_and!; [done|done|]. intros Hcl. apply refused_clean in Hcl. lia.
  - rewrite Hfd in Hfd'. injection Hfd' as <- <-. destruct (Z.ltb_spec r 0); [lia|]. destruct (mapped_fresh r len 0 st k bs Hlen Ef Hfresh Eu Hpos) as [Hk Hf].
    split; [done|]. split; [exact Hk|]. split; [done|right]. split_and!; [done|done|done|done|exact Hf|done].
Qed.

Lemma sys_mmap_fixed_ok addr len prot fd off st bs pos : 0 <= len < 2 ^ 62 -> 0 <= off -> Z.land off 0xfff = 0 -> Z.land addr 0xfff = 0 -> 0 < addr ->
  (forall a, in_pages addr len a -> ~ used st a) -> fds st !! fd = Some (bs, pos) ->
  let '(r, st') := sys_mmap addr len prot (Z.lor MAP_PRIVATE MAP_FIXED) fd off st in
  quiet st st' /\ kept (fun _ => True) st st' /\ fds st' = fds st /\
  (r < 0 /\ used st' = used st /\ ~ clean st' \/
   r = addr /\ filled (d_mem st) (d_mem st') addr (pageRoundUp len) (fun i => mget (fmem bs) (off + i)) /\ forall a, used st' a <-> used st a \/ in_pages addr len a).
Proof.
  intros Hlen Hoff Hl2 Hl3 Hpos Hfresh Hfd. unfold sys_mmap. pose proof (mmap_fixed_law addr len prot fd off (d_kernel st) ltac:(lia) Hoff Hl2 Hl3 Hpos) as Hl.
  destruct (k_mmap _ _ _ _ _ _ _) as [[r out] k]. destruct Hl as (Ef & Ed & [[Hneg Eu]|(-> & (bs' & pos' & Hfd' & ->) & Eu)]).
  - destruct (Z.ltb_spec r 0); [|lia]. split; [done|]. split; [by apply kept_kernel|]. split; [done|left]. split_and!; [done|done|]. intros Hcl. apply refused_clean in Hcl. lia.
  - rewrite Hfd in Hfd'. injection Hfd' as <- <-. destruct (Z.ltb_spec addr 0); [lia|]. destruct (mapped_fresh addr len off st k bs Hlen Ef Hfresh Eu Hpos) as [Hk Hf].
    split; [done|]. split; [exact Hk|]. split; [done|right]. split_and!; [done|exact Hf|done].
Qed.

(** ** Reading *)
Lemma filled_app m m1 m2 a n k f : 0 <= n -> 0 <= k -> filled m m1 a n f -> filled m1 m2 (a + n) k (fun i => f (n + i)) -> filled m m2 a (n + k) f.
Proof.
  intros Hn Hk H1 H2 b. rewrite H2, H1. repeat case_decide; try lia; f_equal; lia.
Qed.

Lemma filled_0 m a f : filled m m a 0 f.
Proof. intros b. case_decide; [lia|done]. Qed.

Lemma readFileFully_ok fd buf size st bs off : fds st !! fd = Some (bs, off) -> 0 <= size < 2 ^ 62 -> 0 <= off ->
  let '(ok, st') := readFileFully fd buf size st in
  quiet st st' /\ kept (fun a => ~ buf <= a < buf + size) st st' /\ used st' = used st /\ (exists off', fds st' = <[fd := (bs, off')]> (fds st)) /\
  (ok = false /\ (clean st' -> Z.of_nat (length bs) < off + size) \/
   ok = true /\ (0 < size -> off + size <= Z.of_nat (length bs)) /\ filled (d_mem st) (d_mem st') buf size (fun i => mget (fmem bs) (off + i))).
Proof.
  intros Hfd Hs Ho. unfold readFileFully.
  set (Inv := fun '(st1, p, rem) => 0 <= rem <= size /\ p = buf + (size - rem) /\ quiet st st1 /\ kept (fun a => ~ buf <= a < buf + size) st st1 /\
    used st1 = used st /\ fds st1 = <[fd := (bs, off + (size - rem))]> (fds st) /\ (0 < size - rem -> off + (size - rem) <= Z.of_nat (length bs)) /\
    filled (d_mem st) (d_mem st1) buf (size - rem) (fun i => mget (fmem bs) (off + i))).
  apply (while_rule (read_step fd) Inv (fun '(_, _, rem) => rem) (fun '(ok, st') => _)); [| | |unfold rounds64; lia].
  - intros [[st1 p] rem] (Hrem & -> & Hq & Hk & Hu & Hd & Hle & Hf). cbn [read_step]. destruct (Z.ltb_spec 0 rem).
    + set (want := if 64 * 1024 <? rem then _ else _). assert (Hw : 0 < want <= rem) by (unfold want; case_match; lia).
      assert (Hfd1 : fds st1 !! fd = Some (bs, off + (size - rem))) by (by rewrite Hd, lookup_insert_eq).
      pose proof (sys_read_ok fd (buf + (size - rem)) want st1 bs _ Hfd1 ltac:(lia)) as Hr. destruct (sys_read _ _ _ _) as [chunk st2].
      destruct Hr as (Hq2 & Hk2 & Hu2 & Hr).
      assert (Hk' : kept (fun a => ~ buf <= a < buf + size) st st2) by (eapply kept_then; [exact Hk|eapply kept_weaken; [|exact Hk2]; intros a Ha Hb; apply Ha; lia]).
      assert (Hq' : quiet st st2) by (by eapply quiet_then). destruct Hr as [(Hc & (off' & Hd2) & Hcl)|(Hc & Hle2 & Hd2 & Hf2)].
      * destruct (Z.leb_spec chunk 0); [|lia]. split_and!; [done|done|congruence| |left; split; [done|]].
        -- exists off'. by rewrite Hd2, Hd, insert_insert_eq.
        -- intros Hcl'. specialize (Hcl Hcl'). lia.
      * destruct (Z.leb_spec chunk 0); [lia|]. split; [unfold Inv|lia]. replace (size - (rem - chunk)) with (size - rem + chunk) by lia.
        split_and!; [lia|lia|lia|done|done|congruence| |lia|].
        -- by rewrite Hd2, Hd, insert_insert_eq, <- Z.add_assoc.
        -- eapply filled_app; [lia|lia|exact Hf|]. intros b. rewrite Hf2. case_decide; [|done]. f_equal. lia.
    + assert (rem = 0) as -> by lia. rewrite Z.sub_0_r in *. split_and!; [done|done|done|by eexists|]. right. done.
  - split_and!; [lia|lia|lia|done|apply kept_refl|done| |lia|].
    + rewrite Z.sub_diag, Z.add_0_r. by rewrite insert_id.
    + rewrite Z.sub_diag. apply filled_0.
  - intros [[st1 p] rem] (Hrem & _). lia.
Qed.

Lemma readFileFullyAt_ok fd pos buf size st bs off : fds st !! fd = Some (bs, off) -> 0 <= size < 2 ^ 62 -> 0 <= pos ->
  let '(ok, st') := readFileFullyAt fd pos buf size st in
  quiet st st' /\ kept (fun a => ~ buf <= a < buf + size) st st' /\ used st' = used st /\ (exists off', fds st' = <[fd := (bs, off')]> (fds st)) /\
  (ok = false /\ (clean st' -> Z.of_nat (length bs) < pos + size) \/
   ok = true /\ (0 < size -> pos + size <= Z.of_nat (length bs)) /\ filled (d_mem st) (d_mem st') buf size (fun i => mget (fmem bs) (pos + i))).
Proof.
  intros Hfd Hs Hp. unfold readFileFullyAt. pose proof (sys_lseek_ok fd pos st Hp) as Hl. destruct (sys_lseek _ _ _) as [r st1].
  destruct Hl as (Hq & Hk & Hm & Hu & [(Hn & Hd & Hc)|(Hn & bs' & pos' & Hfd' & Hd)]).
  - destruct (Z.ltb_spec r 0); [|lia]. split_and!; [done|by eapply kept_weaken; [|exact Hk]|done|exists off; by rewrite Hd, insert_id|left; by split].
  - rewrite Hfd in Hfd'. injection Hfd' as <- <-. destruct (Z.ltb_spec r 0); [lia|].
    pose proof (readFileFully_ok fd buf size st1 bs pos ltac:(by rewrite Hd, lookup_insert_eq) Hs Hp) as Hr. destruct (readFileFully _ _ _ _) as [ok st2].
    destruct Hr as (Hq2 & Hk2 & Hu2 & (off' & Hd2) & Hr). split_and!.
    + by eapply quiet_then.
    + eapply kept_then; [eapply kept_weaken; [|exact Hk]; done|exact Hk2].
    + congruence.
    + exists off'. by rewrite Hd2, Hd, insert_insert_eq.
    + by rewrite Hm in Hr.
Qed.
End Effects.
