(* ===== verification/Loader.v ===== *)
(** * Loading images: userland/dyld/panthera_dyld.cpp

    [loadImage] finds an image in the table, in the shared cache or in a file; an
    image from a file is copied or mapped segment by segment into a range of its
    own, registered, and then the images it depends on are loaded. *)

From Stdlib Require Import ZArith Lia.
From stdpp Require Import base list gmap.
From S2P Require Import Prelude MachO Words Runs DyldImage SymbolIndex MachImage Linker Dyld.

Open Scope Z_scope.

Definition sizeof_LoadedImage : Z := 64.

Section Loader.
Context {K : Type} `{Kernel K} `{Layout}.

(** [&sImages[sNumImages++]] with its fields set, and [parseSymtab]. *)
Definition register (header slide path : Z) (st : dyld K) : LoadedImage * dyld K :=
  let self := sImages + Z.of_nat (length (d_images st)) * sizeof_LoadedImage in
  let img := parseSymtab (d_mem st) (d_cache st) (mkImage self header slide path 0 0 0 0) in
  (img, set_images (d_images st ++ [img]) st).

Definition already_loaded (path : Z) (st : dyld K) : option LoadedImage :=
  let p := cstr (d_mem st) path in
  List.find (fun img => negb (img_path img =? 0) &&
    ((_strcmp (image_path st img) p =? 0) || (_strcmp (_basename (image_path st img)) (_basename p) =? 0))) (d_images st).

(** ** The range of an image *)
Definition range_command (m : mem) (r : Z * Z) (cmd : Z) : Z * Z :=
  let '(lo, hi) := r in
  if (lc_cmd m cmd =? LC_SEGMENT_64) && (0 <? seg_vmsize m cmd) then
    (if seg_vmaddr m cmd <? lo then seg_vmaddr m cmd else lo,
     if hi <? seg_vmaddr m cmd +64 seg_vmsize m cmd then seg_vmaddr m cmd +64 seg_vmsize m cmd else hi)
  else r.

Definition vm_range (m : mem) (mh : Z) : Z * Z := fold_left (range_command m) (commands m mh) (2 ^ 64 - 1, 0).

Definition total_size (lo hi : Z) : Z := Z.ldiff (hi -64 lo +64 0xfff) 0xfff.

(** ** From the cache *)
Definition copy_cached (cachedData base lo cmd : Z) (st : dyld K) : dyld K + dyld K :=
  let m := d_mem st in
  inl (if (lc_cmd m cmd =? LC_SEGMENT_64) && (0 <? seg_filesize m cmd)
       then set_mem (_memcpy m (base +64 (seg_vmaddr m cmd -64 lo)) (cachedData +64 seg_fileoff m cmd) (seg_filesize m cmd)) st
       else st).

Definition load_from_cache (path : Z) (st : dyld K) : option LoadedImage * dyld K :=
  match findDylibInCache (d_mem st) (d_cache st) path with
  | None => (None, st)
  | Some (mh, _) =>
      if mh_magic (d_mem st) mh =? MH_MAGIC_64 then
        if sCacheSplitRegion (d_cache st) && sCachePreResolved (d_cache st) then
          let '(img, st) := register mh (sCacheSlide (d_cache st)) path st in (Some img, st)
        else
          let '(lo, hi) := vm_range (d_mem st) mh in
          let '(base, st) := sys_mmap 0 (total_size lo hi) (Z.lor (Z.lor PROT_READ PROT_WRITE) PROT_EXEC) (Z.lor MAP_PRIVATE MAP_ANON) (-1) 0 st in
          if 0 <? base then
            let st := each_command d_mem mh (copy_cached mh base lo) id st in
            let '(img, st) := register base (base -64 lo) path st in (Some img, st)
          else (None, st)
      else (None, st)
  end.

(** ** From a file *)

(** A segment of a large file: its full pages are mapped, the rest of its last page
    is read, and what the page has beyond the segment's data is cleared. *)
Definition map_segment (fd mapped snapshotReadSize base lo cmd : Z) (st : dyld K) : bool * dyld K :=
  let m := d_mem st in
  let segOffset := seg_vmaddr m cmd -64 lo in
  let fileoff := seg_fileoff m cmd in
  let filesize := seg_filesize m cmd in
  let vmsize := seg_vmsize m cmd in
  if negb (Z.land fileoff 0xfff =? 0) || negb (Z.land segOffset 0xfff =? 0) then (false, st)
  else
    let fullFilePages := Z.ldiff filesize 0xfff in
    let '(ok, st) :=
      if 0 <? fullFilePages then
        let '(segMap, st) := sys_mmap (base +64 segOffset) fullFilePages (Z.lor (Z.lor PROT_READ PROT_WRITE) PROT_EXEC)
                               (Z.lor MAP_PRIVATE MAP_FIXED) fd fileoff st in
        (negb (segMap <? 0), st)
      else (true, st) in
    if negb ok then (false, st)
    else
      let tailSize := filesize - fullFilePages in
      let '(ok, st) :=
        if 0 <? tailSize then
          let tailFileOffset := fileoff +64 fullFilePages in
          let tailTarget := wrap 64 (base + segOffset + fullFilePages) in
          if tailFileOffset +64 tailSize <=? snapshotReadSize
          then (true, set_mem (_memcpy (d_mem st) tailTarget (mapped +64 tailFileOffset) tailSize) st)
          else readFileFullyAt fd tailFileOffset tailTarget tailSize st
        else (true, st) in
      if negb ok then (false, st)
      else
        let zeroStart := segOffset +64 filesize in
        let zeroEnd := Z.ldiff (zeroStart +64 0xfff) 0xfff in
        let segEnd := segOffset +64 vmsize in
        let zeroEnd := if segEnd <? zeroEnd then segEnd else zeroEnd in
        (true, if zeroStart <? zeroEnd then set_mem (_memset (d_mem st) (base +64 zeroStart) 0 (zeroEnd - zeroStart)) st else st).

Definition copy_segment (mapped base lo cmd : Z) (st : dyld K) : dyld K :=
  let m := d_mem st in
  set_mem (_memcpy m (base +64 (seg_vmaddr m cmd -64 lo)) (mapped +64 seg_fileoff m cmd) (seg_filesize m cmd)) st.

(** One load command; [inr (false, _)] is an error return. *)
Definition place_command (large : bool) (fd mapped snapshotReadSize base lo cmd : Z) (st : dyld K) : dyld K + (bool * dyld K) :=
  let m := d_mem st in
  if (lc_cmd m cmd =? LC_SEGMENT_64) && (0 <? seg_filesize m cmd) then
    if large then
      match map_segment fd mapped snapshotReadSize base lo cmd st with
      | (true, st) => inl st
      | (false, st) => inr (false, st)
      end
    else inl (copy_segment mapped base lo cmd st)
  else inl st.

(** The segments placed; the result is their base and lowest address. *)
Definition place_segments (large : bool) (fd mapped snapshotSize snapshotReadSize : Z) (st : dyld K) : option (Z * Z) * dyld K :=
  let '(lo, hi) := vm_range (d_mem st) mapped in
  let totalSize := total_size lo hi in
  let '(base, st) := sys_mmap 0 totalSize (Z.lor (Z.lor PROT_READ PROT_WRITE) PROT_EXEC) (Z.lor MAP_PRIVATE MAP_ANON) (-1) 0 st in
  if base <? 0 then (None, sys_close fd (sys_munmap mapped snapshotSize st))
  else
    match each_command d_mem mapped (place_command large fd mapped snapshotReadSize base lo) (fun st => (true, st)) st with
    | (true, st) => (Some (base, lo), sys_close fd st)
    | (false, st) => (None, sys_close fd (sys_munmap base totalSize (sys_munmap mapped snapshotSize st)))
    end.

(** The header and the load commands read into the snapshot; the result is how much
    of the file has been read. *)
Definition read_commands (fd mapped snapshotSize snapshotReadSize : Z) (st : dyld K) : option Z * dyld K :=
  match readFileFully fd mapped snapshotReadSize st with
  | (false, st) => (None, st)
  | (true, st) =>
      if negb (mh_magic (d_mem st) mapped =? MH_MAGIC_64) then (None, st)
      else
        let snapshotNeeded := sizeof_mach_header_64 + mh_sizeofcmds (d_mem st) mapped in
        if snapshotSize <? snapshotNeeded then (None, st)
        else if snapshotReadSize <? snapshotNeeded then
          match readFileFullyAt fd snapshotReadSize (mapped + snapshotReadSize) (snapshotNeeded - snapshotReadSize) st with
          | (false, st) => (None, st)
          | (true, st) => (Some snapshotNeeded, st)
          end
        else (Some snapshotReadSize, st)
  end.

(** An open file of [st_size] bytes up to the registration of the image; the result is
    the image, the snapshot and its size. *)
Definition load_opened (path fd st_size : Z) (st : dyld K) : option (LoadedImage * Z * Z) * dyld K :=
  let large := 1024 * 1024 <=? st_size in
  let snapshotSize := if large then 64 * 1024 else st_size in
  let snapshotSize := if st_size <? snapshotSize then st_size else snapshotSize in
  let '(mapped, st) := sys_mmap 0 snapshotSize (Z.lor PROT_READ PROT_WRITE) (Z.lor MAP_PRIVATE MAP_ANON) (-1) 0 st in
  if mapped <? 0 then (None, sys_close fd st)
  else
    let snapshotReadSize := if large then 4096 else snapshotSize in
    let snapshotReadSize := if snapshotSize <? snapshotReadSize then snapshotSize else snapshotReadSize in
    match read_commands fd mapped snapshotSize snapshotReadSize st with
    | (None, st) => (None, sys_close fd (sys_munmap mapped snapshotSize st))
    | (Some snapshotReadSize, st) =>
        match place_segments large fd mapped snapshotSize snapshotReadSize st with
        | (None, st) => (None, st)
        | (Some (base, lo), st) =>
            let '(img, st) := register base (base -64 lo) path st in (Some (img, mapped, snapshotSize), st)
        end
    end.

Definition load_file (path : Z) (st : dyld K) : option (LoadedImage * Z * Z) * dyld K :=
  let '(fd, st) := sys_open path st in
  if fd <? 0 then (None, st)
  else
    let '(fstatResult, st_size, st) := sys_fstat fd st in
    if (fstatResult <? 0) || (st_size <=? 0) then (None, sys_close fd st) else load_opened path fd st_size st.

(** ** Dependencies *)
Definition is_dylib_command (m : mem) (cmd : Z) : bool :=
  (lc_cmd m cmd =? LC_LOAD_DYLIB) || (lc_cmd m cmd =? LC_REEXPORT_DYLIB) || (lc_cmd m cmd =? LC_LOAD_WEAK_DYLIB).

(** The loop over the load commands of [mh], [load] loads one dependency. *)
Definition load_dependencies (load : Z -> dyld K -> option LoadedImage * dyld K) (mh : Z) (st : dyld K) : dyld K :=
  each_command d_mem mh
    (fun cmd st => inl (if is_dylib_command (d_mem st) cmd then (load (cmd + dylib_name_offset (d_mem st) cmd) st).2 else st)) id st.

(** [loadImage], given what loads the dependencies of the image at an address. *)
Definition load_with (dependencies : Z -> dyld K -> dyld K) (path : Z) (st : dyld K) : option LoadedImage * dyld K :=
  match already_loaded path st with
  | Some img => (Some img, st)
  | None =>
      if MAX_IMAGES <=? Z.of_nat (length (d_images st)) then (None, st)
      else
        match load_from_cache path st with
        | (Some img, st) => (Some img, st)
        | (None, st) =>
            match load_file path st with
            | (None, st) => (None, st)
            | (Some (img, mapped, snapshotSize), st) => (Some img, sys_munmap mapped snapshotSize (dependencies (img_header img) st))
            end
        end
  end.

(** [n] bounds the nesting: every level has registered an image, so [MAX_IMAGES] is
    enough ([loadImage_fuel]). *)
Fixpoint loadImage (n : nat) (path : Z) (st : dyld K) : option LoadedImage * dyld K :=
  load_with
    (fun mh st =>
       match n with
       | O => st
       | S n =>
           load_dependencies
             (fun dep st => match findLoadedImageByPath dep st with Some img => (Some img, st) | None => loadImage n dep st end) mh st
       end) path st.

Definition loadDependencyImage (depPath : Z) (st : dyld K) : option LoadedImage * dyld K :=
  match findLoadedImageByPath depPath st with
  | Some img => (Some img, st)
  | None => loadImage (Z.to_nat MAX_IMAGES) depPath st
  end.
End Loader.
