(* ===== verification/SampleKernel.v ===== *)
(** * A kernel that satisfies the laws

    Files that do not change, the first free descriptor, and mappings placed above
    everything that has been mapped. It shows that the laws of [KernelLaws] can hold
    and runs dyld on concrete files. *)

From Stdlib Require Import ZArith Lia Ascii String.
From stdpp Require Import base list gmap.
From S2P Require Import Prelude MachO Words Runs DyldImage SymbolIndex MachImage Linker Dyld DyldKernel.

Open Scope Z_scope.

(** What has been mapped ([true]) and unmapped, the last first. *)
Record sample := mkSample {
  s_fds : gmap Z (list Z * Z);
  s_history : list (bool * Z * Z) }.

(** Memory in use at the start: what is below [sample_top]. *)
Definition sample_top : Z := 0x100000.

Fixpoint in_history (h : list (bool * Z * Z)) (a : Z) : Prop :=
  match h with
  | [] => 0 <= a < sample_top
  | (true, r, len) :: h => in_history h a \/ in_pages r len a
  | (false, r, len) :: h => in_history h a /\ ~ in_pages r len a
  end.

Definition in_pages_b (r len a : Z) : bool := (r <=? a) && (a <? r + pageRoundUp len).

Fixpoint in_history_b (h : list (bool * Z * Z)) (a : Z) : bool :=
  match h with
  | [] => (0 <=? a) && (a <? sample_top)
  | (true, r, len) :: h => in_history_b h a || in_pages_b r len a
  | (false, r, len) :: h => in_history_b h a && negb (in_pages_b r len a)
  end.

Lemma in_history_b_ok h a : in_history_b h a = true <-> in_history h a.
Proof.
  induction h as [|[[[] r] len] h IH]; cbn; [lia| |].
  - rewrite orb_true_iff, IH. unfold in_pages_b, in_pages. by rewrite andb_true_iff, Z.leb_le, Z.ltb_lt.
  - rewrite andb_true_iff, negb_true_iff, IH. unfold in_pages_b, in_pages. rewrite andb_false_iff, Z.leb_gt, Z.ltb_ge. split; (intros [? ?]; split; [done|lia]).
Qed.

Fixpoint history_top (h : list (bool * Z * Z)) : Z :=
  match h with
  | [] => sample_top
  | (true, r, len) :: h => Z.max (history_top h) (r + pageRoundUp len)
  | (false, _, _) :: h => history_top h
  end.

Definition next_page (h : list (bool * Z * Z)) : Z := Z.ldiff (history_top h + 0xfff) 0xfff.

Definition page_aligned (a : Z) : bool := Z.land a 0xfff =? 0.

Section Sample.
Variable files : list (list Z * list Z).

Definition sample_file (p : list Z) : option (list Z) := snd <$> List.find (fun '(q, _) => bool_decide (q = p)) files.

Definition sample_open (p : list Z) (k : sample) : Z * sample :=
  match sample_file p, List.find (fun fd => bool_decide (s_fds k !! fd = None)) (seqZ 3 253) with
  | Some bs, Some fd => (fd, mkSample (<[fd := (bs, 0)]> (s_fds k)) (s_history k))
  | _, _ => (-2, k)
  end.

Definition sample_close (fd : Z) (k : sample) : sample := mkSample (delete fd (s_fds k)) (s_history k).

Definition sample_fstat (fd : Z) (k : sample) : Z * Z * sample :=
  match s_fds k !! fd with Some (bs, _) => (0, Z.of_nat (length bs), k) | None => (-9, 0, k) end.

Definition sample_lseek (fd off : Z) (k : sample) : Z * sample :=
  match s_fds k !! fd with Some (bs, _) => (off, mkSample (<[fd := (bs, off)]> (s_fds k)) (s_history k)) | None => (-9, k) end.

Definition sample_read (fd n : Z) (k : sample) : Z * list Z * sample :=
  match s_fds k !! fd with
  | Some (bs, off) =>
      let r := Z.max 0 (Z.min n (Z.of_nat (length bs) - off)) in
      (r, file_bytes bs off r, mkSample (<[fd := (bs, off + r)]> (s_fds k)) (s_history k))
  | None => (-9, [], k)
  end.

(** Mappings without an address stay below the shared region. *)
Definition sample_limit : Z := 0x7fff00000000.

Definition sample_mmap (addr len prot flags fd off : Z) (k : sample) : Z * list Z * sample :=
  let r := next_page (s_history k) in
  if flags =? Z.lor MAP_PRIVATE MAP_ANON then
    if r + pageRoundUp len <? sample_limit then (r, repeat 0 (Z.to_nat (pageRoundUp len)), mkSample (s_fds k) ((true, r, len) :: s_history k)) else (-12, [], k)
  else
    match s_fds k !! fd with
    | Some (bs, _) =>
        if flags =? MAP_PRIVATE then
          if r + pageRoundUp len <? sample_limit then (r, file_bytes bs off (pageRoundUp len), mkSample (s_fds k) ((true, r, len) :: s_history k)) else (-12, [], k)
        else if 2 ^ 62 <=? len then (-12, [], k)
        else
          (addr, file_bytes bs off (pageRoundUp len),
           if forallb (in_history_b (s_history k)) (seqZ addr (pageRoundUp len)) then k else mkSample (s_fds k) ((true, addr, len) :: s_history k))
    | None => (-9, [], k)
    end.

Definition sample_munmap (addr len : Z) (k : sample) : sample := mkSample (s_fds k) ((false, addr, len) :: s_history k).

#[export] Instance sample_kernel : Kernel sample := {
  k_open := sample_open; k_close := sample_close; k_fstat := sample_fstat; k_lseek := sample_lseek; k_read := sample_read;
  k_mmap := sample_mmap; k_munmap := sample_munmap; k_mprotect := fun _ _ _ k => (0, k) }.

Hypothesis files_bytes : Forall (fun '(_, bs) => Forall byte bs /\ Z.of_nat (length bs) < 2 ^ 62) files.

Lemma sample_file_ok p bs : sample_file p = Some bs -> Forall byte bs /\ Z.of_nat (length bs) < 2 ^ 62.
Proof.
  unfold sample_file. intros ([q bs'] & Hf & ->)%fmap_Some. apply find_some in Hf as [Hin _]. rewrite Forall_forall in files_bytes.
  apply (files_bytes (q, bs')). by apply list_elem_of_In.
Qed.

Lemma below_top h a : in_history h a -> a < history_top h.
Proof. clear files_bytes. induction h as [|[[[] r] len] h IH]; cbn; [lia| |tauto]. unfold in_pages. intros [Ha|Ha]; [specialize (IH Ha)|]; lia. Qed.

Lemma sample_top_le h : sample_top <= history_top h.
Proof. clear files_bytes. induction h as [|[[[] r] len] h IH]; cbn; lia. Qed.

Lemma next_page_ok h : history_top h <= next_page h /\ Z.land (next_page h) 0xfff = 0.
Proof.
  clear files_bytes. unfold next_page. pose proof (sample_top_le h). set (t := history_top h) in *. change 0xfff with (Z.ones 12). rewrite Z.ldiff_ones_r, Z.shiftr_div_pow2, Z.shiftl_mul_pow2, Z.land_ones by lia.
  change (Z.ones 12) with 4095. change (2 ^ 12) with 4096. pose proof (Z.div_mod (t + 4095) 4096 ltac:(lia)). pose proof (Z.mod_pos_bound (t + 4095) 4096 ltac:(lia)).
  split; [lia|by rewrite Z.mod_mul].
Qed.

Lemma sample_open_law p k : let '(r, k') := sample_open p k in
  in_history (s_history k') = in_history (s_history k) /\ - 2 ^ 31 <= r < 2 ^ 31 /\
  (r < 0 /\ s_fds k' = s_fds k \/ 0 <= r /\ s_fds k !! r = None /\ exists bs, sample_file p = Some bs /\ s_fds k' = <[r := (bs, 0)]> (s_fds k)).
Proof.
  clear files_bytes. unfold sample_open. destruct (sample_file p) as [bs|]; [|split_and!; try done; by left].
  destruct (List.find _ _) as [fd|] eqn:Ef; [|split_and!; try done; by left]. apply find_some in Ef as [Hin Hn]. apply bool_decide_eq_true in Hn.
  apply list_elem_of_In, elem_of_seqZ in Hin. split; [done|]. split; [lia|]. right. split; [lia|]. split; [done|]. by exists bs.
Qed.

Lemma sample_read_law fd n k : 0 < n -> let '(r, out, k') := sample_read fd n k in
  in_history (s_history k') = in_history (s_history k) /\
  (r < 0 /\ out = [] /\ s_fds k' = s_fds k \/
   exists bs off, s_fds k !! fd = Some (bs, off) /\ 0 <= r <= n /\ (r = 0 -> Z.of_nat (length bs) <= off) /\
     out = file_bytes bs off r /\ (0 < r -> off + r <= Z.of_nat (length bs)) /\ s_fds k' = <[fd := (bs, off + r)]> (s_fds k)).
Proof.
  clear files_bytes. intros Hn. unfold sample_read. destruct (s_fds k !! fd) as [[bs off]|]; [|split; [done|by left]]. split; [done|]. right.
  exists bs, off. split_and!; try done; lia.
Qed.

Lemma sample_mmap_law len prot k : 0 <= len -> let '(r, out, k') := sample_mmap 0 len prot (Z.lor MAP_PRIVATE MAP_ANON) (-1) 0 k in
  s_fds k' = s_fds k /\
  (r < 0 /\ in_history (s_history k') = in_history (s_history k) \/
   0 < r /\ Z.land r 0xfff = 0 /\ r + pageRoundUp len < 2 ^ 62 /\ (forall a, in_pages r len a -> ~ in_history (s_history k) a) /\
   out = repeat 0 (Z.to_nat (pageRoundUp len)) /\ forall a, in_history (s_history k') a <-> in_history (s_history k) a \/ in_pages r len a).
Proof.
  clear files_bytes. intros Hl. unfold sample_mmap. rewrite Z.eqb_refl. destruct (Z.ltb_spec (next_page (s_history k) + pageRoundUp len) sample_limit); [|split; [done|by left]].
  split; [done|]. right. destruct (next_page_ok (s_history k)) as [Hp Ha]. pose proof (sample_top_le (s_history k)). unfold sample_top, sample_limit in *. split_and!; try done; try lia.
  intros a Hin Hu. apply below_top in Hu. unfold in_pages in Hin. lia.
Qed.

Lemma fixed_pages h addr len : forallb (in_history_b h) (seqZ addr (pageRoundUp len)) = true <-> forall a, in_pages addr len a -> in_history h a.
Proof.
  clear files_bytes. rewrite forallb_forall. split.
  - intros Ha a Hin. apply in_history_b_ok, Ha, list_elem_of_In, elem_of_seqZ. exact Hin.
  - intros Ha a Hin. apply in_history_b_ok, Ha. by apply list_elem_of_In, elem_of_seqZ in Hin.
Qed.

Lemma sample_file_law addr len prot fd off k : 0 <= len -> Z.land len 0xfff = 0 -> (forall a, addr <= a < addr + len -> in_history (s_history k) a) ->
  let '(r, out, k') := sample_mmap addr len prot (Z.lor MAP_PRIVATE MAP_FIXED) fd off k in
  sample_file = sample_file /\ s_fds k' = s_fds k /\ in_history (s_history k') = in_history (s_history k) /\
  (r < 0 \/ r = addr /\ exists bs pos, s_fds k !! fd = Some (bs, pos) /\ out = file_bytes bs off len).
Proof.
  clear files_bytes. intros Hl Hll Hu. unfold sample_mmap. destruct (s_fds k !! fd) as [[bs pos]|]; [|split_and!; try done; by left].
  change (Z.lor MAP_PRIVATE MAP_FIXED =? Z.lor MAP_PRIVATE MAP_ANON) with false. change (Z.lor MAP_PRIVATE MAP_FIXED =? MAP_PRIVATE) with false. cbv iota.
  destruct (Z.leb_spec (2 ^ 62) len); [split_and!; try done; by left|]. destruct (pageRoundUp_le len ltac:(lia)) as [_ Ep]. specialize (Ep Hll).
  rewrite (proj2 (fixed_pages (s_history k) addr len)); [|intros a Ha; apply Hu; unfold in_pages in Ha; lia]. split_and!; [done|done|done|right]. split; [done|]. rewrite Ep. by exists bs, pos.
Qed.

Lemma sample_fixed_law addr len prot fd off k :
  let '(r, out, k') := sample_mmap addr len prot (Z.lor MAP_PRIVATE MAP_FIXED) fd off k in
  sample_file = sample_file /\ s_fds k' = s_fds k /\
  (r < 0 /\ in_history (s_history k') = in_history (s_history k) \/
   r = addr /\ (exists bs pos, s_fds k !! fd = Some (bs, pos) /\ out = file_bytes bs off (pageRoundUp len)) /\
   forall a, in_history (s_history k') a <-> in_history (s_history k) a \/ in_pages addr len a).
Proof.
  clear files_bytes. unfold sample_mmap. destruct (s_fds k !! fd) as [[bs pos]|]; [|split_and!; try done; by left]. change (Z.lor MAP_PRIVATE MAP_FIXED =? Z.lor MAP_PRIVATE MAP_ANON) with false.
  change (Z.lor MAP_PRIVATE MAP_FIXED =? MAP_PRIVATE) with false. cbv iota. destruct (2 ^ 62 <=? len); [split_and!; try done; by left|]. split_and!; [done|by destruct (forallb _ _)|right].
  split; [done|]. split; [by exists bs, pos|]. intros a. destruct (forallb _ _) eqn:E; [|done]. rewrite fixed_pages in E. split; [by left|]. intros [|]; auto.
Qed.

Lemma sample_private_law len prot fd k :
  let '(r, out, k') := sample_mmap 0 len prot MAP_PRIVATE fd 0 k in
  sample_file = sample_file /\ s_fds k' = s_fds k /\
  (r < 0 /\ in_history (s_history k') = in_history (s_history k) \/
   0 < r /\ Z.land r 0xfff = 0 /\ r + pageRoundUp len < 2 ^ 62 /\ (forall a, in_pages r len a -> ~ in_history (s_history k) a) /\
   (exists bs pos, s_fds k !! fd = Some (bs, pos) /\ out = file_bytes bs 0 (pageRoundUp len)) /\
   forall a, in_history (s_history k') a <-> in_history (s_history k) a \/ in_pages r len a).
Proof.
  clear files_bytes. unfold sample_mmap. destruct (s_fds k !! fd) as [[bs pos]|]; [|split_and!; try done; by left].
  change (MAP_PRIVATE =? Z.lor MAP_PRIVATE MAP_ANON) with false. change (MAP_PRIVATE =? MAP_PRIVATE) with true. cbv iota.
  destruct (Z.ltb_spec (next_page (s_history k) + pageRoundUp len) sample_limit); [|split_and!; try done; by left]. split_and!; [done|done|right].
  destruct (next_page_ok (s_history k)) as [Hp Ha]. pose proof (sample_top_le (s_history k)). unfold sample_top, sample_limit in *. split_and!; try done; try lia; [|by exists bs, pos].
  intros a Hin Hu. apply below_top in Hu. unfold in_pages in Hin. lia.
Qed.

#[refine, export] Instance sample_laws : KernelLaws sample := {
  k_files := fun _ => sample_file;
  k_fds := s_fds;
  k_used := fun k => in_history (s_history k);
  k_files_ok := fun _ => sample_file_ok }.
Proof.
  - intros p k. pose proof (sample_open_law p k) as Ho. cbn. by destruct (sample_open p k).
  - done.
  - intros fd k. cbn. unfold sample_fstat. destruct (s_fds k !! fd) as [[bs off]|]; split_and!; try done. intros _. by exists bs, off.
  - intros fd off k Ho. cbn. unfold sample_lseek. destruct (s_fds k !! fd) as [[bs pos]|]; split_and!; try done; [right|by left]. split; [done|]. by exists bs, pos.
  - intros fd n k Hn. pose proof (sample_read_law fd n k Hn) as Hr. cbn. by destruct (sample_read fd n k) as [[? ?] ?].
  - intros len prot k Hl. pose proof (sample_mmap_law len prot k Hl) as Hr. cbn [k_mmap sample_kernel]. by destruct (sample_mmap _ _ _ _ _ _ _) as [[? ?] ?].
  - intros addr len prot fd off k Hl Ho Hll _ _ _ Hu. exact (sample_file_law addr len prot fd off k Hl Hll Hu).
  - intros addr len prot fd off k _ _ _ _ _. pose proof (sample_fixed_law addr len prot fd off k) as Hr. cbn [k_mmap sample_kernel]. by destruct (sample_mmap _ _ _ _ _ _ _) as [[? ?] ?].
  - intros len prot fd k _. pose proof (sample_private_law len prot fd k) as Hr. cbn [k_mmap sample_kernel]. by destruct (sample_mmap _ _ _ _ _ _ _) as [[? ?] ?].
  - done.
  - done.
Defined.
End Sample.
