(* ===== verification/LoadImage.v ===== *)
(** * What loading an image guarantees: userland/dyld/panthera_dyld.cpp

    A file that is a dylib is laid out in memory segment by segment; no byte that was
    in use before changes. *)

From Stdlib Require Import ZArith Lia.
From stdpp Require Import base list gmap.
From S2P Require Import Prelude MachO Words Runs DyldImage SymbolIndex MachImage Linker Dyld DyldKernel Loader SampleKernel.

Open Scope Z_scope.

(** ** Dylibs *)
Definition is_segment (m : mem) (c : Z) : Prop := lc_cmd m c = LC_SEGMENT_64.

#[export] Instance is_segment_dec m c : Decision (is_segment m c).
Proof. unfold is_segment. apply _. Defined.

(** The first address after the load commands. *)
Definition commands_end (m : mem) (mh : Z) : Z := sizeof_mach_header_64 + mh_sizeofcmds m mh.

(** The load commands are where the header says; the data of a segment is in the
    file and fits its memory. *)
Definition segment_wf (m : mem) (len c : Z) : Prop :=
  seg_fileoff m c + seg_filesize m c <= len /\ seg_filesize m c <= seg_vmsize m c /\ seg_vmaddr m c + seg_vmsize m c <= 2 ^ 61 /\
  Z.land (seg_fileoff m c) 0xfff = 0 /\ Z.land (seg_vmaddr m c) 0xfff = 0.

(** The memory of two segments does not overlap. *)
Definition segments_apart (m : mem) (mh : Z) : Prop := forall i j c d, commands m mh !! i = Some c -> commands m mh !! j = Some d -> i <> j ->
  is_segment m c -> is_segment m d -> seg_vmaddr m c + seg_vmsize m c <= seg_vmaddr m d \/ seg_vmaddr m d + seg_vmsize m d <= seg_vmaddr m c.

Definition dylib_wf (bs : list Z) : Prop :=
  let m := fmem bs in
  (forall c, c ∈ commands m 0 -> sizeof_mach_header_64 <= c /\ c + 8 <= commands_end m 0 /\ (is_segment m c -> c + 72 <= commands_end m 0)) /\
  (forall c, c ∈ commands m 0 -> is_segment m c -> segment_wf m (Z.of_nat (length bs)) c) /\
  segments_apart m 0.

(** ** Relocated images

    [n] bytes at [p] are those of [F]. *)
Definition relocated (m : mem) (p : Z) (F : mem) (n : Z) : Prop := forall i, 0 <= i < n -> mget m (p + i) = mget F i.

Lemma relocated_mread m p F n a k : relocated m p F n -> 0 <= a -> a + Z.of_nat k <= n -> mread m (p + a) k = mread F a k.
Proof. intros Hr Ha Hk. apply mread_shift. intros i Hi. rewrite <- Z.add_assoc. apply Hr. lia. Qed.

Lemma relocated_commands m p F n : relocated m p F n -> 32 <= n ->
  (forall c, c ∈ commands F 0 -> 32 <= c /\ c + 8 <= n) -> commands m p = map (Z.add p) (commands F 0).
Proof.
  intros Hr Hn Hin. unfold commands in *. assert (En : mh_ncmds m p = mh_ncmds F 0) by (apply (relocated_mread m p F n 16 4 Hr); lia). rewrite En. clear En.
  revert Hin. unfold sizeof_mach_header_64. rewrite Z.add_0_l. generalize 32 at 1 3 4. induction (Z.to_nat (mh_ncmds F 0)) as [|k IH]; intros c Hin; cbn [commands_from map]; [done|].
  f_equal. destruct (Hin c) as [H1 H2]; [by left|]. assert (Es : lc_cmdsize m (p + c) = lc_cmdsize F c).
  { unfold lc_cmdsize. rewrite <- Z.add_assoc. apply (relocated_mread m p F n); [done|lia|lia]. }
  rewrite Es, <- Z.add_assoc. apply IH. intros d Hd. apply Hin. by right.
Qed.

(** ** The range *)
Lemma range_command_bounds m lo hi c : let '(lo', hi') := range_command m (lo, hi) c in
  lo' <= lo /\ hi <= hi' /\
  (is_segment m c -> 0 < seg_vmsize m c -> 0 <= seg_vmaddr m c -> seg_vmaddr m c + seg_vmsize m c <= 2 ^ 61 ->
     lo' <= seg_vmaddr m c /\ seg_vmaddr m c + seg_vmsize m c <= hi').
Proof.
  cbn [range_command]. unfold is_segment. destruct (Z.eqb_spec (lc_cmd m c) LC_SEGMENT_64), (Z.ltb_spec 0 (seg_vmsize m c)); cbn [andb]; try (split_and!; lia).
  split_and!; [case_match; lia|case_match; lia|]. intros _ _ Ha Hb. rewrite wrap_small by lia. split; case_match; lia.
Qed.

(** Every segment lies between the two addresses, which are those of segments. *)
Lemma vm_range_bounds m mh : mem_wf m -> (forall c, c ∈ commands m mh -> is_segment m c -> seg_vmaddr m c + seg_vmsize m c <= 2 ^ 61 /\ Z.land (seg_vmaddr m c) 0xfff = 0) ->
  let '(lo, hi) := vm_range m mh in
  0 <= lo /\ 0 <= hi <= 2 ^ 61 /\ (lo < hi /\ Z.land lo 0xfff = 0 \/ lo = 2 ^ 64 - 1 /\ hi = 0) /\
  forall c, c ∈ commands m mh -> is_segment m c -> 0 < seg_vmsize m c -> lo <= seg_vmaddr m c /\ seg_vmaddr m c + seg_vmsize m c <= hi.
Proof.
  intros Hw. unfold vm_range. generalize (commands m mh). intros l Hl.
  assert (G : forall l lo hi, (forall c, c ∈ l -> is_segment m c -> seg_vmaddr m c + seg_vmsize m c <= 2 ^ 61 /\ Z.land (seg_vmaddr m c) 0xfff = 0) ->
    0 <= lo -> 0 <= hi <= 2 ^ 61 -> (lo < hi /\ Z.land lo 0xfff = 0 \/ lo = 2 ^ 64 - 1 /\ hi = 0) ->
    let '(lo', hi') := fold_left (range_command m) l (lo, hi) in
    0 <= lo' <= lo /\ hi <= hi' <= 2 ^ 61 /\ (lo' < hi' /\ Z.land lo' 0xfff = 0 \/ lo' = 2 ^ 64 - 1 /\ hi' = 0) /\
    forall c, c ∈ l -> is_segment m c -> 0 < seg_vmsize m c -> lo' <= seg_vmaddr m c /\ seg_vmaddr m c + seg_vmsize m c <= hi').
  { clear l Hl. induction l as [|c l IH]; intros lo hi Hl Hlo Hhi Hor; cbn [fold_left]; [split_and!; try lia; try done; intros c Hc; by apply elem_of_nil in Hc|].
    pose proof (range_command_bounds m lo hi c) as Hc. assert (Hv : 0 <= seg_vmaddr m c) by (by apply (mread_range m (c + 24) 8)).
    assert (Hstep : let '(lo', hi') := range_command m (lo, hi) c in 0 <= lo' /\ 0 <= hi' <= 2 ^ 61 /\ (lo' < hi' /\ Z.land lo' 0xfff = 0 \/ lo' = 2 ^ 64 - 1 /\ hi' = 0)).
    { clear Hc. cbn [range_command]. specialize (Hl c ltac:(by left)). unfold is_segment in Hl.
      destruct (Z.eqb_spec (lc_cmd m c) LC_SEGMENT_64) as [Es|], (Z.ltb_spec 0 (seg_vmsize m c)); cbn [andb]; try (split_and!; lia). specialize (Hl Es). rewrite wrap_small by lia.
      destruct (Z.ltb_spec (seg_vmaddr m c) lo), (Z.ltb_spec hi (seg_vmaddr m c + seg_vmsize m c)); split_and!; try lia; left; split; try lia; tauto. }
    destruct (range_command m (lo, hi) c) as [lo1 hi1]. destruct Hc as (H1 & H2 & H3), Hstep as (S1 & S2 & S3).
    specialize (IH lo1 hi1 ltac:(intros d Hd; apply Hl; by right) S1 S2 S3). destruct (fold_left _ l _) as [lo2 hi2]. destruct IH as (I1 & I2 & I3 & I4).
    split_and!; try lia. intros d Hd Hs Hv'. apply elem_of_cons in Hd as [->|Hd]; [|by apply I4].
    specialize (Hl c ltac:(by left) Hs). specialize (H3 Hs Hv' Hv ltac:(lia)). lia. }
  specialize (G l (2 ^ 64 - 1) 0 Hl ltac:(lia) ltac:(lia) ltac:(by right)). destruct (fold_left _ l _) as [lo hi]. destruct G as (G1 & G2 & G3 & G4). split_and!; try lia; try done.
Qed.

Lemma page_floor n : 0 <= n -> 0 <= Z.ldiff n 0xfff <= n /\ Z.land (Z.ldiff n 0xfff) 0xfff = 0.
Proof.
  intros Hn. change 0xfff with (Z.ones 12). rewrite Z.ldiff_ones_r, Z.shiftr_div_pow2, Z.shiftl_mul_pow2, Z.land_ones by lia.
  pose proof (Z.div_mod n (2 ^ 12) ltac:(lia)). pose proof (Z.mod_pos_bound n (2 ^ 12) ltac:(lia)). pose proof (Z.div_pos n (2 ^ 12) ltac:(lia) ltac:(lia)).
  split; [lia|]. by rewrite Z.mod_mul.
Qed.

(** ** Placing segments *)
Section Place.
Context {K : Type} `{KernelLaws K}.
Variables (fd mapped base lo hi rs : Z) (large : bool) (bs : list Z).

Notation F := (fmem bs).
Notation total := (total_size lo hi).

Hypothesis bs_bytes : Forall byte bs.
Hypothesis bs_length : Z.of_nat (length bs) < 2 ^ 62.
Hypothesis bs_wf : dylib_wf bs.
Hypothesis bs_range : vm_range F 0 = (lo, hi).
Hypothesis snapshot_read : commands_end F 0 <= rs <= Z.of_nat (length bs).
Hypothesis snapshot_whole : large = false -> rs = Z.of_nat (length bs).
Hypothesis snapshot_range : 0 < mapped /\ 0 <= rs /\ mapped + rs < 2 ^ 62.
Hypothesis base_range : 0 < base /\ base + total < 2 ^ 62 /\ Z.land base 0xfff = 0.
Hypothesis snapshot_apart : disjoint mapped rs base total.

(** Where a segment goes. *)
Definition place (c : Z) : Z := base + (seg_vmaddr F c - lo).
Definition in_place (c a : Z) : Prop := place c <= a < place c + seg_vmsize F c.

Definition ready (st : dyld K) : Prop :=
  mem_wf (d_mem st) /\ relocated (d_mem st) mapped F rs /\ (exists off, k_fds (d_kernel st) !! fd = Some (bs, off)) /\
  forall a, base <= a < base + total \/ mapped <= a < mapped + rs -> k_used (d_kernel st) a.

(** What has been done for a segment: its data is in place, the rest of its memory
    is as it was or cleared. *)
Definition segment_placed (st st' : dyld K) (c : Z) : Prop :=
  (forall i, 0 <= i < seg_filesize F c -> mget (d_mem st') (place c + i) = mget F (seg_fileoff F c + i)) /\
  (forall i, seg_filesize F c <= i < seg_vmsize F c -> mget (d_mem st') (place c + i) = 0 \/ mget (d_mem st') (place c + i) = mget (d_mem st) (place c + i)).

Definition segment_effect (c : Z) (st : dyld K) (ok : bool) (st' : dyld K) : Prop :=
  quiet st st' /\ kept (fun a => ~ in_place c a) st st' /\ k_used (d_kernel st') = k_used (d_kernel st) /\
  (exists off, k_fds (d_kernel st') = <[fd := (bs, off)]> (k_fds (d_kernel st))) /\
  (if ok then segment_placed st st' c else ~ clean st').

Lemma seg_field st c k n : ready st -> c ∈ commands F 0 -> is_segment F c -> 0 <= k -> k + Z.of_nat n <= 72 -> mread (d_mem st) (mapped + c + k) n = mread F (c + k) n.
Proof using bs_wf snapshot_read.
  intros (_ & Hr & _) Hc Hs Hk Hn. destruct bs_wf as (Hin & _ & _). destruct (Hin c Hc) as (H1 & H2 & H3). specialize (H3 Hs). unfold sizeof_mach_header_64 in *.
  rewrite <- Z.add_assoc. apply (relocated_mread _ _ _ rs); [done|lia|lia].
Qed.

Lemma field_range a n : 0 <= mread F a n < 256 ^ Z.of_nat n.
Proof. apply mread_range, fmem_wf. Qed.

(** The numbers of a segment with memory. *)
Lemma segment_facts c : c ∈ commands F 0 -> is_segment F c -> 0 < seg_vmsize F c ->
  0 <= seg_fileoff F c /\ 0 <= seg_filesize F c <= seg_vmsize F c /\ seg_fileoff F c + seg_filesize F c <= Z.of_nat (length bs) /\
  0 <= seg_vmaddr F c - lo /\ seg_vmaddr F c - lo + seg_vmsize F c <= total /\ seg_vmaddr F c -64 lo = seg_vmaddr F c - lo /\
  base +64 (seg_vmaddr F c - lo) = place c /\ 0 < place c /\ place c + seg_vmsize F c <= base + total /\
  Z.land (seg_vmaddr F c - lo) 0xfff = 0 /\ Z.land (seg_fileoff F c) 0xfff = 0 /\ Z.land (place c) 0xfff = 0.
Proof using bs_wf bs_range base_range.
  intros Hc Hs Hv. destruct bs_wf as (_ & Hseg & _). destruct (Hseg c Hc Hs) as (S1 & S2 & S3 & S4 & S5).
  pose proof (vm_range_bounds F 0 (fmem_wf bs)) as Hr. rewrite bs_range in Hr.
  destruct Hr as (R1 & R2 & R3 & R4); [intros d Hd Hsd; by destruct (Hseg d Hd Hsd) as (_ & _ & ? & _ & ?)|]. destruct (R4 c Hc Hs Hv) as [B1 B2].
  pose proof (field_range (c + 40) 8) as Q1. pose proof (field_range (c + 48) 8) as Q2. fold (seg_fileoff F c) in Q1. fold (seg_filesize F c) in Q2.
  pose proof (field_range (c + 24) 8) as Q3. fold (seg_vmaddr F c) in Q3.
  destruct R3 as [[R3 Rl]|[R3 _]]; [|lia].
  assert (Et : total = pageRoundUp (hi - lo)) by (unfold total_size, pageRoundUp; rewrite (wrap_small 64 (hi - lo)) by lia; done).
  pose proof (pageRoundUp_le (hi - lo) ltac:(lia)) as [Ht _]. rewrite <- Et in Ht.
  assert (Hland : forall x y, 0 <= x -> Z.land x 0xfff = 0 -> Z.land y 0xfff = 0 -> Z.land (x + y) 0xfff = 0 /\ Z.land (x - y) 0xfff = 0).
  { intros x y _. change 0xfff with (Z.ones 12). rewrite !Z.land_ones by lia. intros Hx Hy. rewrite Z.add_mod, Zminus_mod, Hx, Hy by lia. done. }
  destruct (Hland (seg_vmaddr F c) lo ltac:(lia) S5 Rl) as [_ L1]. destruct base_range as (Hb1 & Hb2 & Hb3). destruct (Hland base (seg_vmaddr F c - lo) ltac:(lia) Hb3 L1) as [L2 _].
  unfold place. rewrite !wrap_small by lia. split_and!; lia || done.
Qed.

Lemma copy_segment_ok c st : large = false -> ready st -> c ∈ commands F 0 -> is_segment F c -> 0 < seg_filesize F c ->
  segment_effect c st true (copy_segment mapped base lo (mapped + c) st).
Proof using bs_wf bs_range base_range snapshot_whole snapshot_read snapshot_range snapshot_apart bs_length.
  intros Hl Hrd Hc Hs Hf. pose proof (proj2 (proj1 (proj2 bs_wf) c Hc Hs)) as (Hfv & _). pose proof (snapshot_whole Hl) as Hrs.
  destruct (segment_facts c Hc Hs ltac:(lia)) as (P1 & P2 & P3 & P4 & P5 & P6 & P7 & P8 & P9 & _).
  unfold copy_segment. assert (E1 : seg_vmaddr (d_mem st) (mapped + c) = seg_vmaddr F c) by (by apply (seg_field st c 24 8)).
  assert (E2 : seg_fileoff (d_mem st) (mapped + c) = seg_fileoff F c) by (by apply (seg_field st c 40 8)).
  assert (E3 : seg_filesize (d_mem st) (mapped + c) = seg_filesize F c) by (by apply (seg_field st c 48 8)).
  rewrite E1, E2, E3, P6, P7, (wrap_small 64 (mapped + _)) by lia.
  assert (Hd : disjoint (place c) (seg_filesize F c) (mapped + seg_fileoff F c) (seg_filesize F c)) by (unfold disjoint, place in *; lia).
  destruct Hrd as (Hw & Hr & (off & Hfd) & Hu). pose proof (memcpy_ok (d_mem st) (place c) (mapped + seg_fileoff F c) (seg_filesize F c) Hw ltac:(lia) Hd) as Hm.
  split_and!; [done| |done|exists off; by rewrite insert_id|split].
  - apply kept_set_mem; [intros; by apply mem_wf_memcpy|]. intros a Ha. apply (filled_out _ _ _ _ _ _ Hm). unfold in_place in Ha. lia.
  - intros i Hi. cbn [d_mem set_mem]. rewrite (filled_in _ _ _ _ _ _ Hm) by lia. replace (mapped + seg_fileoff F c + (place c + i - place c)) with (mapped + (seg_fileoff F c + i)) by lia.
    apply Hr. lia.
  - intros i Hi. right. cbn [d_mem set_mem]. apply (filled_out _ _ _ _ _ _ Hm). lia.
Qed.

(** One of the writes that make up a segment: [n] bytes at [a]. *)
Definition part (st : dyld K) (ok : bool) (st' : dyld K) (a n : Z) (f : Z -> Z) : Prop :=
  quiet st st' /\ kept (fun b => ~ a <= b < a + n) st st' /\ k_used (d_kernel st') = k_used (d_kernel st) /\
  (exists off, k_fds (d_kernel st') = <[fd := (bs, off)]> (k_fds (d_kernel st))) /\
  (if ok then filled (d_mem st) (d_mem st') a n f else ~ clean st').

Lemma part_then st st1 ok st2 a n k f : 0 <= n -> 0 <= k -> part st true st1 a n f -> part st1 ok st2 (a + n) k (fun i => f (n + i)) -> part st ok st2 a (n + k) f.
Proof.
  intros Hn Hk (Q1 & K1 & U1 & (o1 & D1) & F1) (Q2 & K2 & U2 & (o2 & D2) & F2). split_and!.
  - by eapply quiet_then.
  - eapply kept_then; (eapply kept_weaken; [|eassumption]); intros b Hb Hc; apply Hb; lia.
  - congruence.
  - exists o2. by rewrite D2, D1, insert_insert_eq.
  - destruct ok; [by eapply filled_app|done].
Qed.

Lemma part_nothing st a f : ready st -> part st true st a 0 f.
Proof. intros (_ & _ & (off & Hfd) & _). split_and!; [done|apply kept_refl|done|exists off; by rewrite insert_id|apply filled_0]. Qed.

Lemma part_ready st ok st' a n f : base <= a -> a + n <= base + total -> ready st -> part st ok st' a n f -> ready st'.
Proof using snapshot_apart.
  intros Ha Hn (Hw & Hr & (off & Hfd) & Hu) (_ & (W & _ & _ & _ & Hk) & U & (o & D) & _). unfold disjoint in snapshot_apart. split_and!; [auto| | |by rewrite U].
  - intros i Hi. rewrite <- Hr by done. apply Hk; [lia|apply Hu; lia].
  - exists o. by rewrite D, lookup_insert_eq.
Qed.

(** The pages of a segment, and what is left of its data. *)
Lemma map_pages_ok c st : ready st -> c ∈ commands F 0 -> is_segment F c -> 0 < seg_vmsize F c ->
  let full := Z.ldiff (seg_filesize F c) 0xfff in
  let '(ok, st') := if 0 <? full then
      let '(segMap, st) := sys_mmap (place c) full (Z.lor (Z.lor PROT_READ PROT_WRITE) PROT_EXEC) (Z.lor MAP_PRIVATE MAP_FIXED) fd (seg_fileoff F c) st in
      (negb (segMap <? 0), st)
    else (true, st) in
  part st ok st' (place c) full (fun i => mget F (seg_fileoff F c + i)).
Proof using bs_wf bs_range base_range.
  intros Hrd Hc Hs Hv full. destruct (segment_facts c Hc Hs Hv) as (P1 & P2 & P3 & P4 & P5 & P6 & P7 & P8 & P9 & P10 & P11 & P12).
  destruct (page_floor (seg_filesize F c)) as [Hfl Hal]; [lia|]. fold full in Hfl, Hal. destruct (Z.ltb_spec 0 full).
  - pose proof Hrd as (_ & _ & (off & Hfd) & Hu).
    pose proof (sys_mmap_file_ok (place c) full (Z.lor (Z.lor PROT_READ PROT_WRITE) PROT_EXEC) fd (seg_fileoff F c) st bs off ltac:(lia) P1 Hal P11 P12 P8
      ltac:(intros a Ha; apply Hu; unfold place in *; lia) Hfd) as Hm.
    destruct (sys_mmap _ _ _ _ _ _ _) as [r st1]. destruct Hm as (Q & Kp & D & U & Hr).
    split_and!; [done|done|done|exists off; by rewrite D, insert_id|]. destruct Hr as [[Hn Hc']|[Hn Hf]]; destruct (Z.ltb_spec r 0); try lia; done.
  - assert (full = 0) as -> by lia. by apply part_nothing.
Qed.

Lemma map_tail_ok c st n : ready st -> c ∈ commands F 0 -> is_segment F c -> 0 < seg_vmsize F c -> 0 <= n <= seg_filesize F c ->
  let tail := seg_filesize F c - n in
  let '(ok, st') := if 0 <? tail then
      if seg_fileoff F c +64 n +64 tail <=? rs
      then (true, set_mem (_memcpy (d_mem st) (wrap 64 (base + (seg_vmaddr F c - lo) + n)) (mapped +64 (seg_fileoff F c +64 n)) tail) st)
      else readFileFullyAt fd (seg_fileoff F c +64 n) (wrap 64 (base + (seg_vmaddr F c - lo) + n)) tail st
    else (true, st) in
  part st ok st' (place c + n) tail (fun i => mget F (seg_fileoff F c + (n + i))).
Proof using bs_wf bs_range base_range bs_length snapshot_range snapshot_apart snapshot_read.
  intros Hrd Hc Hs Hv Hn tail. destruct (segment_facts c Hc Hs Hv) as (P1 & P2 & P3 & P4 & P5 & P6 & P7 & P8 & P9 & _). fold (place c).
  destruct (Z.ltb_spec 0 tail); [|assert (tail = 0) as -> by lia; by apply part_nothing]. pose proof (proj1 (proj2 base_range)).
  rewrite (wrap_small 64 (seg_fileoff F c + n)), (wrap_small 64 (place c + n)) by lia. rewrite (wrap_small 64 (mapped + _)), (wrap_small 64 (_ + tail)) by (unfold tail; lia).
  pose proof Hrd as (Hw & Hr & (off & Hfd) & Hu). destruct (Z.leb_spec (seg_fileoff F c + n + tail) rs).
  - assert (Hd : disjoint (place c + n) tail (mapped + (seg_fileoff F c + n)) tail) by (unfold disjoint, place, tail in *; lia).
    pose proof (memcpy_ok (d_mem st) (place c + n) (mapped + (seg_fileoff F c + n)) tail Hw ltac:(lia) Hd) as Hm.
    split_and!; [done| |done|exists off; by rewrite insert_id|].
    + apply kept_set_mem; [intros; by apply mem_wf_memcpy|]. intros a Ha. by apply (filled_out _ _ _ _ _ _ Hm).
    + intros b. cbn [d_mem set_mem]. rewrite Hm. case_decide; [|done].
      rewrite <- Hr by lia. f_equal. lia.
  - pose proof (readFileFullyAt_ok fd (seg_fileoff F c + n) (place c + n) tail st bs off Hfd ltac:(unfold tail; lia) ltac:(lia)) as Hm.
    destruct (readFileFullyAt _ _ _ _ _) as [ok st1]. destruct Hm as (Q & Kp & U & D & Hm). split_and!; [done|done|done|done|].
    destruct Hm as [[-> Hcl]|(-> & _ & Hf)]; [intros Hc'; specialize (Hcl Hc'); unfold tail in *; lia|].
    intros b. rewrite Hf. case_decide; [|done]. by rewrite Z.add_assoc.
Qed.

(** The end of the last page is cleared. *)
Lemma clear_rest_ok c st : ready st -> c ∈ commands F 0 -> is_segment F c -> 0 < seg_vmsize F c ->
  let zeroStart := (seg_vmaddr F c - lo) +64 seg_filesize F c in
  let zeroEnd := Z.ldiff (zeroStart +64 0xfff) 0xfff in
  let segEnd := (seg_vmaddr F c - lo) +64 seg_vmsize F c in
  let zeroEnd := if segEnd <? zeroEnd then segEnd else zeroEnd in
  let st' := if zeroStart <? zeroEnd then set_mem (_memset (d_mem st) (base +64 zeroStart) 0 (zeroEnd - zeroStart)) st else st in
  exists n, 0 <= n <= seg_vmsize F c - seg_filesize F c /\ part st true st' (place c + seg_filesize F c) n (fun _ => 0).
Proof using bs_wf bs_range base_range.
  intros Hrd Hc Hs Hv. destruct (segment_facts c Hc Hs Hv) as (P1 & P2 & P3 & P4 & P5 & P6 & P7 & P8 & P9 & _). pose proof (proj1 (proj2 base_range)).
  rewrite (wrap_small 64 (seg_vmaddr F c - lo + seg_filesize F c)), (wrap_small 64 (seg_vmaddr F c - lo + seg_vmsize F c)) by lia.
  fold (pageRoundUp (seg_vmaddr F c - lo + seg_filesize F c)). intros zs ze se ze1. fold zs. fold ze. destruct (Z.ltb_spec zs ze1) as [Hz|]; [|exists 0; split; [lia|by apply part_nothing]].
  assert (Hle : ze1 <= se) by (unfold ze1; case_match; lia). unfold zs, se in *. exists (ze1 - (seg_vmaddr F c - lo + seg_filesize F c)).
  rewrite (wrap_small 64 (base + _)) by lia. replace (base + (seg_vmaddr F c - lo + seg_filesize F c)) with (place c + seg_filesize F c) by (unfold place; lia).
  pose proof Hrd as (Hw & _ & (off & Hfd) & _).
  pose proof (memset_ok (d_mem st) (place c + seg_filesize F c) 0 (ze1 - (seg_vmaddr F c - lo + seg_filesize F c)) ltac:(lia)) as Hm.
  split; [lia|]. split_and!; [done| |done|exists off; by rewrite insert_id|exact Hm].
  apply kept_set_mem; [intros; by apply mem_wf_memset|]. intros a Ha. by apply (filled_out _ _ _ _ _ _ Hm).
Qed.

Lemma map_segment_ok c st : ready st -> c ∈ commands F 0 -> is_segment F c -> 0 < seg_filesize F c ->
  let '(ok, st') := map_segment fd mapped rs base lo (mapped + c) st in segment_effect c st ok st'.
Proof using bs_wf bs_range base_range bs_length snapshot_range snapshot_apart snapshot_read.
  intros Hrd Hc Hs Hf. pose proof (proj2 (proj1 (proj2 bs_wf) c Hc Hs)) as (Hfv & _).
  destruct (segment_facts c Hc Hs ltac:(lia)) as (P1 & P2 & P3 & P4 & P5 & P6 & P7 & P8 & P9 & P10 & P11 & P12).
  unfold map_segment. assert (E1 : seg_vmaddr (d_mem st) (mapped + c) = seg_vmaddr F c) by (by apply (seg_field st c 24 8)).
  assert (E2 : seg_fileoff (d_mem st) (mapped + c) = seg_fileoff F c) by (by apply (seg_field st c 40 8)).
  assert (E3 : seg_filesize (d_mem st) (mapped + c) = seg_filesize F c) by (by apply (seg_field st c 48 8)).
  assert (E4 : seg_vmsize (d_mem st) (mapped + c) = seg_vmsize F c) by (by apply (seg_field st c 32 8)).
  rewrite E1, E2, E3, E4, P6, P10, P11, P7, !Z.eqb_refl. cbv zeta. cbn [negb orb].
  pose proof (map_pages_ok c st Hrd Hc Hs ltac:(lia)) as H1. cbv zeta in H1. set (full := Z.ldiff _ _) in *.
  destruct (page_floor (seg_filesize F c)) as [Hfl _]; [lia|]. fold full in Hfl.
  destruct (if 0 <? full then _ else _) as [ok1 st1]. assert (Hrd1 : ready st1) by (eapply (part_ready st ok1 st1); [| |exact Hrd|exact H1]; unfold place in *; lia).
  assert (Hweak : forall ok st2 n f, 0 <= n <= seg_vmsize F c -> part st ok st2 (place c) n f -> quiet st st2 /\ kept (fun a => ~ in_place c a) st st2 /\
    k_used (d_kernel st2) = k_used (d_kernel st) /\ (exists off, k_fds (d_kernel st2) = <[fd := (bs, off)]> (k_fds (d_kernel st)))).
  { intros ok st2 n f Hn (Q & Kp & U & D & _). split_and!; [done| |done|done]. eapply kept_weaken; [|exact Kp]. intros a Ha Hb. apply Ha. unfold in_place. lia. }
  destruct ok1; cbn [negb]; [|destruct (Hweak false st1 full _ ltac:(lia) H1) as (? & ? & ? & ?); split_and!; try done; apply H1].
  pose proof (map_tail_ok c st1 full Hrd1 Hc Hs ltac:(lia) ltac:(lia)) as H2. cbv zeta in H2. destruct (if 0 <? seg_filesize F c - full then _ else _) as [ok2 st2].
  pose proof (part_then st st1 ok2 st2 (place c) full (seg_filesize F c - full) _ (proj1 Hfl) ltac:(lia) H1 H2) as H12. replace (full + (seg_filesize F c - full)) with (seg_filesize F c) in H12 by lia.
  destruct ok2; cbn [negb]; [|destruct (Hweak false st2 (seg_filesize F c) _ ltac:(lia) H12) as (? & ? & ? & ?); split_and!; try done; apply H12].
  assert (Hrd2 : ready st2) by (eapply (part_ready st true st2); [| |exact Hrd|exact H12]; unfold place in *; lia).
  pose proof (clear_rest_ok c st2 Hrd2 Hc Hs ltac:(lia)) as (n & Hn & H3). cbv zeta in H3. destruct H12 as (Q & Kp & U & (off & D) & Hfill). destruct H3 as (Q3 & K3 & U3 & (off3 & D3) & F3).
  split_and!.
  - by eapply quiet_then.
  - eapply kept_then; (eapply kept_weaken; [|eassumption]); intros a Ha Hb; apply Ha; unfold in_place; lia.
  - congruence.
  - exists off3. by rewrite D3, D, insert_insert_eq.
  - split; intros i Hi.
    + rewrite (filled_out _ _ _ _ _ _ F3), (filled_in _ _ _ _ _ _ Hfill) by lia. f_equal. lia.
    + rewrite F3. case_decide; [by left|right]. apply (filled_out _ _ _ _ _ _ Hfill). lia.
Qed.

Lemma place_command_ok c st : ready st -> c ∈ commands F 0 ->
  match place_command large fd mapped rs base lo (mapped + c) st with
  | inl st' => if decide (is_segment F c /\ 0 < seg_filesize F c) then segment_effect c st true st' else st' = st
  | inr (ok, st') => is_segment F c /\ 0 < seg_filesize F c /\ ok = false /\ segment_effect c st false st'
  end.
Proof using bs_wf bs_range base_range bs_length snapshot_range snapshot_apart snapshot_read snapshot_whole.
  intros Hrd Hc. unfold place_command. destruct bs_wf as (Hin & _ & _). destruct (Hin c Hc) as (H1 & H2 & H3).
  assert (Ec : lc_cmd (d_mem st) (mapped + c) = lc_cmd F c) by (apply (relocated_mread _ _ _ rs); [apply Hrd|unfold sizeof_mach_header_64 in *; lia|lia]).
  rewrite Ec. destruct (Z.eqb_spec (lc_cmd F c) LC_SEGMENT_64) as [Hs|Hs]; cbn [andb]; [|case_decide as Hd; [by destruct Hd|done]].
  assert (Ef : seg_filesize (d_mem st) (mapped + c) = seg_filesize F c) by (by apply (seg_field st c 48 8)). rewrite Ef.
  destruct (Z.ltb_spec 0 (seg_filesize F c)) as [Hf|Hf]; [|case_decide as Hd; [lia|done]]. case_eq large; intros El.
  - pose proof (map_segment_ok c st Hrd Hc Hs Hf) as Hm. destruct (map_segment _ _ _ _ _ _ _) as [[] st']; [|done]. by rewrite decide_True.
  - rewrite decide_True by done. by apply copy_segment_ok.
Qed.

(** ** The loop over the load commands *)
Definition has_data (c : Z) : Prop := is_segment F c /\ 0 < seg_filesize F c.

(** The image so far: the segments in [p] are complete, the rest is still zero. *)
Definition laid_out (p : list Z) (m : mem) : Prop :=
  (forall c, c ∈ p -> has_data c ->
     (forall i, 0 <= i < seg_filesize F c -> mget m (place c + i) = mget F (seg_fileoff F c + i)) /\
     (forall i, seg_filesize F c <= i < seg_vmsize F c -> mget m (place c + i) = 0)) /\
  (forall a, base <= a < base + total -> (forall c, c ∈ p -> has_data c -> ~ in_place c a) -> mget m a = 0).

(** The image's range is the only memory that changes. *)
Definition placing (st0 st : dyld K) : Prop :=
  quiet st0 st /\ kept (fun a => ~ base <= a < base + total) st0 st /\ k_used (d_kernel st) = k_used (d_kernel st0) /\
  exists off, k_fds (d_kernel st) = <[fd := (bs, off)]> (k_fds (d_kernel st0)).

Lemma placing_ready st0 st : ready st0 -> placing st0 st -> ready st.
Proof using snapshot_apart.
  intros (Hw & Hr & (off & Hfd) & Hu) (_ & (W & _ & _ & _ & Hk) & U & (o & D)). unfold disjoint in snapshot_apart. split_and!; [auto| | |by rewrite U].
  - intros i Hi. rewrite <- Hr by done. apply Hk; [lia|apply Hu; lia].
  - exists o. by rewrite D, lookup_insert_eq.
Qed.

Lemma placing_effect st0 st ok st' c : c ∈ commands F 0 -> has_data c -> placing st0 st -> segment_effect c st ok st' -> placing st0 st'.
Proof using bs_wf bs_range base_range.
  intros Hc [Hs Hf] (Q & Kp & U & (o & D)) (Q' & K' & U' & (o' & D') & _). pose proof (proj2 (proj1 (proj2 bs_wf) c Hc Hs)) as (Hfv & _).
  destruct (segment_facts c Hc Hs ltac:(lia)) as (P1 & P2 & P3 & P4 & P5 & P6 & P7 & P8 & P9 & _). split_and!.
  - by eapply quiet_then.
  - eapply kept_then; [exact Kp|]. eapply kept_weaken; [|exact K']. intros a Ha Hb. apply Ha. unfold in_place, place in *. lia.
  - congruence.
  - exists o'. by rewrite D', D, insert_insert_eq.
Qed.

Lemma in_place_apart i j c d a : commands F 0 !! i = Some c -> commands F 0 !! j = Some d -> i <> j -> has_data c -> has_data d -> in_place c a -> ~ in_place d a.
Proof using bs_wf.
  intros Hi Hj Hij [Hc _] [Hd _] Ha Hb. pose proof (proj2 (proj2 bs_wf) i j c d Hi Hj Hij Hc Hd). unfold in_place, place in *. lia.
Qed.

Lemma laid_out_step p c l st st' : commands F 0 = p ++ c :: l -> ready st -> has_data c -> laid_out p (d_mem st) -> segment_effect c st true st' -> laid_out (p ++ [c]) (d_mem st').
Proof using bs_wf bs_range base_range.
  intros Hl Hrd Hd [Hdone Hrest] (_ & (_ & _ & _ & _ & Hk) & _ & _ & [Hdata Hzero]).
  assert (Hci : commands F 0 !! length p = Some c) by (rewrite Hl, lookup_app_r, Nat.sub_diag by lia; done).
  assert (Hcin : c ∈ commands F 0) by (by eapply list_elem_of_lookup_2). pose proof (proj2 (proj1 (proj2 bs_wf) c Hcin (proj1 Hd))) as (Hfv & _).
  destruct (segment_facts c Hcin (proj1 Hd) ltac:(destruct Hd; lia)) as (P1 & P2 & P3 & P4 & P5 & P6 & P7 & P8 & P9 & _).
  assert (Hold : forall d, d ∈ p -> has_data d -> exists i, commands F 0 !! i = Some d /\ i <> length p).
  { intros d Hd' _. apply list_elem_of_lookup in Hd' as [i Hi]. pose proof (lookup_lt_Some _ _ _ Hi). exists i. split; [rewrite Hl; by apply lookup_app_l_Some|lia]. }
  assert (Hused : forall d a, d ∈ commands F 0 -> has_data d -> in_place d a -> k_used (d_kernel st) a).
  { intros d a Hdi [Hds Hdf] Ha. pose proof (proj2 (proj1 (proj2 bs_wf) d Hdi Hds)) as (Hfv' & _). destruct (segment_facts d Hdi Hds ltac:(lia)) as (_ & _ & _ & Q4 & Q5 & _ & _ & _ & Q9 & _).
    apply Hrd. left. unfold in_place, place in *. lia. }
  split.
  - intros d Hdin Hdd. apply elem_of_app in Hdin as [Hdin|Hdin].
    + destruct (Hold d Hdin Hdd) as (i & Hi & Hne). assert (Hdi : d ∈ commands F 0) by (by eapply list_elem_of_lookup_2).
      assert (Hsame : forall a, in_place d a -> mget (d_mem st') a = mget (d_mem st) a).
      { intros a Ha. apply Hk; [by apply (in_place_apart i (length p) d c)|by apply (Hused d)]. }
      pose proof (proj2 (proj1 (proj2 bs_wf) d Hdi (proj1 Hdd))) as (Hfv' & _). pose proof (field_range (d + 48) 8) as Hfr. fold (seg_filesize F d) in Hfr.
      destruct (Hdone d Hdin Hdd) as [A1 A2]. split; intros k Hkk; rewrite Hsame by (unfold in_place; lia); auto.
    + apply list_elem_of_singleton in Hdin as ->. split; [done|]. intros i Hi. destruct (Hzero i Hi) as [?|E]; [done|]. rewrite E. apply Hrest; [unfold place in *; lia|].
      intros e Hein Hed Hin. destruct (Hold e Hein Hed) as (j & Hj & Hne). eapply (in_place_apart j (length p) e c); try done. unfold in_place. lia.
  - intros a Ha Hno. assert (Hnc : ~ in_place c a) by (apply Hno; [apply elem_of_app; right; by apply list_elem_of_singleton|done]).
    rewrite (proj2 (Hk a Hnc ltac:(apply Hrd; by left))). apply Hrest; [done|]. intros d Hdin. apply Hno, elem_of_app. by left.
Qed.

Lemma place_loop l : forall p st0 st, commands F 0 = p ++ l -> ready st0 -> placing st0 st -> laid_out p (d_mem st) ->
  let f := place_command large fd mapped rs base lo in
  all_states f (fun s => same_header (d_mem st0) (d_mem s) mapped (commands_end F 0)) (map (Z.add mapped) l) st /\
  let '(ok, st') := fold_until f (fun st => (true, st)) (map (Z.add mapped) l) st in
  placing st0 st' /\ if ok then laid_out (commands F 0) (d_mem st') else ~ clean st'.
Proof using bs_wf bs_range base_range bs_length snapshot_range snapshot_apart snapshot_read snapshot_whole.
  induction l as [|c l IH]; intros p st0 st Hl Hrd Hpl Hlo f.
  all: assert (Hrd' : ready st) by (by eapply placing_ready).
  all: assert (Hsh : same_header (d_mem st0) (d_mem st) mapped (commands_end F 0)).
  1, 3: intros a Ha; destruct Hrd as (_ & Hr & _), Hrd' as (_ & Hr' & _); replace a with (mapped + (a - mapped)) by lia; rewrite Hr, Hr' by lia; done.
  - cbn [map all_states fold_until]. split; [done|]. rewrite app_nil_r in Hl. by rewrite Hl.
  - cbn [map all_states fold_until]. assert (Hc : c ∈ commands F 0) by (rewrite Hl, elem_of_app; right; by left).
    pose proof (place_command_ok c st Hrd' Hc) as Hstep. fold f in Hstep. destruct (f (mapped + c) st) as [st'|[ok st']].
    + destruct (decide _) as [Hd|Hd].
      * destruct (IH (p ++ [c]) st0 st') as [I1 I2]; [by rewrite <- app_assoc|done|by eapply placing_effect|by eapply laid_out_step|]. split; [done|exact I2].
      * subst st'. destruct (IH (p ++ [c]) st0 st) as [I1 I2]; [by rewrite <- app_assoc|done|done| |split; [done|exact I2]].
        destruct Hlo as [L1 L2]. split; [intros d Hdin|].
        -- apply elem_of_app in Hdin as [?|Hdin]; [auto|]. apply list_elem_of_singleton in Hdin as ->. done.
        -- intros a Ha Hno. apply L2; [done|]. intros d Hdin. apply Hno, elem_of_app. by left.
    + destruct Hstep as (Hs & Hf & -> & He). split; [done|]. split; [by eapply placing_effect|apply He].
Qed.

Lemma place_commands_ok st : ready st -> (forall a, base <= a < base + total -> mget (d_mem st) a = 0) ->
  let '(ok, st') := each_command d_mem mapped (place_command large fd mapped rs base lo) (fun st => (true, st)) st in
  placing st st' /\ if ok then laid_out (commands F 0) (d_mem st') else ~ clean st'.
Proof using bs_wf bs_range base_range bs_length snapshot_range snapshot_apart snapshot_read snapshot_whole.
  intros Hrd Hz. destruct (place_loop (commands F 0) [] st st eq_refl Hrd) as [Ha Hf].
  { split_and!; [done|apply kept_refl|done|]. destruct Hrd as (_ & _ & (off & Hfd) & _). exists off. by rewrite insert_id. }
  { split; [intros c Hc; by apply elem_of_nil in Hc|]. intros a Ha _. by apply Hz. }
  pose proof Hrd as (Hw & Hr & _). destruct bs_wf as (Hin & _ & _). unfold sizeof_mach_header_64 in Hin.
  assert (Hn : 32 <= commands_end F 0) by (unfold commands_end, sizeof_mach_header_64; pose proof (field_range (0 + 20) 4) as Hx; fold (mh_sizeofcmds F 0) in Hx; lia).
  assert (Ec : commands (d_mem st) mapped = map (Z.add mapped) (commands F 0)).
  { apply (relocated_commands _ _ _ (commands_end F 0)); [intros i Hi; apply Hr; lia|done|]. intros c Hc. destruct (Hin c Hc) as (? & ? & _). lia. }
  rewrite (each_command_fold _ _ _ _ _ (commands_end F 0)); rewrite ?Ec; [done|done| |done].
  split; [done|]. rewrite Ec. intros c Hc. apply list_elem_of_fmap in Hc as (d & -> & Hd). destruct (Hin d Hd) as (? & ? & _). lia.
Qed.

Lemma laid_out_same m m' : (forall a, base <= a < base + total -> mget m' a = mget m a) -> laid_out (commands F 0) m -> laid_out (commands F 0) m'.
Proof using bs_wf bs_range base_range.
  intros Hs [L1 L2]. split.
  - intros c Hc [Hsg Hf]. destruct (L1 c Hc (conj Hsg Hf)) as [A1 A2]. pose proof (proj2 (proj1 (proj2 bs_wf) c Hc Hsg)) as (Hfv & _).
    destruct (segment_facts c Hc Hsg ltac:(lia)) as (_ & _ & _ & P4 & _ & _ & _ & _ & P9 & _).
    split; intros i Hi; rewrite Hs by (unfold place in *; lia); auto.
  - intros a Ha Hno. rewrite Hs by done. by apply L2.
Qed.
End Place.

(** ** Reading and placing a file *)
Section File.
Context {K : Type} `{KernelLaws K}.

Notation used st := (k_used (d_kernel st)).
Notation fds st := (k_fds (d_kernel st)).

Lemma vm_range_relocated m p bs n : dylib_wf bs -> relocated m p (fmem bs) n -> commands_end (fmem bs) 0 <= n -> vm_range m p = vm_range (fmem bs) 0.
Proof.
  intros (Hin & _ & _) Hr Hn. unfold sizeof_mach_header_64 in Hin.
  assert (H32 : 32 <= n) by (unfold commands_end, sizeof_mach_header_64 in Hn; pose proof (mread_range (fmem bs) (0 + 20) 4 (fmem_wf bs)) as Hx; fold (mh_sizeofcmds (fmem bs) 0) in Hx; lia).
  unfold vm_range. rewrite (relocated_commands m p (fmem bs) n) by (done || (intros c Hc; destruct (Hin c Hc) as (? & ? & _); lia)).
  rewrite fold_left_map. generalize (2 ^ 64 - 1, 0). revert Hin. generalize (commands (fmem bs) 0). induction l as [|c l IH]; intros Hin r; cbn [fold_left]; [done|].
  destruct (Hin c ltac:(by left)) as (H1 & H2 & H3).
  assert (E : range_command m r (p + c) = range_command (fmem bs) r c).
  { unfold range_command. destruct r as [lo hi]. assert (Ec : lc_cmd m (p + c) = lc_cmd (fmem bs) c) by (apply (relocated_mread _ _ _ n); [done|lia|lia]).
    rewrite Ec. destruct (Z.eqb_spec (lc_cmd (fmem bs) c) LC_SEGMENT_64) as [Es|]; cbn [andb]; [|done]. specialize (H3 Es).
    unfold seg_vmsize, seg_vmaddr. rewrite <- !Z.add_assoc. by rewrite !(relocated_mread m p (fmem bs) n) by (done || lia). }
  rewrite E. apply IH. intros d Hd. apply Hin. by right.
Qed.

(** Reading into the snapshot. *)
Definition reading (st st' : dyld K) (fd mapped size : Z) (bs : list Z) : Prop :=
  quiet st st' /\ kept (fun a => ~ mapped <= a < mapped + size) st st' /\ used st' = used st /\ exists off, fds st' = <[fd := (bs, off)]> (fds st).

Lemma reading_then st st1 st2 fd mapped size p n bs : mapped <= p -> p + n <= mapped + size ->
  reading st st1 fd mapped size bs -> reading st1 st2 fd p n bs -> reading st st2 fd mapped size bs.
Proof.
  intros Hp Hn (Q1 & K1 & U1 & (o1 & D1)) (Q2 & K2 & U2 & (o2 & D2)). split_and!.
  - by eapply quiet_then.
  - eapply kept_then; [exact K1|]. eapply kept_weaken; [|exact K2]. intros a Ha Hb. apply Ha. lia.
  - congruence.
  - exists o2. by rewrite D2, D1, insert_insert_eq.
Qed.

Lemma read_commands_ok fd mapped size rs0 st bs : Forall byte bs -> Z.of_nat (length bs) < 2 ^ 62 -> mem_wf (d_mem st) -> fds st !! fd = Some (bs, 0) ->
  0 < rs0 <= size -> size <= Z.of_nat (length bs) -> (rs0 < 32 -> rs0 = Z.of_nat (length bs)) ->
  (forall i, 0 <= i < 32 -> mget (d_mem st) (mapped + i) = 0) ->
  let F := fmem bs in
  match read_commands fd mapped size rs0 st with
  | (Some rs, st') => reading st st' fd mapped size bs /\ mh_magic F 0 = MH_MAGIC_64 /\ commands_end F 0 <= rs <= size /\ rs0 <= rs /\ relocated (d_mem st') mapped F rs
  | (None, st') => reading st st' fd mapped size bs /\ (clean st' -> mh_magic F 0 = MH_MAGIC_64 -> size < commands_end F 0)
  end.
Proof.
  intros Hb Hlen Hw Hfd Hrs Hsz Hsmall Hz F. unfold read_commands.
  pose proof (readFileFully_ok fd mapped rs0 st bs 0 Hfd ltac:(lia) ltac:(lia)) as Hr. destruct (readFileFully _ _ _ _) as [ok st1]. destruct Hr as (Q1 & K1 & U1 & D1 & Hr).
  assert (R1 : reading st st1 fd mapped size bs) by (split_and!; [done| |done|done]; eapply kept_weaken; [|exact K1]; intros a Ha Hc; apply Ha; lia).
  destruct Hr as [[-> Hc]|(-> & _ & Hf)]; [split; [done|intros Hcl; specialize (Hc Hcl); lia]|].
  assert (Hrel : forall i, 0 <= i < Z.max rs0 32 -> mget (d_mem st1) (mapped + i) = mget F i).
  { intros i Hi. rewrite Hf. case_decide; [f_equal; lia|]. rewrite Hz by lia. unfold F. rewrite mget_fmem by done. rewrite decide_False by lia. done. }
  assert (Em : mh_magic (d_mem st1) mapped = mh_magic F 0) by (apply mread_shift; intros i Hi; rewrite Z.add_0_l; apply Hrel; lia).
  assert (Es : sizeof_mach_header_64 + mh_sizeofcmds (d_mem st1) mapped = commands_end F 0).
  { unfold commands_end. f_equal. apply mread_shift. intros i Hi. rewrite Z.add_0_l, <- Z.add_assoc. apply Hrel. lia. }
  rewrite Em, Es. destruct (Z.eqb_spec (mh_magic F 0) MH_MAGIC_64) as [Hm|]; cbn [negb]; [|split; [done|done]].
  destruct (Z.ltb_spec size (commands_end F 0)); [split; [done|lia]|]. destruct (Z.ltb_spec rs0 (commands_end F 0)).
  - destruct D1 as (off1 & D1). pose proof (readFileFullyAt_ok fd rs0 (mapped + rs0) (commands_end F 0 - rs0) st1 bs off1 ltac:(by rewrite D1, lookup_insert_eq) ltac:(lia) ltac:(lia)) as Hr.
    destruct (readFileFullyAt _ _ _ _ _) as [ok st2]. destruct Hr as (Q2 & K2 & U2 & D2 & Hr).
    assert (R2 : reading st st2 fd mapped size bs) by (apply (reading_then st st1 st2 fd mapped size (mapped + rs0) (commands_end F 0 - rs0) bs); [lia|lia|done|by split_and!]).
    destruct Hr as [[-> Hc]|(-> & _ & Hf2)]; [split; [done|intros Hcl; specialize (Hc Hcl); lia]|]. split_and!; [done|done|lia|lia|lia|].
    intros i Hi. rewrite Hf2. case_decide; [f_equal; lia|]. apply Hrel. lia.
  - split_and!; [done|done|lia|lia|lia|]. intros i Hi. apply Hrel. lia.
Qed.

Lemma page_round_pos n : 0 < n < 2 ^ 62 -> 0x1000 <= pageRoundUp n.
Proof.
  intros Hn. unfold pageRoundUp. rewrite wrap_small by lia. change 0xfff with (Z.ones 12). rewrite Z.ldiff_ones_r, Z.shiftr_div_pow2, Z.shiftl_mul_pow2 by lia.
  assert (1 <= (n + Z.ones 12) / 2 ^ 12) by (apply Z.div_le_lower_bound; [lia|]; change (Z.ones 12) with 4095; lia). lia.
Qed.

Lemma total_size_ok bs lo hi : dylib_wf bs -> vm_range (fmem bs) 0 = (lo, hi) -> 0 < total_size lo hi < 2 ^ 63 /\ pageRoundUp (total_size lo hi) = total_size lo hi.
Proof.
  intros (_ & Hseg & _) Er. pose proof (vm_range_bounds (fmem bs) 0 (fmem_wf bs)) as Hr. rewrite Er in Hr.
  destruct Hr as (R1 & R2 & R3 & _); [intros d Hd Hsd; by destruct (Hseg d Hd Hsd) as (_ & _ & ? & _ & ?)|].
  destruct R3 as [[R3 _]|[-> ->]]; [|by vm_compute].
  unfold total_size. rewrite (wrap_small 64 (hi - lo)), (wrap_small 64 (hi - lo + _)) by lia. destruct (page_floor (hi - lo + 0xfff)) as [F1 F2]; [lia|].
  pose proof (pageRoundUp_le (hi - lo) ltac:(lia)) as [F3 _]. unfold pageRoundUp in F3. rewrite wrap_small in F3 by lia. split; [lia|]. apply pageRoundUp_le; [lia|done].
Qed.

Lemma place_segments_ok large fd mapped size rs st bs off lo hi : Forall byte bs -> Z.of_nat (length bs) < 2 ^ 62 -> dylib_wf bs -> vm_range (fmem bs) 0 = (lo, hi) ->
  commands_end (fmem bs) 0 <= rs <= Z.of_nat (length bs) -> (large = false -> rs = Z.of_nat (length bs)) ->
  0 < mapped -> 0 < rs <= size -> 0 <= size < 2 ^ 62 -> mapped + pageRoundUp size < 2 ^ 62 -> mem_wf (d_mem st) -> relocated (d_mem st) mapped (fmem bs) rs ->
  fds st !! fd = Some (bs, off) -> (forall a, in_pages mapped size a -> used st a) ->
  let total := total_size lo hi in
  let '(r, st') := place_segments large fd mapped size rs st in
  quiet st st' /\ fds st' = delete fd (fds st) /\
  match r with
  | Some (base, lo') => lo' = lo /\ (0 < base /\ base + total < 2 ^ 62 /\ Z.land base 0xfff = 0) /\ (forall a, base <= a < base + total -> ~ used st a) /\ kept (fun a => used st a) st st' /\
      (forall a, used st' a <-> used st a \/ base <= a < base + total) /\ laid_out base lo hi bs (commands (fmem bs) 0) (d_mem st')
  | None => kept (fun a => used st a /\ ~ in_pages mapped size a) st st' /\ ~ clean st'
  end.
Proof.
  intros Hb Hlen Hwf Er Hrs Hwhole Hmap Hrs0 Hsz Hmb Hw Hrel Hfd Hus total. unfold place_segments.
  rewrite (vm_range_relocated _ _ bs rs Hwf Hrel) by lia. rewrite Er. destruct (total_size_ok bs lo hi Hwf Er) as [Ht Ep]. fold total in Ht, Ep.
  pose proof (pageRoundUp_le size ltac:(lia)) as [Hps _].
  pose proof (sys_mmap_anon_ok total (Z.lor (Z.lor PROT_READ PROT_WRITE) PROT_EXEC) st ltac:(lia)) as Hm. fold total. destruct (sys_mmap _ _ _ _ _ _ _) as [base st1].
  destruct Hm as (Q1 & K1 & D1 & Hm). unfold in_pages in Hm. rewrite Ep in Hm. destruct Hm as [(Hn & U1 & C1)|(Hp & Hal & Hbb & Hfresh & U1)].
  - destruct (Z.ltb_spec base 0); [|lia]. set (st2 := sys_munmap mapped size st1). destruct (sys_munmap_ok mapped size st1) as (Q2 & K2 & _ & D2 & _ & _). fold st2 in Q2, K2, D2.
    destruct (sys_close_ok fd st2) as (Q3 & K3 & _ & _ & D3 & _). split_and!.
    + eapply quiet_then; [exact Q1|]. by eapply quiet_then.
    + by rewrite D3, D2, D1.
    + eapply kept_then; [eapply kept_weaken; [|exact K1]; done|]. eapply kept_then; [eapply kept_weaken; [|exact K2]; tauto|eapply kept_weaken; [|exact K3]; done].
    + intros Hc. apply C1. apply (kept_clean _ _ _ K2), (kept_clean _ _ _ K3), Hc.
  - destruct (Z.ltb_spec base 0); [lia|].
    assert (Happart : disjoint mapped rs base total).
    { unfold disjoint. destruct (Z.le_gt_cases (mapped + rs) base); [by left|]. destruct (Z.le_gt_cases (base + total) mapped); [by right|]. exfalso.
      apply (Hfresh (Z.max base mapped)); [lia|]. apply Hus. unfold in_pages. lia. }
    assert (Hrd : ready fd mapped base lo hi rs bs st1).
    { destruct K1 as (W & _ & _ & _ & Hk). split_and!; [auto| |exists off; by rewrite D1|].
      - intros i Hi. rewrite <- Hrel by done. apply Hk; [done|]. apply Hus. unfold in_pages. lia.
      - intros a [Ha|Ha]; apply U1; [by right|left]. apply Hus. unfold in_pages. lia. }
    pose proof (place_commands_ok fd mapped base lo hi rs large bs Hlen Hwf Er Hrs Hwhole ltac:(lia) ltac:(split_and!; [lia|fold total; lia|done]) Happart st1 Hrd
      ltac:(intros a Ha; by apply Hfresh)) as Hpl.
    destruct (each_command _ _ _ _ _) as [ok st2]. destruct Hpl as [(Q2 & K2 & U2 & (o2 & D2)) Hok]. fold total in K2.
    assert (K12 : kept (fun a => used st a) st st2).
    { eapply kept_then; [eapply kept_weaken; [|exact K1]; done|]. eapply kept_weaken; [|exact K2]. intros a Ha Hba. by apply (Hfresh a Hba). }
    destruct ok.
    + destruct (sys_close_ok fd st2) as (Q3 & K3 & M3 & U3 & D3 & _). split_and!.
      * eapply quiet_then; [exact Q1|]. by eapply quiet_then.
      * by rewrite D3, D2, D1, delete_insert_eq.
      * done.
      * done.
      * lia.
      * done.
      * intros a Ha. by apply Hfresh.
      * eapply kept_then; [exact K12|eapply kept_weaken; [|exact K3]; done].
      * intros a. rewrite U3, U2. apply U1.
      * by rewrite M3.
    + set (st3 := sys_munmap mapped size st2). set (st4 := sys_munmap base total st3).
      destruct (sys_munmap_ok mapped size st2) as (Q3 & K3 & _ & D3 & _ & _). destruct (sys_munmap_ok base total st3) as (Q4 & K4 & _ & D4 & _ & _). destruct (sys_close_ok fd st4) as (Q5 & K5 & _ & _ & D5 & _).
      fold st3 in Q3, K3, D3. fold st4 in Q4, K4, D4. unfold in_pages in K4. rewrite Ep in K4. split_and!.
      * eapply quiet_then; [exact Q1|]. eapply quiet_then; [exact Q2|]. eapply quiet_then; [exact Q3|]. by eapply quiet_then.
      * by rewrite D5, D4, D3, D2, D1, delete_insert_eq.
      * eapply kept_then; [eapply kept_weaken; [|exact K12]; tauto|]. eapply kept_then; [eapply kept_weaken; [|exact K3]; tauto|].
        eapply kept_then; [eapply kept_weaken; [|exact K4]|eapply kept_weaken; [|exact K5]; done]. intros a [Ha _] Hba. by apply (Hfresh a Hba).
      * intros Hc. apply Hok. apply (kept_clean _ _ _ K3), (kept_clean _ _ _ K4), (kept_clean _ _ _ K5), Hc.
Qed.

(** ** A file *)

(** Every file that looks like a Mach-O image is a well-formed dylib. The code relies on
    it: it does not check where segments lie before it copies them. *)
Definition files_wf (k : K) : Prop := forall p bs, k_files k p = Some bs -> mh_magic (fmem bs) 0 = MH_MAGIC_64 ->
  commands_end (fmem bs) 0 <= Z.of_nat (length bs) -> dylib_wf bs.

(** The states from which images can be loaded. The images of a split cache are used
    where they are; a flat cache is left out. *)
Definition d_ok (st : dyld K) : Prop :=
  mem_wf (d_mem st) /\ files_wf (d_kernel st) /\
  (sCacheValid (d_cache st) = true -> sCacheSplitRegion (d_cache st) = true /\ sCachePreResolved (d_cache st) = true).

Lemma d_ok_kept U st st' : d_ok st -> kept U st st' -> d_ok st'.
Proof. intros (Hw & Hf & Hc) (W & C & Fl & _). split_and!; [auto|unfold files_wf; by rewrite Fl|by rewrite C]. Qed.

(** The bytes loadImage looks at for the load commands. *)
Definition snapshot_size (bs : list Z) : Z := let n := Z.of_nat (length bs) in if 1024 * 1024 <=? n then 64 * 1024 else n.

Definition loadable (bs : list Z) : Prop := bs <> [] /\ mh_magic (fmem bs) 0 = MH_MAGIC_64 /\ commands_end (fmem bs) 0 <= snapshot_size bs.

(** The image of [bs] is in memory at [img_header img]. *)
Definition image_of (bs : list Z) (img : LoadedImage) (st : dyld K) : Prop := exists lo hi,
  dylib_wf bs /\ vm_range (fmem bs) 0 = (lo, hi) /\
  (0 < img_header img /\ img_header img + total_size lo hi < 2 ^ 62 /\ Z.land (img_header img) 0xfff = 0) /\ img_slide img = img_header img -64 lo /\
  (forall a, img_header img <= a < img_header img + total_size lo hi -> used st a) /\
  laid_out (img_header img) lo hi bs (commands (fmem bs) 0) (d_mem st).

Lemma parseSymtab_fields m c img : let img' := parseSymtab m c img in
  img_self img' = img_self img /\ img_header img' = img_header img /\ img_slide img' = img_slide img /\ img_path img' = img_path img.
Proof.
  unfold parseSymtab. destruct (findSegment m (img_header img) SEG_TEXT), (findSegment m (img_header img) SEG_LINKEDIT); try done. case_match; [done|].
  generalize (commands m (img_header img)). intros l. generalize (linkeditBaseForImage m c img z z0) as b. intros b.
  assert (G : forall l i, let i' := fold_left (parse_symtab_command m b) l i in img_self i' = img_self i /\ img_header i' = img_header i /\ img_slide i' = img_slide i /\ img_path i' = img_path i).
  { clear. induction l as [|x l IH]; intros i; cbn [fold_left]; [done|]. destruct (IH (parse_symtab_command m b i x)) as (-> & -> & -> & ->). unfold parse_symtab_command. by case_match. }
  apply G.
Qed.

Lemma kept_used st st' : kept (fun a => used st a) st st' -> kept (fun _ => True) st st'.
Proof. intros (W & C & Fl & T & Hk). split_and!; auto. Qed.

Context `{Layout}.

(** What [load_file] leaves: an image that is registered and in memory beside the
    snapshot, or, if it fails, the state as it was. *)
Definition file_loaded (path : Z) (bs : list Z) (st : dyld K) (r : option (LoadedImage * Z * Z)) (st' : dyld K) : Prop :=
  kept (fun _ => True) st st' /\ d_index st' = d_index st /\ d_logged st' = d_logged st /\
  match r with
  | None => d_images st' = d_images st /\ (clean st' -> ~ loadable bs)
  | Some (img, mapped, size) => d_images st' = d_images st ++ [img] /\ img_path img = path /\ loadable bs /\ image_of bs img st' /\
      0 <= size < 2 ^ 62 /\ (forall a, in_pages mapped size a -> ~ used st a) /\
      (forall a, in_pages mapped size a -> ~ exists lo hi, vm_range (fmem bs) 0 = (lo, hi) /\ img_header img <= a < img_header img + total_size lo hi)
  end.

(** The segments, once the load commands are in the snapshot. *)
Lemma place_register_ok path large fd mapped size rs st st2 bs off : d_ok st -> Forall byte bs -> Z.of_nat (length bs) < 2 ^ 62 -> bs <> [] ->
  (exists p, k_files (d_kernel st) p = Some bs) -> size = snapshot_size bs -> size <= Z.of_nat (length bs) -> (large = false -> rs = Z.of_nat (length bs)) ->
  0 < mapped -> mapped + pageRoundUp size < 2 ^ 62 -> (forall a, in_pages mapped size a -> ~ used st a) ->
  quiet st st2 -> kept (fun a => used st a) st st2 -> (forall a, used st2 a <-> used st a \/ in_pages mapped size a) -> fds st2 = <[fd := (bs, off)]> (fds st) ->
  mh_magic (fmem bs) 0 = MH_MAGIC_64 -> commands_end (fmem bs) 0 <= rs <= size -> relocated (d_mem st2) mapped (fmem bs) rs ->
  let '(r, st') := match place_segments large fd mapped size rs st2 with
    | (None, st) => (None, st)
    | (Some (base, lo), st) => let '(img, st) := register base (base -64 lo) path st in (Some (img, mapped, size), st)
    end in
  file_loaded path bs st r st' /\ fds st' = delete fd (fds st).
Proof.
  intros Hok Hb Hlen Hne [p Hp] Es Hsz Hwhole Hmp Hmb Hfresh Q2 K2 U2 D2 Hmag Hrs Hrel. destruct (vm_range (fmem bs) 0) as [lo hi] eqn:Er.
  assert (Hld : loadable bs) by (split_and!; [done|done|lia]).
  assert (Hwf : dylib_wf bs) by (destruct Hok as (_ & Hf & _); apply (Hf p bs Hp Hmag); lia).
  assert (H32 : 32 <= commands_end (fmem bs) 0) by (unfold commands_end, sizeof_mach_header_64; pose proof (mread_range (fmem bs) (0 + 20) 4 (fmem_wf bs)) as Hx; fold (mh_sizeofcmds (fmem bs) 0) in Hx; lia).
  pose proof (place_segments_ok large fd mapped size rs st2 bs off lo hi Hb Hlen Hwf Er ltac:(lia) Hwhole Hmp ltac:(lia) ltac:(lia) Hmb (proj1 (d_ok_kept _ _ _ Hok K2)) Hrel
    ltac:(by rewrite D2, lookup_insert_eq) ltac:(intros a Ha; apply U2; by right)) as Hpl. cbv zeta in Hpl.
  destruct (place_segments _ _ _ _ _ _) as [[[base lo']|] st3]; destruct Hpl as (Q3 & D3 & Hpl).
  - destruct Hpl as (-> & Hbp & Hbf & K3 & U3 & Hlay). unfold register. set (img := parseSymtab _ _ _).
    destruct (parseSymtab_fields (d_mem st3) (d_cache st3) (mkImage (sImages + Z.of_nat (length (d_images st3)) * sizeof_LoadedImage) base (base -64 lo) path 0 0 0 0)) as (_ & F2 & F3 & F4).
    fold img in F2, F3, F4. cbn [img_header img_slide img_path] in F2, F3, F4. destruct Q2 as (Q2 & Q2' & Q2''), Q3 as (Q3 & Q3' & Q3'').
    assert (K23 : kept (fun _ => True) st st3). { apply kept_used. eapply kept_then; [exact K2|]. eapply kept_weaken; [|exact K3]. intros a Ha. apply U2. by left. }
    split; [|cbn; by rewrite D3, D2, delete_insert_eq]. split_and!; [exact K23|by rewrite <- Q2', <- Q3'|by rewrite <- Q2'', <- Q3''|cbn; by rewrite Q3, Q2|done|done| |lia|lia|done|].
    + exists lo, hi. rewrite F2, F3. split; [done|]. split; [done|]. split; [done|]. split; [done|]. split; [|done]. intros a Ha. cbn. apply U3. by right.
    + intros a Ha (lo' & hi' & Er' & Hin). rewrite Er in Er'. injection Er' as <- <-. rewrite F2 in Hin. apply (Hbf a Hin), U2. by right.
  - destruct Hpl as [K3 C3]. destruct (quiet_then _ _ _ Q2 Q3) as (Qi & Qx & Ql). split; [|by rewrite D3, D2, delete_insert_eq].
    split_and!; [|done|done|done|done]. apply kept_used. eapply kept_then; [exact K2|]. eapply kept_weaken; [|exact K3]. intros a Ha. split; [apply U2; by left|]. intros Hin. by apply (Hfresh a Hin).
Qed.

Lemma load_opened_ok path fd st bs : d_ok st -> Forall byte bs -> Z.of_nat (length bs) < 2 ^ 62 -> 0 < Z.of_nat (length bs) -> fds st !! fd = Some (bs, 0) ->
  (exists p, k_files (d_kernel st) p = Some bs) ->
  let '(r, st') := load_opened path fd (Z.of_nat (length bs)) st in file_loaded path bs st r st' /\ fds st' = delete fd (fds st).
Proof.
  intros Hok Hb Hlen Hpos Hfd [p Hp]. unfold load_opened. set (large := 1024 * 1024 <=? Z.of_nat (length bs)). set (size := if Z.of_nat (length bs) <? _ then _ else _).
  assert (Hsz : size = snapshot_size bs /\ 0 < size <= Z.of_nat (length bs) /\ (large = true -> size = 65536) /\ (large = false -> size = Z.of_nat (length bs))).
  { unfold size, snapshot_size, large. destruct (Z.leb_spec (1024 * 1024) (Z.of_nat (length bs))); (case_match; [lia|]); split_and!; try done; lia. }
  destruct Hsz as (Es & Hsz & Hl1 & Hl2). pose proof (pageRoundUp_le size ltac:(lia)) as [Hps _]. assert (Hps32 : 32 <= pageRoundUp size) by (pose proof (page_round_pos size ltac:(lia)); lia).
  pose proof (sys_mmap_anon_ok size (Z.lor PROT_READ PROT_WRITE) st ltac:(lia)) as Hm. destruct (sys_mmap _ _ _ _ _ _ _) as [mapped st1]. destruct Hm as (Q1 & K1 & D1 & Hm).
  destruct Hm as [(Hn & U1 & C1)|(Hmp & Hal & Hmb & Hfresh & U1)].
  { destruct (Z.ltb_spec mapped 0); [|lia]. destruct (sys_close_ok fd st1) as (Q2 & K2 & _ & _ & D2 & _). destruct (quiet_then _ _ _ Q1 Q2) as (Qi & Qx & Ql).
    split; [split_and!; [by eapply kept_then|done|done|done|]|by rewrite D2, D1]. intros Hc. by apply (kept_clean _ _ _ K2) in Hc. }
  destruct (Z.ltb_spec mapped 0); [lia|]. set (rs0 := if size <? _ then _ else _).
  assert (Hrs0 : 0 < rs0 <= size /\ (rs0 < 32 -> rs0 = Z.of_nat (length bs)) /\ (large = false -> rs0 = size)).
  { unfold rs0. destruct large; case_match; split_and!; try lia; intros; try done; specialize (Hl1 eq_refl) || specialize (Hl2 eq_refl); lia. }
  destruct Hrs0 as (R1 & R2 & R3).
  pose proof (read_commands_ok fd mapped size rs0 st1 bs Hb Hlen ltac:(apply K1, Hok) ltac:(by rewrite D1) R1 ltac:(lia) R2 ltac:(intros i Hi; apply Hfresh; unfold in_pages; lia)) as Hr.
  destruct (read_commands _ _ _ _ _) as [[rs|] st2]; destruct Hr as ((Q2 & K2 & U2 & (o2 & D2)) & Hr).
  all: assert (K12 : kept (fun a => used st a) st st2) by
    (eapply kept_then; [eapply kept_weaken; [|exact K1]; done|]; eapply kept_weaken; [|exact K2]; intros a Ha Hin; apply (Hfresh a); [unfold in_pages; lia|done]).
  all: pose proof (quiet_then _ _ _ Q1 Q2) as Q12.
  - destruct Hr as (Hmag & Hce & Hrs & Hrel). eapply (place_register_ok path large fd mapped size rs st st2 bs o2); try done; try lia.
    + intros ->. done.
    + by exists p.
    + intros El. specialize (R3 El). specialize (Hl2 El). lia.
    + intros a Ha. by apply Hfresh.
    + intros a. by rewrite U2, U1.
    + by rewrite D2, D1.
  - destruct (sys_munmap_ok mapped size st2) as (Q3 & K3 & _ & D3 & _ & _). set (st3 := sys_munmap mapped size st2) in *. destruct (sys_close_ok fd st3) as (Q4 & K4 & _ & _ & D4 & _).
    destruct (quiet_then _ _ _ (quiet_then _ _ _ Q12 Q3) Q4) as (Qi & Qx & Ql). split; [|by rewrite D4, D3, D2, D1, delete_insert_eq]. split_and!; [|done|done|done|].
    + apply kept_used. eapply kept_then; [exact K12|]. eapply kept_then; [eapply kept_weaken; [|exact K3]|eapply kept_weaken; [|exact K4]; done].
      intros a Ha Hin. by apply (Hfresh a Hin).
    + intros Hc (_ & Hm & Hce). apply (kept_clean _ _ _ K4), (kept_clean _ _ _ K3) in Hc. specialize (Hr Hc Hm). lia.
Qed.

Lemma load_file_ok path st : d_ok st ->
  let '(r, st') := load_file path st in
  fds st' = fds st /\
  match k_files (d_kernel st) (cstr (d_mem st) path) with
  | Some bs => file_loaded path bs st r st'
  | None => r = None /\ kept (fun _ => True) st st' /\ quiet st st' /\ ~ clean st'
  end.
Proof.
  intros Hok. unfold load_file. pose proof (sys_open_ok path st) as Ho. destruct (sys_open path st) as [fd st1]. destruct Ho as (Q1 & K1 & M1 & Ho).
  pose proof Q1 as (Qi & Qx & Ql). destruct Ho as [(Hn & D1 & Hc)|(Hn & Hnew & bs & Hf & D1)].
  { destruct (Z.ltb_spec fd 0); [|lia]. split; [done|]. case_match; split_and!; done. }
  destruct (Z.ltb_spec fd 0); [lia|]. rewrite Hf. destruct (k_files_ok _ _ _ Hf) as [Hb Hlen].
  pose proof (sys_fstat_ok fd st1) as Hs. destruct (sys_fstat fd st1) as [[r size] st2]. destruct Hs as (Q2 & K2 & M2 & U2 & D2 & Hs).
  assert (K12 : kept (fun _ => True) st st2) by (by eapply kept_then). pose proof (quiet_then _ _ _ Q1 Q2) as Q12.
  assert (Ed : delete fd (fds st2) = fds st) by (by rewrite D2, D1, delete_insert_id).
  assert (Hclose : let st3 := sys_close fd st2 in fds st3 = fds st /\ kept (fun _ => True) st st3 /\ quiet st st3 /\ (clean st3 -> clean st2)).
  { destruct (sys_close_ok fd st2) as (Q3 & K3 & _ & _ & D3 & _). split_and!; [by rewrite D3|by eapply kept_then|by eapply quiet_then|apply (kept_clean _ _ _ K3)]. }
  destruct Hs as [[Hr Hc]|(Hr & bs' & off & Hfd & ->)].
  { destruct (Z.ltb_spec r 0); [|lia]. cbn [orb]. destruct Hclose as (C1 & C2 & (C3 & C4 & C5) & C6). split; [done|]. split_and!; try done. intros Hc'. by apply C6 in Hc'. }
  rewrite D1, lookup_insert_eq in Hfd. injection Hfd as <- <-. destruct (Z.ltb_spec r 0); [lia|]. cbn [orb]. destruct (Z.leb_spec (Z.of_nat (length bs)) 0).
  { destruct Hclose as (C1 & C2 & (C3 & C4 & C5) & C6). split; [done|]. split_and!; try done. intros _ (Hne & _). by destruct bs. }
  pose proof (load_opened_ok path fd st2 bs (d_ok_kept _ _ _ Hok K12) Hb Hlen ltac:(lia) ltac:(by rewrite D2, D1, lookup_insert_eq)) as Hl.
  destruct (load_opened _ _ _ _) as [res st3]. destruct Hl as [Hl D3].
  { exists (cstr (d_mem st) path). destruct K12 as (_ & _ & -> & _). done. }
  split; [by rewrite D3|]. destruct Hl as (L1 & L2 & L3 & L4), Q12 as (P1 & P2 & P3).
  split; [by eapply kept_then|]. split; [by rewrite L2|]. split; [by rewrite L3|]. destruct res as [[[img mapped] sz]|].
  - destruct L4 as (A1 & A2 & A3 & A4 & A5 & A6 & A7). do 5 (split; [by rewrite ?A1, ?P1|]).
    split; [|done]. intros a Ha Hu. apply (A6 a Ha). by apply K12.
  - destruct L4 as [A1 A2]. split; [by rewrite A1|done].
Qed.

(** ** Loading *)

(** What loading images does to the state: images are added, and nothing that was in
    use changes. *)
Definition loads (st st' : dyld K) : Prop :=
  kept (fun _ => True) st st' /\ d_index st' = d_index st /\ d_logged st' = d_logged st /\ fds st' = fds st /\ exists l, d_images st' = d_images st ++ l.

Lemma loads_refl st : loads st st.
Proof. split_and!; try done. exists []. by rewrite app_nil_r. Qed.

Lemma loads_then st1 st2 st3 : loads st1 st2 -> loads st2 st3 -> loads st1 st3.
Proof.
  intros (K1 & X1 & L1 & D1 & (l1 & I1)) (K2 & X2 & L2 & D2 & (l2 & I2)). split_and!; [by eapply kept_then|congruence|congruence|congruence|].
  exists (l1 ++ l2). by rewrite I2, I1, app_assoc.
Qed.

Lemma loads_ok st st' : d_ok st -> loads st st' -> d_ok st'.
Proof. intros Hok (Hk & _). by eapply d_ok_kept. Qed.

Lemma register_ok header slide path st : let '(img, st') := register header slide path st in
  loads st st' /\ d_images st' = d_images st ++ [img] /\ img_path img = path /\ img_header img = header /\ img_slide img = slide /\ d_mem st' = d_mem st /\ d_kernel st' = d_kernel st.
Proof.
  unfold register. set (img := parseSymtab _ _ _).
  destruct (parseSymtab_fields (d_mem st) (d_cache st) (mkImage (sImages + Z.of_nat (length (d_images st)) * sizeof_LoadedImage) header slide path 0 0 0 0)) as (_ & F2 & F3 & F4).
  split_and!; try done. split_and!; try done. by exists [img].
Qed.

Lemma load_from_cache_ok path st : d_ok st -> let '(r, st') := load_from_cache path st in
  loads st st' /\ match r with Some img => d_images st' = d_images st ++ [img] | None => st' = st end.
Proof.
  intros (_ & _ & Hc). unfold load_from_cache, findDylibInCache. destruct (sCacheValid (d_cache st)); [|split; [apply loads_refl|done]].
  destruct (Hc eq_refl) as [-> ->]. cbn [andb]. destruct (search_cache _ _ _ _ _) as [[mh sz]|]; [|split; [apply loads_refl|done]].
  destruct (mh_magic _ _ =? _); [|split; [apply loads_refl|done]]. pose proof (register_ok mh (sCacheSlide (d_cache st)) path st) as Hr. destruct (register _ _ _ _) as [img st1]. tauto.
Qed.

Lemma load_dependencies_ok load mh st : (forall p s, d_ok s -> loads s (load p s).2) -> d_ok st -> loads st (load_dependencies load mh st).
Proof.
  intros Hload Hok. unfold load_dependencies. apply (each_command_inv d_mem (fun s => d_ok s /\ loads st s) (loads st)); [split; [done|apply loads_refl]|by intros s []|].
  intros c s [Hs Hl]. case_match; [|done]. specialize (Hload (c + dylib_name_offset (d_mem s) c) s Hs). split; [by eapply loads_ok|by eapply loads_then].
Qed.

(** A loaded file, its dependencies, and the snapshot given back. *)
Lemma file_loads path bs st img mapped size st1 st2 : file_loaded path bs st (Some (img, mapped, size)) st1 -> fds st1 = fds st -> loads st1 st2 ->
  let st' := sys_munmap mapped size st2 in loads st st' /\ image_of bs img st' /\ d_images st' !! length (d_images st) = Some img.
Proof.
  intros (K1 & X1 & L1 & I1 & P1 & Hld & Him & Hsz & Hfresh & Happart) D1 (K2 & X2 & L2 & D2 & (l & I2)) st'.
  destruct (sys_munmap_ok mapped size st2) as ((Qi & Qx & Ql) & K3 & M3 & D3 & U3 & _). fold st' in Qi, Qx, Ql, K3, M3, D3, U3.
  assert (Ei : d_images st' = d_images st ++ img :: l) by (rewrite Qi, I2, I1, <- app_assoc; done). split; [|split].
  - split_and!; [|congruence|congruence|congruence|by exists (img :: l)]. apply kept_used. eapply kept_then; [eapply kept_weaken; [|exact K1]; done|].
    eapply kept_then; [eapply kept_weaken; [|exact K2]; done|]. eapply kept_weaken; [|exact K3]. intros a Ha Hin. by apply (Hfresh a Hin).
  - destruct Him as (lo & hi & Hwf & Er & Hbase & H3 & Hu & Hlay). exists lo, hi. destruct K2 as (_ & _ & _ & _ & K2).
    assert (Hsame : forall a, img_header img <= a < img_header img + total_size lo hi -> used st' a /\ mget (d_mem st') a = mget (d_mem st1) a).
    { intros a Ha. destruct (K2 a I (Hu a Ha)) as [Hu2 E2]. rewrite M3, E2. split; [|done]. apply U3. split; [done|]. intros Hin. apply (Happart a Hin). by exists lo, hi. }
    do 4 (split; [done|]). split; [intros a Ha; by apply Hsame|]. eapply laid_out_same; [done|done|done|intros a Ha; by apply Hsame|done].
  - rewrite Ei, lookup_app_r, Nat.sub_diag by lia. done.
Qed.

(** What loading from a file gives: the image, laid out in memory, unless the file is
    missing, is not a dylib, or a system call has failed. *)
Definition loaded_as (path : Z) (st : dyld K) (r : option LoadedImage) (st' : dyld K) : Prop :=
  match k_files (d_kernel st) (cstr (d_mem st) path) with
  | Some bs =>
      match r with
      | Some img => loadable bs /\ d_images st' !! length (d_images st) = Some img /\ img_path img = path /\ image_of bs img st'
      | None => d_images st' = d_images st /\ (clean st' -> ~ loadable bs)
      end
  | None => r = None /\ d_images st' = d_images st
  end.

Lemma load_file_with_ok deps path st : (forall mh s, d_ok s -> loads s (deps mh s)) -> d_ok st ->
  let '(r, st') := match load_file path st with
    | (None, st) => (None, st)
    | (Some (img, mapped, size), st) => (Some img, sys_munmap mapped size (deps (img_header img) st))
    end in
  loads st st' /\ loaded_as path st r st'.
Proof.
  intros Hdeps Hok. pose proof (load_file_ok path st Hok) as Hf. unfold loaded_as.
  destruct (load_file path st) as [[[[img mapped] size]|] st1]; destruct Hf as [D1 Hf]; destruct (k_files _ _) as [bs|].
  - assert (Hl : loads st1 (deps (img_header img) st1)) by (apply Hdeps; eapply d_ok_kept; [exact Hok|apply Hf]).
    destruct (file_loads path bs st img mapped size st1 _ Hf D1 Hl) as (F1 & F2 & F3). split; [done|]. split_and!; try done; apply Hf.
  - by destruct Hf.
  - destruct Hf as (F1 & F2 & F3 & F4 & F5). split; [split_and!; try done; exists []; by rewrite app_nil_r|done].
  - destruct Hf as (_ & F1 & (F2 & F3 & F4) & _). split; [split_and!; try done; exists []; by rewrite app_nil_r|done].
Qed.

Lemma load_with_ok deps path st : (forall mh s, d_ok s -> loads s (deps mh s)) -> d_ok st ->
  let '(r, st') := load_with deps path st in
  loads st st' /\
  (already_loaded path st = None -> Z.of_nat (length (d_images st)) < MAX_IMAGES -> findDylibInCache (d_mem st) (d_cache st) path = None ->
     loaded_as path st r st').
Proof.
  intros Hdeps Hok. unfold load_with. destruct (already_loaded path st); [split; [apply loads_refl|done]|].
  destruct (Z.leb_spec MAX_IMAGES (Z.of_nat (length (d_images st)))); [split; [apply loads_refl|lia]|].
  pose proof (load_from_cache_ok path st Hok) as Hc.
  assert (Hn : findDylibInCache (d_mem st) (d_cache st) path = None -> load_from_cache path st = (None, st)) by (intros E; unfold load_from_cache; by rewrite E).
  destruct (load_from_cache path st) as [[img|] st1]; destruct Hc as [Hc Es].
  - split; [done|]. intros _ _ E. by specialize (Hn E).
  - subst st1. pose proof (load_file_with_ok deps path st Hdeps Hok) as Hf. destruct (load_file path st) as [[[[img mapped] size]|] st1]; destruct Hf as [F1 F2]; (split; [done|]); intros; exact F2.
Qed.

Lemma loadImage_ok n : forall path st, d_ok st ->
  let '(r, st') := loadImage n path st in
  loads st st' /\
  (already_loaded path st = None -> Z.of_nat (length (d_images st)) < MAX_IMAGES -> findDylibInCache (d_mem st) (d_cache st) path = None ->
     loaded_as path st r st').
Proof.
  induction n as [|n IH]; intros path st Hok; cbn [loadImage]; apply load_with_ok; try done.
  - intros mh s _. apply loads_refl.
  - intros mh s Hs. apply load_dependencies_ok; [|done]. intros p s' Hs'. case_match; [apply loads_refl|]. specialize (IH p s' Hs'). destruct (loadImage n p s'). apply IH.
Qed.

Lemma loadDependencyImage_loads path st : d_ok st -> loads st (loadDependencyImage path st).2.
Proof.
  intros Hok. unfold loadDependencyImage. case_match; [apply loads_refl|]. pose proof (loadImage_ok (Z.to_nat MAX_IMAGES) path st Hok) as Hl. destruct (loadImage _ _ _). apply Hl.
Qed.
End File.

(** ** The depth of the recursion

    Whatever the kernel does, an image is registered before the images it depends on
    are loaded. *)
Section Depth.
Context {K : Type} `{Kernel K} `{Layout}.

Lemma readFileFully_images fd buf n (st : dyld K) : d_images (readFileFully fd buf n st).2 = d_images st.
Proof.
  unfold readFileFully. apply (while_inv (read_step fd) (fun '(s, _, _) => d_images s = d_images st) (fun r => d_images r.2 = d_images st)); [done|done|].
  intros [[s p] r] E. cbn [read_step]. destruct (0 <? r); [|done]. unfold sys_read. destruct (k_read _ _ _) as [[q ?] ?]. cbn. by destruct (q <=? 0).
Qed.

Lemma readFileFullyAt_images fd pos buf n (st : dyld K) : d_images (readFileFullyAt fd pos buf n st).2 = d_images st.
Proof. unfold readFileFullyAt, sys_lseek. destruct (k_lseek _ _ _) as [? ?]. case_match; [done|]. by rewrite readFileFully_images. Qed.

Lemma sys_mmap_images a l p f fd o (st : dyld K) : d_images (sys_mmap a l p f fd o st).2 = d_images st.
Proof. unfold sys_mmap. destruct (k_mmap _ _ _ _ _ _ _) as [[? ?] ?]. cbn. by case_match. Qed.

Lemma map_segment_images fd mapped rs base lo cmd (st : dyld K) : d_images (map_segment fd mapped rs base lo cmd st).2 = d_images st.
Proof.
  unfold map_segment. case_match; [done|]. set (p1 := if 0 <? _ then _ else _).
  assert (E1 : d_images p1.2 = d_images st) by (unfold p1; case_match; [|done]; pose proof (sys_mmap_images (base +64 (seg_vmaddr (d_mem st) cmd -64 lo)) (Z.ldiff (seg_filesize (d_mem st) cmd) 4095)
    (Z.lor (Z.lor PROT_READ PROT_WRITE) PROT_EXEC) (Z.lor MAP_PRIVATE MAP_FIXED) fd (seg_fileoff (d_mem st) cmd) st) as E; by destruct (sys_mmap _ _ _ _ _ _ _)).
  destruct p1 as [[] st1]; cbn [negb snd] in *; [|done]. set (p2 := if 0 <? _ then _ else _).
  assert (E2 : d_images p2.2 = d_images st) by (unfold p2; case_match; [|done]; case_match; [done|]; by rewrite readFileFullyAt_images).
  destruct p2 as [[] st2]; cbn [negb snd] in *; [|done]. by case_match.
Qed.

Lemma place_segments_images large fd mapped size rs (st : dyld K) : d_images (place_segments large fd mapped size rs st).2 = d_images st.
Proof.
  unfold place_segments. destruct (vm_range _ _) as [lo hi]. pose proof (sys_mmap_images 0 (total_size lo hi) (Z.lor (Z.lor PROT_READ PROT_WRITE) PROT_EXEC) (Z.lor MAP_PRIVATE MAP_ANON) (-1) 0 st) as E.
  destruct (sys_mmap _ _ _ _ _ _ _) as [base st1]. cbn [snd] in E. destruct (base <? 0); [exact E|].
  match goal with |- context [each_command ?a ?b ?f ?d ?s] => assert (El : d_images (each_command a b f d s).2 = d_images st) end.
  - apply (each_command_inv d_mem (fun s => d_images s = d_images st) (fun r => d_images r.2 = d_images st)); [exact E|done|].
    intros c s Es. unfold place_command. destruct ((lc_cmd _ _ =? _) && _); [|exact Es]. destruct large; [|exact Es].
    pose proof (map_segment_images fd mapped rs base lo c s) as Em. destruct (map_segment _ _ _ _ _ _ _) as [[] s']; cbn [snd] in *; congruence.
  - destruct (each_command _ _ _ _ _) as [[] st2]; exact El.
Qed.

Lemma read_commands_images fd mapped size rs (st : dyld K) : d_images (read_commands fd mapped size rs st).2 = d_images st.
Proof.
  unfold read_commands. pose proof (readFileFully_images fd mapped rs st) as E1. destruct (readFileFully _ _ _ _) as [[] st1]; cbn [snd] in *; [|done].
  destruct (negb _); [done|]. destruct (size <? _); [done|]. destruct (rs <? _); [|done].
  match goal with |- context [readFileFullyAt ?a ?b ?c ?d ?e] => pose proof (readFileFullyAt_images a b c d e) as E2; destruct (readFileFullyAt a b c d e) as [[] st2] end;
    cbn [snd] in *; congruence.
Qed.

Lemma load_file_images path (st : dyld K) : let '(r, st') := load_file path st in
  length (d_images st') = match r with Some _ => S (length (d_images st)) | None => length (d_images st) end.
Proof.
  unfold load_file, sys_open, open_path. destruct (k_open _ _) as [r k]. destruct (_ <? 0); [done|]. unfold sys_fstat. destruct (k_fstat _ _) as [[? size] k2]. destruct (_ || _); [done|].
  unfold load_opened. set (st1 := set_kernel k2 _ _). match goal with |- context [sys_mmap ?a ?b ?c ?d ?e ?f ?g] => pose proof (sys_mmap_images a b c d e f g) as E1; destruct (sys_mmap a b c d e f g) as [mapped st2] end.
  destruct (mapped <? 0); [by cbn in *; rewrite E1|]. match goal with |- context [read_commands ?a ?b ?c ?d ?e] => pose proof (read_commands_images a b c d e) as E2; destruct (read_commands a b c d e) as [[rs|] st3] end;
    cbn [snd] in *; [|by cbn; rewrite E2, E1].
  match goal with |- context [place_segments ?a ?b ?c ?d ?e ?f] => pose proof (place_segments_images a b c d e f) as E3; destruct (place_segments a b c d e f) as [[[base lo]|] st4] end; cbn [snd] in *; [|by cbn; rewrite E3, E2, E1].
  cbn. rewrite length_app. cbn. rewrite E3, E2, E1. cbn. lia.
Qed.

Lemma load_from_cache_images path (st : dyld K) : let '(r, st') := load_from_cache path st in
  length (d_images st') = match r with Some _ => S (length (d_images st)) | None => length (d_images st) end.
Proof.
  assert (Er : forall h s (s0 : dyld K), length (d_images (register h s path s0).2) = S (length (d_images s0))) by (intros; cbn; rewrite length_app; cbn; lia).
  unfold load_from_cache. destruct (findDylibInCache _ _ _) as [[mh ?]|]; [|done]. destruct (_ =? MH_MAGIC_64); [|done]. destruct (_ && _).
  { specialize (Er mh (sCacheSlide (d_cache st)) st). by destruct (register _ _ _ _). }
  destruct (vm_range _ _) as [lo hi]. match goal with |- context [sys_mmap ?a ?b ?c ?d ?e ?f ?g] => pose proof (sys_mmap_images a b c d e f g) as E1; destruct (sys_mmap a b c d e f g) as [base st2] end.
  cbn [snd] in E1. destruct (0 <? base); [|by rewrite E1].
  assert (El : d_images (each_command d_mem mh (copy_cached mh base lo) id st2) = d_images st)
    by (apply (each_command_inv d_mem (fun s => d_images s = d_images st) (fun s => d_images s = d_images st)); [exact E1|done|]; intros c s Es; unfold copy_cached; by destruct (_ && _)).
  match goal with |- context [register ?a ?b ?c ?d] => specialize (Er a b d); destruct (register a b c d) as [img st3] end. cbn [snd] in Er. by rewrite Er, El.
Qed.

(** Loading never takes an image from the table. *)
Definition grows (load : Z -> dyld K -> option LoadedImage * dyld K) : Prop :=
  forall path st, (length (d_images st) <= length (d_images (load path st).2))%nat.

Lemma load_dependencies_grow load mh (st : dyld K) : grows load -> (length (d_images st) <= length (d_images (load_dependencies load mh st)))%nat.
Proof.
  intros Hg. unfold load_dependencies. set (n := length (d_images st)).
  apply (each_command_inv d_mem (fun s => n <= length (d_images s))%nat (fun s => n <= length (d_images s))%nat); [lia|done|].
  intros c s Hs. destruct (is_dylib_command _ _); [|done]. specialize (Hg (c + dylib_name_offset (d_mem s) c) s). lia.
Qed.

Lemma load_with_grow deps : (forall mh (st : dyld K), length (d_images st) <= length (d_images (deps mh st)))%nat -> grows (load_with deps).
Proof.
  intros Hd path st. unfold load_with. destruct (already_loaded _ _); [done|]. destruct (MAX_IMAGES <=? _); [done|].
  pose proof (load_from_cache_images path st) as Ec. destruct (load_from_cache _ _) as [[img|] st1]; [cbn; lia|].
  pose proof (load_file_images path st1) as Ef. destruct (load_file _ _) as [[[[img mapped] size]|] st2]; cbn; [|lia]. specialize (Hd (img_header img) st2). lia.
Qed.

Definition loadImage_next (n : nat) (dep : Z) (st : dyld K) : option LoadedImage * dyld K :=
  match findLoadedImageByPath dep st with Some img => (Some img, st) | None => loadImage n dep st end.

Lemma loadImage_grow n : grows (loadImage n).
Proof.
  induction n as [|n IH]; cbn [loadImage]; apply load_with_grow; intros mh st; [done|].
  apply (load_dependencies_grow (loadImage_next n)). intros path s. unfold loadImage_next. destruct (findLoadedImageByPath _ _); [done|apply IH].
Qed.

(** Two bounds on the nesting give the same result when both leave room for the
    images that are missing from a full table. *)
Lemma loadImage_bound n n' path (st : dyld K) :
  MAX_IMAGES <= Z.of_nat (length (d_images st) + n) -> MAX_IMAGES <= Z.of_nat (length (d_images st) + n') ->
  loadImage n path st = loadImage n' path st.
Proof.
  revert n' path st. induction n as [|n IH]; intros n' path st Hn Hn'.
  { assert (Ef : (MAX_IMAGES <=? Z.of_nat (length (d_images st))) = true) by lia. destruct n'; cbn [loadImage]; unfold load_with; by rewrite Ef. }
  destruct n' as [|n'].
  { assert (Ef : (MAX_IMAGES <=? Z.of_nat (length (d_images st))) = true) by lia. cbn [loadImage]; unfold load_with; by rewrite Ef. }
  cbn [loadImage]. unfold load_with. destruct (already_loaded _ _); [done|]. destruct (MAX_IMAGES <=? _); [done|].
  pose proof (load_from_cache_images path st) as Ec. destruct (load_from_cache _ _) as [[img|] st1]; [done|].
  pose proof (load_file_images path st1) as Ef. destruct (load_file _ _) as [[[[img mapped] size]|] st2]; [|done]. do 2 f_equal. unfold load_dependencies.
  apply (each_command_ext d_mem (fun s => length (d_images st2) <= length (d_images s))%nat); [done|]. intros c s Hs.
  destruct (is_dylib_command _ _); [|done]. pose proof (loadImage_grow n (c + dylib_name_offset (d_mem s) c) s) as Hg.
  destruct (findLoadedImageByPath _ _); [done|]. rewrite <- (IH n'); [|lia..]. split; [done|]. lia.
Qed.

(** [MAX_IMAGES] levels are as good as any greater number. *)
Lemma loadImage_fuel n path (st : dyld K) : (Z.to_nat MAX_IMAGES <= n)%nat -> loadImage n path st = loadImage (Z.to_nat MAX_IMAGES) path st.
Proof. intros Hn. apply loadImage_bound; unfold MAX_IMAGES in *; lia. Qed.
End Depth.

#[export] Hint Resolve kept_refl quiet_refl : panthera.

(** ** Loading an image *)

(** C32. [loadImage]. In every state the result does not depend on the bound on the
    nesting once it is [MAX_IMAGES], and the table of images only grows. The rest is
    for files that are well formed, which the code does not check: every file on the
    disk that looks like a Mach-O image has load commands and segments inside the
    file, page-aligned segments apart from each other, and no segment with more data
    than room ([files_wf]); and for a cache that is split and resolved, if there is
    one. Then, on a path that is not in the table or in the cache: if the file is a
    dylib whose load commands fit the snapshot and no system call fails, the result
    is the next entry of the table, and the bytes of every segment are in memory at
    the slide of the image with zeros around them. Whatever the system calls return,
    images are only added, every descriptor is closed again, and no byte of memory
    that was in use changes. *)
Theorem image_loaded {K : Type} `{KernelLaws K} `{Layout} path (st : dyld K) :
  let '(r, st') := loadImage (Z.to_nat MAX_IMAGES) path st in
  (forall n, (Z.to_nat MAX_IMAGES <= n)%nat -> loadImage n path st = (r, st')) /\
  (length (d_images st) <= length (d_images st'))%nat /\
  (mem_wf (d_mem st) -> files_wf (d_kernel st) ->
   (sCacheValid (d_cache st) = true -> sCacheSplitRegion (d_cache st) = true /\ sCachePreResolved (d_cache st) = true) ->
   already_loaded path st = None -> Z.of_nat (length (d_images st)) < MAX_IMAGES -> findDylibInCache (d_mem st) (d_cache st) path = None ->
   loads st st' /\ loaded_as path st r st').
Proof.
  pose proof (loadImage_grow (Z.to_nat MAX_IMAGES) path st) as Hg. destruct (loadImage (Z.to_nat MAX_IMAGES) path st) as [r st'] eqn:E.
  split_and!; [intros n Hn; by rewrite loadImage_fuel|exact Hg|]. intros Hw Hf Hc Hnew Hroom Hcache.
  pose proof (loadImage_ok (Z.to_nat MAX_IMAGES) path st (conj Hw (conj Hf Hc))) as Hl. rewrite E in Hl. destruct Hl as [Hl Has].
  split; [exact Hl|by apply Has].
Qed.

(** Two dylibs of a header and a segment; the first has a second segment without data
    and depends on the second. *)
Definition fields (l : list (Z * Z)) : list Z := concat (map (fun '(n, v) => le_encode (Z.to_nat n) v) l).
Definition a_header (ncmds sizeofcmds : Z) : list (Z * Z) := [(4, MH_MAGIC_64); (4, 0); (4, 0); (4, 6); (4, ncmds); (4, sizeofcmds); (8, 0)].
Definition a_segment (vmaddr vmsize fileoff filesize : Z) : list (Z * Z) :=
  [(4, LC_SEGMENT_64); (4, 72); (16, 0); (8, vmaddr); (8, vmsize); (8, fileoff); (8, filesize); (16, 0)].
Definition a_dylib (cmd name : Z) : list (Z * Z) := [(4, cmd); (4, 32); (4, 24); (12, 0); (8, name)].

Definition file_a : list Z := fields (a_header 3 176 ++ a_segment 0x4000 0x1000 0 208 ++ a_segment 0x5000 0x1000 0 0 ++ a_dylib LC_LOAD_DYLIB (0x622f)).
Definition file_b : list Z := fields (a_header 1 72 ++ a_segment 0 0x1000 0 104).
Definition two_files : list (list Z * list Z) := [([0x2f; 0x61], file_a); ([0x2f; 0x62], file_b)].

Definition sample_layout : Layout := {| sImages := 0x10000; panthera_ttyname_shim := 0; panthera_ttyname_r_shim := 0 |}.

Definition sample_start : dyld sample := mkDyld (mstore ∅ 0x100 [0x2f; 0x61; 0]) no_cache [] empty_index 0 false (mkSample ∅ []).

Lemma bytes_by_bool bs : forallb (fun b => (0 <=? b) && (b <? 256)) bs = true -> Forall byte bs.
Proof. rewrite forallb_forall, Forall_forall. unfold byte. intros Hb b Hin. specialize (Hb b ltac:(by apply list_elem_of_In)). lia. Qed.

Lemma two_files_bytes : Forall (fun '(_, bs) => Forall byte bs /\ Z.of_nat (length bs) < 2 ^ 62) two_files.
Proof. repeat (constructor; [split; [apply bytes_by_bool; vm_compute; reflexivity|vm_compute; reflexivity]|]). constructor. Qed.

(** [dylib_wf] by evaluation. *)
Definition dylib_check (bs : list Z) : bool :=
  let m := fmem bs in let e := commands_end m 0 in let len := Z.of_nat (length bs) in
  forallb (fun c => (32 <=? c) && (c + 8 <=? e) && (negb (lc_cmd m c =? LC_SEGMENT_64) ||
    ((c + 72 <=? e) && (seg_fileoff m c + seg_filesize m c <=? len) && (seg_filesize m c <=? seg_vmsize m c) && (seg_vmaddr m c + seg_vmsize m c <=? 2 ^ 61) &&
     (Z.land (seg_fileoff m c) 0xfff =? 0) && (Z.land (seg_vmaddr m c) 0xfff =? 0)))) (commands m 0) &&
  forallb (fun i => forallb (fun j =>
    let c := nth i (commands m 0) 0 in let d := nth j (commands m 0) 0 in
    (i =? j)%nat || negb (lc_cmd m c =? LC_SEGMENT_64) || negb (lc_cmd m d =? LC_SEGMENT_64) ||
    (seg_vmaddr m c + seg_vmsize m c <=? seg_vmaddr m d) || (seg_vmaddr m d + seg_vmsize m d <=? seg_vmaddr m c))
    (seq 0 (length (commands m 0)))) (seq 0 (length (commands m 0))).

Lemma dylib_check_ok bs : dylib_check bs = true -> dylib_wf bs.
Proof.
  unfold dylib_check. set (m := fmem bs). set (e := commands_end m 0). cbv zeta. intros [Hc Ha]%andb_true_iff. rewrite forallb_forall in Hc, Ha.
  assert (Hc' : forall c, c ∈ commands m 0 -> 32 <= c /\ c + 8 <= e /\ (is_segment m c -> c + 72 <= e /\ segment_wf m (Z.of_nat (length bs)) c)).
  { intros c Hin. specialize (Hc c ltac:(by apply list_elem_of_In)). unfold is_segment, segment_wf. destruct (Z.eqb_spec (lc_cmd m c) LC_SEGMENT_64); lia. }
  split; [|split].
  - intros c Hin. destruct (Hc' c Hin) as (? & ? & Hs). split_and!; try done. intros Hseg. by apply Hs.
  - intros c Hin Hs. by apply (Hc' c Hin).
  - intros i j c d Hi Hj Hne Sc Sd. fold m in Hi, Hj, Sc, Sd |- *. pose proof (lookup_lt_Some _ _ _ Hi). pose proof (lookup_lt_Some _ _ _ Hj).
    specialize (Ha i ltac:(apply in_seq; lia)). rewrite forallb_forall in Ha. specialize (Ha j ltac:(apply in_seq; lia)).
    assert (Ei : nth i (commands m 0) 0 = c) by (by rewrite nth_lookup, Hi). assert (Ej : nth j (commands m 0) 0 = d) by (by rewrite nth_lookup, Hj).
    rewrite Ei, Ej in Ha. unfold is_segment in *.
    rewrite Sc, Sd, Z.eqb_refl in Ha. cbn [negb orb] in Ha. destruct (Nat.eqb_spec i j); [done|]. cbn [orb] in Ha. lia.
Qed.

Lemma two_files_wf p bs : sample_file two_files p = Some bs -> dylib_wf bs.
Proof.
  intros ([q bs'] & Hf & ->)%fmap_Some. apply find_some in Hf as [[[= <- <-]|[[= <- <-]|[]]] _]; apply dylib_check_ok; vm_compute; reflexivity.
Qed.

Lemma sample_start_ok : @d_ok sample (sample_kernel two_files) (sample_laws two_files two_files_bytes) sample_start.
Proof. split_and!; [apply mem_wf_mstore, mem_wf_empty|intros p bs Hp _ _; by apply (two_files_wf p)|done]. Qed.

Lemma image_loaded_witness : let '(r, st') := @loadImage sample (sample_kernel two_files) sample_layout (Z.to_nat MAX_IMAGES) 0x100 sample_start in
  r <> None /\ length (d_images st') = 2%nat /\
  @loads sample (sample_kernel two_files) (sample_laws two_files two_files_bytes) sample_start st' /\
  @loaded_as sample (sample_kernel two_files) (sample_laws two_files two_files_bytes) 0x100 sample_start r st'.
Proof.
  pose proof (@image_loaded sample (sample_kernel two_files) (sample_laws two_files two_files_bytes) sample_layout 0x100 sample_start) as Hl.
  assert (E : match @loadImage sample (sample_kernel two_files) sample_layout (Z.to_nat MAX_IMAGES) 0x100 sample_start with (Some _, st') => length (d_images st') | _ => O end = 2%nat)
    by (vm_compute; reflexivity).
  destruct (@loadImage sample (sample_kernel two_files) sample_layout (Z.to_nat MAX_IMAGES) 0x100 sample_start) as [[r|] st']; [|discriminate E].
  destruct Hl as (_ & _ & Hl). destruct sample_start_ok as (Hw & Hf & Hc).
  destruct (Hl Hw Hf Hc ltac:(vm_compute; reflexivity) ltac:(vm_compute; reflexivity) ltac:(vm_compute; reflexivity)) as [H1 H2].
  split; [discriminate|]. split; [exact E|]. split; [exact H1|exact H2].
Defined.
