(* ===== verification/CacheBuild.v ===== *)
(** * The shared cache builder: tools/build_shared_cache_real.c

    The libraries are parsed, their segments get places in three regions, TEXT, DATA
    and LINKEDIT, and are copied there; a header describes the result. The buffer is
    a memory addressed by file offset. *)

From Stdlib Require Import ZArith Lia Ascii String.
From stdpp Require Import base list gmap.
From S2P Require Import Prelude MachO Words Runs DyldImage MachImage DyldKernel SlideInfo.

Open Scope Z_scope.

Definition MAX_DYLIBS : Z := 32.
Definition MAX_SEGS : Z := 8.
Definition TEXT_REGION_BASE : Z := 0x00007FFF20000000.
Definition DATA_REGION_BASE : Z := 0x00007FFF80000000.
Definition LINK_REGION_BASE : Z := 0x00007FFFC0000000.

Definition sizeof_dyld_cache_header : Z := 512.
Definition sizeof_mapping_info : Z := 32.
Definition sizeof_mapping_and_slide_info : Z := 56.
Definition sizeof_image_info : Z := 32.

Definition LC_ID_DYLIB : Z := 0xd.

(** ** Libraries *)
Record SegInfo := mkSeg {
  s_name : list Z;
  s_origVmaddr : Z;
  s_vmsize : Z;
  s_origFileoff : Z;
  s_filesize : Z;
  s_region : Z;                  (* 0 = TEXT, 1 = DATA, 2 = LINKEDIT *)
  s_cacheFileOff : Z;
  s_cacheVmaddr : Z;
  s_slide : Z }.                 (* segSlides[s] *)

Record DylibInfo := mkDylib {
  d_installName : list Z;
  d_mapped : list Z;
  d_mtime : Z;
  d_ino : Z;
  d_segs : list SegInfo;
  d_textSegIdx : Z;
  d_linkSegIdx : Z;
  d_dataSegIdx : Z;
  d_origLinkFileoff : Z }.

Definition seg_region (name : list Z) : Z :=
  if bool_decide (name = str "__TEXT") then 0 else if bool_decide (name = str "__LINKEDIT") then 2 else 1.

(** A file of the build machine: its bytes, time and inode. *)
Record host_file := mkHostFile { hf_bytes : list Z; hf_mtime : Z; hf_ino : Z }.

Definition read_segment (m : mem) (cmd : Z) : SegInfo :=
  let name := cstr_upto 16 m (cmd + 8) in
  mkSeg name (seg_vmaddr m cmd) (seg_vmsize m cmd) (seg_fileoff m cmd) (seg_filesize m cmd) (seg_region name) 0 0 0.

Definition load_segment (m : mem) (d : DylibInfo) (cmd : Z) : DylibInfo :=
  let nseg := Z.of_nat (length (d_segs d)) in
  if (lc_cmd m cmd =? LC_SEGMENT_64) && (nseg <? MAX_SEGS) then
    let si := read_segment m cmd in
    mkDylib (d_installName d) (d_mapped d) (d_mtime d) (d_ino d) (d_segs d ++ [si])
      (if bool_decide (s_name si = str "__TEXT") then nseg else d_textSegIdx d)
      (if bool_decide (s_name si = str "__LINKEDIT") then nseg else d_linkSegIdx d)
      (if (s_region si =? 1) && (d_dataSegIdx d <? 0) then nseg else d_dataSegIdx d) (d_origLinkFileoff d)
  else d.

Definition load_name (m : mem) (d : DylibInfo) (cmd : Z) : DylibInfo :=
  if lc_cmd m cmd =? LC_ID_DYLIB then
    mkDylib (take 255 (cstr m (cmd + dylib_name_offset m cmd))) (d_mapped d) (d_mtime d) (d_ino d) (d_segs d)
      (d_textSegIdx d) (d_linkSegIdx d) (d_dataSegIdx d) (d_origLinkFileoff d)
  else d.

Definition nth_seg (d : DylibInfo) (i : Z) : option SegInfo := if i <? 0 then None else d_segs d !! Z.to_nat i.

(** The new [gDylibs] and whether the function returns 0; [None] is [die], and [f] is
    [None] when the file cannot be opened. *)
Definition load_dylib (f : option host_file) (gDylibs : list DylibInfo) : option (bool * list DylibInfo) :=
  if MAX_DYLIBS <=? Z.of_nat (length gDylibs) then None
  else
    match f with
    | None => Some (false, gDylibs)
    | Some f =>
        let m := fmem (hf_bytes f) in
        if negb (mh_magic m 0 =? MH_MAGIC_64) || negb (mread m 4 4 =? CPU_TYPE_X86_64) then Some (false, gDylibs)
        else
          let d := fold_left (fun d cmd => load_name m (load_segment m d cmd) cmd) (commands m 0)
                     (mkDylib [] (hf_bytes f) (hf_mtime f) (hf_ino f) [] (-1) (-1) (-1) 0) in
          if (d_textSegIdx d <? 0) || bool_decide (d_installName d = []) then Some (false, gDylibs)
          else if existsb (fun e => bool_decide (d_installName e = d_installName d)) gDylibs then Some (false, gDylibs)
          else
            let link := match nth_seg d (d_linkSegIdx d) with Some si => s_origFileoff si | None => 0 end in
            Some (true, gDylibs ++ [mkDylib (d_installName d) (d_mapped d) (d_mtime d) (d_ino d) (d_segs d)
                                     (d_textSegIdx d) (d_linkSegIdx d) (d_dataSegIdx d) link])
    end.

(** ** Addresses *)

(** [tCur], [dCur] and [lCur]. *)
Record cursors := mkCur { tCur : Z; dCur : Z; lCur : Z }.

Definition aligned_size (si : SegInfo) : Z := let asz := PAGE_ALIGN (s_vmsize si) in if asz =? 0 then PAGE_SZ else asz.

Definition cursor (region : Z) (c : cursors) : Z := if region =? 0 then tCur c else if region =? 1 then dCur c else lCur c.

Definition advance (c : cursors) (si : SegInfo) : cursors :=
  if s_region si =? 0 then mkCur (tCur c +64 aligned_size si) (dCur c) (lCur c)
  else if s_region si =? 1 then mkCur (tCur c) (dCur c +64 aligned_size si) (lCur c)
  else mkCur (tCur c) (dCur c) (lCur c +64 aligned_size si).

Record cache_layout := mkLayout {
  gMetaSize : Z;
  gTextFileOff : Z; gTextSize : Z;
  gDataFileOff : Z; gDataSize : Z;
  gLinkFileOff : Z; gLinkSize : Z;
  gSlideInfoFileOff : Z; gSlideInfoSize : Z }.

Definition gBufSize (L : cache_layout) : Z := gSlideInfoFileOff L +64 gSlideInfoSize L.

Definition paths_size (ds : list DylibInfo) : Z := fold_left (fun n d => n +64 (Z.of_nat (length (d_installName d)) + 1)) ds 0.

Definition layout_of (ds : list DylibInfo) : cache_layout :=
  let cur := fold_left (fun c d => fold_left advance (d_segs d) c) ds (mkCur 0 0 0) in
  let gMetaSize := PAGE_ALIGN (sizeof_dyld_cache_header + 3 * sizeof_mapping_info + 3 * sizeof_mapping_and_slide_info
    + Z.of_nat (length ds) * sizeof_image_info + paths_size ds + 256) in
  let gTextFileOff := gMetaSize in
  let gTextSize := PAGE_ALIGN (tCur cur) in
  let gDataFileOff := gTextFileOff +64 gTextSize in
  let gDataSize := PAGE_ALIGN (dCur cur) in
  let gLinkFileOff := gDataFileOff +64 gDataSize in
  let gLinkSize := PAGE_ALIGN (lCur cur) in
  let gSlideInfoFileOff := gLinkFileOff +64 gLinkSize in
  let dataPages := (gDataSize +64 (PAGE_SZ - 1)) / PAGE_SZ in
  mkLayout gMetaSize gTextFileOff gTextSize gDataFileOff gDataSize gLinkFileOff gLinkSize gSlideInfoFileOff
    (PAGE_ALIGN (sizeof_slide_info2 +64 dataPages * 2 * 2 +64 4096)).

Definition region_base (region : Z) : Z := if region =? 0 then TEXT_REGION_BASE else if region =? 1 then DATA_REGION_BASE else LINK_REGION_BASE.
Definition region_off (L : cache_layout) (region : Z) : Z := if region =? 0 then gTextFileOff L else if region =? 1 then gDataFileOff L else gLinkFileOff L.
Definition region_size (L : cache_layout) (region : Z) : Z := if region =? 0 then gTextSize L else if region =? 1 then gDataSize L else gLinkSize L.

Definition assign_segment (L : cache_layout) (c : cursors) (si : SegInfo) : SegInfo :=
  let at_ := cursor (s_region si) c in
  let vmaddr := region_base (s_region si) +64 at_ in
  mkSeg (s_name si) (s_origVmaddr si) (s_vmsize si) (s_origFileoff si) (s_filesize si) (s_region si)
    (region_off L (s_region si) +64 at_) vmaddr (vmaddr -64 s_origVmaddr si).

Fixpoint assign_segments (L : cache_layout) (c : cursors) (l : list SegInfo) : list SegInfo :=
  match l with
  | [] => []
  | si :: l => assign_segment L c si :: assign_segments L (advance c si) l
  end.

Definition set_segs (d : DylibInfo) (segs : list SegInfo) : DylibInfo :=
  mkDylib (d_installName d) (d_mapped d) (d_mtime d) (d_ino d) segs (d_textSegIdx d) (d_linkSegIdx d) (d_dataSegIdx d) (d_origLinkFileoff d).

Fixpoint assign_dylibs (L : cache_layout) (c : cursors) (ds : list DylibInfo) : list DylibInfo :=
  match ds with
  | [] => []
  | d :: ds => set_segs d (assign_segments L c (d_segs d)) :: assign_dylibs L (fold_left advance (d_segs d) c) ds
  end.

Definition assign_addresses (ds : list DylibInfo) : list DylibInfo * cache_layout :=
  let L := layout_of ds in (assign_dylibs L (mkCur 0 0 0) ds, L).

(** ** Copying *)
Definition copy_into (L : cache_layout) (d : DylibInfo) (gBuf : mem) (si : SegInfo) : mem :=
  if s_filesize si =? 0 then gBuf
  else if gBufSize L <? s_cacheFileOff si +64 s_filesize si then gBuf
  else mstore gBuf (s_cacheFileOff si) (file_bytes (d_mapped d) (s_origFileoff si) (s_filesize si)).

Definition copy_segments (L : cache_layout) (ds : list DylibInfo) (gBuf : mem) : mem :=
  fold_left (fun gBuf d => fold_left (copy_into L d) (d_segs d) gBuf) ds gBuf.

(** ** The header *)
Definition mappings (L : cache_layout) : list (Z * Z * Z * Z) :=
  [(TEXT_REGION_BASE, gTextSize L, gTextFileOff L, 5); (DATA_REGION_BASE, gDataSize L, gDataFileOff L, 3); (LINK_REGION_BASE, gLinkSize L, gLinkFileOff L, 1)].

Definition mapping_bytes (x : Z * Z * Z * Z) : list Z :=
  let '(address, size, fileOffset, prot) := x in le_encode 8 address ++ le_encode 8 size ++ le_encode 8 fileOffset ++ le_encode 4 prot ++ le_encode 4 prot.

Definition slide_mapping_bytes (x : Z * Z * Z * Z) (slideOff slideSize : Z) : list Z :=
  let '(address, size, fileOffset, prot) := x in
  le_encode 8 address ++ le_encode 8 size ++ le_encode 8 fileOffset ++ le_encode 8 slideOff ++ le_encode 8 slideSize ++ le_encode 8 0 ++ le_encode 4 prot ++ le_encode 4 prot.

Definition text_vmaddr (d : DylibInfo) : Z := match nth_seg d (d_textSegIdx d) with Some si => s_cacheVmaddr si | None => 0 end.

(** The image information of the [i]-th library at [imagesOff + 32 i], its name at
    [pathCur]. *)
Definition write_image (imagesOff : Z) (s : mem * Z * Z) (d : DylibInfo) : mem * Z * Z :=
  let '(gBuf, i, pathCur) := s in
  let a := imagesOff + i * sizeof_image_info in
  let gBuf := mwrite gBuf a 8 (text_vmaddr d) in
  let gBuf := mwrite gBuf (a + 8) 8 (d_mtime d) in
  let gBuf := mwrite gBuf (a + 16) 8 (d_ino d) in
  let gBuf := mwrite gBuf (a + 24) 4 pathCur in
  (mstore gBuf pathCur (d_installName d ++ [0]), i + 1, pathCur +32 (Z.of_nat (length (d_installName d)) + 1)).

Definition mappingOff : Z := sizeof_dyld_cache_header.
Definition slideMapOff : Z := mappingOff + 3 * sizeof_mapping_info.
Definition imagesOff : Z := slideMapOff + 3 * sizeof_mapping_and_slide_info.
Definition pathsOff (ds : list DylibInfo) : Z := wrap 32 (imagesOff + Z.of_nat (length ds) * sizeof_image_info).

(** [uuid] is what [uuid_generate] gives. *)
Definition write_header (uuid : list Z) (L : cache_layout) (n : Z) (gBuf : mem) : mem :=
  let b := mstore gBuf 0 (str "dyld_v1  x86_64" ++ [0]) in
  let b := mwrite b 16 4 mappingOff in
  let b := mwrite b 20 4 3 in
  let b := mwrite b 448 4 imagesOff in
  let b := mwrite b 452 4 n in
  let b := mwrite b 24 4 imagesOff in
  let b := mwrite b 28 4 n in
  let b := mwrite b 224 8 SHARED_REGION_BASE in
  let b := mwrite b 232 8 ((LINK_REGION_BASE +64 gLinkSize L) -64 SHARED_REGION_BASE) in
  let b := mwrite b 216 4 1 in
  let b := mwrite b 220 4 (Z.lor (Z.shiftl 1 10) (Z.shiftl 1 11)) in
  let b := mwrite b 104 8 0 in
  let b := mwrite b 312 4 slideMapOff in
  let b := mwrite b 316 4 3 in
  mstore b 88 uuid.

Definition write_mappings (L : cache_layout) (locs : Z) (gBuf : mem) : mem :=
  let slide := (0 <? gSlideInfoSize L) && (0 <? locs) in
  let b := mstore gBuf mappingOff (concat (map mapping_bytes (mappings L))) in
  mstore b slideMapOff (concat (imap (fun i x => slide_mapping_bytes x (if (i =? 1)%nat && slide then gSlideInfoFileOff L else 0)
    (if (i =? 1)%nat && slide then gSlideInfoSize L else 0)) (mappings L))).

Definition write_metadata (uuid : list Z) (L : cache_layout) (locs : Z) (ds : list DylibInfo) (gBuf : mem) : mem :=
  let gBuf := write_mappings L locs (write_header uuid L (Z.of_nat (length ds)) gBuf) in
  (fold_left (write_image imagesOff) ds (gBuf, 0, pathsOff ds)).1.1.

(** ** The file *)
Definition set_slide_size (size : Z) (L : cache_layout) : cache_layout :=
  mkLayout (gMetaSize L) (gTextFileOff L) (gTextSize L) (gDataFileOff L) (gDataSize L) (gLinkFileOff L) (gLinkSize L) (gSlideInfoFileOff L) size.

(** The last steps of [main], from the buffer with the fixups applied to the bytes of
    the file; [None] is an exit with an error. *)
Definition finish_cache (uuid : list Z) (L : cache_layout) (ds : list DylibInfo) (gRebaseLocs : list Z) (gBuf : mem) : option (list Z) :=
  match generate_slide_info_v2 (gDataFileOff L) (gDataSize L) (gSlideInfoFileOff L) (gSlideInfoSize L) gRebaseLocs gBuf with
  | None => None
  | Some (gBuf, gRebaseLocs, slideSize) =>
      let gBuf := write_metadata uuid (set_slide_size slideSize L) (Z.of_nat (length gRebaseLocs)) ds gBuf in
      let actualSize := gSlideInfoFileOff L +64 slideSize in
      Some (mbytes gBuf 0 (Z.to_nat (if actualSize <? gBufSize L then actualSize else gBufSize L)))
  end.

(** ** Libraries that are taken *)
Definition text_ok (d : DylibInfo) : Prop := exists si, nth_seg d (d_textSegIdx d) = Some si /\ s_region si = 0.

(** What holds of the library while its commands are read. *)
Definition reading_dylib (bytes : list Z) (d : DylibInfo) : Prop :=
  d_mapped d = bytes /\ Z.of_nat (length (d_segs d)) <= MAX_SEGS /\ (length (d_installName d) <= 255)%nat /\ Forall (fun c => c <> 0) (d_installName d) /\ (d_textSegIdx d < 0 \/ text_ok d) /\
  (forall si, si ∈ d_segs d -> s_region si = seg_region (s_name si)).

Lemma load_segment_ok m bytes d cmd : reading_dylib bytes d -> reading_dylib bytes (load_segment m d cmd).
Proof.
  intros (H1 & H2 & H3 & H4 & H5 & H6). unfold load_segment. destruct (_ && _) eqn:E; [|done]. apply andb_true_iff in E as [_ Hn]. unfold reading_dylib. cbn [d_mapped d_segs d_installName d_textSegIdx].
  split; [done|]. split; [rewrite length_app; cbn; unfold MAX_SEGS in *; lia|]. split; [done|]. split; [done|]. split.
  - unfold text_ok, nth_seg in *. cbn [d_textSegIdx d_segs]. case_bool_decide as Et.
    + right. exists (read_segment m cmd). destruct (Z.ltb_spec (Z.of_nat (length (d_segs d))) 0); [lia|]. rewrite Nat2Z.id, lookup_app_r, Nat.sub_diag by lia. split; [done|].
      change (s_region (read_segment m cmd)) with (seg_region (s_name (read_segment m cmd))). by rewrite Et.
    + destruct H5 as [?|(si & Hs & Hr)]; [by left|right]. exists si. split; [|done]. destruct (_ <? _); [done|]. by apply lookup_app_l_Some.
  - intros si [Hs|Hs]%elem_of_app; [by apply H6|]. apply list_elem_of_singleton in Hs as ->. done.
Qed.

Lemma load_name_ok m bytes d cmd : reading_dylib bytes d -> reading_dylib bytes (load_name m d cmd).
Proof.
  intros (H1 & H2 & H3 & H4 & H5 & H6). unfold load_name. destruct (_ =? _); [|done]. split_and!; try done; cbn [d_installName]; [rewrite length_take; lia|]. apply Forall_take, cstr_nonzero.
Qed.

(** [load_dylib] leaves the list alone or adds a library that has a TEXT segment and
    a new name. *)
Lemma load_dylib_ok f gDylibs : match load_dylib f gDylibs with
  | None => MAX_DYLIBS <= Z.of_nat (length gDylibs)
  | Some (false, l) => l = gDylibs
  | Some (true, l) => exists d bs, l = gDylibs ++ [d] /\ hf_bytes <$> f = Some bs /\ reading_dylib bs d /\ text_ok d /\ d_installName d <> [] /\ d_installName d ∉ d_installName <$> gDylibs /\
      Z.of_nat (length l) <= MAX_DYLIBS
  end.
Proof.
  unfold load_dylib. destruct (Z.leb_spec MAX_DYLIBS (Z.of_nat (length gDylibs))) as [|Hc]; [done|]. destruct f as [f|]; [|done]. destruct (_ || _); [done|].
  set (d := fold_left _ _ _). assert (Hd : reading_dylib (hf_bytes f) d).
  { unfold d. generalize (commands (fmem (hf_bytes f)) 0). intros cmds. assert (H0 : reading_dylib (hf_bytes f) (mkDylib [] (hf_bytes f) (hf_mtime f) (hf_ino f) [] (-1) (-1) (-1) 0)).
    { split_and!; cbn; [done|unfold MAX_SEGS; lia|lia|constructor|left; lia|]. intros si Hs. by apply elem_of_nil in Hs. }
    revert H0. generalize (mkDylib [] (hf_bytes f) (hf_mtime f) (hf_ino f) [] (-1) (-1) (-1) 0). induction cmds as [|c cmds IH]; intros d0 H0; [done|]. by apply IH, load_name_ok, load_segment_ok. }
  destruct (_ || _) eqn:E; [done|]. apply orb_false_elim in E as [Et En]. apply bool_decide_eq_false in En. destruct (existsb _ _) eqn:Ex; [done|].
  pose proof Hd as (H1 & H2 & H3 & H4 & H5 & H6). eexists _, (hf_bytes f). split; [done|]. split; [done|]. split; [done|]. split; [destruct H5 as [?|?]; [lia|done]|]. split; [done|]. split.
  - cbn [d_installName]. intros (e & Ee & He)%list_elem_of_fmap. assert (Hx : existsb (fun e => bool_decide (d_installName e = d_installName d)) gDylibs = true); [|congruence].
    apply existsb_exists. exists e. split; [by apply list_elem_of_In|by apply bool_decide_eq_true].
  - rewrite length_app. cbn. unfold MAX_DYLIBS in *. lia.
Qed.

(** ** Places *)
Lemma PAGE_ALIGN_range x : 0 <= x < 2 ^ 62 -> x <= PAGE_ALIGN x < x + PAGE_SZ /\ PAGE_ALIGN x mod PAGE_SZ = 0 /\ (x mod PAGE_SZ = 0 -> PAGE_ALIGN x = x).
Proof.
  intros Hx. destruct (pageRoundUp_le x ltac:(lia)) as [H1 H2]. change (pageRoundUp x) with (PAGE_ALIGN x) in *. unfold PAGE_SZ in *.
  assert (Hm : forall z, Z.land z 0xfff = z mod 4096) by (intros z; change 0xfff with (Z.ones 12); by rewrite Z.land_ones by lia).
  split_and!; [lia|lia| |by rewrite <- Hm]. rewrite <- Hm. unfold PAGE_ALIGN. apply Z.land_ldiff.
Qed.

Lemma page_add x y : x mod PAGE_SZ = 0 -> y mod PAGE_SZ = 0 -> (x + y) mod PAGE_SZ = 0.
Proof. intros Hx Hy. rewrite Z.add_mod, Hx, Hy by done. done. Qed.

Definition seg_ok (si : SegInfo) : Prop :=
  0 <= s_region si <= 2 /\ 0 <= s_vmsize si < 2 ^ 40 /\ 0 <= s_filesize si <= s_vmsize si /\ 0 <= s_origFileoff si /\ 0 <= s_origVmaddr si < 2 ^ 64.

Lemma aligned_size_range si : seg_ok si -> s_vmsize si <= aligned_size si /\ 0 < aligned_size si <= 2 ^ 40 + PAGE_SZ /\ aligned_size si mod PAGE_SZ = 0.
Proof.
  intros (_ & Hv & _). unfold aligned_size. destruct (PAGE_ALIGN_range (s_vmsize si) ltac:(lia)) as (H1 & H2 & _). unfold PAGE_SZ in *.
  destruct (Z.eqb_spec (PAGE_ALIGN (s_vmsize si)) 0); [|lia]. split_and!; try lia. done.
Qed.

(** The bytes that the segments of a region take. *)
Fixpoint region_sum (r : Z) (l : list SegInfo) : Z :=
  match l with
  | [] => 0
  | si :: l => (if s_region si =? r then aligned_size si else 0) + region_sum r l
  end.

Lemma region_sum_app r l1 l2 : region_sum r (l1 ++ l2) = region_sum r l1 + region_sum r l2.
Proof. induction l1 as [|si l1 IH]; cbn [region_sum app]; lia. Qed.

Lemma region_sum_range r l : (forall si, si ∈ l -> seg_ok si) -> 0 <= region_sum r l /\ region_sum r l mod PAGE_SZ = 0.
Proof.
  induction l as [|si l IH]; intros Hl; cbn [region_sum]; [done|]. destruct (IH ltac:(intros ? ?; apply Hl; by right)) as [H1 H2].
  destruct (aligned_size_range si ltac:(apply Hl; by left)) as (H3 & H4 & H5). case_match; [|by rewrite Z.add_0_l]. split; [lia|by apply page_add].
Qed.

Lemma in_drop {A} (x : A) n l : x ∈ drop n l -> x ∈ l.
Proof. intros Hx. rewrite <- (take_drop n l). apply elem_of_app. by right. Qed.

Lemma in_take {A} (x : A) n l : x ∈ take n l -> x ∈ l.
Proof. intros Hx. rewrite <- (take_drop n l). apply elem_of_app. by left. Qed.

(** Later segments of a region come after earlier ones. *)
Lemma region_sum_take l i si : l !! i = Some si -> (forall si, si ∈ l -> seg_ok si) ->
  forall j r, (i < j <= length l)%nat -> region_sum r (take i l) + (if s_region si =? r then aligned_size si else 0) <= region_sum r (take j l) <= region_sum r l.
Proof.
  intros Hi Hl j r Hj. assert (Hin : forall k, (k <= length l)%nat -> forall x, x ∈ drop k l -> seg_ok x) by (intros k _ x Hx; apply Hl; eapply in_drop, Hx).
  assert (El : region_sum r l = region_sum r (take j l) + region_sum r (drop j l)) by (by rewrite <- region_sum_app, take_drop). pose proof (region_sum_range r (drop j l) ltac:(by apply Hin; lia)).
  assert (Ej : take j l = take i l ++ si :: take (j - S i) (drop (S i) l)).
  { replace j with (i + S (j - S i))%nat at 1 by lia. rewrite <- take_take_drop, (drop_S l si i Hi). done. }
  rewrite Ej, region_sum_app in El |- *. cbn [region_sum] in El |- *. pose proof (region_sum_range r (take (j - S i) (drop (S i) l))) as Hr. destruct Hr as [Hr _]; [|lia].
  intros x Hx. apply Hl. eapply in_drop, in_take, Hx.
Qed.

Lemma advance_cursor c si r : seg_ok si -> 0 <= r <= 2 -> 0 <= cursor r c -> cursor r c + (if s_region si =? r then aligned_size si else 0) < 2 ^ 62 ->
  cursor r (advance c si) = cursor r c + (if s_region si =? r then aligned_size si else 0).
Proof.
  intros Hs Hr Hc Hb. pose proof (aligned_size_range si Hs). destruct Hs as (Hreg & _).
  assert (r = 0 \/ r = 1 \/ r = 2) as [->|[->| ->]] by lia; (assert (s_region si = 0 \/ s_region si = 1 \/ s_region si = 2) as [E|[E|E]] by lia);
    unfold cursor, advance in *; rewrite E in *; cbn in *; rewrite ?wrap_small by lia; lia.
Qed.

Lemma advance_all l : forall c, (forall si, si ∈ l -> seg_ok si) -> (forall r, 0 <= r <= 2 -> 0 <= cursor r c /\ cursor r c + region_sum r l < 2 ^ 62) ->
  forall r, 0 <= r <= 2 -> cursor r (fold_left advance l c) = cursor r c + region_sum r l.
Proof.
  induction l as [|si l IH]; intros c Hl Hc r Hr; cbn [fold_left region_sum]; [lia|]. assert (Hs : seg_ok si) by (apply Hl; by left).
  assert (Ha : forall q, 0 <= q <= 2 -> cursor q (advance c si) = cursor q c + (if s_region si =? q then aligned_size si else 0)).
  { intros q Hq. destruct (Hc q Hq) as [H1 H2]. cbn [region_sum] in H2. pose proof (region_sum_range q l ltac:(intros ? ?; apply Hl; by right)). apply advance_cursor; try done; lia. }
  rewrite IH; [rewrite Ha by done; lia|intros; apply Hl; by right| |done]. intros q Hq. rewrite Ha by done. destruct (Hc q Hq) as [H1 H2]. cbn [region_sum] in H2. pose proof (aligned_size_range si Hs).
  case_match; lia.
Qed.

Definition all_segs (ds : list DylibInfo) : list SegInfo := concat (map d_segs ds).

Lemma advance_dylibs ds : forall c, fold_left (fun c d => fold_left advance (d_segs d) c) ds c = fold_left advance (all_segs ds) c.
Proof. induction ds as [|d ds IH]; intros c; cbn [fold_left all_segs map concat]; [done|]. by rewrite IH, fold_left_app. Qed.

Lemma assign_segments_app L l1 : forall c l2, assign_segments L c (l1 ++ l2) = assign_segments L c l1 ++ assign_segments L (fold_left advance l1 c) l2.
Proof. induction l1 as [|si l1 IH]; intros c l2; cbn [app assign_segments fold_left]; [done|]. by rewrite IH. Qed.

Lemma assign_dylibs_segs L ds : forall c, all_segs (assign_dylibs L c ds) = assign_segments L c (all_segs ds).
Proof. induction ds as [|d ds IH]; intros c; cbn [assign_dylibs all_segs map concat]; [done|]. cbn [d_segs set_segs]. rewrite assign_segments_app. f_equal. apply IH. Qed.

Lemma assign_segments_lookup L l : forall c i, assign_segments L c l !! i = (fun si => assign_segment L (fold_left advance (take i l) c) si) <$> l !! i.
Proof. induction l as [|si l IH]; intros c [|i]; cbn [assign_segments take fold_left]; try done. apply IH. Qed.

(** What the libraries must keep to: the regions have room for their segments. *)
Definition capacity (r : Z) : Z := if r =? 0 then 0x60000000 else 0x40000000.

Definition name_ok (s : list Z) : Prop := (length s <= 255)%nat /\ Forall byte s /\ Forall (fun c => c <> 0) s.

Record dylibs_fit (ds : list DylibInfo) : Prop := {
  fit_segs : forall si, si ∈ all_segs ds -> seg_ok si;
  fit_sums : forall r, 0 <= r <= 2 -> region_sum r (all_segs ds) <= capacity r;
  fit_count : (length ds <= 32)%nat;
  fit_names : forall d, d ∈ ds -> name_ok (d_installName d) }.

Definition names_size (ds : list DylibInfo) : Z := Z.of_nat (length (concat (map (fun d => d_installName d ++ [0]) ds))).

Lemma names_size_cons d ds : names_size (d :: ds) = Z.of_nat (length (d_installName d)) + 1 + names_size ds.
Proof. unfold names_size. cbn. rewrite !length_app. cbn. lia. Qed.

Lemma names_size_range ds : (forall d, d ∈ ds -> name_ok (d_installName d)) -> 0 <= names_size ds <= 256 * Z.of_nat (length ds).
Proof.
  induction ds as [|d ds IH]; intros Hn; [done|]. rewrite names_size_cons. destruct (Hn d ltac:(by left)) as [Hd _]. specialize (IH ltac:(intros ? ?; apply Hn; by right)). cbn [length]. lia.
Qed.

Lemma paths_size_ok ds : names_size ds < 2 ^ 62 -> paths_size ds = names_size ds.
Proof.
  intros Hs. unfold paths_size. assert (G : forall acc, 0 <= acc -> acc + names_size ds < 2 ^ 62 -> fold_left (fun n d => n +64 (Z.of_nat (length (d_installName d)) + 1)) ds acc = acc + names_size ds).
  { clear Hs. induction ds as [|d ds IH]; intros acc Ha Hs; cbn [fold_left]; [unfold names_size; cbn; lia|]. rewrite names_size_cons in *. assert (0 <= names_size ds) by (unfold names_size; lia).
    rewrite wrap_small by lia. rewrite IH by lia. lia. }
  rewrite G; lia.
Qed.

(** ** Stores at different places *)
Definition store_all (ws : list (Z * list Z)) (m : mem) : mem := fold_left (fun m '(a, bs) => mstore m a bs) ws m.

Lemma store_all_out ws : forall m b, (forall a bs, (a, bs) ∈ ws -> ~ a <= b < a + Z.of_nat (length bs)) -> mget (store_all ws m) b = mget m b.
Proof.
  induction ws as [|[a bs] ws IH]; intros m b Hb; [done|]. change (mget (store_all ws (mstore m a bs)) b = mget m b). rewrite IH by (intros; apply Hb; by right).
  apply mget_mstore_out. specialize (Hb a bs ltac:(by left)). lia.
Qed.

Lemma store_all_in ws : forall m i a bs b, ws !! i = Some (a, bs) -> Forall byte bs -> a <= b < a + Z.of_nat (length bs) ->
  (forall j a' bs', j <> i -> ws !! j = Some (a', bs') -> ~ a' <= b < a' + Z.of_nat (length bs')) -> mget (store_all ws m) b = default 0 (bs !! Z.to_nat (b - a)).
Proof.
  induction ws as [|[a0 bs0] ws IH]; intros m i a bs b Hi Hb Hin Hout; [done|]. change (mget (store_all ws (mstore m a0 bs0)) b = default 0 (bs !! Z.to_nat (b - a))). destruct i as [|i].
  - injection Hi as -> ->. rewrite store_all_out.
    + rewrite mget_mstore by done. by rewrite decide_True.
    + intros a' bs' Hx. apply list_elem_of_lookup in Hx as [j Hj]. by apply (Hout (S j)).
  - apply (IH _ i); try done. intros j a' bs' Hne Hj. apply (Hout (S j)); [congruence|done].
Qed.

Definition with_segs (ds : list DylibInfo) : list (DylibInfo * SegInfo) := concat (map (fun d => pair d <$> d_segs d) ds).

Lemma with_segs_snd ds : snd <$> with_segs ds = all_segs ds.
Proof.
  unfold with_segs, all_segs. induction ds as [|d ds IH]; cbn [map concat]; [done|]. rewrite fmap_app, IH. f_equal. rewrite <- list_fmap_compose. apply list_fmap_id.
Qed.

Definition copy_at (x : DylibInfo * SegInfo) : Z * list Z := (s_cacheFileOff x.2, file_bytes (d_mapped x.1) (s_origFileoff x.2) (s_filesize x.2)).

Lemma copy_segments_stores L ds m : (forall si, si ∈ all_segs ds -> 0 <= s_filesize si /\ s_cacheFileOff si +64 s_filesize si <= gBufSize L) ->
  copy_segments L ds m = store_all (copy_at <$> with_segs ds) m.
Proof.
  revert m. unfold copy_segments, with_segs, all_segs. induction ds as [|d ds IH]; intros m Hs; cbn [fold_left map concat]; [done|]. rewrite fmap_app. unfold store_all. rewrite fold_left_app.
  rewrite IH by (intros si Hin; apply Hs, elem_of_app; by right). unfold store_all. f_equal. cbn [map concat] in Hs. clear IH.
  assert (Hd : forall si, si ∈ d_segs d -> 0 <= s_filesize si /\ s_cacheFileOff si +64 s_filesize si <= gBufSize L) by (intros si Hin; apply Hs, elem_of_app; by left). clear Hs.
  revert m. induction (d_segs d) as [|si l IH]; intros m; cbn [fold_left fmap list_fmap copy_at fst snd]; [done|]. rewrite IH by (intros; apply Hd; by right). f_equal. unfold copy_into.
  destruct (Hd si ltac:(by left)) as [H0 H1]. destruct (Z.eqb_spec (s_filesize si) 0) as [->|]; [done|]. destruct (Z.ltb_spec (gBufSize L) (s_cacheFileOff si +64 s_filesize si)); [lia|done].
Qed.

Lemma copy_segments_wf L ds m : mem_wf m -> mem_wf (copy_segments L ds m).
Proof.
  unfold copy_segments. revert m. induction ds as [|d ds IH]; intros m Hm; cbn [fold_left]; [done|]. apply IH. clear IH. revert m Hm.
  induction (d_segs d) as [|si l IH]; intros m Hm; cbn [fold_left]; [done|]. apply IH. unfold copy_into. repeat case_match; auto with panthera.
Qed.

Section Layout.
Variable ds : list DylibInfo.
Hypothesis fit : dylibs_fit ds.
Notation L := (layout_of ds).

Lemma sums_range r : 0 <= r <= 2 -> 0 <= region_sum r (all_segs ds) <= capacity r /\ region_sum r (all_segs ds) mod PAGE_SZ = 0.
Proof using fit. intros Hr. destruct (region_sum_range r (all_segs ds) (fit_segs _ fit)). pose proof (fit_sums _ fit r Hr). done. Qed.

(** The regions follow each other in the file. *)
Lemma layout_regions :
  (imagesOff + 32 * Z.of_nat (length ds) + names_size ds <= gMetaSize L <= 0x4000 /\ gMetaSize L mod PAGE_SZ = 0) /\
  (forall r, 0 <= r <= 2 -> region_size L r = region_sum r (all_segs ds)) /\
  region_off L 0 = gMetaSize L /\ region_off L 1 = region_off L 0 + region_size L 0 /\ region_off L 2 = region_off L 1 + region_size L 1 /\
  gSlideInfoFileOff L = region_off L 2 + region_size L 2 /\ 0 < gSlideInfoSize L <= 0x400000 /\ sizeof_slide_info2 + 2 * page_count (region_size L 1) <= gSlideInfoSize L.
Proof using fit.
  assert (Hc : forall r, 0 <= r <= 2 -> cursor r (fold_left (fun c d => fold_left advance (d_segs d) c) ds (mkCur 0 0 0)) = region_sum r (all_segs ds)).
  { intros r Hr. rewrite advance_dylibs, (advance_all _ _ (fit_segs _ fit)); [|intros q Hq|done].
    - assert (r = 0 \/ r = 1 \/ r = 2) as [->|[->| ->]] by lia; reflexivity.
    - destruct (sums_range q Hq) as [H1 _]. assert (cursor q (mkCur 0 0 0) = 0) as -> by (unfold cursor; repeat case_match; reflexivity). unfold capacity in H1. case_match; lia. }
  set (cur := fold_left _ ds _) in *. assert (E0 : tCur cur = region_sum 0 (all_segs ds)) by exact (Hc 0 ltac:(lia)).
  assert (E1 : dCur cur = region_sum 1 (all_segs ds)) by exact (Hc 1 ltac:(lia)). assert (E2 : lCur cur = region_sum 2 (all_segs ds)) by exact (Hc 2 ltac:(lia)).
  destruct (sums_range 0 ltac:(lia)) as [R0 M0], (sums_range 1 ltac:(lia)) as [R1 M1], (sums_range 2 ltac:(lia)) as [R2 M2]. change (capacity 0) with 0x60000000 in R0. change (capacity 1) with 0x40000000 in R1. change (capacity 2) with 0x40000000 in R2.
  pose proof (names_size_range ds (fit_names _ fit)) as Hn. pose proof (fit_count _ fit) as Hk.
  unfold layout_of, region_size, region_off. cbn [gMetaSize gTextFileOff gTextSize gDataFileOff gDataSize gLinkFileOff gLinkSize gSlideInfoFileOff gSlideInfoSize].
  fold cur. rewrite E0, E1, E2, (paths_size_ok ds) by lia.
  assert (Ea : forall x, 0 <= x <= 0x60000000 -> x mod PAGE_SZ = 0 -> PAGE_ALIGN x = x) by (intros x Hx; apply PAGE_ALIGN_range; lia). rewrite (Ea (region_sum 0 _)), (Ea (region_sum 1 _)), (Ea (region_sum 2 _)) by (done || lia).
  match goal with |- context [PAGE_ALIGN (?x + 256)] => destruct (PAGE_ALIGN_range (x + 256)) as (P1 & P2 & _); [unfold sizeof_dyld_cache_header, sizeof_mapping_info, sizeof_mapping_and_slide_info, sizeof_image_info; lia|]; set (meta := PAGE_ALIGN (x + 256)) in * end.
  unfold imagesOff, slideMapOff, mappingOff, sizeof_dyld_cache_header, sizeof_mapping_info, sizeof_mapping_and_slide_info, sizeof_image_info, PAGE_SZ in *.
  set (dataPages := (region_sum 1 (all_segs ds) +64 (4096 - 1)) / 4096). assert (Hdp : 0 <= dataPages <= 0x40001).
  { unfold dataPages. rewrite wrap_small by lia. split; [apply Z.div_pos; lia|apply Z.div_le_upper_bound; lia]. }
  destruct (PAGE_ALIGN_range (sizeof_slide_info2 + dataPages * 2 * 2 + 4096)) as (Q1 & Q2 & _); [unfold sizeof_slide_info2; lia|]. unfold PAGE_SZ, sizeof_slide_info2 in *.
  assert (Ep : page_count (region_sum 1 (all_segs ds)) = dataPages) by (unfold page_count, dataPages, PAGE_SZ; by rewrite wrap_small by lia).
  rewrite (wrap_small 64 (40 + _)) by lia. rewrite (wrap_small 64 (40 + _ + 4096)) by lia. rewrite (wrap_small 64 (meta + _)) by lia. rewrite (wrap_small 64 (meta + _ + _)) by lia.
  rewrite (wrap_small 64 (meta + _ + _ + _)) by lia. cbn [Z.eqb Pos.eqb]. split_and!; try lia; try done.
  intros r Hr. assert (r = 0 \/ r = 1 \/ r = 2) as [->|[->| ->]] by lia; reflexivity.
Qed.

Lemma region_ends r : 0 <= r <= 2 -> gMetaSize L <= region_off L r /\ region_off L r + region_size L r <= gSlideInfoFileOff L <= 0xe0004000 /\
  0 <= region_size L r <= capacity r /\ region_off L r mod PAGE_SZ = 0 /\ region_size L r mod PAGE_SZ = 0.
Proof using fit.
  intros Hr. destruct layout_regions as ((H1 & H2) & H3 & H4 & H5 & H6 & H7 & H8). destruct (sums_range 0 ltac:(lia)) as [R0 M0], (sums_range 1 ltac:(lia)) as [R1 M1], (sums_range 2 ltac:(lia)) as [R2 M2].
  rewrite <- H3 in R0, M0, R1, M1, R2, M2 by lia.
  assert (O1 : region_off L 1 mod PAGE_SZ = 0) by (rewrite H5; apply page_add; [by rewrite H4|done]). assert (O2 : region_off L 2 mod PAGE_SZ = 0) by (rewrite H6; by apply page_add).
  change (capacity 0) with 0x60000000 in *. change (capacity 1) with 0x40000000 in *. change (capacity 2) with 0x40000000 in *.
  assert (r = 0 \/ r = 1 \/ r = 2) as [->|[->| ->]] by lia; split_and!; try done; try (by rewrite H4); change (capacity 0) with 0x60000000; change (capacity 1) with 0x40000000; change (capacity 2) with 0x40000000; lia.
Qed.

(** A segment has its place in its region, in the file and in memory alike. *)
Definition placed (si : SegInfo) : Prop :=
  region_off L (s_region si) <= s_cacheFileOff si /\ s_cacheFileOff si + aligned_size si <= region_off L (s_region si) + region_size L (s_region si) /\
  s_cacheFileOff si mod PAGE_SZ = 0 /\ s_cacheVmaddr si = region_base (s_region si) + (s_cacheFileOff si - region_off L (s_region si)) /\
  s_slide si = s_cacheVmaddr si -64 s_origVmaddr si.

Definition same_source (si si' : SegInfo) : Prop :=
  s_name si' = s_name si /\ s_origVmaddr si' = s_origVmaddr si /\ s_vmsize si' = s_vmsize si /\ s_origFileoff si' = s_origFileoff si /\
  s_filesize si' = s_filesize si /\ s_region si' = s_region si.

Definition assigned : list DylibInfo := assign_dylibs L (mkCur 0 0 0) ds.

Lemma assigned_at i si : all_segs ds !! i = Some si -> exists si', all_segs assigned !! i = Some si' /\ same_source si si' /\
  s_cacheFileOff si' = region_off L (s_region si) + region_sum (s_region si) (take i (all_segs ds)) /\ placed si'.
Proof using fit.
  intros Hi. unfold assigned. rewrite assign_dylibs_segs, assign_segments_lookup, Hi. cbn [fmap option_fmap option_map]. eexists. split; [done|].
  assert (Hs : seg_ok si) by (by apply (fit_segs _ fit), list_elem_of_lookup_2 with i). pose proof (aligned_size_range si Hs) as (A1 & A2 & A3). pose proof Hs as (Hr & _).
  pose proof (lookup_lt_Some _ _ _ Hi) as Hlt. destruct (region_sum_take (all_segs ds) i si Hi (fit_segs _ fit) (S i) (s_region si) ltac:(lia)) as [S1 S2]. rewrite Z.eqb_refl in S1.
  destruct (region_sum_range (s_region si) (take i (all_segs ds))) as [T1 T2]; [intros x Hx; apply (fit_segs _ fit); by eapply in_take|].
  assert (Hcur : cursor (s_region si) (fold_left advance (take i (all_segs ds)) (mkCur 0 0 0)) = region_sum (s_region si) (take i (all_segs ds))).
  { rewrite advance_all; [|intros x Hx; apply (fit_segs _ fit); by eapply in_take| |done].
    - unfold cursor. by repeat case_match.
    - intros q Hq. assert (cursor q (mkCur 0 0 0) = 0) as -> by (unfold cursor; by repeat case_match). destruct (sums_range q Hq) as [H1 _].
      destruct (region_sum_take (all_segs ds) i si Hi (fit_segs _ fit) (S i) q ltac:(lia)) as [U1 U2]. unfold capacity in H1. repeat case_match; lia. }
  destruct (region_ends (s_region si) Hr) as (E1 & E2 & E3 & E4 & E5). destruct layout_regions as (_ & L3 & _). rewrite L3 in * by done.
  unfold assign_segment. rewrite Hcur. cbn. assert (Hcap : capacity (s_region si) <= 0x60000000) by (unfold capacity; case_match; lia).
  assert (Hm : 0 <= gMetaSize L) by (destruct layout_regions as ((? & _) & _); unfold imagesOff, slideMapOff, mappingOff, sizeof_dyld_cache_header, sizeof_mapping_info, sizeof_mapping_and_slide_info in *; unfold names_size in *; lia).
  rewrite (wrap_small 64 (region_off _ _ + _)) by lia. assert (Hb : 0 <= region_base (s_region si) < 2 ^ 48) by (unfold region_base; repeat case_match; vm_compute; intuition congruence).
  rewrite (wrap_small 64 (region_base _ + _)) by lia. split; [done|]. split; [done|]. unfold placed. cbn. change (aligned_size _) with (aligned_size si). rewrite L3 by done.
  split_and!; [lia|lia|by apply page_add|lia|done].
Qed.

Lemma assigned_length : length (all_segs assigned) = length (all_segs ds).
Proof.
  unfold assigned. rewrite assign_dylibs_segs. generalize (mkCur 0 0 0). generalize (all_segs ds). intros l. induction l as [|si l IH]; intros c; cbn; [done|]. by rewrite IH.
Qed.

(** The places follow the order of the libraries in each region, and the regions follow
    each other. *)
Lemma assigned_order a b sa sb : all_segs assigned !! a = Some sa -> all_segs assigned !! b = Some sb -> (a < b)%nat ->
  (s_region sa <= s_region sb -> s_cacheFileOff sa + aligned_size sa <= s_cacheFileOff sb) /\
  (s_region sb < s_region sa -> s_cacheFileOff sb + aligned_size sb <= s_cacheFileOff sa).
Proof using fit.
  intros Ha Hb Hab. pose proof (lookup_lt_Some _ _ _ Ha) as La. pose proof (lookup_lt_Some _ _ _ Hb) as Lb. rewrite assigned_length in La, Lb.
  destruct (lookup_lt_is_Some_2 _ _ La) as [oa Oa], (lookup_lt_is_Some_2 _ _ Lb) as [ob Ob].
  destruct (assigned_at a oa Oa) as (sa' & Ha' & (_ & _ & Va & _ & _ & Ra) & Ca & Pa). rewrite Ha in Ha'. injection Ha' as <-.
  destruct (assigned_at b ob Ob) as (sb' & Hb' & (_ & _ & Vb & _ & _ & Rb) & Cb & Pb). rewrite Hb in Hb'. injection Hb' as <-.
  destruct Pa as (A1 & A2 & _), Pb as (B1 & B2 & _). rewrite Ra in A1, A2. rewrite Rb in B1, B2.
  assert (Hsa : seg_ok oa) by (by apply (fit_segs _ fit), list_elem_of_lookup_2 with a). assert (Hsb : seg_ok ob) by (by apply (fit_segs _ fit), list_elem_of_lookup_2 with b).
  assert (Eza : aligned_size sa = aligned_size oa) by (unfold aligned_size; by rewrite Va). rewrite Eza in *. rewrite Ra, Rb.
  destruct (region_sum_take (all_segs ds) a oa Oa (fit_segs _ fit) b (s_region oa) ltac:(lia)) as [S1 _]. rewrite Z.eqb_refl in S1.
  destruct layout_regions as (_ & _ & L4 & L5 & L6 & _). destruct Hsa as (Hra & _), Hsb as (Hrb & _).
  destruct (region_ends 0 ltac:(lia)) as (_ & _ & Z0 & _), (region_ends 1 ltac:(lia)) as (_ & _ & Z1 & _).
  assert (s_region oa = 0 \/ s_region oa = 1 \/ s_region oa = 2) as [E|[E|E]] by lia; (assert (s_region ob = 0 \/ s_region ob = 1 \/ s_region ob = 2) as [E'|[E'|E']] by lia);
    rewrite E, E' in *; split; intros; lia.
Qed.

(** No two segments overlap. *)
Lemma assigned_apart i j si sj : all_segs assigned !! i = Some si -> all_segs assigned !! j = Some sj -> i <> j ->
  s_cacheFileOff si + aligned_size si <= s_cacheFileOff sj \/ s_cacheFileOff sj + aligned_size sj <= s_cacheFileOff si.
Proof using fit.
  intros Hi Hj Hne. destruct (Nat.lt_ge_cases i j).
  - destruct (assigned_order i j si sj Hi Hj ltac:(lia)) as [? ?]. lia.
  - destruct (assigned_order j i sj si Hj Hi ltac:(lia)) as [? ?]. lia.
Qed.

Lemma gBufSize_ok : gBufSize L = gSlideInfoFileOff L + gSlideInfoSize L.
Proof using fit.
  destruct layout_regions as ((H1 & _) & _ & _ & _ & _ & _ & H8). destruct (region_ends 2 ltac:(lia)) as (E1 & E2 & E3 & _). unfold gBufSize. apply wrap_small.
  unfold imagesOff, slideMapOff, mappingOff, sizeof_dyld_cache_header, sizeof_mapping_info, sizeof_mapping_and_slide_info, names_size in *. lia.
Qed.

Lemma assigned_segs_ok i si : all_segs assigned !! i = Some si -> seg_ok si /\ placed si.
Proof using fit.
  intros Hi. pose proof (lookup_lt_Some _ _ _ Hi) as Hl. rewrite assigned_length in Hl. destruct (lookup_lt_is_Some_2 _ _ Hl) as [o Ho].
  destruct (assigned_at i o Ho) as (si' & Hi' & (_ & E2 & E3 & E4 & E5 & E6) & _ & Hp). rewrite Hi in Hi'. injection Hi' as <-. split; [|done].
  assert (Hs : seg_ok o) by (by apply (fit_segs _ fit), list_elem_of_lookup_2 with i). unfold seg_ok in *. by rewrite E2, E3, E4, E5, E6.
Qed.

(** After copying, every segment has its data at its place and zeros after it. *)
Lemma segments_copied i d si : with_segs assigned !! i = Some (d, si) ->
  (forall k, 0 <= k < s_filesize si -> mget (copy_segments L assigned ∅) (s_cacheFileOff si + k) = mget (fmem (d_mapped d)) (s_origFileoff si + k)) /\
  (forall k, s_filesize si <= k < aligned_size si -> mget (copy_segments L assigned ∅) (s_cacheFileOff si + k) = 0).
Proof using fit.
  intros Hi. assert (Hall : all_segs assigned !! i = Some si) by (rewrite <- with_segs_snd, list_lookup_fmap, Hi; done).
  destruct (assigned_segs_ok i si Hall) as [Hs Hp]. pose proof (aligned_size_range si Hs) as (A1 & A2 & _). pose proof Hs as (_ & Hv & Hf & Ho).
  assert (Hlen : forall x, x ∈ with_segs assigned -> 0 <= s_filesize x.2 -> Z.of_nat (length (copy_at x).2) = s_filesize x.2) by (intros x _ Hx; unfold copy_at, file_bytes; cbn; rewrite length_mbytes; lia).
  rewrite copy_segments_stores.
  2:{ intros x [j Hj]%list_elem_of_lookup. destruct (assigned_segs_ok j x Hj) as [(Hr & Hvx & Hfx & _) (P1 & P2 & _)]. split; [lia|]. destruct (region_ends (s_region x) Hr) as (E1 & E2 & _).
      pose proof (aligned_size_range x ltac:(by apply (assigned_segs_ok j))) as (B1 & _). destruct layout_regions as ((H1 & _) & _ & _ & _ & _ & _ & H8). rewrite gBufSize_ok.
      unfold imagesOff, slideMapOff, mappingOff, sizeof_dyld_cache_header, sizeof_mapping_info, sizeof_mapping_and_slide_info, names_size in *. rewrite wrap_small by lia. lia. }
  assert (Hapart : forall j x k, j <> i -> with_segs assigned !! j = Some x -> 0 <= k < aligned_size si -> ~ s_cacheFileOff x.2 <= s_cacheFileOff si + k < s_cacheFileOff x.2 + Z.of_nat (length (copy_at x).2)).
  { intros j x k Hne Hj Hk. assert (Hja : all_segs assigned !! j = Some x.2) by (rewrite <- with_segs_snd, list_lookup_fmap, Hj; done). destruct (assigned_segs_ok j _ Hja) as [Hx _].
    pose proof (aligned_size_range x.2 Hx) as (B1 & _). destruct Hx as (_ & _ & Hfx & _). rewrite (Hlen x (list_elem_of_lookup_2 _ _ _ Hj)) by lia. destruct (assigned_apart i j si x.2 Hall Hja ltac:(congruence)); lia. }
  split; intros k Hk.
  - rewrite (store_all_in _ _ i (s_cacheFileOff si) (file_bytes (d_mapped d) (s_origFileoff si) (s_filesize si))).
    + rewrite Z.add_simpl_l. apply file_bytes_get. lia.
    + by rewrite list_lookup_fmap, Hi.
    + apply file_bytes_byte.
    + unfold file_bytes. rewrite length_mbytes. lia.
    + intros j a' bs' Hne Hj. rewrite list_lookup_fmap in Hj. destruct (with_segs assigned !! j) as [x|] eqn:Ex; [|done]. injection Hj as <- <-. by apply (Hapart j x); [|done|lia].
  - rewrite store_all_out; [unfold mget; by rewrite lookup_empty|]. intros a bs Hx. apply list_elem_of_fmap in Hx as ([dx sx] & Ex & Hx). injection Ex as -> ->. apply list_elem_of_lookup in Hx as [j Hj].
    destruct (decide (j = i)) as [->|Hne]; [|by apply (Hapart j (dx, sx)); [|done|lia]]. rewrite Hi in Hj. injection Hj as <- <-. unfold file_bytes. rewrite length_mbytes. lia.
Qed.
End Layout.

Lemma with_segs_mapped L ds : forall c, (fun x => d_mapped x.1) <$> with_segs (assign_dylibs L c ds) = (fun x => d_mapped x.1) <$> with_segs ds.
Proof.
  induction ds as [|d ds IH]; intros c; [done|]. unfold with_segs in *. cbn [assign_dylibs map concat]. rewrite !fmap_app, IH. f_equal. rewrite <- !list_fmap_compose.
  apply list_eq. intros i. rewrite !list_lookup_fmap. cbn [d_segs set_segs]. rewrite assign_segments_lookup. by destruct (d_segs d !! i).
Qed.

(** The segment [si] of the library file [f] is copied to its place, with zeros up to
    the end of its last page. *)
Definition copied (buf : mem) (f : list Z) (si : SegInfo) : Prop :=
  (forall k, 0 <= k < s_filesize si -> mget buf (s_cacheFileOff si + k) = mget (fmem f) (s_origFileoff si + k)) /\
  (forall k, s_filesize si <= k < aligned_size si -> mget buf (s_cacheFileOff si + k) = 0).

(** C35. Laying out the cache. When the regions have room for the segments, every
    segment of every library gets a place in its region, page-aligned and at the same
    distance from the region's start in the file and in memory. No two places overlap:
    TEXT, DATA and LINKEDIT follow each other, and in a region the places have the order
    of the libraries and of their segments. The slide of a segment is the distance to its
    old address, and copying puts each segment's data at its place with zeros after it. *)
Theorem segments_placed (ds : list DylibInfo) : dylibs_fit ds ->
  let '(cached, L) := assign_addresses ds in
  (forall i d si, with_segs ds !! i = Some (d, si) -> exists d' si', with_segs cached !! i = Some (d', si') /\ same_source si si' /\ placed ds si' /\
    copied (copy_segments L cached ∅) (d_mapped d) si') /\
  (forall i j si sj, all_segs cached !! i = Some si -> all_segs cached !! j = Some sj -> (i < j)%nat ->
    (s_region si <= s_region sj -> s_cacheFileOff si + aligned_size si <= s_cacheFileOff sj) /\
    (s_region sj < s_region si -> s_cacheFileOff sj + aligned_size sj <= s_cacheFileOff si)).
Proof.
  intros fit. split; [|apply (assigned_order ds fit)]. intros i d si Hi. assert (Ha : all_segs ds !! i = Some si) by (rewrite <- with_segs_snd, list_lookup_fmap, Hi; done).
  destruct (assigned_at ds fit i si Ha) as (si' & Hi' & Hs & _ & Hp). rewrite <- with_segs_snd, list_lookup_fmap in Hi'. destruct (with_segs (assigned ds) !! i) as [[d' s']|] eqn:E; [|done]. injection Hi' as ->.
  exists d', si'. split; [exact E|]. split; [done|]. split; [done|]. pose proof (with_segs_mapped (layout_of ds) ds (mkCur 0 0 0)) as Hm. apply (f_equal (fun l => l !! i)) in Hm. rewrite !list_lookup_fmap in Hm.
  change (assign_dylibs (layout_of ds) (mkCur 0 0 0) ds) with (assigned ds) in Hm. rewrite E, Hi in Hm. cbn in Hm. injection Hm as <-. exact (segments_copied ds fit i d' si' E).
Qed.

(** ** Two libraries

    The first has a pointer in DATA, to the middle of the TEXT region. *)
Definition small_seg (name : string) (off region : Z) : SegInfo := mkSeg (str name) 0x1000 0x20 off 8 region 0 0 0.
Definition two_libraries : list DylibInfo :=
  [mkDylib (str "/usr/lib/a.dylib") (le_encode 8 MH_MAGIC_64 ++ le_encode 8 0x7FFF20000010 ++ le_encode 8 1) 5 6 [small_seg "__TEXT" 0 0; small_seg "__DATA" 8 1; small_seg "__LINKEDIT" 16 2] 0 2 1 16;
   mkDylib (str "/usr/lib/b.dylib") (le_encode 8 MH_MAGIC_64 ++ le_encode 8 2) 7 8 [small_seg "__TEXT" 0 0; small_seg "__LINKEDIT" 8 2] 0 1 (-1) 8].
Definition seg_ok_b (si : SegInfo) : bool :=
  (0 <=? s_region si) && (s_region si <=? 2) && (0 <=? s_vmsize si) && (s_vmsize si <? 2 ^ 40) && (0 <=? s_filesize si) && (s_filesize si <=? s_vmsize si) && (0 <=? s_origFileoff si) && (0 <=? s_origVmaddr si) && (s_origVmaddr si <? 2 ^ 64).

Lemma two_fit : dylibs_fit two_libraries.
Proof.
  split.
  - assert (E : forallb seg_ok_b (all_segs two_libraries) = true) by (vm_compute; reflexivity). intros si Hs. rewrite forallb_forall in E. specialize (E si ltac:(by apply list_elem_of_In)). unfold seg_ok_b, seg_ok in *. lia.
  - intros r Hr. assert (r = 0 \/ r = 1 \/ r = 2) as [->|[->| ->]] by lia; vm_compute; discriminate.
  - cbn. lia.
  - unfold two_libraries. intros d. rewrite !elem_of_cons, elem_of_nil. intros [->|[->|[]]]; (split; [cbn; lia|]); split; repeat constructor; (discriminate || (split; vm_compute; (discriminate || reflexivity))).
Qed.

Lemma segments_placed_witness : let '(cached, L) := assign_addresses two_libraries in
  exists si, all_segs cached !! 1%nat = Some si /\ s_cacheVmaddr si = DATA_REGION_BASE /\ copied (copy_segments L cached ∅) (default [] (d_mapped <$> two_libraries !! 0%nat)) si.
Proof.
  pose proof (segments_placed two_libraries two_fit) as Hs. destruct (assign_addresses two_libraries) as [cached L] eqn:E. destruct Hs as [Hs _].
  destruct (Hs 1%nat _ _ eq_refl) as (d' & si' & Hi & _ & (P1 & P2 & P3 & P4 & _) & Hc). exists si'. split; [by rewrite <- with_segs_snd, list_lookup_fmap, Hi|]. split; [|exact Hc].
  revert Hi. assert (Ec : cached = (assign_addresses two_libraries).1) by (by rewrite E). rewrite Ec. intros Hi. vm_compute in Hi. injection Hi as _ <-. reflexivity.
Defined.
