(* ===== verification/CacheFile.v ===== *)
(** * The cache file: tools/build_shared_cache_real.c

    What can be read back from the header, the mappings and the image table that
    [write_metadata] writes, and the bytes of the file that [finish_cache] gives. *)

From Stdlib Require Import ZArith Lia Ascii String.
From stdpp Require Import base list gmap.
From S2P Require Import Prelude MachO Words Runs DyldImage MachImage ExportTrie DyldKernel SlideInfo CacheBuild.

Open Scope Z_scope.

Lemma mread_mstore_out m a bs c k : c + Z.of_nat k <= a \/ a + Z.of_nat (length bs) <= c -> mread (mstore m a bs) c k = mread m c k.
Proof. intros Hd. eapply mread_only_in; [apply only_in_mstore|done]. Qed.

(** Reads of fields that later writes leave alone. *)
Ltac read_field := repeat first [rewrite mread_mwrite_disjoint by lia | rewrite mread_mstore_out by (cbn; lia)]; rewrite mread_mwrite.

(** The metadata of [ds] at [a], with the slide info if [slide]. *)
Record metadata (m : mem) (a : Z) (L : cache_layout) (slide : bool) (ds : list DylibInfo) : Prop := {
  md_magic : mbytes m a 8 = str "dyld_v1 ";
  md_mappings : mread m (a + 16) 4 = mappingOff /\ mread m (a + 20) 4 = 3;
  md_images : mread m (a + 448) 4 = imagesOff /\ mread m (a + 452) 4 = Z.of_nat (length ds);
  md_start : mread m (a + 224) 8 = SHARED_REGION_BASE;
  md_slides : mread m (a + 312) 4 = slideMapOff /\ mread m (a + 316) 4 = 3;
  md_map : forall r, 0 <= r <= 2 -> mread m (a + (mappingOff + r * 32)) 8 = region_base r /\
    mread m (a + (mappingOff + r * 32 + 8)) 8 = region_size L r /\ mread m (a + (mappingOff + r * 32 + 16)) 8 = region_off L r;
  md_slide : mread m (a + (slideMapOff + 80)) 8 = (if slide then gSlideInfoFileOff L else 0) /\ mread m (a + (slideMapOff + 88)) 8 = (if slide then gSlideInfoSize L else 0);
  md_image : forall i d, ds !! i = Some d -> let path := pathsOff ds + names_size (take i ds) in
    mread m (a + (imagesOff + 32 * Z.of_nat i)) 8 = text_vmaddr d /\ mread m (a + (imagesOff + 32 * Z.of_nat i + 24)) 4 = path /\
    holds m (a + path) (d_installName d ++ [0]) }.

Definition same_at (m m' : mem) (a n : Z) : Prop := forall i, 0 <= i < n -> mget m' (a + i) = mget m i.

Lemma same_at_read m m' a n c k : same_at m m' a n -> 0 <= c -> c + Z.of_nat k <= n -> mread m' (a + c) k = mread m c k.
Proof. intros Hs H0 H1. apply mread_shift. intros i Hi. rewrite <- Z.add_assoc. apply Hs. lia. Qed.

Lemma same_at_bytes m m' a n c k : same_at m m' a n -> 0 <= c -> c + Z.of_nat k <= n -> mbytes m' (a + c) k = mbytes m c k.
Proof. intros Hs H0 H1. apply mbytes_relocate. intros i Hi. rewrite <- Z.add_assoc. apply Hs. lia. Qed.

Lemma take_names_size i d ds : ds !! i = Some d -> (forall d, d ∈ ds -> name_ok (d_installName d)) ->
  0 <= names_size (take i ds) /\ names_size (take i ds) + Z.of_nat (length (d_installName d)) + 1 <= names_size ds.
Proof.
  intros Hi Hn. pose proof (drop_S ds d i Hi) as E. assert (Es : names_size ds = names_size (take i ds) + names_size (drop i ds)).
  { rewrite <- (take_drop i ds) at 1. unfold names_size. rewrite map_app, concat_app, length_app. lia. }
  rewrite E, names_size_cons in Es. unfold names_size in *. lia.
Qed.

(** ** The parts *)
Lemma header_fields uuid L n b : length uuid = 16%nat -> 0 <= n < 2 ^ 32 -> let m := write_header uuid L n b in
  mbytes m 0 8 = str "dyld_v1 " /\ mread m 16 4 = mappingOff /\ mread m 20 4 = 3 /\ mread m 448 4 = imagesOff /\ mread m 452 4 = n /\
  mread m 224 8 = SHARED_REGION_BASE /\ mread m 312 4 = slideMapOff /\ mread m 316 4 = 3 /\ only_in 0 512 b m.
Proof.
  intros Hu Hn m. unfold m, write_header. split_and!.
  - transitivity (mbytes (mstore b 0 (str "dyld_v1  x86_64" ++ [0])) 0 8).
    + apply mbytes_ext. intros c Hc. rewrite mget_mstore_out by lia. by rewrite !mget_mwrite_out by lia.
    + change (str "dyld_v1  x86_64" ++ [0]) with (str "dyld_v1 " ++ (str " x86_64" ++ [0])). rewrite mstore_app.
      assert (Hb : holds (mstore b 0 (str "dyld_v1 ")) 0 (str "dyld_v1 ")) by (apply mbytes_mstore; by repeat constructor).
      eapply holds_only_in in Hb; [exact Hb|apply only_in_mstore|]. left. cbn. lia.
  - rewrite mread_mstore_out by lia. by read_field.
  - rewrite mread_mstore_out by lia. by read_field.
  - rewrite mread_mstore_out by lia. by read_field.
  - rewrite mread_mstore_out by lia. read_field. by apply Z.mod_small.
  - rewrite mread_mstore_out by lia. by read_field.
  - rewrite mread_mstore_out by lia. by read_field.
  - rewrite mread_mstore_out by lia. by read_field.
  - intros c Hc. rewrite mget_mstore_out by lia. rewrite !mget_mwrite_out by lia. apply mget_mstore_out. cbn. lia.
Qed.

Lemma mapping_bytes_length x : length (mapping_bytes x) = 32%nat.
Proof. destruct x as [[[? ?] ?] ?]. unfold mapping_bytes. by rewrite !length_app, !length_le_encode. Qed.

Lemma slide_mapping_bytes_length x o s : length (slide_mapping_bytes x o s) = 56%nat.
Proof. destruct x as [[[? ?] ?] ?]. unfold slide_mapping_bytes. by rewrite !length_app, !length_le_encode. Qed.

Lemma mapping_bytes_byte x : Forall byte (mapping_bytes x).
Proof. destruct x as [[[? ?] ?] ?]. unfold mapping_bytes. rewrite !Forall_app. split_and!; apply le_encode_bytes. Qed.

Lemma slide_mapping_bytes_byte x o s : Forall byte (slide_mapping_bytes x o s).
Proof. destruct x as [[[? ?] ?] ?]. unfold slide_mapping_bytes. rewrite !Forall_app. split_and!; apply le_encode_bytes. Qed.

Definition u64 (v : Z) : Prop := 0 <= v < 2 ^ 64.

Lemma holds_u64 m a v : holds m a (le_encode 8 v) -> u64 v -> mread m a 8 = v.
Proof. intros Hm Hv. rewrite (holds_mread _ _ _ _ Hm). by apply Z.mod_small. Qed.

Lemma mapping_fields m a address size off prot : holds m a (mapping_bytes (address, size, off, prot)) -> u64 address -> u64 size -> u64 off ->
  mread m a 8 = address /\ mread m (a + 8) 8 = size /\ mread m (a + 16) 8 = off.
Proof.
  unfold mapping_bytes. rewrite !holds_app, !length_le_encode. intros (H1 & H2 & H3 & _) ? ? ?. split_and!; [by apply holds_u64..|].
  apply holds_u64; [|done]. by rewrite <- Z.add_assoc in H3.
Qed.

Lemma slide_fields m a x o s : holds m a (slide_mapping_bytes x o s) -> u64 o -> u64 s -> mread m (a + 24) 8 = o /\ mread m (a + 32) 8 = s.
Proof.
  destruct x as [[[address size] off] prot]. unfold slide_mapping_bytes. rewrite !holds_app, !length_le_encode, <- !Z.add_assoc. intros (_ & _ & _ & H1 & H2 & _) ? ?.
  split; by apply holds_u64.
Qed.

Lemma holds_stored m a bs : Forall byte bs -> holds (mstore m a bs) a bs.
Proof. apply mbytes_mstore. Qed.

Definition layout_u64 (L : cache_layout) : Prop :=
  (forall r, 0 <= r <= 2 -> u64 (region_size L r) /\ u64 (region_off L r)) /\ u64 (gSlideInfoFileOff L) /\ u64 (gSlideInfoSize L).

Lemma mappings_fields L locs b : layout_u64 L -> let slide := (0 <? gSlideInfoSize L) && (0 <? locs) in let m := write_mappings L locs b in
  (forall r, 0 <= r <= 2 -> mread m (mappingOff + r * 32) 8 = region_base r /\ mread m (mappingOff + r * 32 + 8) 8 = region_size L r /\ mread m (mappingOff + r * 32 + 16) 8 = region_off L r) /\
  mread m (slideMapOff + 80) 8 = (if slide then gSlideInfoFileOff L else 0) /\ mread m (slideMapOff + 88) 8 = (if slide then gSlideInfoSize L else 0) /\
  only_in 512 264 b m.
Proof.
  intros (Hr & Ho & Hs) slide m. set (b1 := mstore b mappingOff (concat (map mapping_bytes (mappings L)))).
  set (ys := concat (imap (fun i x => slide_mapping_bytes x (if (i =? 1)%nat && slide then gSlideInfoFileOff L else 0) (if (i =? 1)%nat && slide then gSlideInfoSize L else 0)) (mappings L))).
  assert (Em : m = mstore b1 slideMapOff ys) by done. assert (Hly : length ys = 168%nat) by (unfold ys; cbn [imap concat mappings Nat.eqb]; rewrite !length_app, !slide_mapping_bytes_length; done).
  assert (Hlx : length (concat (map mapping_bytes (mappings L))) = 96%nat) by (cbn [map concat mappings]; rewrite !length_app, !mapping_bytes_length; done).
  assert (Hx : holds m mappingOff (concat (map mapping_bytes (mappings L)))).
  { rewrite Em. eapply holds_only_in; [apply only_in_mstore|rewrite Hlx; by left|]. apply holds_stored. cbn [map concat mappings]. rewrite !Forall_app. split_and!; try apply mapping_bytes_byte. constructor. }
  assert (Hy : holds m slideMapOff ys).
  { rewrite Em. apply holds_stored. unfold ys. cbn [imap concat mappings Nat.eqb]. rewrite !Forall_app. split_and!; try apply slide_mapping_bytes_byte. constructor. }
  cbn [map concat mappings] in Hx. rewrite !holds_app, !mapping_bytes_length in Hx. destruct Hx as (X0 & X1 & X2 & _).
  unfold ys in Hy. cbn [imap concat mappings Nat.eqb andb] in Hy. rewrite !holds_app, !slide_mapping_bytes_length in Hy. destruct Hy as (_ & Y1 & _).
  assert (Z0 : u64 0) by (split; lia). assert (Hc : u64 (if slide then gSlideInfoFileOff L else 0) /\ u64 (if slide then gSlideInfoSize L else 0)) by (destruct slide; split; assumption).
  split_and!.
  - intros r Hrr. destruct (Hr 0 ltac:(lia)) as [R0 O0], (Hr 1 ltac:(lia)) as [R1 O1], (Hr 2 ltac:(lia)) as [R2 O2].
    assert (r = 0 \/ r = 1 \/ r = 2) as [->|[->| ->]] by lia; (eapply mapping_fields; [eassumption|split; vm_compute; (reflexivity || discriminate)|assumption|assumption]).
  - exact (proj1 (slide_fields _ _ _ _ _ Y1 (proj1 Hc) (proj2 Hc))).
  - exact (proj2 (slide_fields _ _ _ _ _ Y1 (proj1 Hc) (proj2 Hc))).
  - intros c Hcc. rewrite Em. unfold b1. rewrite !mget_mstore_out; [done|rewrite Hlx; unfold mappingOff, sizeof_dyld_cache_header; lia|].
    rewrite Hly. unfold slideMapOff, mappingOff, sizeof_dyld_cache_header, sizeof_mapping_info. lia.
Qed.

(** One round of the image loop. *)
Lemma write_image_ok b i cur d : name_ok (d_installName d) -> u64 (text_vmaddr d) -> imagesOff + 32 * (i + 1) <= cur -> 0 <= i -> cur + Z.of_nat (length (d_installName d)) + 1 < 2 ^ 32 ->
  exists b', write_image imagesOff (b, i, cur) d = (b', i + 1, cur + (Z.of_nat (length (d_installName d)) + 1)) /\
    mread b' (imagesOff + 32 * i) 8 = text_vmaddr d /\ mread b' (imagesOff + 32 * i + 24) 4 = cur /\ holds b' cur (d_installName d ++ [0]) /\ (mem_wf b -> mem_wf b') /\
    (forall a, ~ imagesOff + 32 * i <= a < imagesOff + 32 * (i + 1) -> ~ cur <= a < cur + Z.of_nat (length (d_installName d)) + 1 -> mget b' a = mget b a).
Proof.
  intros (_ & Hby & _) Hu Hi H0 Hc. unfold write_image. assert (Ei : imagesOff = 776) by reflexivity. rewrite wrap_small by lia. eexists. split; [done|].
  unfold sizeof_image_info. rewrite (Z.mul_comm i 32). rewrite !mread_mstore_out by lia. split_and!.
  - read_field. apply Z.mod_small. exact Hu.
  - read_field. apply Z.mod_small. change (256 ^ Z.of_nat 4) with (2 ^ 32). lia.
  - apply holds_stored, Forall_app. split; [done|]. by repeat constructor.
  - intros Hw. auto 20 with panthera.
  - intros a H1 H2. rewrite mget_mstore_out by (rewrite length_app; cbn; lia). by rewrite !mget_mwrite_out by lia.
Qed.

Lemma write_images_ok ds : forall b i cur, (forall d, d ∈ ds -> name_ok (d_installName d) /\ u64 (text_vmaddr d)) -> 0 <= i ->
  imagesOff + 32 * (i + Z.of_nat (length ds)) <= cur -> cur + names_size ds < 2 ^ 32 ->
  let m := (fold_left (write_image imagesOff) ds (b, i, cur)).1.1 in
  (mem_wf b -> mem_wf m) /\
  (forall a, ~ imagesOff + 32 * i <= a < imagesOff + 32 * (i + Z.of_nat (length ds)) -> ~ cur <= a < cur + names_size ds -> mget m a = mget b a) /\
  (forall k d, ds !! k = Some d -> let path := cur + names_size (take k ds) in
    mread m (imagesOff + 32 * (i + Z.of_nat k)) 8 = text_vmaddr d /\ mread m (imagesOff + 32 * (i + Z.of_nat k) + 24) 4 = path /\ holds m path (d_installName d ++ [0])).
Proof.
  induction ds as [|d ds IH]; intros b i cur Hd H0 Hi Hc; cbn [fold_left]; [done|]. rewrite names_size_cons in *. cbn [length] in Hi. assert (0 <= names_size ds) by (unfold names_size; lia).
  destruct (Hd d ltac:(by left)) as [Hn Hu]. destruct (write_image_ok b i cur d Hn Hu ltac:(lia) H0 ltac:(lia)) as (b' & -> & F1 & F2 & F3 & F4 & F5).
  destruct (IH b' (i + 1) (cur + (Z.of_nat (length (d_installName d)) + 1)) ltac:(intros; apply Hd; by right) ltac:(lia) ltac:(lia) ltac:(lia)) as (G1 & G2 & G3).
  split_and!; [tauto| |].
  - intros a A1 A2. cbn [length] in A1. rewrite G2 by lia. apply F5; lia.
  - intros [|k] e Hk.
    + injection Hk as <-. cbn [take]. change (names_size []) with 0. rewrite !Z.add_0_r. split_and!.
      * etransitivity; [|exact F1]. apply mread_ext. intros a Ha. apply G2; lia.
      * etransitivity; [|exact F2]. apply mread_ext. intros a Ha. apply G2; lia.
      * eapply holds_ext; [|exact F3]. intros a Ha. rewrite length_app in Ha. cbn in Ha. apply G2; lia.
    + specialize (G3 k e Hk). cbn [take]. rewrite names_size_cons. replace (i + Z.of_nat (S k)) with (i + 1 + Z.of_nat k) by lia.
      replace (cur + (Z.of_nat (length (d_installName d)) + 1 + names_size (take k ds))) with (cur + (Z.of_nat (length (d_installName d)) + 1) + names_size (take k ds)) by lia. exact G3.
Qed.

Section File.
Variables (uuid : list Z) (L : cache_layout) (ds : list DylibInfo).
Hypothesis Hu : length uuid = 16%nat.
Hypothesis HL : layout_u64 L.
Hypothesis Hcount : (length ds <= 32)%nat.
Hypothesis Hds : forall d, d ∈ ds -> name_ok (d_installName d) /\ u64 (text_vmaddr d).

Lemma write_metadata_ok locs b : let m := write_metadata uuid L locs ds b in
  metadata m 0 L ((0 <? gSlideInfoSize L) && (0 <? locs)) ds /\ (mem_wf b -> mem_wf m) /\
  only_in 0 (imagesOff + 32 * Z.of_nat (length ds) + names_size ds) b m.
Proof using Hu HL Hcount Hds.
  unfold write_metadata. pose proof (names_size_range ds ltac:(intros; by apply Hds)) as Hn. assert (Ei : imagesOff = 776) by reflexivity.
  assert (Ep : pathsOff ds = imagesOff + 32 * Z.of_nat (length ds)) by (unfold pathsOff, sizeof_image_info; rewrite wrap_small by lia; lia).
  set (n := Z.of_nat (length ds)). destruct (header_fields uuid L n b Hu ltac:(lia)) as (H1 & H2 & H3 & H4 & H5 & H6 & H7 & H8 & H9). set (b1 := write_header uuid L n b) in *.
  destruct (mappings_fields L locs b1 HL) as (M1 & M2 & M3 & M4). set (b2 := write_mappings L locs b1) in *.
  destruct (write_images_ok ds b2 0 (pathsOff ds) Hds ltac:(lia) ltac:(lia) ltac:(lia)) as (G1 & G2 & G3). set (m := (fold_left _ _ _).1.1) in *.
  assert (K : forall c k, c + Z.of_nat k <= 776 -> mread m c k = mread b2 c k) by (intros c k Hc; apply mread_ext; intros a Ha; apply G2; lia).
  assert (K2 : forall c k, c + Z.of_nat k <= 512 -> mread m c k = mread b1 c k) by (intros c k Hc; rewrite K by lia; apply (mread_only_in _ _ _ _ _ _ M4); lia).
  assert (Es : slideMapOff = 608) by reflexivity. assert (Em : mappingOff = 512) by reflexivity.
  split; [|split].
  - split; rewrite ?Z.add_0_l.
    + rewrite <- H1. apply mbytes_ext. intros a Ha. rewrite G2 by lia. apply M4. lia.
    + by rewrite !K2 by lia.
    + by rewrite !K2 by lia.
    + by rewrite !K2 by lia.
    + by rewrite !K2 by lia.
    + intros r Hr. rewrite !Z.add_0_l, !K by lia. by apply M1.
    + rewrite !K by lia. done.
    + intros i d Hi. specialize (G3 i d Hi). cbv zeta in *. by rewrite !Z.add_0_l in *.
  - intros Hw. apply G1. unfold b2, b1, write_mappings, write_header. auto 30 with panthera.
  - intros a Ha. rewrite G2 by lia. rewrite M4 by lia. apply H9. lia.
Qed.
End File.

(** The metadata of a file that is somewhere in memory. *)
Lemma metadata_at m m' a n L slide ds : metadata m 0 L slide ds -> same_at m m' a n -> (length ds <= 32)%nat -> (forall d, d ∈ ds -> name_ok (d_installName d)) ->
  imagesOff + 32 * Z.of_nat (length ds) + names_size ds <= n -> metadata m' a L slide ds.
Proof.
  intros [H1 H2 H3 H4 H5 H6 H7 H8] Hs Hc Hnm Hn. assert (Ei : imagesOff = 776) by reflexivity. pose proof (names_size_range ds Hnm).
  assert (Ep : pathsOff ds = imagesOff + 32 * Z.of_nat (length ds)) by (unfold pathsOff, sizeof_image_info; rewrite wrap_small by lia; lia).
  assert (Es : slideMapOff = 608) by reflexivity. assert (Em : mappingOff = 512) by reflexivity.
  assert (K : forall c k, 0 <= c -> c + Z.of_nat k <= n -> mread m' (a + c) k = mread m c k) by (intros; by apply (same_at_read _ _ _ n)).
  split.
  - rewrite <- (Z.add_0_r a), (same_at_bytes m m' a n) by (done || lia). exact H1.
  - by rewrite !K by lia.
  - by rewrite !K by lia.
  - by rewrite !K by lia.
  - by rewrite !K by lia.
  - intros r Hr. rewrite !K by lia. by apply H6.
  - by rewrite !K by lia.
  - intros i d Hi. pose proof (lookup_lt_Some _ _ _ Hi). destruct (take_names_size i d ds Hi Hnm) as [T1 T2]. rewrite !K by lia. destruct (H8 i d Hi) as (I1 & I2 & I3).
    split_and!; [done|done|]. unfold holds in *. rewrite length_app in *. rewrite (same_at_bytes m m' a n); [exact I3|done|lia|cbn; lia].
Qed.

(** ** The bytes of the file *)
Lemma assign_dylibs_at L : forall ds c i d, assign_dylibs L c ds !! i = Some d -> exists d0 c0, ds !! i = Some d0 /\ d = set_segs d0 (assign_segments L c0 (d_segs d0)).
Proof.
  induction ds as [|d0 ds IH]; intros c i d Hi; [by destruct i|]. destruct i as [|i]; [injection Hi as <-; by exists d0, c|exact (IH _ _ _ Hi)].
Qed.

Lemma assign_dylibs_names L : forall ds c, d_installName <$> assign_dylibs L c ds = d_installName <$> ds.
Proof. induction ds as [|d ds IH]; intros c; [done|]. cbn [assign_dylibs fmap list_fmap]. f_equal. apply IH. Qed.

Lemma slide_size L sz : gSlideInfoSize (set_slide_size sz L) = sz.
Proof. done. Qed.

Lemma layout_u64_slide L sz : (forall r, 0 <= r <= 2 -> u64 (region_size L r) /\ u64 (region_off L r)) -> u64 (gSlideInfoFileOff L) -> u64 sz -> layout_u64 (set_slide_size sz L).
Proof. intros Hr Ho Hs. split; [exact Hr|by split]. Qed.

Lemma generate_size off size so sz locs b b' locs' sz' : generate_slide_info_v2 off size so sz locs b = Some (b', locs', sz') -> locs <> [] ->
  sz' = PAGE_ALIGN (sizeof_slide_info2 +64 wrap 32 ((size +64 (PAGE_SZ - 1)) / PAGE_SZ) * 2).
Proof. unfold generate_slide_info_v2. destruct locs as [|x l]; [done|]. destruct (for_range _ _ _ _) as [[[? ?] ?]|]; [|done]. by intros [= _ _ <-] _. Qed.

Section Finish.
Variables (uuid : list Z) (ds : list DylibInfo) (locs : list Z) (b : mem) (file : list Z).
Hypothesis fit : dylibs_fit ds.
Notation L := (layout_of ds).
Notation cached := (assigned ds).

Lemma cached_length : length cached = length ds.
Proof. rewrite <- (length_fmap d_installName cached), <- (length_fmap d_installName ds). f_equal. apply assign_dylibs_names. Qed.

Lemma cached_names_size : names_size cached = names_size ds.
Proof.
  unfold names_size. assert (E : forall l, map (fun d => d_installName d ++ [0]) l = map (fun s => s ++ [0]) (d_installName <$> l)) by (induction l as [|d l IH]; cbn; congruence).
  rewrite !E. unfold assigned. by rewrite assign_dylibs_names.
Qed.

Lemma in_cached d : d ∈ cached -> name_ok (d_installName d).
Proof using fit. intros [i Hi]%list_elem_of_lookup. apply assign_dylibs_at in Hi as (d0 & c & Hi & ->). apply (fit_names _ fit d0). by eapply list_elem_of_lookup_2. Qed.

Lemma cached_seg d si : d ∈ cached -> si ∈ d_segs d -> exists k, with_segs cached !! k = Some (d, si) /\ all_segs cached !! k = Some si.
Proof.
  intros Hd Hs. assert (Hw : (d, si) ∈ with_segs cached).
  { unfold with_segs. apply elem_of_concat. exists (pair d <$> d_segs d). split; [by apply (list_elem_of_fmap_2 (fun d => pair d <$> d_segs d))|by apply list_elem_of_fmap_2]. }
  apply list_elem_of_lookup in Hw as [k Hk]. exists k. split; [done|]. by rewrite <- with_segs_snd, list_lookup_fmap, Hk.
Qed.

Lemma text_u64 d : d ∈ cached -> u64 (text_vmaddr d).
Proof using fit.
  intros Hd. unfold text_vmaddr. destruct (nth_seg d (d_textSegIdx d)) as [si|] eqn:E; [|split; lia]. unfold nth_seg in E. destruct (_ <? _); [done|].
  destruct (cached_seg d si Hd ltac:(by eapply list_elem_of_lookup_2)) as (k & _ & Hk). destruct (assigned_segs_ok ds fit k si Hk) as [Hs (P1 & P2 & _ & P4 & _)].
  pose proof (aligned_size_range si Hs). destruct Hs as (Hr & _). destruct (region_ends ds fit (s_region si) Hr) as (_ & _ & E3 & _). assert (capacity (s_region si) <= 0x60000000) by (unfold capacity; case_match; lia).
  assert (0 <= region_base (s_region si) < 2 ^ 48) by (unfold region_base; repeat case_match; split; vm_compute; (reflexivity || discriminate)). unfold u64. lia.
Qed.

Hypothesis wf : mem_wf b.
Hypothesis rec : locs <> [] -> recorded (gDataFileOff L) (gDataSize L) locs b.

Definition has_slide : bool := negb (bool_decide (locs = [])).

Lemma generated b' locs' sz : generate_slide_info_v2 (gDataFileOff L) (gDataSize L) (gSlideInfoFileOff L) (gSlideInfoSize L) locs b = Some (b', locs', sz) ->
  mem_wf b' /\ 0 < sz <= 0x400000 /\ (0 <? Z.of_nat (length locs')) = has_slide /\ sizeof_slide_info2 + 2 * page_count (gDataSize L) <= sz.
Proof using fit wf rec.
  intros Hg. destruct (layout_regions ds fit) as (_ & _ & _ & _ & R1 & R2 & R3). destruct (region_ends ds fit 1 ltac:(lia)) as (E1 & E2 & E3 & _). destruct (region_ends ds fit 2 ltac:(lia)) as (_ & _ & E4 & _).
  change (region_off L 1) with (gDataFileOff L) in *. change (region_size L 1) with (gDataSize L) in *. change (capacity 1) with 0x40000000 in *.
  unfold has_slide. destruct (decide (locs = [])) as [->|Hne].
  - set (s := gSlideInfoSize L) in *. clearbody s. injection Hg as <- <- <-. rewrite bool_decide_eq_true_2 by done. split_and!; (done || lia).
  - rewrite bool_decide_eq_false_2 by done. destruct (generate_ok (gDataFileOff L) (gDataSize L) locs b (gSlideInfoFileOff L) (gSlideInfoSize L) b' locs' sz (rec Hne) ltac:(lia) Hg) as (pages & _ & _ & -> & _ & _ & _ & Hsz & Hw). split; [done|].
    split; [|split; [|done]].
    + rewrite (generate_size _ _ _ _ _ _ _ _ _ Hg Hne). set (p := wrap 32 _) in *. assert (Hp : 0 <= p <= 0x40001).
      { unfold p. rewrite (wrap_small 64) by (unfold PAGE_SZ; lia). assert (0 <= (gDataSize L + (PAGE_SZ - 1)) / PAGE_SZ <= 0x40001); [|rewrite wrap_small; lia].
        unfold PAGE_SZ. split; [apply Z.div_pos; lia|apply Z.div_le_upper_bound; lia]. }
      unfold sizeof_slide_info2. rewrite wrap_small by lia. destruct (PAGE_ALIGN_range (40 + p * 2) ltac:(lia)) as (? & _). unfold PAGE_SZ in *. lia.
    + destruct locs as [|x l] eqn:El; [done|]. rewrite <- El in *. assert (Hx : x ∈ sort_and_deduplicate locs) by (apply (sort_and_deduplicate_ok locs Hne); rewrite El; by left).
      destruct (sort_and_deduplicate locs); [by apply elem_of_nil in Hx|done].
Qed.

Hypothesis Hu : length uuid = 16%nat.

Lemma finish_ok : finish_cache uuid L cached locs b = Some file ->
  exists b' locs' sz, generate_slide_info_v2 (gDataFileOff L) (gDataSize L) (gSlideInfoFileOff L) (gSlideInfoSize L) locs b = Some (b', locs', sz) /\
  metadata (fmem file) 0 (set_slide_size sz L) has_slide cached /\ (forall a, gMetaSize L <= a < Z.of_nat (length file) -> mget (fmem file) a = mget b' a) /\
  gSlideInfoFileOff L + (sizeof_slide_info2 + 2 * page_count (gDataSize L)) <= Z.of_nat (length file) < 2 ^ 40 /\ 0 < sz < 2 ^ 40.
Proof using fit Hu wf rec.
  unfold finish_cache. destruct (generate_slide_info_v2 _ _ _ _ _ _) as [[[b' locs'] sz]|] eqn:Hg; [|done]. intros Hfile%(inj Some). exists b', locs', sz. split; [done|].
  destruct (generated b' locs' sz Hg) as (Hw' & Hsz & Hsl & Hps). destruct (layout_regions ds fit) as ((M1 & _) & _ & _ & _ & _ & R2 & R3). rewrite (gBufSize_ok ds fit) in Hfile.
  destruct (region_ends ds fit 2 ltac:(lia)) as (E1 & E2 & E3 & _). change (region_size L 1) with (gDataSize L) in *. assert (Ei : imagesOff = 776) by reflexivity.
  pose proof (names_size_range ds (fit_names _ fit)) as Hn. rewrite (wrap_small 64) in Hfile by lia. set (size := if _ <? _ then _ else _) in Hfile.
  assert (Hsize : gSlideInfoFileOff L + (sizeof_slide_info2 + 2 * page_count (gDataSize L)) <= size < 2 ^ 40) by (unfold size; case_match; lia).
  assert (0 <= page_count (gDataSize L)) by (destruct (region_ends ds fit 1 ltac:(lia)) as (_ & _ & ? & _); change (region_size L 1) with (gDataSize L) in *; unfold page_count, PAGE_SZ; apply Z.div_pos; lia).
  unfold sizeof_slide_info2 in *. set (m := write_metadata _ _ _ _ _) in Hfile.
  assert (HLu : layout_u64 (set_slide_size sz L)).
  { apply layout_u64_slide; [|unfold u64; lia|unfold u64; lia]. intros r Hr. destruct (region_ends ds fit r Hr) as (? & ? & ? & _).
    assert (capacity r <= 0x60000000) by (unfold capacity; case_match; lia). unfold u64. lia. }
  destruct (write_metadata_ok uuid (set_slide_size sz L) cached Hu HLu ltac:(rewrite cached_length; apply (fit_count _ fit)) ltac:(intros d Hd; split; [by apply in_cached|by apply text_u64]) (Z.of_nat (length locs')) b') as (Hm & Hwm & Hon).
  fold m in Hm, Hwm, Hon. specialize (Hwm Hw'). rewrite Hsl, slide_size in Hm. replace (0 <? sz) with true in Hm by lia. cbn [andb] in Hm.
  assert (Hlen : Z.of_nat (length file) = size) by (rewrite <- Hfile, length_mbytes; lia).
  assert (Hget : forall i, 0 <= i < size -> mget (fmem file) i = mget m i).
  { intros i Hi. rewrite mget_fmem by (rewrite <- Hfile; by apply mbytes_byte). rewrite decide_True by lia. rewrite <- Hfile, mbytes_get by lia. cbn. f_equal. lia. }
  rewrite cached_length, cached_names_size in Hon. split; [|split; [|lia]].
  - apply (metadata_at m _ 0 size); [done|intros i Hi; rewrite Z.add_0_l; by apply Hget|rewrite cached_length; apply (fit_count _ fit)|apply in_cached|rewrite cached_length, cached_names_size; lia].
  - intros a Ha. rewrite Hget by lia. apply Hon. lia.
Qed.
End Finish.
