(* ===== verification/CacheFixups.v ===== *)
(** * The shared cache builder's fixups: tools/build_shared_cache_real.c

    The pointers of the libraries are given their cache addresses when the cache is
    built. The opcodes are read from the library's file, and the pointers are changed
    in the cache buffer. *)

From Stdlib Require Import ZArith Lia Ascii String.
From stdpp Require Import base list gmap.
From S2P Require Import Prelude MachO Words Runs Leb128 DyldImage MachImage DyldKernel SlideInfo Linker Opcodes CacheBuild CacheFile.

Open Scope Z_scope.

(** [gBuf] and [gRebaseLocs]. *)
Definition buffer : Type := mem * list Z.

Definition read_uleb128 (m : mem) (p : Z) : option (Z * Z) := uleb_do 10 m p 0 0.

Definition find_seg_by_origidx (d : DylibInfo) (idx : Z) : option SegInfo := nth_seg d idx.

Definition cache_loc (L : cache_layout) (d : DylibInfo) (segIdx segOff : Z) : option Z :=
  match find_seg_by_origidx d segIdx with
  | None => None
  | Some si => let off := s_cacheFileOff si +64 segOff in if gBufSize L <? off +64 8 then None else Some off
  end.

(** The first segment that has the address [val]. *)
Definition owner (d : DylibInfo) (val : Z) : option SegInfo :=
  List.find (fun si => (s_origVmaddr si <=? val) && (val <? s_origVmaddr si +64 s_vmsize si)) (d_segs d).

(** Recording a location, if it is in DATA. *)
Definition record_location (d : DylibInfo) (segIdx segOff : Z) (locs : list Z) : list Z :=
  match find_seg_by_origidx d segIdx with
  | Some locSeg => if s_region locSeg =? 1 then record_rebase locs (s_cacheFileOff locSeg +64 segOff) else locs
  | None => locs
  end.

Definition do_rebase (L : cache_layout) (d : DylibInfo) (segIdx segOff : Z) (s : buffer) : buffer :=
  match cache_loc L d segIdx segOff with
  | None => s
  | Some loc =>
      let val := mread s.1 loc 8 in
      if val =? 0 then s
      else
        match owner d val with
        | None => s
        | Some t => (mwrite s.1 loc 8 (val +64 s_slide t), record_location d segIdx segOff s.2)
        end
  end.

(** [n] pointers, [step] bytes apart, and [segOff] after them. *)
Fixpoint rebase_each (L : cache_layout) (d : DylibInfo) (n : nat) (segIdx segOff step : Z) (s : buffer) : buffer * Z :=
  match n with
  | O => (s, segOff)
  | S n => rebase_each L d n segIdx (segOff +64 step) step (do_rebase L d segIdx segOff s)
  end.

(** One opcode of the program that ends at [e]; [inr None] is a number of more than ten
    bytes. *)
Definition rebase_step (L : cache_layout) (d : DylibInfo) (e : Z) (x : buffer * Z * Z * Z) : (buffer * Z * Z * Z) + option buffer :=
  let '(s, p, segIdx, segOff) := x in
  let m := fmem (d_mapped d) in
  if p <? e then
    let byte := mget m p in
    let p := p + 1 in
    let opcode := Z.land byte 0xF0 in
    let imm := Z.land byte 0x0F in
    if opcode =? 0x00 then inr (Some s)
    else if opcode =? 0x20 then match read_uleb128 m p with None => inr None | Some (v, p) => inl (s, p, imm, v) end
    else if opcode =? 0x30 then match read_uleb128 m p with None => inr None | Some (v, p) => inl (s, p, segIdx, segOff +64 v) end
    else if opcode =? 0x40 then inl (s, p, segIdx, segOff +64 imm * 8)
    else if opcode =? 0x50 then let '(s, segOff) := rebase_each L d (Z.to_nat imm) segIdx segOff 8 s in inl (s, p, segIdx, segOff)
    else if opcode =? 0x60 then
      match read_uleb128 m p with
      | None => inr None
      | Some (cnt, p) => let '(s, segOff) := rebase_each L d (Z.to_nat cnt) segIdx segOff 8 s in inl (s, p, segIdx, segOff)
      end
    else if opcode =? 0x70 then
      match read_uleb128 m p with
      | None => inr None
      | Some (v, p) => inl (do_rebase L d segIdx segOff s, p, segIdx, segOff +64 (v +64 8))
      end
    else if opcode =? 0x80 then
      match read_uleb128 m p with
      | None => inr None
      | Some (cnt, p) =>
          match read_uleb128 m p with
          | None => inr None
          | Some (skip, p) => let '(s, segOff) := rebase_each L d (Z.to_nat cnt) segIdx segOff (skip +64 8) s in inl (s, p, segIdx, segOff)
          end
      end
    else inl (s, p, segIdx, segOff)
  else inr (Some s).

(** One load command; [inr] leaves the loop. *)
Definition rebase_info (L : cache_layout) (d : DylibInfo) (cmd : Z) (s : buffer) : buffer + option buffer :=
  let m := fmem (d_mapped d) in
  if (lc_cmd m cmd =? LC_DYLD_INFO) || (lc_cmd m cmd =? LC_DYLD_INFO_ONLY) then
    if di_rebase_size m cmd =? 0 then inr (Some s)
    else
      let p := di_rebase_off m cmd in
      match while rounds64 None (rebase_step L d (p + di_rebase_size m cmd)) (s, p, 0, 0) with
      | None => inr None
      | Some s => inl s
      end
  else inl s.

Definition apply_rebases (L : cache_layout) (d : DylibInfo) (s : buffer) : option buffer :=
  fold_until (rebase_info L d) Some (commands (fmem (d_mapped d)) 0) s.

(** ** Running a rebase program *)
Lemma read_uleb128_ok m p e v q : uleb_at m p e v q -> read_uleb128 m p = Some (v, q).
Proof. apply readULEB128_ok. Qed.

Section Run.
Variables (L : cache_layout) (d : DylibInfo).
Notation m := (fmem (d_mapped d)).

Definition rebase_all (l : list (Z * Z)) (s : buffer) : buffer := fold_left (fun s x => do_rebase L d x.1 x.2 s) l s.

Lemma rebase_each_ok seg step n : forall off s, 0 <= off < 2 ^ 64 -> rebase_each L d n seg off step s = (rebase_all (map (pair seg) (offsets n off step)) s, offset_after n off step).
Proof.
  induction n as [|n IH]; intros off s Ho; cbn [rebase_each offsets map].
  - unfold offset_after. rewrite Z.add_0_r, wrap_small by done. done.
  - rewrite IH by apply wrap_64_range. by rewrite offset_after_S.
Qed.

Lemma opcode_at p k lo : 0 <= k < 16 -> 0 <= lo < 16 -> mget m p = 16 * k + lo -> Z.land (mget m p) 0xF0 = 16 * k /\ Z.land (mget m p) 0x0F = lo.
Proof. intros Hk Hlo ->. by apply opcode_split. Qed.

Ltac step_opcode k lo :=
  cbn [runs rebase_rounds rebase_pointers]; unfold rebase_step at 1;
  match goal with
  | Hlt : ?p < ?e |- _ =>
      destruct (Z.ltb_spec p e); [|lia];
      destruct (opcode_at p k lo ltac:(lia) ltac:(lia) ltac:(lia)) as [-> ->];
      let v := eval vm_compute in (16 * k) in change (16 * k) with v; cbn [Z.eqb Pos.eqb]
  end.

Ltac read_number := erewrite read_uleb128_ok by eassumption.

Lemma rebase_steps e ops : forall s p seg off, rebase_at m p e ops -> 0 <= off < 2 ^ 64 ->
  runs (rebase_step L d e) (rebase_rounds ops) (s, p, seg, off) = inr (Some (rebase_all (rebase_pointers ops seg off) s)).
Proof.
  induction ops as [|op ops IH]; intros s p seg off Hat Hoff.
  { cbn [runs rebase_rounds rebase_step]. cbn [rebase_at] in Hat. by destruct (Z.ltb_spec p e); [lia|]. }
  destruct Hat as [Hlt Hop]. assert (Happ : forall l1 l2 s, rebase_all (l1 ++ l2) s = rebase_all l2 (rebase_all l1 s)) by (intros; apply fold_left_app).
  destruct op; decompose [and ex] Hop; uleb_facts.
  - step_opcode 1 ty. apply IH; done.
  - step_opcode 2 seg0. read_number. apply IH; (done || lia).
  - step_opcode 3 0. read_number. apply IH; (done || apply wrap_64_range).
  - step_opcode 4 k. apply IH; (done || apply wrap_64_range).
  - step_opcode 5 k. rewrite rebase_each_ok by done. rewrite Happ. apply IH; (done || apply wrap_64_range).
  - step_opcode 6 0. read_number. rewrite rebase_each_ok by done. rewrite Happ. apply IH; (done || apply wrap_64_range).
  - step_opcode 7 0. read_number. etransitivity; [apply IH; (done || apply wrap_64_range)|done].
  - step_opcode 8 0. read_number. read_number. rewrite rebase_each_ok by done. rewrite Happ. apply IH; (done || apply wrap_64_range).
  - step_opcode 0 0. done.
Qed.
End Run.

(** ** What the pointers become *)

(** The place of a pointer in the buffer. *)
Definition place (d : DylibInfo) (x : Z * Z) : Z := match nth_seg d x.1 with Some si => s_cacheFileOff si + x.2 | None => 0 end.

Definition in_segment (d : DylibInfo) (x : Z * Z) : Prop := exists si, nth_seg d x.1 = Some si /\ 0 <= x.2 /\ x.2 + 8 <= s_vmsize si.

(** The cache address of an address of the library. *)
Definition moved (d : DylibInfo) (v : Z) : Z :=
  if v =? 0 then 0 else match owner d v with Some t => s_cacheVmaddr t + (v - s_origVmaddr t) | None => v end.

(** The pointers that are recorded, by their values in [m]. *)
Definition is_recorded (d : DylibInfo) (m : mem) (x : Z * Z) : bool :=
  match nth_seg d x.1 with
  | Some si => (s_region si =? 1) && negb (mread m (place d x) 8 =? 0) && bool_decide (is_Some (owner d (mread m (place d x) 8)))
  | None => false
  end.

Section Effect.
Variables (ds : list DylibInfo) (d : DylibInfo).
Hypothesis fit : dylibs_fit ds.
Notation L := (layout_of ds).
Notation cached := (assigned ds).
Hypothesis Hd : d ∈ cached.

Lemma library_seg i si : nth_seg d i = Some si -> seg_ok si /\ placed ds si.
Proof using fit Hd.
  intros Hi. unfold nth_seg in Hi. destruct (_ <? _); [done|]. destruct (cached_seg ds d si Hd ltac:(by eapply list_elem_of_lookup_2)) as (k & _ & Hk). exact (assigned_segs_ok ds fit k si Hk).
Qed.

Lemma place_range x : in_segment d x -> exists si, nth_seg d x.1 = Some si /\ 0 <= s_region si <= 2 /\ place d x = s_cacheFileOff si + x.2 /\ region_off L (s_region si) <= place d x /\ place d x + 8 <= region_off L (s_region si) + region_size L (s_region si) /\
  0 <= place d x /\ place d x + 8 <= gSlideInfoFileOff L <= 0xe0004000.
Proof using fit Hd.
  intros (si & Hi & H0 & H1). exists si. destruct (library_seg _ _ Hi) as [Hs (P1 & P2 & _)]. pose proof (aligned_size_range si Hs). destruct Hs as (Hr & _). unfold place. rewrite Hi.
  destruct (region_ends ds fit (s_region si) Hr) as (E1 & E2 & _). destruct (layout_regions ds fit) as ((M1 & _) & _). assert (Ei : imagesOff = 776) by reflexivity. pose proof (names_size_range ds (fit_names _ fit)). split; [done|]. lia.
Qed.

Lemma cache_loc_ok x : in_segment d x -> cache_loc L d x.1 x.2 = Some (place d x).
Proof using fit Hd.
  intros Hx. destruct (place_range x Hx) as (si & Hi & _ & E & _ & _ & R1 & R2). unfold cache_loc, find_seg_by_origidx. rewrite Hi. rewrite E in *. rewrite (wrap_small 64 (_ + x.2)) by lia.
  rewrite wrap_small by lia. rewrite (gBufSize_ok ds fit). destruct (layout_regions ds fit) as (_ & _ & _ & _ & _ & _ & R3). destruct (Z.ltb_spec (gSlideInfoFileOff L + gSlideInfoSize L) (s_cacheFileOff si + x.2 + 8)); [lia|done].
Qed.

Lemma owner_spec v t : owner d v = Some t -> 0 <= v < 2 ^ 64 -> seg_ok t /\ placed ds t /\ 0 <= v - s_origVmaddr t < s_vmsize t.
Proof using fit Hd.
  intros [Hin Hv]%find_some Hr. apply list_elem_of_In, list_elem_of_lookup in Hin as [k Hk]. destruct (library_seg (Z.of_nat k) t) as [Hs Hp]; [unfold nth_seg; destruct (Z.ltb_spec (Z.of_nat k) 0); [lia|by rewrite Nat2Z.id]|].
  split; [done|]. split; [done|]. apply andb_true_iff in Hv as [V1 V2]. destruct Hs as (_ & Hvm & _ & _ & Ho). unfold wrap in V2. destruct (Z.lt_ge_cases (s_origVmaddr t + s_vmsize t) (2 ^ 64)) as [Hlt|Hge].
  - rewrite Z.mod_small in V2 by lia. lia.
  - replace (s_origVmaddr t + s_vmsize t) with (s_origVmaddr t + s_vmsize t - 2 ^ 64 + 1 * 2 ^ 64) in V2 by lia. rewrite Z.mod_add, Z.mod_small in V2 by lia. lia.
Qed.

Lemma moved_ok v t : owner d v = Some t -> 0 <= v < 2 ^ 64 -> v +64 s_slide t = s_cacheVmaddr t + (v - s_origVmaddr t) /\ SHARED_REGION_BASE <= s_cacheVmaddr t + (v - s_origVmaddr t) < SHARED_REGION_BASE + 2 ^ 40.
Proof using fit Hd.
  intros Ho Hv. destruct (owner_spec v t Ho Hv) as (Hs & (P1 & P2 & _ & P4 & P5) & Hr). pose proof (aligned_size_range t Hs). destruct Hs as (Hreg & _). destruct (region_ends ds fit (s_region t) Hreg) as (_ & _ & E & _).
  assert (Hb : SHARED_REGION_BASE <= region_base (s_region t) <= LINK_REGION_BASE) by (unfold region_base; repeat case_match; split; vm_compute; discriminate).
  assert (capacity (s_region t) <= 0x60000000) by (unfold capacity; case_match; lia). unfold SHARED_REGION_BASE, LINK_REGION_BASE in *. split; [|lia]. rewrite P5, wrap_add_r, wrap_small; lia.
Qed.

Lemma do_rebase_ok x s : in_segment d x -> mem_wf s.1 -> Z.of_nat (length s.2) < MAX_REBASE_LOCS -> let s' := do_rebase L d x.1 x.2 s in
  mem_wf s'.1 /\ mread s'.1 (place d x) 8 = moved d (mread s.1 (place d x) 8) /\ only_in (place d x) 8 s.1 s'.1 /\ s'.2 = s.2 ++ (if is_recorded d s.1 x then [place d x] else []).
Proof using fit Hd.
  intros Hx Hw Hroom. destruct (place_range x Hx) as (si & Hi & _ & E & _ & _ & R1 & R2). unfold do_rebase, is_recorded, moved, record_location, find_seg_by_origidx. rewrite (cache_loc_ok x Hx), Hi. pose proof (mread_range s.1 (place d x) 8 Hw) as Hv. change (256 ^ Z.of_nat 8) with (2 ^ 64) in Hv.
  set (v := mread s.1 (place d x) 8) in *. destruct (Z.eqb_spec v 0) as [E0|E0]; [rewrite andb_false_r, app_nil_r; by split_and!|].
  destruct (owner d v) as [t|] eqn:Et; [|rewrite bool_decide_eq_false_2, andb_false_r, app_nil_r by (intros Hn; by destruct Hn); by split_and!].
  rewrite bool_decide_eq_true_2 by (by eexists). cbn [negb fst snd]. rewrite !andb_true_r. split; [by apply mem_wf_mwrite|]. split; [|split].
  - rewrite mread_mwrite. destruct (moved_ok v t Et Hv) as [-> Hm]. apply Z.mod_small. unfold SHARED_REGION_BASE in Hm. lia.
  - apply (only_in_mwrite s.1 (place d x) 8).
  - destruct (s_region si =? 1); [|by rewrite app_nil_r]. unfold record_rebase. destruct (Z.ltb_spec (Z.of_nat (length s.2)) MAX_REBASE_LOCS); [|lia]. rewrite E in *. by rewrite wrap_small by lia.
Qed.

Lemma is_recorded_same m m' x : mread m' (place d x) 8 = mread m (place d x) 8 -> is_recorded d m' x = is_recorded d m x.
Proof. intros E. unfold is_recorded. by rewrite E. Qed.

Lemma rebase_all_ok l : forall s, Forall (in_segment d) l -> apart (map (place d) l) -> mem_wf s.1 -> Z.of_nat (length s.2 + length l) <= MAX_REBASE_LOCS ->
  let s' := rebase_all L d l s in
  mem_wf s'.1 /\ (forall x, x ∈ l -> mread s'.1 (place d x) 8 = moved d (mread s.1 (place d x) 8)) /\
  (forall a, ~ in_pointers (map (place d) l) a -> mget s'.1 a = mget s.1 a) /\ s'.2 = s.2 ++ map (place d) (filter (fun x => is_recorded d s.1 x = true) l).
Proof using fit Hd.
  induction l as [|x l IH]; intros s Hl Ha Hw Hroom; cbn [rebase_all fold_left map]; [rewrite app_nil_r; split_and!; try done; intros x Hx; by apply elem_of_nil in Hx|].
  apply Forall_cons in Hl as [Hx Hl]. cbn [map length] in *. apply apart_cons in Ha as [Ha Hax]. destruct (do_rebase_ok x s Hx Hw ltac:(lia)) as (D1 & D2 & D3 & D4). set (s1 := do_rebase L d x.1 x.2 s) in *.
  assert (Hlen : Z.of_nat (length s1.2 + length l) <= MAX_REBASE_LOCS) by (rewrite D4, length_app; destruct (is_recorded _ _ _); cbn; lia). destruct (IH s1 Hl Ha D1 Hlen) as (I1 & I2 & I3 & I4). fold (rebase_all L d l s1).
  assert (Hsame : forall y, y ∈ l -> mread s1.1 (place d y) 8 = mread s.1 (place d y) 8).
  { intros y Hy. apply (mread_only_in _ _ _ _ _ _ D3). specialize (Hax (place d y) ltac:(by apply list_elem_of_fmap_2)). lia. }
  split; [done|]. split; [|split].
  - intros y [->|Hy]%elem_of_cons; [|by rewrite I2, Hsame]. rewrite <- D2. apply mread_ext. intros a Hr. apply I3. intros (z & Hz & Hza). specialize (Hax z Hz). lia.
  - intros a Hn. rewrite I3 by (intros (z & Hz & Hza); apply Hn; exists z; split; [by right|done]). apply D3. assert (~ place d x <= a < place d x + 8) by (intros Hr; apply Hn; exists (place d x); split; [by left|done]). lia.
  - rewrite I4, D4, <- app_assoc. f_equal. rewrite filter_cons. assert (Ef : filter (fun y => is_recorded d s1.1 y = true) l = filter (fun y => is_recorded d s.1 y = true) l).
    { clear -Hsame. induction l as [|y l IH]; [done|]. rewrite !filter_cons, (is_recorded_same s.1 s1.1 y) by (apply Hsame; by left). rewrite IH by (intros; apply Hsame; by right). done. }
    rewrite Ef. destruct (is_recorded d s.1 x); by case_decide.
Qed.
End Effect.

(** The library's file has one dyld info command, [cmd]. *)
Definition one_info (m : mem) (cmd : Z) : Prop := exists before after, commands m 0 = before ++ cmd :: after /\
  (lc_cmd m cmd = LC_DYLD_INFO \/ lc_cmd m cmd = LC_DYLD_INFO_ONLY) /\ Forall (fun c => lc_cmd m c <> LC_DYLD_INFO /\ lc_cmd m c <> LC_DYLD_INFO_ONLY) (before ++ after).

Lemma skip_rebase_info L d l s : Forall (fun c => lc_cmd (fmem (d_mapped d)) c <> LC_DYLD_INFO /\ lc_cmd (fmem (d_mapped d)) c <> LC_DYLD_INFO_ONLY) l ->
  forall rest, fold_until (rebase_info L d) Some (l ++ rest) s = fold_until (rebase_info L d) Some rest s.
Proof.
  induction l as [|c l IH]; intros Hl rest; [done|]. apply Forall_cons in Hl as [[H1 H2] Hl]. cbn [app fold_until]. unfold rebase_info at 1.
  destruct (Z.eqb_spec (lc_cmd (fmem (d_mapped d)) c) LC_DYLD_INFO); [done|]. destruct (Z.eqb_spec (lc_cmd (fmem (d_mapped d)) c) LC_DYLD_INFO_ONLY); [done|]. by apply IH.
Qed.

Lemma apply_rebases_ok L d cmd ops s : let m := fmem (d_mapped d) in one_info m cmd -> di_rebase_size m cmd <> 0 -> rebase_at m (di_rebase_off m cmd) (di_rebase_off m cmd + di_rebase_size m cmd) ops ->
  apply_rebases L d s = Some (rebase_all L d (rebase_pointers ops 0 0) s).
Proof.
  intros m (before & after & Ec & Hinfo & Hother) Hsz Hat. apply Forall_app in Hother as [Hb Ha]. unfold apply_rebases. change (commands (fmem (d_mapped d)) 0) with (commands m 0). rewrite Ec, skip_rebase_info by done. cbn [fold_until]. unfold rebase_info at 1. fold m.
  replace ((lc_cmd m cmd =? LC_DYLD_INFO) || (lc_cmd m cmd =? LC_DYLD_INFO_ONLY)) with true by lia. destruct (Z.eqb_spec (di_rebase_size m cmd) 0); [done|].
  pose proof (mread_range m (cmd + 12) 4 (fmem_wf _)) as Hr. change (mread m (cmd + 12) 4) with (di_rebase_size m cmd) in Hr. change (256 ^ Z.of_nat 4) with (2 ^ 32) in Hr.
  rewrite (while_runs _ _ _ (rebase_rounds ops) _ (Some (rebase_all L d (rebase_pointers ops 0 0) s))).
  - rewrite <- (app_nil_r after). by rewrite skip_rebase_info.
  - apply rebase_steps; [exact Hat|lia].
  - pose proof (rebase_rounds_le m (di_rebase_off m cmd + di_rebase_size m cmd) ops (di_rebase_off m cmd) ltac:(lia) Hat). unfold rounds64. lia.
Qed.

(** C36. Rebasing a library of the cache. When the rebase information of its file encodes a
    program, [apply_rebases] runs it to its end: each pointer that the program denotes
    and that holds an address of the library then holds the cache address of the same
    byte, pointers to elsewhere and all other bytes of the buffer are unchanged, and
    the pointers in DATA that have moved are recorded in order. The pointers lie in
    segments of the library and do not overlap. *)
Theorem rebases_cached (ds : list DylibInfo) (d : DylibInfo) (cmd : Z) (ops : list rebase_op) (gBuf : mem) (locs : list Z) :
  let m := fmem (d_mapped d) in
  let pointers := rebase_pointers ops 0 0 in
  dylibs_fit ds -> d ∈ (assign_addresses ds).1 -> one_info m cmd -> di_rebase_size m cmd <> 0 -> rebase_at m (di_rebase_off m cmd) (di_rebase_off m cmd + di_rebase_size m cmd) ops ->
  Forall (in_segment d) pointers -> apart (map (place d) pointers) -> mem_wf gBuf -> Z.of_nat (length locs + length pointers) <= MAX_REBASE_LOCS ->
  exists gBuf', apply_rebases (assign_addresses ds).2 d (gBuf, locs) = Some (gBuf', locs ++ map (place d) (filter (fun x => is_recorded d gBuf x = true) pointers)) /\
    (forall x, x ∈ pointers -> mread gBuf' (place d x) 8 = moved d (mread gBuf (place d x) 8)) /\
    (forall a, ~ in_pointers (map (place d) pointers) a -> mget gBuf' a = mget gBuf a) /\ mem_wf gBuf'.
Proof.
  intros m pointers fit Hd Hinfo Hsz Hat Hin Ha Hw Hroom. destruct (rebase_all_ok ds d fit Hd pointers (gBuf, locs) Hin Ha Hw Hroom) as (R1 & R2 & R3 & R4).
  exists (rebase_all (layout_of ds) d pointers (gBuf, locs)).1. split; [|done]. change (assign_addresses ds).2 with (layout_of ds). rewrite (apply_rebases_ok _ _ cmd ops) by done.
  f_equal. fold pointers. cbn [fst snd] in R4. rewrite <- R4. apply surjective_pairing.
Qed.

(** ** A library with a rebased pointer

    TEXT is the load commands and the opcodes, and the first word of DATA points to its
    second word. *)
Definition rebased_file : list Z :=
  le_encode 4 MH_MAGIC_64 ++ le_encode 4 0x01000007 ++ le_encode 8 0 ++ le_encode 4 1 ++ le_encode 4 48 ++ le_encode 8 0 ++
  le_encode 4 LC_DYLD_INFO_ONLY ++ le_encode 4 48 ++ le_encode 4 80 ++ le_encode 4 4 ++ repeat 0 32 ++ [0x21; 0; 0x51; 0] ++ repeat 0 4 ++
  le_encode 8 0x2008 ++ le_encode 8 7.
Definition rebased_library : DylibInfo :=
  mkDylib (str "/r") rebased_file 0 0 [mkSeg (str "__TEXT") 0x1000 0x58 0 0x58 0 0 0 0; mkSeg (str "__DATA") 0x2000 0x10 0x58 0x10 1 0 0 0] 0 (-1) 1 0.
Definition rebased_ops : list rebase_op := [RSetSegment 1 0; RTimesImm 1; RDone].
Definition rebased_cached : DylibInfo := default rebased_library ((assign_addresses [rebased_library]).1 !! 0%nat).
Definition rebased_buf : mem := copy_segments (assign_addresses [rebased_library]).2 (assign_addresses [rebased_library]).1 ∅.

Lemma rebased_fit : dylibs_fit [rebased_library].
Proof.
  split.
  - assert (E : forallb seg_ok_b (all_segs [rebased_library]) = true) by (vm_compute; reflexivity). intros si Hs. rewrite forallb_forall in E. specialize (E si (proj1 (list_elem_of_In _ _) Hs)). unfold seg_ok_b, seg_ok in *. lia.
  - intros r Hr. assert (r = 0 \/ r = 1 \/ r = 2) as [->|[->| ->]] by lia; vm_compute; discriminate.
  - cbn. lia.
  - intros d Hd. apply list_elem_of_singleton in Hd as ->. split; [cbn; lia|]. split; repeat constructor; discriminate.
Qed.

Lemma rebased_program : rebase_at (fmem rebased_file) 80 84 rebased_ops.
Proof.
  split; [lia|]. split; [lia|]. split; [vm_compute; reflexivity|]. exists 82. split; [apply uleb_byte; [lia|vm_compute; reflexivity|lia|lia]|].
  split; [lia|]. split; [lia|]. split; [vm_compute; reflexivity|]. split; [lia|vm_compute; reflexivity].
Qed.

Lemma rebases_cached_witness : exists gBuf' locs', apply_rebases (assign_addresses [rebased_library]).2 rebased_cached (rebased_buf, []) = Some (gBuf', locs') /\ mread gBuf' 0x2000 8 = DATA_REGION_BASE + 8 /\ locs' = [0x2000].
Proof.
  pose proof (rebases_cached [rebased_library] rebased_cached 32 rebased_ops rebased_buf []) as Hr. cbv zeta in Hr. change (rebase_pointers rebased_ops 0 0) with [(1, 0)] in Hr.
  change (d_mapped rebased_cached) with rebased_file in Hr. replace (di_rebase_off (fmem rebased_file) 32) with 80 in Hr by (vm_compute; reflexivity). replace (di_rebase_size (fmem rebased_file) 32) with 4 in Hr by (vm_compute; reflexivity).
  assert (Ep : place rebased_cached (1, 0) = 0x2000) by (vm_compute; reflexivity). cbn [map] in Hr. rewrite Ep in Hr.
  destruct Hr as (gBuf' & E & H1 & _).
  - exact rebased_fit.
  - left.
  - exists [], []. split; [vm_compute; reflexivity|]. split; [right; vm_compute; reflexivity|constructor].
  - lia.
  - exact rebased_program.
  - constructor; [|constructor]. eexists. split; [vm_compute; reflexivity|]. cbn. lia.
  - intros [|i] [|j] a b Ha Hb Hij; try discriminate Ha; try discriminate Hb. done.
  - apply copy_segments_wf, mem_wf_empty.
  - vm_compute. discriminate.
  - eexists gBuf', _. split; [exact E|]. split; [|vm_compute; reflexivity]. rewrite <- Ep, (H1 (1, 0)) by left. vm_compute. reflexivity.
Defined.
