(* ===== verification/CacheBinds.v ===== *)
(** * The shared cache builder's symbols: tools/build_shared_cache_real.c

    Symbols are looked up in the files of the libraries, so that what a name resolves
    to does not depend on the cache buffer. [apply_binds] stores the addresses, and
    [adjust_symtab_values] gives the symbol tables in the cache their new values. *)

From Stdlib Require Import ZArith Lia Ascii String.
From stdpp Require Import base list gmap.
From S2P Require Import Prelude MachO Words Runs Leb128 DyldImage MachImage DyldKernel SlideInfo Linker Opcodes CacheBuild CacheFile CacheFixups.

Open Scope Z_scope.

Definition read_sleb128 (m : mem) (p : Z) : option (Z * Z) := sleb_do 10 m p 0 0.

(** ** Symbols of a library *)
Definition nl_strx (m : mem) (a : Z) : Z := mread m a 4.
Definition nl_type (m : mem) (a : Z) : Z := mget m (a + 4).
Definition nl_value (m : mem) (a : Z) : Z := mread m (a + 8) 8.

(** [symoff], [nsyms] and [stroff] of the last symbol table. *)
Definition symtab_of (m : mem) : Z * Z * Z :=
  fold_left (fun s cmd => if lc_cmd m cmd =? LC_SYMTAB then (sc_symoff m cmd, sc_nsyms m cmd, sc_stroff m cmd) else s) (commands m 0) (0, 0, 0).

(** An address of the library in the cache; addresses outside its segments move with
    TEXT. *)
Definition symbol_address (d : DylibInfo) (val : Z) : Z :=
  match owner d val with
  | Some t => val +64 s_slide t
  | None => match nth_seg d (d_textSegIdx d) with Some t => val +64 s_slide t | None => val end
  end.

(** Whether the symbol at [a] is an external definition of [name]. *)
Definition defines (m : mem) (stroff a : Z) (name : list Z) : bool :=
  negb (Z.land (nl_type m a) 0x0e =? 0) && negb (Z.land (nl_type m a) 0x01 =? 0) && bool_decide (cstr m (stroff + nl_strx m a) = name).

Definition symbol_entries (symoff nsyms : Z) : list Z := map (fun i => symoff + sizeof_nlist_64 * Z.of_nat i) (seq 0 (Z.to_nat nsyms)).

(** [strrchr(s, '/') ?: ""] *)
Fixpoint from_last_slash (s : list Z) : list Z :=
  match s with
  | [] => []
  | c :: s => match from_last_slash s with [] => if c =? ch "/" then c :: s else [] | r => r end
  end.

Definition same_library (installName depPath : list Z) : bool :=
  bool_decide (installName = depPath) || bool_decide (from_last_slash installName = from_last_slash depPath).

(** The libraries of the cache that a dylib command names, in order. *)
Definition named_by (ds : list DylibInfo) (m : mem) (cmd : Z) : list nat :=
  filter (fun j => same_library (default [] (d_installName <$> ds !! j)) (cstr m (cmd + dylib_name_offset m cmd)) = true) (seq 0 (length ds)).

Definition reexports (ds : list DylibInfo) (m : mem) : list nat :=
  concat (map (named_by ds m) (filter (fun cmd => lc_cmd m cmd = LC_REEXPORT_DYLIB) (commands m 0))).

(** The address of the library's first definition of a name. *)
Definition own_symbol (d : DylibInfo) (name : list Z) : option Z :=
  let m := fmem (d_mapped d) in
  let '(symoff, nsyms, stroff) := symtab_of m in
  (fun a => symbol_address d (nl_value m a)) <$> List.find (fun a => defines m stroff a name) (symbol_entries symoff nsyms).

(** The first result that is not 0. *)
Fixpoint first_address (f : nat -> option Z) (l : list nat) : option Z :=
  match l with
  | [] => Some 0
  | j :: l => match f j with None => None | Some a => if a =? 0 then first_address f l else Some a end
  end.

(** The address in the cache, 0 if there is none. The recursion follows re-exports; a
    library that re-exports itself makes it endless, which is the value [None]: with
    more rounds than libraries one of them is visited twice. *)
Fixpoint find_symbol (fuel : nat) (ds : list DylibInfo) (name : list Z) (dylibIdx : nat) : option Z :=
  match fuel, ds !! dylibIdx with
  | O, _ => None
  | _, None => Some 0
  | S fuel, Some d =>
      let m := fmem (d_mapped d) in
      if (symtab_of m).1.1 =? 0 then Some 0
      else
        match own_symbol d name with
        | Some a => Some a
        | None => first_address (find_symbol fuel ds name) (reexports ds m)
        end
  end.

Definition find_symbol_in_dylib (ds : list DylibInfo) (name : list Z) (dylibIdx : nat) : option Z := find_symbol (S (length ds)) ds name dylibIdx.

Definition find_dylib_index_by_install_name (ds : list DylibInfo) (installName : list Z) : option nat :=
  List.find (fun i => bool_decide (d_installName <$> ds !! i = Some installName)) (seq 0 (length ds)).

Definition malloc_symbols : list (list Z) := map str
  ["_malloc"; "_calloc"; "_free"; "_valloc"; "_aligned_alloc"; "_posix_memalign"; "_malloc_size"; "_malloc_good_size"; "_malloc_default_zone";
   "_malloc_make_nonpurgeable"; "_malloc_make_purgeable"]%string.
Definition exit_symbols : list (list Z) := map str ["___exit"; "__exit"]%string.
Definition bridge_symbols : list (list Z) := map str
  ["__dyld_for_each_objc_class"; "__dyld_for_each_objc_protocol"; "__dyld_for_objc_header_opt_ro"; "__dyld_for_objc_header_opt_rw"; "__dyld_get_dlopen_image_header";
   "__dyld_get_image_uuid"; "__dyld_get_objc_selector"; "__dyld_get_prog_image_header"; "__dyld_get_shared_cache_range"; "__dyld_is_memory_immutable";
   "__dyld_lookup_section_info"; "__dyld_objc_class_count"; "__dyld_objc_register_callbacks"]%string.

Definition preferred_provider_for_symbol (name : list Z) : option (list Z) :=
  if bool_decide (name ∈ malloc_symbols) || bool_decide (take 13 name = str "_malloc_zone_") then Some (str "/usr/lib/system/libsystem_malloc.dylib")
  else if bool_decide (name ∈ exit_symbols) then Some (str "/usr/lib/system/libsystem_kernel.dylib")
  else if bool_decide (name ∈ bridge_symbols) then Some (str "/usr/lib/system/libpanthera_extra.dylib")
  else None.

(** The preferred provider's address, 0 if there is none. *)
Definition resolve_preferred_symbol (ds : list DylibInfo) (name : list Z) : option Z :=
  match preferred_provider_for_symbol name with
  | None => Some 0
  | Some p => match find_dylib_index_by_install_name ds p with None => Some 0 | Some idx => find_symbol_in_dylib ds name idx end
  end.

(** The libraries that the [ordinal]-th dependency of a library names. *)
Definition dependency (ds : list DylibInfo) (d : DylibInfo) (ordinal : Z) : list nat :=
  let m := fmem (d_mapped d) in
  let deps := filter (fun cmd => lc_cmd m cmd = LC_LOAD_DYLIB \/ lc_cmd m cmd = LC_REEXPORT_DYLIB \/ lc_cmd m cmd = LC_LOAD_WEAK_DYLIB) (commands m 0) in
  match deps !! Z.to_nat (ordinal - 1) with Some cmd => named_by ds m cmd | None => [] end.

Definition or_else (r : option Z) (f : option Z) : option Z := match r with None => None | Some a => if a =? 0 then f else Some a end.

Definition resolve_symbol (ds : list DylibInfo) (name : list Z) (fromDylib : nat) (ordinal : Z) : option Z :=
  or_else (resolve_preferred_symbol ds name)
    (or_else (match ds !! fromDylib with
              | Some d => if 0 <? ordinal then first_address (find_symbol_in_dylib ds name) (dependency ds d ordinal) else Some 0
              | None => Some 0
              end)
       (first_address (find_symbol_in_dylib ds name) (seq 0 (length ds)))).

(** ** Binding

    The buffer, the recorded locations and [gUnresolved]. *)
Definition fixups : Type := buffer * Z.

(** [symName]; a negative address stands for the empty literal it starts with. *)
Definition symbol_name (m : mem) (b : bind_state) : list Z := if b_symbolName b <? 0 then [] else cstr m (b_symbolName b).

(** One round of the loop that stores [addr]. *)
Definition bind_pointer (L : cache_layout) (d : DylibInfo) (b : bind_state) (addr segOff : Z) (s : fixups) : fixups :=
  match cache_loc L d (b_segIndex b) segOff with
  | None => s
  | Some loc =>
      let '(gBuf, locs, unresolved) := s in
      if negb (addr =? 0) then (mwrite gBuf loc 8 (addr +64 b_addend b), record_location d (b_segIndex b) segOff locs, unresolved)
      else (mwrite gBuf loc 8 0, locs, if negb (Z.land (b_symbolFlags b) BIND_SYMBOL_FLAGS_WEAK_IMPORT =? 0) then unresolved else unresolved + 1)
  end.

Fixpoint bind_each (L : cache_layout) (d : DylibInfo) (b : bind_state) (addr step : Z) (n : nat) (segOff : Z) (s : fixups) : fixups * Z :=
  match n with
  | O => (s, segOff)
  | S n => bind_each L d b addr step n (segOff +64 step) (bind_pointer L d b addr segOff s)
  end.

(** The opcodes that bind [count] pointers. *)
Definition bind_count (L : cache_layout) (ds : list DylibInfo) (i : nat) (d : DylibInfo) (b : bind_state) (count step : Z) (s : fixups) : option (fixups * bind_state) :=
  match resolve_symbol ds (symbol_name (fmem (d_mapped d)) b) i (b_ordinal b) with
  | None => None
  | Some addr => let '(s, segOff) := bind_each L d b addr step (Z.to_nat count) (b_segOffset b) s in Some (s, with_offset b segOff)
  end.

Definition bind_code (L : cache_layout) (ds : list DylibInfo) (i : nat) (d : DylibInfo) (p e byte : Z) (b : bind_state) (s : fixups) : option (fixups * Z * bind_state) :=
  let m := fmem (d_mapped d) in
  let opcode := Z.land byte 0xF0 in
  let imm := Z.land byte 0x0F in
  let with_ordinal o := mkBind (b_segIndex b) (b_segOffset b) (b_symbolName b) (b_symbolFlags b) (b_addend b) o in
  if opcode =? 0x10 then Some (s, p, with_ordinal imm)
  else if opcode =? 0x20 then match read_uleb128 m p with None => None | Some (v, p) => Some (s, p, with_ordinal (signed 32 (wrap 32 v))) end
  else if opcode =? 0x30 then Some (s, p, with_ordinal (if imm =? 0 then 0 else signed 8 (Z.lor 0xF0 imm)))
  else if opcode =? 0x40 then Some (s, skip_name (Z.to_nat (e - p)) m p e, mkBind (b_segIndex b) (b_segOffset b) p imm (b_addend b) (b_ordinal b))
  else if opcode =? 0x60 then
    match read_sleb128 m p with None => None | Some (v, p) => Some (s, p, mkBind (b_segIndex b) (b_segOffset b) (b_symbolName b) (b_symbolFlags b) v (b_ordinal b)) end
  else if opcode =? 0x70 then
    match read_uleb128 m p with None => None | Some (v, p) => Some (s, p, mkBind imm v (b_symbolName b) (b_symbolFlags b) (b_addend b) (b_ordinal b)) end
  else if opcode =? 0x80 then match read_uleb128 m p with None => None | Some (v, p) => Some (s, p, with_offset b (b_segOffset b +64 v)) end
  else if opcode =? 0x90 then match bind_count L ds i d b 1 8 s with None => None | Some (s, b) => Some (s, p, b) end
  else if opcode =? 0xa0 then
    match read_uleb128 m p with
    | None => None
    | Some (skip, p) => match bind_count L ds i d b 1 (skip +64 8) s with None => None | Some (s, b) => Some (s, p, b) end
    end
  else if opcode =? 0xb0 then match bind_count L ds i d b 1 (imm * 8 + 8) s with None => None | Some (s, b) => Some (s, p, b) end
  else if opcode =? 0xc0 then
    match read_uleb128 m p with
    | None => None
    | Some (count, p) =>
        match read_uleb128 m p with
        | None => None
        | Some (skip, p) => match bind_count L ds i d b count (skip +64 8) s with None => None | Some (s, b) => Some (s, p, b) end
        end
    end
  else Some (s, p, b).

Definition bind_round (L : cache_layout) (ds : list DylibInfo) (i : nat) (d : DylibInfo) (pass e : Z) (x : fixups * Z * bind_state) : (fixups * Z * bind_state) + option fixups :=
  let '(s, p, b) := x in
  if p <? e then
    let byte := mget (fmem (d_mapped d)) p in
    if (Z.land byte 0xF0 =? 0) && (pass =? 0) && (e <=? p + 1) then inr (Some s)
    else match bind_code L ds i d (p + 1) e byte b s with None => inr None | Some x => inl x end
  else inr (Some s).

(** One of the two passes, over the binds and over the lazy binds. *)
Definition bind_program (L : cache_layout) (ds : list DylibInfo) (i : nat) (d : DylibInfo) (pass off sz : Z) (s : fixups) : option fixups :=
  if sz =? 0 then Some s else while rounds64 None (bind_round L ds i d pass (off + sz)) (s, off, mkBind 0 0 (-1) 0 0 0).

Definition bind_info (L : cache_layout) (ds : list DylibInfo) (i : nat) (d : DylibInfo) (cmd : Z) (s : fixups) : fixups + option fixups :=
  let m := fmem (d_mapped d) in
  if (lc_cmd m cmd =? LC_DYLD_INFO) || (lc_cmd m cmd =? LC_DYLD_INFO_ONLY) then
    match bind_program L ds i d 0 (di_bind_off m cmd) (di_bind_size m cmd) s with
    | None => inr None
    | Some s => match bind_program L ds i d 1 (di_lazy_bind_off m cmd) (di_lazy_bind_size m cmd) s with None => inr None | Some s => inl s end
    end
  else inl s.

Definition apply_binds (L : cache_layout) (ds : list DylibInfo) (i : nat) (d : DylibInfo) (s : fixups) : option fixups :=
  fold_until (bind_info L ds i d) Some (commands (fmem (d_mapped d)) 0) s.

(** ** Symbol tables in the cache *)
Definition adjust_symbol (d : DylibInfo) (gBuf : mem) (a : Z) : mem :=
  if Z.land (nl_type gBuf a) 0x0e =? 0 then gBuf
  else
    let val := nl_value gBuf a in
    if val =? 0 then gBuf else match owner d val with Some t => mwrite gBuf (a + 8) 8 (val +64 s_slide t) | None => gBuf end.

Definition adjust_symtab (L : cache_layout) (gBuf : mem) (d : DylibInfo) : mem :=
  match nth_seg d (d_linkSegIdx d) with
  | None => gBuf
  | Some link =>
      let '(origSymoff, nsyms, _) := symtab_of (fmem (d_mapped d)) in
      if (origSymoff =? 0) || (nsyms =? 0) then gBuf
      else
        let symCacheOff := s_cacheFileOff link +64 (origSymoff -64 d_origLinkFileoff d) in
        if gBufSize L <? symCacheOff +64 nsyms * sizeof_nlist_64 then gBuf
        else fold_left (adjust_symbol d) (symbol_entries symCacheOff nsyms) gBuf
  end.

Definition adjust_symtab_values (L : cache_layout) (ds : list DylibInfo) (gBuf : mem) : mem := fold_left (adjust_symtab L) ds gBuf.

(** ** Running bind programs *)
Lemma read_sleb128_ok m p e v q : sleb_at m p e v q -> read_sleb128 m p = Some (v, q).
Proof. apply readSLEB128_ok. Qed.

Section Run.
Variables (L : cache_layout) (ds : list DylibInfo) (i : nat) (d : DylibInfo).
Notation m := (fmem (d_mapped d)).

(** What the symbol of [b] resolves to. *)
Definition symbol_of (b : bind_state) : option Z := resolve_symbol ds (symbol_name m b) i (b_ordinal b).
Definition addr_of (b : bind_state) : Z := default 0 (symbol_of b).

(** The pointers that a list of requests binds, with the registers of each. *)
Definition bind_targets (l : list (bind_state * list Z)) : list (bind_state * Z) := concat (map (fun x => map (pair x.1) x.2) l).

Definition bind_list (l : list (bind_state * Z)) (s : fixups) : fixups := fold_left (fun s t => bind_pointer L d t.1 (addr_of t.1) t.2 s) l s.

Lemma bind_list_app l1 l2 s : bind_list (l1 ++ l2) s = bind_list l2 (bind_list l1 s).
Proof. apply fold_left_app. Qed.

Lemma bind_each_ok b addr step n : forall off s, 0 <= off < 2 ^ 64 -> addr = addr_of b ->
  bind_each L d b addr step n off s = (bind_list (map (pair b) (offsets n off step)) s, offset_after n off step).
Proof.
  induction n as [|n IH]; intros off s Ho ->; cbn [bind_each offsets map].
  - unfold offset_after. rewrite Z.add_0_r, wrap_small by done. done.
  - rewrite IH by (done || apply wrap_64_range). by rewrite offset_after_S.
Qed.

Lemma bind_count_ok b count step s : is_Some (symbol_of b) -> 0 <= b_segOffset b < 2 ^ 64 ->
  bind_count L ds i d b count step s = Some (bind_list (map (pair b) (offsets (Z.to_nat count) (b_segOffset b) step)) s, with_offset b (offset_after (Z.to_nat count) (b_segOffset b) step)).
Proof.
  intros [a Ea] Ho. unfold bind_count. change (resolve_symbol ds (symbol_name m b) i (b_ordinal b)) with (symbol_of b). rewrite Ea. rewrite bind_each_ok; [done|done|]. unfold addr_of. by rewrite Ea.
Qed.

Lemma bind_one_count b step s : is_Some (symbol_of b) -> 0 <= b_segOffset b < 2 ^ 64 -> bind_count L ds i d b 1 step s = Some (bind_list [(b, b_segOffset b)] s, with_offset b (b_segOffset b +64 step)).
Proof. intros Hs Ho. rewrite bind_count_ok by done. change (Z.to_nat 1) with 1%nat. unfold offset_after. by rewrite Z.mul_1_l. Qed.

(** What one opcode has to do. *)
Definition code_run (op : bind_op) (b : bind_state) (q : Z) (s : fixups) : option (fixups * Z * bind_state) :=
  Some (match op_binds op b with None => s | Some offs => bind_list (map (pair b) offs) s end, q, after_op op b).

Ltac code k lo :=
  unfold bind_code;
  match goal with
  | Hlt : ?p < ?e |- _ =>
      destruct (opcode_at d p k lo ltac:(lia) ltac:(lia) ltac:(lia)) as [-> ->];
      let v := eval vm_compute in (16 * k) in change (16 * k) with v; cbn [Z.eqb Pos.eqb]
  end.

Ltac read_number := erewrite read_uleb128_ok by eassumption.
Ltac code_done Hoff' := split_and!; try done; try lia; by apply Hoff'.

Lemma bind_code_ok e op ops p b s : bind_at m p e (op :: ops) -> 0 <= b_segOffset b < 2 ^ 64 -> (is_Some (op_binds op b) -> is_Some (symbol_of b)) ->
  exists q, bind_code L ds i d (p + 1) e (mget m p) b s = code_run op b q s /\ bind_at m q e ops /\ p < q <= e /\ 0 <= b_segOffset (after_op op b) < 2 ^ 64.
Proof.
  intros [Hlt Hop] Hb Hs.
  assert (Hoff : (forall seg off, op = BSegment seg off -> 0 <= off < 2 ^ 64) -> 0 <= b_segOffset (after_op op b) < 2 ^ 64) by apply after_op_offset, Hb.
  assert (Hoff' : (forall seg off, op <> BSegment seg off) -> 0 <= b_segOffset (after_op op b) < 2 ^ 64) by (intros Hn; apply Hoff; intros seg off E; by destruct (Hn seg off)).
  destruct op; cbn [op_binds] in Hs; decompose [and ex] Hop; uleb_facts.
  - exists (p + 1). code 0 0. code_done Hoff'.
  - exists (p + 1). code 1 i0. code_done Hoff'.
  - exists x. code 2 0. read_number. code_done Hoff'.
  - exists (p + 1). code 3 i0. rewrite special_ordinal by lia. code_done Hoff'.
  - exists (p + 1 + Z.of_nat (length x) + 1). code 4 flags. rewrite (skip_name_ok _ e x) by (done || lia). subst name. code_done Hoff'.
  - exists (p + 1). code 5 ty. code_done Hoff'.
  - exists x. match goal with Hs : sleb_at _ _ _ _ _ |- _ => pose proof (sleb_at_range _ _ _ _ _ Hs) end. code 6 0. erewrite read_sleb128_ok by eassumption. code_done Hoff'.
  - exists x. code 7 seg. read_number. split_and!; try done; try lia; apply Hoff; intros s' o [= <- <-]; lia.
  - exists x. code 8 0. read_number. code_done Hoff'.
  - exists (p + 1). code 9 0. rewrite bind_one_count by (done || apply Hs; by eexists). code_done Hoff'.
  - exists x. code 10 0. read_number. rewrite bind_one_count by (done || apply Hs; by eexists). code_done Hoff'.
  - exists (p + 1). code 11 k. rewrite bind_one_count by (done || apply Hs; by eexists). replace (k * 8 + 8) with ((k + 1) * 8) by lia. code_done Hoff'.
  - exists x0. code 12 0. read_number. read_number. rewrite bind_count_ok by (done || apply Hs; by eexists). code_done Hoff'.
Qed.

Lemma bind_rounds pass e ops : forall s p b, bind_at m p e ops -> 0 <= b_segOffset b < 2 ^ 64 -> Forall (fun x => is_Some (symbol_of x.1)) (bind_requests ops b) ->
  runs (bind_round L ds i d pass e) (S (length ops)) (s, p, b) = inr (Some (bind_list (bind_targets (bind_requests ops b)) s)) /\ (p <= e -> Z.of_nat (length ops) <= e - p).
Proof.
  induction ops as [|op ops IH]; intros s p b Hat Hb Hr.
  { cbn [runs bind_round length]. cbn [bind_at] in Hat. split; [by destruct (Z.ltb_spec p e); [lia|]|lia]. }
  pose proof Hat as [Hlt _]. cbn [bind_requests] in Hr. assert (Hs : is_Some (op_binds op b) -> is_Some (symbol_of b)) by (intros [offs E]; rewrite E in Hr; by apply Forall_cons in Hr as [Hr _]).
  destruct (bind_code_ok e op ops p b s Hat Hb Hs) as (q & E & Hat' & Hq & Hb'). cbn [length]. remember (S (length ops)) as k. cbn [runs]. subst k. unfold bind_round at 1. destruct (Z.ltb_spec p e); [|lia].
  set (s1 := match op_binds op b with None => s | Some offs => bind_list (map (pair b) offs) s end) in *. assert (Hr' : Forall (fun x => is_Some (symbol_of x.1)) (bind_requests ops (after_op op b))) by (destruct (op_binds op b); [by apply Forall_cons in Hr as [_ Hr]|done]).
  assert (Et : forall s0, bind_list (bind_targets (bind_requests (op :: ops) b)) s0 = bind_list (bind_targets (bind_requests ops (after_op op b))) (match op_binds op b with None => s0 | Some offs => bind_list (map (pair b) offs) s0 end)).
  { intros s0. cbn [bind_requests]. destruct (op_binds op b); [|done]. unfold bind_targets. cbn [map concat]. apply bind_list_app. }
  rewrite Et. fold s1. destruct (IH s1 q (after_op op b) Hat' Hb' Hr') as [IH1 IH2]. split; [|lia]. destruct ((Z.land (mget m p) 0xF0 =? 0) && (pass =? 0) && (e <=? p + 1)) eqn:Ec.
  - apply andb_true_iff in Ec as [[Ec _]%andb_true_iff Ee]. assert (q = e) as -> by lia. destruct ops as [|op2 ops]; [|destruct Hat' as [? _]; lia]. unfold bind_code in E. cbv zeta in E. apply Z.eqb_eq in Ec. rewrite Ec in E. cbn [Z.eqb Pos.eqb] in E.
    unfold code_run in E. fold s1 in E. injection E as E _ _. by rewrite <- E.
  - rewrite E. exact IH1.
Qed.

Lemma bind_program_ok pass off sz ops s : 0 <= sz < 2 ^ 32 -> bind_at m off (off + sz) ops -> let reqs := bind_requests ops (mkBind 0 0 (-1) 0 0 0) in
  Forall (fun x => is_Some (symbol_of x.1)) reqs -> bind_program L ds i d pass off sz s = Some (bind_list (bind_targets reqs) s).
Proof.
  intros Hsz Hat reqs Hr. unfold bind_program. destruct (Z.eqb_spec sz 0) as [->|]; [destruct ops as [|op ops]; [done|]; destruct Hat; lia|].
  destruct (bind_rounds pass (off + sz) ops s off (mkBind 0 0 (-1) 0 0 0) Hat ltac:(cbn; lia) Hr) as [H1 H2]. apply (while_runs _ _ _ (S (length ops))); [exact H1|unfold rounds64; lia].
Qed.
End Run.

(** ** What the pointers become *)
Section Effect.
Variables (ds : list DylibInfo) (i : nat) (d : DylibInfo).
Hypothesis fit : dylibs_fit ds.
Notation L := (layout_of ds).
Notation cached := (assigned ds).
Hypothesis Hi : cached !! i = Some d.

Definition target_place (t : bind_state * Z) : Z := place d (b_segIndex t.1, t.2).
Definition target_value (t : bind_state * Z) : Z := let a := addr_of cached i d t.1 in if a =? 0 then 0 else a +64 b_addend t.1.

(** The pointers in DATA that are bound, and those whose symbol is missing. *)
Definition target_recorded (t : bind_state * Z) : bool :=
  match nth_seg d (b_segIndex t.1) with Some si => (s_region si =? 1) && negb (addr_of cached i d t.1 =? 0) | None => false end.
Definition target_missing (t : bind_state * Z) : bool := (addr_of cached i d t.1 =? 0) && (Z.land (b_symbolFlags t.1) BIND_SYMBOL_FLAGS_WEAK_IMPORT =? 0).

Lemma bind_pointer_ok t gBuf locs un : in_segment d (b_segIndex t.1, t.2) -> Z.of_nat (length locs) < MAX_REBASE_LOCS ->
  exists gBuf', bind_pointer L d t.1 (addr_of cached i d t.1) t.2 (gBuf, locs, un) =
    (gBuf', locs ++ (if target_recorded t then [target_place t] else []), un + (if target_missing t then 1 else 0)) /\
    (mem_wf gBuf -> mem_wf gBuf') /\ mread gBuf' (target_place t) 8 = target_value t /\ only_in (target_place t) 8 gBuf gBuf'.
Proof using fit Hi.
  intros Hx Hroom. assert (Hd : d ∈ cached) by (by eapply list_elem_of_lookup_2). destruct (place_range ds d fit Hd _ Hx) as (si & Hs & _ & E & _ & _ & R1 & R2). cbn [fst snd] in *.
  unfold bind_pointer, target_value, target_recorded, target_missing, target_place in *. pose proof (cache_loc_ok ds d fit Hd _ Hx) as Ec. cbn [fst snd] in Ec. rewrite Ec, Hs. destruct (Z.eqb_spec (addr_of cached i d t.1) 0) as [E0|E0]; cbn [negb andb].
  - rewrite andb_false_r, app_nil_r. exists (mwrite gBuf (place d (b_segIndex t.1, t.2)) 8 0). split; [destruct (_ =? 0); cbn [negb]; by rewrite ?Z.add_0_r|]. split; [apply mem_wf_mwrite|]. split; [by rewrite mread_mwrite|apply (only_in_mwrite gBuf _ 8)].
  - rewrite Z.add_0_r, andb_true_r. eexists. split; [unfold record_location, find_seg_by_origidx; rewrite Hs; destruct (s_region si =? 1); [|by rewrite app_nil_r]|].
    + unfold record_rebase. destruct (Z.ltb_spec (Z.of_nat (length locs)) MAX_REBASE_LOCS); [|lia]. rewrite E in *. by rewrite (wrap_small 64 (s_cacheFileOff si + t.2)) by lia.
    + split; [apply mem_wf_mwrite|]. split; [|apply (only_in_mwrite gBuf _ 8)]. rewrite mread_mwrite. apply Z.mod_small, wrap_64_range.
Qed.

Lemma bind_list_ok l : forall gBuf locs un, Forall (fun t => in_segment d (b_segIndex t.1, t.2)) l -> apart (map target_place l) -> Z.of_nat (length locs + length l) <= MAX_REBASE_LOCS ->
  exists gBuf', bind_list L cached i d l (gBuf, locs, un) =
    (gBuf', locs ++ map target_place (filter (fun t => target_recorded t = true) l), un + Z.of_nat (length (filter (fun t => target_missing t = true) l))) /\
    (mem_wf gBuf -> mem_wf gBuf') /\ (forall t, t ∈ l -> mread gBuf' (target_place t) 8 = target_value t) /\
    (forall a, ~ in_pointers (map target_place l) a -> mget gBuf' a = mget gBuf a).
Proof using fit Hi.
  induction l as [|t l IH]; intros gBuf locs un Hl Ha Hroom.
  { exists gBuf. cbn. rewrite app_nil_r, Z.add_0_r. split_and!; try done. intros t Ht. by apply elem_of_nil in Ht. }
  apply Forall_cons in Hl as [Hx Hl]. cbn [map length] in *. apply apart_cons in Ha as [Ha Hax]. destruct (bind_pointer_ok t gBuf locs un Hx ltac:(lia)) as (b1 & E1 & W1 & V1 & O1).
  set (locs1 := locs ++ _) in E1. set (un1 := un + _) in E1. assert (Hlen : Z.of_nat (length locs1 + length l) <= MAX_REBASE_LOCS) by (unfold locs1; rewrite length_app; destruct (target_recorded t); cbn; lia).
  destruct (IH b1 locs1 un1 Hl Ha Hlen) as (b2 & E2 & W2 & V2 & O2). exists b2. unfold bind_list in *. cbn [fold_left]. rewrite E1, E2. split; [|split; [tauto|split]].
  - unfold locs1, un1. rewrite !filter_cons, <- app_assoc. f_equal; [f_equal; f_equal; by destruct (target_recorded t); case_decide|].
    destruct (target_missing t); case_decide; try done; cbn [length]; lia.
  - intros u [->|Hu]%elem_of_cons; [|by apply V2]. rewrite <- V1. apply mread_ext. intros a Hr. apply O2. intros (z & Hz & Hza). specialize (Hax z Hz). lia.
  - intros a Hn. rewrite O2 by (intros (z & Hz & Hza); apply Hn; exists z; split; [by right|done]). apply O1.
    assert (~ target_place t <= a < target_place t + 8) by (intros Hr; apply Hn; exists (target_place t); split; [by left|done]). lia.
Qed.
End Effect.

Lemma skip_bind_info L ds i d l s : Forall (fun c => lc_cmd (fmem (d_mapped d)) c <> LC_DYLD_INFO /\ lc_cmd (fmem (d_mapped d)) c <> LC_DYLD_INFO_ONLY) l ->
  forall rest, fold_until (bind_info L ds i d) Some (l ++ rest) s = fold_until (bind_info L ds i d) Some rest s.
Proof.
  induction l as [|c l IH]; intros Hl rest; [done|]. apply Forall_cons in Hl as [[H1 H2] Hl]. cbn [app fold_until]. unfold bind_info at 1.
  destruct (Z.eqb_spec (lc_cmd (fmem (d_mapped d)) c) LC_DYLD_INFO); [done|]. destruct (Z.eqb_spec (lc_cmd (fmem (d_mapped d)) c) LC_DYLD_INFO_ONLY); [done|]. by apply IH.
Qed.

Definition bind_start : bind_state := mkBind 0 0 (-1) 0 0 0.

Lemma apply_binds_ok L ds i d cmd ops0 ops1 s : let m := fmem (d_mapped d) in one_info m cmd ->
  bind_at m (di_bind_off m cmd) (di_bind_off m cmd + di_bind_size m cmd) ops0 -> bind_at m (di_lazy_bind_off m cmd) (di_lazy_bind_off m cmd + di_lazy_bind_size m cmd) ops1 ->
  let reqs := bind_requests ops0 bind_start ++ bind_requests ops1 bind_start in Forall (fun x => is_Some (symbol_of ds i d x.1)) reqs ->
  apply_binds L ds i d s = Some (bind_list L ds i d (bind_targets reqs) s).
Proof.
  intros m (before & after & Ec & Hinfo & Hother) Hat0 Hat1 reqs Hr. apply Forall_app in Hother as [Hb Ha]. apply Forall_app in Hr as [Hr0 Hr1]. unfold apply_binds. change (commands (fmem (d_mapped d)) 0) with (commands m 0).
  rewrite Ec, skip_bind_info by done. cbn [fold_until]. unfold bind_info at 1. fold m. replace ((lc_cmd m cmd =? LC_DYLD_INFO) || (lc_cmd m cmd =? LC_DYLD_INFO_ONLY)) with true by lia.
  assert (Hsz : forall a, 0 <= mread m a 4 < 2 ^ 32) by (intros a; apply (mread_range m a 4 (fmem_wf _))).
  rewrite (bind_program_ok L ds i d 0 (di_bind_off m cmd) (di_bind_size m cmd) ops0 s (Hsz _) Hat0 Hr0), (bind_program_ok L ds i d 1 (di_lazy_bind_off m cmd) (di_lazy_bind_size m cmd) ops1 _ (Hsz _) Hat1 Hr1).
  rewrite <- (app_nil_r after). rewrite skip_bind_info by done. cbn [fold_until]. f_equal. unfold reqs, bind_targets. by rewrite map_app, concat_app, bind_list_app.
Qed.

(** ** What a symbol resolves to *)
Section Resolve.
Variable ds : list DylibInfo.
Variable name : list Z.

(** Re-exports go down in level, so that no library re-exports itself. *)
Definition leveled : Prop := exists level : nat -> nat, (forall j, (level j <= length ds)%nat) /\
  forall j d k, ds !! j = Some d -> k ∈ reexports ds (fmem (d_mapped d)) -> (level k < level j)%nat.

(** A library of the cache has [a] as the address of its definition. *)
Definition defined_at (a : Z) : Prop := exists k d, ds !! k = Some d /\ (symtab_of (fmem (d_mapped d))).1.1 <> 0 /\ own_symbol d name = Some a.

Lemma first_address_total f l : Forall (fun j => is_Some (f j)) l -> is_Some (first_address f l).
Proof. induction 1 as [|j l [a Ea] _ IH]; cbn; [by eexists|]. rewrite Ea. by destruct (a =? 0); [|eexists]. Qed.

Lemma first_address_found f l a : first_address f l = Some a -> a = 0 \/ exists j, j ∈ l /\ f j = Some a.
Proof.
  induction l as [|j l IH]; cbn; [intros [= <-]; by left|]. destruct (f j) as [b|] eqn:E; [|done]. destruct (Z.eqb_spec b 0); intros H.
  - destruct (IH H) as [?|(k & Hk & Ek)]; [by left|right]. exists k. split; [by right|done].
  - injection H as <-. right. exists j. split; [by left|done].
Qed.

Lemma first_address_zero f l : first_address f l = Some 0 -> forall j, j ∈ l -> f j = Some 0.
Proof.
  induction l as [|j l IH]; cbn; intros H k Hk; [by apply elem_of_nil in Hk|]. destruct (f j) as [b|] eqn:E; [|done]. destruct (Z.eqb_spec b 0) as [->|]; [|congruence].
  apply elem_of_cons in Hk as [->|Hk]; [done|by apply IH].
Qed.

Lemma find_symbol_total : leveled -> forall j, is_Some (find_symbol_in_dylib ds name j).
Proof.
  intros (level & Hb & Hl). assert (G : forall fuel j, (level j < fuel)%nat -> is_Some (find_symbol fuel ds name j)); [|intros j; apply G; specialize (Hb j); lia].
  induction fuel as [|fuel IH]; intros j Hj; [lia|]. cbn [find_symbol]. destruct (ds !! j) as [d|] eqn:Ed; [|by eexists]. destruct (_ =? 0); [by eexists|]. destruct (own_symbol d name); [by eexists|].
  apply first_address_total, Forall_forall. intros k Hk. apply IH. specialize (Hl j d k Ed Hk). lia.
Qed.

Lemma find_symbol_sound fuel : forall j a, find_symbol fuel ds name j = Some a -> a = 0 \/ defined_at a.
Proof.
  induction fuel as [|fuel IH]; intros j a; [done|]. cbn [find_symbol]. destruct (ds !! j) as [d|] eqn:Ed; [|intros [= <-]; by left]. destruct (Z.eqb_spec (symtab_of (fmem (d_mapped d))).1.1 0); [intros [= <-]; by left|].
  destruct (own_symbol d name) as [b|] eqn:Eb; [intros [= <-]; right; by exists j, d|]. intros [?|(k & _ & Hk)]%first_address_found; [by left|by eapply IH].
Qed.

Lemma find_symbol_own fuel j d a : ds !! j = Some d -> (symtab_of (fmem (d_mapped d))).1.1 <> 0 -> own_symbol d name = Some a -> find_symbol (S fuel) ds name j = Some a.
Proof. intros Ed Hs Ea. cbn [find_symbol]. rewrite Ed, Ea. by destruct (Z.eqb_spec (symtab_of (fmem (d_mapped d))).1.1 0). Qed.

Lemma or_else_total r f : is_Some r -> is_Some f -> is_Some (or_else r f).
Proof. intros [a ->] Hf. cbn. by destruct (a =? 0); [|eexists]. Qed.

Lemma or_else_sound (P : Z -> Prop) r f a : (forall b, r = Some b -> b = 0 \/ P b) -> (forall b, f = Some b -> b = 0 \/ P b) -> or_else r f = Some a -> a = 0 \/ P a.
Proof. intros Hr Hf. destruct r as [b|]; [|done]. cbn. destruct (b =? 0); [apply Hf|]. intros [= <-]. by apply Hr. Qed.

Lemma or_else_zero r f : or_else r f = Some 0 -> f = Some 0.
Proof. destruct r as [b|]; [|done]. cbn. destruct (Z.eqb_spec b 0); [done|congruence]. Qed.

(** A symbol resolves to a definition in the cache, or to 0 when no library has one. *)
Lemma resolve_symbol_ok i ordinal : leveled -> exists a, resolve_symbol ds name i ordinal = Some a /\ (a = 0 -> forall b, defined_at b -> b = 0) /\ (a <> 0 -> defined_at a).
Proof.
  intros Hl. assert (Hfirst : forall l, is_Some (first_address (find_symbol_in_dylib ds name) l)) by (intros l; apply first_address_total, Forall_forall; intros j _; by apply find_symbol_total).
  assert (Hsound : forall l b, first_address (find_symbol_in_dylib ds name) l = Some b -> b = 0 \/ defined_at b) by (intros l b [?|(k & _ & Hk)]%first_address_found; [by left|by eapply find_symbol_sound]).
  assert (Ht : is_Some (resolve_symbol ds name i ordinal)).
  { unfold resolve_symbol. apply or_else_total; [|apply or_else_total; [|done]].
    - unfold resolve_preferred_symbol. repeat case_match; (by eexists) || by apply find_symbol_total.
    - repeat case_match; (by eexists) || done. }
  destruct Ht as [a Ea]. exists a. split; [done|]. split.
  - intros -> b (k & d & Ed & Hs & Hb). unfold resolve_symbol in Ea. apply or_else_zero, or_else_zero in Ea. assert (Hk : k ∈ seq 0 (length ds)) by (apply elem_of_seq; apply lookup_lt_Some in Ed; lia).
    pose proof (first_address_zero _ _ Ea k Hk) as E0. unfold find_symbol_in_dylib in E0. rewrite (find_symbol_own _ k d b Ed Hs Hb) in E0. congruence.
  - intros Hne. assert (a = 0 \/ defined_at a) as [?|?]; [|done|done]. unfold resolve_symbol in Ea. revert Ea. apply or_else_sound; [|intros b; apply or_else_sound; [|apply Hsound]].
    + intros b. unfold resolve_preferred_symbol. repeat case_match; try (intros [= <-]; by left). apply find_symbol_sound.
    + intros b'. repeat case_match; try (intros [= <-]; by left). apply Hsound.
Qed.
End Resolve.

(** C37. Binding a library of the cache. When the bind and lazy bind information of its file
    encode programs, [apply_binds] runs both to their ends: each pointer that they
    denote holds the cache address of an external definition of its symbol in one of
    the libraries, plus the addend, or 0 if no library defines it. Nothing else in the
    buffer changes, the bound pointers in DATA are recorded, and the pointers whose
    symbol is missing and not weak are counted. *)
Theorem binds_cached (ds : list DylibInfo) (i : nat) (d : DylibInfo) (cmd : Z) (ops0 ops1 : list bind_op) (gBuf : mem) (locs : list Z) (unresolved : Z) :
  let cached := (assign_addresses ds).1 in
  let L := (assign_addresses ds).2 in
  let m := fmem (d_mapped d) in
  let targets := bind_targets (bind_requests ops0 bind_start ++ bind_requests ops1 bind_start) in
  dylibs_fit ds -> leveled cached -> cached !! i = Some d -> one_info m cmd ->
  bind_at m (di_bind_off m cmd) (di_bind_off m cmd + di_bind_size m cmd) ops0 -> bind_at m (di_lazy_bind_off m cmd) (di_lazy_bind_off m cmd + di_lazy_bind_size m cmd) ops1 ->
  Forall (fun t => in_segment d (b_segIndex t.1, t.2)) targets -> apart (map (target_place d) targets) -> mem_wf gBuf -> Z.of_nat (length locs + length targets) <= MAX_REBASE_LOCS ->
  exists gBuf', apply_binds L cached i d (gBuf, locs, unresolved) =
    Some (gBuf', locs ++ map (target_place d) (filter (fun t => target_recorded ds i d t = true) targets), unresolved + Z.of_nat (length (filter (fun t => target_missing ds i d t = true) targets))) /\
    (forall t, t ∈ targets -> mread gBuf' (target_place d t) 8 = target_value ds i d t /\
      let a := addr_of cached i d t.1 in let name := symbol_name m t.1 in (a <> 0 -> defined_at cached name a) /\ (a = 0 -> forall b, defined_at cached name b -> b = 0)) /\
    (forall a, ~ in_pointers (map (target_place d) targets) a -> mget gBuf' a = mget gBuf a) /\ mem_wf gBuf'.
Proof.
  intros cached L m targets fit Hlev Hi Hinfo Hat0 Hat1 Hin Ha Hw Hroom.
  assert (Hres : forall b, exists a, symbol_of cached i d b = Some a /\ (a = 0 -> forall b', defined_at cached (symbol_name m b) b' -> b' = 0) /\ (a <> 0 -> defined_at cached (symbol_name m b) a)).
  { intros b. destruct (resolve_symbol_ok cached (symbol_name m b) i (b_ordinal b) Hlev) as (a & Ea & H0 & H1). exists a. by split. }
  destruct (bind_list_ok ds i d fit Hi targets gBuf locs unresolved Hin Ha Hroom) as (gBuf' & E & W & V & O). exists gBuf'. split; [|split; [|split; [exact O|tauto]]].
  - rewrite <- E. apply apply_binds_ok with cmd; try done. apply Forall_forall. intros x _. destruct (Hres x.1) as (a & Ea & _). by exists a.
  - intros t Ht. split; [by apply V|]. destruct (Hres t.1) as (a & Ea & H0 & H1). unfold addr_of. rewrite Ea. cbn. by split.
Qed.

(** ** Symbol tables in the cache *)
Section Adjust.
Variables (ds : list DylibInfo) (d : DylibInfo).
Hypothesis fit : dylibs_fit ds.
Notation L := (layout_of ds).
Hypothesis Hd : d ∈ assigned ds.

(** The value that a symbol gets. *)
Definition adjusted (m : mem) (a : Z) : Z := if Z.land (nl_type m a) 0x0e =? 0 then nl_value m a else moved d (nl_value m a).

Lemma adjust_symbol_ok gBuf a : mem_wf gBuf -> mem_wf (adjust_symbol d gBuf a) /\ nl_value (adjust_symbol d gBuf a) a = adjusted gBuf a /\ only_in (a + 8) 8 gBuf (adjust_symbol d gBuf a).
Proof using fit Hd.
  intros Hw. unfold adjust_symbol, adjusted, moved. destruct (_ =? 0); [by split_and!|]. destruct (Z.eqb_spec (nl_value gBuf a) 0) as [E|]; [by split_and!|]. destruct (owner d (nl_value gBuf a)) as [t|] eqn:Et; [|by split_and!].
  split; [by apply mem_wf_mwrite|]. split; [|apply (only_in_mwrite gBuf (a + 8) 8)]. unfold nl_value at 1. rewrite mread_mwrite. pose proof (mread_range gBuf (a + 8) 8 Hw) as Hv. destruct (moved_ok ds d fit Hd _ t Et Hv) as [-> Hm]. apply Z.mod_small. unfold SHARED_REGION_BASE in Hm. change (256 ^ Z.of_nat 8) with (2 ^ 64). lia.
Qed.

Lemma adjust_symbols_ok base n : forall k gBuf, mem_wf gBuf -> let gBuf' := fold_left (adjust_symbol d) (map (fun i => base + sizeof_nlist_64 * Z.of_nat i) (seq k n)) gBuf in
  mem_wf gBuf' /\ (forall i, (k <= i < k + n)%nat -> nl_value gBuf' (base + 16 * Z.of_nat i) = adjusted gBuf (base + 16 * Z.of_nat i)) /\
  (forall a, (forall i, (k <= i < k + n)%nat -> ~ base + 16 * Z.of_nat i + 8 <= a < base + 16 * Z.of_nat i + 16) -> mget gBuf' a = mget gBuf a).
Proof using fit Hd.
  unfold sizeof_nlist_64. induction n as [|n IH]; intros k gBuf Hw; cbn [seq map fold_left]; [split; [done|]; split; [intros; lia|done]|].
  destruct (adjust_symbol_ok gBuf (base + 16 * Z.of_nat k) Hw) as (A1 & A2 & A3). set (b1 := adjust_symbol d gBuf _) in *. destruct (IH (S k) b1 A1) as (I1 & I2 & I3). set (b2 := fold_left _ _ _) in *. split; [done|]. split.
  - intros i Hi. destruct (decide (i = k)) as [->|Hne]; [rewrite <- A2; apply mread_ext; intros a Ha; apply I3; intros j Hj; lia|]. rewrite I2 by lia. unfold adjusted, nl_value, nl_type.
    rewrite (mread_only_in _ _ _ _ _ _ A3) by lia. by rewrite A3 by lia.
  - intros a Ha. rewrite I3 by (intros i Hi; apply Ha; lia). apply A3. specialize (Ha k ltac:(lia)). lia.
Qed.

(** The symbols of a library whose table is inside its LINKEDIT get the cache addresses
    of what they name; undefined symbols keep their values. *)
Lemma adjust_symtab_ok gBuf link symoff nsyms stroff : mem_wf gBuf -> nth_seg d (d_linkSegIdx d) = Some link -> symtab_of (fmem (d_mapped d)) = (symoff, nsyms, stroff) -> symoff <> 0 -> 0 < nsyms ->
  0 <= d_origLinkFileoff d <= symoff -> symoff - d_origLinkFileoff d + 16 * nsyms <= s_vmsize link -> let base := s_cacheFileOff link + (symoff - d_origLinkFileoff d) in let gBuf' := adjust_symtab L gBuf d in
  mem_wf gBuf' /\ (forall i, 0 <= i < nsyms -> nl_value gBuf' (base + 16 * i) = adjusted gBuf (base + 16 * i)) /\
  (forall a, (forall i, 0 <= i < nsyms -> ~ base + 16 * i + 8 <= a < base + 16 * i + 16) -> mget gBuf' a = mget gBuf a).
Proof using fit Hd.
  intros Hw Hl Hs Hne Hn Ho Hfit base gBuf'. destruct (place_range ds d fit Hd (d_linkSegIdx d, symoff - d_origLinkFileoff d)) as (si & Hsi & _ & E & _ & _ & R1 & R2); [exists link; cbn [fst snd]; split; [done|lia]|].
  destruct (place_range ds d fit Hd (d_linkSegIdx d, symoff - d_origLinkFileoff d + 16 * nsyms - 8)) as (si' & Hsi' & _ & E' & _ & _ & R1' & R2'); [exists link; cbn [fst snd]; split; [done|lia]|].
  destruct (library_seg ds d fit Hd _ link Hl) as [(_ & Hv & _) _].
  cbn [fst snd] in *. rewrite Hl in Hsi, Hsi'. injection Hsi as <-. injection Hsi' as <-.
  assert (Eb : gBuf' = fold_left (adjust_symbol d) (symbol_entries base nsyms) gBuf).
  { unfold gBuf', adjust_symtab, sizeof_nlist_64. rewrite Hl, Hs. destruct (Z.eqb_spec symoff 0); [done|]. destruct (Z.eqb_spec nsyms 0); [lia|]. cbn [orb].
    rewrite (wrap_small 64 (symoff - d_origLinkFileoff d)) by lia. rewrite E in *. rewrite (wrap_small 64 (s_cacheFileOff link + _)) by lia. fold base.
    rewrite wrap_small, (gBufSize_ok ds fit) by (unfold base; lia). destruct (layout_regions ds fit) as (_ & _ & _ & _ & _ & _ & R3). destruct (Z.ltb_spec (gSlideInfoFileOff L + gSlideInfoSize L) (base + nsyms * 16)); [unfold base in *; lia|done]. }
  rewrite Eb. unfold symbol_entries.
  destruct (adjust_symbols_ok base (Z.to_nat nsyms) 0 gBuf Hw) as (A1 & A2 & A3). split; [exact A1|]. split.
  - intros i Hi. rewrite <- (Z2Nat.id i) by lia. apply A2. lia.
  - intros a Ha. apply A3. intros i Hi. apply Ha. lia.
Qed.
End Adjust.

(** ** A library that imports from another *)
Definition importer_file : list Z :=
  le_encode 4 MH_MAGIC_64 ++ le_encode 4 0x01000007 ++ le_encode 8 0 ++ le_encode 4 2 ++ le_encode 4 80 ++ le_encode 8 0 ++
  le_encode 4 LC_DYLD_INFO_ONLY ++ le_encode 4 48 ++ le_encode 8 0 ++ le_encode 4 112 ++ le_encode 4 9 ++ repeat 0 24 ++
  le_encode 4 LC_LOAD_DYLIB ++ le_encode 4 32 ++ le_encode 4 24 ++ repeat 0 12 ++ str "/b" ++ repeat 0 6 ++
  [0x11; 0x40; 0x5f; 0x78; 0; 0x71; 0; 0x90; 0] ++ repeat 0 7 ++ repeat 0 8.
Definition provider_file : list Z :=
  le_encode 4 MH_MAGIC_64 ++ le_encode 4 0x01000007 ++ le_encode 8 0 ++ le_encode 4 1 ++ le_encode 4 24 ++ le_encode 8 0 ++
  le_encode 4 LC_SYMTAB ++ le_encode 4 24 ++ le_encode 4 56 ++ le_encode 4 1 ++ le_encode 4 72 ++ le_encode 4 4 ++
  le_encode 4 1 ++ [0x0f; 1] ++ le_encode 2 0 ++ le_encode 8 0x3010 ++ [0; 0x5f; 0x78; 0].
Definition importing : list DylibInfo :=
  [mkDylib (str "/a") importer_file 0 0 [mkSeg (str "__TEXT") 0x1000 128 0 128 0 0 0 0; mkSeg (str "__DATA") 0x2000 16 128 8 1 0 0 0] 0 (-1) 1 0;
   mkDylib (str "/b") provider_file 0 0 [mkSeg (str "__TEXT") 0x3000 0x50 0 76 0 0 0 0] 0 (-1) (-1) 0].
Definition importer : DylibInfo := default (mkDylib [] [] 0 0 [] 0 0 0 0) ((assign_addresses importing).1 !! 0%nat).
Definition import_ops : list bind_op := [BOrdinalImm 1; BSymbol 0 114; BSegment 1 0; BOne; BDone].

Lemma importing_fit : dylibs_fit importing.
Proof.
  split.
  - assert (E : forallb seg_ok_b (all_segs importing) = true) by (vm_compute; reflexivity). intros si Hs. rewrite forallb_forall in E. specialize (E si (proj1 (list_elem_of_In _ _) Hs)). unfold seg_ok_b, seg_ok in *. lia.
  - intros r Hr. assert (r = 0 \/ r = 1 \/ r = 2) as [->|[->| ->]] by lia; vm_compute; discriminate.
  - cbn. lia.
  - intros d. unfold importing. rewrite !elem_of_cons, elem_of_nil. intros [->|[->|[]]]; (split; [cbn; lia|]); split; repeat constructor; discriminate.
Qed.

Lemma importing_leveled : leveled (assign_addresses importing).1.
Proof.
  exists (fun _ => 0%nat). split; [intros; lia|]. intros j d k Hj Hk. destruct j as [|[|j]]; [| |discriminate Hj]; (injection Hj as <-; vm_compute in Hk; by apply elem_of_nil in Hk).
Qed.

Lemma import_program : bind_at (fmem importer_file) 112 121 import_ops.
Proof.
  split; [lia|]. split; [lia|]. split; [vm_compute; reflexivity|]. split; [lia|]. split; [lia|]. split; [vm_compute; reflexivity|]. split; [lia|]. exists [0x5f; 0x78]. split; [repeat constructor; lia|].
  split; [vm_compute; reflexivity|]. split; [cbn [length]; lia|]. split; [cbn [length]; lia|]. split; [lia|]. split; [vm_compute; reflexivity|].
  exists 119. split; [apply uleb_byte; [lia|vm_compute; reflexivity|cbn [length]; lia|cbn [length]; lia]|]. split; [lia|]. split; [vm_compute; reflexivity|].
  split; [lia|]. split; [vm_compute; reflexivity|cbn [bind_at]; lia].
Qed.

Lemma binds_cached_witness : exists gBuf' locs', apply_binds (assign_addresses importing).2 (assign_addresses importing).1 0 importer (∅, [], 0) = Some (gBuf', locs', 0) /\
  mread gBuf' 0x3000 8 = TEXT_REGION_BASE + 0x1010 /\ locs' = [0x3000].
Proof.
  pose proof (binds_cached importing 0 importer 32 import_ops [] ∅ [] 0) as Hr. cbv zeta in Hr.
  assert (Et : bind_targets (bind_requests import_ops bind_start ++ bind_requests [] bind_start) = [(mkBind 1 0 114 0 0 1, 0)]) by (vm_compute; reflexivity). rewrite Et in Hr.
  change (d_mapped importer) with importer_file in Hr. replace (di_bind_off (fmem importer_file) 32) with 112 in Hr by (vm_compute; reflexivity). replace (di_bind_size (fmem importer_file) 32) with 9 in Hr by (vm_compute; reflexivity).
  replace (di_lazy_bind_off (fmem importer_file) 32) with 0 in Hr by (vm_compute; reflexivity). replace (di_lazy_bind_size (fmem importer_file) 32) with 0 in Hr by (vm_compute; reflexivity).
  assert (Ep : target_place importer (mkBind 1 0 114 0 0 1, 0) = 0x3000) by (vm_compute; reflexivity). cbn [map] in Hr. rewrite Ep in Hr.
  destruct Hr as (gBuf' & E & H1 & _).
  - exact importing_fit.
  - exact importing_leveled.
  - reflexivity.
  - exists [], [80]. split; [vm_compute; reflexivity|]. split; [right; vm_compute; reflexivity|]. constructor; [|constructor]. split; vm_compute; discriminate.
  - exact import_program.
  - cbn [bind_at]. lia.
  - constructor; [|constructor]. eexists. split; [vm_compute; reflexivity|]. cbn. lia.
  - intros [|a] [|b] x y Hx Hy Hij; try discriminate Hx; try discriminate Hy. done.
  - exact mem_wf_empty.
  - vm_compute. discriminate.
  - eexists gBuf', _. split; [etransitivity; [exact E|vm_compute; reflexivity]|]. split; [|reflexivity]. rewrite <- Ep. rewrite (proj1 (H1 _ ltac:(left))). vm_compute. reflexivity.
Defined.
