(* ===== verification/CacheChains.v ===== *)
(** * The shared cache builder's chained fixups: tools/build_shared_cache_real.c

    The chains start from the library's file and run through the cache buffer, where
    the segments have been copied. The file describes them with the structures of
    ChainedFixups.v, and the fixups of a page and their encoding are those of that
    file too. *)

From Stdlib Require Import ZArith Lia Ascii String.
From stdpp Require Import base list gmap.
From S2P Require Import Prelude MachO Words Runs Leb128 DyldImage MachImage DyldKernel SlideInfo Linker ChainedFixups Opcodes CacheBuild CacheFile CacheFixups CacheBinds.

Open Scope Z_scope.

(** ** One pointer *)

(** The value of a bound pointer, and what it adds to [gUnresolved]. *)
Definition bind_chained (cached : list DylibInfo) (i : nat) (d : DylibInfo) (fixData raw : Z) : option (Z * Z) :=
  let m := fmem (d_mapped d) in
  let ordIdx := Z.land raw 0xFFFFFF in
  let addend := signed 8 (Z.land (Z.shiftr raw 24) 0xFF) in
  if ordIdx <? fh_imports_count m fixData then
    let imp := fixData + fh_imports_offset m fixData + ordIdx * 4 in
    let symName := cstr m (fixData + fh_symbols_offset m fixData + ci_name_offset m imp) in
    match resolve_symbol cached symName i (signed 8 (ci_lib_ordinal m imp)) with
    | None => None
    | Some addr => Some (if negb (addr =? 0) then addr +64 addend else 0, if addr =? 0 then 1 else 0)
    end
  else Some (0, 0).

Definition rebase_chained (d : DylibInfo) (text : SegInfo) (ptrFmt raw : Z) : Z :=
  let target := Z.land raw 0xFFFFFFFFF in
  let high8 := Z.land (Z.shiftr raw 36) 0xFF in
  let sourceTarget := if ptrFmt =? DYLD_CHAINED_PTR_64_OFFSET then s_origVmaddr text +64 target else target in
  let newAddr :=
    match owner d sourceTarget with
    | Some t => sourceTarget +64 s_slide t
    | None => if ptrFmt =? DYLD_CHAINED_PTR_64_OFFSET then s_cacheVmaddr text +64 target else sourceTarget
    end in
  Z.lor newAddr (Z.shiftl high8 56).

Definition in_data (L : cache_layout) (locOff : Z) : bool := (gDataFileOff L <=? locOff) && (locOff <? gDataFileOff L +64 gDataSize L).

(** ** Chains, pages and segments *)
Definition chained_step (L : cache_layout) (cached : list DylibInfo) (i : nat) (d : DylibInfo) (text : SegInfo) (fixData segInfo : Z) (x : fixups * Z) : (fixups * Z) + option fixups :=
  let '(gBuf, locs, unresolved, loc) := x in
  let raw := mread gBuf loc 8 in
  let next := Z.land (Z.shiftr raw 51) 0xFFF in
  match (if Z.testbit raw 63 then bind_chained cached i d fixData raw
         else Some (rebase_chained d text (ss_pointer_format (fmem (d_mapped d)) segInfo) raw, 0)) with
  | None => inr None
  | Some (value, missing) =>
      let s := (mwrite gBuf loc 8 value, if in_data L loc then record_rebase locs loc else locs, unresolved + missing) in
      if next =? 0 then inr (Some s) else inl (s, loc + next * 4)
  end.

(** A loop whose body may not return. *)
Fixpoint try_each {A St} (f : A -> St -> option St) (l : list A) (s : St) : option St :=
  match l with [] => Some s | x :: l => match f x s with None => None | Some s => try_each f l s end end.

Definition walk_chained (L : cache_layout) (cached : list DylibInfo) (i : nat) (d : DylibInfo) (text seg : SegInfo) (fixData segInfo : Z) (page : nat) (s : fixups) : option fixups :=
  let m := fmem (d_mapped d) in
  let ps := ss_page_start m segInfo (Z.of_nat page) in
  if ps =? DYLD_CHAINED_PTR_START_NONE then Some s
  else
    let pageBase := s_cacheFileOff seg + signed 32 (wrap 32 (Z.of_nat page * ss_page_size m segInfo)) in
    while rounds64 None (chained_step L cached i d text fixData segInfo) (s, pageBase + ps).

(** The segment at an offset from TEXT. *)
Definition segment_at_offset (d : DylibInfo) (text : SegInfo) (seg_off : Z) : option SegInfo :=
  List.find (fun si => s_origVmaddr si =? s_origVmaddr text +64 seg_off) (d_segs d).

(** [None] also stands for a library without TEXT, which [load_dylib] refuses. *)
Definition chained_segment (L : cache_layout) (cached : list DylibInfo) (i : nat) (d : DylibInfo) (fixData starts : Z) (seg : nat) (s : fixups) : option fixups :=
  let m := fmem (d_mapped d) in
  let off := si_seg_info_offset m starts (Z.of_nat seg) in
  if off =? 0 then Some s
  else
    match nth_seg d (d_textSegIdx d) with
    | None => None
    | Some text =>
        match segment_at_offset d text (ss_segment_offset m (starts + off)) with
        | None => Some s
        | Some matchSeg => try_each (walk_chained L cached i d text matchSeg fixData (starts + off)) (seq 0 (Z.to_nat (ss_page_count m (starts + off)))) s
        end
    end.

Definition chained_data (L : cache_layout) (cached : list DylibInfo) (i : nat) (d : DylibInfo) (fixData : Z) (s : fixups) : option fixups :=
  let m := fmem (d_mapped d) in
  let starts := fixData + fh_starts_offset m fixData in
  try_each (chained_segment L cached i d fixData starts) (seq 0 (Z.to_nat (si_seg_count m starts))) s.

Definition apply_chained (L : cache_layout) (cached : list DylibInfo) (i : nat) (d : DylibInfo) (s : fixups) : option fixups :=
  let m := fmem (d_mapped d) in
  try_each (fun cmd s => if lc_cmd m cmd =? LC_DYLD_CHAINED_FIXUPS then chained_data L cached i d (ldc_dataoff m cmd) s else Some s) (commands m 0) s.

(** ** The pointers of the chains *)
Record chained_pointer := mkPointer { p_loc : Z; p_format : Z; p_fixup : fixup; p_next : Z }.

(** The pointers of a page at [P]. *)
Fixpoint page_pointers (P format : Z) (l : list (Z * fixup)) : list chained_pointer :=
  match l with [] => [] | (off, f) :: rest => mkPointer (P + off) format f (next_of off rest) :: page_pointers P format rest end.

Definition page_base (si : SegInfo) (sg : segment_fixups) (j : nat) : Z := s_cacheFileOff si + Z.of_nat j * sg_page_size sg.

Definition segment_pointers (si : SegInfo) (sg : segment_fixups) : list chained_pointer :=
  concat (imap (fun j l => page_pointers (page_base si sg j) (sg_format sg) l) (sg_pages sg)).

(** The pointers of a library whose segments have the fixups [sgs], in order. *)
Definition library_pointers (d : DylibInfo) (text : SegInfo) (sgs : list (option segment_fixups)) : list chained_pointer :=
  concat (map (fun o => match o with
                        | Some sg => match segment_at_offset d text (sg_offset sg) with Some si => segment_pointers si sg | None => [] end
                        | None => []
                        end) sgs).

(** The file describes the chains of a segment at [s]. *)
Definition segment_described (m : mem) (s : Z) (sg : segment_fixups) : Prop :=
  ss_page_size m s = sg_page_size sg /\ ss_pointer_format m s = sg_format sg /\ ss_segment_offset m s = sg_offset sg /\
  ss_page_count m s = Z.of_nat (length (sg_pages sg)) /\ forall j l, sg_pages sg !! j = Some l -> ss_page_start m s (Z.of_nat j) = first_offset l.

(** The file describes the chains of the library at [fixData]. *)
Definition chains_described (m : mem) (fixData : Z) (sgs : list (option segment_fixups)) : Prop :=
  let starts := fixData + fh_starts_offset m fixData in
  si_seg_count m starts = Z.of_nat (length sgs) /\
  forall k o, sgs !! k = Some o -> let off := si_seg_info_offset m starts (Z.of_nat k) in
    match o with None => off = 0 | Some sg => off <> 0 /\ segment_described m (starts + off) sg end.

(** The chains have the right form and lie inside their segment. *)
Definition chains_ok (d : DylibInfo) (text : SegInfo) (nimports : Z) (sgs : list (option segment_fixups)) : Prop :=
  forall sg si j l, Some sg ∈ sgs -> segment_at_offset d text (sg_offset sg) = Some si -> sg_pages sg !! j = Some l ->
    chain_ok (sg_page_size sg) nimports l /\ Forall (fun x => Z.of_nat j * sg_page_size sg + x.1 + 8 <= s_vmsize si) l.

(** ** Fixing the pointers *)
Section Fix.
Variables (L : cache_layout) (cached : list DylibInfo) (i : nat) (d : DylibInfo) (text : SegInfo) (fixData : Z).
Notation m := (fmem (d_mapped d)).

(** The name of an import, and the library it is expected from. *)
Definition import_name (k : Z) : list Z := cstr m (fixData + fh_symbols_offset m fixData + ci_name_offset m (fixData + fh_imports_offset m fixData + k * 4)).
Definition import_symbol (k : Z) : option Z := resolve_symbol cached (import_name k) i (signed 8 (ci_lib_ordinal m (fixData + fh_imports_offset m fixData + k * 4))).

(** Where a rebased pointer of the library pointed to. *)
Definition chained_target (format target : Z) : Z := if format =? DYLD_CHAINED_PTR_64_OFFSET then s_origVmaddr text +64 target else target.

(** The value and the number of missing symbols. *)
Definition fixed (x : chained_pointer) : Z * Z :=
  match p_fixup x with
  | Rebase t h =>
      let v := chained_target (p_format x) t in
      (Z.lor (match owner d v with
              | Some sg => s_cacheVmaddr sg + (v - s_origVmaddr sg)
              | None => if p_format x =? DYLD_CHAINED_PTR_64_OFFSET then s_cacheVmaddr text +64 t else t
              end) (Z.shiftl h 56), 0)
  | Bind k a => match import_symbol k with Some addr => if addr =? 0 then (0, 1) else (addr +64 a, 0) | None => (0, 0) end
  end.

Definition fix_pointer (s : fixups) (x : chained_pointer) : fixups :=
  let '(gBuf, locs, unresolved) := s in
  (mwrite gBuf (p_loc x) 8 (fixed x).1, if in_data L (p_loc x) then record_rebase locs (p_loc x) else locs, unresolved + (fixed x).2).

Definition fix_all (l : list chained_pointer) (s : fixups) : fixups := fold_left fix_pointer l s.

(** The pointers that have yet to be fixed. *)
Definition pending (l : list chained_pointer) (s : fixups) : Prop :=
  apart (map p_loc l) /\ Forall (fun x => mread s.1.1 (p_loc x) 8 = encode_fixup (p_fixup x) (p_next x)) l.

Lemma fix_pointer_other x s a : ~ p_loc x <= a < p_loc x + 8 -> mget (fix_pointer s x).1.1 a = mget s.1.1 a.
Proof. destruct s as [[b l] u]. intros Ha. apply (only_in_mwrite b (p_loc x) 8). lia. Qed.

Lemma pending_cons x l s : pending (x :: l) s -> mread s.1.1 (p_loc x) 8 = encode_fixup (p_fixup x) (p_next x) /\ pending l (fix_pointer s x) /\ pending l s.
Proof.
  intros [Ha He]. cbn [map] in Ha. apply apart_cons in Ha as [Ha Hax]. apply Forall_cons in He as [Hx He]. split; [done|]. split; [|by split]. split; [done|]. rewrite Forall_forall in He |- *.
  intros y Hy. rewrite <- (He y Hy). apply mread_ext. intros a Hr. apply fix_pointer_other. specialize (Hax (p_loc y) ltac:(by apply list_elem_of_fmap_2)). lia.
Qed.

Lemma pending_app l1 : forall l2 s, pending (l1 ++ l2) s -> pending l1 s /\ pending l2 (fix_all l1 s).
Proof.
  intros l2 s H. split.
  - destruct H as [Ha He]. apply Forall_app in He as [He _]. rewrite map_app in Ha. apply apart_app in Ha as [Ha _]. by split.
  - revert s H. induction l1 as [|x l1 IH]; intros s H; [done|]. cbn [app] in H. apply pending_cons in H as (_ & H & _). cbn [fix_all fold_left]. by apply IH.
Qed.

(** ** Walking a chain *)
Hypothesis Hsym : forall k, is_Some (import_symbol k).
Hypothesis Hmoved : forall v t, owner d v = Some t -> 0 <= v < 2 ^ 64 -> v +64 s_slide t = s_cacheVmaddr t + (v - s_origVmaddr t).

Lemma fixed_rebase x t h : p_fixup x = Rebase t h -> fixup_ok (Rebase t h) -> 0 <= p_next x < 2 ^ 12 ->
  (rebase_chained d text (p_format x) (encode_fixup (Rebase t h) (p_next x)), 0) = fixed x.
Proof using Hmoved.
  intros E Hok Hn. unfold rebase_chained, fixed. rewrite E. destruct (decode_rebase t h (p_next x) Hok Hn) as [-> ->]. fold (chained_target (p_format x) t). f_equal. f_equal. destruct Hok as [Ht _].
  assert (Hr : 0 <= chained_target (p_format x) t < 2 ^ 64) by (unfold chained_target; destruct (_ =? _); [apply wrap_64_range|lia]).
  destruct (owner d _) as [sg|] eqn:Eo; [by apply Hmoved|]. unfold chained_target. by destruct (_ =? _).
Qed.

Lemma fixed_bind x k a : p_fixup x = Bind k a -> fixup_ok (Bind k a) -> k < fh_imports_count m fixData -> 0 <= p_next x < 2 ^ 12 ->
  bind_chained cached i d fixData (encode_fixup (Bind k a) (p_next x)) = Some (fixed x).
Proof using Hsym.
  intros E Hok Hk Hn. unfold bind_chained, fixed. rewrite E. destruct (decode_bind k a (p_next x) Hok Hn) as [-> ->]. destruct (Z.ltb_spec k (fh_imports_count m fixData)); [|lia].
  fold (import_name k) (import_symbol k). destruct (Hsym k) as [addr ->]. by destruct (addr =? 0).
Qed.

Definition pointer_ok (x : chained_pointer) : Prop :=
  fixup_ok (p_fixup x) /\ 0 <= p_next x < 2 ^ 12 /\ match p_fixup x with Bind k _ => k < fh_imports_count m fixData | Rebase _ _ => True end.

Lemma chained_step_ok segInfo x l s : ss_pointer_format m segInfo = p_format x -> pointer_ok x -> pending (x :: l) s ->
  chained_step L cached i d text fixData segInfo (s, p_loc x) = if p_next x =? 0 then inr (Some (fix_pointer s x)) else inl (fix_pointer s x, p_loc x + p_next x * 4).
Proof using Hsym Hmoved.
  intros Hf (Hok & Hn & Hk) [Hx _]%pending_cons. destruct s as [[gBuf locs] un]. cbn [fst] in Hx. unfold chained_step. rewrite Hx, (decode_next _ _ Hok Hn), (decode_kind _ _ Hok Hn), Hf.
  assert (Ev : (if match p_fixup x with Rebase _ _ => false | Bind _ _ => true end then bind_chained cached i d fixData (encode_fixup (p_fixup x) (p_next x))
    else Some (rebase_chained d text (p_format x) (encode_fixup (p_fixup x) (p_next x)), 0)) = Some (fixed x)).
  { destruct (p_fixup x) as [t h|k a] eqn:Ef; [f_equal; by apply fixed_rebase|by apply fixed_bind]. }
  rewrite Ev. destruct (fixed x) as [v k] eqn:Efx. unfold fix_pointer. by rewrite Efx.
Qed.

Lemma chain_walk segInfo size P format : ss_pointer_format m segInfo = format -> forall l off f s, chain_ok size (fh_imports_count m fixData) ((off, f) :: l) ->
  pending (page_pointers P format ((off, f) :: l)) s ->
  runs (chained_step L cached i d text fixData segInfo) (S (length l)) (s, P + off) = inr (Some (fix_all (page_pointers P format ((off, f) :: l)) s)).
Proof using Hsym Hmoved.
  intros Hf. induction l as [|[o' g] l IH]; intros off f s Hok Hp; destruct (next_of_range _ _ _ _ _ Hok) as [Hn Hlast]; pose proof Hok as (_ & _ & Hfx & Hk & _ & Hok').
  - cbn [runs length]. cbn [page_pointers] in *. set (x := mkPointer _ _ _ _) in *. change (P + off) with (p_loc x). by rewrite (chained_step_ok segInfo x [] s Hf ltac:(by split) Hp).
  - cbn [length]. remember (S (length l)) as k. cbn [runs]. subst k. change (page_pointers P format ((off, f) :: (o', g) :: l)) with (mkPointer (P + off) format f (next_of off ((o', g) :: l)) :: page_pointers P format ((o', g) :: l)) in *.
    set (x := mkPointer _ _ _ _) in *. set (rest := page_pointers _ _ _) in *. change (P + off) with (p_loc x). rewrite (chained_step_ok segInfo x rest s Hf ltac:(by split) Hp).
    destruct Hlast as [Hne Hlast]. change (p_next x) with (next_of off ((o', g) :: l)). destruct (Z.eqb_spec (next_of off ((o', g) :: l)) 0); [done|]. change (p_loc x) with (P + off).
    replace (P + off + next_of off ((o', g) :: l) * 4) with (P + o') by lia. cbn [fix_all fold_left]. apply IH; [done|]. by apply pending_cons in Hp as (_ & Hp & _).
Qed.

(** ** Pages and segments *)
Lemma try_each_pointers {A} (f : nat -> fixups -> option fixups) (l : list A) : forall (g : nat -> A -> list chained_pointer) k s,
  (forall j x s, l !! j = Some x -> pending (g j x) s -> f (k + j)%nat s = Some (fix_all (g j x) s)) -> pending (concat (imap g l)) s ->
  try_each f (seq k (length l)) s = Some (fix_all (concat (imap g l)) s).
Proof using.
  induction l as [|x l IH]; intros g k s Hf Hp; [done|]. cbn [length seq try_each imap concat] in *. apply pending_app in Hp as [H1 H2]. rewrite <- (Nat.add_0_r k) at 1. rewrite (Hf 0%nat x s eq_refl H1).
  rewrite (IH (g ∘ S) (S k)); [unfold fix_all; by rewrite fold_left_app| |exact H2]. intros j y s' Hj Hy. replace (S k + j)%nat with (k + S j)%nat by lia. by apply (Hf (S j) y s').
Qed.

Lemma signed_positive w x : x < 2 ^ (w - 1) -> signed w x = x.
Proof using. intros H. unfold signed. by destruct (Z.ltb_spec x (2 ^ (w - 1))); [|lia]. Qed.

Lemma walk_chained_ok s si sg j l st : segment_described m s sg -> s_vmsize si < 2 ^ 31 -> sg_pages sg !! j = Some l -> chain_ok (sg_page_size sg) (fh_imports_count m fixData) l ->
  Forall (fun x => Z.of_nat j * sg_page_size sg + x.1 + 8 <= s_vmsize si) l -> pending (page_pointers (page_base si sg j) (sg_format sg) l) st ->
  walk_chained L cached i d text si fixData s j st = Some (fix_all (page_pointers (page_base si sg j) (sg_format sg) l) st).
Proof using Hsym Hmoved.
  intros (Hps & Hf & _ & _ & Hst) Hvm Hj Hok Hin Hp. unfold walk_chained. rewrite (Hst j l Hj), Hps. destruct l as [|[off f] l]; [done|]. cbn [first_offset]. pose proof Hok as (H0 & H1 & _). apply Forall_cons in Hin as [H2 _]. cbn [fst] in H2.
  pose proof (mread_range m (s + 4) 2 (fmem_wf _)) as Hr. change (mread m (s + 4) 2) with (ss_page_size m s) in Hr. rewrite Hps in Hr. change (256 ^ Z.of_nat 2) with 65536 in Hr.
  destruct (Z.eqb_spec off DYLD_CHAINED_PTR_START_NONE) as [->|_]; [unfold DYLD_CHAINED_PTR_START_NONE in H1; lia|]. rewrite wrap_small by lia. rewrite signed_positive by lia. fold (page_base si sg j).
  apply (while_runs _ _ _ (S (length l))); [by eapply chain_walk|]. pose proof (chain_length _ _ _ Hok off f eq_refl) as Hlen. cbn [length] in Hlen. unfold rounds64. lia.
Qed.

Hypothesis Htext : nth_seg d (d_textSegIdx d) = Some text.
Hypothesis Hsegs : forall si, si ∈ d_segs d -> s_vmsize si < 2 ^ 31.

Lemma segment_at_offset_in off si : segment_at_offset d text off = Some si -> si ∈ d_segs d.
Proof using. intros [Hin _]%find_some. by apply list_elem_of_In. Qed.

Lemma chained_data_ok sgs s : chains_described m fixData sgs -> chains_ok d text (fh_imports_count m fixData) sgs -> pending (library_pointers d text sgs) s ->
  chained_data L cached i d fixData s = Some (fix_all (library_pointers d text sgs) s).
Proof using All.
  intros [Hcnt Hd] Hok Hp. unfold chained_data. rewrite Hcnt, Nat2Z.id. unfold library_pointers in *. rewrite <- imap_const in Hp |- *. apply try_each_pointers; [|exact Hp]. clear s Hp.
  intros k o s Hk Hp. cbn [const Nat.add] in *. unfold const in *. specialize (Hd k o Hk). cbv zeta in Hd. unfold chained_segment. destruct o as [sg|]; [|by rewrite Hd].
  destruct Hd as [Hne Hdesc]. destruct (Z.eqb_spec (si_seg_info_offset m (fixData + fh_starts_offset m fixData) (Z.of_nat k)) 0); [done|]. rewrite Htext. set (a := fixData + _ + _) in *. pose proof Hdesc as (_ & _ & -> & Hpc & _).
  destruct (segment_at_offset d text (sg_offset sg)) as [si|] eqn:Esi; [|done]. rewrite Hpc, Nat2Z.id. apply try_each_pointers; [|exact Hp]. intros j l s' Hj Hp'. destruct (Hok sg si j l ltac:(by eapply list_elem_of_lookup_2) Esi Hj) as [Hc Hin].
  apply walk_chained_ok; try done. by eapply Hsegs, segment_at_offset_in.
Qed.
End Fix.

(** ** What the pointers become *)
Lemma fix_all_ok L cached i d text fixData l : forall gBuf locs un, apart (map p_loc l) -> Z.of_nat (length locs + length l) <= MAX_REBASE_LOCS ->
  let fixed := fixed cached i d text fixData in
  exists gBuf', fix_all L cached i d text fixData l (gBuf, locs, un) =
    (gBuf', locs ++ map p_loc (filter (fun x => in_data L (p_loc x) = true) l), un + Z.of_nat (length (filter (fun x => (fixed x).2 = 1) l))) /\
    (mem_wf gBuf -> mem_wf gBuf') /\ (forall x, x ∈ l -> mread gBuf' (p_loc x) 8 = wrap 64 (fixed x).1) /\
    (forall a, ~ in_pointers (map p_loc l) a -> mget gBuf' a = mget gBuf a).
Proof.
  intros gBuf locs un Ha Hroom fx. revert gBuf locs un Ha Hroom. induction l as [|x l IH]; intros gBuf locs un Ha Hroom.
  { exists gBuf. cbn. rewrite app_nil_r, Z.add_0_r. split_and!; try done. intros t Ht. by apply elem_of_nil in Ht. }
  cbn [map length] in *. apply apart_cons in Ha as [Ha Hax]. set (b1 := mwrite gBuf (p_loc x) 8 (fx x).1). set (locs1 := if in_data L (p_loc x) then record_rebase locs (p_loc x) else locs).
  assert (El : locs1 = locs ++ (if in_data L (p_loc x) then [p_loc x] else [])).
  { unfold locs1, record_rebase. destruct (Z.ltb_spec (Z.of_nat (length locs)) MAX_REBASE_LOCS); [|lia]. destruct (in_data L (p_loc x)); by rewrite ?app_nil_r. }
  assert (Hlen : Z.of_nat (length locs1 + length l) <= MAX_REBASE_LOCS) by (rewrite El, length_app; destruct (in_data L (p_loc x)); cbn; lia).
  destruct (IH b1 locs1 (un + (fx x).2) Ha Hlen) as (b2 & E2 & W2 & V2 & O2). exists b2.
  change (fix_all L cached i d text fixData (x :: l) (gBuf, locs, un)) with (fix_all L cached i d text fixData l (b1, locs1, un + (fx x).2)). rewrite E2. split; [|split; [|split]].
  - rewrite El, !filter_cons, <- app_assoc. f_equal; [f_equal; f_equal; by destruct (in_data L (p_loc x)); case_decide|].
    assert (Hm : (fx x).2 = 0 \/ (fx x).2 = 1) by (unfold fx, fixed; destruct (p_fixup x); [by left|]; repeat case_match; cbn; tauto). case_decide; cbn [length]; lia.
  - intros Hw. by apply W2, mem_wf_mwrite.
  - intros u [->|Hu]%elem_of_cons; [|by apply V2]. transitivity (mread b1 (p_loc x) 8); [|unfold b1; by rewrite mread_mwrite]. apply mread_ext. intros a Hr. apply O2. intros (z & Hz & Hza). specialize (Hax z Hz). lia.
  - intros a Hn. rewrite O2 by (intros (z & Hz & Hza); apply Hn; exists z; split; [by right|done]). apply (only_in_mwrite gBuf (p_loc x) 8).
    assert (~ p_loc x <= a < p_loc x + 8) by (intros Hr; apply Hn; exists (p_loc x); split; [by left|done]). lia.
Qed.

(** The library's file has one chained fixups command, [cmd]. *)
Definition one_chained (m : mem) (cmd : Z) : Prop := exists before after, commands m 0 = before ++ cmd :: after /\
  lc_cmd m cmd = LC_DYLD_CHAINED_FIXUPS /\ Forall (fun c => lc_cmd m c <> LC_DYLD_CHAINED_FIXUPS) (before ++ after).

Lemma try_each_app {A St} (f : A -> St -> option St) l1 : forall l2 s, try_each f (l1 ++ l2) s = match try_each f l1 s with None => None | Some s => try_each f l2 s end.
Proof. induction l1 as [|x l1 IH]; intros l2 s; [done|]. cbn [app try_each]. by destruct (f x s). Qed.

Lemma try_each_skip {A St} (f : A -> St -> option St) l s : Forall (fun x => forall s, f x s = Some s) l -> try_each f l s = Some s.
Proof. induction 1 as [|x l Hx _ IH]; [done|]. cbn [try_each]. by rewrite Hx. Qed.

Lemma apply_chained_command L cached i d cmd s : one_chained (fmem (d_mapped d)) cmd ->
  apply_chained L cached i d s = chained_data L cached i d (ldc_dataoff (fmem (d_mapped d)) cmd) s.
Proof.
  intros (before & after & Ec & Hc & Hother). apply Forall_app in Hother as [Hb Ha]. unfold apply_chained. rewrite Ec, try_each_app. set (m := fmem (d_mapped d)) in *. set (f := fun cmd s => _).
  assert (Hskip : forall l, Forall (fun c => lc_cmd m c <> LC_DYLD_CHAINED_FIXUPS) l -> Forall (fun c => forall s, f c s = Some s) l).
  { intros l Hl. eapply Forall_impl; [exact Hl|]. intros c Hn s'. unfold f. by destruct (Z.eqb_spec (lc_cmd m c) LC_DYLD_CHAINED_FIXUPS). }
  rewrite try_each_skip by (by apply Hskip). cbn [try_each]. unfold f at 1. rewrite Hc, Z.eqb_refl. destruct (chained_data _ _ _ _ _ _); [|done]. by rewrite try_each_skip by (by apply Hskip).
Qed.

(** A segment of the cache is inside the buffer. *)
Lemma segment_room ds d si : dylibs_fit ds -> d ∈ assigned ds -> si ∈ d_segs d ->
  0 <= s_cacheFileOff si /\ s_cacheFileOff si + s_vmsize si <= gBufSize (layout_of ds) /\ s_vmsize si < 2 ^ 31.
Proof.
  intros fit Hd Hs. destruct (cached_seg ds d si Hd Hs) as (k & _ & Hk). destruct (assigned_segs_ok ds fit k si Hk) as [Hok (P1 & P2 & _)]. pose proof (aligned_size_range si Hok). destruct Hok as (Hr & Hv & _).
  destruct (region_ends ds fit (s_region si) Hr) as (E1 & E2 & E3 & _). destruct (layout_regions ds fit) as ((M1 & _) & _ & _ & _ & _ & _ & M2). rewrite (gBufSize_ok ds fit).
  assert (capacity (s_region si) <= 0x60000000) by (unfold capacity; case_match; lia). pose proof (names_size_range ds (fit_names _ fit)). assert (Ei : imagesOff = 776) by reflexivity. lia.
Qed.

Lemma page_pointers_in P format l x : x ∈ page_pointers P format l -> exists off f, (off, f) ∈ l /\ p_loc x = P + off.
Proof.
  induction l as [|[off f] l IH]; cbn [page_pointers]; [intros H; by apply elem_of_nil in H|]. intros [->|H]%elem_of_cons; [exists off, f; split; [by left|done]|].
  destruct (IH H) as (o & g & Ho & E). exists o, g. split; [by right|done].
Qed.

Lemma library_pointers_in d text sgs x : x ∈ library_pointers d text sgs ->
  exists sg si j l off f, Some sg ∈ sgs /\ segment_at_offset d text (sg_offset sg) = Some si /\ sg_pages sg !! j = Some l /\ (off, f) ∈ l /\ p_loc x = page_base si sg j + off.
Proof.
  unfold library_pointers. intros H. apply list_elem_of_In, in_concat in H as (ps & H & Hx). apply in_map_iff in H as ([sg|] & Ho & Hin); [|subst ps; by destruct Hx].
  destruct (segment_at_offset d text (sg_offset sg)) as [si|] eqn:Esi; [|subst ps; by destruct Hx]. subst ps. unfold segment_pointers in Hx. apply in_concat in Hx as (qs & Hq & Hx). apply list_elem_of_In, elem_of_lookup_imap_1 in Hq as (j & l & -> & Hj).
  apply list_elem_of_In, page_pointers_in in Hx as (off & f & Hof & E). exists sg, si, j, l, off, f. split; [by apply list_elem_of_In|done].
Qed.

Lemma chain_ok_offset size n l off f : chain_ok size n l -> (off, f) ∈ l -> 0 <= off /\ off + 8 <= size.
Proof.
  induction l as [|[o g] l IH]; intros Hok Hin; [by apply elem_of_nil in Hin|]. destruct Hok as (H0 & H1 & _ & _ & _ & Hok). apply elem_of_cons in Hin as [[= -> ->]|Hin]; [done|by apply IH].
Qed.

Lemma library_pointer_room ds d text n sgs x : dylibs_fit ds -> d ∈ assigned ds -> chains_ok d text n sgs -> x ∈ library_pointers d text sgs -> 0 <= p_loc x /\ p_loc x + 8 <= gBufSize (layout_of ds).
Proof.
  intros fit Hd Hok (sg & si & j & l & off & f & Hsg & Esi & Hj & Hof & E)%library_pointers_in. destruct (Hok sg si j l Hsg Esi Hj) as [Hc Hin]. destruct (chain_ok_offset _ _ _ _ _ Hc Hof).
  rewrite Forall_forall in Hin. specialize (Hin _ Hof). cbn [fst] in Hin. destruct (segment_room ds d si fit Hd ltac:(by eapply segment_at_offset_in)) as (R1 & R2 & _). rewrite E. unfold page_base. nia.
Qed.

(** C38. Chained fixups in the cache. When the fixup data of a library's file describes
    chains, and the buffer holds their pointers, [apply_chained] walks every chain to
    its end. A rebased pointer then holds the cache address of the byte it pointed to,
    with its high byte; a bound one holds the cache address of an external definition
    of its symbol plus the addend, or 0 if no library defines it. The pointers are
    inside the buffer and nothing else in it changes, those in DATA are recorded in
    order, and the missing symbols are counted. *)
Theorem chains_cached (ds : list DylibInfo) (i : nat) (d : DylibInfo) (text : SegInfo) (cmd : Z) (sgs : list (option segment_fixups)) (gBuf : mem) (locs : list Z) (unresolved : Z) :
  let cached := (assign_addresses ds).1 in
  let L := (assign_addresses ds).2 in
  let m := fmem (d_mapped d) in
  let fixData := ldc_dataoff m cmd in
  let pointers := library_pointers d text sgs in
  let fixed := fixed cached i d text fixData in
  dylibs_fit ds -> leveled cached -> cached !! i = Some d -> nth_seg d (d_textSegIdx d) = Some text -> one_chained m cmd ->
  chains_described m fixData sgs -> chains_ok d text (fh_imports_count m fixData) sgs -> apart (map p_loc pointers) ->
  Forall (fun x => mread gBuf (p_loc x) 8 = encode_fixup (p_fixup x) (p_next x)) pointers -> mem_wf gBuf -> Z.of_nat (length locs + length pointers) <= MAX_REBASE_LOCS ->
  exists gBuf', apply_chained L cached i d (gBuf, locs, unresolved) =
    Some (gBuf', locs ++ map p_loc (filter (fun x => in_data L (p_loc x) = true) pointers), unresolved + Z.of_nat (length (filter (fun x => (fixed x).2 = 1) pointers))) /\
    (forall x, x ∈ pointers -> 0 <= p_loc x /\ p_loc x + 8 <= gBufSize L /\ mread gBuf' (p_loc x) 8 = wrap 64 (fixed x).1) /\
    (forall k, let name := import_name d fixData k in exists a, import_symbol cached i d fixData k = Some a /\ (a <> 0 -> defined_at cached name a) /\ (a = 0 -> forall b, defined_at cached name b -> b = 0)) /\
    (forall a, ~ in_pointers (map p_loc pointers) a -> mget gBuf' a = mget gBuf a) /\ mem_wf gBuf'.
Proof.
  intros cached L m fixData pointers fx fit Hlev Hi Ht Hc Hdesc Hok Ha He Hw Hroom. assert (Hd : d ∈ cached) by (by eapply list_elem_of_lookup_2).
  assert (Hres : forall k, let name := import_name d fixData k in exists a, import_symbol cached i d fixData k = Some a /\ (a <> 0 -> defined_at cached name a) /\ (a = 0 -> forall b, defined_at cached name b -> b = 0)).
  { intros k name. destruct (resolve_symbol_ok cached name i (signed 8 (ci_lib_ordinal m (fixData + fh_imports_offset m fixData + k * 4))) Hlev) as (a & Ea & H0 & H1). by exists a. }
  destruct (fix_all_ok L cached i d text fixData pointers gBuf locs unresolved Ha Hroom) as (gBuf' & E & W & V & O). exists gBuf'. split; [|split; [|split; [exact Hres|split; [exact O|by apply W]]]].
  - etransitivity; [|exact (f_equal Some E)]. rewrite (apply_chained_command _ _ _ _ cmd) by done. apply chained_data_ok; try done.
    + intros k. destruct (Hres k) as (a & Ea & _). by exists a.
    + intros v t Ho Hv. by apply (moved_ok ds d fit Hd v t).
    + intros si Hs. by apply (segment_room ds d si fit Hd Hs).
  - intros x Hx. destruct (library_pointer_room ds d text _ sgs x fit Hd Hok Hx). split; [done|]. split; [done|]. by apply V.
Qed.

(** ** A library with a chain

    The first word of DATA points to its second word, which is bound to the symbol that
    the second library defines. *)
Definition chained_file : list Z :=
  le_encode 4 MH_MAGIC_64 ++ le_encode 4 0x01000007 ++ le_encode 8 0 ++ le_encode 4 2 ++ le_encode 4 48 ++ le_encode 8 0 ++
  le_encode 4 LC_DYLD_CHAINED_FIXUPS ++ le_encode 4 16 ++ le_encode 4 80 ++ le_encode 4 72 ++
  le_encode 4 LC_LOAD_DYLIB ++ le_encode 4 32 ++ le_encode 4 24 ++ repeat 0 12 ++ str "/b" ++ repeat 0 6 ++
  le_encode 4 0 ++ le_encode 4 28 ++ le_encode 4 64 ++ le_encode 4 68 ++ le_encode 4 1 ++ le_encode 4 1 ++ le_encode 4 0 ++
  le_encode 4 2 ++ le_encode 4 0 ++ le_encode 4 12 ++
  le_encode 4 24 ++ le_encode 2 0x1000 ++ le_encode 2 DYLD_CHAINED_PTR_64_OFFSET ++ le_encode 8 0x1000 ++ le_encode 4 0 ++ le_encode 2 1 ++ le_encode 2 0 ++
  le_encode 4 0x201 ++ [0; 0x5f; 0x78; 0] ++
  le_encode 8 (encode_fixup (Rebase 0x1008 0) 2) ++ le_encode 8 (encode_fixup (Bind 0 0) 0).
Definition chaining : list DylibInfo :=
  [mkDylib (str "/a") chained_file 0 0 [mkSeg (str "__TEXT") 0x1000 152 0 152 0 0 0 0; mkSeg (str "__DATA") 0x2000 16 152 16 1 0 0 0] 0 (-1) 1 0;
   mkDylib (str "/b") provider_file 0 0 [mkSeg (str "__TEXT") 0x3000 0x50 0 76 0 0 0 0] 0 (-1) (-1) 0].
Definition chained_library : DylibInfo := default (mkDylib [] [] 0 0 [] 0 0 0 0) ((assign_addresses chaining).1 !! 0%nat).
Definition chained_text : SegInfo := default (mkSeg [] 0 0 0 0 0 0 0 0) (nth_seg chained_library 0).
Definition chained_page : list (Z * fixup) := [(0, Rebase 0x1008 0); (8, Bind 0 0)].
Definition chained_segments : list (option segment_fixups) := [None; Some (mkSegment 0x1000 DYLD_CHAINED_PTR_64_OFFSET 0x1000 [chained_page])].
Definition chained_buf : mem := copy_segments (assign_addresses chaining).2 (assign_addresses chaining).1 ∅.

Lemma chaining_fit : dylibs_fit chaining.
Proof.
  split.
  - assert (E : forallb seg_ok_b (all_segs chaining) = true) by (vm_compute; reflexivity). intros si Hs. rewrite forallb_forall in E. specialize (E si (proj1 (list_elem_of_In _ _) Hs)). unfold seg_ok_b, seg_ok in *. lia.
  - intros r Hr. assert (r = 0 \/ r = 1 \/ r = 2) as [->|[->| ->]] by lia; vm_compute; discriminate.
  - cbn. lia.
  - intros d. unfold chaining. rewrite !elem_of_cons, elem_of_nil. intros [->|[->|[]]]; (split; [cbn; lia|]); split; repeat constructor; discriminate.
Qed.

Lemma chaining_leveled : leveled (assign_addresses chaining).1.
Proof.
  exists (fun _ => 0%nat). split; [intros; lia|]. intros j d k Hj Hk. destruct j as [|[|j]]; [| |discriminate Hj]; (injection Hj as <-; vm_compute in Hk; by apply elem_of_nil in Hk).
Qed.

Lemma chained_described : chains_described (fmem chained_file) 80 chained_segments.
Proof.
  split; [vm_compute; reflexivity|]. intros k o Hk. destruct k as [|[|k]]; [| |discriminate Hk]; injection Hk as <-; [vm_compute; reflexivity|]. split; [vm_compute; discriminate|].
  split; [vm_compute; reflexivity|]. split; [vm_compute; reflexivity|]. split; [vm_compute; reflexivity|]. split; [vm_compute; reflexivity|].
  intros [|j] l Hj; [|discriminate Hj]. injection Hj as <-. vm_compute. reflexivity.
Qed.

Lemma chained_chains_ok : chains_ok chained_library chained_text 1 chained_segments.
Proof.
  intros sg si j l Hsg Esi Hj. apply elem_of_cons in Hsg as [Hsg|Hsg]; [discriminate Hsg|]. apply list_elem_of_singleton in Hsg. injection Hsg as ->. cbn [sg_pages sg_page_size] in *. destruct j as [|j]; [|discriminate Hj]. injection Hj as <-.
  assert (Ev : s_vmsize si = 16) by (vm_compute in Esi; injection Esi as <-; reflexivity). rewrite Ev. split; [unfold chained_page; cbn [chain_ok fixup_ok]; split_and!; lia || reflexivity || exact I|]. repeat constructor; cbn; lia.
Qed.

Lemma chains_cached_witness : exists gBuf' locs', apply_chained (assign_addresses chaining).2 (assign_addresses chaining).1 0 chained_library (chained_buf, [], 0) = Some (gBuf', locs', 0) /\
  mread gBuf' 0x3000 8 = DATA_REGION_BASE + 8 /\ mread gBuf' 0x3008 8 = TEXT_REGION_BASE + 0x1010 /\ locs' = [0x3000; 0x3008].
Proof.
  pose proof (chains_cached chaining 0 chained_library chained_text 32 chained_segments chained_buf [] 0) as Hr. cbv zeta in Hr.
  set (x1 := mkPointer 0x3000 6 (Rebase 0x1008 0) 2). set (x2 := mkPointer 0x3008 6 (Bind 0 0) 0).
  assert (Et : library_pointers chained_library chained_text chained_segments = [x1; x2]) by (vm_compute; reflexivity). rewrite Et in Hr.
  change (d_mapped chained_library) with chained_file in Hr. replace (ldc_dataoff (fmem chained_file) 32) with 80 in Hr by (vm_compute; reflexivity). replace (fh_imports_count (fmem chained_file) 80) with 1 in Hr by (vm_compute; reflexivity).
  destruct Hr as (gBuf' & E & H1 & _).
  - exact chaining_fit.
  - exact chaining_leveled.
  - reflexivity.
  - reflexivity.
  - exists [], [48]. split; [vm_compute; reflexivity|]. split; [vm_compute; reflexivity|]. constructor; [|constructor]. vm_compute. discriminate.
  - exact chained_described.
  - exact chained_chains_ok.
  - intros [|[|a]] [|[|b]] x y Hx Hy Hij; try discriminate Hx; try discriminate Hy; injection Hx as <-; injection Hy as <-; cbn; lia.
  - constructor; [vm_compute; reflexivity|]. constructor; [vm_compute; reflexivity|constructor].
  - apply copy_segments_wf, mem_wf_empty.
  - vm_compute. discriminate.
  - eexists gBuf', _. split; [etransitivity; [exact E|vm_compute; reflexivity]|]. destruct (H1 x1 ltac:(left)) as (_ & _ & V1). destruct (H1 x2 ltac:(right; left)) as (_ & _ & V2).
    split; [etransitivity; [exact V1|vm_compute; reflexivity]|]. split; [etransitivity; [exact V2|vm_compute; reflexivity]|reflexivity].
Defined.
