(* ===== verification/CachePatch.v ===== *)
(** * The shared cache builder's changes to code: tools/build_shared_cache_real.c

    The load commands of a cached library are rewritten for its new places, and the
    displacements of instructions that refer to DATA are changed by the distance that
    TEXT and DATA have moved apart. [build_cache] is what [main] does with the loaded
    libraries. *)

From Stdlib Require Import ZArith Lia Ascii String.
From stdpp Require Import base list gmap.
From S2P Require Import Prelude MachO Words Runs DyldImage MachImage DyldKernel SlideInfo Linker ChainedFixups Opcodes CacheBuild CacheFile CacheFixups CacheBinds CacheChains.

Open Scope Z_scope.

(** ** Load commands *)
Definition LC_FUNCTION_STARTS : Z := 0x26.
Definition LC_DATA_IN_CODE : Z := 0x29.

Definition sizeof_segment_command_64 : Z := 72.
Definition sizeof_section_64 : Z := 80.
Definition segment_nsects (m : mem) (cmd : Z) : Z := mread m (cmd + 64) 4.
Definition section_at (cmd : Z) (ns : nat) : Z := cmd + sizeof_segment_command_64 + sizeof_section_64 * Z.of_nat ns.
Definition section_name (m : mem) (s : Z) : list Z := cstr_upto 16 m s.
Definition section_addr (m : mem) (s : Z) : Z := mread m (s + 32) 8.
Definition section_size (m : mem) (s : Z) : Z := mread m (s + 40) 8.
Definition section_offset (m : mem) (s : Z) : Z := mread m (s + 48) 4.
Definition section_flags (m : mem) (s : Z) : Z := mread m (s + 64) 4.
Definition section_reserved2 (m : mem) (s : Z) : Z := mread m (s + 72) 4.
Definition segment_name (m : mem) (cmd : Z) : list Z := cstr_upto 16 m (cmd + 8).

Definition rewrite_section (vmDelta foDelta : Z) (gBuf : mem) (s : Z) : mem :=
  let gBuf := mwrite gBuf (s + 32) 8 (section_addr gBuf s +64 vmDelta) in
  mwrite gBuf (s + 48) 4 (section_offset gBuf s +32 wrap 32 foDelta).

Definition rewrite_segment (d : DylibInfo) (cmd : Z) (gBuf : mem) : mem :=
  if lc_cmd gBuf cmd =? LC_SEGMENT_64 then
    match List.find (fun si => bool_decide (s_name si = segment_name gBuf cmd)) (d_segs d) with
    | None => gBuf
    | Some si =>
        let gBuf := mwrite gBuf (cmd + 24) 8 (s_cacheVmaddr si) in
        let gBuf := mwrite gBuf (cmd + 40) 8 (s_cacheFileOff si) in
        fold_left (rewrite_section (s_cacheVmaddr si -64 s_origVmaddr si) (s_cacheFileOff si -64 s_origFileoff si))
          (map (section_at cmd) (seq 0 (Z.to_nat (segment_nsects gBuf cmd)))) gBuf
    end
  else gBuf.

(** [ADJ] of the field at [a]. *)
Definition adjust_field (origLinkFO newLinkFO : Z) (gBuf : mem) (a : Z) : mem :=
  let field := mread gBuf a 4 in
  if negb (field =? 0) && (origLinkFO <=? field) then mwrite gBuf a 4 (newLinkFO +64 (field - origLinkFO)) else gBuf.

(** The fields of a command that are file offsets into LINKEDIT. *)
Definition linkedit_fields (lc : Z) : list Z :=
  if lc =? LC_SYMTAB then [8; 16]
  else if lc =? LC_DYSYMTAB then [32; 40; 48; 56; 64; 72]
  else if (lc =? LC_DYLD_INFO) || (lc =? LC_DYLD_INFO_ONLY) then [8; 16; 24; 32; 40]
  else if (lc =? LC_FUNCTION_STARTS) || (lc =? LC_DATA_IN_CODE) || (lc =? LC_DYLD_CHAINED_FIXUPS) || (lc =? LC_DYLD_EXPORTS_TRIE) then [8]
  else [].

Definition rewrite_command (d : DylibInfo) (cmd : Z) (gBuf : mem) : mem :=
  let gBuf := rewrite_segment d cmd gBuf in
  match nth_seg d (d_linkSegIdx d) with
  | Some link =>
      if 0 <? d_origLinkFileoff d then fold_left (adjust_field (d_origLinkFileoff d) (s_cacheFileOff link)) (map (Z.add cmd) (linkedit_fields (lc_cmd gBuf cmd))) gBuf
      else gBuf
  | None => gBuf
  end.

(** The loop over the load commands, which end at [cmdEnd]. *)
Fixpoint rewrite_from (d : DylibInfo) (n : nat) (cmd cmdEnd : Z) (gBuf : mem) : mem :=
  match n with
  | O => gBuf
  | S n =>
      if cmdEnd <? cmd + 8 then gBuf
      else if (lc_cmdsize gBuf cmd =? 0) || (cmdEnd <? cmd + lc_cmdsize gBuf cmd) then gBuf
      else let gBuf := rewrite_command d cmd gBuf in rewrite_from d n (cmd + lc_cmdsize gBuf cmd) cmdEnd gBuf
  end.

Definition rewrite_dylib (L : cache_layout) (gBuf : mem) (d : DylibInfo) : mem :=
  match nth_seg d (d_textSegIdx d) with
  | None => gBuf
  | Some text =>
      let mhOff := s_cacheFileOff text in
      if gBufSize L <? mhOff +64 sizeof_mach_header_64 then gBuf
      else if negb (mh_magic gBuf mhOff =? MH_MAGIC_64) then gBuf
      else if s_filesize text <? sizeof_mach_header_64 + mh_sizeofcmds gBuf mhOff then gBuf
      else rewrite_from d (Z.to_nat (mh_ncmds gBuf mhOff)) (mhOff + sizeof_mach_header_64) (mhOff + sizeof_mach_header_64 + mh_sizeofcmds gBuf mhOff) gBuf
  end.

Definition rewrite_load_commands (L : cache_layout) (ds : list DylibInfo) (gBuf : mem) : mem := fold_left (rewrite_dylib L) ds gBuf.

(** ** Instructions that refer to DATA *)
Definition add_disp32_checked (disp delta : Z) : option Z :=
  let adjusted := signed 64 (wrap 64 (disp + delta)) in
  if (adjusted <? - 2 ^ 31) || (2 ^ 31 - 1 <? adjusted) then None else Some adjusted.

Definition find_section_orig (d : DylibInfo) (segname sectname : list Z) : option Z :=
  let m := fmem (d_mapped d) in
  let segs := filter (fun cmd => lc_cmd m cmd = LC_SEGMENT_64 /\ segment_name m cmd = segname) (commands m 0) in
  List.find (fun s => bool_decide (section_name m s = sectname)) (concat (map (fun cmd => map (section_at cmd) (seq 0 (Z.to_nat (segment_nsects m cmd)))) segs)).

Definition is_in_data_region (d : DylibInfo) (addr : Z) : bool :=
  existsb (fun si => (s_region si =? 1) && (s_origVmaddr si <=? addr) && (addr <? s_origVmaddr si +64 s_vmsize si)) (d_segs d).

(** [text] is the TEXT segment of the library. *)
Definition get_code_to_data_delta (d : DylibInfo) (text : SegInfo) : Z :=
  match List.find (fun si => s_region si =? 1) (d_segs d) with
  | Some si => signed 64 (s_slide si -64 s_slide text)
  | None => 0
  end.

Definition is_legacy_prefix (byte : Z) : bool := (byte =? 0x66) || (byte =? 0xf2) || (byte =? 0xf3).

Definition is_modrm_riprel (modrm : Z) : bool := Z.land modrm 0xC7 =? 0x05.

Definition plain_opcodes : list Z :=
  [0x00; 0x01; 0x02; 0x03; 0x08; 0x09; 0x0a; 0x0b; 0x10; 0x11; 0x12; 0x13; 0x18; 0x19; 0x1a; 0x1b; 0x20; 0x21; 0x22; 0x23; 0x28; 0x29; 0x2a; 0x2b;
   0x30; 0x31; 0x32; 0x33; 0x38; 0x39; 0x3a; 0x3b; 0x63; 0x84; 0x85; 0x86; 0x87; 0x88; 0x89; 0x8a; 0x8b; 0x8d; 0xfe; 0xff].

(** The result and [*trailingImm], which is [imm] before the call. *)
Definition is_onebyte_riprel_opcode (opc modrm : Z) (operand16 : bool) (pos sectSize imm : Z) : bool * Z :=
  let sized n := ((pos +64 4 +64 n <=? sectSize), n) in
  if negb (is_modrm_riprel modrm) then (false, imm)
  else if bool_decide (opc ∈ plain_opcodes) then (true, imm)
  else if (opc =? 0x80) || (opc =? 0x83) || (opc =? 0xc6) then sized 1
  else if (opc =? 0x81) || (opc =? 0xc7) then sized (if operand16 then 2 else 4)
  else if opc =? 0xf6 then sized (if Z.land (Z.shiftr modrm 3) 7 <=? 1 then 1 else 0)
  else if opc =? 0xf7 then sized (if Z.land (Z.shiftr modrm 3) 7 <=? 1 then (if operand16 then 2 else 4) else 0)
  else (false, imm).

(** A disjunction of tests that may set [*trailingImm]. *)
Definition orelse (r : bool * Z) (k : Z -> bool * Z) : bool * Z := let '(b, imm) := r in if b then (true, imm) else k imm.

Definition is_rex (byte : Z) : bool := Z.land byte 0xF0 =? 0x40.

(** The bytes of the section start at [sect]; [decode_riprel_disp32] gives
    [trailingImm] when it returns true. *)
Definition decode_riprel_disp32 (m : mem) (sect pos sectSize : Z) : option Z :=
  let back k := mget m (sect + pos - k) in
  let opc := back 2 in
  let modrm := back 1 in
  let one operand16 imm := is_onebyte_riprel_opcode opc modrm operand16 pos sectSize imm in
  let two imm := (is_modrm_riprel modrm, imm) in
  let guard (c : bool) (k : Z -> bool * Z) imm := if c then k imm else (false, imm) in
  let r :=
    orelse (guard (2 <=? pos) (fun imm =>
      orelse (guard ((opc =? 0xff) && ((modrm =? 0x15) || (modrm =? 0x25) || (modrm =? 0x35))) (fun imm => (true, imm)) imm) (one false)) 0) (fun imm =>
    orelse (guard (3 <=? pos) (fun imm =>
      orelse (guard (is_rex (back 3) || is_legacy_prefix (back 3)) (one (back 3 =? 0x66)) imm) (guard (back 3 =? 0x0f) two)) imm) (fun imm =>
    orelse (guard (4 <=? pos) (fun imm =>
      orelse (guard ((is_rex (back 4) && (back 3 =? 0x0f)) || (is_legacy_prefix (back 4) && (back 3 =? 0x0f))) two imm) (fun imm =>
      orelse (guard (is_legacy_prefix (back 4) && is_rex (back 3)) (one (back 4 =? 0x66)) imm)
        (guard ((back 4 =? 0x0f) && (back 3 =? 0x38)) two))) imm) (fun imm =>
    orelse (guard (5 <=? pos) (fun imm =>
      orelse (guard (is_legacy_prefix (back 5) && is_rex (back 4) && (back 3 =? 0x0f)) two imm)
        (guard ((is_rex (back 5) && (back 4 =? 0x0f) && (back 3 =? 0x38)) || (is_legacy_prefix (back 5) && (back 4 =? 0x0f) && (back 3 =? 0x38))) two)) imm)
    (guard (6 <=? pos) (guard (is_legacy_prefix (back 6) && is_rex (back 5) && (back 4 =? 0x0f) && (back 3 =? 0x38)) two))))) in
  if r.1 then Some r.2 else None.

(** Adding [delta] to the displacement at [a]; [None] is the exit with an error. *)
Definition patch_disp (delta a : Z) (gBuf : mem) : option mem :=
  match add_disp32_checked (signed 32 (mread gBuf a 4)) delta with
  | None => None
  | Some newDisp => Some (mwrite gBuf a 4 newDisp)
  end.

(** The place in the buffer of an address of TEXT. *)
Definition place_in_text (text : SegInfo) (addr : Z) : Z := s_cacheFileOff text +64 (addr -64 s_origVmaddr text).

Definition patch_stub (delta entry : Z) (gBuf : mem) : option mem :=
  if (mget gBuf entry =? 0xff) && (mget gBuf (entry + 1) =? 0x25) then patch_disp delta (entry + 2) gBuf else Some gBuf.

Definition patch_stub_entries (d : DylibInfo) (text : SegInfo) (delta : Z) (gBuf : mem) : option mem :=
  let m := fmem (d_mapped d) in
  match find_section_orig d (str "__TEXT") (str "__stubs") with
  | None => Some gBuf
  | Some stubs =>
      if section_size m stubs =? 0 then Some gBuf
      else
        let stubBuf := place_in_text text (section_addr m stubs) in
        let stubSize := if negb (section_reserved2 m stubs =? 0) then section_reserved2 m stubs else 6 in
        let numStubs := wrap 32 (section_size m stubs / stubSize) in
        try_each (fun i => patch_stub delta (stubBuf + wrap 32 (Z.of_nat i * stubSize))) (seq 0 (Z.to_nat numStubs)) gBuf
  end.

Definition patch_stub_helper (d : DylibInfo) (text : SegInfo) (delta : Z) (gBuf : mem) : option mem :=
  let m := fmem (d_mapped d) in
  match find_section_orig d (str "__TEXT") (str "__stub_helper") with
  | None => Some gBuf
  | Some h =>
      if section_size m h <? 16 then Some gBuf
      else
        let sh := place_in_text text (section_addr m h) in
        match (if (mget gBuf sh =? 0x4c) && (mget gBuf (sh + 1) =? 0x8d) && (mget gBuf (sh + 2) =? 0x1d) then patch_disp delta (sh + 3) gBuf else Some gBuf) with
        | None => None
        | Some gBuf =>
            if (mget gBuf (sh + 7) =? 0x41) && (mget gBuf (sh + 8) =? 0x53) && (mget gBuf (sh + 9) =? 0xff) && (mget gBuf (sh + 10) =? 0x25)
            then patch_disp delta (sh + 11) gBuf else Some gBuf
        end
  end.

Definition patch_stubs (d : DylibInfo) (text : SegInfo) (gBuf : mem) : option mem :=
  let delta := get_code_to_data_delta d text in
  if delta =? 0 then Some gBuf
  else match patch_stub_entries d text delta gBuf with None => None | Some gBuf => patch_stub_helper d text delta gBuf end.

(** One position of the scan. *)
Definition patch_position (d : DylibInfo) (text : SegInfo) (delta sectOff sectSize pos : Z) (gBuf : mem) : option mem :=
  let sectBuf := s_cacheFileOff text +64 sectOff in
  let disp := signed 32 (mread gBuf (sectBuf + pos) 4) in
  match decode_riprel_disp32 gBuf sectBuf pos sectSize with
  | None => Some gBuf
  | Some trailingImm =>
      let instrDispAddr := s_origVmaddr text +64 sectOff +64 pos in
      let target := instrDispAddr +64 4 +64 trailingImm +64 disp in
      if is_in_data_region d target then patch_disp delta (sectBuf + pos) gBuf else Some gBuf
  end.

Definition patch_section (d : DylibInfo) (text : SegInfo) (delta : Z) (s : Z) (gBuf : mem) : option mem :=
  let m := fmem (d_mapped d) in
  let name := section_name m s in
  let sectType := Z.land (section_flags m s) 0xFF in
  let isCode := bool_decide (name = str "__text") || (sectType =? 0x08) in
  if bool_decide (name = str "__stubs") || bool_decide (name = str "__stub_helper") then Some gBuf
  else if negb isCode then Some gBuf
  else
    let sectOff := section_addr m s -64 s_origVmaddr text in
    let sectSize := section_size m s in
    if sectSize <? 4 then Some gBuf
    else try_each (fun pos => patch_position d text delta sectOff sectSize (Z.of_nat pos)) (seq 0 (Z.to_nat (sectSize - 3))) gBuf.

Definition patch_text_rip_refs (d : DylibInfo) (text : SegInfo) (gBuf : mem) : option mem :=
  let m := fmem (d_mapped d) in
  let delta := get_code_to_data_delta d text in
  if delta =? 0 then Some gBuf
  else
    let segs := filter (fun cmd => lc_cmd m cmd = LC_SEGMENT_64 /\ segment_name m cmd = str "__TEXT") (commands m 0) in
    try_each (patch_section d text delta) (concat (map (fun cmd => map (section_at cmd) (seq 0 (Z.to_nat (segment_nsects m cmd)))) segs)) gBuf.

Definition patch_dylib (d : DylibInfo) (gBuf : mem) : option mem :=
  if d_dataSegIdx d <? 0 then Some gBuf
  else
    match nth_seg d (d_textSegIdx d) with
    | None => None
    | Some text => match patch_stubs d text gBuf with None => None | Some gBuf => patch_text_rip_refs d text gBuf end
    end.

Definition patch_cross_segment_refs (ds : list DylibInfo) (gBuf : mem) : option mem := try_each patch_dylib ds gBuf.

(** ** The whole build *)
Definition fixup_dylib (L : cache_layout) (cached : list DylibInfo) (i : nat) (s : fixups) : option fixups :=
  match cached !! i with
  | None => Some s
  | Some d =>
      match apply_rebases L d s.1 with
      | None => None
      | Some b => match apply_binds L cached i d (b, s.2) with None => None | Some s => apply_chained L cached i d s end
      end
  end.

Definition build_cache (uuid : list Z) (ds : list DylibInfo) : option (list Z) :=
  let '(cached, L) := assign_addresses ds in
  match patch_cross_segment_refs cached (rewrite_load_commands L cached (copy_segments L cached ∅)) with
  | None => None
  | Some gBuf =>
      match try_each (fixup_dylib L cached) (seq 0 (length cached)) (gBuf, [], 0) with
      | None => None
      | Some (gBuf, gRebaseLocs, _) => finish_cache uuid L cached gRebaseLocs (adjust_symtab_values L cached gBuf)
      end
  end.

(** ** Displacements *)
(** The cache address of an address [a] of the segment. *)
Definition new_address (si : SegInfo) (a : Z) : Z := s_cacheVmaddr si + (a - s_origVmaddr si).

Section Patch.
Variables (ds : list DylibInfo) (d : DylibInfo) (text data : SegInfo).
Hypothesis fit : dylibs_fit ds.
Hypothesis Hd : d ∈ assigned ds.
Hypothesis Htext : nth_seg d (d_textSegIdx d) = Some text.
Hypothesis Hdata : List.find (fun si => s_region si =? 1) (d_segs d) = Some data.
Notation delta := (get_code_to_data_delta d text).

Lemma new_address_range si a : si ∈ d_segs d -> 0 <= a - s_origVmaddr si < s_vmsize si -> SHARED_REGION_BASE <= new_address si a < SHARED_REGION_BASE + 2 ^ 40.
Proof using fit Hd.
  intros Hs Ha. destruct (cached_seg ds d si Hd Hs) as (k & _ & Hk). destruct (assigned_segs_ok ds fit k si Hk) as [Hok (P1 & P2 & _ & P4 & _)]. pose proof (aligned_size_range si Hok). destruct Hok as (Hr & _).
  destruct (region_ends ds fit (s_region si) Hr) as (_ & _ & E & _). assert (Hb : SHARED_REGION_BASE <= region_base (s_region si) <= LINK_REGION_BASE) by (unfold region_base; repeat case_match; split; vm_compute; discriminate).
  assert (capacity (s_region si) <= 0x60000000) by (unfold capacity; case_match; lia). unfold new_address, SHARED_REGION_BASE, LINK_REGION_BASE in *. lia.
Qed.

(** The displacement that refers to the same byte of a segment that moves like the
    first one of DATA. *)
Lemma moved_disp si a k t : si ∈ d_segs d -> s_slide si = s_slide data -> 0 <= a - s_origVmaddr text < s_vmsize text -> 0 <= t - s_origVmaddr si < s_vmsize si -> 0 <= k < 2 ^ 31 ->
  signed 64 (wrap 64 (t - (a + k) + delta)) = new_address si t - (new_address text a + k).
Proof using fit Hd Htext Hdata.
  intros Hs Hslide Ha Ht Hk. assert (Htx : text ∈ d_segs d) by (unfold nth_seg in Htext; destruct (_ <? _); [done|by eapply list_elem_of_lookup_2]).
  pose proof (new_address_range text a Htx Ha). pose proof (new_address_range si t Hs Ht). apply signed_wrap; [lia|change (2 ^ (64 - 1)) with (2 ^ 63); unfold SHARED_REGION_BASE in *; lia|].
  unfold get_code_to_data_delta. rewrite Hdata, <- Hslide. destruct (cached_seg ds d si Hd Hs) as (i1 & _ & E1). destruct (assigned_segs_ok ds fit i1 si E1) as [_ (_ & _ & _ & _ & P1)].
  destruct (cached_seg ds d text Hd Htx) as (i2 & _ & E2). destruct (assigned_segs_ok ds fit i2 text E2) as [_ (_ & _ & _ & _ & P2)]. rewrite P1, P2. unfold new_address.
  set (x := s_cacheVmaddr si) in *. set (y := s_origVmaddr si) in *. set (u := s_cacheVmaddr text) in *. set (v := s_origVmaddr text) in *.
  assert (Hsg : forall z, exists q, signed 64 (wrap 64 z) = z + q * 2 ^ 64).
  { intros z. unfold signed. pose proof (Z.div_mod z (2 ^ 64) ltac:(lia)) as Hz. unfold wrap. destruct (_ <? _); [exists (- (z / 2 ^ 64))|exists (- (z / 2 ^ 64) - 1)]; lia. }
  assert (Hwr : forall z, exists q, wrap 64 z = z + q * 2 ^ 64) by (intros z; unfold wrap; pose proof (Z.div_mod z (2 ^ 64) ltac:(lia)); exists (- (z / 2 ^ 64)); lia).
  destruct (Hwr (x - y)) as [q1 ->]. destruct (Hwr (u - v)) as [q2 ->]. destruct (Hsg (x - y + q1 * 2 ^ 64 - (u - v + q2 * 2 ^ 64))) as [q3 ->].
  replace (_ - _) with ((q1 - q2 + q3) * 2 ^ 64) by lia. apply Z_mod_mult.
Qed.

(** ** Stubs *)
Variables (base stubSize : Z).
Hypothesis Hsize : 6 <= stubSize.
Notation entry i := (base + Z.of_nat i * stubSize).

Definition is_stub (m : mem) (a : Z) : bool := (mget m a =? 0xff) && (mget m (a + 1) =? 0x25).
Definition stub_disp (m : mem) (a : Z) : Z := signed 32 (mread m (a + 2) 4).

Lemma patch_disp_ok dl a gBuf : match patch_disp dl a gBuf with
  | Some gBuf' => only_in a 4 gBuf gBuf' /\ signed 32 (mread gBuf' a 4) = signed 64 (wrap 64 (signed 32 (mread gBuf a 4) + dl))
  | None => ~ - 2 ^ 31 <= signed 64 (wrap 64 (signed 32 (mread gBuf a 4) + dl)) < 2 ^ 31
  end.
Proof using.
  unfold patch_disp, add_disp32_checked. set (x := signed 64 _). destruct (_ || _) eqn:E; [lia|]. split; [apply (only_in_mwrite gBuf a 4)|].
  rewrite mread_mwrite. change (256 ^ Z.of_nat 4) with (2 ^ 32). apply (signed_wrap 32 x x); [lia|change (2 ^ (32 - 1)) with (2 ^ 31); lia|by rewrite Z.sub_diag].
Qed.

Lemma patch_stub_ok dl a gBuf : match patch_stub dl a gBuf with
  | Some gBuf' => only_in (a + 2) 4 gBuf gBuf' /\ (stub_disp gBuf' a = if is_stub gBuf a then signed 64 (wrap 64 (stub_disp gBuf a + dl)) else stub_disp gBuf a) /\ (is_stub gBuf a = false -> gBuf' = gBuf)
  | None => is_stub gBuf a = true /\ ~ - 2 ^ 31 <= signed 64 (wrap 64 (stub_disp gBuf a + dl)) < 2 ^ 31
  end.
Proof using.
  unfold patch_stub. fold (is_stub gBuf a). destruct (is_stub gBuf a); [|done]. unfold stub_disp. pose proof (patch_disp_ok dl (a + 2) gBuf) as H. destruct (patch_disp dl (a + 2) gBuf); [destruct H as [H1 H2]|done]. split; [exact H1|]. split; [exact H2|done].
Qed.

Lemma stub_same m m' a : (forall b, a <= b < a + 6 -> mget m' b = mget m b) -> is_stub m' a = is_stub m a /\ stub_disp m' a = stub_disp m a.
Proof using. intros H. unfold is_stub, stub_disp. rewrite !H by lia. split; [done|]. f_equal. apply mread_ext. intros b Hb. apply H. lia. Qed.

Lemma patch_entries_ok dl n : forall k gBuf, match try_each (fun i => patch_stub dl (entry i)) (seq k n) gBuf with
  | Some gBuf' =>
      (forall i, (k <= i < k + n)%nat -> stub_disp gBuf' (entry i) = if is_stub gBuf (entry i) then signed 64 (wrap 64 (stub_disp gBuf (entry i) + dl)) else stub_disp gBuf (entry i)) /\
      (forall a, (forall i, (k <= i < k + n)%nat -> is_stub gBuf (entry i) = true -> ~ entry i + 2 <= a < entry i + 6) -> mget gBuf' a = mget gBuf a)
  | None => exists i, (k <= i < k + n)%nat /\ is_stub gBuf (entry i) = true /\ ~ - 2 ^ 31 <= signed 64 (wrap 64 (stub_disp gBuf (entry i) + dl)) < 2 ^ 31
  end.
Proof using Hsize.
  induction n as [|n IH]; intros k gBuf; cbn [seq try_each]; [split; [intros; lia|done]|]. pose proof (patch_stub_ok dl (entry k) gBuf) as Hk. destruct (patch_stub dl (entry k) gBuf) as [b1|]; [|exists k; split; [lia|done]].
  destruct Hk as (K1 & K2 & K3). assert (Hs : forall i, (k < i)%nat -> is_stub b1 (entry i) = is_stub gBuf (entry i) /\ stub_disp b1 (entry i) = stub_disp gBuf (entry i)).
  { intros i Hi. apply stub_same. intros b Hb. apply K1. right. nia. }
  specialize (IH (S k) b1). destruct (try_each _ _ b1) as [b2|].
  - destruct IH as [I1 I2]. split.
    + intros i Hi. destruct (decide (i = k)) as [->|]; [rewrite <- K2; apply stub_same; intros b Hb; apply I2; intros j Hj _; nia|]. destruct (Hs i ltac:(lia)) as [E1 E2]. by rewrite I1, E1, E2 by lia.
    + intros a Ha. rewrite I2 by (intros j Hj Hjs; apply Ha; [lia|]; by rewrite <- (proj1 (Hs j ltac:(lia)))). destruct (is_stub gBuf (entry k)) eqn:Ek; [|by rewrite K3]. apply K1. specialize (Ha k ltac:(lia) Ek). lia.
  - destruct IH as (i & Hi & H1 & H2). destruct (Hs i ltac:(lia)) as [E1 E2]. rewrite E1 in H1. rewrite E2 in H2. exists i. split; [lia|done].
Qed.
End Patch.

Lemma stub_entries_at ds d text stubs delta gBuf : let m := fmem (d_mapped d) in
  let stubSize := if section_reserved2 m stubs =? 0 then 6 else section_reserved2 m stubs in
  let off := section_addr m stubs - s_origVmaddr text in
  dylibs_fit ds -> d ∈ assigned ds -> text ∈ d_segs d -> find_section_orig d (str "__TEXT") (str "__stubs") = Some stubs -> 6 <= stubSize -> 0 <= off -> off + section_size m stubs <= s_vmsize text ->
  patch_stub_entries d text delta gBuf =
    try_each (fun i => patch_stub delta (s_cacheFileOff text + off + Z.of_nat i * stubSize)) (seq 0 (Z.to_nat (section_size m stubs / stubSize))) gBuf.
Proof.
  intros m stubSize off fit Hd Hs Hf H6 Hoff Hin. destruct (segment_room ds d text fit Hd Hs) as (R1 & R2 & R3). unfold patch_stub_entries. rewrite Hf. fold m. pose proof (mread_range m (stubs + 40) 8 (fmem_wf _)) as Hr. change (mread m (stubs + 40) 8) with (section_size m stubs) in Hr.
  assert (Hss : (if negb (section_reserved2 m stubs =? 0) then section_reserved2 m stubs else 6) = stubSize) by (unfold stubSize; by destruct (_ =? 0)). rewrite Hss. set (sz := section_size m stubs) in *.
  assert (gBufSize (layout_of ds) < 2 ^ 64) by apply wrap_64_range. destruct (Z.eqb_spec sz 0) as [->|]; [by rewrite Z.div_0_l by lia|]. pose proof (Z.mul_div_le sz stubSize ltac:(lia)). pose proof (Z.div_pos sz stubSize ltac:(lia) ltac:(lia)).
  assert (sz / stubSize <= sz) by (apply Z.div_le_upper_bound; nia). unfold place_in_text. fold off. rewrite (wrap_small 64 off), (wrap_small 64 (s_cacheFileOff text + off)), (wrap_small 32 (sz / stubSize)) by lia.
  assert (Hk : forall l : list nat, (forall i, i ∈ l -> Z.of_nat i < sz / stubSize) -> forall b, try_each (fun i => patch_stub delta (s_cacheFileOff text + off + wrap 32 (Z.of_nat i * stubSize))) l b = try_each (fun i => patch_stub delta (s_cacheFileOff text + off + Z.of_nat i * stubSize)) l b).
  { induction l as [|i l IH]; intros Hl b; [done|]. cbn [try_each]. specialize (Hl i ltac:(by left)) as Hi. rewrite (wrap_small 32 (Z.of_nat i * stubSize)) by nia. destruct (patch_stub _ _ b); [|done]. apply IH. intros j Hj. apply Hl. by right. }
  apply Hk. intros i Hi. apply elem_of_seq in Hi. lia.
Qed.

(** C40. The stubs of a library in the cache. An entry [ff 25 disp32] jumps through a pointer
    that lies [disp32] bytes after its end. When all these pointers are in segments that
    move like the first DATA segment, [patch_stub_entries] either leaves every entry
    with the displacement that reaches the same pointer from the entry's place in the
    cache, and changes nothing else, or stops because a pointer is too far from its
    entry. *)
Theorem stubs_patched (ds : list DylibInfo) (d : DylibInfo) (text data : SegInfo) (stubs : Z) (gBuf : mem) :
  let m := fmem (d_mapped d) in
  let stubSize := if section_reserved2 m stubs =? 0 then 6 else section_reserved2 m stubs in
  let n := Z.to_nat (section_size m stubs / stubSize) in
  let off := section_addr m stubs - s_origVmaddr text in
  let entry i := s_cacheFileOff text + off + Z.of_nat i * stubSize in
  let address i := section_addr m stubs + Z.of_nat i * stubSize in
  let refers_to i si := 0 <= address i + 6 + stub_disp gBuf (entry i) - s_origVmaddr si < s_vmsize si in
  dylibs_fit ds -> d ∈ (assign_addresses ds).1 -> nth_seg d (d_textSegIdx d) = Some text -> List.find (fun si => s_region si =? 1) (d_segs d) = Some data ->
  find_section_orig d (str "__TEXT") (str "__stubs") = Some stubs -> 6 <= stubSize -> 0 <= off -> off + section_size m stubs <= s_vmsize text ->
  (forall i, (i < n)%nat -> is_stub gBuf (entry i) = true -> exists si, si ∈ d_segs d /\ s_slide si = s_slide data /\ refers_to i si) ->
  match patch_stub_entries d text (get_code_to_data_delta d text) gBuf with
  | Some gBuf' =>
      (forall i, (i < n)%nat -> is_stub gBuf (entry i) = true -> exists si, si ∈ d_segs d /\ refers_to i si /\
        new_address text (address i) + 6 + stub_disp gBuf' (entry i) = new_address si (address i + 6 + stub_disp gBuf (entry i))) /\
      (forall a, (forall i, (i < n)%nat -> is_stub gBuf (entry i) = true -> ~ entry i + 2 <= a < entry i + 6) -> mget gBuf' a = mget gBuf a)
  | None => exists i si, (i < n)%nat /\ is_stub gBuf (entry i) = true /\ si ∈ d_segs d /\ refers_to i si /\
      ~ - 2 ^ 31 <= new_address si (address i + 6 + stub_disp gBuf (entry i)) - (new_address text (address i) + 6) < 2 ^ 31
  end.
Proof.
  intros m stubSize n off entry address refers_to fit Hd Ht Hdata Hf H6 Hoff Hin Href. assert (Htx : text ∈ d_segs d) by (unfold nth_seg in Ht; destruct (_ <? _); [done|by eapply list_elem_of_lookup_2]).
  rewrite (stub_entries_at ds d text stubs _ gBuf fit Hd Htx Hf H6 Hoff Hin). fold m stubSize off n.
  assert (Hn : forall i, (i < n)%nat -> 0 <= Z.of_nat i * stubSize /\ Z.of_nat i * stubSize + 6 <= section_size m stubs).
  { intros i Hi. unfold n in Hi. pose proof (Z.mul_div_le (section_size m stubs) stubSize ltac:(lia)). nia. }
  assert (Hmv : forall i si, (i < n)%nat -> si ∈ d_segs d -> s_slide si = s_slide data -> refers_to i si ->
    signed 64 (wrap 64 (stub_disp gBuf (entry i) + get_code_to_data_delta d text)) = new_address si (address i + 6 + stub_disp gBuf (entry i)) - (new_address text (address i) + 6)).
  { intros i si Hi Hs Hsl Hr. specialize (Hn i Hi). rewrite <- (moved_disp ds d text data fit Hd Ht Hdata si (address i) 6 _ Hs Hsl) by (unfold address, off in *; lia || exact Hr). f_equal. f_equal. lia. }
  pose proof (patch_entries_ok (s_cacheFileOff text + off) stubSize H6 (get_code_to_data_delta d text) n 0 gBuf) as Hp. destruct (try_each _ _ gBuf) as [b|].
  - destruct Hp as [P1 P2]. split.
    + intros i Hi Hs. destruct (Href i Hi Hs) as (si & Hsi & Hsl & Hr). exists si. split; [done|]. split; [done|]. unfold entry at 1. rewrite (P1 i ltac:(lia)). fold (entry i). rewrite Hs, (Hmv i si Hi Hsi Hsl Hr). lia.
    + intros a Ha. apply P2. intros i Hi. apply Ha. lia.
  - destruct Hp as (i & Hi & Hs & Hno). destruct (Href i ltac:(lia) Hs) as (si & Hsi & Hsl & Hr). exists i, si. split; [lia|]. split; [done|]. split; [done|]. split; [done|]. by rewrite <- (Hmv i si ltac:(lia) Hsi Hsl Hr).
Qed.

(** ** The scan of the code *)

(** A displacement is taken to be one only after a ModR/M byte that says so. *)
Lemma decode_riprel_sound m sect pos sectSize imm : decode_riprel_disp32 m sect pos sectSize = Some imm -> 2 <= pos /\ is_modrm_riprel (mget m (sect + pos - 1)) = true /\ 0 <= imm <= 4.
Proof.
  unfold decode_riprel_disp32. set (r := orelse _ _). intros H.
  set (ok := fun x : bool * Z => 0 <= x.2 <= 4 /\ (x.1 = true -> 2 <= pos /\ is_modrm_riprel (mget m (sect + pos - 1)) = true)).
  assert (Gok : forall x k, ok x -> (forall i, 0 <= i <= 4 -> ok (k i)) -> ok (orelse x k)) by (intros [[] i] k Hx Hk; [exact Hx|apply Hk, Hx]).
  assert (Gif : forall (c : bool) x i, 0 <= i <= 4 -> (c = true -> ok x) -> ok (if c then x else (false, i))) by (intros [] x i Hi Hk; [by apply Hk|by split]).
  assert (Gone : forall opc b i, 2 <= pos -> 0 <= i <= 4 -> ok (is_onebyte_riprel_opcode opc (mget m (sect + pos - 1)) b pos sectSize i)).
  { intros opc b i Hp Hi. unfold is_onebyte_riprel_opcode. destruct (is_modrm_riprel _) eqn:Em; cbn [negb]; [|by split]. repeat case_match; (split; cbn; [lia|]); intros _; by split. }
  assert (Gtwo : forall i, 2 <= pos -> 0 <= i <= 4 -> ok (is_modrm_riprel (mget m (sect + pos - 1)), i)) by (intros; by split).
  assert (Hr : ok r).
  { unfold r. cbv beta. repeat first [apply Gok; [|intros ? ?]|apply Gif; [done || lia|intros ?]|apply Gone; lia|apply Gtwo; lia|lia].
    split; [done|]. intros _. split; [lia|]. assert (mget m (sect + pos - 1) = 0x15 \/ mget m (sect + pos - 1) = 0x25 \/ mget m (sect + pos - 1) = 0x35) as [->|[->| ->]] by lia; reflexivity. }
  destruct r as [[] i]; [|discriminate H]. injection H as <-. destruct Hr as [H1 H2]. destruct (H2 eq_refl). done.
Qed.

(** A displacement that the scan patches reaches the same byte of DATA from the
    instruction's place in the cache. *)
Lemma patch_position_ok ds d text data si sectOff sectSize pos imm gBuf : dylibs_fit ds -> d ∈ assigned ds -> nth_seg d (d_textSegIdx d) = Some text -> List.find (fun si => s_region si =? 1) (d_segs d) = Some data ->
  let sectBuf := s_cacheFileOff text + sectOff in let a := s_origVmaddr text + sectOff + pos in let t := a + 4 + imm + signed 32 (mread gBuf (sectBuf + pos) 4) in
  0 <= sectOff -> 0 <= pos -> sectOff + pos < s_vmsize text -> decode_riprel_disp32 gBuf sectBuf pos sectSize = Some imm ->
  si ∈ d_segs d -> s_region si = 1 -> s_slide si = s_slide data -> 0 <= t - s_origVmaddr si < s_vmsize si -> t < 2 ^ 64 -> s_origVmaddr si + s_vmsize si < 2 ^ 64 ->
  match patch_position d text (get_code_to_data_delta d text) sectOff sectSize pos gBuf with
  | Some gBuf' => only_in (sectBuf + pos) 4 gBuf gBuf' /\ new_address text a + 4 + imm + signed 32 (mread gBuf' (sectBuf + pos) 4) = new_address si t
  | None => ~ - 2 ^ 31 <= new_address si t - (new_address text a + 4 + imm) < 2 ^ 31
  end.
Proof.
  intros fit Hd Ht Hdata sectBuf a t Hso Hpos Hin Hdec Hs Hr Hsl Hts Ht64 Hse. destruct (decode_riprel_sound _ _ _ _ _ Hdec) as (_ & _ & Himm). assert (Htx : text ∈ d_segs d) by (unfold nth_seg in Ht; destruct (_ <? _); [done|by eapply list_elem_of_lookup_2]).
  destruct (segment_room ds d text fit Hd Htx) as (R1 & R2 & R3). assert (gBufSize (layout_of ds) < 2 ^ 64) by apply wrap_64_range. destruct (cached_seg ds d si Hd Hs) as (k & _ & Hk). destruct (assigned_segs_ok ds fit k si Hk) as [(_ & _ & _ & _ & Ho) _].
  unfold patch_position. rewrite (wrap_small 64 (s_cacheFileOff text + sectOff)) by lia. fold sectBuf. rewrite Hdec.
  assert (Et : s_origVmaddr text +64 sectOff +64 pos +64 4 +64 imm +64 signed 32 (mread gBuf (sectBuf + pos) 4) = t) by (rewrite (wrap_add_l 64 _ pos), (wrap_add_l 64 _ 4), (wrap_add_l 64 _ imm), wrap_add_l; apply wrap_small; fold a; fold t; lia). rewrite Et.
  assert (Ed : is_in_data_region d t = true) by (apply existsb_exists; exists si; split; [by apply list_elem_of_In|]; rewrite wrap_small by lia; lia). rewrite Ed.
  pose proof (moved_disp ds d text data fit Hd Ht Hdata si a (4 + imm) t Hs Hsl ltac:(unfold a; lia) Hts ltac:(lia)) as Hm. replace (t - (a + (4 + imm))) with (signed 32 (mread gBuf (sectBuf + pos) 4)) in Hm by (unfold t; lia).
  pose proof (patch_disp_ok (get_code_to_data_delta d text) (sectBuf + pos) gBuf) as Hp. rewrite Hm in Hp. destruct (patch_disp _ _ gBuf); [destruct Hp as [P1 P2]; split; [done|]; lia|lia].
Qed.

(** ** A library with a stub *)
Definition stub_file : list Z :=
  le_encode 4 MH_MAGIC_64 ++ le_encode 4 0x01000007 ++ le_encode 8 0 ++ le_encode 4 1 ++ le_encode 4 152 ++ le_encode 8 0 ++
  le_encode 4 LC_SEGMENT_64 ++ le_encode 4 152 ++ str "__TEXT" ++ repeat 0 10 ++ le_encode 8 0x1000 ++ le_encode 8 192 ++ le_encode 8 0 ++ le_encode 8 192 ++ le_encode 8 0 ++ le_encode 4 1 ++ le_encode 4 0 ++
  str "__stubs" ++ repeat 0 9 ++ str "__TEXT" ++ repeat 0 10 ++ le_encode 8 0x10b8 ++ le_encode 8 6 ++ le_encode 4 184 ++ le_encode 4 0 ++ le_encode 8 0 ++ le_encode 4 8 ++ le_encode 4 0 ++ le_encode 4 6 ++ le_encode 4 0 ++
  [0xff; 0x25] ++ le_encode 4 0xf42 ++ [0; 0] ++ repeat 0 16.
Definition stub_library : DylibInfo :=
  mkDylib (str "/s") stub_file 0 0 [mkSeg (str "__TEXT") 0x1000 192 0 192 0 0 0 0; mkSeg (str "__DATA") 0x2000 16 192 16 1 0 0 0] 0 (-1) 1 0.
Definition stub_cached : DylibInfo := default stub_library ((assign_addresses [stub_library]).1 !! 0%nat).
Definition stub_text : SegInfo := default (mkSeg [] 0 0 0 0 0 0 0 0) (nth_seg stub_cached 0).
Definition stub_data : SegInfo := default (mkSeg [] 0 0 0 0 0 0 0 0) (nth_seg stub_cached 1).
Definition stub_buf : mem := copy_segments (assign_addresses [stub_library]).2 (assign_addresses [stub_library]).1 ∅.

Lemma stub_fit : dylibs_fit [stub_library].
Proof.
  split.
  - assert (E : forallb seg_ok_b (all_segs [stub_library]) = true) by (vm_compute; reflexivity). intros si Hs. rewrite forallb_forall in E. specialize (E si (proj1 (list_elem_of_In _ _) Hs)). unfold seg_ok_b, seg_ok in *. lia.
  - intros r Hr. assert (r = 0 \/ r = 1 \/ r = 2) as [->|[->| ->]] by lia; vm_compute; discriminate.
  - cbn. lia.
  - intros d Hd. apply list_elem_of_singleton in Hd as ->. split; [cbn; lia|]. split; repeat constructor; discriminate.
Qed.

Lemma stub_near : match patch_stub_entries stub_cached stub_text (get_code_to_data_delta stub_cached stub_text) stub_buf with Some _ => true | None => false end = true.
Proof. vm_compute. reflexivity. Qed.

(** The stub at 0x7fff200000b8 jumps through the first word of DATA. *)
Lemma stubs_patched_witness : exists gBuf', patch_stub_entries stub_cached stub_text (get_code_to_data_delta stub_cached stub_text) stub_buf = Some gBuf' /\
  TEXT_REGION_BASE + 184 + 6 + stub_disp gBuf' 0x10b8 = DATA_REGION_BASE.
Proof.
  pose proof (stubs_patched [stub_library] stub_cached stub_text stub_data 104 stub_buf) as Hr. cbv zeta in Hr. change (d_mapped stub_cached) with stub_file in Hr.
  replace (section_reserved2 (fmem stub_file) 104) with 6 in Hr by (vm_compute; reflexivity). replace (section_size (fmem stub_file) 104) with 6 in Hr by (vm_compute; reflexivity). replace (section_addr (fmem stub_file) 104) with 0x10b8 in Hr by (vm_compute; reflexivity).
  change (6 =? 0) with false in Hr. cbv iota in Hr. change (Z.to_nat (6 / 6)) with 1%nat in Hr.
  assert (Es : is_stub stub_buf (s_cacheFileOff stub_text + (0x10b8 - s_origVmaddr stub_text) + Z.of_nat 0 * 6) = true) by (vm_compute; reflexivity).
  assert (Ed : stub_disp stub_buf (s_cacheFileOff stub_text + (0x10b8 - s_origVmaddr stub_text) + Z.of_nat 0 * 6) = 0xf42) by (vm_compute; reflexivity).
  pose proof stub_near as Hp. destruct (patch_stub_entries stub_cached stub_text (get_code_to_data_delta stub_cached stub_text) stub_buf) as [b|] eqn:Eb; [|discriminate Hp]. exists b. split; [reflexivity|].
  destruct Hr as [H1 _].
  - exact stub_fit.
  - left.
  - reflexivity.
  - reflexivity.
  - vm_compute. reflexivity.
  - lia.
  - vm_compute. discriminate.
  - vm_compute. discriminate.
  - intros i Hi _. assert (i = 0%nat) as -> by lia. exists stub_data. split; [right; left|]. split; [reflexivity|]. rewrite Ed. vm_compute. split; [discriminate|reflexivity].
  - destruct (H1 0%nat ltac:(lia) Es) as (si & Hsi & Hr & Hq). rewrite Ed in Hr, Hq. change (s_cacheFileOff stub_text + (0x10b8 - s_origVmaddr stub_text) + Z.of_nat 0 * 6) with 0x10b8 in Hq.
    change (new_address stub_text (0x10b8 + Z.of_nat 0 * 6)) with (TEXT_REGION_BASE + 184) in Hq. rewrite Hq. change (d_segs stub_cached) with [stub_text; stub_data] in Hsi. apply elem_of_cons in Hsi as [->|Hsi].
    + destruct Hr as [_ Hr]. vm_compute in Hr. discriminate Hr.
    + apply list_elem_of_singleton in Hsi as ->. vm_compute. reflexivity.
Defined.
