(* ===== verification/CacheHeaders.v ===== *)
(** * The headers of cached libraries: tools/build_shared_cache_real.c

    [rewrite_load_commands] of CachePatch.v changes the load commands in the buffer
    while it walks them. This file shows what they say afterwards. *)

From Stdlib Require Import ZArith Lia Ascii String.
From stdpp Require Import base list gmap.
From S2P Require Import Prelude MachO Words Runs DyldImage MachImage DyldKernel SlideInfo Linker ChainedFixups Opcodes CacheBuild CacheFile CacheFixups CacheBinds CacheChains CachePatch.

Open Scope Z_scope.

(** ** Sections *)

(** [a] is a byte of [addr] or of [offset] of the section header at [s]. *)
Definition moved_section (s a : Z) : Prop := s + 32 <= a < s + 40 \/ s + 48 <= a < s + 52.

Lemma rewrite_section_ok vd fd gBuf s : let gBuf' := rewrite_section vd fd gBuf s in
  section_addr gBuf' s = section_addr gBuf s +64 vd /\ section_offset gBuf' s = section_offset gBuf s +32 wrap 32 fd /\
  (forall a, ~ moved_section s a -> mget gBuf' a = mget gBuf a).
Proof.
  unfold rewrite_section, section_addr, section_offset. cbv zeta. set (v := mread gBuf (s + 32) 8 +64 vd). split_and!.
  - rewrite mread_mwrite_disjoint by lia. rewrite mread_mwrite. apply Z.mod_small, wrap_64_range.
  - rewrite mread_mwrite, (mread_mwrite_disjoint _ _ 8) by lia. apply Z.mod_small, wrap_32_range.
  - unfold moved_section. intros a Ha. rewrite !mget_mwrite_out by lia. done.
Qed.

Lemma rewrite_sections_ok vd fd cmd n : forall k gBuf, let gBuf' := fold_left (rewrite_section vd fd) (map (section_at cmd) (seq k n)) gBuf in
  (forall i, (k <= i < k + n)%nat -> section_addr gBuf' (section_at cmd i) = section_addr gBuf (section_at cmd i) +64 vd /\ section_offset gBuf' (section_at cmd i) = section_offset gBuf (section_at cmd i) +32 wrap 32 fd) /\
  (forall a, (forall i, (k <= i < k + n)%nat -> ~ moved_section (section_at cmd i) a) -> mget gBuf' a = mget gBuf a).
Proof.
  induction n as [|n IH]; intros k gBuf; cbn [seq map fold_left]; [split; [intros; lia|done]|]. destruct (rewrite_section_ok vd fd gBuf (section_at cmd k)) as (R1 & R2 & R3). set (b1 := rewrite_section _ _ _ _) in *.
  destruct (IH (S k) b1) as [I1 I2]. set (b2 := fold_left _ _ b1) in *. unfold moved_section, section_at, sizeof_segment_command_64, sizeof_section_64 in *. split.
  - intros i Hi. destruct (decide (i = k)) as [->|].
    + unfold section_addr, section_offset in *. split; [rewrite <- R1|rewrite <- R2]; apply mread_ext; intros a Ha; apply I2; intros j Hj; lia.
    + destruct (I1 i ltac:(lia)) as [-> ->]. unfold section_addr, section_offset.
      assert (Hx : forall a l, a + Z.of_nat l <= cmd + 72 + 80 * Z.of_nat k + 32 \/ cmd + 72 + 80 * Z.of_nat k + 52 <= a -> mread b1 a l = mread gBuf a l) by (intros a l Ha; apply mread_ext; intros b Hb; apply R3; lia).
      by rewrite !Hx by lia.
  - intros a Ha. rewrite I2 by (intros i Hi; apply Ha; lia). apply R3, Ha. lia.
Qed.

(** ** Commands *)

(** The file offsets that the rewrite adjusts, by command and by the place of the field in
    the structure of <mach-o/loader.h>. *)
Inductive link_offset : Z -> Z -> Prop :=
| lo_symtab_symoff : link_offset LC_SYMTAB 8
| lo_symtab_stroff : link_offset LC_SYMTAB 16
| lo_dysymtab_tocoff : link_offset LC_DYSYMTAB 32
| lo_dysymtab_modtaboff : link_offset LC_DYSYMTAB 40
| lo_dysymtab_extrefsymoff : link_offset LC_DYSYMTAB 48
| lo_dysymtab_indirectsymoff : link_offset LC_DYSYMTAB 56
| lo_dysymtab_extreloff : link_offset LC_DYSYMTAB 64
| lo_dysymtab_locreloff : link_offset LC_DYSYMTAB 72
| lo_info_rebase_off lc : lc = LC_DYLD_INFO \/ lc = LC_DYLD_INFO_ONLY -> link_offset lc 8
| lo_info_bind_off lc : lc = LC_DYLD_INFO \/ lc = LC_DYLD_INFO_ONLY -> link_offset lc 16
| lo_info_weak_bind_off lc : lc = LC_DYLD_INFO \/ lc = LC_DYLD_INFO_ONLY -> link_offset lc 24
| lo_info_lazy_bind_off lc : lc = LC_DYLD_INFO \/ lc = LC_DYLD_INFO_ONLY -> link_offset lc 32
| lo_info_export_off lc : lc = LC_DYLD_INFO \/ lc = LC_DYLD_INFO_ONLY -> link_offset lc 40
| lo_function_starts_dataoff : link_offset LC_FUNCTION_STARTS 8
| lo_data_in_code_dataoff : link_offset LC_DATA_IN_CODE 8
| lo_chained_fixups_dataoff : link_offset LC_DYLD_CHAINED_FIXUPS 8
| lo_exports_trie_dataoff : link_offset LC_DYLD_EXPORTS_TRIE 8.

(** Commands with an offset into LINKEDIT that the rewrite leaves alone. *)
Definition LC_CODE_SIGNATURE : Z := 0x1d.
Definition LC_SEGMENT_SPLIT_INFO : Z := 0x1e.

(** The command is as long as its fields need. *)
Definition command_fits (m : mem) (cmd : Z) : Prop :=
  8 <= lc_cmdsize m cmd /\ (lc_cmd m cmd = LC_SEGMENT_64 -> sizeof_segment_command_64 + sizeof_section_64 * segment_nsects m cmd <= lc_cmdsize m cmd) /\
  (forall f, link_offset (lc_cmd m cmd) f -> f + 4 <= lc_cmdsize m cmd).

(** [a] is a byte of a field that the rewrite may change: an offset above, the address or
    the file offset of a segment, or those of one of its sections. *)
Definition rewritable (m : mem) (cmd a : Z) : Prop :=
  (exists f, link_offset (lc_cmd m cmd) f /\ cmd + f <= a < cmd + f + 4) \/
  (lc_cmd m cmd = LC_SEGMENT_64 /\
   (cmd + 24 <= a < cmd + 32 \/ cmd + 40 <= a < cmd + 48 \/
    exists i, Z.of_nat i < segment_nsects m cmd /\ moved_section (section_at cmd i) a)).

Definition segment_of (d : DylibInfo) (m : mem) (cmd : Z) : option SegInfo := List.find (fun si => bool_decide (s_name si = segment_name m cmd)) (d_segs d).

(** The place in the cache of the byte at file offset [field] of the library, for an
    offset into LINKEDIT. *)
Definition new_field (d : DylibInfo) (field : Z) : Z :=
  match nth_seg d (d_linkSegIdx d) with
  | Some link => if (0 <? d_origLinkFileoff d) && negb (field =? 0) && (d_origLinkFileoff d <=? field) then wrap 32 (s_cacheFileOff link + (field - d_origLinkFileoff d)) else field
  | None => field
  end.

(** What the command at [cmd] says in [m'] when it has been rewritten from [m]. *)
Record rewritten (d : DylibInfo) (m m' : mem) (cmd : Z) : Prop := {
  rw_cmd : lc_cmd m' cmd = lc_cmd m cmd;
  rw_cmdsize : lc_cmdsize m' cmd = lc_cmdsize m cmd;
  rw_segment : lc_cmd m cmd = LC_SEGMENT_64 -> segment_name m' cmd = segment_name m cmd /\ seg_vmsize m' cmd = seg_vmsize m cmd /\ seg_filesize m' cmd = seg_filesize m cmd /\ segment_nsects m' cmd = segment_nsects m cmd /\
    match segment_of d m cmd with
    | Some si => seg_vmaddr m' cmd = s_cacheVmaddr si /\ seg_fileoff m' cmd = s_cacheFileOff si /\
        forall i, Z.of_nat i < segment_nsects m cmd -> let s := section_at cmd i in
          section_addr m' s = section_addr m s +64 (s_cacheVmaddr si - s_origVmaddr si) /\ section_offset m' s = section_offset m s +32 (s_cacheFileOff si - s_origFileoff si)
    | None => forall a, cmd <= a < cmd + lc_cmdsize m cmd -> mget m' a = mget m a
    end;
  rw_fields : forall f, link_offset (lc_cmd m cmd) f -> mread m' (cmd + f) 4 = new_field d (mread m (cmd + f) 4);
  rw_rest : forall a, cmd <= a < cmd + lc_cmdsize m cmd -> ~ rewritable m cmd a -> mget m' a = mget m a;
  rw_left : lc_cmd m cmd = LC_CODE_SIGNATURE \/ lc_cmd m cmd = LC_SEGMENT_SPLIT_INFO ->
    forall a, cmd <= a < cmd + lc_cmdsize m cmd -> mget m' a = mget m a }.

Lemma cstr_upto_ext m m' n : forall a, (forall b, a <= b < a + Z.of_nat n -> mget m' b = mget m b) -> cstr_upto n m' a = cstr_upto n m a.
Proof. induction n as [|n IH]; intros a H; [done|]. cbn [cstr_upto]. rewrite H by lia. destruct (_ =? 0); [done|]. f_equal. apply IH. intros b Hb. apply H. lia. Qed.

Lemma linkedit_fields_range lc f : f ∈ linkedit_fields lc -> 8 <= f <= 72.
Proof. unfold linkedit_fields. repeat case_match; rewrite ?elem_of_cons, ?elem_of_nil; intros Hf; intuition lia. Qed.

Lemma link_offset_fields lc f : link_offset lc f <-> f ∈ linkedit_fields lc.
Proof.
  split.
  - destruct 1 as [| | | | | | | |lc [-> | ->]|lc [-> | ->]|lc [-> | ->]|lc [-> | ->]|lc [-> | ->]| | | |]; apply list_elem_of_In; cbn; tauto.
  - unfold linkedit_fields. destruct (Z.eqb_spec lc LC_SYMTAB) as [->|]; [rewrite !elem_of_cons, elem_of_nil; intros [->|[->|[]]]; constructor|].
    destruct (Z.eqb_spec lc LC_DYSYMTAB) as [->|]; [rewrite !elem_of_cons, elem_of_nil; intros Hf; repeat destruct Hf as [->|Hf]; [constructor..|done]|].
    destruct (Z.eqb_spec lc LC_DYLD_INFO), (Z.eqb_spec lc LC_DYLD_INFO_ONLY); cbn [orb];
      try (rewrite !elem_of_cons, elem_of_nil; intros Hf; repeat destruct Hf as [->|Hf]; [constructor; tauto..|done]).
    destruct (Z.eqb_spec lc LC_FUNCTION_STARTS), (Z.eqb_spec lc LC_DATA_IN_CODE), (Z.eqb_spec lc LC_DYLD_CHAINED_FIXUPS), (Z.eqb_spec lc LC_DYLD_EXPORTS_TRIE); subst; cbn [orb];
      rewrite ?elem_of_cons, elem_of_nil; try done; intros [->|[]];
      first [apply lo_function_starts_dataoff|apply lo_data_in_code_dataoff|apply lo_chained_fixups_dataoff|apply lo_exports_trie_dataoff].
Qed.

Lemma segment_no_fields : linkedit_fields LC_SEGMENT_64 = [].
Proof. reflexivity. Qed.

Lemma segment_no_offset f : ~ link_offset LC_SEGMENT_64 f.
Proof. rewrite link_offset_fields, segment_no_fields. apply not_elem_of_nil. Qed.

(** The two commands that are left alone have no byte to rewrite. *)
Lemma left_not_rewritable m cmd a : lc_cmd m cmd = LC_CODE_SIGNATURE \/ lc_cmd m cmd = LC_SEGMENT_SPLIT_INFO -> ~ rewritable m cmd a.
Proof.
  intros Hc [(f & Hf & _)|[Hs _]]; [|rewrite Hs in Hc; by destruct Hc].
  apply link_offset_fields in Hf. destruct Hc as [E|E]; rewrite E in Hf; by apply elem_of_nil in Hf.
Qed.

Lemma adjust_fields_ok orig new l : apart l -> forall gBuf, let gBuf' := fold_left (adjust_field orig new) l gBuf in
  (forall a, a ∈ l -> mread gBuf' a 4 = let field := mread gBuf a 4 in if negb (field =? 0) && (orig <=? field) then wrap 32 (new + (field - orig)) else field) /\
  (forall b, (forall a, a ∈ l -> ~ a <= b < a + 4) -> mget gBuf' b = mget gBuf b).
Proof.
  induction l as [|a l IH]; intros Ha gBuf; cbn [fold_left]; [split; [intros a H; by apply elem_of_nil in H|done]|]. apply apart_cons in Ha as [Ha Hax]. set (b1 := adjust_field orig new gBuf a).
  assert (H1 : only_in a 4 gBuf b1 /\ mread b1 a 4 = let field := mread gBuf a 4 in if negb (field =? 0) && (orig <=? field) then wrap 32 (new + (field - orig)) else field).
  { unfold b1, adjust_field. destruct (_ && _); [|done]. split; [apply (only_in_mwrite gBuf a 4)|]. rewrite mread_mwrite. unfold wrap. change (256 ^ Z.of_nat 4) with (2 ^ 32). symmetry. apply Znumtheory.Zmod_div_mod; [lia|lia|by exists (2 ^ 32)]. }
  destruct H1 as [H1 H2]. destruct (IH Ha b1) as [I1 I2]. split.
  - intros c [->|Hc]%elem_of_cons.
    + etransitivity; [|exact H2]. apply mread_ext. intros b Hb. apply I2. intros y Hy. specialize (Hax y Hy). lia.
    + rewrite (I1 c Hc). by rewrite (mread_only_in _ _ _ _ _ _ H1) by (specialize (Hax c Hc); lia).
  - intros b Hb. rewrite I2 by (intros y Hy; apply Hb; by right). apply H1. specialize (Hb a ltac:(by left)). lia.
Qed.

Lemma linkedit_fields_apart cmd lc : apart (map (Z.add cmd) (linkedit_fields lc)).
Proof.
  assert (Hs : forall l : list Z, (forall i a b, l !! i = Some a -> l !! S i = Some b -> a + 8 <= b) -> forall j i a b, (i < j)%nat -> l !! i = Some a -> l !! j = Some b -> a + 8 <= b).
  { intros l Hl. induction j as [|j IH]; intros i a b Hij Ha Hb; [lia|]. destruct (decide (i = j)) as [->|]; [by apply (Hl j)|]. destruct (lookup_lt_is_Some_2 l j) as [c Hc]; [apply lookup_lt_Some in Hb; lia|].
    specialize (IH i a c ltac:(lia) Ha Hc). specialize (Hl j c b Hc Hb). lia. }
  assert (Hf : forall i a b, linkedit_fields lc !! i = Some a -> linkedit_fields lc !! S i = Some b -> a + 8 <= b).
  { intros i a b. unfold linkedit_fields. repeat case_match; do 7 (destruct i as [|i]; [cbn; intros; simplify_eq; lia|]); cbn; intros; simplify_eq. }
  intros i j a b Ha Hb Hij. change (map (Z.add cmd) (linkedit_fields lc)) with (Z.add cmd <$> linkedit_fields lc) in *. rewrite list_lookup_fmap in Ha, Hb. apply fmap_Some in Ha as (x & Hx & ->). apply fmap_Some in Hb as (y & Hy & ->).
  destruct (Nat.lt_ge_cases i j); [pose proof (Hs _ Hf j i x y ltac:(lia) Hx Hy)|pose proof (Hs _ Hf i j y x ltac:(lia) Hy Hx)]; lia.
Qed.

Section Command.
Variable d : DylibInfo.
Hypothesis Hsegs : forall si, si ∈ d_segs d -> 0 <= s_cacheVmaddr si < 2 ^ 64 /\ 0 <= s_cacheFileOff si < 2 ^ 64.

Lemma rewrite_segment_ok cmd gBuf : mem_wf gBuf -> lc_cmd gBuf cmd = LC_SEGMENT_64 -> command_fits gBuf cmd ->
  rewritten d gBuf (rewrite_segment d cmd gBuf) cmd /\ only_in (cmd + 8) (lc_cmdsize gBuf cmd - 8) gBuf (rewrite_segment d cmd gBuf).
Proof using Hsegs.
  intros Hw Hc (H8 & Hseg & _). specialize (Hseg Hc). unfold rewrite_segment. rewrite Hc. change (LC_SEGMENT_64 =? LC_SEGMENT_64) with true. fold (segment_of d gBuf cmd).
  pose proof (mread_range gBuf (cmd + 64) 4 Hw) as Hn. change (mread gBuf (cmd + 64) 4) with (segment_nsects gBuf cmd) in Hn. unfold sizeof_segment_command_64, sizeof_section_64 in Hseg.
  destruct (segment_of d gBuf cmd) as [si|] eqn:Esi; [|split; [|done]; split; try done; [intros _; rewrite Esi; by split_and!|intros f Hf; rewrite Hc in Hf; by apply segment_no_offset in Hf]].
  assert (Hsi : si ∈ d_segs d) by (apply find_some in Esi as [Hin _]; by apply list_elem_of_In). destruct (Hsegs si Hsi) as [Hv Ho]. set (b1 := mwrite gBuf (cmd + 24) 8 (s_cacheVmaddr si)). set (b2 := mwrite b1 (cmd + 40) 8 (s_cacheFileOff si)).
  assert (Hb : forall a, ~ cmd + 24 <= a < cmd + 32 -> ~ cmd + 40 <= a < cmd + 48 -> mget b2 a = mget gBuf a) by (intros a ? ?; unfold b2, b1; by rewrite !mget_mwrite_out by lia).
  assert (Hr : forall a k, (a + Z.of_nat k <= cmd + 24 \/ (cmd + 32 <= a /\ a + Z.of_nat k <= cmd + 40) \/ cmd + 48 <= a) -> mread b2 a k = mread gBuf a k) by (intros a k Ha; apply mread_ext; intros b ?; apply Hb; lia).
  assert (En : segment_nsects b2 cmd = segment_nsects gBuf cmd) by (apply Hr; lia). rewrite En. set (vd := s_cacheVmaddr si -64 s_origVmaddr si). set (fd := s_cacheFileOff si -64 s_origFileoff si).
  destruct (rewrite_sections_ok vd fd cmd (Z.to_nat (segment_nsects gBuf cmd)) 0 b2) as [S1 S3]. set (b3 := fold_left _ _ b2) in *.
  assert (S2 : forall a, a < cmd + 72 \/ cmd + 72 + 80 * segment_nsects gBuf cmd <= a -> mget b3 a = mget b2 a) by (intros a Ha; apply S3; intros i Hi; unfold moved_section, section_at, sizeof_segment_command_64, sizeof_section_64; lia).
  assert (Hr3 : forall a k, a + Z.of_nat k <= cmd + 72 -> mread b3 a k = mread b2 a k) by (intros a k Ha; apply mread_ext; intros b ?; apply S2; lia). split; [split|].
  - unfold lc_cmd. rewrite Hr3, Hr by lia. done.
  - unfold lc_cmdsize. rewrite Hr3, Hr by lia. done.
  - intros _. rewrite Esi. unfold segment_name, seg_vmsize, seg_filesize, segment_nsects, seg_vmaddr, seg_fileoff. rewrite !Hr3 by lia. split; [apply cstr_upto_ext; intros b ?; rewrite S2 by lia; apply Hb; lia|].
    rewrite !(Hr (cmd + 32)), !(Hr (cmd + 48)), !(Hr (cmd + 64)) by lia. split_and!; try done.
    + unfold b2. rewrite mread_mwrite_disjoint by lia. unfold b1. rewrite mread_mwrite. by apply Z.mod_small.
    + unfold b2. rewrite mread_mwrite. by apply Z.mod_small.
    + intros i Hi. destruct (S1 i) as [A1 A2]; [unfold segment_nsects in *; lia|]. rewrite A1, A2. unfold section_addr, section_offset. rewrite !Hr by (unfold section_at, sizeof_segment_command_64, sizeof_section_64; lia). unfold vd, fd. rewrite wrap_add_r. split; [done|].
      rewrite !wrap_add_r. unfold wrap at 1 3. rewrite <- Zplus_mod_idemp_r. unfold wrap. rewrite <- (Znumtheory.Zmod_div_mod (2 ^ 32) (2 ^ 64)) by (lia || by exists (2 ^ 32)). by rewrite Zplus_mod_idemp_r.
  - intros f Hf. rewrite Hc in Hf. by apply segment_no_offset in Hf.
  - intros a Ha Hnr. rewrite S3 by (intros i Hi Hm; apply Hnr; right; split; [done|]; right; right; exists i; split; [lia|done]).
    apply Hb; intros ?; apply Hnr; right; tauto.
  - rewrite Hc. by intros [?|?].
  - intros a Ha. rewrite S2 by lia. apply Hb; lia.
Qed.

Lemma rewrite_command_ok cmd gBuf : mem_wf gBuf -> command_fits gBuf cmd ->
  rewritten d gBuf (rewrite_command d cmd gBuf) cmd /\ only_in (cmd + 8) (lc_cmdsize gBuf cmd - 8) gBuf (rewrite_command d cmd gBuf).
Proof using Hsegs.
  intros Hw Hfit. unfold rewrite_command. destruct (Z.eqb_spec (lc_cmd gBuf cmd) LC_SEGMENT_64) as [Hc|Hc].
  - destruct (rewrite_segment_ok cmd gBuf Hw Hc Hfit) as [R1 R2]. rewrite (rw_cmd _ _ _ _ R1), Hc, segment_no_fields. cbn [map fold_left]. by repeat case_match.
  - assert (E : rewrite_segment d cmd gBuf = gBuf) by (unfold rewrite_segment; by destruct (Z.eqb_spec (lc_cmd gBuf cmd) LC_SEGMENT_64)). rewrite E. clear E. destruct Hfit as (H8 & _ & Hf).
    assert (Hf' : forall f, f ∈ linkedit_fields (lc_cmd gBuf cmd) -> f + 4 <= lc_cmdsize gBuf cmd) by (intros f Hx; by apply Hf, link_offset_fields).
    assert (Hsame : (forall f, link_offset (lc_cmd gBuf cmd) f -> mread gBuf (cmd + f) 4 = new_field d (mread gBuf (cmd + f) 4)) -> rewritten d gBuf gBuf cmd) by (intros Hn; by split).
    unfold new_field in *. destruct (nth_seg d (d_linkSegIdx d)) as [link|] eqn:El; [|split; [by apply Hsame|done]]. destruct (Z.ltb_spec 0 (d_origLinkFileoff d)); [|split; [by apply Hsame|done]]. clear Hsame.
    destruct (adjust_fields_ok (d_origLinkFileoff d) (s_cacheFileOff link) _ (linkedit_fields_apart cmd (lc_cmd gBuf cmd)) gBuf) as [A1 A2]. set (b := fold_left _ _ gBuf) in *.
    assert (Hin : forall x, x ∈ map (Z.add cmd) (linkedit_fields (lc_cmd gBuf cmd)) -> cmd + 8 <= x /\ x + 4 <= cmd + lc_cmdsize gBuf cmd).
    { intros x (f & -> & Hx)%list_elem_of_fmap. pose proof (linkedit_fields_range _ _ Hx). specialize (Hf' f Hx). lia. }
    assert (Hout : only_in (cmd + 8) (lc_cmdsize gBuf cmd - 8) gBuf b) by (intros a Ha; apply A2; intros x Hx; specialize (Hin x Hx); lia). split; [|exact Hout]. split.
    + apply (mread_only_in _ _ _ _ _ _ Hout). lia.
    + apply (mread_only_in _ _ _ _ _ _ Hout). lia.
    + done.
    + intros f Hx. rewrite A1 by (by apply list_elem_of_fmap_2, link_offset_fields). unfold new_field. rewrite El. destruct (Z.ltb_spec 0 (d_origLinkFileoff d)); [done|lia].
    + intros a Ha Hn. apply A2. intros x (f & -> & Hx)%list_elem_of_fmap Hxa. apply Hn. left. exists f. split; [by apply link_offset_fields|done].
    + intros Hl a Ha. apply A2. intros x (f & -> & Hx)%list_elem_of_fmap Hxa. apply (left_not_rewritable gBuf cmd a Hl). left. exists f. split; [by apply link_offset_fields|done].
Qed.

(** ** Headers *)
Fixpoint commands_fit (m : mem) (n : nat) (cmd cmdEnd : Z) : Prop :=
  match n with
  | O => cmd <= cmdEnd
  | S n => command_fits m cmd /\ cmd + lc_cmdsize m cmd <= cmdEnd /\ commands_fit m n (cmd + lc_cmdsize m cmd) cmdEnd
  end.

Definition same_from (m m' : mem) (a : Z) : Prop := forall b, a <= b -> mget m' b = mget m b.

Lemma same_from_read m m' a b k : same_from m m' a -> a <= b -> mread m' b k = mread m b k.
Proof using. intros H Hb. apply mread_ext. intros c Hc. apply H. lia. Qed.

Lemma command_fits_same m m' cmd : same_from m m' cmd -> command_fits m cmd -> command_fits m' cmd.
Proof using. intros H. unfold command_fits, lc_cmd, lc_cmdsize, segment_nsects. by rewrite !(same_from_read m m' cmd) by (done || lia). Qed.

Lemma commands_fit_same m m' n cmdEnd : forall cmd, same_from m m' cmd -> commands_fit m n cmd cmdEnd -> commands_fit m' n cmd cmdEnd /\ commands_from m' cmd n = commands_from m cmd n.
Proof using.
  induction n as [|n IH]; intros cmd H Hf; [done|]. destruct Hf as (H1 & H2 & H3). pose proof H1 as (H8 & _). cbn [commands_fit commands_from]. assert (E : lc_cmdsize m' cmd = lc_cmdsize m cmd) by (apply (same_from_read m m' cmd); [done|lia]). rewrite E.
  destruct (IH (cmd + lc_cmdsize m cmd)) as [I1 I2]; [intros b Hb; apply H; lia|done|]. rewrite I2. split; [|done]. split; [by eapply command_fits_same|done].
Qed.

Lemma commands_fit_in m n cmdEnd c : forall cmd, commands_fit m n cmd cmdEnd -> c ∈ commands_from m cmd n -> cmd <= c /\ command_fits m c /\ c + lc_cmdsize m c <= cmdEnd.
Proof using.
  induction n as [|n IH]; intros cmd Hf Hc; cbn [commands_from] in Hc; [by apply elem_of_nil in Hc|]. destruct Hf as (H1 & H2 & H3). pose proof H1 as (H8 & _). apply elem_of_cons in Hc as [->|Hc]; [split; [lia|done]|].
  destruct (IH _ H3 Hc) as (I1 & I2). split; [lia|done].
Qed.
End Command.

Lemma rewritten_same d m1 m2 m1' m2' cmd : mem_wf m1 -> command_fits m1 cmd -> same_data m1 m2 cmd (lc_cmdsize m1 cmd) -> same_data m1' m2' cmd (lc_cmdsize m1 cmd) -> rewritten d m1 m1' cmd -> rewritten d m2 m2' cmd.
Proof.
  intros Hw (H8 & Hseg & Hf) S S' R. set (n := lc_cmdsize m1 cmd) in *. assert (Q : forall a k, cmd <= a -> a + Z.of_nat k <= cmd + n -> mread m2 a k = mread m1 a k) by (intros; by apply (same_data_read m1 m2 cmd n)).
  assert (Q' : forall a k, cmd <= a -> a + Z.of_nat k <= cmd + n -> mread m2' a k = mread m1' a k) by (intros; by apply (same_data_read m1' m2' cmd n)).
  assert (E1 : lc_cmd m2 cmd = lc_cmd m1 cmd) by (apply Q; lia). assert (E2 : lc_cmd m2' cmd = lc_cmd m1' cmd) by (apply Q'; lia). destruct R as [R1 R2 R3 R4 R5 R6].
  assert (En : lc_cmdsize m2 cmd = n) by (apply Q; lia). split.
  - by rewrite E1, E2.
  - unfold lc_cmdsize. rewrite Q, Q' by lia. exact R2.
  - rewrite E1. intros Hc. specialize (Hseg Hc). unfold sizeof_segment_command_64, sizeof_section_64 in Hseg. destruct (R3 Hc) as (A1 & A2 & A3 & A4 & A5).
    pose proof (mread_range m1 (cmd + 64) 4 Hw) as Hpos. change (mread m1 (cmd + 64) 4) with (segment_nsects m1 cmd) in Hpos.
    assert (N1 : segment_name m2 cmd = segment_name m1 cmd) by (apply cstr_upto_ext; intros b ?; apply S; lia). assert (N2 : segment_name m2' cmd = segment_name m1' cmd) by (apply cstr_upto_ext; intros b ?; apply S'; lia).
    unfold segment_of in *. rewrite N1, N2. assert (E5 : segment_nsects m2 cmd = segment_nsects m1 cmd) by (apply Q; lia). rewrite E5. unfold seg_vmsize, seg_filesize, segment_nsects, seg_vmaddr, seg_fileoff in *. rewrite !Q, !Q' by lia. do 4 (split; [done|]).
    destruct (List.find _ (d_segs d)) as [si|]; [|rewrite En; intros a Ha; rewrite S, S' by lia; by apply A5]. destruct A5 as (B1 & B2 & B3). do 2 (split; [done|]). intros i Hi. specialize (B3 i Hi). unfold section_addr, section_offset in *.
    rewrite !Q, !Q' by (unfold section_at, sizeof_segment_command_64, sizeof_section_64; lia). exact B3.
  - rewrite E1. intros f Hx. specialize (Hf f Hx). pose proof (linkedit_fields_range _ _ (proj1 (link_offset_fields _ _) Hx)). rewrite Q, Q' by lia. by apply R4.
  - rewrite En. intros a Ha Hn. rewrite S, S' by lia. apply R5; [done|]. intros Hr. apply Hn. revert Hr. unfold rewritable. rewrite E1. intros [?|[Hc Hr]]; [by left|]. right. split; [done|].
    assert (E5 : segment_nsects m2 cmd = segment_nsects m1 cmd); [|by rewrite E5]. specialize (Hseg Hc). unfold sizeof_segment_command_64, sizeof_section_64 in Hseg.
    pose proof (mread_range m1 (cmd + 64) 4 Hw) as Hpos. change (mread m1 (cmd + 64) 4) with (segment_nsects m1 cmd) in Hpos. apply Q; lia.
  - rewrite E1, En. intros Hl a Ha. rewrite S, S' by lia. by apply R6.
Qed.

Lemma rewrite_command_wf d cmd gBuf : mem_wf gBuf -> mem_wf (rewrite_command d cmd gBuf).
Proof.
  intros Hw. assert (Hs : forall vd fd l b, mem_wf b -> mem_wf (fold_left (rewrite_section vd fd) l b)).
  { intros vd fd. induction l as [|x l IH]; intros b Hb; [done|]. by apply IH, mem_wf_mwrite, mem_wf_mwrite. }
  assert (Hl : forall o n l b, mem_wf b -> mem_wf (fold_left (adjust_field o n) l b)).
  { intros o n. induction l as [|x l IH]; intros b Hb; [done|]. apply IH. unfold adjust_field. destruct (_ && _); [by apply mem_wf_mwrite|done]. }
  assert (Hg : mem_wf (rewrite_segment d cmd gBuf)) by (unfold rewrite_segment; destruct (_ =? _); [|done]; destruct (List.find _ _); [|done]; by apply Hs, mem_wf_mwrite, mem_wf_mwrite).
  unfold rewrite_command. destruct (nth_seg _ _); [|done]. destruct (_ <? _); [by apply Hl|done].
Qed.

Lemma rewrite_from_ok d cmdEnd : (forall si, si ∈ d_segs d -> 0 <= s_cacheVmaddr si < 2 ^ 64 /\ 0 <= s_cacheFileOff si < 2 ^ 64) ->
  forall n cmd gBuf, mem_wf gBuf -> commands_fit gBuf n cmd cmdEnd -> let gBuf' := rewrite_from d n cmd cmdEnd gBuf in
  mem_wf gBuf' /\ commands_from gBuf' cmd n = commands_from gBuf cmd n /\ (forall c, c ∈ commands_from gBuf cmd n -> rewritten d gBuf gBuf' c) /\ (forall a, a < cmd \/ cmdEnd <= a -> mget gBuf' a = mget gBuf a).
Proof.
  intros Hsegs. induction n as [|n IH]; intros cmd gBuf Hw Hf; [split; [done|]; split; [done|]; split; [|done]; intros c Hc; by apply elem_of_nil in Hc|]. pose proof Hf as (H1 & H2 & H3). pose proof H1 as (H8 & _). cbn [rewrite_from].
  destruct (Z.ltb_spec cmdEnd (cmd + 8)); [lia|]. destruct (Z.eqb_spec (lc_cmdsize gBuf cmd) 0); [lia|]. destruct (Z.ltb_spec cmdEnd (cmd + lc_cmdsize gBuf cmd)); [lia|]. cbn [orb]. destruct (rewrite_command_ok d Hsegs cmd gBuf Hw H1) as [R1 R2].
  pose proof (rewrite_command_wf d cmd gBuf Hw) as Hw1. set (b1 := rewrite_command d cmd gBuf) in *. rewrite (rw_cmdsize _ _ _ _ R1). set (next := cmd + lc_cmdsize gBuf cmd) in *. assert (Hs : same_from gBuf b1 next) by (intros b Hb; apply R2; lia).
  destruct (commands_fit_same gBuf b1 n cmdEnd next Hs H3) as [F1 F2]. destruct (IH next b1 Hw1 F1) as (I0 & I1 & I2 & I3). set (b2 := rewrite_from d n next cmdEnd b1) in *.
  assert (Rc : rewritten d gBuf b2 cmd) by (apply (rewritten_same d gBuf gBuf b1 b2 cmd Hw H1); [done|intros a Ha; apply I3; lia|done]). split; [done|]. split; [|split].
  - cbn [commands_from]. rewrite (rw_cmdsize _ _ _ _ Rc). fold next. by rewrite I1, F2.
  - intros c Hc. cbn [commands_from] in Hc. apply elem_of_cons in Hc as [->|Hc]; [exact Rc|]. fold next in Hc. rewrite <- F2 in Hc. destruct (commands_fit_in b1 n cmdEnd c next F1 Hc) as (C1 & C2 & _).
    apply (rewritten_same d b1 gBuf b2 b2 c Hw1 C2); [intros a Ha; symmetry; apply Hs; lia|done|by apply I2].
  - intros a Ha. rewrite I3 by lia. apply R2. lia.
Qed.

(** C39. The load commands of a cached library. When the header that was copied into the
    buffer has load commands that fit, the rewritten header has the same commands in
    the same places: a segment command gives the cache address and the file offset of
    its segment, its sections move with it, and the offsets into LINKEDIT of the symbol
    tables, the dyld information, the function starts, the data in code, the chained
    fixups and the exports trie are those of the copy. No other byte changes, inside the
    load commands or outside; in particular the offsets of LC_CODE_SIGNATURE and
    LC_SEGMENT_SPLIT_INFO, which also lie in LINKEDIT, keep their old values. *)
Theorem header_rewritten (ds : list DylibInfo) (d : DylibInfo) (text : SegInfo) (gBuf : mem) :
  let L := (assign_addresses ds).2 in
  let mh := s_cacheFileOff text in
  let n := Z.to_nat (mh_ncmds gBuf mh) in
  let cmdEnd := mh + sizeof_mach_header_64 + mh_sizeofcmds gBuf mh in
  dylibs_fit ds -> d ∈ (assign_addresses ds).1 -> nth_seg d (d_textSegIdx d) = Some text -> mem_wf gBuf -> mh_magic gBuf mh = MH_MAGIC_64 ->
  sizeof_mach_header_64 + mh_sizeofcmds gBuf mh <= s_filesize text -> commands_fit gBuf n (mh + sizeof_mach_header_64) cmdEnd ->
  let gBuf' := rewrite_dylib L gBuf d in
  commands gBuf' mh = commands gBuf mh /\ (forall cmd, cmd ∈ commands gBuf mh -> rewritten d gBuf gBuf' cmd) /\
  (forall a, a < mh + sizeof_mach_header_64 \/ cmdEnd <= a -> mget gBuf' a = mget gBuf a) /\ mem_wf gBuf'.
Proof.
  intros L mh n cmdEnd fit Hd Ht Hw Hm Hsz Hf gBuf'. assert (Htx : text ∈ d_segs d) by (unfold nth_seg in Ht; destruct (_ <? _); [done|by eapply list_elem_of_lookup_2]).
  destruct (segment_room ds d text fit Hd Htx) as (R1 & R2 & R3). assert (Hb : gBufSize L < 2 ^ 64) by apply wrap_64_range.
  destruct (cached_seg ds d text Hd Htx) as (k & _ & Hk). destruct (assigned_segs_ok ds fit k text Hk) as [(_ & _ & Hfs & _) _]. pose proof (mread_range gBuf (mh + 20) 4 Hw) as Hc. change (mread gBuf (mh + 20) 4) with (mh_sizeofcmds gBuf mh) in Hc.
  assert (E : gBuf' = rewrite_from d n (mh + sizeof_mach_header_64) cmdEnd gBuf).
  { unfold gBuf', rewrite_dylib. rewrite Ht. fold mh. unfold sizeof_mach_header_64 in *. change (layout_of ds) with L in R2. fold mh in R1, R2. rewrite wrap_small by lia. destruct (Z.ltb_spec (gBufSize L) (mh + 32)); [lia|]. rewrite Hm. change (MH_MAGIC_64 =? MH_MAGIC_64) with true. cbn [negb].
    destruct (Z.ltb_spec (s_filesize text) (32 + mh_sizeofcmds gBuf mh)); [lia|done]. }
  destruct (rewrite_from_ok d cmdEnd) with (n := n) (cmd := mh + sizeof_mach_header_64) (gBuf := gBuf) as (W & C & R & O); [|done|done|].
  - intros si Hs. destruct (segment_room ds d si fit Hd Hs) as (Q1 & Q2 & _). destruct (cached_seg ds d si Hd Hs) as (j & _ & Hj). destruct (assigned_segs_ok ds fit j si Hj) as [Hok (P1 & P2 & _ & P4 & _)]. pose proof (aligned_size_range si Hok). destruct Hok as (Hr & Hv & _).
    destruct (region_ends ds fit (s_region si) Hr) as (_ & _ & E3 & _). assert (Hbase : SHARED_REGION_BASE <= region_base (s_region si) <= LINK_REGION_BASE) by (unfold region_base; repeat case_match; split; vm_compute; discriminate).
    assert (capacity (s_region si) <= 0x60000000) by (unfold capacity; case_match; lia). change (layout_of ds) with L in *. unfold SHARED_REGION_BASE, LINK_REGION_BASE in *. lia.
  - rewrite <- E in *. unfold commands. assert (Hn : mh_ncmds gBuf' mh = mh_ncmds gBuf mh) by (apply mread_ext; intros a Ha; apply O; unfold sizeof_mach_header_64; lia). rewrite Hn. by fold n.
Qed.

(** The header of the library with a stub. *)
Lemma header_rewritten_witness : let gBuf' := rewrite_dylib (assign_addresses [stub_library]).2 stub_buf stub_cached in
  seg_vmaddr gBuf' 0x1020 = TEXT_REGION_BASE /\ seg_fileoff gBuf' 0x1020 = 0x1000 /\ section_addr gBuf' (section_at 0x1020 0) = TEXT_REGION_BASE + 184.
Proof.
  pose proof (header_rewritten [stub_library] stub_cached stub_text stub_buf) as Hr. cbv zeta in Hr. change (s_cacheFileOff stub_text) with 0x1000 in Hr. replace (mh_ncmds stub_buf 0x1000) with 1 in Hr by (vm_compute; reflexivity).
  replace (mh_sizeofcmds stub_buf 0x1000) with 152 in Hr by (vm_compute; reflexivity). replace (commands stub_buf 0x1000) with [0x1020] in Hr by (vm_compute; reflexivity).
  destruct Hr as (_ & R & _).
  - exact stub_fit.
  - left.
  - reflexivity.
  - apply copy_segments_wf, mem_wf_empty.
  - vm_compute. reflexivity.
  - vm_compute. discriminate.
  - split; [|split; vm_compute; discriminate]. split; [vm_compute; discriminate|]. split; [intros _; vm_compute; discriminate|]. intros f Hf. replace (lc_cmd stub_buf (0x1000 + sizeof_mach_header_64)) with LC_SEGMENT_64 in Hf by (vm_compute; reflexivity). by apply segment_no_offset in Hf.
  - cbv zeta. set (b := rewrite_dylib _ _ _) in *. clearbody b. destruct (rw_segment _ _ _ _ (R 0x1020 ltac:(left))) as (_ & _ & _ & _ & H); [vm_compute; reflexivity|]. replace (segment_of stub_cached stub_buf 0x1020) with (Some stub_text) in H by (vm_compute; reflexivity).
    destruct H as (H1 & H2 & H3). rewrite H1, H2. split; [vm_compute; reflexivity|]. split; [vm_compute; reflexivity|]. destruct (H3 0%nat) as [H4 _]; [vm_compute; reflexivity|]. rewrite H4. vm_compute. reflexivity.
Defined.
