(* ===== verification/SharedCache.v ===== *)
(** * Mapping the shared cache: userland/dyld/panthera_dyld.cpp

    [initSharedCache] opens the cache file, checks its header and maps its regions,
    by the kernel's shared region or by [mmap]. *)

From Stdlib Require Import ZArith Lia Ascii String.
From stdpp Require Import base list gmap.
From S2P Require Import Prelude MachO Words Runs DyldImage SymbolIndex MachImage SlideInfo Linker Dyld.

Open Scope Z_scope.

Definition CACHE_PATH_PRIMARY : list Z := str "/System/Library/dyld/dyld_shared_cache_x86_64".
Definition CACHE_PATH_FALLBACK : list Z := str "/var/db/dyld/dyld_shared_cache_x86_64".

(** ** The structures of the file *)
Definition sizeof_PantheraCacheMappingInfo : Z := 32.
Definition mi_address (m : mem) (a : Z) : Z := mread m a 8.
Definition mi_size (m : mem) (a : Z) : Z := mread m (a + 8) 8.
Definition mi_fileOffset (m : mem) (a : Z) : Z := mread m (a + 16) 8.
Definition mi_maxProt (m : mem) (a : Z) : Z := mread m (a + 24) 4.
Definition mi_initProt (m : mem) (a : Z) : Z := mread m (a + 28) 4.

Definition sizeof_PantheraCacheMappingAndSlideInfo : Z := 56.
Definition ms_slideInfoFileOffset (m : mem) (a : Z) : Z := mread m (a + 24) 8.
Definition ms_slideInfoFileSize (m : mem) (a : Z) : Z := mread m (a + 32) 8.

Definition sizeof_PantheraCacheHeader : Z := 512.
Definition ch_sharedRegionStart (m : mem) (a : Z) : Z := mread m (a + 224) 8.
Definition ch_maxSlide (m : mem) (a : Z) : Z := mread m (a + 240) 8.
Definition ch_mappingWithSlideOffset (m : mem) (a : Z) : Z := mread m (a + 312) 4.
Definition ch_mappingWithSlideCount (m : mem) (a : Z) : Z := mread m (a + 316) 4.
Definition ch_imagesOffset (m : mem) (a : Z) : Z := mread m (a + 448) 4.
Definition ch_imagesCount (m : mem) (a : Z) : Z := mread m (a + 452) 4.

(** [maps[i]] and [smaps[i]]. *)
Definition map_at (maps i : Z) : Z := maps + i * sizeof_PantheraCacheMappingInfo.
Definition smap_at (smaps i : Z) : Z := smaps + i * sizeof_PantheraCacheMappingAndSlideInfo.

Record PantheraSharedFileMappingSlideNP := mkShared {
  sms_address : Z; sms_size : Z; sms_file_offset : Z; sms_slide_size : Z; sms_slide_start : Z; sms_max_prot : Z; sms_init_prot : Z }.

Definition VM_PROT_COW : Z := 0x08.
Definition VM_PROT_SLIDE : Z := 0x20.

(** The kernel's shared region: [sys_shared_region_check_np] gives its start, and
    [sys_shared_region_map_and_slide_2_np] the bytes it puts into memory. *)
Class SharedRegion (K : Type) := {
  k_region_check : bool -> K -> Z * Z * K;                                                    (* is there a place for the start *)
  k_region_map : Z -> Z -> list PantheraSharedFileMappingSlideNP -> K -> Z * list (Z * list Z) * K }. (* fd, slide, mappings *)

(** ** Globals *)
Definition set_file_size (n : Z) (c : cache_state) : cache_state :=
  mkCache (sCacheValid c) (sCacheSplitRegion c) (sCachePreResolved c) (sCacheMap c) n (sCacheBase c) (sCacheSlide c) (sCacheImages c) (sCacheImageCount c)
    (sCacheTextBase c) (sCacheDataBase c) (sCacheLinkBase c) (sCacheTextAddr c) (sCacheDataAddr c) (sCacheLinkAddr c) (sCacheTextSize c) (sCacheDataSize c) (sCacheLinkSize c) (sCacheLinkFileOffset c).
Definition set_base (base : Z) (c : cache_state) : cache_state :=
  mkCache (sCacheValid c) (sCacheSplitRegion c) (sCachePreResolved c) (sCacheMap c) (sCacheFileSize c) base (sCacheSlide c) (sCacheImages c) (sCacheImageCount c)
    (sCacheTextBase c) (sCacheDataBase c) (sCacheLinkBase c) (sCacheTextAddr c) (sCacheDataAddr c) (sCacheLinkAddr c) (sCacheTextSize c) (sCacheDataSize c) (sCacheLinkSize c) (sCacheLinkFileOffset c).
Definition set_table (valid split : bool) (map images count : Z) (c : cache_state) : cache_state :=
  mkCache valid split split map (sCacheFileSize c) (sCacheBase c) (sCacheSlide c) images count
    (sCacheTextBase c) (sCacheDataBase c) (sCacheLinkBase c) (sCacheTextAddr c) (sCacheDataAddr c) (sCacheLinkAddr c) (sCacheTextSize c) (sCacheDataSize c) (sCacheLinkSize c) (sCacheLinkFileOffset c).
Definition set_regions (m : mem) (maps : Z) (c : cache_state) : cache_state :=
  mkCache (sCacheValid c) (sCacheSplitRegion c) (sCachePreResolved c) (sCacheMap c) (sCacheFileSize c) (sCacheBase c) (sCacheSlide c) (sCacheImages c) (sCacheImageCount c)
    (sCacheTextBase c) (sCacheDataBase c) (sCacheLinkBase c) (mi_address m (map_at maps 0)) (mi_address m (map_at maps 1)) (mi_address m (map_at maps 2))
    (mi_size m (map_at maps 0)) (mi_size m (map_at maps 1)) (mi_size m (map_at maps 2)) (mi_fileOffset m (map_at maps 2)).
Definition set_bases (text data link slide : Z) (c : cache_state) : cache_state :=
  mkCache (sCacheValid c) (sCacheSplitRegion c) (sCachePreResolved c) (sCacheMap c) (sCacheFileSize c) (sCacheBase c) slide (sCacheImages c) (sCacheImageCount c)
    text data link (sCacheTextAddr c) (sCacheDataAddr c) (sCacheLinkAddr c) (sCacheTextSize c) (sCacheDataSize c) (sCacheLinkSize c) (sCacheLinkFileOffset c).

Section Cache.
Context {K : Type} `{Kernel K} `{SharedRegion K}.

Definition change_cache (f : cache_state -> cache_state) (st : dyld K) : dyld K := set_cache (f (d_cache st)) st.

(** ** The kernel's region *)
Definition sys_shared_region_check_np (wanted : bool) (st : dyld K) : Z * Z * dyld K :=
  let '(r, start, k) := k_region_check wanted (d_kernel st) in (r, start, set_kernel k (negb (r =? 0)) st).

Definition sys_shared_region_map_and_slide_2_np (fd slide : Z) (l : list PantheraSharedFileMappingSlideNP) (st : dyld K) : Z * dyld K :=
  let '(r, bytes, k) := k_region_map fd slide l (d_kernel st) in
  (r, set_kernel k (negb (r =? 0)) (set_mem (fold_left (fun m '(a, bs) => mstore m a bs) bytes (d_mem st)) st)).

Definition use_region (maps slide : Z) (st : dyld K) : dyld K :=
  let m := d_mem st in
  change_cache (set_bases (mi_address m (map_at maps 0) +64 slide) (mi_address m (map_at maps 1) +64 slide) (mi_address m (map_at maps 2) +64 slide) slide) st.

(** The mappings of the three regions; DATA has the slide info, if there is one. *)
Definition shared_mapping (m : mem) (maps smaps sCacheMap i : Z) : PantheraSharedFileMappingSlideNP :=
  let a := map_at maps i in
  let off := ms_slideInfoFileOffset m (smap_at smaps 1) in
  let size := ms_slideInfoFileSize m (smap_at smaps 1) in
  let slide := (i =? 1) && negb (smaps =? 0) && negb (off =? 0) && negb (size =? 0) in
  mkShared (mi_address m a) (mi_size m a) (mi_fileOffset m a) (if slide then size else 0) (if slide then sCacheMap +64 off else 0)
    (if slide then Z.lor (mi_maxProt m a) (Z.lor VM_PROT_COW VM_PROT_SLIDE) else mi_maxProt m a) (mi_initProt m a).

Definition mapSplitCacheWithKernel (fd maps smaps mappingCnt maxSlide : Z) (st : dyld K) : bool * dyld K :=
  if (maps =? 0) || (mappingCnt <? 3) then (false, st)
  else
    let '(checkRet, mappedStart, st) := sys_shared_region_check_np true st in
    let slide := mappedStart -64 mi_address (d_mem st) (map_at maps 0) in
    if (checkRet =? 0) && (mh_magic (d_mem st) (mi_address (d_mem st) (map_at maps 0) +64 slide) =? MH_MAGIC_64) then (true, use_region maps slide st)
    else
      let st := if checkRet =? 0 then (sys_shared_region_check_np false st).2 else st in
      let m := d_mem st in
      let '(mapRet, st) := sys_shared_region_map_and_slide_2_np fd (wrap 32 maxSlide) (map (shared_mapping m maps smaps (sCacheMap (d_cache st))) [0; 1; 2]) st in
      if negb (mapRet =? 0) then (false, st)
      else
        let '(r, mappedStart, st) := sys_shared_region_check_np true st in
        if negb (r =? 0) then (false, (sys_shared_region_check_np false st).2)
        else
          let st := use_region maps (mappedStart -64 mi_address (d_mem st) (map_at maps 0)) st in
          (mh_magic (d_mem st) (sCacheTextBase (d_cache st)) =? MH_MAGIC_64, st).

(** ** The fallback

    [None] is a slide table that [applySlidInfoV2] does not come to an end with; the
    state is then the one before it. *)
Definition map_region (fd maps i prot : Z) (st : dyld K) : Z * dyld K :=
  let a := map_at maps i in
  sys_mmap (mi_address (d_mem st) a) (mi_size (d_mem st) a) prot (Z.lor MAP_PRIVATE MAP_FIXED) fd (mi_fileOffset (d_mem st) a) st.

Definition unmap_region (at_ maps i : Z) (st : dyld K) : dyld K :=
  if 0 <? at_ then sys_munmap at_ (mi_size (d_mem st) (map_at maps i)) st else st.

Definition mapSplitCacheWithMmap (fd maps smaps : Z) (st : dyld K) : option bool * dyld K :=
  let '(textMap, st) := map_region fd maps 0 (Z.lor PROT_READ PROT_EXEC) st in
  let '(dataMap, st) := map_region fd maps 1 (Z.lor PROT_READ PROT_WRITE) st in
  let '(linkMap, st) := map_region fd maps 2 PROT_READ st in
  if (textMap <=? 0) || (dataMap <=? 0) || (linkMap <=? 0)
  then (Some false, unmap_region linkMap maps 2 (unmap_region dataMap maps 1 (unmap_region textMap maps 0 st)))
  else
    let st := change_cache (set_bases textMap dataMap linkMap 0) st in
    let off := ms_slideInfoFileOffset (d_mem st) (smap_at smaps 1) in
    if negb (smaps =? 0) && (0 <? ms_slideInfoFileSize (d_mem st) (smap_at smaps 1)) && (0 <? off) then
      match applySlidInfoV2 (sCacheMap (d_cache st) +64 off) dataMap 0 (d_mem st) with
      | Some m => (Some true, set_mem m st)
      | None => (None, st)
      end
    else (Some true, st).

(** ** initSharedCache *)
Definition openSharedCacheFile (st : dyld K) : Z * dyld K :=
  let '(fd, st) := open_path CACHE_PATH_PRIMARY st in
  if 0 <=? fd then (fd, st) else open_path CACHE_PATH_FALLBACK st.

(** Where the table of images is. *)
Definition images_table (m : mem) (buf size : Z) : Z * Z :=
  if (sizeof_PantheraCacheHeader <=? size) && negb (ch_imagesOffset m buf =? 0) then (ch_imagesOffset m buf, ch_imagesCount m buf)
  else (mread m (buf + 24) 4, mread m (buf + 28) 4).

(** The mappings with slide info, or 0. *)
Definition slide_table (m : mem) (buf size : Z) : Z :=
  if (sizeof_PantheraCacheHeader <=? size) && (3 <=? ch_mappingWithSlideCount m buf) &&
     (ch_mappingWithSlideOffset m buf + 3 * sizeof_PantheraCacheMappingAndSlideInfo <=? size)
  then buf + ch_mappingWithSlideOffset m buf else 0.

(** A cache in three regions. [viaKernel] is [sPantheraDyldKernelSharedRegion], and the
    result is whether the function returns. *)
Definition map_split_cache (viaKernel : bool) (fd mapped size imagesOff imagesCnt mappingOff mappingCnt : Z) (st : dyld K) : bool * dyld K :=
  let m := d_mem st in
  let maps := mapped + mappingOff in
  let smaps := slide_table m mapped size in
  let maxSlide := if sizeof_PantheraCacheHeader <=? size then ch_maxSlide m mapped else 0 in
  let st := change_cache (fun c => set_table (sCacheValid c) true mapped (mapped + imagesOff) imagesCnt (set_regions m maps c)) st in
  let '(mapOk, st) := if viaKernel then mapSplitCacheWithKernel fd maps smaps mappingCnt maxSlide st else (false, st) in
  match (if mapOk then (Some true, st) else mapSplitCacheWithMmap fd maps smaps st) with
  | (None, st) => (false, st)
  | (Some false, st) => (true, sys_close fd (sys_munmap mapped size (change_cache (set_table false false 0 0 0) st)))
  | (Some true, st) =>
      (true, sys_close fd (change_cache (fun c => set_table true (sCacheSplitRegion c) (sCacheMap c) (sCacheImages c) (sCacheImageCount c) c) st))
  end.

(** What [initSharedCache] does with the file it has mapped, *)
Definition use_cache_file (viaKernel : bool) (fd mapped size : Z) (st : dyld K) : bool * dyld K :=
  let m := d_mem st in
  let ignore st := (true, sys_close fd (sys_munmap mapped size st)) in
  if negb (bool_decide (mbytes m mapped 8 = str "dyld_v1 ")) then ignore st
  else if size <? 232 then ignore st
  else
    let mappingOff := mread m (mapped + 16) 4 in
    let mappingCnt := mread m (mapped + 20) 4 in
    let '(imagesOff, imagesCnt) := images_table m mapped size in
    let st := change_cache (set_base (ch_sharedRegionStart m mapped)) st in
    if size <? imagesOff + imagesCnt * sizeof_PantheraCacheImageInfo then ignore st
    else if (3 <=? mappingCnt) && (0 <? mappingOff) && (mappingOff + 3 * sizeof_PantheraCacheMappingInfo <=? size)
    then map_split_cache viaKernel fd mapped size imagesOff imagesCnt mappingOff mappingCnt st
    else (true, change_cache (set_table true false mapped (mapped + imagesOff) imagesCnt) (sys_close fd st)).

(** and with the one it has opened. *)
Definition map_cache_file (viaKernel : bool) (fd : Z) (st : dyld K) : bool * dyld K :=
  let '(_, size, st) := sys_fstat fd st in
  let st := change_cache (set_file_size size) st in
  let '(mapped, st) := sys_mmap 0 size PROT_READ MAP_PRIVATE fd 0 st in
  if mapped <=? 0 then (true, sys_close fd st) else use_cache_file viaKernel fd mapped size st.

Definition initSharedCache (viaKernel : bool) (st : dyld K) : bool * dyld K :=
  let '(fd, st) := openSharedCacheFile st in
  if fd <? 0 then (true, st) else map_cache_file viaKernel fd st.
End Cache.
