(* ===== verification/CacheMapped.v ===== *)
(** * The cache in memory: userland/dyld/panthera_dyld.cpp

    [initSharedCache] on a file of the builder: the regions are mapped at their
    addresses, the pointers of DATA are restored and the libraries are found by their
    install names. *)

From Stdlib Require Import ZArith Lia Ascii String.
From stdpp Require Import base list gmap.
From S2P Require Import Prelude MachO Words Runs DyldImage SymbolIndex MachImage ExportTrie SlideInfo Linker Dyld DyldKernel SampleKernel CacheBuild CacheFile SharedCache.

Open Scope Z_scope.

(** ** Finding a library *)
Lemma basename_from_nonzero l : forall base, Forall (fun c => c <> 0) base -> Forall (fun c => c <> 0) l -> Forall (fun c => c <> 0) (basename_from base l).
Proof.
  induction l as [|c l IH]; intros base Hb Hl; [done|]. cbn [basename_from]. inversion Hl; subst. by apply IH; [destruct (_ =? _)|].
Qed.

Lemma basename_nonzero l : Forall (fun c => c <> 0) l -> Forall (fun c => c <> 0) (_basename l).
Proof. intros Hl. by apply basename_from_nonzero. Qed.

Section Search.
Variables (ds : list DylibInfo) (m : mem) (c : cache_state) (mapped : Z) (L' : cache_layout) (slide : bool).
Hypothesis fit : dylibs_fit ds.
Hypothesis texts : forall d, d ∈ ds -> text_ok d.
Notation L := (layout_of ds).
Notation cached := (assigned ds).
Hypothesis md : metadata m mapped L' slide cached.
Hypothesis Hvalid : sCacheValid c = true.
Hypothesis Hsplit : sCacheSplitRegion c = true.
Hypothesis Hmap : sCacheMap c = mapped.
Hypothesis Himages : sCacheImages c = mapped + imagesOff.
Hypothesis Hcount : sCacheImageCount c = Z.of_nat (length ds).
Hypothesis Htext : sCacheTextAddr c = TEXT_REGION_BASE.
Hypothesis Hsize : sCacheTextSize c = gTextSize L.
Hypothesis Hslide : sCacheSlide c = 0.

Lemma image_entry i d : cached !! i = Some d -> cstr m (sCacheMap c + ii_pathFileOffset m (cache_image c (Z.of_nat i))) = d_installName d /\ ii_address m (cache_image c (Z.of_nat i)) = text_vmaddr d.
Proof using fit md Hmap Himages.
  intros Hi. destruct (md_image _ _ _ _ _ md i d Hi) as (H1 & H2 & H3). unfold ii_pathFileOffset, ii_address, cache_image, sizeof_PantheraCacheImageInfo. rewrite Hmap, Himages.
  replace (mapped + imagesOff + Z.of_nat i * 32) with (mapped + (imagesOff + 32 * Z.of_nat i)) by lia. split; [|exact H1]. rewrite <- Z.add_assoc, H2.
  apply cstr_holds; [|exact H3]. apply (in_cached ds fit d). by eapply list_elem_of_lookup_2.
Qed.

Lemma cached_text d : d ∈ cached -> exists si k, nth_seg d (d_textSegIdx d) = Some si /\ all_segs cached !! k = Some si /\ s_region si = 0 /\ text_vmaddr d = s_cacheVmaddr si.
Proof using fit texts.
  intros Hd. pose proof Hd as [i Hi]%list_elem_of_lookup. apply assign_dylibs_at in Hi as (d0 & c0 & Hi & Ed). destruct (texts d0 ltac:(by eapply list_elem_of_lookup_2)) as (s0 & Hs & Hr).
  unfold nth_seg in Hs. destruct (Z.ltb_spec (d_textSegIdx d0) 0) as [|Hpos]; [done|].
  assert (Hn : nth_seg d (d_textSegIdx d) = Some (assign_segment L (fold_left advance (take (Z.to_nat (d_textSegIdx d0)) (d_segs d0)) c0) s0)).
  { subst d. unfold nth_seg. cbn [d_textSegIdx d_segs set_segs]. destruct (Z.ltb_spec (d_textSegIdx d0) 0); [lia|]. by rewrite assign_segments_lookup, Hs. }
  eexists. assert (Hin : assign_segment L (fold_left advance (take (Z.to_nat (d_textSegIdx d0)) (d_segs d0)) c0) s0 ∈ d_segs d).
  { unfold nth_seg in Hn. destruct (_ <? _); [done|]. by eapply list_elem_of_lookup_2. }
  destruct (cached_seg ds d _ Hd Hin) as (k & _ & Hk). exists k. split; [exact Hn|]. split; [exact Hk|]. split; [exact Hr|]. unfold text_vmaddr. by rewrite Hn.
Qed.

Lemma text_place si k : all_segs cached !! k = Some si -> s_region si = 0 ->
  s_cacheVmaddr si = TEXT_REGION_BASE + (s_cacheFileOff si - gTextFileOff L) /\ gTextFileOff L <= s_cacheFileOff si /\ 0 < aligned_size si /\ s_cacheFileOff si + aligned_size si <= gTextFileOff L + gTextSize L.
Proof using fit.
  intros Hk Hr. destruct (assigned_segs_ok ds fit k si Hk) as [Hs (P1 & P2 & _ & P4 & _)]. rewrite Hr in *. pose proof (aligned_size_range si Hs).
  change (region_off L 0) with (gTextFileOff L) in *. change (region_size L 0) with (gTextSize L) in *. change (region_base 0) with TEXT_REGION_BASE in *. lia.
Qed.

Lemma candidate_ok i d p : cached !! i = Some d -> Forall (fun c => c <> 0) p -> _basename p = _basename (d_installName d) ->
  exists n, cache_candidate m c p (Z.of_nat i) = Some (text_vmaddr d, n) /\ forall si, nth_seg d (d_textSegIdx d) = Some si -> aligned_size si <= n.
Proof using All.
  intros Hi Hp Hb. destruct (image_entry i d Hi) as [En Ea]. unfold cache_candidate. rewrite En, Ea, Hsplit, Htext, Hsize, Hslide, Hcount.
  assert (Hd : d ∈ cached) by (by eapply list_elem_of_lookup_2). destruct (in_cached ds fit d Hd) as (_ & _ & Hnz).
  assert (_strcmp (_basename (d_installName d)) (_basename p) = 0) as -> by (apply _strcmp_eq; by try apply basename_nonzero). rewrite orb_true_r.
  destruct (cached_text d Hd) as (si & k & Hs & Hk & Hr & Et). destruct (text_place si k Hk Hr) as (Ev & T1 & T2 & T3).
  destruct (region_ends ds fit 0 ltac:(lia)) as (_ & _ & E3 & _). change (region_size L 0) with (gTextSize L) in E3. change (capacity 0) with 0x60000000 in E3. unfold TEXT_REGION_BASE in *.
  rewrite (wrap_small 64 (_ + gTextSize L)) by lia. rewrite Et, Ev. destruct (Z.ltb_spec (0x00007FFF20000000 + (s_cacheFileOff si - gTextFileOff L)) 0x00007FFF20000000); [lia|]. destruct (Z.leb_spec (0x00007FFF20000000 + gTextSize L) (0x00007FFF20000000 + (s_cacheFileOff si - gTextFileOff L))); [lia|].
  cbn [orb]. eexists. rewrite Z.add_0_r, wrap_small by lia. split; [done|]. intros s' Hs'. rewrite Hs in Hs'. injection Hs' as <-.
  destruct (_ && _) eqn:Ec; [|lia]. apply andb_true_iff in Ec as [[C1 C2]%andb_true_iff C3]. destruct (lookup_lt_is_Some_2 cached (S i)) as [d' Hi']; [rewrite cached_length; lia|].
  replace (Z.of_nat i + 1) with (Z.of_nat (S i)) in * by lia. destruct (image_entry (S i) d' Hi') as [_ Ea']. rewrite Ea' in *.
  destruct (cached_text d' ltac:(by eapply list_elem_of_lookup_2)) as (si' & k' & Hs' & Hk' & Hr' & Et'). destruct (text_place si' k' Hk' Hr') as (Ev' & T1' & T2' & T3'). unfold TEXT_REGION_BASE in *. rewrite Et', Ev' in *.
  destruct (decide (k = k')) as [<-|Hne]; [rewrite Hk in Hk'; injection Hk' as <-; lia|]. destruct (assigned_apart ds fit k k' si si' Hk Hk' Hne); lia.
Qed.

Lemma candidate_none i d p : cached !! i = Some d -> Forall (fun c => c <> 0) p -> _basename p <> _basename (d_installName d) -> cache_candidate m c p (Z.of_nat i) = None.
Proof using fit md Hmap Himages.
  intros Hi Hp Hb. destruct (image_entry i d Hi) as [En _]. unfold cache_candidate. rewrite En. assert (Hd : d ∈ cached) by (by eapply list_elem_of_lookup_2). destruct (in_cached ds fit d Hd) as (_ & _ & Hnz).
  destruct (Z.eqb_spec (_strcmp (d_installName d) p) 0) as [E|_]; [apply _strcmp_eq in E; [by subst|done|done]|].
  destruct (Z.eqb_spec (_strcmp (_basename (d_installName d)) (_basename p)) 0) as [E|_]; [|done]. apply _strcmp_eq in E; [by rewrite E in Hb|by apply basename_nonzero|by apply basename_nonzero].
Qed.

(** The first library with the name's last part is found, with room for its TEXT. *)
Lemma library_found i d path : cached !! i = Some d -> _basename (cstr m path) = _basename (d_installName d) ->
  (forall j e, (j < i)%nat -> cached !! j = Some e -> _basename (d_installName e) <> _basename (d_installName d)) ->
  exists n, findDylibInCache m c path = Some (text_vmaddr d, n) /\ forall si, nth_seg d (d_textSegIdx d) = Some si -> aligned_size si <= n.
Proof using All.
  intros Hi Hb Hfirst. pose proof (cstr_nonzero m path) as Hp. unfold findDylibInCache. rewrite Hvalid, Hcount, Nat2Z.id. pose proof (lookup_lt_Some _ _ _ Hi) as Hlt. rewrite cached_length in Hlt.
  destruct (candidate_ok i d (cstr m path) Hi Hp Hb) as (n & Ec & Hn). exists n. split; [|exact Hn].
  assert (G : forall k j, (j <= i)%nat -> (i < j + k)%nat -> search_cache k m c (cstr m path) (Z.of_nat j) = Some (text_vmaddr d, n)); [|by apply (G (length ds) 0%nat); lia].
  induction k as [|k IH]; intros j Hj Hk; [lia|]. cbn [search_cache]. destruct (decide (j = i)) as [->|Hne]; [by rewrite Ec|].
  destruct (lookup_lt_is_Some_2 cached j) as [e He]; [rewrite cached_length; lia|]. rewrite (candidate_none j e) by (done || rewrite Hb; apply not_eq_sym, (Hfirst j e); (done || lia)).
  replace (Z.of_nat j + 1) with (Z.of_nat (S j)) by lia. apply IH; lia.
Qed.
End Search.

(** ** Memory stays a memory of bytes *)
Definition some_wf (r : option mem) : Prop := forall m, r = Some m -> mem_wf m.

Lemma some_wf_intro m : mem_wf m -> some_wf (Some m).
Proof. by intros Hw m' [= <-]. Qed.

Lemma walk_chain_wf dm ds va slide base m off : mem_wf m -> some_wf (walk_chain dm ds va slide base m off).
Proof.
  intros Hw. unfold walk_chain. apply (while_inv _ (fun s => mem_wf s.1)); [done|by intros ?|]. intros [m1 o1] H1. cbn [fst] in H1. unfold chain_step.
  destruct (ds <? 0); [by intros ?|]. destruct (_ =? 0); [|by apply mem_wf_mwrite]. by apply some_wf_intro, mem_wf_mwrite.
Qed.

Lemma extras_wf walk pe ec s : (forall m o, mem_wf m -> some_wf (walk m o)) -> mem_wf s.1 -> some_wf (while rounds64 None (extras_step walk pe ec) s).
Proof.
  intros Hwalk Hw. apply (while_inv _ (fun s => mem_wf s.1)); [done|by intros ?|]. intros [m1 i1] H1. cbn [fst] in H1. unfold extras_step.
  destruct (_ <? _); [|by apply some_wf_intro]. destruct (walk m1 _) as [m2|] eqn:E; [|by intros ?]. apply (Hwalk _ _ H1) in E. destruct (_ =? 0); [done|by apply some_wf_intro].
Qed.

Lemma apply_wf info data slide m m' : mem_wf m -> applySlidInfoV2 info data slide m = Some m' -> mem_wf m'.
Proof.
  intros Hw. unfold applySlidInfoV2. destruct (negb _); [by intros [= <-]|]. apply (for_range_ind (fun _ => some_wf)); [by apply some_wf_intro|].
  intros k [m1|] _ H1; [|by intros ?]. specialize (H1 m1 eq_refl). unfold slide_page. destruct (_ =? SLIDE_PAGE_NO_REBASE); [by apply some_wf_intro|].
  destruct (negb _); [|by apply walk_chain_wf]. apply extras_wf; [|done]. intros m2 o2. apply walk_chain_wf.
Qed.

Create HintDb sticky.

Section Mapped.
Context {K : Type} `{HL : KernelLaws K} `{HR : SharedRegion K}.

Notation used st := (k_used (d_kernel st)).
Notation fds st := (k_fds (d_kernel st)).

(** ** Calls that have failed *)
Definition sticky (st st' : dyld K) : Prop := clean st' -> clean st.

Lemma sticky_refl st : sticky st st.
Proof. by intros ?. Qed.

Lemma sticky_then st1 st2 st3 : sticky st1 st2 -> sticky st2 st3 -> sticky st1 st3.
Proof. unfold sticky. tauto. Qed.

Lemma sticky_kernel k b st st0 : sticky st0 st -> sticky st0 (set_kernel k b st).
Proof. unfold sticky, clean. cbn. intros Hs Hc. apply orb_false_elim in Hc as [Hc _]. auto. Qed.

Lemma sticky_mem m st st0 : sticky st0 st -> sticky st0 (set_mem m st).
Proof. by intros Hs ?%Hs. Qed.

Lemma sticky_cache f st st0 : sticky st0 st -> sticky st0 (change_cache f st).
Proof. by intros Hs ?%Hs. Qed.

Lemma sticky_mmap a len prot flags fd off st st0 : sticky st0 st -> sticky st0 (sys_mmap a len prot flags fd off st).2.
Proof. intros Hs. unfold sys_mmap. destruct (k_mmap _ _ _ _ _ _ _) as [[r bs] k]. apply sticky_kernel. by destruct (r <? 0). Qed.

Lemma sticky_munmap a len st st0 : sticky st0 st -> sticky st0 (sys_munmap a len st).
Proof. apply sticky_kernel. Qed.

Lemma sticky_close fd st st0 : sticky st0 st -> sticky st0 (sys_close fd st).
Proof. apply sticky_kernel. Qed.

Lemma sticky_unmap a maps i st st0 : sticky st0 st -> sticky st0 (unmap_region a maps i st).
Proof. intros Hs. unfold unmap_region. destruct (_ <? _); [by apply sticky_munmap|done]. Qed.

Lemma sticky_map fd maps i prot st st0 : sticky st0 st -> sticky st0 (map_region fd maps i prot st).2.
Proof. apply sticky_mmap. Qed.

#[local] Hint Resolve sticky_refl sticky_kernel sticky_mem sticky_cache sticky_munmap sticky_close sticky_unmap : sticky.

Lemma sticky_with_mmap fd maps smaps st : sticky st (mapSplitCacheWithMmap fd maps smaps st).2.
Proof.
  unfold mapSplitCacheWithMmap. pose proof (sticky_map fd maps 0 (Z.lor PROT_READ PROT_EXEC) st st (sticky_refl st)) as S1. destruct (map_region _ _ 0 _ _) as [t st1].
  pose proof (sticky_map fd maps 1 (Z.lor PROT_READ PROT_WRITE) st1 st S1) as S2. destruct (map_region _ _ 1 _ _) as [d st2].
  pose proof (sticky_map fd maps 2 PROT_READ st2 st S2) as S3. destruct (map_region _ _ 2 _ _) as [l st3]. cbn [snd] in *.
  destruct (_ || _); [cbn [snd]; auto 10 with sticky|]. destruct (_ && _); [|cbn [snd]; auto with sticky]. destruct (applySlidInfoV2 _ _ _ _); cbn [snd]; auto with sticky.
Qed.

Lemma sticky_split fd mapped size io ic mo mc st : sticky st (map_split_cache false fd mapped size io ic mo mc st).2.
Proof.
  unfold map_split_cache. cbv zeta. cbn [snd]. set (st1 := change_cache _ st). assert (S1 : sticky st st1) by (apply sticky_cache, sticky_refl).
  pose proof (sticky_then _ _ _ S1 (sticky_with_mmap fd (mapped + mo) (slide_table (d_mem st) mapped size) st1)) as S2.
  destruct (mapSplitCacheWithMmap _ _ _ _) as [[[]|] st2]; cbn [snd] in *; auto with sticky.
Qed.

Lemma sticky_use fd mapped size st : sticky st (use_cache_file false fd mapped size st).2.
Proof.
  unfold use_cache_file. destruct (negb _); [cbn [snd]; auto with sticky|]. destruct (size <? 232); [cbn [snd]; auto with sticky|].
  destruct (images_table _ _ _) as [io ic]. cbv zeta. destruct (size <? _); [cbn [snd]; auto with sticky|].
  destruct (_ && _); [|cbn [snd]; auto with sticky]. eapply sticky_then; [|apply sticky_split]. auto with sticky.
Qed.

(** After a refused call the state stays refused. *)
Lemma sticky_result st (x : bool * dyld K) (P : bool -> dyld K -> Prop) : sticky st x.2 -> (clean st -> let '(r, st') := x in clean st' -> P r st') ->
  let '(r, st') := x in clean st' -> P r st'.
Proof. destruct x as [r st']. intros Hs Hx Hc. exact (Hx (Hs Hc) Hc). Qed.

Lemma sticky_after_mmap fd mapped size st st0 : sticky st0 st -> sticky st0 (if mapped <=? 0 then (true, sys_close fd st) else use_cache_file false fd mapped size st).2.
Proof. intros Hs. destruct (_ <=? _); [by apply sticky_close|]. eapply sticky_then; [exact Hs|apply sticky_use]. Qed.

Lemma sticky_file fd st : sticky st (map_cache_file false fd st).2.
Proof.
  unfold map_cache_file, sys_fstat. destruct (k_fstat _ _) as [[r size] k]. set (st1 := change_cache _ _). assert (S1 : sticky st st1) by (apply sticky_cache, sticky_kernel, sticky_refl).
  pose proof (sticky_mmap 0 size PROT_READ MAP_PRIVATE fd 0 st1 st S1) as S2. destruct (sys_mmap _ _ _ _ _ _ _) as [mapped st2]. by apply sticky_after_mmap.
Qed.

(** ** What a step keeps *)
Definition carried (st st' : dyld K) : Prop :=
  (mem_wf (d_mem st) -> mem_wf (d_mem st')) /\ k_files (d_kernel st') = k_files (d_kernel st) /\ quiet st st' /\
  forall a, used st a -> used st' a /\ mget (d_mem st') a = mget (d_mem st) a.

Lemma carried_then st1 st2 st3 : carried st1 st2 -> carried st2 st3 -> carried st1 st3.
Proof.
  intros (W1 & F1 & Q1 & C1) (W2 & F2 & Q2 & C2). split_and!; [tauto|congruence|by eapply quiet_then|]. intros a Ha. destruct (C1 a Ha) as [U1 E1], (C2 a U1) as [U2 E2]. split; [done|congruence].
Qed.

Lemma kept_carried st st' : quiet st st' -> kept (fun _ => True) st st' -> carried st st'.
Proof. intros Hq (Hw & _ & Hf & _ & Hk). split_and!; auto. Qed.

Lemma carried_cache f st : carried st (change_cache f st).
Proof. by split_and!. Qed.

Lemma carried_get st st' a : carried st st' -> used st a -> mget (d_mem st') a = mget (d_mem st) a.
Proof. intros (_ & _ & _ & Hc) Ha. by apply Hc. Qed.

(** The file is mapped as a whole at [mapped]. *)
Definition attached (mapped : Z) (file : list Z) (st : dyld K) : Prop :=
  forall i, 0 <= i < Z.of_nat (length file) -> used st (mapped + i) /\ mget (d_mem st) (mapped + i) = mget (fmem file) i.

Lemma attached_carried mapped file st st' : attached mapped file st -> carried st st' -> attached mapped file st'.
Proof. intros Ha (_ & _ & _ & Hc) i Hi. destruct (Ha i Hi) as [Hu E], (Hc _ Hu) as [Hu' E']. split; [done|congruence]. Qed.

Lemma map_region_ok fd maps r prot st file pos base size off : fds st !! fd = Some (file, pos) ->
  mi_address (d_mem st) (map_at maps r) = base -> mi_size (d_mem st) (map_at maps r) = size -> mi_fileOffset (d_mem st) (map_at maps r) = off ->
  0 <= size < 2 ^ 62 -> 0 <= off -> 0 < base -> size mod PAGE_SZ = 0 -> off mod PAGE_SZ = 0 -> base mod PAGE_SZ = 0 -> (forall a, base <= a < base + size -> ~ used st a) ->
  let '(a, st') := map_region fd maps r prot st in
  clean st' -> a = base /\ carried st st' /\ d_cache st' = d_cache st /\ fds st' = fds st /\
    (forall i, 0 <= i < size -> mget (d_mem st') (base + i) = mget (fmem file) (off + i)) /\ (forall a, used st' a <-> used st a \/ base <= a < base + size).
Proof.
  intros Hfd Ea Es Eo Hs Ho Hb Ms Mo Mb Hfree. unfold map_region. rewrite Ea, Es, Eo. assert (Hm : forall z, Z.land z 0xfff = z mod PAGE_SZ) by (intros z; change 0xfff with (Z.ones 12); by rewrite Z.land_ones by lia).
  destruct (pageRoundUp_le size ltac:(lia)) as [_ Ep]. rewrite Hm in Ep. specialize (Ep Ms).
  pose proof (sys_mmap_fixed_ok base size prot fd off st file pos Hs Ho ltac:(by rewrite Hm) ltac:(by rewrite Hm) Hb) as Hl. unfold in_pages in Hl. rewrite Ep in Hl. specialize (Hl Hfree Hfd).
  destruct (sys_mmap _ _ _ _ _ _ _) as [a st']. destruct Hl as (Hq & Hk & Hd & [(_ & _ & Hc)|(-> & Hf & Hu)]); [done|]. intros _.
  split; [done|]. split; [by apply kept_carried|]. split; [apply Hk|]. split; [done|]. split; [|exact Hu].
  intros i Hi. rewrite (filled_in _ _ _ _ _ _ Hf) by lia. f_equal. lia.
Qed.

Lemma open_path_used path st : used (open_path path st).2 = used st.
Proof. unfold open_path. pose proof (open_law path (d_kernel st)) as Hl. destruct (k_open _ _) as [r k]. apply Hl. Qed.

Definition region_end : Z := 0x800000000000.

Definition region_unused (st : dyld K) : Prop := forall a, SHARED_REGION_BASE <= a < region_end -> ~ used st a.

(** The kernel places mappings outside the shared region unless it is told where. *)
Definition region_reserved : Prop := forall len prot fd k, 0 <= len ->
  let '(r, _, _) := k_mmap 0 len prot MAP_PRIVATE fd 0 k in r < 0 \/ r + pageRoundUp len <= SHARED_REGION_BASE \/ region_end <= r.

(** ** A file of the builder *)
Section Builder.
Variables (uuid : list Z) (ds : list DylibInfo) (locs : list Z) (b : mem) (file : list Z).
Hypothesis fit : dylibs_fit ds.
Notation L := (layout_of ds).
Notation cached := (assigned ds).

Lemma regions_apart r r' a : 0 <= r <= 2 -> 0 <= r' <= 2 -> r <> r' -> region_base r <= a < region_base r + region_size L r -> ~ region_base r' <= a < region_base r' + region_size L r'.
Proof using fit.
  intros Hr Hr' Hne. destruct (region_ends ds fit r Hr) as (_ & _ & E & _), (region_ends ds fit r' Hr') as (_ & _ & E' & _).
  assert (r = 0 \/ r = 1 \/ r = 2) as [->|[->| ->]] by lia; (assert (r' = 0 \/ r' = 1 \/ r' = 2) as [->|[->| ->]] by lia); try done;
    unfold capacity, region_base, TEXT_REGION_BASE, DATA_REGION_BASE, LINK_REGION_BASE in *; cbn [Z.eqb Pos.eqb] in *; lia.
Qed.

Lemma region_inside r a : 0 <= r <= 2 -> region_base r <= a < region_base r + region_size L r -> SHARED_REGION_BASE <= a < region_end.
Proof using fit.
  intros Hr. destruct (region_ends ds fit r Hr) as (_ & _ & E & _). unfold SHARED_REGION_BASE, region_end.
  assert (r = 0 \/ r = 1 \/ r = 2) as [->|[->| ->]] by lia; unfold capacity, region_base, TEXT_REGION_BASE, DATA_REGION_BASE, LINK_REGION_BASE in *; cbn [Z.eqb Pos.eqb] in *; lia.
Qed.

Lemma region_base_page r : 0 <= r <= 2 -> 0 < region_base r /\ region_base r mod PAGE_SZ = 0.
Proof. intros Hr. assert (r = 0 \/ r = 1 \/ r = 2) as [->|[->| ->]] by lia; (split; [done|reflexivity]). Qed.

Hypothesis wf : mem_wf b.
Hypothesis rec : locs <> [] -> recorded (gDataFileOff L) (gDataSize L) locs b.
Hypothesis Hu : length uuid = 16%nat.
Hypothesis Hfile : finish_cache uuid L cached locs b = Some file.

(** What the file says, in memory. *)
Lemma file_metadata mapped st : attached mapped file st -> exists sz, 0 < sz /\ metadata (d_mem st) mapped (set_slide_size sz L) (has_slide locs) cached.
Proof using fit wf rec Hu Hfile.
  intros Ha. destruct (finish_ok uuid ds locs b file fit wf rec Hu Hfile) as (b' & locs' & sz & _ & Hm & _ & Hlen & Hsz). exists sz. split; [lia|].
  destruct (layout_regions ds fit) as ((M1 & _) & _). destruct (region_ends ds fit 2 ltac:(lia)) as (E1 & E2 & E3 & _). destruct (region_ends ds fit 1 ltac:(lia)) as (_ & _ & E4 & _).
  assert (0 <= page_count (gDataSize L)) by (change (region_size L 1) with (gDataSize L) in *; unfold page_count, PAGE_SZ; apply Z.div_pos; lia). unfold sizeof_slide_info2 in *.
  apply (metadata_at (fmem file) _ _ (Z.of_nat (length file))); [done|intros i Hi; by apply Ha|rewrite cached_length; apply (fit_count _ fit)|by apply in_cached|rewrite cached_length, cached_names_size; lia].
Qed.

Lemma region_fields mapped st r : attached mapped file st -> 0 <= r <= 2 -> let a := map_at (mapped + mappingOff) r in
  mi_address (d_mem st) a = region_base r /\ mi_size (d_mem st) a = region_size L r /\ mi_fileOffset (d_mem st) a = region_off L r.
Proof using fit wf rec Hu Hfile.
  intros Ha Hr a. destruct (file_metadata mapped st Ha) as (sz & _ & Hm). destruct (md_map _ _ _ _ _ Hm r Hr) as (H1 & H2 & H3). unfold mi_address, mi_size, mi_fileOffset.
  replace a with (mapped + (mappingOff + r * 32)) by (unfold a, map_at, sizeof_PantheraCacheMappingInfo; lia). rewrite <- !(Z.add_assoc mapped (mappingOff + r * 32)). split; [exact H1|]. split; [exact H2|exact H3].
Qed.

Lemma one_region fd mapped r prot st pos : fds st !! fd = Some (file, pos) -> attached mapped file st -> 0 <= r <= 2 ->
  (forall a, region_base r <= a < region_base r + region_size L r -> ~ used st a) ->
  let '(a, st') := map_region fd (mapped + mappingOff) r prot st in
  clean st' -> a = region_base r /\ carried st st' /\ d_cache st' = d_cache st /\ fds st' = fds st /\ attached mapped file st' /\
    (forall i, 0 <= i < region_size L r -> mget (d_mem st') (region_base r + i) = mget (fmem file) (region_off L r + i)) /\
    (forall a, used st' a <-> used st a \/ region_base r <= a < region_base r + region_size L r).
Proof using fit wf rec Hu Hfile.
  intros Hfd Ha Hr Hfree. destruct (region_fields mapped st r Ha Hr) as (F1 & F2 & F3). destruct (region_ends ds fit r Hr) as (E1 & E2 & E3 & E4 & E5). destruct (region_base_page r Hr) as [B1 B2].
  destruct (layout_regions ds fit) as ((M1 & _) & _). assert (Ei : imagesOff = 776) by reflexivity. pose proof (names_size_range ds (fit_names _ fit)). assert (capacity r <= 0x60000000) by (unfold capacity; case_match; lia).
  pose proof (map_region_ok fd (mapped + mappingOff) r prot st file pos (region_base r) (region_size L r) (region_off L r) Hfd F1 F2 F3 ltac:(lia) ltac:(lia) B1 E5 E4 B2 Hfree) as Hm.
  destruct (map_region _ _ _ _ _) as [a st']. intros Hc. destruct (Hm Hc) as (M2 & M3 & M4 & M5 & M6 & M7). split_and!; try done. by eapply attached_carried.
Qed.

Lemma outside_file a : gMetaSize L <= a < gSlideInfoFileOff L -> (forall x, x ∈ locs -> a < x \/ x + 8 <= a) -> mget (fmem file) a = mget b a.
Proof using fit wf rec Hu Hfile.
  intros Ha Hx. destruct (finish_ok uuid ds locs b file fit wf rec Hu Hfile) as (b' & locs' & sz & Hg & _ & Hb & Hlen & _). destruct (layout_regions ds fit) as (_ & _ & _ & _ & R1 & R2 & R3).
  destruct (region_ends ds fit 1 ltac:(lia)) as (_ & E2 & E4 & _). destruct (region_ends ds fit 2 ltac:(lia)) as (_ & _ & E3 & _). change (region_size L 1) with (gDataSize L) in *. change (region_off L 1) with (gDataFileOff L) in *.
  assert (0 <= page_count (gDataSize L)) by (unfold page_count, PAGE_SZ; apply Z.div_pos; lia). unfold sizeof_slide_info2 in *. rewrite Hb by lia.
  destruct (decide (locs = [])) as [El|Hne]; [rewrite El in Hg; unfold generate_slide_info_v2 in Hg; congruence|].
  destruct (generate_ok (gDataFileOff L) (gDataSize L) locs b (gSlideInfoFileOff L) (gSlideInfoSize L) b' locs' sz (rec Hne) ltac:(lia) Hg) as (_ & _ & _ & _ & _ & _ & Hout & _). apply Hout; [lia|done].
Qed.

(** TEXT and LINKEDIT have no pointers to restore. *)
Lemma plain_region r i : r = 0 \/ r = 2 -> 0 <= i < region_size L r -> mget (fmem file) (region_off L r + i) = mget b (region_off L r + i).
Proof using fit wf rec Hu Hfile.
  intros Hr Hi. destruct (layout_regions ds fit) as (_ & _ & R0 & R1 & R2 & _). destruct (region_ends ds fit r ltac:(lia)) as (E1 & E2 & _). apply outside_file; [lia|]. intros x Hx.
  assert (Hne : locs <> []) by (intros ->; by apply elem_of_nil in Hx). destruct (r_locations _ _ _ _ (rec Hne) x Hx) as (X1 & X2 & _). change (gDataFileOff L) with (region_off L 1) in *. change (gDataSize L) with (region_size L 1) in *.
  destruct Hr as [-> | ->]; lia.
Qed.

(** DATA, restored. *)
Definition data_restored (m : mem) : Prop :=
  (forall x, x ∈ locs -> mread m (DATA_REGION_BASE + (x - gDataFileOff L)) 8 = slid 0 (mread b x 8)) /\
  (forall i, 0 <= i < gDataSize L -> (forall x, x ∈ locs -> gDataFileOff L + i < x \/ x + 8 <= gDataFileOff L + i) -> mget m (DATA_REGION_BASE + i) = mget b (gDataFileOff L + i)).

Lemma slide_applied mapped m : locs <> [] -> (forall i, 0 <= i < Z.of_nat (length file) -> mget m (mapped + i) = mget (fmem file) i) ->
  (forall i, 0 <= i < gDataSize L -> mget m (DATA_REGION_BASE + i) = mget (fmem file) (gDataFileOff L + i)) ->
  0 < mapped -> mapped + Z.of_nat (length file) < 2 ^ 62 -> mapped + Z.of_nat (length file) <= SHARED_REGION_BASE \/ region_end <= mapped ->
  exists m', applySlidInfoV2 (mapped + gSlideInfoFileOff L) DATA_REGION_BASE 0 m = Some m' /\ data_restored m' /\ only_in DATA_REGION_BASE (gDataSize L) m m'.
Proof using fit wf rec Hu Hfile.
  intros Hne Hm Hd H0 H1 Hap. destruct (finish_ok uuid ds locs b file fit wf rec Hu Hfile) as (b' & locs' & sz & Hg & _ & Hb & Hlen & _).
  destruct (region_ends ds fit 1 ltac:(lia)) as (E1 & E2 & E4 & _). change (region_size L 1) with (gDataSize L) in *. change (region_off L 1) with (gDataFileOff L) in *. change (capacity 1) with 0x40000000 in *.
  assert (Hp : 0 <= page_count (gDataSize L)) by (unfold page_count, PAGE_SZ; apply Z.div_pos; lia). destruct (layout_regions ds fit) as ((M1 & _) & _). assert (Ei : imagesOff = 776) by reflexivity. pose proof (names_size_range ds (fit_names _ fit)).
  assert (Hmeta : 0 <= gMetaSize L) by lia. destruct (slide_info_restored (gDataFileOff L) (gDataSize L) (gSlideInfoFileOff L) (gSlideInfoSize L) sz locs locs' b b' DATA_REGION_BASE (mapped + gSlideInfoFileOff L) 0 m (rec Hne) ltac:(lia) Hg) as (m' & Ea & X1 & X2 & X3); unfold sizeof_slide_info2 in *.
  - apply mbytes_relocate. intros i Hi. rewrite Hd by lia. apply Hb. lia.
  - apply mbytes_relocate. intros i Hi. rewrite <- Z.add_assoc, Hm by lia. apply Hb. lia.
  - done.
  - unfold DATA_REGION_BASE. lia.
  - lia.
  - lia.
  - unfold SHARED_REGION_BASE, region_end, DATA_REGION_BASE in *. lia.
  - exists m'. split; [exact Ea|]. split; [by split|exact X3].
Qed.

Definition cache_memory (m : mem) : Prop :=
  (forall r i, r = 0 \/ r = 2 -> 0 <= i < region_size L r -> mget m (region_base r + i) = mget b (region_off L r + i)) /\ data_restored m.

Definition outside_region (mapped : Z) : Prop :=
  0 < mapped /\ mapped + Z.of_nat (length file) < 2 ^ 62 /\ (mapped + Z.of_nat (length file) <= SHARED_REGION_BASE \/ region_end <= mapped).

Notation maps mapped := (mapped + mappingOff).

(** The three regions, before the slide info is applied. *)
Record regions_mapped (mapped : Z) (st st' : dyld K) : Prop := {
  rm_carried : carried st st';
  rm_attached : attached mapped file st';
  rm_cache : d_cache st' = d_cache st;
  rm_fds : fds st' = fds st;
  rm_bytes : forall r i, 0 <= r <= 2 -> 0 <= i < region_size L r -> mget (d_mem st') (region_base r + i) = mget (fmem file) (region_off L r + i);
  rm_used : forall a, used st' a <-> used st a \/ exists r, 0 <= r <= 2 /\ region_base r <= a < region_base r + region_size L r }.

Lemma three_regions fd mapped st pos : fds st !! fd = Some (file, pos) -> attached mapped file st -> region_unused st ->
  let '(textMap, st1) := map_region fd (maps mapped) 0 (Z.lor PROT_READ PROT_EXEC) st in
  let '(dataMap, st2) := map_region fd (maps mapped) 1 (Z.lor PROT_READ PROT_WRITE) st1 in
  let '(linkMap, st3) := map_region fd (maps mapped) 2 PROT_READ st2 in
  clean st3 -> textMap = TEXT_REGION_BASE /\ dataMap = DATA_REGION_BASE /\ linkMap = LINK_REGION_BASE /\ regions_mapped mapped st st3.
Proof using fit wf rec Hu Hfile.
  intros Hfd Ha Hun. destruct (map_region fd _ 0 _ st) as [t st1] eqn:E1. destruct (map_region fd _ 1 _ st1) as [d st2] eqn:E2. destruct (map_region fd _ 2 _ st2) as [l st3] eqn:E3. intros C3.
  assert (C2 : clean st2) by (pose proof (sticky_map fd (maps mapped) 2 PROT_READ st2 st2 (sticky_refl st2)) as Hs; rewrite E3 in Hs; auto).
  assert (C1 : clean st1) by (pose proof (sticky_map fd (maps mapped) 1 (Z.lor PROT_READ PROT_WRITE) st1 st1 (sticky_refl st1)) as Hs; rewrite E2 in Hs; auto).
  pose proof (one_region fd mapped 0 (Z.lor PROT_READ PROT_EXEC) st pos Hfd Ha ltac:(lia) ltac:(intros a Hr; apply Hun; by apply (region_inside 0))) as T. rewrite E1 in T. destruct (T C1) as (-> & T1 & T2 & T3 & T4 & T5 & T6).
  pose proof (one_region fd mapped 1 (Z.lor PROT_READ PROT_WRITE) st1 pos ltac:(by rewrite T3) T4 ltac:(lia)) as D. rewrite E2 in D.
  destruct (D ltac:(intros a Hr [Hx|Hx]%T6; [by apply (Hun a); [apply (region_inside 1)|]|by apply (regions_apart 1 0 a)]) C2) as (-> & D1 & D2 & D3 & D4 & D5 & D6).
  pose proof (one_region fd mapped 2 PROT_READ st2 pos ltac:(by rewrite D3, T3) D4 ltac:(lia)) as N. rewrite E3 in N.
  destruct (N ltac:(intros a Hr [[Hx|Hx]%T6|Hx]%D6; [by apply (Hun a); [apply (region_inside 2)|]|by apply (regions_apart 2 0 a)|by apply (regions_apart 2 1 a)]) C3) as (-> & N1 & N2 & N3 & N4 & N5 & N6).
  split; [done|]. split; [done|]. split; [done|]. split; [by eapply carried_then; [|eapply carried_then]|done|congruence|congruence| |].
  - intros r i Hr Hi. assert (r = 0 \/ r = 1 \/ r = 2) as [->|[->| ->]] by lia; [| |by apply N5].
    + assert (U1 : used st1 (region_base 0 + i)) by (apply T6; right; lia). assert (U2 : used st2 (region_base 0 + i)) by (apply D6; by left).
      rewrite (carried_get _ _ _ N1 U2), (carried_get _ _ _ D1 U1). by apply T5.
    + assert (U2 : used st2 (region_base 1 + i)) by (apply D6; right; lia). rewrite (carried_get _ _ _ N1 U2). by apply D5.
  - intros a. rewrite N6, D6, T6. split.
    + intros [[[?|?]|?]|?]; [by left|right; exists 0|right; exists 1|right; exists 2]; (split; [lia|done]).
    + intros [?|(r & Hr & Hx)]; [tauto|]. assert (r = 0 \/ r = 1 \/ r = 2) as [->|[->| ->]] by lia; tauto.
Qed.

Lemma slide_entry mapped st : attached mapped file st -> let a := smap_at (mapped + slideMapOff) 1 in
  exists sz, 0 < sz /\ ms_slideInfoFileOffset (d_mem st) a = (if has_slide locs then gSlideInfoFileOff L else 0) /\ ms_slideInfoFileSize (d_mem st) a = (if has_slide locs then sz else 0).
Proof using fit wf rec Hu Hfile.
  intros Ha a. destruct (file_metadata mapped st Ha) as (sz & Hsz & Hm). exists sz. split; [done|]. unfold ms_slideInfoFileOffset, ms_slideInfoFileSize.
  replace (a + 24) with (mapped + (slideMapOff + 80)) by (unfold a, smap_at, sizeof_PantheraCacheMappingAndSlideInfo; lia).
  replace (a + 32) with (mapped + (slideMapOff + 88)) by (unfold a, smap_at, sizeof_PantheraCacheMappingAndSlideInfo; lia). exact (md_slide _ _ _ _ _ Hm).
Qed.

(** The state that [mapSplitCacheWithMmap] leaves. *)
Record split_mapped (mapped : Z) (st st' : dyld K) : Prop := {
  sm_carried : carried st st';
  sm_attached : attached mapped file st';
  sm_cache : d_cache st' = set_bases TEXT_REGION_BASE DATA_REGION_BASE LINK_REGION_BASE 0 (d_cache st);
  sm_memory : cache_memory (d_mem st') }.

Lemma split_mapped_intro mapped st st3 m : region_unused st -> outside_region mapped -> regions_mapped mapped st st3 -> (mem_wf (d_mem st3) -> mem_wf m) ->
  only_in DATA_REGION_BASE (gDataSize L) (d_mem st3) m -> data_restored m ->
  split_mapped mapped st (set_mem m (change_cache (set_bases TEXT_REGION_BASE DATA_REGION_BASE LINK_REGION_BASE 0) st3)).
Proof using fit wf rec Hu Hfile.
  intros Hun (O0 & O1 & O2) [R1 R2 R3 R4 R5 R6] Hw Ho Hd. destruct (region_ends ds fit 1 ltac:(lia)) as (_ & _ & E & _). change (region_size L 1) with (gDataSize L) in *. change (capacity 1) with 0x40000000 in *.
  assert (Hdata : forall a, DATA_REGION_BASE <= a < DATA_REGION_BASE + gDataSize L -> SHARED_REGION_BASE <= a < region_end) by (unfold DATA_REGION_BASE, SHARED_REGION_BASE, region_end; lia).
  assert (Hsame : forall a, ~ DATA_REGION_BASE <= a < DATA_REGION_BASE + gDataSize L -> mget m a = mget (d_mem st3) a) by (intros a Ha; apply Ho; lia). split.
  - destruct R1 as (C1 & C2 & C3 & C4). split_and!; [tauto|done|done|]. intros a Ha. destruct (C4 a Ha) as [U4 E4]. split; [exact U4|]. rewrite <- E4. apply Hsame. intros Hin. by apply (Hun a); [apply Hdata|].
  - intros i Hi. destruct (R2 i Hi) as [U4 E4]. split; [exact U4|]. rewrite <- E4. apply Hsame. intros Hin. apply Hdata in Hin. lia.
  - cbn [set_mem change_cache set_cache d_cache]. by rewrite R3.
  - split; [|exact Hd]. intros r i Hr Hi. rewrite <- plain_region by done. rewrite <- (R5 r i) by lia. apply Hsame. apply (regions_apart r 1 (region_base r + i)); [lia|lia|destruct Hr; lia|lia].
Qed.

Lemma with_mmap_ok fd mapped st pos : fds st !! fd = Some (file, pos) -> attached mapped file st -> region_unused st -> outside_region mapped -> sCacheMap (d_cache st) = mapped ->
  let '(r, st') := mapSplitCacheWithMmap fd (maps mapped) (mapped + slideMapOff) st in clean st' -> r = Some true /\ split_mapped mapped st st'.
Proof using fit wf rec Hu Hfile.
  intros Hfd Ha Hun Hout Hmap. pose proof (three_regions fd mapped st pos Hfd Ha Hun) as H3. unfold mapSplitCacheWithMmap. destruct (map_region fd _ 0 _ st) as [t st1]. destruct (map_region fd _ 1 _ st1) as [d st2].
  destruct (map_region fd _ 2 _ st2) as [l st3]. destruct (d_refused st3) eqn:R3.
  { assert (Hno : forall st', sticky st3 st' -> ~ clean st') by (intros st' Hs Hc%Hs; unfold clean in Hc; congruence).
    destruct (_ || _); [intros []%Hno; auto 10 with sticky|]. destruct (_ && _); [|intros []%Hno; auto with sticky]. destruct (applySlidInfoV2 _ _ _ _); (intros []%Hno; auto with sticky). }
  destruct (H3 R3) as (-> & -> & -> & HM). change (_ || _) with false. cbv iota. change (d_mem (change_cache _ st3)) with (d_mem st3).
  change (sCacheMap (d_cache (change_cache _ st3))) with (sCacheMap (d_cache st3)). rewrite (rm_cache _ _ _ HM), Hmap. destruct Hout as (O0 & O1 & O2) eqn:Eo. clear Eo.
  destruct (slide_entry mapped st3 (rm_attached _ _ _ HM)) as (sz & Hsz & -> & ->). destruct (Z.eqb_spec (mapped + slideMapOff) 0) as [E|_]; [unfold slideMapOff, mappingOff, sizeof_dyld_cache_header, sizeof_mapping_info in E; lia|].
  unfold has_slide. destruct (region_ends ds fit 1 ltac:(lia)) as (E1 & E2 & _). destruct (region_ends ds fit 2 ltac:(lia)) as (E5 & E6 & E3 & _). destruct (layout_regions ds fit) as ((M1 & _) & _). assert (Ei : imagesOff = 776) by reflexivity.
  pose proof (names_size_range ds (fit_names _ fit)). destruct (decide (locs = [])) as [El|Hne].
  - rewrite bool_decide_eq_true_2 by done. cbn [negb andb Z.ltb Z.compare]. intros _. split; [done|]. apply (split_mapped_intro mapped st st3 (d_mem st3)); try done. split; [rewrite El; intros x Hx; by apply elem_of_nil in Hx|].
    intros i Hi _. pose proof (rm_bytes _ _ _ HM 1 i ltac:(lia) Hi) as Hb. change (region_base 1) with DATA_REGION_BASE in Hb. rewrite Hb. apply outside_file; [|rewrite El; intros x Hx; by apply elem_of_nil in Hx].
    change (region_off L 1) with (gDataFileOff L) in *. change (region_size L 1) with (gDataSize L) in *. lia.
  - rewrite bool_decide_eq_false_2 by done. cbn [negb]. destruct (Z.ltb_spec 0 sz); [|lia]. destruct (Z.ltb_spec 0 (gSlideInfoFileOff L)); [|lia]. cbn [andb].
    destruct (finish_ok uuid ds locs b file fit wf rec Hu Hfile) as (_ & _ & _ & _ & _ & _ & Hlen & _).
    destruct (slide_applied mapped (d_mem st3) Hne ltac:(intros i Hi; by apply (rm_attached _ _ _ HM)) ltac:(intros i Hi; by apply (rm_bytes _ _ _ HM 1)) O0 O1 O2) as (m' & Em & Hd & Ho).
    assert (Hl : gSlideInfoFileOff L <= Z.of_nat (length file)).
    { assert (0 <= page_count (gDataSize L)); [|unfold sizeof_slide_info2 in *; lia]. change (region_size L 1) with (gDataSize L) in *. destruct (region_ends ds fit 1 ltac:(lia)) as (_ & _ & E4 & _). change (region_size L 1) with (gDataSize L) in *.
      unfold page_count, PAGE_SZ; apply Z.div_pos; lia. }
    rewrite wrap_small by lia. rewrite Em. intros _. split; [done|]. by apply split_mapped_intro; [| | |intros Hw; by apply (apply_wf _ _ _ _ _ Hw Em)| |].
Qed.

Hypothesis texts : forall d, d ∈ ds -> text_ok d.

Definition cache_flags (c : cache_state) : Prop :=
  sCacheValid c = true /\ sCacheSplitRegion c = true /\ sCachePreResolved c = true /\ sCacheSlide c = 0 /\ sCacheImageCount c = Z.of_nat (length ds) /\
  sCacheTextBase c = TEXT_REGION_BASE /\ sCacheDataBase c = DATA_REGION_BASE /\ sCacheLinkBase c = LINK_REGION_BASE /\
  sCacheTextAddr c = TEXT_REGION_BASE /\ sCacheTextSize c = gTextSize L /\ sCacheLinkFileOffset c = gLinkFileOff L.

(** The cache is in memory as the builder meant it. *)
Record cache_ready (st st' : dyld K) : Prop := {
  cr_carried : carried st st';
  cr_flags : cache_flags (d_cache st');
  cr_memory : cache_memory (d_mem st');
  cr_found : forall i d path, cached !! i = Some d -> _basename (cstr (d_mem st') path) = _basename (d_installName d) ->
    (forall j e, (j < i)%nat -> cached !! j = Some e -> _basename (d_installName e) <> _basename (d_installName d)) ->
    exists n, findDylibInCache (d_mem st') (d_cache st') path = Some (text_vmaddr d, n) /\ forall si, nth_seg d (d_textSegIdx d) = Some si -> aligned_size si <= n }.

Lemma file_size : 776 + 32 * Z.of_nat (length ds) <= Z.of_nat (length file).
Proof using fit wf rec Hu Hfile.
  destruct (finish_ok uuid ds locs b file fit wf rec Hu Hfile) as (_ & _ & _ & _ & _ & _ & Hlen & _). destruct (layout_regions ds fit) as ((M1 & _) & _). assert (Ei : imagesOff = 776) by reflexivity.
  pose proof (names_size_range ds (fit_names _ fit)). destruct (region_ends ds fit 1 ltac:(lia)) as (E1 & E2 & E3 & _). change (region_size L 1) with (gDataSize L) in *.
  assert (0 <= page_count (gDataSize L)); [|unfold sizeof_slide_info2 in *; lia]. unfold page_count, PAGE_SZ; apply Z.div_pos; lia.
Qed.

Lemma split_ok fd mapped st pos : fds st !! fd = Some (file, pos) -> attached mapped file st -> region_unused st -> outside_region mapped ->
  let '(r, st') := map_split_cache false fd mapped (Z.of_nat (length file)) imagesOff (Z.of_nat (length ds)) mappingOff 3 st in clean st' -> r = true /\ cache_ready st st'.
Proof using All.
  intros Hfd Ha Hun Hout. destruct (file_metadata mapped st Ha) as (sz & Hsz & Hm).
  pose proof file_size as Hl.
  unfold map_split_cache. cbv zeta. destruct (md_slides _ _ _ _ _ Hm) as [S1 S2].
  assert (Es : slide_table (d_mem st) mapped (Z.of_nat (length file)) = mapped + slideMapOff).
  { unfold slide_table, ch_mappingWithSlideCount, ch_mappingWithSlideOffset, sizeof_PantheraCacheHeader, sizeof_PantheraCacheMappingAndSlideInfo. rewrite S1, S2. assert (slideMapOff = 608) as -> by reflexivity.
    destruct (Z.leb_spec 512 (Z.of_nat (length file))); [|lia]. destruct (Z.leb_spec (608 + 3 * 56) (Z.of_nat (length file))); [done|lia]. }
  rewrite Es. set (st1 := change_cache _ st). pose proof (with_mmap_ok fd mapped st1 pos Hfd Ha Hun Hout eq_refl) as Hw. destruct (mapSplitCacheWithMmap _ _ _ st1) as [[[]|] st2].
  2: { intros Hc. assert (C2 : clean st2); [|by destruct (Hw C2)]. revert Hc. change (sticky st2 (sys_close fd (sys_munmap mapped (Z.of_nat (length file)) (change_cache (set_table false false 0 0 0) st2)))). auto with sticky. }
  2: { intros Hc. by destruct (Hw Hc). }
  set (st3 := change_cache _ st2). intros Hc. assert (C2 : clean st2) by (revert Hc; change (sticky st2 (sys_close fd st3)); apply sticky_close, sticky_cache, sticky_refl). destruct (Hw C2) as [_ [W1 W2 W3 W4]]. split; [done|].
  destruct (region_fields mapped st 0 Ha ltac:(lia)) as (F1 & F2 & _). destruct (region_fields mapped st 2 Ha ltac:(lia)) as (_ & _ & F3).
  assert (Hfl : cache_flags (d_cache (sys_close fd st3))).
  { change (d_cache (sys_close fd st3)) with (set_table true (sCacheSplitRegion (d_cache st2)) (sCacheMap (d_cache st2)) (sCacheImages (d_cache st2)) (sCacheImageCount (d_cache st2)) (d_cache st2)). rewrite W3.
    unfold cache_flags. cbn [set_table set_bases set_regions set_cache change_cache st1 d_cache sCacheValid sCacheSplitRegion sCachePreResolved sCacheSlide sCacheImageCount sCacheTextBase sCacheDataBase sCacheLinkBase sCacheTextAddr sCacheTextSize sCacheLinkFileOffset].
    rewrite F1, F2, F3. by split_and!. }
  assert (Hcar : carried st (sys_close fd st3)).
  { destruct (sys_close_ok fd st3) as (Q1 & Q2 & _). assert (X1 : carried st st1) by apply carried_cache. assert (X3 : carried st2 st3) by apply carried_cache. pose proof (kept_carried _ _ Q1 Q2) as X4.
    exact (carried_then _ _ _ X1 (carried_then _ _ _ W1 (carried_then _ _ _ X3 X4))). }
  split; [exact Hcar|exact Hfl|exact W4|]. intros i d path Hi Hb Hfirst. destruct (file_metadata mapped st2 W2) as (sz' & _ & Hm2). destruct Hfl as (L1 & L2 & L3 & L4 & L5 & L6 & L7 & L8 & L9 & L10 & L11).
  assert (Hmp : sCacheMap (d_cache (sys_close fd st3)) = mapped /\ sCacheImages (d_cache (sys_close fd st3)) = mapped + imagesOff).
  { change (sCacheMap (d_cache st2) = mapped /\ sCacheImages (d_cache st2) = mapped + imagesOff). by rewrite W3. }
  destruct Hmp as [Hm3 Hm4]. exact (library_found ds (d_mem st2) (d_cache (sys_close fd st3)) mapped (set_slide_size sz' L) (has_slide locs) fit texts Hm2 L1 L2 Hm3 Hm4 L5 L9 L10 L4 i d path Hi Hb Hfirst).
Qed.

Lemma cache_ready_carried st0 st st' : carried st0 st -> cache_ready st st' -> cache_ready st0 st'.
Proof. intros Hc [R1 R2 R3 R4]. split; [by eapply carried_then|done..]. Qed.

Lemma attached_file fd st pos : fds st !! fd = Some (file, pos) -> region_reserved -> region_unused st -> Z.of_nat (length file) < 2 ^ 40 ->
  let '(mapped, st') := sys_mmap 0 (Z.of_nat (length file)) PROT_READ MAP_PRIVATE fd 0 st in
  clean st' -> 0 < mapped /\ outside_region mapped /\ attached mapped file st' /\ region_unused st' /\ carried st st' /\ fds st' = fds st.
Proof using All.
  intros Hfd Hres Hun Hlen. pose proof (Hres (Z.of_nat (length file)) PROT_READ fd (d_kernel st) ltac:(lia)) as Hr. pose proof (sys_mmap_private_ok (Z.of_nat (length file)) PROT_READ fd st file pos ltac:(lia) Hfd) as Hm.
  unfold sys_mmap in *. destruct (k_mmap _ _ _ _ _ _ _) as [[mapped bs] k]. set (st' := set_kernel _ _ _) in *. destruct Hm as (Hq & Hk & Hd & [(_ & _ & Hc)|(M1 & M2 & M3 & M4 & M5 & M6)]); [done|]. intros _.
  destruct (pageRoundUp_le (Z.of_nat (length file)) ltac:(lia)) as [Hp _]. unfold in_pages in *. split; [done|]. split; [split_and!; [done|lia|lia]|]. split; [|split; [|split; [by apply kept_carried|exact Hd]]].
  - intros i Hi. split; [apply M6; right; lia|]. rewrite (filled_in _ _ _ _ _ _ M5) by lia. f_equal. lia.
  - intros a Ha [Hx|Hx]%M6; [by apply (Hun a)|lia].
Qed.

Lemma use_ok fd mapped st pos : fds st !! fd = Some (file, pos) -> attached mapped file st -> region_unused st -> outside_region mapped ->
  let '(r, st') := use_cache_file false fd mapped (Z.of_nat (length file)) st in clean st' -> r = true /\ cache_ready st st'.
Proof using All.
  intros Hfd Ha Hun Hout. destruct (file_metadata mapped st Ha) as (sz & Hsz & Hm). pose proof (file_size) as Hl. unfold use_cache_file. rewrite (bool_decide_eq_true_2 _ (md_magic _ _ _ _ _ Hm)). cbn [negb].
  assert (Ei : imagesOff = 776) by reflexivity. destruct (Z.ltb_spec (Z.of_nat (length file)) 232); [lia|]. destruct (md_mappings _ _ _ _ _ Hm) as [-> ->], (md_images _ _ _ _ _ Hm) as [I1 I2].
  assert (Et : images_table (d_mem st) mapped (Z.of_nat (length file)) = (imagesOff, Z.of_nat (length ds))).
  { unfold images_table, ch_imagesOffset, ch_imagesCount, sizeof_PantheraCacheHeader. rewrite I1, I2, cached_length. destruct (Z.leb_spec 512 (Z.of_nat (length file))); [done|lia]. }
  rewrite Et. unfold sizeof_PantheraCacheImageInfo. cbv zeta. destruct (Z.ltb_spec (Z.of_nat (length file)) (imagesOff + Z.of_nat (length ds) * 32)); [lia|].
  change (3 <=? 3) with true. change (0 <? mappingOff) with true. unfold sizeof_PantheraCacheMappingInfo at 1. destruct (Z.leb_spec (mappingOff + 3 * 32) (Z.of_nat (length file))) as [_|Hx]; [|change (mappingOff + 3 * 32) with 608 in Hx; lia].
  cbn [andb]. pose proof (split_ok fd mapped (change_cache (set_base (ch_sharedRegionStart (d_mem st) mapped)) st) pos Hfd Ha Hun Hout) as Hs. destruct (map_split_cache _ _ _ _ _ _ _ _ _) as [r st']. intros Hc.
  destruct (Hs Hc) as [-> Hr]. split; [done|]. eapply cache_ready_carried; [apply carried_cache|exact Hr].
Qed.

Lemma map_cache_file_ok fd st pos : fds st !! fd = Some (file, pos) -> region_reserved -> region_unused st ->
  let '(r, st') := map_cache_file false fd st in clean st' -> r = true /\ cache_ready st st'.
Proof using All.
  intros Hfd Hres Hun. destruct (finish_ok uuid ds locs b file fit wf rec Hu Hfile) as (_ & _ & _ & _ & _ & _ & Hlen & _).
  unfold map_cache_file in *. pose proof (sys_fstat_ok fd st) as Hf. destruct (sys_fstat fd st) as [[r0 size] st1]. destruct Hf as (Q1 & K1 & _ & U1 & D1 & [(_ & Hc)|(_ & bs & off & Hb & ->)]).
  - apply (sticky_result st1); [|by intros ?%Hc]. set (st2 := change_cache _ st1). pose proof (sticky_mmap 0 size PROT_READ MAP_PRIVATE fd 0 st2 st1 (sticky_cache _ _ _ (sticky_refl _))) as S2.
    destruct (sys_mmap _ _ _ _ _ _ _) as [mapped st3]. by apply sticky_after_mmap.
  - rewrite Hfd in Hb. injection Hb as <- <-. set (st2 := change_cache _ st1). pose proof (attached_file fd st2 pos ltac:(by change (d_kernel st2) with (d_kernel st1); rewrite D1) Hres ltac:(unfold region_unused; change (d_kernel st2) with (d_kernel st1); by rewrite U1) ltac:(lia)) as Hm.
    destruct (sys_mmap _ _ _ _ _ _ _) as [mapped st3]. apply (sticky_result st3); [by apply sticky_after_mmap, sticky_refl|]. intros C3. destruct (Hm C3) as (M1 & M2 & M3 & M4 & M5 & M6). destruct (Z.leb_spec mapped 0); [lia|].
    pose proof (use_ok fd mapped st3 pos ltac:(rewrite M6; change (d_kernel st2) with (d_kernel st1); by rewrite D1) M3 M4 M2) as Hs. destruct (use_cache_file _ _ _ _ _) as [r st']. intros Hc. destruct (Hs Hc) as [-> Hr]. split; [done|].
    eapply cache_ready_carried; [|exact Hr]. eapply carried_then; [by apply kept_carried|]. eapply carried_then; [apply (carried_cache (set_file_size (Z.of_nat (length file))))|exact M5].
Qed.
End Builder.

(** C34. The builder's file, mapped by dyld. [b] is the builder's buffer with the fixups
    applied and [locs] the pointers it has recorded in DATA. When no system call
    fails, [initSharedCache] returns with the cache in use: TEXT and LINKEDIT are at
    their addresses as they are in the buffer, the recorded pointers of DATA are
    restored and its other bytes are those of the buffer, every library is found by
    its name, unless an earlier one has the same last part, with its TEXT address and
    at least the size of its TEXT, and all that was in memory before is unchanged. *)
Theorem cache_mapped (uuid : list Z) (ds : list DylibInfo) (locs : list Z) (b : mem) (file : list Z) (st : dyld K) :
  dylibs_fit ds -> (forall d, d ∈ ds -> text_ok d) -> mem_wf b -> (locs <> [] -> recorded (gDataFileOff (layout_of ds)) (gDataSize (layout_of ds)) locs b) -> length uuid = 16%nat ->
  finish_cache uuid (assign_addresses ds).2 (assign_addresses ds).1 locs b = Some file ->
  k_files (d_kernel st) CACHE_PATH_PRIMARY = Some file -> region_reserved -> region_unused st ->
  let '(r, st') := initSharedCache false st in clean st' -> r = true /\ cache_ready ds locs b st st'.
Proof using All.
  intros fit texts wf rec Hu Hf Hp Hres Hun. unfold initSharedCache, openSharedCacheFile. pose proof (open_path_ok CACHE_PATH_PRIMARY st) as Ho. pose proof (open_path_used CACHE_PATH_PRIMARY st) as Eu.
  destruct (open_path CACHE_PATH_PRIMARY st) as [fd st1]. cbn [snd] in Eu. destruct Ho as (Q1 & K1 & _ & [(Hn & _ & Hc)|(Hn & _ & bs & Hb & Hd)]).
  - destruct (Z.leb_spec 0 fd); [lia|]. assert (S2 : sticky st1 (open_path CACHE_PATH_FALLBACK st1).2) by (unfold open_path; destruct (k_open _ _); apply sticky_kernel, sticky_refl).
    destruct (open_path CACHE_PATH_FALLBACK st1) as [fd2 st2]. apply (sticky_result st1); [|by intros ?%Hc]. destruct (fd2 <? 0); [exact S2|]. eapply sticky_then; [exact S2|apply sticky_file].
  - destruct (Z.leb_spec 0 fd); [|lia]. destruct (Z.ltb_spec fd 0); [lia|]. rewrite Hp in Hb. injection Hb as <-.
    pose proof (map_cache_file_ok uuid ds locs b file fit wf rec Hu Hf texts fd st1 0 ltac:(by rewrite Hd, lookup_insert_eq) Hres ltac:(unfold region_unused; by rewrite Eu)) as Hm.
    destruct (map_cache_file false fd st1) as [r st']. intros Hc. destruct (Hm Hc) as [-> Hr]. split; [done|]. eapply cache_ready_carried; [by apply kept_carried|exact Hr].
Qed.
End Mapped.

(** ** A cache of two libraries *)
Definition two_locs : list Z := [gDataFileOff (layout_of two_libraries)].
Definition two_buf : mem := copy_segments (assign_addresses two_libraries).2 (assign_addresses two_libraries).1 ∅.
Definition two_file : list Z := default [] (finish_cache (repeat 7 16) (assign_addresses two_libraries).2 (assign_addresses two_libraries).1 two_locs two_buf).
Definition cache_files : list (list Z * list Z) := [(CACHE_PATH_PRIMARY, two_file)].
Definition cache_start : dyld sample := mkDyld (mstore ∅ 0x100 (str "/usr/lib/b.dylib" ++ [0])) no_cache [] empty_index 0 false (mkSample ∅ []).

#[local] Instance sample_region : SharedRegion sample := {
  k_region_check := fun _ k => (22, 0, k);
  k_region_map := fun _ _ _ k => (22, [], k) }.

Lemma two_texts d : d ∈ two_libraries -> text_ok d.
Proof. unfold two_libraries. rewrite !elem_of_cons, elem_of_nil. intros [->|[->|[]]]; (eexists; split; [reflexivity|reflexivity]). Qed.

Lemma two_recorded : recorded (gDataFileOff (layout_of two_libraries)) (gDataSize (layout_of two_libraries)) two_locs two_buf.
Proof.
  change (gDataFileOff (layout_of two_libraries)) with 0x3000. change (gDataSize (layout_of two_libraries)) with 4096. split; [lia|lia|apply copy_segments_wf, mem_wf_empty| | |discriminate].
  - intros x Hx. apply list_elem_of_singleton in Hx as ->. vm_compute. intuition discriminate.
  - intros x y Hx Hy. apply list_elem_of_singleton in Hx as ->. apply list_elem_of_singleton in Hy as ->. by left.
Qed.

Lemma two_file_built : finish_cache (repeat 7 16) (assign_addresses two_libraries).2 (assign_addresses two_libraries).1 two_locs two_buf = Some two_file.
Proof.
  unfold two_file. assert (E : is_Some (finish_cache (repeat 7 16) (assign_addresses two_libraries).2 (assign_addresses two_libraries).1 two_locs two_buf)) by (apply is_Some_bool; vm_compute; reflexivity).
  destruct E as [f ->]. reflexivity.
Qed.

Lemma cache_files_bytes : Forall (fun '(_, bs) => Forall byte bs /\ Z.of_nat (length bs) < 2 ^ 62) cache_files.
Proof.
  constructor; [|constructor]. assert (E : forallb (fun c => (0 <=? c) && (c <? 256)) two_file && (Z.of_nat (length two_file) <? 2 ^ 62) = true) by (vm_compute; reflexivity).
  apply andb_true_iff in E as [E1 E2]. split; [|lia]. apply Forall_forall. intros c Hc. rewrite forallb_forall in E1. specialize (E1 c (proj1 (list_elem_of_In _ _) Hc)). apply andb_true_iff in E1 as [E3 E4]. apply Z.leb_le in E3. apply Z.ltb_lt in E4. split; assumption.
Qed.

Lemma sample_reserved : @region_reserved sample (sample_kernel cache_files).
Proof.
  intros len prot fd k Hl. cbn [k_mmap sample_kernel]. unfold sample_mmap. change (MAP_PRIVATE =? Z.lor MAP_PRIVATE MAP_ANON) with false. change (MAP_PRIVATE =? MAP_PRIVATE) with true. cbv iota.
  destruct (s_fds k !! fd) as [[bs pos]|]; [|by left]. destruct (Z.ltb_spec (next_page (s_history k) + pageRoundUp len) sample_limit); [right; left|by left]. unfold sample_limit, SHARED_REGION_BASE in *. lia.
Qed.

Lemma cache_start_unused : @region_unused sample (sample_kernel cache_files) (sample_laws cache_files cache_files_bytes) cache_start.
Proof. intros a Ha Hu. change (0 <= a < sample_top) in Hu. unfold SHARED_REGION_BASE, sample_top in *. lia. Qed.

Lemma cache_mapped_witness : let '(r, st') := @initSharedCache sample (sample_kernel cache_files) sample_region false cache_start in
  r = true /\ mread (d_mem st') DATA_REGION_BASE 8 = 0x7FFF20000010 /\ exists n, findDylibInCache (d_mem st') (d_cache st') 0x100 = Some (0x7FFF20001000, n).
Proof.
  pose proof (@cache_mapped sample (sample_kernel cache_files) (sample_laws cache_files cache_files_bytes) sample_region (repeat 7 16) two_libraries two_locs two_buf two_file cache_start
    two_fit two_texts (copy_segments_wf _ _ _ mem_wf_empty) (fun _ => two_recorded) eq_refl two_file_built) as Hm.
  assert (E : d_refused (@initSharedCache sample (sample_kernel cache_files) sample_region false cache_start).2 = false) by (vm_compute; reflexivity).
  specialize (Hm ltac:(reflexivity) sample_reserved cache_start_unused).
  destruct (@initSharedCache sample (sample_kernel cache_files) sample_region false cache_start) as [r st']. cbn [snd] in E. destruct (Hm E) as [-> [C1 C2 [_ [C3 _]] C4]].
  split; [reflexivity|]. split.
  - transitivity (slid 0 (mread two_buf 0x3000 8)); [|vm_compute; reflexivity]. apply (C3 0x3000). by left.
  - assert (Hb : exists d, assigned two_libraries !! 1%nat = Some d /\ text_vmaddr d = 0x7FFF20001000 /\ d_installName d = str "/usr/lib/b.dylib") by (eexists; split; [vm_compute; reflexivity|by split]).
    destruct Hb as (d & Hd & Ed & En). assert (Hs : cstr (d_mem st') 0x100 = str "/usr/lib/b.dylib").
    { apply cstr_holds; [by repeat constructor|]. eapply (holds_ext (d_mem cache_start)); [|vm_compute; reflexivity]. intros a Ha. apply (carried_get _ _ _ C1). change (0 <= a < sample_top). cbn in Ha. unfold sample_top. lia. }
    destruct (C4 1%nat d 0x100 Hd) as (n & Hn & _); [by rewrite Hs, En| |exists n; rewrite <- Ed; exact Hn].
    intros j e Hj He. assert (j = 0%nat) as -> by lia. assert (Hx : d_installName e = str "/usr/lib/a.dylib") by (vm_compute in He; injection He as <-; reflexivity). rewrite Hx, En. vm_compute. discriminate.
Defined.
