(* ===== verification/Resolve.v ===== *)
(** * Resolving symbols: userland/dyld/panthera_dyld.cpp

    [resolveSymbol] looks a symbol up in the image an ordinal names and in the images
    it re-exports, or in all images. Images that are not loaded yet are loaded on the
    way. The search is an instance of what export tries and fixups need of dyld. *)

From Stdlib Require Import ZArith Lia Ascii String.
From stdpp Require Import base list gmap.
From S2P Require Import Prelude MachO Words Runs DyldImage SymbolIndex MachImage ExportTrie Linker Dyld Loader.

Open Scope Z_scope.

Definition BIND_SPECIAL_DYLIB_FLAT_LOOKUP : Z := -2.
Definition BIND_SPECIAL_DYLIB_WEAK_LOOKUP : Z := -3.

(** ** Loops that check the load commands

    Like [each_command], but the loop is left at a command that is not within
    [sizeofcmds]. *)
Section Checked.
Context {St R : Type} (mem_of : St -> mem).

Definition checked_step (mh cmdsEnd : Z) (f : Z -> St -> St + R) (done : St -> R) (s : Z * Z * St) : (Z * Z * St) + R :=
  let '(i, cmd, st) := s in
  if i <? mh_ncmds (mem_of st) mh then
    if cmdsEnd <? cmd + sizeof_load_command then inr (done st)
    else if (lc_cmdsize (mem_of st) cmd <? sizeof_load_command) || (cmdsEnd <? cmd + lc_cmdsize (mem_of st) cmd) then inr (done st)
    else
      match f cmd st with
      | inl st => inl (i + 1, cmd + lc_cmdsize (mem_of st) cmd, st)
      | inr r => inr r
      end
  else inr (done st).

Definition each_checked (mh : Z) (f : Z -> St -> St + R) (done : St -> R) (st : St) : R :=
  let cmd := mh + sizeof_mach_header_64 in
  while rounds32 (done st) (checked_step mh (cmd + mh_sizeofcmds (mem_of st) mh) f done) (0, cmd, st).
End Checked.

Section Resolve.
Context {K : Type} `{Kernel K} `{Layout}.

(** ** Images *)
Fixpoint index_from (self i : Z) (l : list LoadedImage) : Z :=
  match l with
  | [] => -1
  | img :: l => if img_self img =? self then i else index_from self (i + 1) l
  end.

(** The position of the image in the table, or -1. *)
Definition loadedImageIndex (img : LoadedImage) (st : dyld K) : Z :=
  index_from (img_self img) 0 (take (Z.to_nat MAX_IMAGES) (d_images st)).

(** The image a dylib command names, loaded if it is not yet. *)
Definition dylib_target (cmd : Z) (st : dyld K) : option LoadedImage * dyld K :=
  let m := d_mem st in
  let offset := dylib_name_offset m cmd in
  if lc_cmdsize m cmd <=? offset then (None, st)
  else
    let depPath := cmd + offset in
    let depPathMax := lc_cmdsize m cmd - offset in
    if _strnlen m depPath depPathMax =? depPathMax then (None, st)
    else
      match findLoadedImageByPathBounded depPath depPathMax st with
      | Some dep => (Some dep, st)
      | None => loadDependencyImage depPath st
      end.

Definition ordinal_command (ordinal cmd : Z) (s : Z * dyld K) : (Z * dyld K) + (option LoadedImage * dyld K) :=
  let '(current, st) := s in
  if is_dylib_command (d_mem st) cmd then
    if current + 1 =? ordinal then inr (dylib_target cmd st) else inl (current + 1, st)
  else inl (current, st).

Definition findOrdinalImage (importer : LoadedImage) (ordinal : Z) (st : dyld K) : option LoadedImage * dyld K :=
  if ordinal <=? 0 then (None, st)
  else each_checked (fun s => d_mem s.2) (img_header importer) (ordinal_command ordinal) (fun '(_, st) => (None, st)) (0, st).

#[export] Instance dyld_env : ImageEnv (dyld K) := {|
  env_mem := d_mem;
  env_cache := d_cache;
  env_ordinal := findOrdinalImage |}.

(** ** One image *)
Definition shouldSearchExportTrieForImage (img : LoadedImage) : bool := (img_symtab img =? 0) || (img_strtab img =? 0).

Definition find_symbol (img : LoadedImage) (name : Z) (includeLocals weakIn : bool) (st : dyld K) : Z * bool * dyld K :=
  let '(r, index) := findSymbolInImage (d_mem st) img name includeLocals weakIn (d_index st) in (r, set_index index st).

(** The symbol table, and the export trie of an image without one. *)
Definition image_symbol (img : LoadedImage) (name : Z) (includeLocals : bool) (st : dyld K) : Z * bool * dyld K :=
  let '(addr, isWeak, st) := find_symbol img name includeLocals false st in
  if (addr =? 0) && negb includeLocals && shouldSearchExportTrieForImage img
  then findExportTrieSymbolInImage img (cstr (d_mem st) name) isWeak st
  else (addr, isWeak, st).

Definition resolveSymbolInSingleImage (img : LoadedImage) (name : Z) (includeLocals : bool) (st : dyld K) : Z * bool * dyld K :=
  let '(addr, isWeak, st) := image_symbol img name includeLocals st in (addr, isWeak && negb (addr =? 0), st).

(** ** Re-exports *)

(** One load command of an image; [search] looks into what it re-exports. *)
Definition graph_command (search : LoadedImage -> list Z -> dyld K -> Z * bool * list Z * dyld K) (cmd : Z) (s : Z * list Z * dyld K)
    : (Z * list Z * dyld K) + (Z * bool * list Z * dyld K) :=
  let '(weakAddr, visited, st) := s in
  if lc_cmd (d_mem st) cmd =? LC_REEXPORT_DYLIB then
    match dylib_target cmd st with
    | (None, st) => inl (weakAddr, visited, st)
    | (Some dep, st) =>
        let '(addr, depWeak, visited, st) := search dep visited st in
        if negb (addr =? 0) && negb depWeak then inr (addr, false, visited, st)
        else inl (if negb (addr =? 0) && depWeak && (weakAddr =? 0) then addr else weakAddr, visited, st)
    end
  else inl (weakAddr, visited, st).

(** [n] is [9 - depth]; the images that have been visited are in [visited]. *)
Fixpoint resolveSymbolFromImageGraphInternal (n : nat) (img : LoadedImage) (name : Z) (includeLocals : bool)
    (visited : list Z) (st : dyld K) : Z * bool * list Z * dyld K :=
  match n with
  | O => (0, false, visited, st)
  | S n =>
      let imageIndex := loadedImageIndex img st in
      if (0 <=? imageIndex) && bool_decide (imageIndex ∈ visited) then (0, false, visited, st)
      else
        let visited := if 0 <=? imageIndex then imageIndex :: visited else visited in
        let '(addr, isWeak, st) := image_symbol img name includeLocals st in
        if negb (addr =? 0) && negb isWeak then (addr, false, visited, st)
        else
          each_checked (fun s => d_mem s.2) (img_header img)
            (graph_command (fun dep visited st => resolveSymbolFromImageGraphInternal n dep name includeLocals visited st))
            (fun '(weakAddr, visited, st) => (weakAddr, negb (weakAddr =? 0), visited, st))
            (if isWeak then addr else 0, visited, st)
  end.

Definition resolveSymbolFromImageGraph (img : LoadedImage) (name : Z) (includeLocals : bool) (st : dyld K) : Z * bool * dyld K :=
  let '(addr, isWeak, _, st) := resolveSymbolFromImageGraphInternal 9 img name includeLocals [] st in (addr, isWeak, st).

Definition libSystem_path : list Z := str "/usr/lib/libSystem.B.dylib".

Definition isLibSystemUmbrella (img : LoadedImage) (st : dyld K) : bool :=
  negb (img_path img =? 0) && (_strcmp (image_path st img) libSystem_path =? 0).

(** The images that [img] re-exports, but not theirs. *)
Definition direct_command (name : Z) (includeLocals : bool) (cmd : Z) (s : Z * dyld K) : (Z * dyld K) + (Z * bool * dyld K) :=
  let '(weakAddr, st) := s in
  if lc_cmd (d_mem st) cmd =? LC_REEXPORT_DYLIB then
    match dylib_target cmd st with
    | (None, st) => inl (weakAddr, st)
    | (Some dep, st) =>
        let '(addr, depWeak, st) := image_symbol dep name includeLocals st in
        if negb (addr =? 0) && negb depWeak then inr (addr, false, st)
        else inl (if negb (addr =? 0) && depWeak && (weakAddr =? 0) then addr else weakAddr, st)
    end
  else inl (weakAddr, st).

Definition resolveDirectReexportSymbol (img : LoadedImage) (name : Z) (includeLocals : bool) (st : dyld K) : Z * bool * dyld K :=
  each_checked (fun s => d_mem s.2) (img_header img) (direct_command name includeLocals)
    (fun '(weakAddr, st) => (weakAddr, negb (weakAddr =? 0), st)) (0, st).

(** ** All images *)
Fixpoint flat_from (l : list LoadedImage) (name : Z) (includeLocals : bool) (weakAddr : Z) (st : dyld K) : Z * dyld K :=
  match l with
  | [] => (weakAddr, st)
  | img :: l =>
      let '(addr, isWeak, st) := find_symbol img name includeLocals false st in
      if negb (addr =? 0) && negb isWeak then (addr, st)
      else flat_from l name includeLocals (if negb (addr =? 0) && isWeak && (weakAddr =? 0) then addr else weakAddr) st
  end.

Definition resolveFlatNamespaceSymbol (name : Z) (includeLocals : bool) (weakAddr : Z) (st : dyld K) : Z * dyld K :=
  flat_from (d_images st) name includeLocals weakAddr st.

(** ** resolveSymbol *)

(** [while (name[0] && name[0] != '_') name++]. *)
Fixpoint skip_prefix (s : list Z) (name : Z) : Z :=
  match s with
  | [] => name
  | c :: s => if c =? ch "_" then name else skip_prefix s (name + 1)
  end.

(** In the image an ordinal names. *)
Definition resolve_preferred (preferred : LoadedImage) (name : Z) (includeLocals : bool) (st : dyld K) : Z * dyld K :=
  let '(addr, preferredWeak, st) :=
    if isLibSystemUmbrella preferred st then resolveDirectReexportSymbol preferred name includeLocals st else (0, false, st) in
  let weakAddr := if negb (addr =? 0) && preferredWeak then addr else 0 in
  let '(addr, preferredWeak, weakAddr, st) :=
    if (addr =? 0) || preferredWeak then
      let '(graphAddr, graphWeak, st) := resolveSymbolFromImageGraph preferred name includeLocals st in
      if negb (graphAddr =? 0) && negb graphWeak then (graphAddr, false, weakAddr, st)
      else if negb (graphAddr =? 0) && graphWeak && (weakAddr =? 0) then (addr, true, graphAddr, st)
      else (addr, preferredWeak, weakAddr, st)
    else (addr, preferredWeak, weakAddr, st) in
  if negb (addr =? 0) && negb preferredWeak then (addr, st)
  else (if negb (addr =? 0) && preferredWeak then addr else weakAddr, st).

Definition resolveSymbol (name ordinal : Z) (includeLocals : bool) (importer : option LoadedImage) (st : dyld K) : Z * dyld K :=
  let s := cstr (d_mem st) name in
  let name := if negb (_strcmp s (str "dyld_stub_binder") =? 0) then skip_prefix s name else name in
  let s := cstr (d_mem st) name in
  if _strcmp s (str "_ttyname") =? 0 then (panthera_ttyname_shim, st)
  else if (_strcmp s (str "_ttyname_r") =? 0) || (_strcmp s (str "_ttyname_r$UNIX2003") =? 0) then (panthera_ttyname_r_shim, st)
  else if (ordinal =? BIND_SPECIAL_DYLIB_FLAT_LOOKUP) || (ordinal =? BIND_SPECIAL_DYLIB_WEAK_LOOKUP)
  then resolveFlatNamespaceSymbol name includeLocals 0 st
  else if ordinal <? BIND_SPECIAL_DYLIB_WEAK_LOOKUP then (0, st)
  else
    match importer with
    | Some importer =>
        if 0 <? ordinal then
          match findOrdinalImage importer ordinal st with
          | (None, st) => (0, st)
          | (Some preferred, st) => resolve_preferred preferred name includeLocals st
          end
        else resolveFlatNamespaceSymbol name includeLocals 0 st
    | None => resolveFlatNamespaceSymbol name includeLocals 0 st
    end.

#[export] Instance dyld_linker : Linker (dyld K) := {|
  ln_mem := d_mem;
  ln_set_mem := set_mem;
  ln_cache := d_cache;
  ln_logged := d_logged;
  ln_set_logged := set_logged;
  ln_resolve name ordinal includeLocals importer := resolveSymbol name ordinal includeLocals (Some importer);
  ln_mprotect := sys_mprotect |}.
End Resolve.
