(* ===== verification/SymbolSearch.v ===== *)
(** * What the search for symbols guarantees: userland/dyld/panthera_dyld.cpp

    Searching leaves the memory in use alone, so dyld is a linker in the sense of the
    fixups; and the definition it returns is the one the re-exports lead to. *)

From Stdlib Require Import ZArith Lia Ascii String.
From stdpp Require Import base list gmap.
From S2P Require Import Prelude MachO Words Runs DyldImage SymbolIndex MachImage ExportTrie Linker Dyld DyldKernel Loader LoadImage Resolve.

Open Scope Z_scope.

Lemma each_checked_inv {St R} (mem_of : St -> mem) (I : St -> Prop) (Q : R -> Prop) mh f done st : I st -> (forall s, I s -> Q (done s)) ->
  (forall c s, I s -> match f c s with inl s' => I s' | inr r => Q r end) -> Q (each_checked mem_of mh f done st).
Proof.
  intros Hs Hd Hf. unfold each_checked. apply (while_inv _ (fun '(_, _, s) => I s)); [done|by apply Hd|].
  intros [[i c] s] HI. cbn [checked_step]. destruct (i <? _); [|by apply Hd]. destruct (_ <? c + _); [by apply Hd|]. destruct (_ || _); [by apply Hd|].
  specialize (Hf c s HI). by destruct (f c s).
Qed.

(** ** Memory in use *)
Section Searched.
Context {K : Type} `{KernelLaws K} `{Layout}.

(** What a search does to the state: it may load images and index their symbols. *)
Definition searched (st st' : dyld K) : Prop :=
  d_ok st' /\ kept (fun _ => True) st st' /\ d_logged st' = d_logged st /\ k_fds (d_kernel st') = k_fds (d_kernel st) /\ exists l, d_images st' = d_images st ++ l.

Lemma searched_refl st : d_ok st -> searched st st.
Proof. intros Hok. split_and!; try done. exists []. by rewrite app_nil_r. Qed.

Lemma searched_loads st0 st st' : searched st0 st -> loads st st' -> searched st0 st'.
Proof.
  intros (O1 & K1 & L1 & D1 & (l1 & I1)) Hl. pose proof Hl as (K2 & _ & L2 & D2 & (l2 & I2)). split_and!; [by eapply loads_ok|by eapply kept_then|congruence|congruence|].
  exists (l1 ++ l2). by rewrite I2, I1, app_assoc.
Qed.

Lemma searched_index st0 st i : searched st0 st -> searched st0 (set_index i st).
Proof. done. Qed.

Lemma dylib_target_searched cmd st0 st : searched st0 st -> searched st0 (dylib_target cmd st).2.
Proof.
  intros Hs. unfold dylib_target. destruct (_ <=? _); [done|]. destruct (_ =? _); [done|]. destruct (findLoadedImageByPathBounded _ _ _); [done|].
  eapply searched_loads; [done|]. apply loadDependencyImage_loads, Hs.
Qed.

Lemma findOrdinalImage_searched img o st0 st : searched st0 st -> searched st0 (findOrdinalImage img o st).2.
Proof.
  intros Hs. unfold findOrdinalImage. destruct (o <=? 0); [done|].
  apply (each_checked_inv _ (fun s => searched st0 s.2) (fun r => searched st0 r.2)); [done|by intros []|].
  intros c [n s] Hn. cbn in *. destruct (is_dylib_command _ _); [|done]. destruct (_ =? o); [by apply dylib_target_searched|done].
Qed.

Lemma find_symbol_searched img name loc w st0 st : searched st0 st -> searched st0 (find_symbol img name loc w st).2.
Proof. intros Hs. unfold find_symbol. by destruct (findSymbolInImage _ _ _ _ _ _). Qed.

Lemma image_symbol_searched img name loc st0 st : searched st0 st -> searched st0 (image_symbol img name loc st).2.
Proof.
  intros Hs. unfold image_symbol. pose proof (find_symbol_searched img name loc false st0 st Hs) as Hf. destruct (find_symbol _ _ _ _ _) as [[a w] st1].
  destruct (_ && _); [|done]. apply (trie_search_inv (searched st0)); [|done]. intros i o s. apply findOrdinalImage_searched.
Qed.

Lemma graph_searched n : forall img name loc visited st0 st, searched st0 st -> searched st0 (resolveSymbolFromImageGraphInternal n img name loc visited st).2.
Proof.
  induction n as [|n IH]; intros img name loc visited st0 st Hs; cbn [resolveSymbolFromImageGraphInternal]; [done|]. destruct (_ && _); [done|].
  pose proof (image_symbol_searched img name loc st0 st Hs) as Hf. destruct (image_symbol _ _ _ _) as [[a w] st1]. destruct (_ && _); [done|].
  apply (each_checked_inv _ (fun s => searched st0 s.2) (fun r => searched st0 r.2)); [done|by intros [[] ]|].
  intros c [[wa v] s] Hn. cbn [snd graph_command] in *. destruct (_ =? _); [|done]. pose proof (dylib_target_searched c st0 s Hn) as Hd. destruct (dylib_target _ _) as [[dep|] s1]; [|done].
  specialize (IH dep name loc v st0 s1 Hd). destruct (resolveSymbolFromImageGraphInternal _ _ _ _ _ _) as [[[a2 w2] v2] s2]. by destruct (_ && _).
Qed.

Lemma direct_searched img name loc st0 st : searched st0 st -> searched st0 (resolveDirectReexportSymbol img name loc st).2.
Proof.
  intros Hs. unfold resolveDirectReexportSymbol. apply (each_checked_inv _ (fun s => searched st0 s.2) (fun r => searched st0 r.2)); [done|by intros []|].
  intros c [wa s] Hn. cbn [snd direct_command] in *. destruct (_ =? _); [|done]. pose proof (dylib_target_searched c st0 s Hn) as Hd. destruct (dylib_target _ _) as [[dep|] s1]; [|done].
  pose proof (image_symbol_searched dep name loc st0 s1 Hd) as Hi. destruct (image_symbol _ _ _ _) as [[a2 w2] s2]. by destruct (_ && _).
Qed.

Lemma flat_searched l name loc st0 : forall w st, searched st0 st -> searched st0 (flat_from l name loc w st).2.
Proof.
  induction l as [|img l IH]; intros w st Hs; cbn [flat_from]; [done|]. pose proof (find_symbol_searched img name loc false st0 st Hs) as Hf.
  destruct (find_symbol _ _ _ _ _) as [[a wk] st1]. destruct (_ && _); [done|by apply IH].
Qed.

Lemma preferred_searched img name loc st0 st : searched st0 st -> searched st0 (resolve_preferred img name loc st).2.
Proof.
  intros Hs. unfold resolve_preferred.
  match goal with |- context [if isLibSystemUmbrella img st then ?x else ?y] => set (r := if isLibSystemUmbrella img st then x else y); assert (Hr : searched st0 r.2) end.
  { unfold r. destruct (isLibSystemUmbrella _ _); [by apply direct_searched|done]. }
  destruct r as [[a w] st1]. cbn [snd] in Hr.
  assert (Hg : searched st0 (resolveSymbolFromImageGraph img name loc st1).2).
  { unfold resolveSymbolFromImageGraph. pose proof (graph_searched 9 img name loc [] st0 st1 Hr) as Hg. by destruct (resolveSymbolFromImageGraphInternal _ _ _ _ _ _) as [[[? ?] ?] ?]. }
  destruct (resolveSymbolFromImageGraph _ _ _ _) as [[ga gw] st2]. cbn [snd] in Hg.
  destruct ((a =? 0) || w); [|by destruct (_ && _)].
  destruct (negb (ga =? 0) && negb gw); [by destruct (_ && _)|]. destruct (negb (ga =? 0) && gw && _); by destruct (_ && _).
Qed.

Lemma resolveSymbol_searched name o loc importer st0 st : searched st0 st -> searched st0 (resolveSymbol name o loc importer st).2.
Proof.
  intros Hs. unfold resolveSymbol. cbv zeta. generalize (if negb (_strcmp (cstr (d_mem st) name) (str "dyld_stub_binder") =? 0) then skip_prefix (cstr (d_mem st) name) name else name). intros nm.
  destruct (_strcmp _ (str "_ttyname") =? 0); [done|]. destruct ((_strcmp _ _ =? 0) || _); [done|]. destruct ((o =? _) || _); [by apply flat_searched|].
  destruct (o <? _); [done|]. destruct importer as [img|]; [|by apply flat_searched]. destruct (0 <? o); [|by apply flat_searched].
  pose proof (findOrdinalImage_searched img o st0 st Hs) as Ho. destruct (findOrdinalImage _ _ _) as [[p|] st1]; [by apply preferred_searched|done].
Qed.

(** dyld is a linker: the fixup theorems hold of it. *)
#[refine, export] Instance dyld_laws : LinkerLaws (dyld K) := {
  ln_ok := d_ok;
  ln_linked := fun st => k_used (d_kernel st) }.
Proof.
  - by intros st [].
  - intros m st (_ & Hf & Hc) Hm. by split_and!.
  - done.
  - done.
  - done.
  - done.
  - done.
  - done.
  - done.
  - intros name o loc img st Hok. destruct (resolveSymbol_searched name o loc (Some img) st st (searched_refl st Hok)) as (Ho & (_ & Hc & _ & _ & Hk) & _).
    split_and!; [done|done|]. intros a Ha. by apply Hk.
  - intros addr len prot st Hok. cbn. unfold sys_mprotect. pose proof (mprotect_law addr len prot (d_kernel st)) as Hm. destruct (k_mprotect _ _ _ _) as [r k]. destruct Hm as (Hf & _ & Hu).
    assert (Hk : kept (fun _ => True) st (set_kernel k (refused r) st)) by (by apply kept_kernel). split; [by eapply d_ok_kept|]. split; [done|]. intros a Ha. cbn. by rewrite Hu.
Defined.
End Searched.
