(* ===== verification/SymbolGraph.v ===== *)
(** * Which definition a symbol resolves to: userland/dyld/panthera_dyld.cpp

    The loaded images and their re-exports are a graph. With the images loaded, the
    search from an image returns a strong definition of an image it reaches, if there
    is one, else a weak one, else 0. *)

From Stdlib Require Import ZArith Lia Ascii String.
From stdpp Require Import base list gmap relations.
From S2P Require Import Prelude MachO Words Runs DyldImage SymbolIndex MachImage ExportTrie Linker Dyld Loader SampleKernel LoadImage Resolve.

Open Scope Z_scope.

(** The load commands are within [sizeofcmds]. *)
Definition header_ok (m : mem) (mh : Z) : Prop := forall c, c ∈ commands m mh ->
  let cmdsEnd := mh + sizeof_mach_header_64 + mh_sizeofcmds m mh in
  c + sizeof_load_command <= cmdsEnd /\ sizeof_load_command <= lc_cmdsize m c /\ c + lc_cmdsize m c <= cmdsEnd.

(** On such commands, and with the memory as it is, the loop is a fold. *)
Lemma each_checked_fold {St R} (mem_of : St -> mem) (m : mem) (I : St -> Prop) mh f (done : St -> R) st :
  mem_wf m -> header_ok m mh -> I st -> (forall s, I s -> mem_of s = m) ->
  (forall c s, c ∈ commands m mh -> I s -> match f c s with inl s' => I s' | inr _ => True end) ->
  each_checked mem_of mh f done st = fold_until f done (commands m mh) st.
Proof.
  intros Hw Hh Hs Hm Hf. unfold each_checked. rewrite (Hm st Hs). set (N := mh_ncmds m mh).
  assert (HN : 0 <= N < 2 ^ 32) by (by apply (mread_range m (mh + 16) 4)).
  assert (Hgo : forall k i cmd s, (forall c, c ∈ commands_from m cmd k -> c ∈ commands m mh) -> 0 <= i -> i + Z.of_nat k = N -> I s ->
    runs (checked_step mem_of mh (mh + sizeof_mach_header_64 + mh_sizeofcmds m mh) f done) (S k) (i, cmd, s) = inr (fold_until f done (commands_from m cmd k) s)).
  { induction k as [|k IH]; intros i cmd s Hsub Hi Hk HI.
    - cbn [runs checked_step]. rewrite (Hm s HI). fold N. by destruct (Z.ltb_spec i N); [lia|].
    - remember (S k) as k1. cbn [runs]. subst k1. cbn [checked_step commands_from fold_until]. rewrite (Hm s HI). fold N. destruct (Z.ltb_spec i N); [|lia].
      assert (Hc : cmd ∈ commands m mh) by (apply Hsub; by left). destruct (Hh cmd Hc) as (H1 & H2 & H3).
      destruct (Z.ltb_spec (mh + sizeof_mach_header_64 + mh_sizeofcmds m mh) (cmd + sizeof_load_command)); [lia|].
      destruct (Z.ltb_spec (lc_cmdsize m cmd) sizeof_load_command); [lia|]. destruct (Z.ltb_spec (mh + sizeof_mach_header_64 + mh_sizeofcmds m mh) (cmd + lc_cmdsize m cmd)); [lia|]. cbn [orb].
      specialize (Hf cmd s Hc HI). destruct (f cmd s) as [s'|r]; [|done]. rewrite (Hm s' Hf). apply IH; [|lia|lia|done]. intros c Hin. apply Hsub. by right. }
  apply (while_runs _ _ _ (S (Z.to_nat N))); [|unfold rounds32; lia]. rewrite (Hgo (Z.to_nat N) 0 (mh + sizeof_mach_header_64) st); [done|done|lia|lia|done].
Qed.

(** ** The graph *)
Section Graph.
Variables (m : mem) (images : list LoadedImage).

(** [findLoadedImageByPathBounded] on the name of a dylib command. *)
Definition named (cmd : Z) : option LoadedImage :=
  let offset := dylib_name_offset m cmd in
  let depPath := cmd + offset in
  let depPathMax := lc_cmdsize m cmd - offset in
  if (lc_cmdsize m cmd <=? offset) || (_strnlen m depPath depPathMax =? depPathMax) || (depPath =? 0) || (depPathMax =? 0) then None
  else List.find (fun img => negb (img_path img =? 0) && _streq_bounded m (img_path img) depPath depPathMax) images.

Definition is_reexport (cmd : Z) : Prop := lc_cmd m cmd = LC_REEXPORT_DYLIB.

(** [k] is the position of the image in the table. *)
Definition node (k : Z) (img : LoadedImage) : Prop := 0 <= k /\ images !! Z.to_nat k = Some img.

Definition reexports (img : LoadedImage) (dep : LoadedImage) : Prop :=
  exists cmd, cmd ∈ commands m (img_header img) /\ is_reexport cmd /\ named cmd = Some dep.

Definition edge (k k' : Z) : Prop := exists x y, node k x /\ node k' y /\ reexports x y.

(** A path of re-exports, its end first. *)
Fixpoint chain (l : list Z) : Prop :=
  match l with
  | k :: ((k' :: _) as l) => edge k' k /\ chain l
  | _ => True
  end.

(** The images that are searched: they have symbol tables, the images they re-export
    are loaded, and no path of re-exports passes through more than nine images. *)
Record linked_images : Prop := {
  li_wf : mem_wf m;
  li_selves : NoDup (img_self <$> images);
  li_count : Z.of_nat (length images) <= MAX_IMAGES;
  li_header : forall img, img ∈ images -> header_ok m (img_header img);
  li_symbols : forall img, img ∈ images -> symbols_ok m img /\ 0 <= img_nsyms img;
  li_tables : forall img, img ∈ images -> img_symtab img <> 0 /\ img_strtab img <> 0;
  li_named : forall img cmd, img ∈ images -> cmd ∈ commands m (img_header img) -> is_reexport cmd -> is_Some (named cmd);
  li_short : forall l, chain l -> NoDup l -> (length l <= 9)%nat }.

Lemma named_in cmd img : named cmd = Some img -> exists k, node k img.
Proof.
  unfold named. destruct (_ || _ || _ || _); [done|]. intros [Hin _]%find_some. apply list_elem_of_In, list_elem_of_lookup_1 in Hin as [i Hi].
  exists (Z.of_nat i). split; [lia|by rewrite Nat2Z.id].
Qed.

Lemma node_in k img : node k img -> img ∈ images.
Proof. intros [_ Hk]. by eapply list_elem_of_lookup_2. Qed.

(** Few images have no long paths. *)
Lemma few_images_short : (length images <= 9)%nat -> forall l, chain l -> NoDup l -> (length l <= 9)%nat.
Proof.
  intros Hl l Hc Hnd. destruct (Nat.le_gt_cases (length l) 1) as [|Hlen]; [lia|].
  assert (Hn : forall k, k ∈ l -> 0 <= k < Z.of_nat (length images)).
  { clear Hnd. revert Hlen Hc. induction l as [|k [|k' l] IH]; cbn [length]; [lia|lia|]. intros _ [(x & y & Hx & Hy & _) Hc] j Hj.
    assert (G : forall k x, node k x -> 0 <= k < Z.of_nat (length images)) by (intros ? ? [? Hz%lookup_lt_Some]; lia).
    apply elem_of_cons in Hj as [->|Hj]; [by eapply G|]. destruct l as [|k'' l]; [apply list_elem_of_singleton in Hj as ->; by eapply G|]. apply IH; [cbn; lia|done|done]. }
  transitivity (length (seqZ 0 (Z.of_nat (length images)))); [|rewrite length_seqZ; lia].
  apply (submseteq_length l), NoDup_submseteq; [done|]. intros k Hk. apply elem_of_seqZ. specialize (Hn k Hk). lia.
Qed.

Hypothesis linked : linked_images.

Lemma node_inj k k' img : node k img -> node k' img -> k = k'.
Proof.
  intros [H0 Hk] [H0' Hk']. assert (Z.to_nat k = Z.to_nat k'); [|lia]. eapply (NoDup_lookup (img_self <$> images)); [apply linked|by rewrite list_lookup_fmap, Hk|by rewrite list_lookup_fmap, Hk'].
Qed.
End Graph.

(** ** Searching it *)
Lemma definition_in nm l : forall o w a, definition nm o l = Some (w, a) -> o = Some (w, a) \/ exists n, (n, w, a) ∈ l.
Proof.
  induction l as [|[[n w'] a'] l IH]; intros o w a; cbn [definition]; [by left|]. intros E. apply IH in E as [E|[n' Hn]]; [|right; exists n'; by right].
  case_decide; [|by left]. unfold merge in E. destruct o as [[[] a0]|]; [destruct w'| |]; injection E as <- <-; (by left) || (right; exists n; by left).
Qed.

Section Search.
Context {K : Type} `{Kernel K} `{Layout}.
Variables (m : mem) (images : list LoadedImage) (name : Z).
Hypothesis linked : linked_images m images.
Hypothesis name_ok : cstr m name <> [] /\ _strlen m name < 2 ^ 32.

Notation node := (node images).
Notation edge := (edge m images).

Definition by_self : gmap Z LoadedImage := list_to_map ((fun img => (img_self img, img)) <$> images).

(** The index has not overflowed. *)
Definition live (st : dyld K) : Prop := si_overflow (d_index st) = false.

Definition searching (st : dyld K) : Prop := d_mem st = m /\ d_images st = images /\ (live st -> index_inv m by_self (d_index st)).

(** What an image defines the name as. *)
Definition def (img : LoadedImage) : option (bool * Z) := definition (cstr m name) None (exports m img).

Lemma by_self_lookup s img : by_self !! s = Some img <-> img ∈ images /\ img_self img = s.
Proof using linked.
  unfold by_self. rewrite <- elem_of_list_to_map.
  - rewrite list_elem_of_fmap. split; [by intros (x & [= -> ->] & Hx)|]. intros [Hin <-]. by exists img.
  - rewrite <- list_fmap_compose. apply linked.
Qed.

Lemma by_self_ok : images_ok by_self.
Proof using linked.
  split; [by intros s img [_ ?]%by_self_lookup|]. pose proof (li_count _ _ linked). unfold by_self.
  rewrite <- size_dom, dom_list_to_map_L, size_list_to_set by (rewrite <- list_fmap_compose; apply linked). by rewrite !length_fmap.
Qed.

Lemma def_address img w a : img ∈ images -> def img = Some (w, a) -> a <> 0.
Proof using linked.
  intros Hin Hd. apply definition_in in Hd as [|[n Hn]]; [done|]. unfold exports in Hn. destruct (_ || _); [by apply elem_of_nil in Hn|].
  apply list_elem_of_omap in Hn as (i & Hi%elem_of_seqZ & He). eapply (export_of_address m img i); [by apply linked|lia|done].
Qed.

(** Images with symbol tables are not searched by their export tries. *)
Lemma image_symbol_find img st : img ∈ images -> image_symbol img name false st = find_symbol img name false false st.
Proof using linked.
  intros Hin. unfold image_symbol. destruct (find_symbol _ _ _ _ _) as [[a w] st1]. destruct (li_tables _ _ linked img Hin) as [Hst Hsr]. unfold shouldSearchExportTrieForImage.
  destruct (Z.eqb_spec (img_symtab img) 0), (Z.eqb_spec (img_strtab img) 0); try done. by rewrite andb_false_r.
Qed.

Lemma image_symbol_ok img st : img ∈ images -> searching st ->
  let '(a, w, st') := image_symbol img name false st in searching st' /\ (live st' -> live st /\ (a, w) = found false (def img)).
Proof using linked name_ok.
  intros Hin (Em & Ei & Hinv). rewrite image_symbol_find by done. unfold find_symbol. rewrite Em. pose proof (findSymbolInImage_overflow m img name false false (d_index st)) as Ho.
  assert (Hf : live st -> let '(r, i) := findSymbolInImage m img name false false (d_index st) in si_overflow i = false -> r = found false (def img) /\ index_inv m by_self i).
  { intros Hl. destruct (li_symbols _ _ linked img Hin) as [Hok Hns].
    pose proof (findSymbolInImage_ok m by_self img name false (d_index st) by_self_ok ltac:(by apply by_self_lookup) (Hinv Hl) Hok Hns (proj1 name_ok) (proj2 name_ok)) as Hr.
    destruct (findSymbolInImage m img name false false (d_index st)) as [r i]. intros E. rewrite E in Hr. destruct Hr as (-> & Hi & _). split; [|done]. by apply scan_image_definition; [|apply name_ok|]. }
  destruct (findSymbolInImage m img name false false (d_index st)) as [[a w] i]. cbn [snd] in Ho.
  assert (Hb : live (set_index i st) -> live st) by (unfold live; cbn; intros E; destruct (si_overflow (d_index st)); [by rewrite Ho in E|done]).
  split; [split_and!; [done|done|]|]; intros Hl; specialize (Hf (Hb Hl) Hl).
  - apply Hf.
  - split; [by apply Hb|apply Hf].
Qed.

Lemma dylib_target_named cmd dep st : searching st -> named m images cmd = Some dep -> dylib_target cmd st = (Some dep, st).
Proof.
  intros (Em & Ei & _). unfold named, dylib_target, findLoadedImageByPathBounded. rewrite Em, Ei. cbv zeta. destruct (_ <=? _); [done|]. destruct (_strnlen _ _ _ =? _); [done|].
  cbn [orb]. destruct (_ || _); [done|]. by intros ->.
Qed.

Lemma index_from_node l : forall i n img, NoDup (img_self <$> l) -> l !! n = Some img -> index_from (img_self img) i l = i + Z.of_nat n.
Proof.
  induction l as [|x l IH]; intros i n img Hnd Hn; [done|]. cbn [fmap list_fmap] in Hnd. apply NoDup_cons in Hnd as [Hx Hnd]. cbn [index_from]. destruct n as [|n].
  - injection Hn as ->. rewrite Z.eqb_refl. lia.
  - destruct (Z.eqb_spec (img_self x) (img_self img)) as [E|_]; [|rewrite (IH _ n) by done; lia]. destruct Hx. rewrite E. apply list_elem_of_fmap_2. by eapply list_elem_of_lookup_2.
Qed.

Lemma loadedImageIndex_node k img st : searching st -> node k img -> loadedImageIndex img st = k.
Proof using linked.
  intros (_ & Ei & _) [Hk Hn]. unfold loadedImageIndex. rewrite Ei, take_ge by (pose proof (li_count _ _ linked); lia).
  rewrite (index_from_node _ 0 (Z.to_nat k)) by (done || apply linked). lia.
Qed.

(** The images visited since [V], apart from [skip], have no strong definition, and
    what they re-export has been visited too. *)
Definition explored (skip : Z -> Prop) (V V' : list Z) : Prop := forall k x, node k x -> k ∈ V' -> k ∉ V -> ~ skip k ->
  (forall a, def x <> Some (false, a)) /\ forall k', edge k k' -> k' ∈ V'.

Definition weak_or_none (root : Z) (V V' : list Z) (a : Z) : Prop :=
  if a =? 0 then forall k x, node k x -> k ∈ V' -> k ∉ V -> def x = None
  else exists k x, rtc edge root k /\ node k x /\ def x = Some (true, a).

Definition outcome (root : Z) (V : list Z) (a : Z) (w : bool) (V' : list Z) : Prop :=
  if negb (a =? 0) && negb w then exists k x, rtc edge root k /\ node k x /\ def x = Some (false, a)
  else w = negb (a =? 0) /\ root ∈ V' /\ explored (fun _ => False) V V' /\ weak_or_none root V V' a.

Lemma outcome_visited k V : k ∈ V -> outcome k V 0 false V.
Proof. intros Hk. split_and!; [done|done|by intros j x _ ? ?|by intros j x _ ? ?]. Qed.

Definition search_ok (n : nat) : Prop := forall k img visited path st,
  searching st -> node k img -> chain m images (k :: path) -> path ⊆ visited -> NoDup path -> (length path + n = 9)%nat ->
  let '(a, w, visited', st') := resolveSymbolFromImageGraphInternal n img name false visited st in
  searching st' /\ visited ⊆ visited' /\ (live st' -> live st /\ outcome k visited a w visited').

(** Where the loop over the commands of an image stands, [pre] behind it. *)
Definition progress (k : Z) (V pre : list Z) (wa : Z) (v : list Z) : Prop :=
  explored (fun j => j = k) V v /\ (forall cmd dep k', cmd ∈ pre -> is_reexport m cmd -> named m images cmd = Some dep -> node k' dep -> k' ∈ v) /\ weak_or_none k V v wa.

Lemma graph_command_ok n k img path V pre cmd wa v st : search_ok n ->
  node k img -> chain m images (k :: path) -> NoDup (k :: path) -> (length (k :: path) + n = 9)%nat -> cmd ∈ commands m (img_header img) ->
  searching st -> k :: path ⊆ v ->
  match graph_command (fun dep visited st => resolveSymbolFromImageGraphInternal n dep name false visited st) cmd (wa, v, st) with
  | inl (wa', v', st') => searching st' /\ v ⊆ v' /\ (live st' -> live st /\ (progress k V pre wa v -> progress k V (pre ++ [cmd]) wa' v'))
  | inr (a, w, v', st') => searching st' /\ v ⊆ v' /\ (live st' -> live st /\ a <> 0 /\ w = false /\ exists j x, rtc edge k j /\ node j x /\ def x = Some (false, a))
  end.
Proof using linked name_ok.
  intros Hn Hk Hch Hnd Hlen Hc Hs Hv. cbn [graph_command]. pose proof Hs as (Em & _ & _). rewrite Em. destruct (Z.eqb_spec (lc_cmd m cmd) LC_REEXPORT_DYLIB) as [Er|Er].
  2:{ split_and!; [done|done|]. intros Hl. split; [done|]. intros (P1 & P2 & P3). split_and!; [done| |done].
      intros c dep k' [Hp|Hp]%elem_of_app; [by apply P2|]. apply list_elem_of_singleton in Hp as ->. done. }
  destruct (li_named _ _ linked img cmd ltac:(by eapply node_in) Hc Er) as [dep Ed]. rewrite (dylib_target_named cmd dep st Hs Ed).
  destruct (named_in _ _ _ _ Ed) as [k' Hk']. assert (He : edge k k') by (exists img, dep; split_and!; try done; by exists cmd).
  specialize (Hn k' dep v (k :: path) st Hs Hk' (conj He Hch) Hv Hnd Hlen). destruct (resolveSymbolFromImageGraphInternal _ _ _ _ _ _) as [[[a w] v'] st'].
  destruct Hn as (Hs' & Hv' & Ho). unfold outcome in Ho.
  destruct (negb (a =? 0) && negb w) eqn:Ea.
  { split_and!; [done|done|]. intros Hl. destruct (Ho Hl) as (Hl' & j & x & Hj & Hx & Hdx). split_and!; [done|by destruct (Z.eqb_spec a 0)|done|].
    exists j, x. split_and!; [by eapply rtc_l|done|done]. }
  split_and!; [done|done|]. intros Hl. destruct (Ho Hl) as (Hl' & -> & Hroot & Hex & Hw). split; [done|]. intros (P1 & P2 & P3). split_and!.
  - intros j x Hj Hin Hout Hne. destruct (decide (j ∈ v)) as [Hjv|Hjv].
    + destruct (P1 j x Hj Hjv Hout Hne) as [? He']. split; [done|]. intros j' Hj'. by apply Hv', He'.
    + apply (Hex j x Hj Hin Hjv). by intros [].
  - intros c d j [Hp|Hp]%elem_of_app Hcr Hcd Hj; [by eapply Hv', P2|]. apply list_elem_of_singleton in Hp as ->. rewrite Ed in Hcd. injection Hcd as <-.
    by rewrite (node_inj m images linked j k' dep Hj Hk').
  - unfold weak_or_none in *. destruct (Z.eqb_spec wa 0) as [->|Hwa]; rewrite ?andb_true_r, ?andb_false_r; [|by destruct (Z.eqb_spec wa 0)].
    destruct (Z.eqb_spec a 0) as [->|Ha]; cbn [negb andb].
    + intros j x Hj Hin Hout. destruct (decide (j ∈ v)); [by eapply P3|by eapply Hw].
    + destruct (Z.eqb_spec a 0); [done|]. destruct Hw as (j & x & Hj & Hx). exists j, x. split; [by eapply rtc_l|done].
Qed.

Lemma graph_commands_ok n k img path V : search_ok n ->
  node k img -> chain m images (k :: path) -> NoDup (k :: path) -> (length (k :: path) + n = 9)%nat ->
  forall cs pre wa v st, pre ++ cs = commands m (img_header img) -> searching st -> k :: path ⊆ v ->
  let '(a, w, v', st') := fold_until (graph_command (fun dep visited st => resolveSymbolFromImageGraphInternal n dep name false visited st))
    (fun '(weakAddr, visited, st) => (weakAddr, negb (weakAddr =? 0), visited, st)) cs (wa, v, st) in
  searching st' /\ v ⊆ v' /\
  (live st' -> live st /\ (progress k V pre wa v ->
     a <> 0 /\ w = false /\ (exists j x, rtc edge k j /\ node j x /\ def x = Some (false, a)) \/
     w = negb (a =? 0) /\ progress k V (commands m (img_header img)) a v')).
Proof using linked name_ok.
  intros Hn Hk Hch Hnd Hlen. induction cs as [|cmd cs IH]; intros pre wa v st Ecs Hs Hv; cbn [fold_until].
  { rewrite app_nil_r in Ecs. subst pre. split_and!; [done|done|]. intros Hl. split; [done|]. intros Hp. by right. }
  assert (Hc : cmd ∈ commands m (img_header img)) by (rewrite <- Ecs; apply elem_of_app; right; by left).
  pose proof (graph_command_ok n k img path V pre cmd wa v st Hn Hk Hch Hnd Hlen Hc Hs Hv) as Hstep.
  destruct (graph_command _ _ _) as [[[wa' v'] st']|[[[a w] v'] st']]; destruct Hstep as (Hs' & Hv' & Hl').
  - specialize (IH (pre ++ [cmd]) wa' v' st' ltac:(by rewrite <- app_assoc) Hs' ltac:(set_solver)). destruct (fold_until _ _ _ _) as [[[a w] v2] st2].
    destruct IH as (I1 & I2 & I3). split_and!; [done|set_solver|]. intros Hl. destruct (I3 Hl) as [J1 J2]. destruct (Hl' J1) as [L1 L2]. split; [done|]. intros Hp. by apply J2, L2.
  - split_and!; [done|done|]. intros Hl. destruct (Hl' Hl) as (L1 & L2 & L3 & L4). split; [done|]. intros _. by left.
Qed.

Lemma node_fun k x y : node k x -> node k y -> x = y.
Proof. intros [_ Hx] [_ Hy]. congruence. Qed.

Lemma progress_start k img V a w : node k img -> k ∉ V -> (a, w) = found false (def img) -> (forall b, def img <> Some (false, b)) ->
  progress k V [] (if w then a else 0) (k :: V).
Proof using linked.
  intros Hk Hout Ef Hns. split_and!.
  - intros j x _ [->|Hj]%elem_of_cons Hj' Hne; done.
  - intros cmd dep k' Hx. by apply elem_of_nil in Hx.
  - unfold weak_or_none. destruct (def img) as [[w' a']|] eqn:Ed; injection Ef as -> ->.
    + destruct w'; [|by destruct (Hns a')]. pose proof (def_address img true a' (node_in _ _ _ Hk) Ed). destruct (Z.eqb_spec a' 0); [done|]. exists k, img. split_and!; [apply rtc_refl|done|done].
    + cbn. intros j x Hj [->|Hx]%elem_of_cons Hjn; [|done]. by rewrite (node_fun k x img).
Qed.

Lemma progress_outcome k img V a v : node k img -> k ∈ v -> (forall b, def img <> Some (false, b)) ->
  progress k V (commands m (img_header img)) a v -> outcome k V a (negb (a =? 0)) v.
Proof using linked.
  intros Hk Hv Hns (P1 & P2 & P3). unfold outcome. rewrite negb_involutive, andb_comm, andb_negb_r. split_and!; [done|done| |done].
  intros j x Hj Hin Hout _. destruct (decide (j = k)) as [->|Hne]; [|by apply (P1 j x)]. rewrite (node_fun k x img Hj Hk). split; [done|].
  intros k' (x' & y & Hx & Hy & cmd & Hc & Hr & Hn). apply (P2 cmd y k'); [|done|done|done]. by rewrite <- (node_fun k x' img Hx Hk).
Qed.

Lemma graph_ok n : search_ok n.
Proof using linked name_ok.
  induction n as [|n IH]; intros k img visited path st Hs Hk Hch Hp Hnd Hlen; cbn [resolveSymbolFromImageGraphInternal].
  { split_and!; [done|done|]. intros Hl. split; [done|]. destruct (decide (k ∈ visited)) as [Hin|Hout]; [by apply outcome_visited|].
    assert (NoDup (k :: path)) as Hnd' by (constructor; [|done]; intros Hx; by apply Hout, Hp). pose proof (li_short _ _ linked _ Hch Hnd') as Hx. cbn [length] in Hx. lia. }
  rewrite (loadedImageIndex_node k img st Hs Hk). destruct (Z.leb_spec 0 k) as [_|]; [|destruct Hk; lia]. cbn [andb]. case_bool_decide as Hin.
  { split_and!; [done|done|]. intros Hl. split; [done|by apply outcome_visited]. }
  assert (Hnd' : NoDup (k :: path)) by (constructor; [|done]; intros Hx; by apply Hin, Hp). pose proof (node_in _ _ _ Hk) as Him.
  pose proof (image_symbol_ok img st Him Hs) as Hi. destruct (image_symbol img name false st) as [[a w] st1]. destruct Hi as [Hs1 Hl1].
  assert (Hstrong : forall b, found false (def img) = (b, false) -> b <> 0 -> def img = Some (false, b)) by (intros b; destruct (def img) as [[? ?]|]; cbn; intros E Hb; injection E; intros; subst; done).
  destruct (negb (a =? 0) && negb w) eqn:Ea.
  { split_and!; [done|set_solver|]. intros Hl. destruct (Hl1 Hl) as [? Ef]. split; [done|]. unfold outcome. destruct w; [by rewrite andb_false_r in Ea|]. rewrite Ea. exists k, img.
    split_and!; [apply rtc_refl|done|]. apply Hstrong; [done|]. by destruct (Z.eqb_spec a 0). }
  set (wa := if w then a else 0). pose proof (graph_commands_ok n k img path visited IH Hk Hch Hnd' ltac:(cbn; lia)) as Hloop.
  rewrite (each_checked_fold _ m (fun s => searching s.2 /\ k :: path ⊆ s.1.2)); [|apply linked|by apply linked|split; [done|set_solver]|by intros s [[] ]|].
  2:{ intros c [[wa1 v1] s1] Hc [Hs' Hv']. cbn [fst snd] in Hs', Hv'. pose proof (graph_command_ok n k img path visited [] c wa1 v1 s1 IH Hk Hch Hnd' ltac:(cbn; lia) Hc Hs' Hv') as Hstep.
      destruct (graph_command _ _ _) as [[[wa2 v2] s2]|]; [|done]. cbn [fst snd]. split; [by destruct Hstep|]. destruct Hstep as (_ & Hx & _). set_solver. }
  specialize (Hloop (commands m (img_header img)) [] wa (k :: visited) st1 eq_refl Hs1 ltac:(set_solver)). destruct (fold_until _ _ _ _) as [[[a2 w2] v2] st2].
  destruct Hloop as (H1 & H2 & H3). split_and!; [done|set_solver|]. intros Hl. destruct (H3 Hl) as [L1 L2]. destruct (Hl1 L1) as [L0 Ef]. split; [done|].
  assert (Hweak : forall b, def img <> Some (false, b)).
  { intros b Hb. rewrite Hb in Ef. injection Ef as -> ->. pose proof (def_address img false b Him Hb). destruct (Z.eqb_spec b 0); done. }
  destruct L2 as [(Na & -> & Hx)|(-> & Hp')].
  - by apply (progress_start k img).
  - unfold outcome. by destruct (Z.eqb_spec a2 0).
  - apply (progress_outcome k img); [done|set_solver|done|done].
Qed.

(** ** What the search finds *)
Definition resolves (S : Z -> Prop) (a : Z) : Prop :=
  (exists k x, S k /\ node k x /\ def x = Some (false, a)) \/
  (forall k x b, S k -> node k x -> def x <> Some (false, b)) /\
  ((exists k x, S k /\ node k x /\ def x = Some (true, a)) \/ a = 0 /\ forall k x, S k -> node k x -> def x = None).

Lemma outcome_resolves k a w V' : outcome k [] a w V' -> resolves (rtc edge k) a /\
  (if w then a <> 0 /\ (forall j x b, rtc edge k j -> node j x -> def x <> Some (false, b)) else a <> 0 -> exists j x, rtc edge k j /\ node j x /\ def x = Some (false, a)).
Proof.
  unfold outcome. destruct (negb (a =? 0) && negb w) eqn:Ea.
  { intros Hx. split; [by left|]. destruct w; [by rewrite andb_false_r in Ea|done]. }
  intros (-> & Hroot & Hex & Hw). assert (Hall : forall j, rtc edge k j -> j ∈ V').
  { apply (rtc_ind_r (fun j => j ∈ V') k); [done|]. intros j1 j2 _ He IH. pose proof He as (x & _ & Hx & _). apply (Hex j1 x Hx IH (not_elem_of_nil _)); [by intros []|done]. }
  assert (Hns : forall j x b, rtc edge k j -> node j x -> def x <> Some (false, b)) by (intros j x b Hj Hx; apply (Hex j x Hx (Hall j Hj) (not_elem_of_nil _)); by intros []).
  unfold weak_or_none in Hw. split.
  - right. split; [done|]. destruct (Z.eqb_spec a 0) as [->|Hn]; [|by left]. right. split; [done|]. intros j x Hj Hx. by apply (Hw j x Hx (Hall j Hj) (not_elem_of_nil _)).
  - destruct (Z.eqb_spec a 0) as [->|Hn]; cbn [negb]; [by intros []|done].
Qed.

Lemma graph_resolves k img st : searching st -> node k img ->
  let '(a, w, st') := resolveSymbolFromImageGraph img name false st in
  searching st' /\ (live st' -> live st /\ resolves (rtc edge k) a /\
    (if w then a <> 0 /\ (forall j x b, rtc edge k j -> node j x -> def x <> Some (false, b)) else a <> 0 -> exists j x, rtc edge k j /\ node j x /\ def x = Some (false, a))).
Proof using linked name_ok.
  intros Hs Hk. unfold resolveSymbolFromImageGraph. pose proof (graph_ok 9 k img [] [] st Hs Hk I ltac:(done) (NoDup_nil_2) eq_refl) as Hg.
  destruct (resolveSymbolFromImageGraphInternal _ _ _ _ _ _) as [[[a w] V] st']. destruct Hg as (H1 & _ & H2). split; [done|]. intros Hl. destruct (H2 Hl) as [? Ho].
  split; [done|]. by eapply outcome_resolves.
Qed.

(** The images an image re-exports itself. *)
Definition direct_def (k a : Z) (w : bool) : Prop := a <> 0 -> exists j x, edge k j /\ node j x /\ def x = Some (w, a).

Lemma direct_command_ok k img c wa s : node k img -> c ∈ commands m (img_header img) -> searching s ->
  match direct_command name false c (wa, s) with
  | inl (wa', s') => searching s' /\ (live s' -> live s /\ (direct_def k wa true -> direct_def k wa' true))
  | inr (a, w, s') => searching s' /\ (live s' -> live s /\ a <> 0 /\ w = false /\ direct_def k a false)
  end.
Proof using linked name_ok.
  intros Hk Hc Hs'. cbn [direct_command]. pose proof Hs' as (Em & _ & _). rewrite Em. destruct (Z.eqb_spec (lc_cmd m c) LC_REEXPORT_DYLIB) as [Er|]; [|done].
  destruct (li_named _ _ linked img c ltac:(by eapply node_in) Hc Er) as [dep Ed]. rewrite (dylib_target_named c dep s Hs' Ed). destruct (named_in _ _ _ _ Ed) as [k' Hk'].
  assert (He : edge k k') by (exists img, dep; split_and!; try done; by exists c). pose proof (image_symbol_ok dep s (node_in _ _ _ Hk') Hs') as Hi.
  destruct (image_symbol dep name false s) as [[a w] s1]. destruct Hi as [Hs1 Hl1].
  assert (Hq : live s1 -> direct_def k a w). { intros Hl Hn. destruct (Hl1 Hl) as [_ Ef]. exists k', dep. split_and!; [done|done|]. by destruct (def dep) as [[? ?]|]; injection Ef as -> ->. }
  destruct (Z.eqb_spec a 0) as [->|Hn], w; cbn [negb andb]; (split; [done|]); intros Hl; specialize (Hq Hl); destruct (Hl1 Hl) as [Hl0 _]; (split; [done|]); try done.
  destruct (Z.eqb_spec wa 0); done.
Qed.

Lemma direct_ok k img st : searching st -> node k img ->
  let '(a, w, st') := resolveDirectReexportSymbol img name false st in
  searching st' /\ (live st' -> live st /\ (a = 0 -> w = false) /\ direct_def k a w).
Proof using linked name_ok.
  intros Hs Hk. unfold resolveDirectReexportSymbol.
  rewrite (each_checked_fold _ m (fun s => searching s.2)); [|apply linked|by apply linked, (node_in _ k)|done|by intros s []|].
  2:{ intros c [wa s] Hc Hs'. pose proof (direct_command_ok k img c wa s Hk Hc Hs') as Hstep. destruct (direct_command _ _ _ _) as [[? ?]|]; [apply Hstep|done]. }
  assert (Hfold : forall cs wa s, (forall c, c ∈ cs -> c ∈ commands m (img_header img)) -> searching s ->
    let '(a, w, s') := fold_until (direct_command name false) (fun '(weakAddr, st) => (weakAddr, negb (weakAddr =? 0), st)) cs (wa, s) in
    searching s' /\ (live s' -> live s /\ (direct_def k wa true -> (a = 0 -> w = false) /\ direct_def k a w))).
  { induction cs as [|c cs IH]; intros wa s Hin Hs'; cbn [fold_until].
    - split; [done|]. intros Hl. split; [done|]. intros Hq. destruct (Z.eqb_spec wa 0) as [->|]; [|done]. split; [done|by intros []].
    - pose proof (direct_command_ok k img c wa s Hk ltac:(apply Hin; by left) Hs') as Hstep. destruct (direct_command _ _ _ _) as [[wa' s']|[[a w] s']]; destruct Hstep as [Hs1 Hl1].
      + specialize (IH wa' s' ltac:(intros ? ?; apply Hin; by right) Hs1). destruct (fold_until _ _ _ _) as [[a w] s2]. destruct IH as [I1 I2]. split; [done|]. intros Hl. destruct (I2 Hl) as [J1 J2], (Hl1 ltac:(tauto)) as [L1 L2]. tauto.
      + split; [done|]. intros Hl. destruct (Hl1 Hl) as (L0 & L1 & -> & L2). done. }
  specialize (Hfold (commands m (img_header img)) 0 st ltac:(done) Hs). destruct (fold_until _ _ _ _) as [[a w] st']. destruct Hfold as [F1 F2]. split; [done|].
  intros Hl. destruct (F2 Hl) as [? Hq]. split; [done|]. apply Hq. intros Hn. by destruct Hn.
Qed.

Lemma preferred_ok k p st : searching st -> node k p ->
  let '(a, st') := resolve_preferred p name false st in searching st' /\ (live st' -> live st /\ resolves (rtc edge k) a).
Proof using linked name_ok.
  intros Hs Hk. unfold resolve_preferred.
  match goal with |- context [if isLibSystemUmbrella p st then ?x else ?y] =>
    set (r := if isLibSystemUmbrella p st then x else y); assert (Hr : let '(a, w, st') := r in searching st' /\ (live st' -> live st /\ (a = 0 -> w = false) /\ direct_def k a w)) end.
  { unfold r. destruct (isLibSystemUmbrella _ _); [by apply direct_ok|]. split; [done|]. intros Hl. split_and!; [done|done|by intros Hn]. }
  destruct r as [[a w] st1]. destruct Hr as [Hs1 Hl1]. pose proof (graph_resolves k p st1 Hs1 Hk) as Hg. destruct (resolveSymbolFromImageGraph _ _ _ _) as [[ga gw] st2]. destruct Hg as [Hs2 Hl2].
  assert (Hstrong : forall b, direct_def k b false -> b <> 0 -> resolves (rtc edge k) b).
  { intros b Hb Hn. left. destruct (Hb Hn) as (j & x & Hj & Hx). exists j, x. split; [by apply rtc_once|done]. }
  assert (Hweak : forall b, direct_def k b true -> b <> 0 -> (forall j x c, rtc edge k j -> node j x -> def x <> Some (false, c)) -> resolves (rtc edge k) b).
  { intros b Hb Hn Hno. right. split; [done|]. left. destruct (Hb Hn) as (j & x & Hj & Hx). exists j, x. split; [by apply rtc_once|done]. }
  assert (Hno : ga = 0 \/ gw = true -> live st2 -> forall j x b, rtc edge k j -> node j x -> def x <> Some (false, b)).
  { intros Hor Hl. destruct (Hl2 Hl) as (_ & [(j & x & _ & Hx & Hd)|[R _]] & G); [|done]. destruct gw; [by destruct G|]. destruct Hor as [->|]; [|done].
    by destruct (def_address x false 0 (node_in _ _ _ Hx) Hd). }
  destruct (Z.eqb_spec a 0) as [->|Ha]; [|destruct w].
  - destruct (Z.eqb_spec ga 0) as [->|Hga], gw; cbn -[searching live Z.eqb]; rewrite ?(proj2 (Z.eqb_neq ga 0) Hga); cbn; (split; [done|]);
      intros Hl; destruct (Hl2 Hl) as (L2 & R & _), (Hl1 L2) as (L1 & W & _); (split; [done|]); exact R.
  - destruct (Z.eqb_spec ga 0) as [->|Hga], gw; cbn -[searching live Z.eqb]; rewrite ?(proj2 (Z.eqb_neq a 0) Ha); cbn -[Z.eqb]; rewrite ?(proj2 (Z.eqb_neq ga 0) Hga); cbn; (split; [done|]);
      intros Hl; destruct (Hl2 Hl) as (L2 & R & G), (Hl1 L2) as (L1 & W & D); (split; [done|]); try exact R; (apply Hweak; [done|done|]); apply Hno; auto.
  - cbn -[searching live Z.eqb]. rewrite (proj2 (Z.eqb_neq a 0) Ha). cbn. split; [done|]. intros Hl. destruct (Hl1 Hl) as (L1 & W & D). split; [done|by apply Hstrong].
Qed.

(** ** All images

    The first strong definition in the order of the table, else the first weak one. *)
Fixpoint flat_definition (o : option (bool * Z)) (l : list LoadedImage) : option (bool * Z) :=
  match l with
  | [] => o
  | img :: l => flat_definition (match def img with Some (w, a) => Some (merge o w a) | None => o end) l
  end.

Definition address_of (o : option (bool * Z)) : Z := match o with Some (_, a) => a | None => 0 end.

Lemma flat_strong a l : flat_definition (Some (false, a)) l = Some (false, a).
Proof. induction l as [|x l IH]; cbn [flat_definition]; [done|]. by destruct (def x) as [[? ?]|]. Qed.

Lemma flat_from_ok l : (forall img, img ∈ l -> img ∈ images) -> forall wa st, searching st ->
  let '(a, st') := flat_from l name false wa st in
  searching st' /\ (live st' -> live st /\ a = address_of (flat_definition (if wa =? 0 then None else Some (true, wa)) l)).
Proof using All.
  induction l as [|img l IH]; intros Hin wa st Hs; cbn [flat_from flat_definition].
  { split; [done|]. intros Hl. split; [done|]. by destruct (Z.eqb_spec wa 0) as [->|]. }
  assert (Him : img ∈ images) by (apply Hin; by left). pose proof (image_symbol_ok img st Him Hs) as Hi. rewrite image_symbol_find in Hi by done.
  destruct (find_symbol _ _ _ _ _) as [[a w] st1]. destruct Hi as [Hs1 Hl1]. destruct (negb (a =? 0) && negb w) eqn:Ea.
  - apply andb_true_iff in Ea as [Ha Hw]. destruct w; [done|]. split; [done|]. intros Hl. destruct (Hl1 Hl) as [L0 Ef]. split; [done|].
    destruct (def img) as [[w' a']|] eqn:Ed; injection Ef; intros; subst; [|done]. destruct (wa =? 0); cbn [merge]; by rewrite flat_strong.
  - specialize (IH ltac:(intros x Hx; apply Hin; by right) (if negb (a =? 0) && w && (wa =? 0) then a else wa) st1 Hs1). destruct (flat_from _ _ _ _ _) as [a2 st2]. destruct IH as [I1 I2].
    split; [done|]. intros Hl. destruct (I2 Hl) as [L1 ->]. destruct (Hl1 L1) as [L0 Ef]. split; [done|]. do 2 f_equal.
    destruct (def img) as [[w' a']|] eqn:Ed; injection Ef; intros; subst; [|done]. pose proof (def_address img w' a' Him Ed). destruct (Z.eqb_spec a' 0); [done|]. destruct w'; [|done].
    destruct (Z.eqb_spec wa 0) as [->|]; cbn [negb andb merge]; [by destruct (Z.eqb_spec a' 0)|by destruct (Z.eqb_spec wa 0)].
Qed.

(** ** Ordinals *)
Definition dylib_commands (img : LoadedImage) : list Z := filter (fun c => is_dylib_command m c = true) (commands m (img_header img)).

Lemma findOrdinalImage_ok importer o st : header_ok m (img_header importer) -> searching st -> 0 < o ->
  (forall c, c ∈ dylib_commands importer -> is_Some (named m images c)) ->
  findOrdinalImage importer o st = (dylib_commands importer !! Z.to_nat (o - 1) ≫= named m images, st).
Proof using linked.
  intros Hh Hs Ho Hn. unfold findOrdinalImage. destruct (Z.leb_spec o 0); [lia|]. pose proof Hs as (Em & _ & _).
  rewrite (each_checked_fold _ m (fun s => s.2 = st)); [|apply linked|done|done|by intros s ->|].
  2:{ intros c [n s] Hc E. cbn in E. subst s. cbn. destruct (is_dylib_command _ _); [|done]. by destruct (_ =? o). }
  assert (G : forall cs cur, (forall c, c ∈ filter (fun c => is_dylib_command m c = true) cs -> is_Some (named m images c)) -> cur < o ->
    fold_until (ordinal_command o) (fun '(_, st) => (None, st)) cs (cur, st) = (filter (fun c => is_dylib_command m c = true) cs !! Z.to_nat (o - 1 - cur) ≫= named m images, st)).
  { induction cs as [|c cs IH]; intros cur Hc Hcur; cbn [fold_until]; [done|]. cbn [ordinal_command]. rewrite Em. rewrite filter_cons in *. case_decide as Ed.
    - rewrite Ed. destruct (Z.eqb_spec (cur + 1) o) as [E|E].
      + replace (o - 1 - cur) with 0 by lia. destruct (Hc c ltac:(by left)) as [p Ep]. rewrite (dylib_target_named c p st Hs Ep), <- Ep. reflexivity.
      + rewrite IH by (lia || (intros x Hx; apply Hc; by right)). replace (Z.to_nat (o - 1 - cur)) with (S (Z.to_nat (o - 1 - (cur + 1)))) by lia. done.
    - destruct (is_dylib_command m c); [done|]. by apply IH. }
  by rewrite G, Z.sub_0_r by (done || lia).
Qed.
End Search.

(** Where the name that is looked up starts. *)
Definition symbol_start (m : mem) (name : Z) : Z :=
  if negb (_strcmp (cstr m name) (str "dyld_stub_binder") =? 0) then skip_prefix (cstr m name) name else name.

(** The names that resolve to functions of dyld. *)
Definition shims : list (list Z) := [str "_ttyname"; str "_ttyname_r"; str "_ttyname_r$UNIX2003"].

Lemma strcmp_neq (a b : list Z) : Forall (fun c => c <> 0) a -> Forall (fun c => c <> 0) b -> a <> b -> (_strcmp a b =? 0) = false.
Proof. intros Ha Hb Hne. apply Z.eqb_neq. intros E. by apply Hne, _strcmp_eq. Qed.

(** C33. The definition a symbol resolves to. The images and their re-exports are loaded,
    with symbol tables and no path of re-exports through more than nine images; the name
    is not empty, shorter than 2^32 and not one of the ttyname functions that dyld
    provides itself; and the symbol index does not overflow. Then [resolveSymbol] for the [o]-th dylib of the importing image returns the address of a strong
    definition in that image or in an image it reaches by re-exports, if there is
    one, else of a weak definition, else 0; cycles of re-exports do no harm. For
    [BIND_SPECIAL_DYLIB_FLAT_LOOKUP], for weak lookup and for the image itself it is
    the first strong definition in the order of loading, else the first weak one.
    Only the symbol index changes. *)
Theorem symbol_resolved {K : Type} `{Kernel K} `{Layout} m images importer name o (st : dyld K) :
  linked_images m images -> importer ∈ images -> (forall c, c ∈ dylib_commands m importer -> is_Some (named m images c)) -> searching m images st ->
  cstr m (symbol_start m name) <> [] -> _strlen m (symbol_start m name) < 2 ^ 32 -> cstr m (symbol_start m name) ∉ shims ->
  let '(a, st') := resolveSymbol name o false (Some importer) st in
  searching m images st' /\
  (live st' ->
     if 0 <? o then
       match dylib_commands m importer !! Z.to_nat (o - 1) ≫= named m images with
       | Some p => exists k, node images k p /\ resolves m images (symbol_start m name) (rtc (edge m images) k) a
       | None => a = 0
       end
     else if o <? BIND_SPECIAL_DYLIB_WEAK_LOOKUP then a = 0
     else a = address_of (flat_definition m (symbol_start m name) None images)).
Proof.
  intros Hli Him Hdy Hs Hne Hlen Hsh. unfold resolveSymbol. cbv zeta. pose proof Hs as (Em & Ei & _). rewrite Em. fold (symbol_start m name). set (nm := symbol_start m name) in *.
  assert (Hstr : forall s, s ∈ shims -> (_strcmp (cstr m nm) s =? 0) = false).
  { intros s Hin. apply strcmp_neq; [apply cstr_nonzero|repeat (apply elem_of_cons in Hin as [->|Hin]; [repeat constructor; done|]); by apply elem_of_nil in Hin|]. intros E. apply Hsh. by rewrite E. }
  rewrite !Hstr by (unfold shims; set_solver). cbn [orb].
  assert (Hflat : let '(a, st') := resolveFlatNamespaceSymbol nm false 0 st in searching m images st' /\ (live st' -> a = address_of (flat_definition m nm None images))).
  { unfold resolveFlatNamespaceSymbol. rewrite Ei. pose proof (flat_from_ok m images nm Hli (conj Hne Hlen) images (fun _ x => x) 0 st Hs) as Hf. destruct (flat_from _ _ _ _ _). split; [apply Hf|]. intros Hl. by apply Hf. }
  unfold BIND_SPECIAL_DYLIB_FLAT_LOOKUP, BIND_SPECIAL_DYLIB_WEAK_LOOKUP. destruct (Z.ltb_spec 0 o) as [Ho|Ho].
  - destruct (Z.eqb_spec o (-2)); [lia|]. destruct (Z.eqb_spec o (-3)); [lia|]. destruct (Z.ltb_spec o (-3)); [lia|]. cbn [orb].
    rewrite (findOrdinalImage_ok m images Hli importer o st (li_header _ _ Hli importer Him) Hs Ho Hdy). destruct (dylib_commands m importer !! Z.to_nat (o - 1)) as [c|]; [|done]. cbn [mbind option_bind].
    destruct (named m images c) as [p|] eqn:Ep; [|done]. destruct (named_in _ _ _ _ Ep) as [k Hk].
    pose proof (preferred_ok m images nm Hli (conj Hne Hlen) k p st Hs Hk) as Hp. destruct (resolve_preferred _ _ _ _) as [a st']. split; [apply Hp|]. intros Hl. exists k. split; [done|by apply Hp].
  - destruct (Z.eqb_spec o (-2)); [|destruct (Z.eqb_spec o (-3))]; cbn [orb]; [destruct (Z.ltb_spec o (-3)); [lia|exact Hflat]..|]. destruct (Z.ltb_spec o (-3)); [done|exact Hflat].
Qed.

(** ** An example *)
Definition header_check (m : mem) (mh : Z) : bool :=
  let e := mh + sizeof_mach_header_64 + mh_sizeofcmds m mh in
  forallb (fun c => (c + sizeof_load_command <=? e) && (sizeof_load_command <=? lc_cmdsize m c) && (c + lc_cmdsize m c <=? e)) (commands m mh).

Definition symbols_check (m : mem) (img : LoadedImage) : bool :=
  (0 <=? img_nsyms img) && forallb (fun i => let sym := symtab_entry m img i in
    match symbolNameLen m (img_strtab img + n_strx sym) (img_strsize img - n_strx sym) with Some _ => negb (n_value sym +64 img_slide img =? 0) | None => false end)
    (seqZ 0 (img_nsyms img)).

Definition image_check (m : mem) (images : list LoadedImage) (img : LoadedImage) : bool :=
  header_check m (img_header img) && symbols_check m img && negb (img_symtab img =? 0) && negb (img_strtab img =? 0) &&
  forallb (fun c => match named m images c with Some _ => true | None => false end) (commands m (img_header img)).

(** At most nine images, all of whose load commands name images. *)
Definition linked_check (m : mem) (images : list LoadedImage) : bool :=
  bool_decide (NoDup (img_self <$> images)) && (length images <=? 9)%nat && forallb (image_check m images) images.

Lemma linked_check_ok m images : mem_wf m -> linked_check m images = true -> linked_images m images.
Proof.
  unfold linked_check. intros Hw. rewrite !andb_true_iff, bool_decide_eq_true, Nat.leb_le, forallb_forall. intros [[Hnd Hlen] Hall].
  assert (Hc : forall img, img ∈ images -> header_check m (img_header img) = true /\ symbols_check m img = true /\ (img_symtab img =? 0) = false /\ (img_strtab img =? 0) = false /\
    forall c, c ∈ commands m (img_header img) -> is_Some (named m images c)).
  { intros img Hin. specialize (Hall img ltac:(by apply list_elem_of_In)). unfold image_check in Hall. rewrite !andb_true_iff, !negb_true_iff, forallb_forall in Hall. destruct Hall as [[[[H1 H2] H3] H4] H5].
    split_and!; try done. intros c Hx. specialize (H5 c ltac:(by apply list_elem_of_In)). by destruct (named m images c). }
  split; [done|done|unfold MAX_IMAGES; lia| | | | |by apply few_images_short].
  - intros img Hin c Hx. destruct (Hc img Hin) as (Hh & _). unfold header_check in Hh. rewrite forallb_forall in Hh. specialize (Hh c ltac:(by apply list_elem_of_In)). cbv zeta in *. lia.
  - intros img Hin. destruct (Hc img Hin) as (_ & Hs & _). unfold symbols_check in Hs. rewrite andb_true_iff, forallb_forall in Hs. destruct Hs as [Hn Hs]. split; [|lia].
    intros i Hi sym _ _ _ _. specialize (Hs i ltac:(apply list_elem_of_In, elem_of_seqZ; lia)). cbv zeta in Hs. fold sym in Hs. destruct (symbolNameLen _ _ _); [|done]. split; [by eexists|].
    destruct (Z.eqb_spec (n_value sym +64 img_slide img) 0); done.
  - intros img Hin. destruct (Hc img Hin) as (_ & _ & H3 & H4 & _). lia.
  - intros img c Hin Hx _. by apply (Hc img Hin).
Qed.

(** A program that needs [/a]; [/a] re-exports [/b] and [/c], and [/b] re-exports [/a].
    [/b] has a weak definition of [_f], [/c] a strong one. *)
Definition graph_mem : mem :=
  let strings m := mstore (mstore (mstore (mstore m 0x100 [0x2f; 0x61; 0]) 0x110 [0x2f; 0x62; 0]) 0x120 [0x2f; 0x63; 0]) 0x7000 [0x5f; 0x66; 0] in
  let header m a ncmds cmds := mstore m a (fields (a_header ncmds (32 * ncmds) ++ cmds)) in
  let m := header ∅ 0x8000 1 (a_dylib LC_LOAD_DYLIB 0x612f) in
  let m := header m 0x10000 2 (a_dylib LC_REEXPORT_DYLIB 0x622f ++ a_dylib LC_REEXPORT_DYLIB 0x632f) in
  let m := header m 0x20000 1 (a_dylib LC_REEXPORT_DYLIB 0x612f) in
  let m := header m 0x30000 0 [] in
  let m := mstore m 0x5000 (fields [(4, 1); (1, 0xf); (1, 1); (2, N_WEAK_DEF); (8, 0x100); (4, 1); (1, 0xf); (1, 1); (2, 0); (8, 0x200)]) in
  strings (mstore m 0x6000 [0; 0x5f; 0x66; 0]).

Definition graph_main : LoadedImage := mkImage 0x40 0x8000 0x8000 0x130 0x5000 0x6000 0 4.
Definition graph_a : LoadedImage := mkImage 0x80 0x10000 0x10000 0x100 0x5000 0x6000 0 4.

Definition graph_images : list LoadedImage :=
  [graph_main; graph_a;
   mkImage 0xc0 0x20000 0x20000 0x110 0x5000 0x6000 1 4; mkImage 0x100 0x30000 0x30000 0x120 0x5010 0x6000 1 4].

Definition graph_start : dyld sample := mkDyld graph_mem no_cache graph_images empty_index 0 false (mkSample ∅ []).

Lemma graph_mem_wf : mem_wf graph_mem.
Proof. unfold graph_mem. cbv zeta. repeat apply mem_wf_mstore. apply mem_wf_empty. Qed.

Lemma symbol_resolved_witness :
  let '(a, st') := @resolveSymbol sample (sample_kernel []) sample_layout 0x7000 1 false (Some graph_main) graph_start in
  a = 0x30200 /\ exists k, node graph_images k graph_a /\ resolves graph_mem graph_images 0x7000 (rtc (edge graph_mem graph_images) k) a.
Proof.
  assert (Hli : linked_images graph_mem graph_images) by (apply linked_check_ok; [apply graph_mem_wf|vm_compute; reflexivity]).
  assert (Hn : forall c, c ∈ dylib_commands graph_mem graph_main -> is_Some (named graph_mem graph_images c)).
  { intros c. assert (E : dylib_commands graph_mem graph_main = [0x8020]) by (vm_compute; reflexivity). rewrite E.
    intros ->%list_elem_of_singleton. assert (Es : match named graph_mem graph_images 0x8020 with Some _ => true | None => false end = true) by (vm_compute; reflexivity). by destruct (named _ _ _). }
  assert (Hs : searching graph_mem graph_images graph_start) by (split_and!; [reflexivity|reflexivity|]; intros _; apply empty_index_inv).
  assert (Estart : symbol_start graph_mem 0x7000 = 0x7000) by (vm_compute; reflexivity).
  assert (Ename : cstr graph_mem 0x7000 = [0x5f; 0x66]) by (vm_compute; reflexivity).
  pose proof (@symbol_resolved sample (sample_kernel []) sample_layout graph_mem graph_images graph_main 0x7000 1 graph_start Hli
    ltac:(by left) Hn Hs ltac:(rewrite Estart, Ename; discriminate) ltac:(rewrite Estart; unfold _strlen; rewrite Ename; reflexivity)
    ltac:(rewrite Estart, Ename; unfold shims; rewrite !not_elem_of_cons; split_and!; [discriminate..|apply not_elem_of_nil])) as Hr.
  assert (Ea : (@resolveSymbol sample (sample_kernel []) sample_layout 0x7000 1 false (Some graph_main) graph_start).1 = 0x30200) by (vm_compute; reflexivity).
  assert (El : live (@resolveSymbol sample (sample_kernel []) sample_layout 0x7000 1 false (Some graph_main) graph_start).2) by (unfold live; vm_compute; reflexivity).
  assert (Ep : dylib_commands graph_mem graph_main !! Z.to_nat (1 - 1) ≫= named graph_mem graph_images = Some graph_a)
    by (vm_compute; reflexivity).
  rewrite Ep, Estart in Hr. destruct (@resolveSymbol sample (sample_kernel []) sample_layout 0x7000 1 false (Some graph_main) graph_start) as [a st'].
  cbn [fst snd] in Ea, El. destruct Hr as [_ Hr]. split; [exact Ea|exact (Hr El)].
Defined.
